(* ===== verification/_CoqProject ===== *)
-Q . S2P
Prelude.v
BoundedQueue.v
AtomicHashMap.v
RwLock.v
Pools.v
Blocker.v
Signal.v
CacheBuffer.v
DataFlow.v
GlobalData.v
Role.v
Warehouse.v
SingleValueWarehouse.v
MultiValueWarehouse.v
Graph.v
Manager.v
NodeManager.v
ChannelManager.v
ServiceManager.v
Decimal.v
TopologyManager.v
TimingWheel.v
Timer.v
Time.v
Bytes.v
MessageHeader.v
MessageInfo.v
History.v
ListenerHandler.v
IntraDispatcher.v
Hybrid.v
ShmBlocks.v
ShmSegment.v
ConditionNotifier.v
ShmTransport.v
Rtps.v
Client.v
Service.v
Node.v
CRoutine.v
TaskPools.v
UnboundedQueue.v
ClassicPolicy.v
Scheduler.v
PinThread.v
ClassLoader.v
ModuleController.v
Logger.v
Files.v
Component.v
