(* ===== verification/Prelude.v ===== *)
(** * Verification of the Cyber RT runtime of IntelligentDriving/my_cyber

    Cyber RT is the middleware of an autonomous-driving stack: nodes of many processes find each
    other, exchange messages over channels and services, and run callbacks on them.  Paths below
    are relative to src/IntelligentDriving/my_cyber.

    ** The program and how its parts interact

    - base/ holds the lock-free and locking data structures everything else is built on: a bounded
      multi-producer multi-consumer queue and an unbounded one, an insert-only hash map, two spinning read-write locks,
      object pools, signals with slots, a blocking queue and a pool of threads.
    - data/ carries the messages inside a process: a transport hands a message to the
      [DataDispatcher], which fills the [CacheBuffer]s registered for the channel and wakes the
      notifiers; a [DataVisitor] of several channels owns a fusion policy ([AllLatest]) that runs
      as a callback of the buffer of its first channel and fills a buffer of tuples.
    - common/global_data numbers nodes, channels, services and tasks by hashes of their names;
      common/file makes, copies, reads and deletes files.
    - service_discovery/ keeps the topology: a [TopologyManager] owns a node, a channel and a
      service manager; each announces the joins and leaves of its own process, receives those of
      the others, files the roles in warehouses and tells listeners through a signal; the channel
      manager also keeps the graph of the nodes.  When a process disappears, all its roles leave.
    - transport/ moves messages between processes: a transmitter writes to, and a dispatcher reads
      from, one of three carriers (the process itself, shared memory, RTPS), the dispatcher calls
      the listeners of the channel through handlers, and hybrid transmitters and receivers choose a
      carrier for each pair of ends by their relation.
    - message/ encodes messages with a header in front for the carriers that need bytes.
    - node/ is what users see: writers and readers that own the hybrid ends, announce themselves to
      the channel manager and enable each other on its change messages.
    - service/ builds calls on two channels, requests and responses, matched by number and identity.
    - blocker/ is the simulated transport of one process: queues per channel and subscribers.
    - timer/ runs callbacks later: timers put tasks on a two-level timing wheel whose tick thread
      hands them to the task pool.  time/ is their arithmetic, rates and a clock that can be mocked.
    - croutine/, scheduler/ and task/ run it all: coroutines wait for messages, processors pick the
      ready one of highest priority under one of two policies, notifications wake them, and the task
      manager runs tasks in coroutines.
    - class_loader/ opens libraries and makes objects of the classes they register; component/ is what
      such an object is, a [Proc] called with messages of up to four channels or by a timer; mainboard/
      reads configurations, loads what they name and takes it down again at the end.
    - src/logger/ hands the messages of the log to one file per module, in a thread of its own.

    ** Files

    - Prelude: machine integers, rings, interleavings of threads (Section Interleaving: program counters over
      a shared state, one atomic access per step), keyed stores and hash tables with unspecified
      iteration order ([HashOrder]), tactics and hint databases.  Bytes, Decimal: byte strings with bounded
      copies, numbers in decimal as [std::to_string] and [std::stoi] convert them.
    - BoundedQueue: base/bounded_queue.h, base/wait_strategy.h.  [Enqueue_step] and [Dequeue_step]
      are the two operations cut at their atomic accesses.
    - UnboundedQueue: base/unbounded_queue.h, cut at its atomic accesses, nodes with their counts.
    - AtomicHashMap: base/atomic_hash_map.h.  Bucket operations cut at their atomic accesses; the
      table above them; it is an instance of the interface [KeyedStore].
    - RwLock: base/atomic_rw_lock.h, reentrant_rw_lock.h, rw_lock_guard.h.
    - Pools: base/object_pool.h, concurrent_object_pool.h.
    - Signal: base/signal.h, slots on a heap, callbacks that act on their own signal.
    - TaskPools: base/thread_pool.h, base/thread_safe_queue.h, task/task_manager.cc; threads, callers and
      the destructor interleaved, condition variables, a log of tasks shared by the three.
    - CacheBuffer: data/cache_buffer.h, channel_buffer.h.
    - DataFlow: data/data_dispatcher.h, data_notifier.h, fusion/all_latest.h, data_visitor.h; the
      objects they share are in a store; clients of [KeyedStore].
    - GlobalData: the registries of common/global_data.cc over any [KeyedStore].
    - Role: service_discovery/role and the two messages of proto/ it uses.
    - Warehouse, SingleValueWarehouse, MultiValueWarehouse: service_discovery/container; Warehouse
      is the interface, a class with its laws, the other two are its instances.
    - Graph: service_discovery/container/graph.cc.
    - Manager, NodeManager, ChannelManager, ServiceManager: service_discovery/specific_manager;
      Manager is generic in the two virtual operations a specific manager supplies.
    - TopologyManager: service_discovery/topology_manager.cc.
    - TimingWheel, Timer: timer/timing_wheel.cc, timer_bucket.h, timer_task.h, timer.cc.  Time: time/.
    - MessageHeader: message/; the header through its byte arrays, protobuf and raw messages behind the
      interfaces [Message] with laws [LawfulMessage] and [StringMessage].
    - MessageInfo, History: transport/common/identity.cc, transport/message.
    - ListenerHandler: transport/message/listener_handler.h and dispatcher/dispatcher.h over Signal; a
      dispatcher refines the registry [channels].  IntraDispatcher: the carrier inside a process.
    - ShmBlocks: the blocks and their locks, cut at the atomic accesses.  ShmSegment: shm/segment.cc,
      posix_segment.cc, state.h, shm_conf.cc over a world of named shared memory in which every call
      of the system may fail.  ConditionNotifier: the ring of announcements, cut at its accesses; it
      is an instance of the interface [Notifier] with laws [LawfulNotifier].  ShmTransport: transmitter and
      dispatcher on all of these, for any lawful notifier and message.
    - Rtps: transport/rtps and its transmitter and dispatcher; attributes, participants, samples.
    - Hybrid: hybrid_transmitter.h, hybrid_receiver.h, over any dispatchers ([DispatcherOps]).
    - Node: node/; writers and readers of all processes as one world of steps over Hybrid and the
      topology of ChannelManager.
    - Client, Service: service/; clients, the service and its thread interleaved at their mutexes, over
      the sample identities of Rtps and the manager of services.
    - Blocker: blocker/.
    - CRoutine: croutine/ and the loop of a task.  ClassicPolicy: the classic scheduler with its
      processors interleaved at the atomic accesses.  Scheduler: both policies as whole operations behind the
      interface [Policy] with laws [LawfulPolicy].  PinThread: scheduler/common/pin_thread.cc.
    - ClassLoader: class_loader/; factories, loaders and their manager in one process state.
      ModuleController: mainboard/ over it, with the paths of common/file.cc.
    - Files: common/file.cc over a file system of places whose calls may be refused.
    - Component: component/; components over Blocker in simulation mode and over DataFlow in reality mode,
      timer components over Timer.
    - Logger: src/logger/; the asynchronous logger interleaved at its flag and buffers, the synchronous
      one, the files.

    Records have the members of the classes, operations keep the names of the methods (with a
    suffix where C++ overloads), errors and null pointers are [option]s or booleans as in the code.

    ** What the theorems show

    - Concurrency.  Under every interleaving of the atomic accesses: the bounded queue is FIFO
      without loss or duplication and its writers never share a cell; a bucket of the hash map is
      linearizable to a finite map and never misses a key that is there; the locks exclude each
      other's holders; the tagged free list of the pool gives an object to one owner at a time; the
      blocking queue loses no wake-up; task pools run every task at most once and in order.
    - Sequential contracts.  The uncontended queue is a bounded list, the hash map a finite map,
      the two warehouses a map and a multiset for any iteration order, the sequential pool a set of
      free objects, a history the newest messages, a blocker a topic with its subscribers.
    - Message flow.  A visitor of one channel sees unaltered messages in increasing order whatever
      the interleaving with writers; fusion gives the latest message of each channel; a dispatch
      reaches exactly the registered notifiers; every branch of a fetch is characterised.
    - Signals.  An emission calls exactly the slots connected at its start that are still connected
      at their turn.
    - Discovery.  Ids are unique and found back whatever the hash; the graph answers flow queries
      exactly as the relation of written and read channels says; the four views of the channel
      manager agree; of two nodes with one id the earliest stays; the life cycle of a manager; a
      process that leaves is removed from every table, and its name survives printing and parsing.
    - Encodings.  Headers, transport infos and sample identities round-trip, parsing stays inside its
      input, the setters and getters of a header are those of a record.
    - Carriers.  Readers and writers of a block exclude each other and a reader sees a whole message;
      segments stay consistent with their objects whatever fails; the ring announces each block once and
      in order; a message sent over shared memory, over RTPS or inside the process reaches exactly the
      listeners of its channel, once and in order, as it was sent.
    - Ends.  A hybrid pair delivers each message exactly once however they learn of each other; writers
      and readers that start and stop in interleaved steps know every peer of whose joining they have heard,
      and no others but those of whose leaving they have still to hear.
    - Services.  Every future gets its own answer and at most once, responses and requests are not
      lost, and [destroy] returns.
    - Scheduling.  A coroutine runs on one processor at a time, a notification is never lost, a
      removal is final, the registry and the queues agree under both policies, and shutdown clears them.
    - Applications.  The library of an object in use is open, and a library is open for its holders only;
      loading does what the configurations say or fails, and whatever happens the main board shuts every
      component down once and leaves nothing behind; a component is called with the same messages in
      simulation as in reality mode.
    - Files.  Making a directory makes its parents, a copy holds what the source holds, a deletion removes
      exactly one tree, on every tree whatever its depth; a message written is read back.
    - Logging.  Messages are neither lost nor reordered on their way to the file of their module, stopping
      flushes them, and the files stay short.
    - Timers.  The wheel hands every addition over once, at its own position, and does so after
      finitely many steps; periodic timers and rates do not drift; a stopped timer is silent.
    - Divergences.  Some theorems are concrete schedules or histories in which the code does not do
      what it is meant to: a queue reported full while empty, a pointer into a deleted value, a
      lost reentrant lock, colliding keys of edges and tasks, leaves that remove too much, lookups by the
      bare hash, a timer that fires one revolution early, workers that sleep beside a task, a callback
      that blocks its client, readers cut off by one that leaves, a list of processors that ends the
      process, a queue node deleted twice, a library closed beneath an object, a component never called in
      simulation mode, a message of the log that stops all others.

    ** Bounds and fuel

    Loops that are not structural take fuel.  The search of the graph gets as much as the queue
    and the unvisited edges can use up, and is proved never to run out; the probing of a registry
    gets one more than the registrations made, and a registration is proved to end while fewer than 2^64
    names exist; the waiting loops of the queue end one attempt after the wait that sees
    [break_all_wait_]; the loop over a buffer runs at most its length; the search for a writable block
    takes as many turns as there are blocks when one is free; the loops that shorten a history or the
    queue of a blocker take its length, the polls for a service one per 5 ms of the timeout; numbers are
    printed with 20 digits, enough for 64 bits; the task of a component polls until nothing is left, which
    any fuel above one allows after one message; copying and deleting a directory take more than its depth.  Retry loops of the
    lock-free code are not loops of the model: each retry is a step of an interleaving.  Counters
    are 64 or 32 bits wide with their wrap-around written out; theorems that need them not to wrap
    say so (a queue or buffer would need 2^64 messages).

    ** What is not modelled

    Interleavings are sequentially consistent: the memory orders given to atomics are not
    modelled, nor is the yielding of spinning threads.  Operations under one mutex are one step, where
    no other thread can see between.
    Fast-RTPS, protobuf, [std::hash], clocks and user callbacks are arguments or parameters; Fast-RTPS
    is relied on to carry a sample unchanged and to call the listener of its topic.
    Process start-up and signals (init.cc), the printing of the scheduler state (sysmo/), performance events,
    the parsing of command lines and the expansion of patterns are I/O; there are no symbolic links and no other
    process in the file system; the transport
    facade and the making of services by a node build the objects modelled here one by one; protobuf
    reflection and the generated protobuf code are calls of, or code of, others; XSI segments repeat the POSIX
    ones over other calls, and the multicast notifier is socket I/O.  Opening a library is an argument, the
    classes it registers a parameter.  Of modelled parts: the conversions between times and floating-point
    seconds, the statistics of a reader, the threads that move a history over RTPS, headers and names of log
    files.  The rest of the repository holds vendored projects and study notes. *)

From Stdlib Require Import ZArith Lia.
From stdpp Require Import base gmap list strings sorting fin_maps functions numbers.

#[global] Open Scope Z_scope.

(** ** Machine integers

    Unsigned 64- and 32-bit values are kept as [Z] in range; the arithmetic the
    code does on them is followed by an explicit reduction. *)

Definition two64 : Z := 2 ^ 64.
Definition two32 : Z := 2 ^ 32.
Definition two31 : Z := 2 ^ 31.

Definition u64 (x : Z) : Z := x mod two64.
Definition u32 (x : Z) : Z := x mod two32.

(** Two's complement wrap-around of a 32-bit signed integer. *)
Definition i32 (x : Z) : Z := (x + two31) mod two32 - two31.
(** Two's complement wrap-around of a 64-bit signed integer. *)
Definition i64 (x : Z) : Z := (x + 2 ^ 63) mod two64 - 2 ^ 63.

Declare Scope cyber_scope.
Delimit Scope cyber_scope with cyber.
Notation "x +u y" := (u64 (x + y)) (at level 50, left associativity) : cyber_scope.
Notation "x -u y" := (u64 (x - y)) (at level 50, left associativity) : cyber_scope.
Notation "x *u y" := (u64 (x * y)) (at level 40, left associativity) : cyber_scope.
#[global] Open Scope cyber_scope.

Create HintDb cyber.
Create Rewrite HintDb cyber.

(** [word_lia] closes linear goals about the machine constants. *)
Ltac word_lia := unfold two64, two32, two31 in *; lia.

(** [zcase] splits on an integer comparison in the goal. *)
Ltac zcase :=
  match goal with
  | |- context [?a =? ?b] => destruct (Z.eqb_spec a b)
  | |- context [?a <? ?b] => destruct (Z.ltb_spec a b)
  | |- context [?a <=? ?b] => destruct (Z.leb_spec a b)
  end.

Lemma u64_small x : 0 <= x < two64 -> u64 x = x.
Proof. intros; unfold u64; apply Z.mod_small; lia. Qed.

Lemma u64_range x : 0 <= u64 x < two64.
Proof. unfold u64; apply Z.mod_pos_bound; reflexivity. Qed.

Lemma u32_small x : 0 <= x < two32 -> u32 x = x.
Proof. intros; unfold u32; apply Z.mod_small; lia. Qed.

Lemma u32_range x : 0 <= u32 x < two32.
Proof. unfold u32; apply Z.mod_pos_bound; reflexivity. Qed.

Lemma i32_small x : - two31 <= x < two31 -> i32 x = x.
Proof. intros; unfold i32; rewrite Z.mod_small by word_lia; lia. Qed.

Lemma i64_small x : - 2 ^ 63 <= x < 2 ^ 63 -> i64 x = x.
Proof. intros; unfold i64; rewrite Z.mod_small by word_lia; lia. Qed.

Lemma i64_range x : - 2 ^ 63 <= i64 x < 2 ^ 63.
Proof.
  unfold i64. pose proof (Z.mod_pos_bound (x + 2 ^ 63) two64 eq_refl). word_lia.
Qed.

Lemma u64_idemp x : u64 (u64 x) = u64 x.
Proof. unfold u64. apply Z.mod_mod. discriminate. Qed.

#[export] Hint Resolve u64_range u32_range i64_range : cyber.
#[export] Hint Rewrite u64_small u32_small i32_small i64_small using word_lia : cyber.

(** ** Residues

    Two positions of a ring that are less than one turn apart have different
    indices. *)
Lemma mod_neq_window P a b :
  0 < P -> a < b < a + P -> a mod P <> b mod P.
Proof.
  intros HP Hw He.
  pose proof (Z.div_mod a P ltac:(lia)); pose proof (Z.div_mod b P ltac:(lia)).
  assert (b - a = P * (b / P - a / P)) by lia.
  destruct (Z.le_gt_cases (b / P) (a / P)); nia.
Qed.

Lemma mod_eq_window P a b :
  0 < P -> a <= b < a + P -> a mod P = b mod P -> a = b.
Proof.
  intros HP Hw He. destruct (decide (a = b)) as [|Hne]; [done|].
  exfalso. by apply (mod_neq_window P a b HP); [lia|].
Qed.

Lemma mod_add_turn P a : 0 < P -> (a + P) mod P = a mod P.
Proof.
  intros HP. rewrite <- (Z.mul_1_l P) at 1. apply Z.mod_add. lia.
Qed.

(** The index form the ring buffers of the code use in place of [%]. *)
Lemma sub_div_mul_mod a P : 0 < P -> a - a / P * P = a mod P.
Proof. intros. rewrite Z.mod_eq by lia. lia. Qed.

Lemma Z_mod_lt_length {A} (l : list A) P x :
  0 < P -> Z.of_nat (length l) = P -> (Z.to_nat (x mod P) < length l)%nat.
Proof. intros HP Hl. pose proof (Z.mod_pos_bound x P HP). lia. Qed.

Lemma Z_to_nat_mod_inj P x y :
  0 < P -> Z.to_nat (x mod P) = Z.to_nat (y mod P) -> x mod P = y mod P.
Proof.
  intros HP He.
  pose proof (Z.mod_pos_bound x P HP); pose proof (Z.mod_pos_bound y P HP). lia.
Qed.

#[export] Hint Resolve Z_mod_lt_length : cyber.

(** ** Interleavings

    A system of threads over a shared state: every thread has a program counter
    (with the locals it needs), an event lets one thread make one atomic access.
    All the concurrent components of the development are instances of it; the
    interleavings are sequentially consistent. *)
Section Interleaving.
Context {S L E : Type} (tstep : S -> L -> E -> S * L).

Record conf := Conf { shared : S; pcs : nat -> L }.

Definition exec1 (c : conf) (ev : nat * E) : conf :=
  let r := tstep (shared c) (pcs c ev.1) ev.2 in
  Conf r.1 (<[ev.1 := r.2]> (pcs c)).

Definition exec (c : conf) (sched : list (nat * E)) : conf := foldl exec1 c sched.

Lemma exec_app c s1 s2 : exec c (s1 ++ s2) = exec (exec c s1) s2.
Proof. apply foldl_app. Qed.

(** An invariant that may mention the number of events so far. *)
Lemma exec_invariant (I : nat -> conf -> Prop) (N : nat) c sched :
  (forall n c ev, (n < N)%nat -> I n c -> I (n + 1)%nat (exec1 c ev)) ->
  I 0%nat c -> (length sched <= N)%nat -> I (length sched) (exec c sched).
Proof.
  intros Hstep H0. induction sched as [|ev sched IH] using rev_ind; [done|].
  rewrite length_app, exec_app; simpl. intros Hle. apply Hstep; [lia|apply IH; lia].
Qed.

(** Local assertions are kept when the acting thread establishes its own and every
    other thread's is stable under the change of the shared state. *)
Lemma exec1_local (T : S -> nat -> L -> Prop) c ev :
  (forall u, T (shared c) u (pcs c u)) ->
  T (shared (exec1 c ev)) ev.1 (tstep (shared c) (pcs c ev.1) ev.2).2 ->
  (forall u l, u <> ev.1 -> T (shared c) u l -> l = pcs c u ->
     T (shared (exec1 c ev)) u l) ->
  forall u, T (shared (exec1 c ev)) u (pcs (exec1 c ev) u).
Proof.
  intros Hall Hown Hstab u. simpl. destruct (decide (u = ev.1)) as [->|Hne].
  - by rewrite fn_lookup_insert.
  - rewrite fn_lookup_insert_ne by done. eauto.
Qed.
End Interleaving.
Arguments Conf {S L} _ _.
Arguments shared {S L} _.
Arguments pcs {S L} _ _.

(** Case analysis on the threads: the acting one or another. *)
Ltac thread_cases u t :=
  destruct (decide (u = t)) as [->|]; [rewrite ?fn_lookup_insert in * | rewrite ?fn_lookup_insert_ne in * by done].

(** A weak compare-and-swap that may fail spuriously. *)
Definition cas_weak (spurious : bool) (current expected : Z) : bool :=
  negb spurious && (current =? expected).

(** *** Counting threads

    [S] is the set of threads whose program counter satisfies [f]. *)
Definition tracks {L} (f : L -> bool) (pcs : nat -> L) (S : gset nat) : Prop :=
  forall u, u ∈ S <-> f (pcs u) = true.

Section Tracks.
Context {L : Type} (f : L -> bool) (g : nat -> L) (t : nat) (p : L).

Lemma tracks_same (S : gset nat) : tracks f g S -> f p = f (g t) -> tracks f (<[t := p]> g) S.
Proof. intros Hs He u. rewrite (Hs u). thread_cases u t; by rewrite ?He. Qed.

Lemma tracks_add (S : gset nat) :
  tracks f g S -> f p = true -> f (g t) = false ->
  tracks f (<[t := p]> g) ({[t]} ∪ S) /\ size ({[t]} ∪ S : gset nat) = Datatypes.S (size S).
Proof.
  intros Hs Hp Hg. split.
  - intros u. rewrite elem_of_union, elem_of_singleton, (Hs u).
    thread_cases u t; [by rewrite Hp; split; auto|]. intuition congruence.
  - rewrite size_union, size_singleton; [done|].
    apply disjoint_singleton_l. rewrite (Hs t), Hg. done.
Qed.

Lemma tracks_del (S : gset nat) :
  tracks f g S -> f p = false -> f (g t) = true ->
  tracks f (<[t := p]> g) (S ∖ {[t]}) /\ size S = Datatypes.S (size (S ∖ {[t]})).
Proof.
  intros Hs Hp Hg. split.
  - intros u. rewrite elem_of_difference, elem_of_singleton, (Hs u).
    thread_cases u t; [rewrite Hp; intuition congruence|]. intuition congruence.
  - assert (t ∈ S) by (by apply Hs). rewrite size_difference by set_solver.
    rewrite size_singleton. assert (size S <> 0%nat); [|lia].
    intros ->%size_empty_inv%leibniz_equiv. set_solver.
Qed.
End Tracks.

Lemma tracks_empty_size (S : gset nat) : size S = 0%nat -> S = ∅.
Proof. intros. by apply leibniz_equiv, size_empty_inv. Qed.

(** *** Mutual exclusion

    [mutex_inv f pcs b]: the threads whose program counter satisfies [f] are the holders of a
    lock with the flag [b]. *)
Definition mutex_inv {L} (f : L -> bool) (pcs : nat -> L) (b : bool) : Prop :=
  (forall t u, f (pcs t) = true -> f (pcs u) = true -> t = u) /\
  (b = false -> forall t, f (pcs t) = false).

Section Mutex.
Context {L : Type} (f : L -> bool) (g : nat -> L) (t : nat) (p : L).

Lemma mutex_keep b : mutex_inv f g b -> f p = f (g t) -> mutex_inv f (<[t := p]> g) b.
Proof.
  intros [Hu Hf] He. split.
  - intros u v. thread_cases u t; thread_cases v t; rewrite ?He; eauto.
  - intros Hb u. thread_cases u t; rewrite ?He; auto.
Qed.

Lemma mutex_acquire : mutex_inv f g false -> mutex_inv f (<[t := p]> g) true.
Proof.
  intros [_ Hf]. split; [|done]. intros u v.
  thread_cases u t; thread_cases v t; try done; rewrite Hf by done; done.
Qed.

Lemma mutex_release b : mutex_inv f g b -> f (g t) = true -> f p = false -> mutex_inv f (<[t := p]> g) false.
Proof.
  intros [Hu Hf] Ho Hp. split.
  - intros u v. thread_cases u t; thread_cases v t; rewrite ?Hp; try done; eauto.
  - intros _ u. thread_cases u t; [done|]. destruct (f (g u)) eqn:E; [|done]. by destruct (Hu u t E Ho).
Qed.

Lemma mutex_fresh b : (forall u, f (g u) = false) -> mutex_inv f g b.
Proof. intros Hn. split; [|done]. intros u v Hu. by rewrite Hn in Hu. Qed.

Lemma mutex_drop : mutex_inv f g true -> f p = false -> mutex_inv f (<[t := p]> g) true.
Proof.
  intros [Hu _] Hp. split; [|done]. intros u v.
  thread_cases u t; thread_cases v t; rewrite ?Hp; try done; eauto.
Qed.

Lemma mutex_held b : mutex_inv f g b -> f (g t) = true -> b = true.
Proof. intros [_ Hf] Ho. destruct b; [done|]. by rewrite Hf in Ho. Qed.
End Mutex.

(** [rw_inv fr fw pcs z]: readers and writers of a lock with the counter [z] of a read-write
    lock: the number of readers, or -1 while a writer is in. *)
Definition rw_inv {L} (fr fw : L -> bool) (pcs : nat -> L) (z : Z) : Prop :=
  exists R : gset nat, tracks fr pcs R /\
    (z = Z.of_nat (size R) /\ (forall t, fw (pcs t) = false) \/
     z = -1 /\ size R = 0%nat /\ mutex_inv fw pcs true).

Section ReadWrite.
Context {L : Type} (fr fw : L -> bool) (g : nat -> L) (t : nat) (p : L).

Lemma rw_keep z : rw_inv fr fw g z -> fr p = fr (g t) -> fw p = fw (g t) -> rw_inv fr fw (<[t := p]> g) z.
Proof.
  intros (R & HR & Hz) Hr Hw. exists R. split; [by apply tracks_same|].
  destruct Hz as [[-> Hn]|(-> & Hs & Hm)]; [left|right].
  - split; [done|]. intros u. thread_cases u t; rewrite ?Hw; auto.
  - split_and!; [done..|]. by apply mutex_keep.
Qed.

Lemma rw_rlock z : rw_inv fr fw g z -> 0 <= z -> fr p = true -> fr (g t) = false -> fw p = false ->
  rw_inv fr fw (<[t := p]> g) (z + 1).
Proof.
  intros (R & HR & [[-> Hn]|(-> & _)]) Hz Hp Hg Hw; [|lia].
  destruct (tracks_add fr g t p R HR Hp Hg) as [HR' Hs].
  eexists. split; [done|]. left. rewrite Hs. split; [lia|].
  intros u. thread_cases u t; auto.
Qed.

Lemma rw_runlock z : rw_inv fr fw g z -> fr (g t) = true -> fr p = false -> fw p = false ->
  rw_inv fr fw (<[t := p]> g) (z - 1).
Proof.
  intros (R & HR & Hz) Hg Hp Hw. destruct (tracks_del fr g t p R HR Hp Hg) as [HR' Hs].
  eexists. split; [done|]. left. destruct Hz as [[-> Hn]|(-> & Hs' & _)]; [|lia].
  split; [lia|]. intros u. thread_cases u t; auto.
Qed.

Lemma rw_wlock : rw_inv fr fw g 0 -> fr p = false -> rw_inv fr fw (<[t := p]> g) (-1).
Proof.
  intros (R & HR & [[Hz Hn]|(? & _)]) Hp; [|lia].
  assert (R = ∅) as -> by (apply tracks_empty_size; lia).
  exists ∅. split.
  - intros u. thread_cases u t; [by rewrite Hp|]. apply HR.
  - right. split_and!; [done|by rewrite size_empty|]. by apply mutex_acquire, mutex_fresh.
Qed.

Lemma rw_wunlock z : rw_inv fr fw g z -> fw (g t) = true -> fw p = false -> fr p = false ->
  rw_inv fr fw (<[t := p]> g) 0.
Proof.
  intros (R & HR & Hz) Hg Hw Hp. destruct Hz as [[-> Hn]|(-> & Hs & Hm)]; [by rewrite Hn in Hg|].
  assert (R = ∅) as -> by (apply tracks_empty_size; lia).
  exists ∅. split.
  - intros u. thread_cases u t; [by rewrite Hp|]. apply HR.
  - left. rewrite size_empty. split; [done|]. by eapply mutex_release.
Qed.

(** A reader excludes every writer. *)
Lemma rw_excludes z u : rw_inv fr fw g z -> fr (g t) = true -> fw (g u) = false.
Proof.
  intros (R & HR & [[-> Hn]|(-> & Hs & Hm)]) Hr; [auto|].
  rewrite (tracks_empty_size R Hs) in HR. apply HR in Hr. set_solver.
Qed.
End ReadWrite.

(** ** Lists *)

Lemma lookup_snoc_lt {A} (l : list A) x i :
  (i < length l)%nat -> (l ++ [x]) !! i = l !! i.
Proof. intros. by rewrite lookup_app_l. Qed.

Lemma lookup_snoc_len {A} (l : list A) x : (l ++ [x]) !! length l = Some x.
Proof. apply list_lookup_middle. done. Qed.

Lemma take_snoc_le {A} n (l : list A) x :
  (n <= length l)%nat -> take n (l ++ [x]) = take n l.
Proof. intros. by rewrite take_app_le. Qed.

Lemma take_succ_lookup {A} n (l : list A) x :
  l !! n = Some x -> take (S n) l = take n l ++ [x].
Proof. intros. by apply take_S_r. Qed.

Lemma filter_ext_elem {A} (P Q : A -> Prop) `{!forall x, Decision (P x), !forall x, Decision (Q x)} (l : list A) :
  (forall x, x ∈ l -> P x <-> Q x) -> filter P l = filter Q l.
Proof.
  induction l as [|x l IH]; [done|]. intros He. rewrite !filter_cons, IH by set_solver.
  specialize (He x ltac:(set_solver)). by repeat case_decide; try tauto.
Qed.

Lemma filter_id_elem {A} (P : A -> Prop) `{!forall x, Decision (P x)} (l : list A) :
  (forall x, x ∈ l -> P x) -> filter P l = l.
Proof.
  induction l as [|x l IH]; [done|]. intros Hp. rewrite filter_cons, decide_True, IH by set_solver. done.
Qed.

Lemma filter_none_elem {A} (P : A -> Prop) `{!forall x, Decision (P x)} (l : list A) :
  (forall x, x ∈ l -> ~ P x) -> filter P l = [].
Proof.
  induction l as [|x l IH]; [done|]. intros Hp. rewrite filter_cons, decide_False, IH by set_solver. done.
Qed.

(** ** Stores keyed by channel id

    What the dispatching components need from the map they keep their per-channel
    vectors in: [ks_set] replaces the value of a key, [ks_modify] writes through the
    pointer that a successful lookup returned. *)
Class KeyedStore (M V : Type) := {
  ks_wf : M -> Prop;
  ks_empty : M;
  ks_get : M -> Z -> option V;
  ks_set : M -> Z -> V -> M;
  ks_modify : M -> Z -> (V -> V) -> M;
  ks_empty_wf : ks_wf ks_empty;
  ks_get_empty : forall k, ks_get ks_empty k = None;
  ks_set_wf : forall m k v, ks_wf m -> ks_wf (ks_set m k v);
  ks_get_set : forall m k v j, ks_wf m ->
    ks_get (ks_set m k v) j = if decide (j = k) then Some v else ks_get m j;
  ks_modify_wf : forall m k f, ks_wf m -> ks_wf (ks_modify m k f);
  ks_get_modify : forall m k f j, ks_wf m ->
    ks_get (ks_modify m k f) j = if decide (j = k) then f <$> ks_get m k else ks_get m j
}.

(** ** Hash tables

    The standard's unordered containers iterate in an order of their own, which an
    insertion may change (rehashing).  The models keep the elements in iteration order and
    let [rehash] rearrange them at every insertion; nothing depends on the choice. *)
Class HashOrder := {
  rehash : forall {A : Type}, list A -> list A;
  rehash_perm : forall A (l : list A), rehash l ≡ₚ l
}.

(** The order in which the most recently inserted element comes first. *)
#[refine] Definition recent_first : HashOrder := {| rehash := fun _ l => l |}.
Proof. done. Defined.
