(* ===== verification/BoundedQueue.v ===== *)
(** * BoundedQueue: the lock-free ring of base/bounded_queue.h

    [Enqueue] and [Dequeue] are split at their atomic accesses: a program counter
    [pc] records where a thread is and the locals it holds, one step makes one
    access to [head_], [tail_], [commit_] or a pool cell.  [q_step] is the system of
    all threads; two history variables record the values in the order in which
    positions were claimed by enqueuers and handed out by dequeuers.  The main
    result is that the queue is a FIFO queue under every interleaving. *)

From Stdlib Require Import ZArith Lia.
From stdpp Require Import base sets functions numbers list.
From S2P Require Import Prelude.

(** The wait strategies of base/wait_strategy.h with their parameters. *)
Inductive WaitStrategy :=
| BlockWaitStrategy
| SleepWaitStrategy (sleep_time_us_ : Z)
| YieldWaitStrategy
| BusySpinWaitStrategy
| TimeoutBlockWaitStrategy (time_out_ : Z).

(** [EmptyWait]: every strategy returns [true] once it resumes, except that the
    timed one returns [false] when its wait timed out. *)
Definition EmptyWait (s : WaitStrategy) (timed_out : bool) : bool :=
  match s with
  | TimeoutBlockWaitStrategy _ => negb timed_out
  | _ => true
  end.

Section BoundedQueue.
Context {T : Type}.

Record BoundedQueue := mkQueue {
  head_ : Z;
  tail_ : Z;
  commit_ : Z;
  pool_size_ : Z;
  pool_ : list T;
  wait_strategy_ : option WaitStrategy;
  break_all_wait_ : bool
}.

Definition set_head q v := mkQueue v (tail_ q) (commit_ q) (pool_size_ q) (pool_ q) (wait_strategy_ q) (break_all_wait_ q).
Definition set_tail q v := mkQueue (head_ q) v (commit_ q) (pool_size_ q) (pool_ q) (wait_strategy_ q) (break_all_wait_ q).
Definition set_commit q v := mkQueue (head_ q) (tail_ q) v (pool_size_ q) (pool_ q) (wait_strategy_ q) (break_all_wait_ q).
Definition set_pool q v := mkQueue (head_ q) (tail_ q) (commit_ q) (pool_size_ q) v (wait_strategy_ q) (break_all_wait_ q).

(** The members' initialisers: no pool, no strategy. *)
Definition BoundedQueue_new : BoundedQueue := mkQueue 0 1 1 0 [] None false.

(** [Init(size, strategy)]; [calloc_ok] is the outcome of the allocation, [dflt] a
    value-initialised element.  [Init(size)] passes a default sleeping strategy. *)
Definition Init (dflt : T) (calloc_ok : bool) (size : Z) (strategy : WaitStrategy)
    (q : BoundedQueue) : bool * BoundedQueue :=
  let ps := size +u 2 in
  if calloc_ok then
    (true, mkQueue (head_ q) (tail_ q) (commit_ q) ps (replicate (Z.to_nat ps) dflt)
             (Some strategy) (break_all_wait_ q))
  else
    (false, mkQueue (head_ q) (tail_ q) (commit_ q) ps [] (wait_strategy_ q) (break_all_wait_ q)).

Definition Init_default (dflt : T) (calloc_ok : bool) (size : Z) (q : BoundedQueue) :=
  Init dflt calloc_ok size (SleepWaitStrategy 10000) q.

Definition GetIndex (q : BoundedQueue) (num : Z) : Z :=
  num -u (num / pool_size_ q *u pool_size_ q).

Definition Size (q : BoundedQueue) : Z := tail_ q -u head_ q -u 1.
Definition Empty (q : BoundedQueue) : bool := Size q =? 0.

Definition SetWaitStrategy (q : BoundedQueue) (s : WaitStrategy) : BoundedQueue :=
  mkQueue (head_ q) (tail_ q) (commit_ q) (pool_size_ q) (pool_ q) (Some s) (break_all_wait_ q).

Definition BreakAllWait (q : BoundedQueue) : BoundedQueue :=
  mkQueue (head_ q) (tail_ q) (commit_ q) (pool_size_ q) (pool_ q) (wait_strategy_ q) true.

(** Where a thread is inside [Enqueue] or [Dequeue]. *)
Inductive pc :=
| Idle
| EnqCheck (x : T) (old_tail : Z)
| EnqCas (x : T) (old_tail : Z)
| EnqStore (x : T) (old_tail : Z)
| EnqCommit (old_tail : Z)
| EnqRet (ok : bool)
| DeqCheck (old_head : Z)
| DeqRead (old_head : Z)
| DeqCas (old_head : Z) (element : T)
| DeqRet (element : option T).

(** [compare_exchange_weak] may fail although the values agree. *)
Definition cas_ok (spurious : bool) (current expected : Z) : bool :=
  negb spurious && (current =? expected).

(** The steps of [Enqueue]; the two overloads differ in copying or moving the
    element into its cell. *)
Definition Enqueue_step (q : BoundedQueue) (spurious : bool) (p : pc) : BoundedQueue * pc :=
  match p with
  | EnqCheck x old_tail =>
      let new_tail := old_tail +u 1 in
      if GetIndex q new_tail =? GetIndex q (head_ q)
      then (q, EnqRet false) else (q, EnqCas x old_tail)
  | EnqCas x old_tail =>
      if cas_ok spurious (tail_ q) old_tail
      then (set_tail q (old_tail +u 1), EnqStore x old_tail)
      else (q, EnqCheck x (tail_ q))
  | EnqStore x old_tail =>
      (set_pool q (<[Z.to_nat (GetIndex q old_tail) := x]> (pool_ q)), EnqCommit old_tail)
  | EnqCommit old_tail =>
      if cas_ok spurious (commit_ q) old_tail
      then (set_commit q (old_tail +u 1), EnqRet true)
      else (q, EnqCommit old_tail)
  | _ => (q, p)
  end.

(** The steps of [Dequeue].  A cell outside the pool is never read (see the
    invariant); reading one would leave the thread where it is. *)
Definition Dequeue_step (q : BoundedQueue) (spurious : bool) (p : pc) : BoundedQueue * pc :=
  match p with
  | DeqCheck old_head =>
      let new_head := old_head +u 1 in
      if new_head =? commit_ q then (q, DeqRet None) else (q, DeqRead old_head)
  | DeqRead old_head =>
      match pool_ q !! Z.to_nat (GetIndex q (old_head +u 1)) with
      | Some x => (q, DeqCas old_head x)
      | None => (q, p)
      end
  | DeqCas old_head x =>
      if cas_ok spurious (head_ q) old_head
      then (set_head q (old_head +u 1), DeqRet (Some x))
      else (q, DeqCheck (head_ q))
  | _ => (q, p)
  end.

(** Events of a thread: a call (which makes the first load), or the next step of the
    call in progress.  A call made while one is in progress is ignored. *)
Inductive event :=
| CallEnqueue (x : T)
| CallDequeue
| Step (spurious : bool).

Definition q_thread (q : BoundedQueue) (p : pc) (e : event) : BoundedQueue * pc :=
  match p, e with
  | (Idle | EnqRet _ | DeqRet _), CallEnqueue x => (q, EnqCheck x (tail_ q))
  | (Idle | EnqRet _ | DeqRet _), CallDequeue => (q, DeqCheck (head_ q))
  | (EnqCheck _ _ | EnqCas _ _ | EnqStore _ _ | EnqCommit _), Step b => Enqueue_step q b p
  | (DeqCheck _ | DeqRead _ | DeqCas _ _), Step b => Dequeue_step q b p
  | _, _ => (q, p)
  end.

(** The shared state with its histories. *)
Record hqueue := HQ { hq : BoundedQueue; enq_log : list T; deq_log : list T }.

Definition enq_claim (p p' : pc) : list T :=
  match p, p' with EnqCas x _, EnqStore _ _ => [x] | _, _ => [] end.
Definition deq_claim (p p' : pc) : list T :=
  match p, p' with DeqCas _ _, DeqRet (Some x) => [x] | _, _ => [] end.

Definition q_step (s : hqueue) (p : pc) (e : event) : hqueue * pc :=
  let r := q_thread (hq s) p e in
  (HQ r.1 (enq_log s ++ enq_claim p r.2) (deq_log s ++ deq_claim p r.2), r.2).

Definition q_init (q : BoundedQueue) : conf := Conf (HQ q [] []) (fun _ : nat => Idle).

(** One thread alone, [n] steps without spurious failures. *)
Fixpoint solo (n : nat) (q : BoundedQueue) (p : pc) : BoundedQueue * pc :=
  match n with
  | O => (q, p)
  | S n => let r := q_thread q p (Step false) in solo n r.1 r.2
  end.

(** [Enqueue]/[Dequeue] run to completion by one thread without interference. *)
Definition Enqueue_solo (q : BoundedQueue) (x : T) : bool * BoundedQueue :=
  let r := solo 4 q (EnqCheck x (tail_ q)) in
  (match r.2 with EnqRet b => b | _ => false end, r.1).
Definition Dequeue_solo (q : BoundedQueue) : option T * BoundedQueue :=
  let r := solo 3 q (DeqCheck (head_ q)) in
  (match r.2 with DeqRet o => o | _ => None end, r.1).

(** [WaitEnqueue]: [env i q] is the queue as the other threads leave it during the
    [i]-th wait and whether that wait timed out.  There is no result ([None]) when
    [fuel] runs out or the strategy pointer is null. *)
Fixpoint WaitEnqueue (fuel : nat) (env : nat -> BoundedQueue -> BoundedQueue * bool)
    (i : nat) (q : BoundedQueue) (x : T) : option (bool * BoundedQueue) :=
  match fuel with
  | O => None
  | S fuel =>
      if break_all_wait_ q then Some (false, q) else
      let r := Enqueue_solo q x in
      if r.1 then Some (true, r.2) else
      match wait_strategy_ r.2 with
      | None => None
      | Some ws =>
          let w := env i r.2 in
          if EmptyWait ws w.2 then WaitEnqueue fuel env (i + 1) w.1 x
          else Some (false, w.1)
      end
  end.

Fixpoint WaitDequeue (fuel : nat) (env : nat -> BoundedQueue -> BoundedQueue * bool)
    (i : nat) (q : BoundedQueue) : option (option T * BoundedQueue) :=
  match fuel with
  | O => None
  | S fuel =>
      if break_all_wait_ q then Some (None, q) else
      let r := Dequeue_solo q in
      match r.1 with
      | Some x => Some (Some x, r.2)
      | None =>
          match wait_strategy_ r.2 with
          | None => None
          | Some ws =>
              let w := env i r.2 in
              if EmptyWait ws w.2 then WaitDequeue fuel env (i + 1) w.1
              else Some (None, w.1)
          end
      end
  end.
End BoundedQueue.
Arguments BoundedQueue : clear implicits.
Arguments pc : clear implicits.
Arguments event : clear implicits.
Arguments hqueue : clear implicits.

(** ** The concurrency invariant *)
Section Invariant.
Context {T : Type} (P : Z).
Implicit Types (s : hqueue T) (q : BoundedQueue T) (p : pc T).

(** The invariant of the shared state after [n] events. *)
Record shared_ok (n : nat) (s : hqueue T) : Prop := {
  so_ps : pool_size_ (hq s) = P;
  so_pool : Z.of_nat (length (pool_ (hq s))) = P;
  so_head : 0 <= head_ (hq s) < commit_ (hq s);
  so_commit : commit_ (hq s) <= tail_ (hq s);
  so_tail : tail_ (hq s) < head_ (hq s) + P;
  so_time : tail_ (hq s) <= Z.of_nat n + 1;
  so_enq : Z.of_nat (length (enq_log s)) = tail_ (hq s) - 1;
  so_deq : deq_log s = take (Z.to_nat (head_ (hq s))) (enq_log s);
  so_cells : forall i, head_ (hq s) < i < commit_ (hq s) ->
    pool_ (hq s) !! Z.to_nat (i mod P) = enq_log s !! Z.to_nat (i - 1)
}.

(** What holds of a thread at each program point. *)
Definition pc_ok (s : hqueue T) (_ : nat) (p : pc T) : Prop :=
  match p with
  | EnqCheck _ ot => 1 <= ot <= tail_ (hq s)
  | EnqCas _ ot => 1 <= ot <= tail_ (hq s) /\
      (ot = tail_ (hq s) -> ot + 1 < head_ (hq s) + P)
  | EnqStore x ot => commit_ (hq s) <= ot < tail_ (hq s) /\
      enq_log s !! Z.to_nat (ot - 1) = Some x
  | EnqCommit ot => commit_ (hq s) <= ot < tail_ (hq s) /\
      pool_ (hq s) !! Z.to_nat (ot mod P) = enq_log s !! Z.to_nat (ot - 1)
  | DeqCheck oh => 0 <= oh <= head_ (hq s)
  | DeqRead oh => 0 <= oh <= head_ (hq s) /\
      (oh = head_ (hq s) -> oh + 1 < commit_ (hq s))
  | DeqCas oh x => 0 <= oh <= head_ (hq s) /\
      (oh = head_ (hq s) -> oh + 1 < commit_ (hq s) /\ enq_log s !! Z.to_nat oh = Some x)
  | _ => True
  end.

(** The position a thread has claimed and not yet committed. *)
Definition claimed (p : pc T) : option Z :=
  match p with EnqStore _ ot | EnqCommit ot => Some ot | _ => None end.

Definition claims_distinct (f : nat -> pc T) : Prop :=
  forall u v i, claimed (f u) = Some i -> claimed (f v) = Some i -> u = v.

Record q_inv (n : nat) (c : @conf (hqueue T) (pc T)) : Prop := {
  qi_shared : shared_ok n (shared c);
  qi_pcs : forall u, pc_ok (shared c) u (pcs c u);
  qi_claims : claims_distinct (pcs c)
}.

Hypothesis HP : 2 <= P < two64.

Lemma GetIndex_mod q i : pool_size_ q = P -> 0 <= i < two64 -> GetIndex q i = i mod P.
Proof.
  intros Hp Hi. unfold GetIndex. rewrite Hp.
  pose proof (Z.mul_div_le i P ltac:(lia)). pose proof (Z.div_pos i P ltac:(lia) ltac:(lia)).
  pose proof (Z.mod_pos_bound i P ltac:(lia)).
  rewrite (u64_small (i / P * P)) by lia.
  rewrite sub_div_mul_mod by lia. apply u64_small. lia.
Qed.

(** A claim at step [n] is a fresh position. *)
Lemma claims_insert f t p' :
  claims_distinct f ->
  (forall i, claimed p' = Some i -> claimed (f t) = Some i \/ forall u, claimed (f u) <> Some i) ->
  claims_distinct (<[t := p']> f).
Proof.
  intros Hd Hnew u v i. thread_cases u t; thread_cases v t; intros Hu Hv; try done.
  - destruct (Hnew i Hu) as [?|Hf]; [eauto|by apply Hf in Hv].
  - destruct (Hnew i Hv) as [?|Hf]; [eauto|by apply Hf in Hu].
  - eauto.
Qed.

Lemma claims_after_step n c t p' :
  q_inv n c ->
  (claimed p' = None \/ claimed p' = claimed (pcs c t)) ->
  claims_distinct (<[t := p']> (pcs c)).
Proof.
  intros [_ _ Hd] [Hn|He]; apply claims_insert; try done; intros i Hi.
  - congruence.
  - left. congruence.
Qed.

(** The invariant is kept by an event that leaves the shared state alone. *)
Lemma q_inv_quiet n c t e p' :
  q_inv n c ->
  q_thread (hq (shared c)) (pcs c t) e = (hq (shared c), p') ->
  enq_claim (pcs c t) p' = [] -> deq_claim (pcs c t) p' = [] ->
  pc_ok (shared c) t p' ->
  (claimed p' = None \/ claimed p' = claimed (pcs c t)) ->
  q_inv (n + 1) (exec1 q_step c (t, e)).
Proof.
  intros Hinv He H1 H2 Hok Hcl.
  assert (exec1 q_step c (t, e) = Conf (shared c) (<[t := p']> (pcs c))) as ->.
  { unfold exec1, q_step; simpl. rewrite He; simpl. rewrite H1, H2, !app_nil_r.
    by destruct (shared c). }
  split; simpl.
  - destruct Hinv as [[]]; split; try done. lia.
  - intros u. thread_cases u t; [done|]. apply Hinv.
  - by eapply claims_after_step.
Qed.

(** The invariant is kept by a step that changes the shared state: the new shared
    state is good, the acting thread's assertion holds and the others' are stable. *)
Lemma q_inv_step n c t e q' p' :
  q_inv n c ->
  q_thread (hq (shared c)) (pcs c t) e = (q', p') ->
  let s' := HQ q' (enq_log (shared c) ++ enq_claim (pcs c t) p')
                  (deq_log (shared c) ++ deq_claim (pcs c t) p') in
  shared_ok (n + 1) s' ->
  pc_ok s' t p' ->
  (forall u, u <> t -> pc_ok (shared c) u (pcs c u) -> pc_ok s' u (pcs c u)) ->
  (forall i, claimed p' = Some i ->
     claimed (pcs c t) = Some i \/ forall u, claimed (pcs c u) <> Some i) ->
  q_inv (n + 1) (exec1 q_step c (t, e)).
Proof.
  intros Hinv He s' Hs Hok Hst Hcl.
  assert (exec1 q_step c (t, e) = Conf s' (<[t := p']> (pcs c))) as ->.
  { unfold exec1, q_step; simpl. by rewrite He. }
  split; simpl; [done| |].
  - intros u. thread_cases u t; [done|]. apply Hst, Hinv. done.
  - apply claims_insert; [apply Hinv|done].
Qed.


(** Two uncommitted or undelivered positions use different cells. *)
Lemma cell_neq s n i j :
  shared_ok n s -> head_ (hq s) < i < tail_ (hq s) -> head_ (hq s) < j < tail_ (hq s) ->
  i <> j -> Z.to_nat (i mod P) <> Z.to_nat (j mod P).
Proof.
  intros [] Hi Hj Hne He. apply Z_to_nat_mod_inj in He; [|lia].
  destruct (Z.lt_ge_cases i j).
  - eapply (mod_neq_window P i j); [lia..|done].
  - eapply (mod_neq_window P j i); [lia..|done].
Qed.

Ltac inv_shared H := pose proof H as Hsok; destruct Hsok as [? ? ? ? ? ? ? ? ?].

(** [tail_.compare_exchange_weak] succeeds: position [tail_] is claimed. *)
Lemma q_inv_claim n c t x ot b :
  Z.of_nat n + 3 < two64 -> q_inv n c -> pcs c t = EnqCas x ot ->
  cas_ok b (tail_ (hq (shared c))) ot = true ->
  q_inv (n + 1) (exec1 q_step c (t, Step b)).
Proof.
  intros Hn Hinv Hpc Hcas. pose proof (qi_shared _ _ Hinv) as Hs. inv_shared Hs.
  pose proof (qi_pcs _ _ Hinv t) as Hp. rewrite Hpc in Hp. destruct Hp as [? Hroom].
  unfold cas_ok in Hcas. apply andb_true_iff in Hcas as Hc; destruct Hc as [_ Ht].
  apply Z.eqb_eq in Ht. subst ot. specialize (Hroom eq_refl).
  eapply q_inv_step; [done| rewrite Hpc; simpl; unfold cas_ok in *; rewrite Hcas; done|..];
    rewrite ?Hpc; simpl; rewrite ?u64_small, ?app_nil_r by lia.
  - split; simpl; try done; try lia.
    + rewrite length_app; simpl; lia.
    + rewrite take_app_le by lia. done.
    + intros i Hi. rewrite lookup_app_l by lia. eauto.
  - split; [lia|]. rewrite list_lookup_middle; [done|lia].
  - intros u _. destruct (pcs c u); simpl; try tauto; try lia.
    + intros [? He]. split; [lia|]. rewrite lookup_app_l by (apply lookup_lt_Some in He; lia). done.
    + intros [? He]. split; [lia|]. rewrite lookup_app_l by lia. done.
    + intros [? He]. split; [lia|]. intros Hh. destruct (He Hh) as [? He'].
      split; [lia|]. rewrite lookup_app_l by lia. done.
  - intros i [= <-]. right. intros u Hu. pose proof (qi_pcs _ _ Hinv u) as Hp.
    destruct (pcs c u); simplify_eq/=; lia.
Qed.

(** The element is written into the claimed cell. *)
Lemma q_inv_store n c t x ot b :
  Z.of_nat n + 3 < two64 -> q_inv n c -> pcs c t = EnqStore x ot ->
  q_inv (n + 1) (exec1 q_step c (t, Step b)).
Proof.
  intros Hn Hinv Hpc. pose proof (qi_shared _ _ Hinv) as Hs. inv_shared Hs.
  pose proof (qi_pcs _ _ Hinv t) as Hp. rewrite Hpc in Hp. destruct Hp as [? Hlog].
  assert (Hlen : (Z.to_nat (ot mod P) < length (pool_ (hq (shared c))))%nat)
    by (apply Z_mod_lt_length; lia).
  eapply q_inv_step; [done| rewrite Hpc; simpl; rewrite GetIndex_mod by lia; done|..];
    rewrite ?Hpc; simpl; rewrite ?app_nil_r.
  - split; simpl; try done; try lia.
    + rewrite length_insert. done.
    + intros i Hi. rewrite list_lookup_insert_ne; [eauto|].
      eapply cell_neq; [done|lia..].
  - split; [lia|]. rewrite list_lookup_insert_eq by done. done.
  - intros u Hu. destruct (pcs c u) as [| | | |ot'| | | | |] eqn:Hpu; simpl; try tauto.
    intros [? He]. split; [lia|]. rewrite list_lookup_insert_ne; [done|].
    eapply cell_neq; [done|lia..|]. intros ->. apply Hu.
    apply (qi_claims _ _ Hinv u t ot'); by rewrite ?Hpu, ?Hpc.
  - intros i [= <-]. left. done.
Qed.

(** The claim is committed: the position becomes available to dequeuers. *)
Lemma q_inv_commit n c t ot b :
  Z.of_nat n + 3 < two64 -> q_inv n c -> pcs c t = EnqCommit ot ->
  cas_ok b (commit_ (hq (shared c))) ot = true ->
  q_inv (n + 1) (exec1 q_step c (t, Step b)).
Proof.
  intros Hn Hinv Hpc Hcas. pose proof (qi_shared _ _ Hinv) as Hs. inv_shared Hs.
  pose proof (qi_pcs _ _ Hinv t) as Hp. rewrite Hpc in Hp. destruct Hp as [? Hcell].
  pose proof Hcas as Hc. unfold cas_ok in Hc. apply andb_true_iff in Hc as [_ Hc].
  apply Z.eqb_eq in Hc. subst ot.
  eapply q_inv_step; [done| rewrite Hpc; simpl; rewrite Hcas; done|..];
    rewrite ?Hpc; simpl; rewrite ?u64_small, ?app_nil_r by lia; [| done | | done].
  - split; simpl; try done; try lia.
    intros i Hi. destruct (decide (i = commit_ (hq (shared c)))) as [->|]; [done|].
    apply so_cells0. lia.
  - intros u Hu. destruct (pcs c u) as [| | |x' ot'|ot'| | | | |] eqn:Hpu; simpl; try tauto; try lia.
    + intros [? He]. split; [|done]. assert (ot' <> commit_ (hq (shared c))); [|lia].
      intros ->. apply Hu. apply (qi_claims _ _ Hinv u t (commit_ (hq (shared c)))); by rewrite ?Hpu, ?Hpc.
    + intros [? He]. split; [|done]. assert (ot' <> commit_ (hq (shared c))); [|lia].
      intros ->. apply Hu. apply (qi_claims _ _ Hinv u t (commit_ (hq (shared c)))); by rewrite ?Hpu, ?Hpc.
    + intros [? He]. split; [lia|]. intros Hh. destruct (He Hh). split; [lia|done].
Qed.

(** A dequeuer takes position [head_ + 1]. *)
Lemma q_inv_take n c t oh x b :
  Z.of_nat n + 3 < two64 -> q_inv n c -> pcs c t = DeqCas oh x ->
  cas_ok b (head_ (hq (shared c))) oh = true ->
  q_inv (n + 1) (exec1 q_step c (t, Step b)).
Proof.
  intros Hn Hinv Hpc Hcas. pose proof (qi_shared _ _ Hinv) as Hs. inv_shared Hs.
  pose proof (qi_pcs _ _ Hinv t) as Hp. rewrite Hpc in Hp. destruct Hp as [? Hval].
  pose proof Hcas as Hc. unfold cas_ok in Hc. apply andb_true_iff in Hc as [_ Hc].
  apply Z.eqb_eq in Hc. subst oh. destruct (Hval eq_refl) as [? Hx].
  eapply q_inv_step; [done| rewrite Hpc; simpl; rewrite Hcas; done|..];
    rewrite ?Hpc; simpl; rewrite ?u64_small, ?app_nil_r by lia; [| done | | done].
  - split; simpl; try done; try lia.
    + rewrite so_deq0, Z2Nat.inj_add, Nat.add_1_r by lia. symmetry. by apply take_succ_lookup.
    + intros i Hi. apply so_cells0. lia.
  - intros u Hu. destruct (pcs c u); simpl; try tauto; try lia.
Qed.

Lemma q_inv_check_tail n c t x ot b :
  Z.of_nat n + 3 < two64 -> q_inv n c -> pcs c t = EnqCheck x ot ->
  q_inv (n + 1) (exec1 q_step c (t, Step b)).
Proof.
  intros Hn Hinv Hpc. pose proof (qi_shared _ _ Hinv) as Hs. inv_shared Hs.
  pose proof (qi_pcs _ _ Hinv t) as Hp. rewrite Hpc in Hp. simpl in Hp.
  destruct (GetIndex (hq (shared c)) (ot +u 1) =? GetIndex (hq (shared c)) (head_ (hq (shared c)))) eqn:Hg.
  - eapply q_inv_quiet; [done|rewrite Hpc; simpl; rewrite Hg; done|rewrite ?Hpc; by auto..].
  - eapply q_inv_quiet; [done|rewrite Hpc; simpl; rewrite Hg; done|rewrite ?Hpc; simpl; auto..].
    split; [lia|]. intros Ht. apply Z.eqb_neq in Hg.
    rewrite u64_small, !GetIndex_mod in Hg by lia.
    assert (ot + 1 <> head_ (hq (shared c)) + P); [|lia].
    intros He. apply Hg. rewrite He. apply mod_add_turn. lia.
Qed.

Lemma q_inv_read n c t oh b :
  Z.of_nat n + 3 < two64 -> q_inv n c -> pcs c t = DeqRead oh ->
  q_inv (n + 1) (exec1 q_step c (t, Step b)).
Proof.
  intros Hn Hinv Hpc. pose proof (qi_shared _ _ Hinv) as Hs. inv_shared Hs.
  pose proof (qi_pcs _ _ Hinv t) as Hp. rewrite Hpc in Hp. simpl in Hp. destruct Hp as [? Hc].
  destruct (lookup_lt_is_Some_2 (pool_ (hq (shared c))) (Z.to_nat ((oh + 1) mod P))) as [x Hx].
  { apply Z_mod_lt_length; lia. }
  eapply q_inv_quiet; [done| rewrite Hpc; simpl; rewrite u64_small, GetIndex_mod, Hx by lia; done|rewrite ?Hpc; simpl; auto..].
  split; [lia|]. intros He. specialize (Hc He). split; [done|].
  rewrite so_cells0 in Hx by lia. by replace (oh + 1 - 1) with oh in Hx by lia.
Qed.

Ltac quiet Hpc := eapply q_inv_quiet; [done|rewrite Hpc; simpl; done|rewrite ?Hpc; simpl; auto..].

(** Every event keeps the invariant. *)
Lemma q_inv_exec1 n c ev :
  Z.of_nat n + 3 < two64 -> q_inv n c -> q_inv (n + 1) (exec1 q_step c ev).
Proof.
  intros Hn Hinv. destruct ev as [t e].
  pose proof (qi_shared _ _ Hinv) as Hs. inv_shared Hs.
  pose proof (qi_pcs _ _ Hinv t) as Hp.
  destruct (pcs c t) as [|x ot|x ot|x ot|ot|ok|oh|oh|oh x|o] eqn:Hpc; destruct e as [y| |b];
    try (quiet Hpc; simpl; lia); simpl in Hp.
  - by eapply q_inv_check_tail.
  - destruct (cas_ok b (tail_ (hq (shared c))) ot) eqn:Hcas; [by eapply q_inv_claim|].
    eapply q_inv_quiet; [done|rewrite Hpc; simpl; rewrite Hcas; done|rewrite ?Hpc; simpl; auto..]. lia.
  - by eapply q_inv_store.
  - destruct (cas_ok b (commit_ (hq (shared c))) ot) eqn:Hcas; [by eapply q_inv_commit|].
    eapply q_inv_quiet; [done|rewrite Hpc; simpl; rewrite Hcas; done|rewrite ?Hpc; simpl; auto..].
  - destruct (oh +u 1 =? commit_ (hq (shared c))) eqn:Hc;
      (eapply q_inv_quiet; [done|rewrite Hpc; simpl; rewrite Hc; done|rewrite ?Hpc; simpl; auto..]).
    apply Z.eqb_neq in Hc. rewrite u64_small in Hc by lia. split; lia.
  - by eapply q_inv_read.
  - destruct (cas_ok b (head_ (hq (shared c))) oh) eqn:Hcas; [by eapply q_inv_take|].
    eapply q_inv_quiet; [done|rewrite Hpc; simpl; rewrite Hcas; done|rewrite ?Hpc; simpl; auto..]. lia.
Qed.

Lemma q_inv_init q :
  head_ q = 0 -> tail_ q = 1 -> commit_ q = 1 -> pool_size_ q = P ->
  Z.of_nat (length (pool_ q)) = P -> q_inv 0 (q_init q).
Proof.
  intros Hh Ht Hc Hps Hl. split; simpl; [|done|intros u v i; simpl; done].
  split; simpl; rewrite ?Hh, ?Ht, ?Hc; simpl; try done; lia.
Qed.

Lemma q_inv_exec q sched :
  head_ q = 0 -> tail_ q = 1 -> commit_ q = 1 -> pool_size_ q = P ->
  Z.of_nat (length (pool_ q)) = P ->
  Z.of_nat (length sched) + 3 < two64 ->
  q_inv (length sched) (exec q_step (q_init q) sched).
Proof.
  intros. apply (exec_invariant _ _ (Z.to_nat (two64 - 3))).
  - intros n c ev Hlt Hi. apply q_inv_exec1; [lia|done].
  - by apply q_inv_init.
  - lia.
Qed.
End Invariant.

(** ** Sequential behaviour: refinement of a bounded list *)
Section Sequential.
Context {T : Type}.
Implicit Types (q : BoundedQueue T).

(** No operation in progress, indices below the wrap-around. *)
Record quiescent (q : BoundedQueue T) : Prop := {
  qu_ps : 2 <= pool_size_ q < two64;
  qu_pool : Z.of_nat (length (pool_ q)) = pool_size_ q;
  qu_head : 0 <= head_ q < tail_ q;
  qu_tail : tail_ q < head_ q + pool_size_ q;
  qu_commit : commit_ q = tail_ q;
  qu_bound : tail_ q + 1 < two64
}.

Definition cell q (i : Z) : option T := pool_ q !! Z.to_nat (i mod pool_size_ q).

(** The abstract queue: the elements of positions [head_ + 1 .. commit_ - 1]. *)
Definition contents q : list T :=
  omap (cell q) (seqZ (head_ q + 1) (commit_ q - head_ q - 1)).

Lemma cell_Some q i : quiescent q -> is_Some (cell q i).
Proof.
  intros []. apply lookup_lt_is_Some_2, Z_mod_lt_length; lia.
Qed.

Lemma omap_ext_in {A B} (f g : A -> option B) (l : list A) :
  (forall x, x ∈ l -> f x = g x) -> omap f l = omap g l.
Proof.
  induction l as [|a l IH]; intros Hx; [done|]; csimpl.
  rewrite (Hx a) by set_solver. rewrite IH by (intros; apply Hx; set_solver). done.
Qed.

Lemma omap_total_length {A B} (f : A -> option B) (l : list A) :
  (forall x, is_Some (f x)) -> length (omap f l) = length l.
Proof.
  intros Hf. induction l as [|a l IH]; [done|]; csimpl.
  destruct (Hf a) as [b ->]; csimpl. by rewrite IH.
Qed.

Lemma Size_quiescent q : quiescent q -> Size q = tail_ q - head_ q - 1.
Proof.
  intros []. unfold Size. rewrite (u64_small (tail_ q - head_ q)) by lia.
  apply u64_small. lia.
Qed.

Lemma contents_length q : quiescent q -> Z.of_nat (length (contents q)) = Size q.
Proof.
  intros Hq. rewrite Size_quiescent by done. unfold contents.
  rewrite omap_total_length by (intros; by apply cell_Some).
  destruct Hq. rewrite length_seqZ. lia.
Qed.

Lemma seqZ_snoc m n : 0 <= n -> seqZ m (n + 1) = seqZ m n ++ [m + n].
Proof.
  intros. rewrite seqZ_app by lia. f_equal.
Qed.

Lemma Enqueue_solo_full q x :
  quiescent q -> Size q = pool_size_ q - 2 -> Enqueue_solo q x = (false, q).
Proof.
  intros Hq Hs. rewrite Size_quiescent in Hs by done. destruct Hq.
  unfold Enqueue_solo; simpl.
  assert ((GetIndex q (tail_ q +u 1) =? GetIndex q (head_ q)) = true) as ->; [|done].
  rewrite u64_small, !(GetIndex_mod (pool_size_ q)) by lia. apply Z.eqb_eq.
  replace (tail_ q + 1) with (head_ q + pool_size_ q) by lia. apply mod_add_turn; lia.
Qed.

Lemma Enqueue_solo_room q x :
  quiescent q -> Size q < pool_size_ q - 2 ->
  Enqueue_solo q x =
    (true, mkQueue (head_ q) (tail_ q + 1) (tail_ q + 1) (pool_size_ q)
             (<[Z.to_nat (tail_ q mod pool_size_ q) := x]> (pool_ q))
             (wait_strategy_ q) (break_all_wait_ q)).
Proof.
  intros Hq Hs. rewrite Size_quiescent in Hs by done. destruct Hq.
  unfold Enqueue_solo; simpl.
  assert ((GetIndex q (tail_ q +u 1) =? GetIndex q (head_ q)) = false) as ->.
  { rewrite u64_small, !(GetIndex_mod (pool_size_ q)) by lia. apply Z.eqb_neq.
    intros He. symmetry in He. revert He. apply mod_neq_window; lia. }
  unfold cas_ok; simpl. rewrite Z.eqb_refl; simpl.
  rewrite qu_commit0, Z.eqb_refl; simpl. rewrite u64_small by lia.
  rewrite (GetIndex_mod (pool_size_ q)) by (simpl; lia). done.
Qed.

Lemma Dequeue_solo_empty q :
  quiescent q -> Size q = 0 -> Dequeue_solo q = (None, q).
Proof.
  intros Hq Hs. rewrite Size_quiescent in Hs by done. destruct Hq.
  unfold Dequeue_solo; simpl.
  rewrite u64_small by lia. by replace (head_ q + 1 =? commit_ q) with true by lia.
Qed.

Lemma Dequeue_solo_some q x :
  quiescent q -> 0 < Size q -> cell q (head_ q + 1) = Some x ->
  Dequeue_solo q = (Some x, set_head q (head_ q + 1)).
Proof.
  intros Hq Hs Hx. rewrite Size_quiescent in Hs by done. destruct Hq.
  unfold Dequeue_solo; simpl.
  rewrite u64_small by lia. replace (head_ q + 1 =? commit_ q) with false by lia; simpl.
  rewrite u64_small, (GetIndex_mod (pool_size_ q)) by lia. unfold cell in Hx. rewrite Hx; simpl.
  unfold cas_ok; simpl. rewrite Z.eqb_refl; simpl. by rewrite u64_small by lia.
Qed.

Lemma contents_enqueue q x :
  quiescent q -> Size q < pool_size_ q - 2 ->
  contents (Enqueue_solo q x).2 = contents q ++ [x].
Proof.
  intros Hq Hs. rewrite Enqueue_solo_room by done.
  rewrite Size_quiescent in Hs by done. destruct Hq.
  unfold contents, cell; simpl. rewrite qu_commit0.
  replace (tail_ q + 1 - head_ q - 1) with ((tail_ q - head_ q - 1) + 1) by lia.
  rewrite seqZ_snoc, omap_app by lia. f_equal.
  - apply omap_ext_in. intros i Hi. apply elem_of_seqZ in Hi.
    rewrite list_lookup_insert_ne; [done|]. intros He. apply Z_to_nat_mod_inj in He; [|lia].
    symmetry in He. revert He. apply mod_neq_window; lia.
  - simpl. replace (head_ q + 1 + (tail_ q - head_ q - 1)) with (tail_ q) by lia.
    rewrite list_lookup_insert_eq by (apply Z_mod_lt_length; lia). done.
Qed.

Lemma Dequeue_solo_cases q :
  quiescent q ->
  (contents q = [] /\ Dequeue_solo q = (None, q)) \/
  (exists x q', Dequeue_solo q = (Some x, q') /\ contents q = x :: contents q').
Proof.
  intros Hq. pose proof (contents_length q Hq) as Hl.
  destruct (decide (Size q = 0)) as [H0|H0].
  - left. rewrite Dequeue_solo_empty by done. destruct (contents q); simpl in *; [done|lia].
  - right. destruct (cell_Some q (head_ q + 1) Hq) as [x Hx].
    exists x, (set_head q (head_ q + 1)). split; [apply Dequeue_solo_some; (done || lia)|].
    unfold contents at 1. rewrite Size_quiescent in H0 by done. destruct Hq.
    rewrite seqZ_cons by lia. simpl. rewrite Hx. f_equal. unfold contents; simpl.
    replace (Z.succ (head_ q + 1)) with (head_ q + 1 + 1) by lia.
    by replace (Z.pred (commit_ q - head_ q - 1)) with (commit_ q - (head_ q + 1) - 1) by lia.
Qed.
End Sequential.

(** ** Theorems *)

(** A queue as [Init] leaves it. *)
Definition fresh_queue {T} (dflt : T) (size : Z) (ws : WaitStrategy) : BoundedQueue T :=
  (Init dflt true size ws BoundedQueue_new).2.

Lemma fresh_queue_inv {T} (dflt : T) size ws sched :
  0 <= size -> size + 2 < two64 -> Z.of_nat (length sched) + 3 < two64 ->
  q_inv (size + 2) (length sched) (exec q_step (q_init (fresh_queue dflt size ws)) sched).
Proof.
  intros. unfold fresh_queue, Init; simpl.
  apply q_inv_exec; simpl; rewrite ?length_replicate, ?u64_small by lia; try done; lia.
Qed.

(** C1: FIFO under every interleaving.  Whatever the schedule of calls and steps of
    any number of threads on a freshly initialised queue, the values handed out by
    [Dequeue] are, in order, a prefix of the values accepted by [Enqueue], nothing is
    lost or duplicated in between ([Size] counts exactly the difference) and at most
    [size] values are pending. *)
Theorem bounded_queue_fifo {T} (dflt : T) size ws sched :
  0 <= size -> size + 2 < two64 -> Z.of_nat (length sched) + 3 < two64 ->
  let s := shared (exec q_step (q_init (fresh_queue dflt size ws)) sched) in
  deq_log s `prefix_of` enq_log s /\
  Z.of_nat (length (enq_log s)) = Z.of_nat (length (deq_log s)) + Size (hq s) /\
  0 <= Size (hq s) <= size.
Proof.
  intros H0 H1 H2 s.
  pose proof (qi_shared _ _ _ (fresh_queue_inv dflt size ws sched H0 H1 H2)) as [].
  fold s in so_ps0, so_pool0, so_head0, so_commit0, so_tail0, so_time0, so_enq0, so_deq0, so_cells0.
  unfold Size. rewrite (u64_small (tail_ (hq s) - head_ (hq s))), u64_small by lia.
  rewrite so_deq0, length_take. split; [apply prefix_take|lia].
Qed.

Lemma bounded_queue_fifo_witness :
  deq_log (shared (exec q_step (q_init (fresh_queue 0 1 BusySpinWaitStrategy))
     [(0%nat, CallEnqueue 7); (0%nat, Step false); (0%nat, Step false); (0%nat, Step false);
      (0%nat, Step false); (1%nat, CallDequeue); (1%nat, Step false); (1%nat, Step false);
      (1%nat, Step false)])) = [7] /\
  Size (hq (shared (exec q_step (q_init (fresh_queue 0 1 BusySpinWaitStrategy))
     [(0%nat, CallEnqueue 7); (0%nat, Step false)]))) <= 1.
Proof.
  split; [vm_compute; reflexivity|].
  apply (bounded_queue_fifo 0 1 BusySpinWaitStrategy
           [(0%nat, CallEnqueue 7); (0%nat, Step false)]); vm_compute; congruence.
Defined.

(** Exclusive cells.  In every reachable state two threads about to store an
    element target different cells, and none of them targets a cell whose element has
    been committed and not yet taken. *)
Theorem bounded_queue_exclusive_cells {T} (dflt : T) size ws sched u x i :
  0 <= size -> size + 2 < two64 -> Z.of_nat (length sched) + 3 < two64 ->
  let c := exec q_step (q_init (fresh_queue dflt size ws)) sched in
  let q := hq (shared c) in
  pcs c u = EnqStore x i ->
  (forall v y j, v <> u -> pcs c v = EnqStore y j -> GetIndex q i <> GetIndex q j) /\
  (forall k, head_ q < k < commit_ q -> GetIndex q i <> GetIndex q k).
Proof.
  intros H0 H1 H2 c q Hu. pose proof (fresh_queue_inv dflt size ws sched H0 H1 H2) as Hinv.
  fold c in Hinv. pose proof (qi_shared _ _ _ Hinv) as Hs. pose proof Hs as [].
  fold q in so_ps0, so_pool0, so_head0, so_commit0, so_tail0, so_time0, so_enq0.
  pose proof (qi_pcs _ _ _ Hinv u) as Hpu. rewrite Hu in Hpu. destruct Hpu as [Hi _]. fold q in Hi.
  split.
  - intros v y j Hvu Hv He. pose proof (qi_pcs _ _ _ Hinv v) as Hpv. rewrite Hv in Hpv.
    destruct Hpv as [Hj _]. fold q in Hj.
    rewrite !(GetIndex_mod (size + 2)) in He by lia.
    destruct (decide (i = j)) as [->|Hne].
    + apply Hvu, (qi_claims _ _ _ Hinv v u j); by rewrite ?Hu, ?Hv.
    + eapply (cell_neq (size + 2) ltac:(lia) (shared c) _ i j Hs); fold q; try lia.
  - intros k Hk He. rewrite !(GetIndex_mod (size + 2)) in He by lia.
    eapply (cell_neq (size + 2) ltac:(lia) (shared c) _ i k Hs); fold q; try lia.
Qed.

Definition two_writers : list (nat * event Z) :=
  [(0%nat, CallEnqueue 7); (0%nat, Step false); (0%nat, Step false);
   (1%nat, CallEnqueue 8); (1%nat, Step false); (1%nat, Step false)].

Lemma bounded_queue_exclusive_cells_witness :
  let c := exec q_step (q_init (fresh_queue 0 3 BusySpinWaitStrategy)) two_writers in
  pcs c 0%nat = EnqStore 7 1 /\ pcs c 1%nat = EnqStore 8 2 /\
  GetIndex (hq (shared c)) 1 <> GetIndex (hq (shared c)) 2.
Proof.
  intros c. split; [reflexivity|]. split; [reflexivity|].
  apply (proj1 (bounded_queue_exclusive_cells 0 3 BusySpinWaitStrategy two_writers 0%nat 7 1
           ltac:(lia) ltac:(reflexivity) ltac:(reflexivity) eq_refl) 1%nat 8 2); [lia|reflexivity].
Defined.

(** The uncontended operations implement a bounded list.  On a quiescent queue
    [Enqueue] fails without effect exactly when [pool_size_ - 2] elements are stored
    and otherwise appends its argument; [Dequeue] takes the oldest element, and
    returns nothing exactly when the queue is empty. *)
Theorem bounded_queue_refines_list {T} (q : BoundedQueue T) (x : T) :
  quiescent q ->
  Enqueue_solo q x =
    (if decide (Z.of_nat (length (contents q)) = pool_size_ q - 2) then (false, q)
     else (true, (Enqueue_solo q x).2)) /\
  contents (Enqueue_solo q x).2 =
    (if decide (Z.of_nat (length (contents q)) = pool_size_ q - 2) then contents q
     else contents q ++ [x]) /\
  (Dequeue_solo q).1 = head (contents q) /\
  contents (Dequeue_solo q).2 = tail (contents q).
Proof.
  intros Hq. rewrite contents_length by done. split_and!.
  - case_decide as Hs; [by rewrite Enqueue_solo_full|].
    assert (Size q < pool_size_ q - 2) by (rewrite Size_quiescent in * by done; destruct Hq; lia).
    by rewrite Enqueue_solo_room.
  - case_decide as Hs; [by rewrite Enqueue_solo_full|].
    apply contents_enqueue; [done|]. rewrite Size_quiescent in * by done; destruct Hq; lia.
  - by destruct (Dequeue_solo_cases q Hq) as [[-> ->]|(y & q' & -> & ->)].
  - by destruct (Dequeue_solo_cases q Hq) as [[Hc ->]|(y & q' & -> & ->)]; [rewrite Hc|].
Qed.

Lemma bounded_queue_refines_list_witness :
  quiescent (fresh_queue 0 2 BusySpinWaitStrategy) /\
  contents (Enqueue_solo (fresh_queue 0 2 BusySpinWaitStrategy) 5).2 = [5].
Proof.
  assert (Hq : quiescent (fresh_queue 0 2 BusySpinWaitStrategy)).
  { split; vm_compute; repeat split; congruence. }
  split; [exact Hq|].
  destruct (bounded_queue_refines_list _ 5 Hq) as (_ & Hc & _). rewrite Hc. reflexivity.
Defined.

(** A stale [tail_] makes [Enqueue] report a full queue although the queue is
    empty: thread 0 loads [tail_], thread 1 enqueues and dequeues twice, and thread 0
    then finds [GetIndex(new_tail) == GetIndex(head_)]. *)
Theorem bounded_queue_spurious_full :
  let op t e := [(t, e); (t, Step false); (t, Step false); (t, Step false); (t, Step false)] in
  let c := exec q_step (q_init (fresh_queue 0 8 BusySpinWaitStrategy))
     ([(0%nat, CallEnqueue 42)] ++ op 1%nat (CallEnqueue 1) ++ op 1%nat CallDequeue ++
      op 1%nat (CallEnqueue 2) ++ op 1%nat CallDequeue ++ [(0%nat, Step false)]) in
  pcs c 0%nat = EnqRet false /\ Empty (hq (shared c)) = true /\
  deq_log (shared c) = [1; 2].
Proof. vm_compute. auto. Qed.

Lemma WaitEnqueue_unfold {T} fuel env i (q : BoundedQueue T) x :
  WaitEnqueue (S fuel) env i q x =
    if break_all_wait_ q then Some (false, q) else
    if (Enqueue_solo q x).1 then Some (true, (Enqueue_solo q x).2) else
    match wait_strategy_ (Enqueue_solo q x).2 with
    | None => None
    | Some ws =>
        if EmptyWait ws (env i (Enqueue_solo q x).2).2
        then WaitEnqueue fuel env (i + 1) (env i (Enqueue_solo q x).2).1 x
        else Some (false, (env i (Enqueue_solo q x).2).1)
    end.
Proof. done. Qed.

Lemma solo_strategy {T} n (q : BoundedQueue T) p :
  wait_strategy_ (solo n q p).1 = wait_strategy_ q.
Proof.
  revert q p. induction n as [|n IH]; intros q p; [done|]. simpl. rewrite IH.
  destruct p; simpl; repeat (case_match; simpl); done.
Qed.

(** [BreakAllWait] ends the wait.  If the other threads keep the installed
    strategy and the [k]-th wait ends with [break_all_wait_] set, [WaitEnqueue]
    returns after at most [k + 1] more attempts, whatever the strategy does. *)
Theorem WaitEnqueue_break_terminates {T} (env : nat -> BoundedQueue T -> BoundedQueue T * bool)
    (ws : WaitStrategy) (k i : nat) q x :
  (forall j q, wait_strategy_ q = Some ws -> wait_strategy_ (env j q).1 = Some ws) ->
  (forall q, break_all_wait_ (env k q).1 = true) ->
  wait_strategy_ q = Some ws -> (i <= k)%nat ->
  exists r, WaitEnqueue (k - i + 2) env i q x = Some r.
Proof.
  intros Hws Hk. remember (k - i)%nat as d eqn:Hd. revert i q Hd.
  induction d as [|d IH]; intros i q Hd Hq Hik.
  - assert (i = k) as -> by lia. change (0 + 2)%nat with (S (S 0)). rewrite WaitEnqueue_unfold.
    destruct (break_all_wait_ q); [eauto|]. case_match; [eauto|].
    unfold Enqueue_solo at 1. cbn [snd]. rewrite solo_strategy, Hq.
    case_match; [|eauto]. rewrite WaitEnqueue_unfold, Hk. eauto.
  - change (S d + 2)%nat with (S (d + 2)). rewrite WaitEnqueue_unfold.
    destruct (break_all_wait_ q); [eauto|]. case_match; [eauto|].
    unfold Enqueue_solo at 1. cbn [snd]. rewrite solo_strategy, Hq.
    case_match; [|eauto]. apply IH; [lia| |lia].
    apply Hws. unfold Enqueue_solo. cbn [snd]. by rewrite solo_strategy.
Qed.

Lemma WaitEnqueue_break_terminates_witness :
  exists r, WaitEnqueue (0 - 0 + 2) (fun _ q => (BreakAllWait q, false)) 0
    (fresh_queue 0 0 BlockWaitStrategy) 9 = Some r.
Proof.
  apply (WaitEnqueue_break_terminates _ BlockWaitStrategy); [done|done|reflexivity|lia].
Defined.
