(* ===== verification/AtomicHashMap.v ===== *)
(** * AtomicHashMap: the lock-free hash map of base/atomic_hash_map.h

    A bucket is a singly linked list of entries sorted by key behind a dummy head.
    Entries are never unlinked and keys are immutable and unique in a bucket (the
    invariant [chain_sorted]), so the address of an entry is represented by its key,
    and the dummy head by [None].  The addresses of values are kept explicitly, since
    a value cell is replaced and deleted by every update: [value_ptr] is drawn from a
    counter and [freed] lists the deleted cells.

    [Insert], [Find], [Get] and [Has] of a bucket are split at their atomic accesses;
    the history variable [sets] lists the completed insertions in the order of their
    compare-and-swap. *)

From Stdlib Require Import ZArith Lia.
From stdpp Require Import base sets gmap functions numbers sorting list.
From S2P Require Import Prelude.

Section Bucket.
Context {V : Type}.

Record Entry := mkEntry { key : Z; value_ptr : nat; value : V }.

(** A bucket: the entries after [head_] in list order, the next fresh value address
    and the deleted value addresses. *)
Record Bucket := mkBucket { chain : list Entry; fresh_ptr : nat; freed : list nat }.

Definition Bucket_new : Bucket := mkBucket [] 0 [].

(** [entry->next] of the entry at address [prev]; [None] is the dummy head. *)
Fixpoint next_after (k : Z) (l : list Entry) : option Z :=
  match l with
  | [] => None
  | e :: l => if key e =? k then key <$> head l else next_after k l
  end.
Definition next_of (b : Bucket) (prev : option Z) : option Z :=
  match prev with
  | None => key <$> head (chain b)
  | Some k => next_after k (chain b)
  end.

Fixpoint entry_at (k : Z) (l : list Entry) : option Entry :=
  match l with
  | [] => None
  | e :: l => if key e =? k then Some e else entry_at k l
  end.

(** [prev->next = new_entry], whose [next] is the old successor. *)
Fixpoint link_after (k : Z) (n : Entry) (l : list Entry) : list Entry :=
  match l with
  | [] => []
  | e :: l => if key e =? k then e :: n :: l else e :: link_after k n l
  end.
Definition link (prev : option Z) (n : Entry) (l : list Entry) : list Entry :=
  match prev with None => n :: l | Some k => link_after k n l end.

(** [target->value_ptr = p] where [p] points to [v]. *)
Fixpoint set_value (k : Z) (p : nat) (v : V) (l : list Entry) : list Entry :=
  match l with
  | [] => []
  | e :: l => if key e =? k then mkEntry k p v :: l else e :: set_value k p v l
  end.

(** The locals of an operation: [Insert] may own a new entry (the address of its value
    cell) and a new value cell. *)
Inductive op :=
| OpGet (k : Z)
| OpInsert (k : Z) (v : V) (new_entry new_value : option nat).

Definition op_key (o : op) : Z := match o with OpGet k | OpInsert k _ _ _ => k end.

Inductive pc :=
| BIdle
| HasAt (k : Z) (m_target : option Z)
| HasRet (k : Z) (res : bool)
| FindAt (o : op) (prev m_target : option Z)
| Found (o : op) (target : Z)
| NotFound (o : op) (prev target : option Z)
| CasValue (k : Z) (v : V) (new_entry : option nat) (new_value : nat) (target : Z) (old_val_ptr : nat)
| CasNext (k : Z) (v : V) (new_entry : nat) (new_value : option nat) (prev target : option Z)
| InsRet
| GetRet (k : Z) (ptr : option nat).

(** [Bucket::Has]. *)
Definition Has_step (b : Bucket) (p : pc) : Bucket * pc :=
  match p with
  | HasAt k (Some t) =>
      if t <? k then (b, HasAt k (next_of b (Some t))) else (b, HasRet k (t =? k))
  | HasAt k None => (b, HasRet k false)
  | _ => (b, p)
  end.

(** [Bucket::Find], the search common to [Get] and [Insert]. *)
Definition Find_step (b : Bucket) (p : pc) : Bucket * pc :=
  match p with
  | FindAt o prev (Some t) =>
      if t =? op_key o then (b, Found o t)
      else if op_key o <? t then (b, NotFound o prev (Some t))
      else (b, FindAt o (Some t) (next_of b (Some t)))
  | FindAt o prev None => (b, NotFound o prev None)
  | _ => (b, p)
  end.

(** [Bucket::Get]. *)
Definition Get_step (b : Bucket) (p : pc) : Bucket * pc :=
  match p with
  | Found (OpGet k) t => (b, GetRet k (value_ptr <$> entry_at t (chain b)))
  | NotFound (OpGet k) _ _ => (b, GetRet k None)
  | _ => (b, p)
  end.

(** [Bucket::Insert]; the three overloads differ in how a new value is built. *)
Definition Insert_step (b : Bucket) (p : pc) : Bucket * pc :=
  match p with
  | Found (OpInsert k v ne nv) t =>
      match entry_at t (chain b) with
      | None => (b, p)
      | Some e =>
          match nv with
          | Some n => (b, CasValue k v ne n t (value_ptr e))
          | None => (mkBucket (chain b) (fresh_ptr b + 1)%nat (freed b),
                     CasValue k v ne (fresh_ptr b) t (value_ptr e))
          end
      end
  | CasValue k v ne nv t old =>
      match entry_at t (chain b) with
      | None => (b, p)
      | Some e =>
          if Nat.eqb (value_ptr e) old
          then (mkBucket (set_value t nv v (chain b)) (fresh_ptr b)
                  (option_list ne ++ old :: freed b), InsRet)
          else (b, FindAt (OpInsert k v ne (Some nv)) None (next_of b None))
      end
  | NotFound (OpInsert k v ne nv) prev t =>
      match ne with
      | Some n => (b, CasNext k v n nv prev t)
      | None => (mkBucket (chain b) (fresh_ptr b + 1)%nat (freed b),
                 CasNext k v (fresh_ptr b) nv prev t)
      end
  | CasNext k v ne nv prev t =>
      if decide (next_of b prev = t)
      then (mkBucket (link prev (mkEntry k ne v) (chain b)) (fresh_ptr b)
              (option_list nv ++ freed b), InsRet)
      else (b, FindAt (OpInsert k v (Some ne) nv) None (next_of b None))
  | _ => (b, p)
  end.

Inductive event := CallHas (k : Z) | CallGet (k : Z) | CallInsert (k : Z) (v : V) | BStep.

Definition b_call (b : Bucket) (e : event) : pc :=
  match e with
  | CallHas k => HasAt k (next_of b None)
  | CallGet k => FindAt (OpGet k) None (next_of b None)
  | CallInsert k v => FindAt (OpInsert k v None None) None (next_of b None)
  | BStep => BIdle
  end.

Definition b_thread (b : Bucket) (p : pc) (e : event) : Bucket * pc :=
  match e with
  | BStep =>
      match p with
      | HasAt _ _ => Has_step b p
      | FindAt _ _ _ => Find_step b p
      | Found (OpGet _) _ | NotFound (OpGet _) _ _ => Get_step b p
      | _ => Insert_step b p
      end
  | _ =>
      match p with
      | BIdle | HasRet _ _ | InsRet | GetRet _ _ => (b, b_call b e)
      | _ => (b, p)
      end
  end.

(** Shared state with the history of completed insertions. *)
Record hbucket := HB { hb : Bucket; sets : list (Z * V) }.

Definition set_done (p p' : pc) : list (Z * V) :=
  match p, p' with
  | (CasValue k v _ _ _ _ | CasNext k v _ _ _ _), InsRet => [(k, v)]
  | _, _ => []
  end.

Definition b_step (s : hbucket) (p : pc) (e : event) : hbucket * pc :=
  let r := b_thread (hb s) p e in (HB r.1 (sets s ++ set_done p r.2), r.2).

Definition b_init : conf := Conf (HB Bucket_new []) (fun _ : nat => BIdle).

(** The value stored under a key, and the map the completed insertions describe. *)
Definition bucket_get (l : list Entry) (k : Z) : option V := value <$> entry_at k l.
Definition sets_map (l : list (Z * V)) : gmap Z V := list_to_map (reverse l).
End Bucket.
Arguments Entry : clear implicits.
Arguments Bucket : clear implicits.
Arguments pc : clear implicits.
Arguments event : clear implicits.
Arguments hbucket : clear implicits.
Arguments op : clear implicits.

(** ** Facts about the entry list *)
Section Chain.
Context {V : Type}.
Implicit Types (l : list (Entry V)) (b : Bucket V).

Definition entry_lt (e f : Entry V) : Prop := key e < key f.
Definition chain_sorted l : Prop := StronglySorted entry_lt l.
Definition in_chain (k : Z) l : Prop := is_Some (entry_at k l).

Lemma entry_at_key k l e : entry_at k l = Some e -> key e = k.
Proof.
  induction l as [|f l IH]; simpl; [done|]. case_match eqn:E; [|done].
  intros [= <-]. lia.
Qed.

Lemma sorted_cons_in e l k : chain_sorted (e :: l) -> in_chain k l -> key e < k.
Proof.
  intros [_ Hall]%StronglySorted_inv [f Hf]. revert Hf. induction l as [|g l IH]; simpl; [done|].
  apply Forall_cons in Hall as [Hg Hall]. case_match eqn:E; [|by apply IH].
  unfold entry_lt in Hg. intros _. lia.
Qed.

Lemma sorted_absent e l k : chain_sorted (e :: l) -> k < key e -> entry_at k (e :: l) = None.
Proof.
  intros Hs Hk. destruct (entry_at k (e :: l)) eqn:E; [|done]. exfalso. simpl in E.
  case_match; [lia|]. pose proof (sorted_cons_in e l k Hs ltac:(by eexists)). lia.
Qed.

Lemma Forall_link_after (P : Entry V -> Prop) a n l :
  P n -> Forall P l -> Forall P (link_after a n l).
Proof.
  intros Hn. induction 1 as [|e l He Hl IH]; simpl; [done|]. case_match; auto.
Qed.

Lemma entry_at_head_lt l k n :
  chain_sorted l -> key n = k -> (forall t, key <$> head l = Some t -> k < t) ->
  Forall (entry_lt n) l.
Proof.
  destruct l as [|e l]; [done|]. intros [_ Ha]%StronglySorted_inv Hk Ht. subst k.
  specialize (Ht (key e) eq_refl). constructor; [done|].
  eapply Forall_impl; [done|]. unfold entry_lt. simpl. lia.
Qed.

Lemma link_after_sorted a n l :
  chain_sorted l -> a < key n -> in_chain a l ->
  (forall t, next_after a l = Some t -> key n < t) ->
  chain_sorted (link_after a n l).
Proof.
  intros Hs Han. induction l as [|e l IH]; intros Hin Ht; [done|]; simpl in *.
  pose proof Hs as [Hsl Hall]%StronglySorted_inv.
  case_match eqn:E.
  - constructor; [constructor; [done|by eapply entry_at_head_lt]|].
    constructor; [unfold entry_lt; lia|done].
  - assert (in_chain a l) as Hin' by (unfold in_chain in *; simpl in *; by rewrite E in Hin).
    constructor; [by apply IH|]. apply Forall_link_after; [|done].
    pose proof (sorted_cons_in e l a Hs Hin'). unfold entry_lt. lia.
Qed.

Lemma link_sorted b prev n :
  chain_sorted (chain b) ->
  (forall a, prev = Some a -> a < key n /\ in_chain a (chain b)) ->
  (forall t, next_of b prev = Some t -> key n < t) ->
  chain_sorted (link prev n (chain b)).
Proof.
  intros Hs Hp Ht. destruct prev as [a|]; simpl in *.
  - destruct (Hp a eq_refl). by apply link_after_sorted.
  - constructor; [done|]. by eapply entry_at_head_lt.
Qed.

Lemma entry_at_link_after a n l j :
  in_chain a l -> entry_at (key n) l = None ->
  entry_at j (link_after a n l) = if decide (j = key n) then Some n else entry_at j l.
Proof.
  induction l as [|e l IH]; [intros [? ?]; done|]. simpl. intros Hin Hn.
  destruct (key e =? key n) eqn:En; [done|].
  destruct (key e =? a) eqn:E; simpl.
  - destruct (decide (j = key n)) as [->|].
    + rewrite En, Z.eqb_refl. done.
    + by replace (key n =? j) with false by lia.
  - assert (in_chain a l) as Hin' by (unfold in_chain in *; simpl in *; by rewrite E in Hin).
    destruct (key e =? j) eqn:Ej; [|by apply IH]. case_decide; [lia|done].
Qed.

Lemma entry_at_link prev n l j :
  (forall a, prev = Some a -> in_chain a l) -> entry_at (key n) l = None ->
  entry_at j (link prev n l) = if decide (j = key n) then Some n else entry_at j l.
Proof.
  intros Hp Hn. destruct prev as [a|]; [apply entry_at_link_after; auto|]. simpl.
  destruct (decide (j = key n)) as [->|]; [by rewrite Z.eqb_refl|].
  by replace (key n =? j) with false by lia.
Qed.

Lemma set_value_key k p v l : key <$> set_value k p v l = key <$> l.
Proof. induction l as [|e l IH]; csimpl; [done|]. case_match; csimpl; f_equal; [lia|done]. Qed.

Lemma chain_sorted_keys l : chain_sorted l <-> StronglySorted Z.lt (key <$> l).
Proof.
  induction l as [|e l IH]; [split; constructor|]. csimpl. split; intros [H1 H2]%StronglySorted_inv;
    (constructor; [by apply IH|]).
  - by apply Forall_fmap.
  - by apply (proj1 (Forall_fmap key (Z.lt (key e)) l)) in H2.
Qed.

Lemma set_value_sorted k p v l : chain_sorted l -> chain_sorted (set_value k p v l).
Proof. by rewrite !chain_sorted_keys, set_value_key. Qed.

Lemma entry_at_set_value k p v l j :
  in_chain k l ->
  entry_at j (set_value k p v l) = if decide (j = k) then Some (mkEntry k p v) else entry_at j l.
Proof.
  induction l as [|e l IH]; [intros [? ?]; done|]. simpl. intros Hin.
  destruct (key e =? k) eqn:E; simpl.
  - destruct (decide (j = k)) as [->|]; [by rewrite Z.eqb_refl|].
    replace (k =? j) with false by lia. by replace (key e =? j) with false by lia.
  - assert (in_chain k l) as Hin' by (unfold in_chain in *; simpl in *; by rewrite E in Hin).
    destruct (key e =? j) eqn:Ej; [|by apply IH]. case_decide; [lia|done].
Qed.

(** The successor loaded from an entry whose key is smaller than [k]: if [k] is in
    the list, the successor is not past it. *)
Lemma next_after_spec a l :
  chain_sorted l -> in_chain a l ->
  match next_after a l with
  | Some t => in_chain t l /\ a < t /\ forall k, in_chain k l -> a < k -> t <= k
  | None => forall k, in_chain k l -> k <= a
  end.
Proof.
  unfold in_chain. induction l as [|e l IH]; intros Hs Hin; [by destruct Hin|].
  pose proof Hs as [Hsl Hall]%StronglySorted_inv. simpl in *.
  destruct (Z.eqb_spec (key e) a) as [E|E].
  - destruct l as [|f l]; simpl; clear IH.
    + intros k. zcase; [intros; lia|]. by intros [? ?].
    + apply Forall_cons in Hall as [Hf _]. unfold entry_lt in Hf.
      rewrite Z.eqb_refl. replace (key e =? key f) with false by lia.
      split_and!; [eauto|lia|]. intros k. zcase; [lia|]. zcase; [lia|]. intros Hk _.
      pose proof (sorted_cons_in f l k Hsl Hk). lia.
  - specialize (IH Hsl Hin). pose proof (sorted_cons_in e l a Hs Hin).
    destruct (next_after a l) as [t|].
    + destruct IH as (Ht & ? & IH). split_and!; [zcase; eauto|done|].
      intros k. zcase; [intros; lia|]. apply IH.
    + intros k. zcase; [intros; lia|]. apply IH.
Qed.

Lemma next_of_head b :
  chain_sorted (chain b) ->
  match next_of b None with
  | Some t => in_chain t (chain b) /\ forall k, in_chain k (chain b) -> t <= k
  | None => forall k, ~ in_chain k (chain b)
  end.
Proof.
  unfold in_chain, next_of. intros Hs. destruct (chain b) as [|e l]; simpl.
  - by intros k [? ?].
  - rewrite Z.eqb_refl. split; [eauto|]. intros k. zcase; [intros; lia|]. intros Hk.
    pose proof (sorted_cons_in e l k Hs Hk). lia.
Qed.

Lemma next_head_in b a : chain_sorted (chain b) -> next_of b None = Some a -> in_chain a (chain b).
Proof. intros Hs Ha. pose proof (next_of_head b Hs) as H. rewrite Ha in H. apply H. Qed.

Lemma next_after_in a t l :
  chain_sorted l -> in_chain a l -> next_after a l = Some t -> in_chain t l.
Proof. intros Hs Hin Ht. pose proof (next_after_spec a l Hs Hin) as H. rewrite Ht in H. apply H. Qed.
End Chain.

(** ** The concurrency invariant of a bucket *)
Section BucketInvariant.
Context {V : Type}.
Implicit Types (s : hbucket V) (b : Bucket V) (p : pc V).

(** The position remembered by a search: [prev] is in the list and before the key. *)
Definition prev_ok b (k : Z) (prev : option Z) : Prop :=
  forall a, prev = Some a -> a < k /\ in_chain a (chain b).

Definition pc_ok (s : hbucket V) (_ : nat) (p : pc V) : Prop :=
  match p with
  | HasAt _ t => forall a, t = Some a -> in_chain a (chain (hb s))
  | HasRet k r => r = true -> in_chain k (chain (hb s))
  | FindAt o prev t =>
      prev_ok (hb s) (op_key o) prev /\ forall a, t = Some a -> in_chain a (chain (hb s))
  | Found o t => t = op_key o /\ in_chain t (chain (hb s))
  | NotFound o prev t => prev_ok (hb s) (op_key o) prev /\ forall a, t = Some a -> op_key o < a
  | CasValue k _ _ _ t _ => t = k /\ in_chain k (chain (hb s))
  | CasNext k _ _ _ prev t => prev_ok (hb s) k prev /\ forall a, t = Some a -> k < a
  | _ => True
  end.

Record b_inv (c : @conf (hbucket V) (pc V)) : Prop := {
  bi_sorted : chain_sorted (chain (hb (shared c)));
  bi_map : forall k, bucket_get (chain (hb (shared c))) k = sets_map (sets (shared c)) !! k;
  bi_pcs : forall u, pc_ok (shared c) u (pcs c u)
}.

Lemma sets_map_snoc (l : list (Z * V)) k v : sets_map (l ++ [(k, v)]) = <[k := v]> (sets_map l).
Proof. unfold sets_map. by rewrite reverse_snoc. Qed.

Lemma prev_ok_mono b b' k prev :
  (forall j, in_chain j (chain b) -> in_chain j (chain b')) -> prev_ok b k prev -> prev_ok b' k prev.
Proof. intros Hm Hp a Ha. destruct (Hp a Ha). auto. Qed.

(** Assertions survive a growing list. *)
Lemma pc_ok_mono s s' u p :
  (forall k, in_chain k (chain (hb s)) -> in_chain k (chain (hb s'))) ->
  pc_ok s u p -> pc_ok s' u p.
Proof.
  intros Hm. destruct p; simpl; try done; [auto|auto|..];
    intros [H1 H2]; (split; [try done; by eapply prev_ok_mono|]); auto.
Qed.

Lemma in_chain_link prev (n : Entry V) l k :
  (forall a, prev = Some a -> in_chain a l) -> entry_at (key n) l = None ->
  in_chain k l -> in_chain k (link prev n l).
Proof.
  intros Hp Hn. unfold in_chain. rewrite entry_at_link by done. case_decide; [eauto|done].
Qed.

Lemma in_chain_set_value k0 ptr v (l : list (Entry V)) k :
  in_chain k0 l -> in_chain k l -> in_chain k (set_value k0 ptr v l).
Proof.
  intros H0. unfold in_chain. rewrite entry_at_set_value by done. case_decide; [eauto|done].
Qed.

(** A key between the remembered position and its successor is not in the list. *)
Lemma gap_absent b k prev :
  chain_sorted (chain b) -> prev_ok b k prev ->
  (forall a, next_of b prev = Some a -> k < a) -> entry_at k (chain b) = None.
Proof.
  intros Hs Hp Hn. destruct (entry_at k (chain b)) eqn:E; [|done]. exfalso.
  assert (in_chain k (chain b)) as Hin by (by eexists).
  destruct prev as [a|]; simpl in *.
  - destruct (Hp a eq_refl) as [Ha Hina]. pose proof (next_after_spec a (chain b) Hs Hina) as H.
    destruct (next_after a (chain b)) as [t|].
    + destruct H as (_ & _ & H). specialize (H k Hin Ha). specialize (Hn t eq_refl). lia.
    + specialize (H k Hin). lia.
  - pose proof (next_of_head b Hs) as H. unfold next_of in H.
    destruct (key <$> head (chain b)) as [t|].
    + destruct H as [_ H]. specialize (H k Hin). specialize (Hn t eq_refl). lia.
    + by apply H in Hin.
Qed.

(** A step that changes the list only by growing it keeps the invariant. *)
Lemma b_inv_step c t e b' p' :
  b_inv c ->
  b_thread (hb (shared c)) (pcs c t) e = (b', p') ->
  let s' := HB b' (sets (shared c) ++ set_done (pcs c t) p') in
  chain_sorted (chain b') ->
  (forall k, bucket_get (chain b') k = sets_map (sets s') !! k) ->
  (forall k, in_chain k (chain (hb (shared c))) -> in_chain k (chain b')) ->
  pc_ok s' t p' ->
  b_inv (exec1 b_step c (t, e)).
Proof.
  intros Hinv He s' Hs Hm Hg Hok.
  assert (exec1 b_step c (t, e) = Conf s' (<[t := p']> (pcs c))) as ->.
  { unfold exec1, b_step; simpl. by rewrite He. }
  split; simpl; [done|done|]. intros u. thread_cases u t; [done|].
  apply (pc_ok_mono (shared c)); [done|apply Hinv].
Qed.

Lemma b_inv_quiet c t e b' p' :
  b_inv c ->
  b_thread (hb (shared c)) (pcs c t) e = (b', p') ->
  chain b' = chain (hb (shared c)) -> set_done (pcs c t) p' = [] ->
  (forall s', chain (hb s') = chain (hb (shared c)) -> pc_ok s' t p') ->
  b_inv (exec1 b_step c (t, e)).
Proof.
  intros Hinv He Hc Hd Hok. eapply b_inv_step; try done.
  - rewrite Hc. apply Hinv.
  - intros k. simpl. rewrite Hc, Hd, app_nil_r. apply Hinv.
  - by rewrite Hc.
  - apply Hok. done.
Qed.

Lemma b_inv_cas_value c t k v ne nv tg old :
  b_inv c -> pcs c t = CasValue k v ne nv tg old ->
  b_inv (exec1 b_step c (t, BStep)).
Proof.
  intros Hinv Hpc. pose proof (bi_pcs _ Hinv t) as Hp. rewrite Hpc in Hp. destruct Hp as [-> Hin].
  pose proof (bi_sorted _ Hinv) as Hs. pose proof Hin as [e He].
  destruct (Nat.eqb (value_ptr e) old) eqn:Hcas.
  - eapply b_inv_step; [done|rewrite Hpc; simpl; rewrite He, Hcas; done|..]; rewrite ?Hpc; simpl; [| | |done].
    + by apply set_value_sorted.
    + intros j. rewrite sets_map_snoc, lookup_insert. unfold bucket_get.
      rewrite entry_at_set_value by done. case_decide as Hj.
      * subst. by rewrite decide_True.
      * rewrite decide_False by done. apply Hinv.
    + intros j. by apply in_chain_set_value.
  - eapply b_inv_quiet; [done|rewrite Hpc; simpl; rewrite He, Hcas; done|rewrite ?Hpc; try done..].
    intros s' Hc. split; [done|]. rewrite Hc. intros a Ha. by apply next_head_in.
Qed.

Lemma b_inv_cas_next c t k v ne nv prev tg :
  b_inv c -> pcs c t = CasNext k v ne nv prev tg ->
  b_inv (exec1 b_step c (t, BStep)).
Proof.
  intros Hinv Hpc. pose proof (bi_pcs _ Hinv t) as Hp. rewrite Hpc in Hp. destruct Hp as [Hprev Htg].
  pose proof (bi_sorted _ Hinv) as Hs.
  destruct (decide (next_of (hb (shared c)) prev = tg)) as [Hn|Hn].
  - subst tg. pose proof (gap_absent _ k prev Hs Hprev Htg) as Habs.
    assert (Hpin : forall a, prev = Some a -> in_chain a (chain (hb (shared c)))) by (intros; by apply Hprev).
    eapply b_inv_step; [done|rewrite Hpc; simpl; rewrite decide_True by done; done|..];
      rewrite ?Hpc; simpl; [| | |done].
    + by apply link_sorted.
    + intros j. rewrite sets_map_snoc, lookup_insert. unfold bucket_get.
      rewrite entry_at_link by done. simpl. case_decide as Hj.
      * subst. by rewrite decide_True.
      * rewrite decide_False by done. apply Hinv.
    + intros j. by apply in_chain_link.
  - eapply b_inv_quiet; [done|rewrite Hpc; simpl; rewrite decide_False by done; done|rewrite ?Hpc; try done..].
    intros s' Hc. split; [done|]. rewrite Hc. intros a Ha. by apply next_head_in.
Qed.

(** [b_quiet Hpc tac]: a step that leaves the list alone; [tac] evaluates it. *)
Ltac b_quiet_with Hpc tac :=
  eapply b_inv_quiet; [done|rewrite Hpc; simpl; tac; done|try (rewrite ?Hpc; done)..].
Ltac b_quiet Hpc := b_quiet_with Hpc idtac.

(** Every event keeps the invariant. *)
Lemma b_inv_exec1 c ev : b_inv c -> b_inv (exec1 b_step c ev).
Proof.
  intros Hinv. destruct ev as [t e].
  pose proof (bi_sorted _ Hinv) as Hs. pose proof (bi_pcs _ Hinv t) as Hp.
  destruct (pcs c t) as [|k tg|k r|o prev tg|o tg|o prev tg|k v ne nv tg old|k v ne nv prev tg| |k r] eqn:Hpc;
    destruct e as [j|j|j w|];
    try (b_quiet Hpc; intros s' Hc;
         solve [done | by eapply (pc_ok_mono (shared c)); [by rewrite Hc|]
               | simpl; rewrite Hc; split; [done|]; intros a Ha; by apply next_head_in
               | simpl; rewrite Hc; intros a Ha; by apply next_head_in]).
  - (* Has *) destruct tg as [a|]; [|b_quiet Hpc].
    simpl in Hp. specialize (Hp a eq_refl).
    destruct (a <? k) eqn:Hlt; b_quiet_with Hpc ltac:(rewrite Hlt); intros s' Hc; simpl; rewrite Hc.
    + intros a' Ha. by eapply next_after_in.
    + intros ->%Z.eqb_eq. done.
  - (* Find *) destruct tg as [a|]; [|b_quiet Hpc; intros s' Hc; simpl in *; unfold prev_ok in *; rewrite Hc; split; [apply Hp|done]].
    simpl in Hp. destruct Hp as [Hprev Hin]. specialize (Hin a eq_refl).
    destruct (a =? op_key o) eqn:Heq; [|destruct (op_key o <? a) eqn:Hlt];
      b_quiet_with Hpc ltac:(rewrite Heq, ?Hlt); intros s' Hc; simpl; unfold prev_ok in *; rewrite Hc.
    + apply Z.eqb_eq in Heq. by subst.
    + split; [done|]. intros a' [= <-]. lia.
    + split; [intros a' [= <-]; split; [lia|done]|].
      intros a' Ha. by eapply next_after_in.
  - (* Found *) simpl in Hp. destruct Hp as [-> [en Hen]].
    destruct o as [k|k v ne nv]; simpl in *; [b_quiet Hpc|].
    destruct nv; b_quiet_with Hpc ltac:(rewrite Hen); intros s' Hc; simpl; rewrite Hc; (split; [done|by exists en]).
  - (* NotFound *) destruct o as [k|k v ne nv]; simpl in *; [b_quiet Hpc|].
    destruct ne; b_quiet Hpc; intros s' Hc; simpl in *; unfold prev_ok in *; rewrite Hc; done.
  - by eapply b_inv_cas_value.
  - by eapply b_inv_cas_next.
Qed.

Lemma b_inv_exec c sched : b_inv c -> b_inv (exec b_step c sched).
Proof.
  intros H. apply (exec_invariant _ (fun _ => b_inv) (length sched)); [|done|done].
  intros. by apply b_inv_exec1.
Qed.

Lemma b_inv_init : b_inv b_init.
Proof. split; simpl; [constructor|done|done]. Qed.
End BucketInvariant.

(** ** Uncontended operations *)
Section Solo.
Context {V : Type}.
Implicit Types (b : Bucket V) (l : list (Entry V)) (o : op V).

(** [n] steps of one thread while no other thread touches the bucket. *)
Fixpoint solo (n : nat) b (p : pc V) : Bucket V * pc V :=
  match n with
  | O => (b, p)
  | S n => let r := b_thread b p BStep in solo n r.1 r.2
  end.

(** A search visits every entry at most once, and an operation ends two steps later. *)
Definition run_call b (e : event V) : Bucket V * pc V :=
  solo (length (chain b) + 3) b (b_call b e).

Definition Bucket_Insert b (k : Z) (v : V) : Bucket V := (run_call b (CallInsert k v)).1.
Definition Bucket_Get b (k : Z) : option nat :=
  match (run_call b (CallGet k)).2 with GetRet _ r => r | _ => None end.
Definition Bucket_Has b (k : Z) : bool :=
  match (run_call b (CallHas k)).2 with HasRet _ r => r | _ => false end.

Lemma solo_add n m b p : solo (n + m) b p = solo m (solo n b p).1 (solo n b p).2.
Proof. revert b p. induction n as [|n IH]; intros; [done|]. simpl. apply IH. Qed.

Definition finished (p : pc V) : Prop :=
  match p with HasRet _ _ | InsRet | GetRet _ _ => True | _ => False end.

Lemma solo_finished n b p : finished p -> solo n b p = (b, p).
Proof. induction n as [|n IH]; [done|]. destruct p; simpl; try done; auto. Qed.

(** A run that ends within the fuel gives the same result with all of it. *)
Lemma solo_enough n N b p b' p' :
  solo n b p = (b', p') -> finished p' -> (n <= N)%nat -> solo N b p = (b', p').
Proof.
  intros Hr Hf Hn. replace N with (n + (N - n))%nat by lia.
  rewrite solo_add, Hr. by apply solo_finished.
Qed.

Lemma chain_sorted_app_r l1 l2 : chain_sorted (l1 ++ l2) -> chain_sorted l2.
Proof.
  induction l1 as [|f l1 IH]; [done|]. intros Hs. apply IH. by apply StronglySorted_inv in Hs as [].
Qed.

Lemma next_after_suffix l1 l2 e :
  chain_sorted (l1 ++ e :: l2) -> next_after (key e) (l1 ++ e :: l2) = key <$> head l2.
Proof.
  induction l1 as [|f l1 IH]; intros Hs; simpl; [by rewrite Z.eqb_refl|].
  pose proof Hs as [Hs' Hall]%StronglySorted_inv.
  apply Forall_app in Hall as [_ [Hf _]%Forall_cons]. unfold entry_lt in Hf.
  replace (key f =? key e) with false by lia. by apply IH.
Qed.

Lemma in_chain_middle l1 l2 e : chain_sorted (l1 ++ e :: l2) -> in_chain (key e) (l1 ++ e :: l2).
Proof.
  unfold in_chain. induction l1 as [|f l1 IH]; intros Hs; simpl; [rewrite Z.eqb_refl; eauto|].
  zcase; [eauto|]. apply IH. by apply StronglySorted_inv in Hs as [].
Qed.

Lemma entry_at_suffix l1 l2 k :
  Forall (fun e => key e < k) l1 -> entry_at k (l1 ++ l2) = entry_at k l2.
Proof.
  induction 1 as [|e l1 He Hl IH]; simpl; [done|]. by replace (key e =? k) with false by lia.
Qed.

(** Where [Find] ends when it resumes at [prev] with the suffix [l2] still ahead. *)
Lemma Find_solo l2 l1 b o prev :
  chain b = l1 ++ l2 -> chain_sorted (chain b) -> Forall (fun e => key e < op_key o) l1 ->
  prev_ok b (op_key o) prev -> next_of b prev = key <$> head l2 ->
  exists n, (n <= length l2 + 1)%nat /\
    ((is_Some (entry_at (op_key o) (chain b)) /\
      solo n b (FindAt o prev (next_of b prev)) = (b, Found o (op_key o))) \/
     (entry_at (op_key o) (chain b) = None /\ exists prev',
      prev_ok b (op_key o) prev' /\ (forall a, next_of b prev' = Some a -> op_key o < a) /\
      solo n b (FindAt o prev (next_of b prev)) = (b, NotFound o prev' (next_of b prev')))).
Proof.
  revert l1 prev. induction l2 as [|e l2 IH]; intros l1 prev Hc Hs Hl1 Hp Hn.
  - exists 1%nat. split; [simpl; lia|]. right.
    rewrite Hc, entry_at_suffix by done. split; [done|].
    exists prev. rewrite Hn. simpl. by split_and!.
  - rewrite Hc, entry_at_suffix by done. rewrite Hn. simpl.
    assert (Hs2 : chain_sorted (e :: l2)) by (apply (chain_sorted_app_r l1); by rewrite <- Hc).
    destruct (Z.eqb_spec (key e) (op_key o)) as [He|He].
    { exists 1%nat. split; [lia|]. left. split; [eauto|]. simpl.
      rewrite (proj2 (Z.eqb_eq _ _) He). by rewrite He. }
    destruct (Z.ltb_spec (op_key o) (key e)) as [Hlt|Hge].
    { exists 1%nat. split; [lia|]. right. split.
      - pose proof (sorted_absent e l2 (op_key o) Hs2 Hlt) as Ha. simpl in Ha.
        by rewrite (proj2 (Z.eqb_neq _ _) He) in Ha.
      - exists prev. rewrite Hn. simpl. split_and!; [done|intros a [= <-]; done|].
        by rewrite (proj2 (Z.eqb_neq _ _) He), (proj2 (Z.ltb_lt _ _) Hlt). }
    assert (Hne : next_of b (Some (key e)) = key <$> head l2).
    { simpl. rewrite Hc. apply next_after_suffix. by rewrite <- Hc. }
    destruct (IH (l1 ++ [e]) (Some (key e))) as (n & Hle & Hr).
    { by rewrite <- app_assoc. }
    { done. }
    { apply Forall_app; split; [done|]. repeat constructor. lia. }
    { intros a [= <-]. split; [lia|]. rewrite Hc. apply in_chain_middle. by rewrite <- Hc. }
    { done. }
    exists (S n). split; [lia|]. rewrite Hc, entry_at_suffix in Hr by done. simpl in Hr.
    rewrite (proj2 (Z.eqb_neq _ _) He) in Hr. simpl.
    rewrite (proj2 (Z.eqb_neq _ _) He), (proj2 (Z.ltb_ge _ _) Hge). simpl in *. done.
Qed.

Lemma Find_from_head b o :
  chain_sorted (chain b) ->
  exists n, (n <= length (chain b) + 1)%nat /\
    ((is_Some (entry_at (op_key o) (chain b)) /\
      solo n b (FindAt o None (next_of b None)) = (b, Found o (op_key o))) \/
     (entry_at (op_key o) (chain b) = None /\ exists prev',
      prev_ok b (op_key o) prev' /\ (forall a, next_of b prev' = Some a -> op_key o < a) /\
      solo n b (FindAt o None (next_of b None)) = (b, NotFound o prev' (next_of b prev')))).
Proof.
  intros Hs. by apply (Find_solo (chain b) [] b o None).
Qed.

Lemma run_after_find b e o n p2 b' p' :
  b_call b e = FindAt o None (next_of b None) ->
  (n <= length (chain b) + 1)%nat ->
  solo n b (FindAt o None (next_of b None)) = (b, p2) ->
  solo 2 b p2 = (b', p') -> finished p' -> run_call b e = (b', p').
Proof.
  intros Hc Hn Hr H2 Hf. unfold run_call. rewrite Hc.
  apply (solo_enough (n + 2)); [|done|lia]. by rewrite solo_add, Hr.
Qed.

(** [Insert] alone: updates the value in place or links a new entry. *)
Lemma Bucket_Insert_spec b k v :
  chain_sorted (chain b) ->
  chain_sorted (chain (Bucket_Insert b k v)) /\
  forall j, bucket_get (chain (Bucket_Insert b k v)) j =
    if decide (j = k) then Some v else bucket_get (chain b) j.
Proof.
  intros Hs. unfold Bucket_Insert.
  destruct (Find_from_head b (OpInsert k v None None) Hs) as (n & Hn & [[[e He] Hr]|(Ha & prev & Hp & Ht & Hr)]);
    simpl in *.
  - erewrite run_after_find; [|done|done|exact Hr|simpl; rewrite He; simpl; rewrite He, Nat.eqb_refl; done|done].
    simpl. split; [by apply set_value_sorted|]. intros j. unfold bucket_get.
    rewrite entry_at_set_value by (by eexists). by case_decide.
  - erewrite run_after_find; [|done|done|exact Hr|simpl; rewrite decide_True by done; done|done].
    simpl. split; [by apply link_sorted|]. intros j. unfold bucket_get.
    rewrite entry_at_link by (done || (intros; by apply Hp)). simpl. by case_decide.
Qed.

Lemma Bucket_Get_spec b k :
  chain_sorted (chain b) -> Bucket_Get b k = value_ptr <$> entry_at k (chain b).
Proof.
  intros Hs. unfold Bucket_Get.
  destruct (Find_from_head b (OpGet k) Hs) as (n & Hn & [[[e He] Hr]|(Ha & prev & Hp & Ht & Hr)]);
    simpl in *.
  - erewrite run_after_find; [|done|done|exact Hr|simpl; done|done]. done.
  - erewrite run_after_find; [|done|done|exact Hr|simpl; done|done]. by rewrite Ha.
Qed.

Lemma Has_solo l2 l1 b k :
  chain b = l1 ++ l2 -> chain_sorted (chain b) -> Forall (fun e => key e < k) l1 ->
  exists n, (n <= length l2 + 1)%nat /\
    solo n b (HasAt k (key <$> head l2)) = (b, HasRet k (bool_decide (is_Some (entry_at k l2)))).
Proof.
  revert l1. induction l2 as [|e l2 IH]; intros l1 Hc Hs Hl1; [exists 1%nat; done|].
  assert (Hs2 : chain_sorted (e :: l2)) by (apply (chain_sorted_app_r l1); by rewrite <- Hc).
  destruct (Z.ltb_spec (key e) k) as [Hlt|Hge].
  - destruct (IH (l1 ++ [e])) as (n & Hn & Hr); [by rewrite <- app_assoc|done| |].
    { apply Forall_app; split; [done|]. by repeat constructor. }
    exists (S n). split; [simpl; lia|]. simpl. rewrite (proj2 (Z.ltb_lt _ _) Hlt). simpl.
    rewrite Hc, next_after_suffix by (by rewrite <- Hc).
    replace (key e =? k) with false by lia. done.
  - exists 1%nat. split; [simpl; lia|]. simpl. rewrite (proj2 (Z.ltb_ge _ _) Hge). simpl.
    destruct (Z.eqb_spec (key e) k) as [He|He]; [by rewrite bool_decide_true|].
    rewrite bool_decide_false; [done|]. intros Hin.
    pose proof (sorted_cons_in e l2 k Hs2 Hin). lia.
Qed.

Lemma Bucket_Has_spec b k :
  chain_sorted (chain b) -> Bucket_Has b k = bool_decide (is_Some (entry_at k (chain b))).
Proof.
  intros Hs. unfold Bucket_Has, run_call. simpl.
  destruct (Has_solo (chain b) [] b k) as (n & Hn & Hr); [done|done|done|].
  erewrite solo_enough; [|exact Hr|done|lia]. done.
Qed.
End Solo.

(** ** The table *)
Section Table.
Context {V : Type}.

(** The template parameter [TableSize] is a power of two, [2 ^ bits]. *)
Record AtomicHashMap := mkMap { table_ : list (Bucket V); capacity_ : Z; mode_num_ : Z }.

Definition AtomicHashMap_new (bits : nat) : AtomicHashMap :=
  let size := 2 ^ Z.of_nat bits in
  mkMap (replicate (Z.to_nat size) Bucket_new) size (size - 1).

Definition index (m : AtomicHashMap) (k : Z) : nat := Z.to_nat (Z.land k (mode_num_ m)).
Definition bucket (m : AtomicHashMap) (k : Z) : Bucket V := default Bucket_new (table_ m !! index m k).

Definition Has (m : AtomicHashMap) (k : Z) : bool := Bucket_Has (bucket m k) k.
(** [Get(key, V** )]: the address of the value cell. *)
Definition Get_ptr (m : AtomicHashMap) (k : Z) : option nat := Bucket_Get (bucket m k) k.
(** [Get(key, V* )]: the value read through that address. *)
Definition Get (m : AtomicHashMap) (k : Z) : option V :=
  match Get_ptr m k with
  | Some _ => bucket_get (chain (bucket m k)) k
  | None => None
  end.
Definition Set_ (m : AtomicHashMap) (k : Z) (v : V) : AtomicHashMap :=
  mkMap (<[index m k := Bucket_Insert (bucket m k) k v]> (table_ m)) (capacity_ m) (mode_num_ m).

(** A write through the address returned by [Get(key, V** )]. *)
Fixpoint modify_entry (k : Z) (f : V -> V) (l : list (Entry V)) : list (Entry V) :=
  match l with
  | [] => []
  | e :: l => if key e =? k then mkEntry (key e) (value_ptr e) (f (value e)) :: l
              else e :: modify_entry k f l
  end.
Definition write_through (m : AtomicHashMap) (k : Z) (f : V -> V) : AtomicHashMap :=
  let b := bucket m k in
  mkMap (<[index m k := mkBucket (modify_entry k f (chain b)) (fresh_ptr b) (freed b)]> (table_ m))
    (capacity_ m) (mode_num_ m).

Record map_wf (bits : nat) (m : AtomicHashMap) : Prop := {
  mw_mode : mode_num_ m = Z.ones (Z.of_nat bits);
  mw_size : Z.of_nat (length (table_ m)) = 2 ^ Z.of_nat bits;
  mw_sorted : Forall (fun b => chain_sorted (chain b)) (table_ m)
}.

Lemma index_lt bits m k : map_wf bits m -> (index m k < length (table_ m))%nat.
Proof.
  intros [Hm Hl _]. unfold index. rewrite Hm, Z.land_ones by lia.
  pose proof (Z.mod_pos_bound k (2 ^ Z.of_nat bits) ltac:(lia)). lia.
Qed.

Lemma bucket_sorted bits m k : map_wf bits m -> chain_sorted (chain (bucket m k)).
Proof.
  intros Hwf. unfold bucket. destruct (table_ m !! index m k) eqn:E; [|constructor].
  simpl. by apply (Forall_lookup_1 _ _ _ _ (mw_sorted _ _ Hwf)) in E.
Qed.

Lemma new_wf bits : map_wf bits (AtomicHashMap_new bits).
Proof.
  split; simpl; [by rewrite Z.ones_equiv|rewrite length_replicate; lia|].
  apply Forall_replicate. constructor.
Qed.

(** Replacing the bucket of a key. *)
Definition with_bucket m k (b : Bucket V) : AtomicHashMap :=
  mkMap (<[index m k := b]> (table_ m)) (capacity_ m) (mode_num_ m).

Lemma with_bucket_wf bits m k b :
  map_wf bits m -> chain_sorted (chain b) -> map_wf bits (with_bucket m k b).
Proof.
  intros [] Hb. split; simpl; [done|by rewrite length_insert|]. by apply Forall_insert.
Qed.

Lemma bucket_with_bucket bits m k b j :
  map_wf bits m ->
  bucket (with_bucket m k b) j = if decide (index m j = index m k) then b else bucket m j.
Proof.
  intros Hwf. pose proof (index_lt _ m k Hwf). unfold bucket, with_bucket, index in *; simpl.
  case_decide as Hi.
  - rewrite Hi, list_lookup_insert_eq by done. done.
  - rewrite list_lookup_insert_ne by done. done.
Qed.

(** The value stored under [k]. *)
Definition map_get m k : option V := bucket_get (chain (bucket m k)) k.

Lemma Get_map_get bits m k : map_wf bits m -> Get m k = map_get m k.
Proof.
  intros Hwf. unfold Get, Get_ptr, map_get.
  rewrite Bucket_Get_spec by (by eapply bucket_sorted). unfold bucket_get.
  by destruct (entry_at k (chain (bucket m k))).
Qed.

Lemma with_bucket_get bits m k b j (w : option V) :
  map_wf bits m ->
  (forall i, bucket_get (chain b) i = if decide (i = k) then w else bucket_get (chain (bucket m k)) i) ->
  map_get (with_bucket m k b) j = if decide (j = k) then w else map_get m j.
Proof.
  intros Hwf Hb. unfold map_get. rewrite (bucket_with_bucket bits) by done.
  destruct (decide (index m j = index m k)) as [Hi|Hi].
  - rewrite Hb. case_decide; [done|]. unfold bucket. by rewrite Hi.
  - rewrite decide_False; [done|congruence].
Qed.

Lemma modify_entry_key k f l : key <$> modify_entry k f l = key <$> l.
Proof. induction l as [|e l IH]; csimpl; [done|]. zcase; csimpl; f_equal; done. Qed.

Lemma modify_entry_get k f l j :
  bucket_get (modify_entry k f l) j =
    if decide (j = k) then f <$> bucket_get l k else bucket_get l j.
Proof.
  unfold bucket_get. induction l as [|e l IH]; simpl; [by case_decide|].
  destruct (Z.eqb_spec (key e) k) as [Hk|Hk]; simpl.
  - case_decide; [subst j|]; repeat zcase; try done; lia.
  - case_decide; [subst j|]; zcase; try done; lia.
Qed.

Lemma Set_wf bits m k v : map_wf bits m -> map_wf bits (Set_ m k v).
Proof.
  intros Hwf. apply with_bucket_wf; [done|]. eapply Bucket_Insert_spec, bucket_sorted, Hwf.
Qed.

Lemma map_get_Set bits m k v j :
  map_wf bits m -> map_get (Set_ m k v) j = if decide (j = k) then Some v else map_get m j.
Proof.
  intros Hwf. eapply with_bucket_get; [done|]. eapply Bucket_Insert_spec, bucket_sorted, Hwf.
Qed.

Lemma write_through_wf bits m k f : map_wf bits m -> map_wf bits (write_through m k f).
Proof.
  intros Hwf. apply with_bucket_wf; [done|]. simpl.
  rewrite chain_sorted_keys, modify_entry_key, <- chain_sorted_keys. by eapply bucket_sorted.
Qed.

Lemma map_get_write_through bits m k f j :
  map_wf bits m ->
  map_get (write_through m k f) j = if decide (j = k) then f <$> map_get m k else map_get m j.
Proof. intros Hwf. eapply with_bucket_get; [done|]. intros i. apply modify_entry_get. Qed.

Lemma map_get_new bits k : map_get (AtomicHashMap_new bits) k = None.
Proof.
  unfold map_get, bucket. destruct (table_ (AtomicHashMap_new bits) !! _) eqn:E; [|done].
  apply lookup_replicate in E as [-> _]. done.
Qed.
End Table.
Arguments AtomicHashMap : clear implicits.

(** The table of 128 buckets that the dispatchers use, as a keyed store. *)
#[export] Instance AtomicHashMap_store V : KeyedStore (AtomicHashMap V) V.
Proof.
  refine {| ks_wf := map_wf 7; ks_empty := AtomicHashMap_new 7; ks_get := Get;
            ks_set := Set_; ks_modify := write_through |}.
  - apply new_wf.
  - intros k. rewrite (Get_map_get 7) by apply new_wf. apply map_get_new.
  - intros. by apply Set_wf.
  - intros. rewrite !(Get_map_get 7) by (done || by apply Set_wf). by eapply map_get_Set.
  - intros. by apply write_through_wf.
  - intros. rewrite !(Get_map_get 7) by (done || by apply write_through_wf).
    by eapply map_get_write_through.
Defined.

(** ** Theorems *)

(** C2: linearizability of a bucket.  Under every interleaving of [Has], [Get] and
    [Insert] by any number of threads, the entry list stays strictly sorted by key and
    holds exactly the map described by the insertions completed so far, in the order
    of their compare-and-swap: no insertion is lost and a key never has two entries. *)
Theorem hash_bucket_linearizable {V} (sched : list (nat * event V)) :
  let s := shared (exec b_step b_init sched) in
  chain_sorted (chain (hb s)) /\
  forall k, bucket_get (chain (hb s)) k = sets_map (sets s) !! k.
Proof.
  pose proof (b_inv_exec b_init sched b_inv_init) as [Hs Hm _]. done.
Qed.

(** The events of a schedule in which thread [u] makes no new call. *)
Definition no_call {V} (u : nat) (sched : list (nat * event V)) : Prop :=
  Forall (fun ev => ev.1 = u -> ev.2 = BStep) sched.

Definition has_running {V} (u : nat) (k : Z) (c : @conf (hbucket V) (pc V)) : Prop :=
  b_inv c /\ in_chain k (chain (hb (shared c))) /\
  ((exists t, pcs c u = HasAt k (Some t) /\ t <= k) \/ pcs c u = HasRet k true).

Lemma in_chain_exec1 {V} (c : @conf (hbucket V) (pc V)) ev k :
  b_inv c -> in_chain k (chain (hb (shared c))) ->
  in_chain k (chain (hb (shared (exec1 b_step c ev)))).
Proof.
  intros Hinv Hin. pose proof (b_inv_exec1 c ev Hinv) as Hinv'.
  assert (is_Some (sets_map (sets (shared (exec1 b_step c ev))) !! k)) as [v Hv].
  { unfold exec1, b_step; simpl. pose proof (bi_map _ Hinv k) as Hk. unfold bucket_get in Hk.
    destruct Hin as [e He]. rewrite He in Hk. simpl in Hk.
    destruct (set_done (pcs c ev.1) _) as [|[k' v'] [|]] eqn:E.
    - rewrite app_nil_r. eauto.
    - rewrite sets_map_snoc, lookup_insert. case_decide; eauto.
    - unfold set_done in E. by repeat case_match. }
  rewrite <- (bi_map _ Hinv' k) in Hv. unfold bucket_get in Hv.
  unfold in_chain. destruct (entry_at k _); [eauto|done].
Qed.

Lemma has_running_exec1 {V} u k (c : @conf (hbucket V) (pc V)) ev :
  (ev.1 = u -> ev.2 = BStep) -> has_running u k c -> has_running u k (exec1 b_step c ev).
Proof.
  intros He (Hinv & Hin & Hpc). split; [by apply b_inv_exec1|].
  split; [by apply in_chain_exec1|]. destruct ev as [t e]. simpl in *.
  unfold exec1, b_step; simpl. thread_cases u t; [|done].
  rewrite (He eq_refl). destruct Hpc as [(a & Ha & Hle)|Hr].
  - rewrite Ha. simpl. pose proof (bi_pcs _ Hinv t) as Hp. rewrite Ha in Hp. simpl in Hp.
    pose proof (next_after_spec a _ (bi_sorted _ Hinv) (Hp a eq_refl)) as Hn.
    destruct (Z.ltb_spec a k); simpl.
    + left. destruct (next_after a _) as [b|].
      * destruct Hn as (_ & _ & Hn). exists b. split; [done|by apply Hn].
      * specialize (Hn k Hin). lia.
    + right. f_equal. lia.
  - rewrite Hr. by right.
Qed.

(** [Has] never misses a key that was present when it was called, however the
    other threads interleave: as long as the calling thread makes no other call it is
    still searching or has answered [true]. *)
Theorem Has_never_misses {V} (sched0 sched : list (nat * event V)) (u : nat) (k : Z) :
  let c := exec b_step b_init sched0 in
  in_chain k (chain (hb (shared c))) -> finished (pcs c u) -> no_call u sched ->
  let c' := exec b_step (exec1 b_step c (u, CallHas k)) sched in
  pcs c' u = HasRet k true \/ exists t, pcs c' u = HasAt k (Some t).
Proof.
  intros c Hin Hf Hnc c'. pose proof (b_inv_exec _ sched0 b_inv_init : b_inv c) as Hinv.
  assert (has_running u k (exec1 b_step c (u, CallHas k))) as H0.
  { split; [by apply b_inv_exec1|]. split; [by apply in_chain_exec1|]. left.
    pose proof (next_of_head _ (bi_sorted _ Hinv)) as Hh.
    unfold exec1, b_step; simpl. rewrite fn_lookup_insert.
    destruct (pcs c u); try done; simpl; unfold next_of in Hh;
      (destruct (key <$> head _) as [t|]; [destruct Hh as [_ Hh]; eauto|by apply Hh in Hin]). }
  assert (has_running u k c') as (_ & _ & Hr).
  { unfold c'. revert H0. generalize (exec1 b_step c (u, CallHas k)). clear c' c Hin Hf Hinv.
    induction Hnc as [|ev sched Hev Hnc IH]; intros c Hc; [done|].
    simpl. apply IH. by apply has_running_exec1. }
  destruct Hr as [(t & Ht & _)|Hr]; eauto.
Qed.

Lemma Has_never_misses_witness :
  let c := exec b_step b_init [(0%nat, CallInsert 5 1); (0%nat, BStep); (0%nat, BStep); (0%nat, BStep)] in
  let c' := exec b_step (exec1 b_step c (0%nat, CallHas 5)) [(0%nat, BStep)] in
  pcs c' 0%nat = HasRet 5 true \/ exists t, pcs c' 0%nat = HasAt 5 (Some t).
Proof.
  apply (Has_never_misses [(0%nat, CallInsert 5 1); (0%nat, BStep); (0%nat, BStep); (0%nat, BStep)]
           [(0%nat, BStep)] 0%nat 5).
  - vm_compute. eauto.
  - exact I.
  - repeat constructor.
Defined.

(** The table refines a finite map.  On a well-formed table [Set] replaces exactly
    the value of its key, [Get] reads it back, [Has] decides membership, and
    well-formedness is kept; the keys of one bucket do not disturb each other. *)
Theorem hash_map_refines_map {V} bits (m : AtomicHashMap V) (k j : Z) (v : V) :
  map_wf bits m ->
  map_wf bits (Set_ m k v) /\
  Get (Set_ m k v) j = (if decide (j = k) then Some v else Get m j) /\
  Has (Set_ m k v) j = (if decide (j = k) then true else Has m j) /\
  Has m j = bool_decide (is_Some (Get m j)).
Proof.
  intros Hwf. pose proof (Set_wf bits m k v Hwf) as Hwf'.
  assert (HH : forall m' : AtomicHashMap V, map_wf bits m' -> Has m' j = bool_decide (is_Some (Get m' j))).
  { intros m' Hm'. rewrite (Get_map_get bits) by done. unfold Has, map_get, bucket_get.
    rewrite Bucket_Has_spec by (by eapply bucket_sorted). by destruct (entry_at j _). }
  assert (HG : Get (Set_ m k v) j = if decide (j = k) then Some v else Get m j).
  { rewrite !(Get_map_get bits) by done. by eapply map_get_Set. }
  split_and!; [done|done| |by apply HH].
  rewrite !HH, HG by done. by case_decide.
Qed.

Lemma hash_map_refines_map_witness :
  Get (Set_ (Set_ (AtomicHashMap_new 2) 5 50) 1 10) 5 = Some 50 /\
  Has (Set_ (AtomicHashMap_new 2) 5 50) 9 = false.
Proof.
  split.
  - apply (hash_map_refines_map 2 (Set_ (AtomicHashMap_new 2) 5 50) 1 5 10
             (Set_wf 2 (AtomicHashMap_new 2) 5 50 (new_wf 2))).
  - reflexivity.
Defined.

(** The address returned by [Get] may already be deleted when it is used: between
    the load of [value_ptr] and the read through it another thread's [Set] of the same
    key replaces the cell and deletes it. *)
Theorem Get_dangling_pointer :
  let op t e := (t, e) :: repeat (t, BStep) 4 in
  let c := exec b_step b_init
     (op 0%nat (CallInsert 3 30) ++ op 1%nat (CallGet 3) ++ op 0%nat (CallInsert 3 31)) in
  exists p, pcs c 1%nat = GetRet 3 (Some p) /\ p ∈ freed (hb (shared c)).
Proof. exists 0%nat. vm_compute. split; [reflexivity|constructor]. Qed.
