(* ===== verification/RwLock.v ===== *)
(** * Reader/writer locks: base/atomic_rw_lock.h, base/reentrant_rw_lock.h,
    base/rw_lock_guard.h

    The two spinning locks, split at their atomic accesses.  The locks are only taken
    through guards: the constructor of a guard acquires, its destructor releases, so a
    thread releases what it holds, in stack order.  The retry counter that only decides
    when to yield the processor is left out. *)

From Stdlib Require Import ZArith Lia.
From stdpp Require Import base gmap sets functions numbers list.
From S2P Require Import Prelude.

Definition RW_LOCK_FREE : Z := 0.
Definition WRITE_EXCLUSIVE : Z := -1.

(** ** AtomicRWLock *)
Record AtomicRWLock := mkLock {
  write_lock_wait_num_ : Z;
  lock_num_ : Z;
  write_first_ : bool
}.

Definition AtomicRWLock_new (write_first : bool) : AtomicRWLock := mkLock 0 0 write_first.

Definition set_wait (k : AtomicRWLock) v := mkLock v (lock_num_ k) (write_first_ k).
Definition set_num (k : AtomicRWLock) v := mkLock (write_lock_wait_num_ k) v (write_first_ k).

Inductive lpc :=
| LIdle
| RCheck (lock_num : Z)
| RReload
| RCas (lock_num : Z)
| RHeld
| WCas
| WDec
| WHeld.

(** [ReadLock] after its first load of [lock_num_]. *)
Definition ReadLock_step (k : AtomicRWLock) (spurious : bool) (p : lpc) : AtomicRWLock * lpc :=
  match p with
  | RCheck n =>
      if (n <? RW_LOCK_FREE) || (write_first_ k && (0 <? write_lock_wait_num_ k))
      then (k, RReload) else (k, RCas n)
  | RReload => (k, RCheck (lock_num_ k))
  | RCas n =>
      if cas_weak spurious (lock_num_ k) n then (set_num k (i32 (n + 1)), RHeld)
      else (k, RCheck (lock_num_ k))
  | _ => (k, p)
  end.

(** [WriteLock] after its [fetch_add] on the waiter count. *)
Definition WriteLock_step (k : AtomicRWLock) (spurious : bool) (p : lpc) : AtomicRWLock * lpc :=
  match p with
  | WCas =>
      if cas_weak spurious (lock_num_ k) RW_LOCK_FREE then (set_num k WRITE_EXCLUSIVE, WDec)
      else (k, WCas)
  | WDec => (set_wait k (u32 (write_lock_wait_num_ k - 1)), WHeld)
  | _ => (k, p)
  end.

Definition ReadUnlock (k : AtomicRWLock) : AtomicRWLock := set_num k (i32 (lock_num_ k - 1)).
Definition WriteUnlock (k : AtomicRWLock) : AtomicRWLock := set_num k (i32 (lock_num_ k + 1)).

(** What a thread does with the lock: construct a read or write guard, take the next
    step of an acquisition, destroy the guard it holds. *)
Inductive levent := GuardRead | GuardWrite | LStep (spurious : bool) | Release.

Definition lock_thread (k : AtomicRWLock) (p : lpc) (e : levent) : AtomicRWLock * lpc :=
  match p, e with
  | LIdle, GuardRead => (k, RCheck (lock_num_ k))
  | LIdle, GuardWrite => (set_wait k (u32 (write_lock_wait_num_ k + 1)), WCas)
  | (RCheck _ | RReload | RCas _), LStep b => ReadLock_step k b p
  | (WCas | WDec), LStep b => WriteLock_step k b p
  | RHeld, Release => (ReadUnlock k, LIdle)
  | WHeld, Release => (WriteUnlock k, LIdle)
  | _, _ => (k, p)
  end.

Definition lock_init (write_first : bool) : conf :=
  Conf (AtomicRWLock_new write_first) (fun _ : nat => LIdle).

(** The threads that hold the lock, or wait to write. *)
Definition is_reader (p : lpc) : bool := match p with RHeld => true | _ => false end.
Definition is_writer (p : lpc) : bool := match p with WDec | WHeld => true | _ => false end.
Definition is_waiter (p : lpc) : bool := match p with WCas | WDec => true | _ => false end.

(** The counters count: readers in [lock_num_], or minus one for the only writer, and
    the waiting writers in [write_lock_wait_num_]. *)
Record lock_inv (n : nat) (c : @conf AtomicRWLock lpc) : Prop := {
  li_sets : exists R W Q : gset nat,
    tracks is_reader (pcs c) R /\ tracks is_writer (pcs c) W /\ tracks is_waiter (pcs c) Q /\
    lock_num_ (shared c) = Z.of_nat (size R) - Z.of_nat (size W) /\
    (size W <= 1)%nat /\ (W <> ∅ -> R = ∅) /\ (size R <= n)%nat /\
    write_lock_wait_num_ (shared c) = Z.of_nat (size Q) /\ (size Q <= n)%nat;
  li_cas : forall u m, pcs c u = RCas m -> 0 <= m
}.

Section LockInvariant.
Implicit Types (c : @conf AtomicRWLock lpc).

(** The state after an event of thread [t]. *)
Lemma lock_exec1 c t e k' p' :
  lock_thread (shared c) (pcs c t) e = (k', p') ->
  exec1 lock_thread c (t, e) = Conf k' (<[t := p']> (pcs c)).
Proof. intros He. unfold exec1; simpl. by rewrite He. Qed.

Lemma cas_bound_insert c t p' :
  (forall u m, pcs c u = RCas m -> 0 <= m) -> (forall m, p' = RCas m -> 0 <= m) ->
  forall u m, (<[t := p']> (pcs c)) u = RCas m -> 0 <= m.
Proof. intros Hc Hp u m. thread_cases u t; eauto. Qed.

(** Steps that change neither counter nor the sets. *)
Lemma lock_inv_quiet n c t e p' :
  lock_inv n c ->
  lock_thread (shared c) (pcs c t) e = (shared c, p') ->
  is_reader p' = is_reader (pcs c t) -> is_writer p' = is_writer (pcs c t) ->
  is_waiter p' = is_waiter (pcs c t) -> (forall m, p' = RCas m -> 0 <= m) ->
  lock_inv (n + 1) (exec1 lock_thread c (t, e)).
Proof.
  intros [(R & W & Q & HR & HW & HQ & ? & ? & ? & ? & ? & ?) Hc] He Hr1 Hr2 Hr3 Hp.
  rewrite (lock_exec1 _ _ _ _ _ He). split; simpl; [|by apply cas_bound_insert].
  exists R, W, Q. split_and!; try (by apply tracks_same); try done; lia.
Qed.

Lemma reader_enters n c t b m :
  Z.of_nat n + 1 < two31 -> lock_inv n c -> pcs c t = RCas m ->
  cas_weak b (lock_num_ (shared c)) m = true ->
  lock_inv (n + 1) (exec1 lock_thread c (t, LStep b)).
Proof.
  intros Hn [(R & W & Q & HR & HW & HQ & Hnum & HW1 & HWR & HRn & Hwait & HQn) Hc] Hpc Hcas.
  pose proof Hcas as Hm. apply andb_true_iff in Hm as [_ Hm%Z.eqb_eq]. pose proof (Hc t m Hpc).
  assert (size W = 0%nat) as HW0.
  { destruct (decide (W = ∅)) as [->|Hne]; [done|]. rewrite (HWR Hne) in *. rewrite size_empty in *.
    assert (size W <> 0%nat) by (intros ?%tracks_empty_size; done). lia. }
  assert (W = ∅) as -> by (by apply tracks_empty_size).
  erewrite lock_exec1; [|rewrite Hpc; simpl; rewrite Hcas; done].
  destruct (tracks_add is_reader (pcs c) t RHeld R HR) as [HR' Hs]; [done|by rewrite Hpc|].
  split; simpl; [|by apply cas_bound_insert].
  exists ({[t]} ∪ R), ∅, Q. rewrite Hs, i32_small by word_lia.
  split_and!; try (apply tracks_same; [done|by rewrite Hpc]); try done; lia.
Qed.

Lemma writer_enters n c t b :
  lock_inv n c -> pcs c t = WCas ->
  cas_weak b (lock_num_ (shared c)) RW_LOCK_FREE = true ->
  lock_inv (n + 1) (exec1 lock_thread c (t, LStep b)).
Proof.
  intros [(R & W & Q & HR & HW & HQ & Hnum & HW1 & HWR & HRn & Hwait & HQn) Hc] Hpc Hcas.
  pose proof Hcas as Hm. apply andb_true_iff in Hm as [_ Hm%Z.eqb_eq].
  unfold RW_LOCK_FREE in Hm.
  assert (size W = 0%nat) as HW0.
  { destruct (decide (W = ∅)) as [->|Hne]; [done|]. rewrite (HWR Hne) in *. rewrite size_empty in *.
    assert (size W <> 0%nat) by (intros ?%tracks_empty_size; done). lia. }
  assert (R = ∅) as -> by (apply tracks_empty_size; lia).
  erewrite lock_exec1; [|rewrite Hpc; simpl; rewrite Hcas; done].
  destruct (tracks_add is_writer (pcs c) t WDec W HW) as [HW' Hs]; [done|by rewrite Hpc|].
  split; simpl; [|by apply cas_bound_insert].
  exists ∅, ({[t]} ∪ W), Q. rewrite Hs, HW0, size_empty. unfold WRITE_EXCLUSIVE.
  split_and!; try (apply tracks_same; [done|by rewrite Hpc]); try done; lia.
Qed.

Lemma writer_waits n c t :
  Z.of_nat n + 1 < two31 -> lock_inv n c -> pcs c t = LIdle ->
  lock_inv (n + 1) (exec1 lock_thread c (t, GuardWrite)).
Proof.
  intros Hn [(R & W & Q & HR & HW & HQ & Hnum & HW1 & HWR & HRn & Hwait & HQn) Hc] Hpc.
  erewrite lock_exec1; [|rewrite Hpc; simpl; done].
  destruct (tracks_add is_waiter (pcs c) t WCas Q HQ) as [HQ' Hs]; [done|by rewrite Hpc|].
  split; simpl; [|by apply cas_bound_insert].
  exists R, W, ({[t]} ∪ Q). rewrite Hs, u32_small by word_lia.
  split_and!; try (apply tracks_same; [done|by rewrite Hpc]); try done; lia.
Qed.

Lemma writer_done_waiting n c t b :
  Z.of_nat n + 1 < two31 -> lock_inv n c -> pcs c t = WDec ->
  lock_inv (n + 1) (exec1 lock_thread c (t, LStep b)).
Proof.
  intros Hn [(R & W & Q & HR & HW & HQ & Hnum & HW1 & HWR & HRn & Hwait & HQn) Hc] Hpc.
  erewrite lock_exec1; [|rewrite Hpc; simpl; done].
  destruct (tracks_del is_waiter (pcs c) t WHeld Q HQ) as [HQ' Hs]; [done|by rewrite Hpc|].
  split; simpl; [|by apply cas_bound_insert].
  exists R, W, (Q ∖ {[t]}). rewrite u32_small by word_lia.
  split_and!; try (apply tracks_same; [done|by rewrite Hpc]); try done; lia.
Qed.

Lemma reader_leaves n c t :
  Z.of_nat n + 1 < two31 -> lock_inv n c -> pcs c t = RHeld ->
  lock_inv (n + 1) (exec1 lock_thread c (t, Release)).
Proof.
  intros Hn [(R & W & Q & HR & HW & HQ & Hnum & HW1 & HWR & HRn & Hwait & HQn) Hc] Hpc.
  erewrite lock_exec1; [|rewrite Hpc; simpl; done].
  destruct (tracks_del is_reader (pcs c) t LIdle R HR) as [HR' Hs]; [done|by rewrite Hpc|].
  split; simpl; [|by apply cas_bound_insert].
  exists (R ∖ {[t]}), W, Q. rewrite i32_small by word_lia.
  split_and!; try (apply tracks_same; [done|by rewrite Hpc]); try done; try lia.
  intros Hne. rewrite (HWR Hne). set_solver.
Qed.

Lemma writer_leaves n c t :
  Z.of_nat n + 1 < two31 -> lock_inv n c -> pcs c t = WHeld ->
  lock_inv (n + 1) (exec1 lock_thread c (t, Release)).
Proof.
  intros Hn [(R & W & Q & HR & HW & HQ & Hnum & HW1 & HWR & HRn & Hwait & HQn) Hc] Hpc.
  erewrite lock_exec1; [|rewrite Hpc; simpl; done].
  destruct (tracks_del is_writer (pcs c) t LIdle W HW) as [HW' Hs]; [done|by rewrite Hpc|].
  assert (W <> ∅) as Hne by (intros ->; rewrite size_empty in Hs; done).
  split; simpl; [|by apply cas_bound_insert].
  exists R, (W ∖ {[t]}), Q. rewrite i32_small by word_lia.
  split_and!; try (apply tracks_same; [done|by rewrite Hpc]); try done; try lia.
  intros _. by apply HWR.
Qed.

Ltac lock_quiet Hpc tac :=
  eapply lock_inv_quiet; [done|rewrite Hpc; simpl; tac; done|rewrite ?Hpc; try done..].

Lemma lock_inv_exec1 n c ev :
  Z.of_nat n + 1 < two31 -> lock_inv n c -> lock_inv (n + 1) (exec1 lock_thread c ev).
Proof.
  intros Hn Hinv. destruct ev as [t e].
  destruct (pcs c t) as [|m| |m| | | |] eqn:Hpc; destruct e as [| |b|];
    try (lock_quiet Hpc idtac; fail); try (lock_quiet Hpc idtac; intros m' [= <-]; by eapply (li_cas _ _ Hinv)).
  - by apply writer_waits.
  - destruct ((m <? RW_LOCK_FREE) || (write_first_ (shared c) && (0 <? write_lock_wait_num_ (shared c)))) eqn:E;
      lock_quiet Hpc ltac:(rewrite E).
    apply orb_false_iff in E as [E _]. intros m' [= <-]. unfold RW_LOCK_FREE in E. lia.
  - destruct (cas_weak b (lock_num_ (shared c)) m) eqn:E; [by eapply reader_enters|].
    lock_quiet Hpc ltac:(rewrite E).
  - by apply reader_leaves.
  - destruct (cas_weak b (lock_num_ (shared c)) RW_LOCK_FREE) eqn:E; [by eapply writer_enters|].
    lock_quiet Hpc ltac:(rewrite E).
  - by apply writer_done_waiting.
  - by apply writer_leaves.
Qed.

Lemma lock_inv_exec wf sched :
  Z.of_nat (length sched) + 1 < two31 ->
  lock_inv (length sched) (exec lock_thread (lock_init wf) sched).
Proof.
  intros Hn. apply (exec_invariant _ lock_inv (length sched)); [| |done].
  - intros n c ev Hlt Hi. apply lock_inv_exec1; [lia|done].
  - split; simpl; [|done]. exists ∅, ∅, ∅. rewrite size_empty. split_and!; try done; try lia; intros u; set_solver.
Qed.
End LockInvariant.

(** ** ReentrantRWLock *)
Record ReentrantRWLock := mkRLock {
  write_thread_id_ : option nat;
  rwait_num_ : Z;
  rlock_num_ : Z;
  rwrite_first_ : bool
}.

Definition ReentrantRWLock_new (write_first : bool) : ReentrantRWLock := mkRLock None 0 0 write_first.

Definition rset_id (k : ReentrantRWLock) v := mkRLock v (rwait_num_ k) (rlock_num_ k) (rwrite_first_ k).
Definition rset_wait (k : ReentrantRWLock) v := mkRLock (write_thread_id_ k) v (rlock_num_ k) (rwrite_first_ k).
Definition rset_num (k : ReentrantRWLock) v := mkRLock (write_thread_id_ k) (rwait_num_ k) v (rwrite_first_ k).

Inductive guard := RG | WG.
#[export] Instance guard_eq_dec : EqDecision guard.
Proof. solve_decision. Defined.

Inductive rpc := Rest | XCheck (lock_num : Z) | XReload | XCas (lock_num : Z) | YCas | YSetId | YDec | UReset.

(** A thread: its id, the guards it holds (innermost first), where it is. *)
Record rthread := mkRT { tid : nat; held : list guard; at_pc : rpc }.

Definition owns (k : ReentrantRWLock) (l : rthread) : bool := bool_decide (write_thread_id_ k = Some (tid l)).
Definition goto (l : rthread) (p : rpc) : rthread := mkRT (tid l) (held l) p.
Definition got (l : rthread) (g : guard) : rthread := mkRT (tid l) (g :: held l) Rest.
Definition drop_guard (l : rthread) (p : rpc) : rthread := mkRT (tid l) (tail (held l)) p.

(** [ReadLock]: the owner returns at once, another thread enters the loop. *)
Definition RReadLock (k : ReentrantRWLock) (l : rthread) : ReentrantRWLock * rthread :=
  if owns k l then (k, got l RG) else (k, goto l (XCheck (rlock_num_ k))).

Definition RReadLock_step (k : ReentrantRWLock) (spurious : bool) (l : rthread) : ReentrantRWLock * rthread :=
  match at_pc l with
  | XCheck n =>
      if (n <? RW_LOCK_FREE) || (rwrite_first_ k && (0 <? rwait_num_ k))
      then (k, goto l XReload) else (k, goto l (XCas n))
  | XReload => (k, goto l (XCheck (rlock_num_ k)))
  | XCas n =>
      if cas_weak spurious (rlock_num_ k) n then (rset_num k (i32 (n + 1)), got l RG)
      else (k, goto l (XCheck (rlock_num_ k)))
  | _ => (k, l)
  end.

(** [WriteLock]: the owner counts one level deeper, another thread becomes a waiter. *)
Definition RWriteLock (k : ReentrantRWLock) (l : rthread) : ReentrantRWLock * rthread :=
  if owns k l then (rset_num k (i32 (rlock_num_ k - 1)), got l WG)
  else (rset_wait k (u32 (rwait_num_ k + 1)), goto l YCas).

Definition RWriteLock_step (k : ReentrantRWLock) (spurious : bool) (l : rthread) : ReentrantRWLock * rthread :=
  match at_pc l with
  | YCas =>
      if cas_weak spurious (rlock_num_ k) RW_LOCK_FREE
      then (rset_num k WRITE_EXCLUSIVE, goto l YSetId) else (k, l)
  | YSetId => (rset_id k (Some (tid l)), goto l YDec)
  | YDec => (rset_wait k (u32 (rwait_num_ k - 1)), got l WG)
  | _ => (k, l)
  end.

Definition RReadUnlock (k : ReentrantRWLock) (l : rthread) : ReentrantRWLock * rthread :=
  if owns k l then (k, drop_guard l Rest)
  else (rset_num k (i32 (rlock_num_ k - 1)), drop_guard l Rest).

(** [WriteUnlock]: the [fetch_add], then the reset of the owner id as a separate access. *)
Definition RWriteUnlock (k : ReentrantRWLock) (l : rthread) : ReentrantRWLock * rthread :=
  (rset_num k (i32 (rlock_num_ k + 1)),
   drop_guard l (if rlock_num_ k =? WRITE_EXCLUSIVE then UReset else Rest)).
Definition RWriteUnlock_step (k : ReentrantRWLock) (l : rthread) : ReentrantRWLock * rthread :=
  match at_pc l with
  | UReset => (rset_id k None, goto l Rest)
  | _ => (k, l)
  end.

Definition rlock_thread (k : ReentrantRWLock) (l : rthread) (e : levent) : ReentrantRWLock * rthread :=
  match at_pc l, e with
  | Rest, GuardRead => RReadLock k l
  | Rest, GuardWrite => RWriteLock k l
  | Rest, Release =>
      match held l with
      | [] => (k, l)
      | RG :: _ => RReadUnlock k l
      | WG :: _ => RWriteUnlock k l
      end
  | (XCheck _ | XReload | XCas _), LStep b => RReadLock_step k b l
  | (YCas | YSetId | YDec), LStep b => RWriteLock_step k b l
  | UReset, LStep _ => RWriteUnlock_step k l
  | _, _ => (k, l)
  end.

Definition rlock_init (write_first : bool) : conf :=
  Conf (ReentrantRWLock_new write_first) (fun t : nat => mkRT t [] Rest).

(** ** Theorems *)

(** C35: mutual exclusion of [AtomicRWLock].  Under every interleaving of fewer than
    [2^31 - 1] events, while a thread holds the write guard no other thread holds a
    read or a write guard; and once no thread uses the lock both counters are zero. *)
Theorem rwlock_mutual_exclusion wf sched :
  Z.of_nat (length sched) + 1 < two31 ->
  let c := exec lock_thread (lock_init wf) sched in
  (forall u v, pcs c u = WHeld -> v <> u -> pcs c v <> WHeld /\ pcs c v <> RHeld) /\
  ((forall u, pcs c u = LIdle) ->
     lock_num_ (shared c) = RW_LOCK_FREE /\ write_lock_wait_num_ (shared c) = 0).
Proof.
  intros Hn c. destruct (lock_inv_exec wf sched Hn)
    as [(R & W & Q & HR & HW & HQ & Hnum & HW1 & HWR & _ & Hwait & _) _]. fold c in HR, HW, HQ, Hnum, Hwait.
  split.
  - intros u v Hu Hv. assert (Hu' : u ∈ W) by (apply HW; by rewrite Hu).
    split; intros Hp.
    + assert (Hv' : v ∈ W) by (apply HW; by rewrite Hp).
      apply Hv. symmetry. eapply (size_singleton_inv W); [|done..].
      assert (size W <> 0%nat) by (intros ?%tracks_empty_size; set_solver). lia.
    + assert (Hv' : v ∈ R) by (apply HR; by rewrite Hp).
      rewrite HWR in Hv' by set_solver. set_solver.
  - intros Hidle.
    assert (forall f S, tracks f (pcs c) S -> f LIdle = false -> size S = 0%nat) as Hz.
    { intros f S Hs Hf. assert (S = ∅) as ->; [|apply size_empty].
      apply leibniz_equiv. intros x. rewrite (Hs x), Hidle, Hf. set_solver. }
    rewrite Hnum, Hwait, (Hz _ _ HR), (Hz _ _ HW), (Hz _ _ HQ) by done. done.
Qed.

Lemma rwlock_mutual_exclusion_witness :
  let c := exec lock_thread (lock_init true)
    [(0%nat, GuardWrite); (0%nat, LStep false); (0%nat, LStep false); (1%nat, GuardRead); (1%nat, LStep false)] in
  pcs c 0%nat = WHeld /\ pcs c 1%nat <> RHeld.
Proof.
  intros c. split; [reflexivity|].
  apply (proj1 (rwlock_mutual_exclusion true
    [(0%nat, GuardWrite); (0%nat, LStep false); (0%nat, LStep false); (1%nat, GuardRead); (1%nat, LStep false)]
    ltac:(reflexivity)) 0%nat 1%nat); [reflexivity|lia].
Defined.

(** One thread alone takes and releases guards: the events of acquiring a guard as
    owner, and of releasing one. *)
Definition reenter (t : nat) (g : guard) : nat * levent :=
  (t, match g with RG => GuardRead | WG => GuardWrite end).

Definition write_depth (gs : list guard) : Z :=
  Z.of_nat (length (filter (fun g => g = WG) gs)).

(** Thread [t] owns the lock and holds the guards [gs]. *)
Definition owner_state (t : nat) (wf : bool) (c : @conf ReentrantRWLock rthread) (gs : list guard) : Prop :=
  shared c = mkRLock (Some t) 0 (- write_depth gs) wf /\ pcs c t = mkRT t gs Rest.

Lemma write_depth_cons g gs :
  write_depth (g :: gs) = write_depth gs + (if decide (g = WG) then 1 else 0).
Proof. unfold write_depth. rewrite filter_cons. case_decide; simpl; lia. Qed.

Lemma write_depth_nonneg gs : 0 <= write_depth gs.
Proof. unfold write_depth. lia. Qed.

Lemma owner_enters t wf c gs g :
  write_depth (g :: gs) < two31 -> owner_state t wf c gs ->
  owner_state t wf (exec1 rlock_thread c (reenter t g)) (g :: gs).
Proof.
  intros Hd [Hs Hp]. pose proof (write_depth_nonneg gs). rewrite write_depth_cons in Hd.
  unfold owner_state, exec1, reenter; simpl. rewrite Hs, Hp, fn_lookup_insert.
  destruct g; unfold rlock_thread; simpl; unfold RReadLock, RWriteLock, owns; simpl;
    rewrite bool_decide_true by done; simpl; rewrite write_depth_cons; simpl in *.
  - split; [|done]. f_equal. lia.
  - unfold rset_num; simpl. rewrite i32_small by word_lia. split; [|done]. f_equal. lia.
Qed.

Lemma owner_leaves t wf c gs g :
  1 <= write_depth gs -> write_depth (g :: gs) < two31 -> owner_state t wf c (g :: gs) ->
  owner_state t wf (exec1 rlock_thread c (t, Release)) gs.
Proof.
  intros H1 Hd [Hs Hp]. rewrite write_depth_cons in *.
  unfold owner_state, exec1; simpl. rewrite Hs, Hp, fn_lookup_insert.
  destruct g; unfold rlock_thread; simpl; unfold RReadUnlock, RWriteUnlock, owns, WRITE_EXCLUSIVE; simpl.
  - rewrite bool_decide_true by done. simpl. split; [|done]. simpl in *. f_equal. lia.
  - simpl in *. replace (- (write_depth gs + 1) =? -1) with false by lia. split; [|done].
    unfold rset_num; simpl. rewrite i32_small by word_lia. f_equal. lia.
Qed.

Lemma owner_enters_all t wf c gs0 gs :
  write_depth (gs ++ gs0) < two31 -> owner_state t wf c gs0 ->
  owner_state t wf (exec rlock_thread c (reenter t <$> reverse gs)) (gs ++ gs0).
Proof.
  intros Hd H0. induction gs as [|g gs IH]; [done|]. simpl in *.
  rewrite reverse_cons, fmap_app, exec_app. simpl. apply owner_enters; [done|]. apply IH.
  rewrite write_depth_cons in Hd. case_decide; lia.
Qed.

Lemma owner_leaves_all t wf c gs0 gs :
  1 <= write_depth gs0 -> write_depth (gs ++ gs0) < two31 -> owner_state t wf c (gs ++ gs0) ->
  owner_state t wf (exec rlock_thread c (replicate (length gs) (t, Release))) gs0.
Proof.
  intros H1. revert c. induction gs as [|g gs IH]; intros c Hd H0; [done|]. simpl in *.
  pose proof Hd as Hd'. rewrite write_depth_cons in Hd'.
  assert (write_depth gs0 <= write_depth (gs ++ gs0)).
  { unfold write_depth. rewrite filter_app, length_app. lia. }
  apply IH; [case_decide; lia|]. apply (owner_leaves t wf c (gs ++ gs0) g); [lia|done|done].
Qed.

(** Re-entrance.  A thread that acquires the write guard of a free
    [ReentrantRWLock] and then any nesting of further read and write guards gets each of
    them at once, and after destroying them all in reverse order the lock is free again
    and has no owner. *)
Theorem reentrant_nesting_balanced wf t (gs : list guard) :
  write_depth gs + 1 < two31 ->
  let acquire := (t, GuardWrite) :: replicate 3 (t, LStep false) ++ (reenter t <$> reverse gs) in
  let release := replicate (length gs) (t, Release) ++ [(t, Release); (t, LStep false)] in
  let c := exec rlock_thread (rlock_init wf) acquire in
  held (pcs c t) = gs ++ [WG] /\
  exec rlock_thread c release = Conf (ReentrantRWLock_new wf) (pcs (exec rlock_thread c release)) /\
  held (pcs (exec rlock_thread c release) t) = [].
Proof.
  intros Hd acquire release c.
  assert (Hd' : write_depth (gs ++ [WG]) < two31).
  { unfold write_depth in *. rewrite filter_app, length_app. simpl. lia. }
  assert (H1 : owner_state t wf c (gs ++ [WG])).
  { unfold c, acquire. rewrite app_comm_cons, exec_app. apply owner_enters_all; [done|].
    unfold owner_state; simpl. unfold exec1; simpl. rewrite !fn_lookup_insert. simpl. done. }
  split; [by rewrite (proj2 H1)|].
  pose proof (owner_leaves_all t wf c [WG] gs ltac:(done) Hd' H1) as [Hs Hp].
  unfold release. rewrite exec_app.
  set (c1 := exec rlock_thread c (replicate (length gs) (t, Release))) in *.
  simpl. unfold exec1; simpl. rewrite Hs, Hp. simpl. rewrite !fn_lookup_insert. simpl. done.
Qed.

Lemma reentrant_nesting_balanced_witness :
  held (pcs (exec rlock_thread (rlock_init true)
    ((5%nat, GuardWrite) :: replicate 3 (5%nat, LStep false) ++ (reenter 5 <$> reverse [RG; WG; RG]))) 5%nat)
  = [RG; WG; RG; WG].
Proof. apply (reentrant_nesting_balanced true 5 [RG; WG; RG]). reflexivity. Defined.

(** A waiting writer makes no progress while [lock_num_] stays exclusive. *)
Lemma stuck_writer t n (c : @conf ReentrantRWLock rthread) :
  pcs c t = mkRT t [] YCas -> rlock_num_ (shared c) = WRITE_EXCLUSIVE ->
  pcs (exec rlock_thread c (replicate n (t, LStep false))) t = mkRT t [] YCas.
Proof.
  revert c. induction n as [|n IH]; intros c Hp Hn; [done|].
  assert (Hr : rlock_thread (shared c) (pcs c t) (LStep false) = (shared c, pcs c t)).
  { rewrite Hp. unfold rlock_thread; simpl. unfold RWriteLock_step; simpl. by rewrite Hn. }
  cbn [replicate exec foldl]. apply IH; unfold exec1; cbn [fst snd]; rewrite Hr; cbn [shared pcs fst snd].
  - by rewrite fn_lookup_insert.
  - done.
Qed.

(** The late reset of the owner id corrupts the lock.  Thread 0 has released the
    write lock but not yet cleared [write_thread_id_]; thread 1 acquires it and a nested
    read guard, then thread 0 clears the id.  Thread 1's guards are now released as if it
    were not the owner: at the end no thread holds any guard and none is inside an
    operation, yet [lock_num_] is [WRITE_EXCLUSIVE] for ever. *)
Theorem reentrant_lock_lost :
  let acq t := (t, GuardWrite) :: replicate 3 (t, LStep false) in
  let c := exec rlock_thread (rlock_init true)
    (acq 0%nat ++ [(0%nat, Release)] ++ acq 1%nat ++ [(1%nat, GuardRead); (0%nat, LStep false);
     (1%nat, Release); (1%nat, Release); (1%nat, LStep false)]) in
  rlock_num_ (shared c) = WRITE_EXCLUSIVE /\
  pcs c 0%nat = mkRT 0 [] Rest /\ pcs c 1%nat = mkRT 1 [] Rest /\
  forall n, held (pcs (exec rlock_thread c ((2%nat, GuardWrite) :: replicate n (2%nat, LStep false))) 2%nat) = [].
Proof.
  intros acq c. split_and!; [vm_compute; reflexivity..|].
  intros n. change (exec rlock_thread c ((2%nat, GuardWrite) :: replicate n (2%nat, LStep false)))
    with (exec rlock_thread (exec1 rlock_thread c (2%nat, GuardWrite)) (replicate n (2%nat, LStep false))).
  rewrite stuck_writer; [done|vm_compute; reflexivity..].
Qed.
