(* ===== verification/Pools.v ===== *)
(** * Object pools: base/object_pool.h, base/concurrent_object_pool.h

    The nodes of the arena are numbered; [next] links form the free list.
    [CCObjectPool] pops and pushes with a compare-and-swap on a (count, node) pair; its
    operations are split at their accesses.  A thread owns the objects it got until it
    releases them (the deleter of the shared pointer). *)

From Stdlib Require Import ZArith Lia.
From stdpp Require Import base gmap sets functions numbers list.
From S2P Require Import Prelude.

(** ** ObjectPool *)
Record ObjectPool := mkPool { num_objects_ : nat; links : list (option nat); free_head_ : option nat }.

(** The loop of the constructors: node [i] is pushed on the free list. *)
Fixpoint pool_loop (i n : nat) (p : ObjectPool) : ObjectPool :=
  match n with
  | O => p
  | S n => pool_loop (S i) n (mkPool (num_objects_ p) (<[i := free_head_ p]> (links p)) (Some i))
  end.

(** The constructors; [None] is [std::bad_alloc]. *)
Definition ObjectPool_new (calloc_ok : bool) (num_objects : nat) : option ObjectPool :=
  if calloc_ok
  then Some (pool_loop 0 num_objects (mkPool num_objects (replicate num_objects None) None))
  else None.

Definition GetObject (p : ObjectPool) : option nat * ObjectPool :=
  match free_head_ p with
  | None => (None, p)
  | Some h => (Some h, mkPool (num_objects_ p) (links p) (mjoin (links p !! h)))
  end.

Definition ReleaseObject (p : ObjectPool) (object : option nat) : ObjectPool :=
  match object with
  | None => p
  | Some h => mkPool (num_objects_ p) (<[h := free_head_ p]> (links p)) (Some h)
  end.

(** [l] are the nodes on the list that starts at [h]. *)
Inductive free_list (nx : list (option nat)) : option nat -> list nat -> Prop :=
| fl_nil : free_list nx None []
| fl_cons h t l : nx !! h = Some t -> free_list nx t l -> free_list nx (Some h) (h :: l).

Lemma free_list_insert nx h l i t :
  free_list nx h l -> i ∉ l -> free_list (<[i := t]> nx) h l.
Proof.
  induction 1 as [|h t' l Hh Hl IH]; intros Hi; [constructor|].
  apply not_elem_of_cons in Hi as [Hne Hi]. econstructor; [|by apply IH].
  by rewrite list_lookup_insert_ne.
Qed.

Lemma free_list_push nx h l i :
  free_list nx h l -> i ∉ l -> (i < length nx)%nat -> free_list (<[i := h]> nx) (Some i) (i :: l).
Proof.
  intros Hl Hi Hlt. econstructor; [by apply list_lookup_insert_eq|]. by apply free_list_insert.
Qed.

(** The pool with free objects [l]. *)
Record pool_ok (p : ObjectPool) (l : list nat) : Prop := {
  po_len : length (links p) = num_objects_ p;
  po_list : free_list (links p) (free_head_ p) l;
  po_nodup : NoDup l;
  po_range : Forall (fun i => (i < num_objects_ p)%nat) l
}.

Lemma pool_loop_ok n i p l :
  pool_ok p l -> (i + n <= num_objects_ p)%nat -> Forall (fun j => (j < i)%nat) l ->
  pool_ok (pool_loop i n p) (reverse (seq i n) ++ l) /\ num_objects_ (pool_loop i n p) = num_objects_ p.
Proof.
  revert i p l. induction n as [|n IH]; intros i p l [] Hn Hl; simpl; [done|].
  assert (i ∉ l) by (intros Hin; rewrite Forall_forall in Hl; apply Hl in Hin; lia).
  replace (reverse (i :: seq (S i) n) ++ l) with (reverse (seq (S i) n) ++ i :: l)
    by (rewrite reverse_cons, <- app_assoc; done).
  match goal with |- pool_ok (pool_loop _ _ ?q) _ /\ _ => destruct (IH (S i) q (i :: l)) end; [..|done].
  - split; simpl.
    + by rewrite length_insert.
    + apply free_list_push; [done|done|lia].
    + by apply NoDup_cons.
    + constructor; [lia|done].
  - simpl. lia.
  - constructor; [lia|]. eapply Forall_impl; [done|]. simpl. lia.
Qed.

(** A client of the pool: the pool and the objects it holds. *)
Inductive pool_event := PGet | PDrop (i : nat).

Definition pool_step (c : ObjectPool * list nat) (e : pool_event) : ObjectPool * list nat :=
  match e with
  | PGet => let r := GetObject c.1 in (r.2, option_list r.1 ++ c.2)
  | PDrop i => (ReleaseObject c.1 (c.2 !! i), if c.2 !! i is Some _ then delete i c.2 else c.2)
  end.

Definition client_ok (n : nat) (c : ObjectPool * list nat) : Prop :=
  num_objects_ c.1 = n /\ exists F, pool_ok c.1 F /\ F ++ c.2 ≡ₚ seq 0 n.

Lemma client_ok_nodup n (c : ObjectPool * list nat) F : F ++ c.2 ≡ₚ seq 0 n -> NoDup (F ++ c.2).
Proof. intros ->. apply NoDup_seq. Qed.

Lemma pool_step_ok n c e : client_ok n c -> client_ok n (pool_step c e).
Proof.
  destruct c as [[num nx fh] held]. intros (Hn & F & [Hlen Hl Hnd Hr] & HP); simpl in *. subst num.
  destruct e as [|i]; simpl.
  - unfold GetObject; simpl. destruct Hl as [|h t l Hh Hl].
    + split; [done|]. exists []. split; [by split; simpl; [|constructor..]|done].
    + apply NoDup_cons in Hnd as [Hni Hnd]. apply Forall_cons in Hr as [Hh' Hr].
      split; [done|]. exists l. simpl. split; [split; simpl; [done| |done|done]|].
      * by rewrite Hh.
      * rewrite <- HP. simpl. by rewrite Permutation_middle.
  - destruct (held !! i) as [h|] eqn:Hi; simpl.
    + assert (Hd : held ≡ₚ h :: delete i held) by by apply delete_Permutation.
      assert (Hnd' : NoDup (h :: F ++ delete i held)).
      { eapply NoDup_Permutation_proper; [|apply (NoDup_seq 0 n)].
        rewrite <- HP, Permutation_middle. by rewrite <- Hd. }
      assert (Hhn : (h < n)%nat).
      { assert (h ∈ seq 0 n) as Hin by (rewrite <- HP; apply elem_of_app; right; by apply list_elem_of_lookup_2 with i).
        apply elem_of_seq in Hin. lia. }
      apply NoDup_cons in Hnd' as [Hni _].
      split; [done|]. exists (h :: F). split; [split; simpl|].
      * by rewrite length_insert.
      * apply free_list_push; [done|set_solver|lia].
      * apply NoDup_cons; split; [set_solver|done].
      * by constructor.
      * simpl. rewrite <- HP, Permutation_middle. by rewrite <- Hd.
    + split; [done|]. exists F. split; [by split|done].
Qed.

(** An ObjectPool of [n] objects, whatever sequence of gets and releases its client
    makes, hands out only objects of its arena and none of them twice, and GetObject returns
    null exactly when all [n] objects are out. *)
Theorem object_pool_exclusive (n : nat) (evs : list pool_event) :
  exists p, ObjectPool_new true n = Some p /\
  let c := foldl pool_step (p, []) evs in
  NoDup c.2 /\ Forall (fun i => (i < n)%nat) c.2 /\
  ((GetObject c.1).1 = None <-> length c.2 = n).
Proof.
  eexists; split; [done|]. cbv zeta.
  set (p0 := mkPool n (replicate n None) None).
  destruct (pool_loop_ok n 0 p0 []) as [Hok Hnum];
    [split; simpl; [apply length_replicate|constructor..]|simpl; lia|constructor|].
  assert (H0 : client_ok n (pool_loop 0 n p0, [])).
  { split; [done|]. exists (reverse (seq 0 n)). rewrite app_nil_r in Hok. split; [done|].
    simpl. rewrite app_nil_r. apply reverse_Permutation. }
  revert H0. generalize (pool_loop 0 n p0, @nil nat). clear.
  induction evs as [|e evs IH]; intros c Hc; [|apply IH; by apply pool_step_ok].
  destruct Hc as (Hn & F & [Hlen Hl Hnd Hr] & HP). simpl.
  pose proof (client_ok_nodup n c F HP) as Hnd2. apply NoDup_app in Hnd2 as (_ & _ & ?).
  assert (Hlen2 : (length F + length c.2 = n)%nat) by (rewrite <- length_app, HP; apply length_seq).
  split; [done|]. split.
  - apply Forall_forall. intros i Hi.
    assert (i ∈ seq 0 n) as Hin by (rewrite <- HP; set_solver). apply elem_of_seq in Hin. lia.
  - unfold GetObject. destruct Hl; simpl in *; [split; lia || done|]. split; [done|lia].
Qed.

(** ** CCObjectPool *)
Record Head := mkHead { count : Z; node : option nat }.
#[export] Instance Head_eq_dec : EqDecision Head.
Proof. solve_decision. Defined.

Record CCObjectPool := mkCC { node_arena_ : list (option nat); cc_head : Head; capacity_ : nat }.

(** The constructor links every node to the following one ([size >= 1]). *)
Definition CCObjectPool_new (size : nat) : CCObjectPool :=
  mkCC ((Some <$> seq 1 (size - 1)) ++ [None]) (mkHead 0 (Some 0%nat)) size.

(** Where a thread is, and the objects it owns. *)
Inductive ccpc :=
| CIdle
| FRead (old_head : Head)
| FCas (old_head : Head) (next : option nat)
| RWrite (n : nat) (old_head : Head)
| RCas (n : nat) (old_head : Head).

Record ccthread := mkCT { objs : list nat; cpc : ccpc; last_get : option nat }.

(** [FindFreeHead] after its first load; a failing swap reloads the head. *)
Definition FindFreeHead_step (p : CCObjectPool) (spurious : bool) (l : ccthread) : CCObjectPool * ccthread :=
  match cpc l with
  | FRead old =>
      match node old with
      | None => (p, mkCT (objs l) CIdle None)
      | Some h => (p, mkCT (objs l) (FCas old (mjoin (node_arena_ p !! h))) (last_get l))
      end
  | FCas old nx =>
      if negb spurious && bool_decide (cc_head p = old)
      then (mkCC (node_arena_ p) (mkHead (count old +u 1) nx) (capacity_ p),
            mkCT (option_list (node old) ++ objs l) CIdle (node old))
      else (p, mkCT (objs l) (FRead (cc_head p)) (last_get l))
  | _ => (p, l)
  end.

(** [ReleaseObject] after its first load. *)
Definition ReleaseObject_step (p : CCObjectPool) (spurious : bool) (l : ccthread) : CCObjectPool * ccthread :=
  match cpc l with
  | RWrite n old =>
      (mkCC (<[n := node old]> (node_arena_ p)) (cc_head p) (capacity_ p), mkCT (objs l) (RCas n old) (last_get l))
  | RCas n old =>
      if negb spurious && bool_decide (cc_head p = old)
      then (mkCC (node_arena_ p) (mkHead (count old +u 1) (Some n)) (capacity_ p), mkCT (objs l) CIdle (last_get l))
      else (p, mkCT (objs l) (RWrite n (cc_head p)) (last_get l))
  | _ => (p, l)
  end.

(** [GetObject] and [ConstructObject] call [FindFreeHead]; dropping the [i]-th owned
    object calls [ReleaseObject]. *)
Inductive ccevent := CGet | CDrop (i : nat) | CStep (spurious : bool).

Definition cc_thread (p : CCObjectPool) (l : ccthread) (e : ccevent) : CCObjectPool * ccthread :=
  match cpc l, e with
  | CIdle, CGet => (p, mkCT (objs l) (FRead (cc_head p)) None)
  | CIdle, CDrop i =>
      match objs l !! i with
      | Some n => (p, mkCT (delete i (objs l)) (RWrite n (cc_head p)) (last_get l))
      | None => (p, l)
      end
  | (FRead _ | FCas _ _), CStep b => FindFreeHead_step p b l
  | (RWrite _ _ | RCas _ _), CStep b => ReleaseObject_step p b l
  | _, _ => (p, l)
  end.

Definition cc_init (size : nat) : conf :=
  Conf (CCObjectPool_new size) (fun _ : nat => mkCT [] CIdle None).

(** The nodes a thread owns, those it is releasing included. *)
Definition owned (l : ccthread) : list nat :=
  match cpc l with RWrite n _ | RCas n _ => n :: objs l | _ => objs l end.

(** ** How the nodes are divided between the free list and the threads *)
Record part (size : nat) (F : list nat) (O : nat -> list nat) : Prop := {
  pt_free : NoDup F;
  pt_nodup : forall u, NoDup (O u);
  pt_excl : forall u v n, n ∈ O u -> n ∈ O v -> u = v;
  pt_owned : forall u n, n ∈ O u -> n ∉ F;
  pt_range : forall n, (n < size)%nat <-> n ∈ F \/ exists u, n ∈ O u
}.

Lemma part_move size F F' O O' t :
  (forall u, u <> t -> O' u = O u) -> F' ++ O' t ≡ₚ F ++ O t ->
  part size F O -> part size F' O'.
Proof.
  intros Ho HP [Hf Hn He Hd Hr].
  assert (Hin : forall n, n ∈ F' \/ n ∈ O' t <-> n ∈ F \/ n ∈ O t)
    by (intros n; by rewrite <- !elem_of_app, HP).
  assert (Hnd : NoDup (F' ++ O' t)).
  { rewrite HP. apply NoDup_app; split; [done|]. split; [|done]. intros n ? ?. by eapply Hd. }
  apply NoDup_app in Hnd as (Hf' & Hdis & Hn').
  assert (Hold : forall u n, u <> t -> n ∈ O u -> n ∉ F' /\ n ∉ O' t).
  { intros u n Hu Hnu. assert (~ (n ∈ F \/ n ∈ O t)) as Hno; [|rewrite <- Hin in Hno; tauto].
    intros [?|?]; [by eapply Hd|]. by apply Hu, (He u t n). }
  split; [done| | | |].
  - intros u. destruct (decide (u = t)) as [->|]; [done|]. by rewrite Ho.
  - intros u v n Hu Hv. destruct (decide (u = t)) as [->|Hut]; destruct (decide (v = t)) as [->|Hvt].
    + done.
    + rewrite Ho in Hv by done. by destruct (Hold v n Hvt Hv).
    + rewrite Ho in Hu by done. by destruct (Hold u n Hut Hu).
    + rewrite Ho in Hu, Hv by done. by apply (He u v n).
  - intros u n Hu. destruct (decide (u = t)) as [->|Hut]; [intros ?; by eapply Hdis|].
    rewrite Ho in Hu by done. by apply (Hold u n).
  - intros n. rewrite Hr. split.
    + intros [?|[u Hu]]; [destruct (proj2 (Hin n)); eauto|].
      destruct (decide (u = t)) as [->|Hut]; [destruct (proj2 (Hin n)); eauto|].
      right; exists u. by rewrite Ho.
    + intros [?|[u Hu]]; [destruct (proj1 (Hin n)); eauto|].
      destruct (decide (u = t)) as [->|Hut]; [destruct (proj1 (Hin n)); eauto|].
      right; exists u. by rewrite <- Ho.
Qed.

(** A head read earlier: the count tells whether it is still the current one. *)
Definition stale (old cur : Head) : Prop :=
  0 <= count old <= count cur /\ (count old = count cur -> old = cur).

Definition cc_pc (p : CCObjectPool) (_ : nat) (l : ccthread) : Prop :=
  match cpc l with
  | CIdle => True
  | FRead old | RWrite _ old => stale old (cc_head p)
  | FCas old nx => stale old (cc_head p) /\
      exists h, node old = Some h /\ (old = cc_head p -> nx = mjoin (node_arena_ p !! h))
  | RCas n old => stale old (cc_head p) /\ node_arena_ p !! n = Some (node old)
  end.

Record cc_inv (size k : nat) (c : conf) : Prop := {
  ci_len : length (node_arena_ (shared c)) = size;
  ci_count : 0 <= count (cc_head (shared c)) <= Z.of_nat k;
  ci_pc : forall u, cc_pc (shared c) u (pcs c u);
  ci_part : exists F, free_list (node_arena_ (shared c)) (node (cc_head (shared c))) F /\
                      part size F (fun u => owned (pcs c u))
}.

Lemma stale_refl h : 0 <= count h -> stale h h.
Proof. by split; [lia|]. Qed.

Lemma stale_bump old cur nx :
  stale old cur -> stale old (mkHead (count cur + 1) nx) /\ old <> mkHead (count cur + 1) nx.
Proof.
  intros [? ?]. split; [split; simpl; [lia|intros; lia]|]. intros ->. simpl in *. lia.
Qed.

(** The assertions of the other threads survive a swap of the head ... *)
Lemma cc_pc_swap a h nx cap u l :
  cc_pc (mkCC a h cap) u l -> cc_pc (mkCC a (mkHead (count h + 1) nx) cap) u l.
Proof.
  unfold cc_pc. destruct (cpc l); simpl; try done.
  - intros Hs. by apply stale_bump.
  - intros [Hs (n & Hn & _)]. destruct (stale_bump _ _ nx Hs). split; [done|]. exists n. done.
  - intros Hs. by apply stale_bump.
  - intros [Hs ?]. split; [by apply stale_bump|done].
Qed.

(** ... and a write to a node that is neither the first free one nor theirs. *)
Lemma cc_pc_write a h cap n v u l :
  node h <> Some n -> n ∉ owned l ->
  cc_pc (mkCC a h cap) u l -> cc_pc (mkCC (<[n := v]> a) h cap) u l.
Proof.
  unfold cc_pc, owned. intros Hh Hn. destruct (cpc l); simpl; try done.
  - intros [Hs (m & Hm & Hx)]. split; [done|]. exists m. split; [done|]. intros ->.
    rewrite list_lookup_insert_ne by congruence. by apply Hx.
  - intros [Hs ?]. split; [done|]. rewrite list_lookup_insert_ne; [done|set_solver].
Qed.

(** A step that leaves the pool as it is and keeps what the thread owns. *)
Lemma cc_inv_local size k c t l :
  cc_inv size k c -> owned l ≡ₚ owned (pcs c t) -> cc_pc (shared c) t l ->
  cc_inv size (k + 1) (Conf (shared c) (<[t := l]> (pcs c))).
Proof.
  intros [Hl Hc Hp (F & HF & HP)] Ho Hpc. split; simpl; [done|lia| |].
  - intros u. by thread_cases u t.
  - exists F. split; [done|]. eapply (part_move size F F _ _ t); [| |exact HP]; simpl.
    + intros u Hu. by rewrite fn_lookup_insert_ne.
    + by rewrite fn_lookup_insert, Ho.
Qed.

(** A successful swap by thread [t]. *)
Lemma cc_inv_swap size k c t l nx F F' :
  cc_inv size k c ->
  free_list (node_arena_ (shared c)) (node (cc_head (shared c))) F ->
  part size F (fun u => owned (pcs c u)) ->
  free_list (node_arena_ (shared c)) nx F' -> F' ++ owned l ≡ₚ F ++ owned (pcs c t) ->
  cpc l = CIdle ->
  cc_inv size (k + 1) (Conf (mkCC (node_arena_ (shared c)) (mkHead (count (cc_head (shared c)) + 1) nx)
                                  (capacity_ (shared c))) (<[t := l]> (pcs c))).
Proof.
  intros [Hl Hc Hp _] HF HP HF' Ho Hi. split; simpl; [done|lia| |].
  - intros u. thread_cases u t; [by unfold cc_pc; rewrite Hi|].
    apply cc_pc_swap. specialize (Hp u). by destruct (shared c).
  - exists F'. split; [done|]. eapply (part_move size F F' _ _ t); [| |exact HP]; simpl.
    + intros u Hu. by rewrite fn_lookup_insert_ne.
    + by rewrite fn_lookup_insert.
Qed.

(** A write to a node the thread owns. *)
Lemma cc_inv_write size k c t n old ob g :
  cc_inv size k c -> pcs c t = mkCT ob (RWrite n old) g ->
  cc_inv size (k + 1) (Conf (mkCC (<[n := node old]> (node_arena_ (shared c))) (cc_head (shared c))
                                  (capacity_ (shared c))) (<[t := mkCT ob (RCas n old) g]> (pcs c))).
Proof.
  intros [Hl Hc Hp (F & HF & HP)] Ht.
  assert (Hn : n ∈ owned (pcs c t)) by (rewrite Ht; unfold owned; simpl; set_solver).
  assert (HnF : n ∉ F) by by apply (pt_owned _ _ _ HP t).
  assert (Hlt : (n < length (node_arena_ (shared c)))%nat)
    by (rewrite Hl; apply (pt_range _ _ _ HP); eauto).
  split; simpl; [by rewrite length_insert|lia| |].
  - intros u. specialize (Hp u). thread_cases u t.
    + rewrite Ht in Hp. unfold cc_pc in *; simpl in *. split; [done|]. by apply list_lookup_insert_eq.
    + apply cc_pc_write.
      * intros Hh. rewrite Hh in HF. inversion HF; subst. set_solver.
      * intros Hu. by pose proof (pt_excl _ _ _ HP u t n Hu Hn).
      * by destruct (shared c).
  - exists F. split; [by apply free_list_insert|].
    eapply (part_move size F F _ _ t); [| |exact HP]; simpl.
    + intros u Hu. by rewrite fn_lookup_insert_ne.
    + by rewrite fn_lookup_insert, Ht.
Qed.

Lemma cc_step_inv size k c ev :
  Z.of_nat k + 1 < two64 -> cc_inv size k c -> cc_inv size (k + 1) (exec1 cc_thread c ev).
Proof.
  intros Hk Hinv. destruct ev as [t e]. unfold exec1; simpl.
  pose proof (ci_pc _ _ _ Hinv t) as Hpc. pose proof (ci_count _ _ _ Hinv) as Hcnt.
  assert (Hfresh : stale (cc_head (shared c)) (cc_head (shared c))) by (apply stale_refl; lia).
  destruct (pcs c t) as [ob pc g] eqn:Ht.
  assert (Hkeep : cc_inv size (k + 1) (Conf (shared c) (<[t := mkCT ob pc g]> (pcs c))))
    by (apply cc_inv_local; [done|by rewrite Ht|done]).
  assert (Hlocal : forall ob' pc' g', owned (mkCT ob' pc' g') ≡ₚ owned (mkCT ob pc g) ->
            cc_pc (shared c) t (mkCT ob' pc' g') ->
            cc_inv size (k + 1) (Conf (shared c) (<[t := mkCT ob' pc' g']> (pcs c))))
    by (intros; apply cc_inv_local; [done|by rewrite Ht|done]).
  unfold cc_thread, FindFreeHead_step, ReleaseObject_step.
  destruct pc as [|old|old nx|n old|n old]; destruct e as [|i|sp]; try exact Hkeep; simpl in *.
  - apply Hlocal; [done|]. exact Hfresh.
  - destruct (ob !! i) as [n|] eqn:Hi; [|exact Hkeep]. apply Hlocal; [|exact Hfresh].
    unfold owned; simpl. symmetry. by apply delete_Permutation.
  - unfold cc_pc in Hpc; simpl in Hpc. destruct (node old) as [h|] eqn:Ho; apply Hlocal; try done.
    unfold cc_pc; simpl. split; [done|]. by exists h.
  - destruct Hpc as [Hs (h & Hh & Hx)]. simpl in *. destruct sp; simpl; [apply Hlocal; [done|exact Hfresh]|].
    case_bool_decide as Heq; [|apply Hlocal; [done|exact Hfresh]].
    rewrite <- Heq. rewrite u64_small by lia.
    destruct (ci_part _ _ _ Hinv) as (F & HF & HP). rewrite Heq, Hh in HF.
    inversion HF as [|h' t' F' Hlk HF']; subst. rewrite Hx, Hlk in * by done. simpl.
    eapply (cc_inv_swap size k c t _ t' (h :: F') F'); try done.
    + by rewrite Hh.
    + rewrite Ht. unfold owned; simpl. rewrite Hh. simpl. by rewrite Permutation_middle.
  - by apply (cc_inv_write size k c t n old ob g).
  - destruct Hpc as [Hs Hn]. simpl in *. destruct sp; simpl; [apply Hlocal; [done|exact Hfresh]|].
    case_bool_decide as Heq; [|apply Hlocal; [done|exact Hfresh]].
    rewrite <- Heq. rewrite u64_small by lia.
    destruct (ci_part _ _ _ Hinv) as (F & HF & HP).
    eapply (cc_inv_swap size k c t _ (Some n) F (n :: F)); try done.
    + econstructor; [done|]. by rewrite <- Heq.
    + rewrite Ht. unfold owned; simpl. by rewrite Permutation_middle.
Qed.

Lemma new_free_list size m n :
  (m + S n = size)%nat ->
  free_list ((Some <$> seq 1 (size - 1)) ++ [None]) (Some m) (seq m (S n)).
Proof.
  revert m. induction n as [|n IH]; intros m Hm; simpl; econstructor.
  - rewrite lookup_app_r; rewrite length_fmap, length_seq; [|lia].
    by replace (m - (size - 1))%nat with 0%nat by lia.
  - constructor.
  - rewrite lookup_app_l by (rewrite length_fmap, length_seq; lia).
    rewrite list_lookup_fmap, lookup_seq_lt by lia. done.
  - apply (IH (S m)). lia.
Qed.

Lemma cc_init_inv size : (0 < size)%nat -> cc_inv size 0 (cc_init size).
Proof.
  intros Hs. split; simpl.
  - rewrite length_app, length_fmap, length_seq. simpl. lia.
  - lia.
  - done.
  - exists (seq 0 size). split.
    + destruct size as [|n]; [lia|]. by apply (new_free_list (S n) 0 n).
    + split; simpl; [apply NoDup_seq|constructor|set_solver|set_solver|].
      intros n. rewrite elem_of_seq. split; [lia|]. intros [?|[u Hu]]; [lia|set_solver].
Qed.

(** C36: under every interleaving of GetObject/ConstructObject and ReleaseObject by any
    number of threads (compare-and-swaps that fail spuriously included, fewer than 2^64
    steps, the range of the tag), every node of a CCObjectPool is either on the free list or
    owned by exactly one thread, once: no object is handed out twice and none is lost, the
    tag excluding the ABA problem. *)
Theorem cc_pool_exclusive (size : nat) (sched : list (nat * ccevent)) :
  (0 < size)%nat -> Z.of_nat (length sched) < two64 ->
  let c := exec cc_thread (cc_init size) sched in
  exists F, free_list (node_arena_ (shared c)) (node (cc_head (shared c))) F /\
            part size F (fun u => owned (pcs c u)).
Proof.
  intros Hs Hl. apply (ci_part size (length sched)).
  apply (exec_invariant cc_thread (cc_inv size) (length sched)); [|by apply cc_init_inv|done].
  intros n c ev Hn. apply cc_step_inv. lia.
Qed.

(** Two threads get concurrently, the loser of the race retries, one releases. *)
Definition cc_race : list (nat * ccevent) :=
  [(0, CGet); (1, CGet); (0, CStep false); (1, CStep false); (0, CStep false);
   (1, CStep false); (1, CStep false); (1, CStep false); (0, CDrop 0); (0, CStep false)]%nat.

Lemma cc_pool_exclusive_witness :
  let c := exec cc_thread (cc_init 3) cc_race in
  (0 < 3)%nat /\ Z.of_nat (length cc_race) < two64 /\
  owned (pcs c 0%nat) = [0%nat] /\ owned (pcs c 1%nat) = [1%nat] /\
  exists F, free_list (node_arena_ (shared c)) (node (cc_head (shared c))) F /\
            part 3 F (fun u => owned (pcs c u)).
Proof.
  cbv zeta. split; [lia|]. split; [reflexivity|]. split; [reflexivity|]. split; [reflexivity|].
  apply (cc_pool_exclusive 3 cc_race); [lia|reflexivity].
Defined.
