(* ===== verification/Blocker.v ===== *)
(** * Blockers: blocker/blocker.h, blocker_manager.h and .cc, intra_reader.h, intra_writer.h

    A blocker keeps the newest messages of a channel inside a process, a snapshot of them taken by
    [Observe], and callbacks by id; the manager keeps one blocker per channel name.  A blocker is for
    one message type: [ty] stands for it, and the cast of [GetBlocker] fails on another.  Messages are
    shared pointers to immutable values; callbacks are numbers and do not call back into their
    blocker, whose mutex they would need.  The hash table of the callbacks is walked in any order. *)

From Stdlib Require Import ZArith Lia.
From stdpp Require Import base gmap strings list.
From S2P Require Import Prelude.

Section Blocker.
Context {M : Type} `{HashOrder}.

Record BlockerAttr := mkBAttr { capacity : Z; channel_name : string }.

(** [BlockerAttr(channel)]. *)
Definition BlockerAttr_of (channel : string) : BlockerAttr := mkBAttr 10 channel.

(** The queues have their newest message in front. *)
Record Blocker := mkBlocker {
  ty : nat;
  attr_ : BlockerAttr;
  observed_msg_queue_ : list M;
  published_msg_queue_ : list M;
  published_callbacks_ : gmap string nat
}.

Definition Blocker_new (ty : nat) (attr : BlockerAttr) : Blocker := mkBlocker ty attr [] [] ∅.
Definition with_queues (b : Blocker) o p : Blocker := mkBlocker (ty b) (attr_ b) o p (published_callbacks_ b).
Definition with_callbacks (b : Blocker) m : Blocker := mkBlocker (ty b) (attr_ b) (observed_msg_queue_ b) (published_msg_queue_ b) m.

(** [while (size() > capacity) pop_back()]; every turn shortens the list. *)
Fixpoint pop_excess (fuel : nat) (capacity : Z) (l : list M) : list M :=
  match fuel with
  | O => l
  | S fuel => if capacity <? Z.of_nat (length l) then pop_excess fuel capacity (removelast l) else l
  end.
Definition pop_all_excess (capacity : Z) (l : list M) : list M := pop_excess (length l) capacity l.

Definition Enqueue (b : Blocker) (msg : M) : Blocker :=
  if capacity (attr_ b) =? 0 then b
  else with_queues b (observed_msg_queue_ b) (pop_all_excess (capacity (attr_ b)) (msg :: published_msg_queue_ b)).

(** The callbacks called, in the order of the table. *)
Definition Notify (b : Blocker) (msg : M) : list (nat * M) := (fun e => (e.2, msg)) <$> rehash (map_to_list (published_callbacks_ b)).

Definition Publish (b : Blocker) (msg : M) : list (nat * M) * Blocker := (Notify (Enqueue b msg) msg, Enqueue b msg).

Definition Reset (b : Blocker) : Blocker := mkBlocker (ty b) (attr_ b) [] [] ∅.
Definition ClearObserved (b : Blocker) : Blocker := with_queues b [] (published_msg_queue_ b).
Definition ClearPublished (b : Blocker) : Blocker := with_queues b (observed_msg_queue_ b) [].
Definition Observe (b : Blocker) : Blocker := with_queues b (published_msg_queue_ b) (published_msg_queue_ b).
Definition IsObservedEmpty (b : Blocker) : bool := bool_decide (observed_msg_queue_ b = []).
Definition IsPublishedEmpty (b : Blocker) : bool := bool_decide (published_msg_queue_ b = []).

Definition Subscribe (b : Blocker) (callback_id : string) (callback : nat) : bool * Blocker :=
  match published_callbacks_ b !! callback_id with
  | Some _ => (false, b)
  | None => (true, with_callbacks b (<[callback_id := callback]> (published_callbacks_ b)))
  end.

Definition Unsubscribe (b : Blocker) (callback_id : string) : bool * Blocker :=
  (bool_decide (is_Some (published_callbacks_ b !! callback_id)), with_callbacks b (delete callback_id (published_callbacks_ b))).

Definition GetLatestObservedPtr (b : Blocker) : option M := head (observed_msg_queue_ b).
Definition GetOldestObservedPtr (b : Blocker) : option M := last (observed_msg_queue_ b).
Definition GetLatestPublishedPtr (b : Blocker) : option M := head (published_msg_queue_ b).
(** [dummy] is [dummy_msg_]. *)
Definition GetLatestObserved (dummy : M) (b : Blocker) : M := default dummy (head (observed_msg_queue_ b)).

Definition set_capacity (b : Blocker) (c : Z) : Blocker :=
  mkBlocker (ty b) (mkBAttr c (channel_name (attr_ b))) (observed_msg_queue_ b) (pop_all_excess c (published_msg_queue_ b)) (published_callbacks_ b).

(** ** The manager: [blockers_] by channel name *)
Abbreviation BlockerManager := (gmap string Blocker) (only parsing).

(** [GetBlocker<T>]; [None] is the null pointer. *)
Definition GetBlocker (m : BlockerManager) (t : nat) (channel : string) : option Blocker :=
  b ← m !! channel; if decide (ty b = t) then Some b else None.

Definition GetOrCreateBlocker (m : BlockerManager) (t : nat) (attr : BlockerAttr) : option Blocker * BlockerManager :=
  match m !! channel_name attr with
  | Some b => (if decide (ty b = t) then Some b else None, m)
  | None => (Some (Blocker_new t attr), <[channel_name attr := Blocker_new t attr]> m)
  end.

(** What a pointer to the blocker of [channel] does to the map. *)
Definition put (m : BlockerManager) (channel : string) (b : Blocker) : BlockerManager := <[channel := b]> m.

Definition Manager_Publish (m : BlockerManager) (t : nat) (channel : string) (msg : M) : bool * list (nat * M) * BlockerManager :=
  match GetOrCreateBlocker m t (BlockerAttr_of channel) with
  | (None, m) => (false, [], m)
  | (Some b, m) => (true, (Publish b msg).1, put m channel (Publish b msg).2)
  end.

Definition Manager_Subscribe (m : BlockerManager) (t : nat) (channel : string) (cap : Z) (callback_id : string) (callback : nat) : bool * BlockerManager :=
  match GetOrCreateBlocker m t (mkBAttr cap channel) with
  | (None, m) => (false, m)
  | (Some b, m) => ((Subscribe b callback_id callback).1, put m channel (Subscribe b callback_id callback).2)
  end.

Definition Manager_Unsubscribe (m : BlockerManager) (t : nat) (channel : string) (callback_id : string) : bool * BlockerManager :=
  match GetBlocker m t channel with
  | None => (false, m)
  | Some b => ((Unsubscribe b callback_id).1, put m channel (Unsubscribe b callback_id).2)
  end.

Definition Manager_Observe (m : BlockerManager) : BlockerManager := Observe <$> m.
Definition Manager_Reset (m : BlockerManager) : BlockerManager := ∅.

(** ** Readers and writers of the process *)
Record IntraReader := mkReader { init_ : bool; rd_ty : nat; rd_channel : string; rd_node : string; rd_depth : Z; OnMessage : nat }.

Definition Reader_Init (r : IntraReader) (m : BlockerManager) : bool * IntraReader * BlockerManager :=
  if init_ r then (true, r, m)
  else
    let '(ok, m) := Manager_Subscribe m (rd_ty r) (rd_channel r) (rd_depth r) (rd_node r) (OnMessage r) in
    (ok, mkReader true (rd_ty r) (rd_channel r) (rd_node r) (rd_depth r) (OnMessage r), m).

Definition Reader_Shutdown (r : IntraReader) (m : BlockerManager) : IntraReader * BlockerManager :=
  if negb (init_ r) then (r, m)
  else (mkReader false (rd_ty r) (rd_channel r) (rd_node r) (rd_depth r) (OnMessage r),
        (Manager_Unsubscribe m (rd_ty r) (rd_channel r) (rd_node r)).2).

(** An operation of a reader on the blocker of its channel, if there is one. *)
Definition on_blocker (r : IntraReader) (m : BlockerManager) (f : Blocker -> Blocker) : BlockerManager :=
  match GetBlocker m (rd_ty r) (rd_channel r) with Some b => put m (rd_channel r) (f b) | None => m end.
Definition from_blocker {A} (r : IntraReader) (m : BlockerManager) (f : Blocker -> A) (dflt : A) : A :=
  match GetBlocker m (rd_ty r) (rd_channel r) with Some b => f b | None => dflt end.

Definition Reader_ClearData (r : IntraReader) (m : BlockerManager) : BlockerManager := on_blocker r m (fun b => ClearPublished (ClearObserved b)).
Definition Reader_Observe (r : IntraReader) (m : BlockerManager) : BlockerManager := on_blocker r m Observe.
Definition Reader_Empty (r : IntraReader) (m : BlockerManager) : bool := from_blocker r m IsObservedEmpty true.
Definition Reader_HasReceived (r : IntraReader) (m : BlockerManager) : bool := from_blocker r m (fun b => negb (IsPublishedEmpty b)) false.
Definition Reader_Enqueue (r : IntraReader) (m : BlockerManager) (msg : M) : list (nat * M) * BlockerManager :=
  let '(_, calls, m) := Manager_Publish m (rd_ty r) (rd_channel r) msg in (calls, m).
Definition SetHistoryDepth (r : IntraReader) (m : BlockerManager) (depth : Z) : BlockerManager := on_blocker r m (fun b => set_capacity b depth).
Definition GetHistoryDepth (r : IntraReader) (m : BlockerManager) : Z := from_blocker r m (fun b => u32 (capacity (attr_ b))) 0.
Definition Reader_GetLatestObserved (r : IntraReader) (m : BlockerManager) : option M := from_blocker r m GetLatestObservedPtr None.
Definition Reader_GetOldestObserved (r : IntraReader) (m : BlockerManager) : option M := from_blocker r m GetOldestObservedPtr None.

(** [blocker_manager_] of a writer is set exactly while [w_init_] is. *)
Record IntraWriter := mkWriter { w_init_ : bool; w_ty : nat; w_channel : string }.

Definition Writer_Init (w : IntraWriter) (m : BlockerManager) : IntraWriter * BlockerManager :=
  if w_init_ w then (w, m) else (mkWriter true (w_ty w) (w_channel w), (GetOrCreateBlocker m (w_ty w) (BlockerAttr_of (w_channel w))).2).
Definition Writer_Shutdown (w : IntraWriter) : IntraWriter := if w_init_ w then mkWriter false (w_ty w) (w_channel w) else w.
Definition Writer_Write (w : IntraWriter) (m : BlockerManager) (msg : M) : bool * list (nat * M) * BlockerManager :=
  if negb (w_init_ w) then (false, [], m) else Manager_Publish m (w_ty w) (w_channel w) msg.

(** ** Specification

    A channel as its users see it: the messages published since the queue was last cleared, newest
    first, how many of them are kept, the snapshot, and the subscriptions. *)
Record topic := mkTopic { kind : nat; limit : Z; hist : list M; keep : nat; seen : list M; subs : gmap string nat }.

Definition topic_new (t : nat) (c : Z) : topic := mkTopic t c [] 0 [] ∅.

Inductive blocker_op :=
| BPublish (t : nat) (ch : string) (msg : M)
| BSubscribe (t : nat) (ch : string) (cap : Z) (id : string) (cb : nat)
| BUnsubscribe (t : nat) (ch : string) (id : string)
| BObserve
| BReset
| BClear (r : IntraReader)
| BObserveOne (r : IntraReader)
| BDepth (r : IntraReader) (depth : Z).

(** An operation of the code: the result, the calls, the manager. *)
Definition blocker_step (m : BlockerManager) (o : blocker_op) : bool * list (nat * M) * BlockerManager :=
  match o with
  | BPublish t ch msg => Manager_Publish m t ch msg
  | BSubscribe t ch cap id cb => let '(ok, m) := Manager_Subscribe m t ch cap id cb in (ok, [], m)
  | BUnsubscribe t ch id => let '(ok, m) := Manager_Unsubscribe m t ch id in (ok, [], m)
  | BObserve => (true, [], Manager_Observe m)
  | BReset => (true, [], Manager_Reset m)
  | BClear r => (true, [], Reader_ClearData r m)
  | BObserveOne r => (true, [], Reader_Observe r m)
  | BDepth r d => (true, [], SetHistoryDepth r m d)
  end.

Definition topic_publish (x : topic) (msg : M) : topic :=
  if limit x =? 0 then x
  else mkTopic (kind x) (limit x) (msg :: hist x) (Nat.min (Z.to_nat (limit x)) (S (keep x))) (seen x) (subs x).

Definition on_topic (s : gmap string topic) (t : nat) (ch : string) (f : topic -> topic) : gmap string topic :=
  match s !! ch with Some x => if decide (kind x = t) then <[ch := f x]> s else s | None => s end.

Definition topic_observe (x : topic) : topic := mkTopic (kind x) (limit x) (hist x) (keep x) (take (keep x) (hist x)) (subs x).

(** What the users see: the result, the subscribers called, the channels. *)
Definition topic_step (s : gmap string topic) (o : blocker_op) : bool * list nat * gmap string topic :=
  match o with
  | BPublish t ch msg =>
      let x := default (topic_new t 10) (s !! ch) in
      if decide (kind x = t) then (true, (map_to_list (subs x)).*2, <[ch := topic_publish x msg]> s) else (false, [], s)
  | BSubscribe t ch cap id cb =>
      let x := default (topic_new t cap) (s !! ch) in
      if decide (kind x = t) then
        if decide (is_Some (subs x !! id)) then (false, [], <[ch := x]> s)
        else (true, [], <[ch := mkTopic (kind x) (limit x) (hist x) (keep x) (seen x) (<[id := cb]> (subs x))]> s)
      else (false, [], s)
  | BUnsubscribe t ch id =>
      (if s !! ch is Some x then bool_decide (kind x = t /\ is_Some (subs x !! id)) else false, [],
       on_topic s t ch (fun x => mkTopic (kind x) (limit x) (hist x) (keep x) (seen x) (delete id (subs x))))
  | BObserve => (true, [], topic_observe <$> s)
  | BReset => (true, [], ∅)
  | BClear r => (true, [], on_topic s (rd_ty r) (rd_channel r) (fun x => mkTopic (kind x) (limit x) [] 0 [] (subs x)))
  | BObserveOne r => (true, [], on_topic s (rd_ty r) (rd_channel r) topic_observe)
  | BDepth r d => (true, [], on_topic s (rd_ty r) (rd_channel r) (fun x => mkTopic (kind x) d (hist x) (Nat.min (Z.to_nat d) (keep x)) (seen x) (subs x)))
  end.

(** A blocker shows a topic. *)
Record shows (b : Blocker) (x : topic) : Prop := {
  sh_kind : ty b = kind x;
  sh_limit : capacity (attr_ b) = limit x;
  sh_published : published_msg_queue_ b = take (keep x) (hist x);
  sh_keep : (keep x <= length (hist x))%nat /\ Z.of_nat (keep x) <= limit x;
  sh_observed : observed_msg_queue_ b = seen x;
  sh_subs : published_callbacks_ b = subs x
}.
End Blocker.

Arguments pop_all_excess : simpl never.

Section Proofs.
Context {M : Type} `{HashOrder}.
Implicit Types (b : @Blocker M) (x : @topic M) (m : gmap string (@Blocker M)) (s : gmap string (@topic M)).

Lemma pop_excess_take fuel c (l : list M) : (length l <= fuel)%nat -> 0 <= c -> pop_excess fuel c l = take (Z.to_nat c) l.
Proof.
  revert l. induction fuel as [|fuel IH]; intros l Hl Hc; [by destruct l; [rewrite take_nil|cbn in Hl; lia]|]. cbn.
  destruct (Z.ltb_spec c (Z.of_nat (length l))); [|by rewrite firstn_all2 by lia].
  destruct l as [|y l _] using rev_ind; [cbn in *; lia|]. rewrite length_app in *. cbn in *.
  rewrite removelast_last, IH by lia. by rewrite take_app_le by lia.
Qed.

Lemma pop_all_excess_take c (l : list M) : 0 <= c -> pop_all_excess c l = take (Z.to_nat c) l.
Proof. intros. by apply pop_excess_take. Qed.

Lemma shows_publish b x msg : shows b x -> shows (Publish b msg).2 (topic_publish x msg).
Proof.
  intros []. unfold Publish, Enqueue, topic_publish. cbn [snd]. rewrite sh_limit0. destruct (Z.eqb_spec (limit x) 0); [by split|].
  split; cbn; try done; [|lia]. rewrite pop_all_excess_take by lia. rewrite sh_published0.
  destruct (Z.to_nat (limit x)) as [|k] eqn:E; [lia|]. cbn. by rewrite take_take.
Qed.

Lemma shows_set_capacity b x d : shows b x -> 0 <= d ->
  shows (set_capacity b d) (mkTopic (kind x) d (hist x) (Nat.min (Z.to_nat d) (keep x)) (seen x) (subs x)).
Proof.
  intros [] Hd. split; cbn; try done; [|lia]. by rewrite pop_all_excess_take, sh_published0, take_take by done.
Qed.

Lemma shows_observe b x : shows b x -> shows (Observe b) (topic_observe x).
Proof. intros []. by split. Qed.

Lemma shows_new t attr : 0 <= capacity attr -> shows (M := M) (Blocker_new t attr) (topic_new t (capacity attr)).
Proof. intros. split; cbn; done. Qed.

Definition manager_rel m s : Prop := forall ch, option_Forall2 shows (m !! ch) (s !! ch).

Lemma rel_insert m s ch b x : manager_rel m s -> shows b x -> manager_rel (<[ch := b]> m) (<[ch := x]> s).
Proof.
  intros Hr Hs ch'. destruct (decide (ch' = ch)) as [->|]; [rewrite !lookup_insert_eq; by constructor|by rewrite !lookup_insert_ne].
Qed.

(** The blocker of a channel, made if it is not there. *)
Lemma rel_create m s t attr :
  manager_rel m s -> 0 <= capacity attr ->
  let x := default (topic_new t (capacity attr)) (s !! channel_name attr) in
  exists b m', shows b x /\ GetOrCreateBlocker m t attr = (if decide (kind x = t) then Some b else None, m') /\
    (kind x = t -> forall b' x', shows b' x' -> manager_rel (<[channel_name attr := b']> m') (<[channel_name attr := x']> s)) /\
    (kind x <> t -> manager_rel m' s).
Proof.
  intros Hr Hc x. unfold GetOrCreateBlocker. pose proof (Hr (channel_name attr)) as Hch. unfold x.
  destruct (m !! channel_name attr) as [b|]; destruct (s !! channel_name attr) as [y|]; inversion Hch; subst; cbn [default from_option id].
  - exists b, m. split; [done|]. split; [by rewrite (sh_kind _ _ H2)|]. split; [|done]. intros _ b' x' Hs. by apply rel_insert.
  - exists (Blocker_new t attr), (<[channel_name attr := Blocker_new t attr]> m). split; [by apply shows_new|]. cbn. rewrite decide_True by done.
    split; [done|]. split; [|done]. intros _ b' x' Hs. rewrite insert_insert_eq. by apply rel_insert.
Qed.

Lemma rel_existing m s r f g :
  manager_rel m s -> (forall b x, shows b x -> shows (f b) (g x)) ->
  manager_rel (on_blocker r m f) (on_topic s (rd_ty r) (rd_channel r) g).
Proof.
  intros Hr Hf. unfold on_blocker, on_topic, GetBlocker. pose proof (Hr (rd_channel r)) as Hc.
  destruct (m !! rd_channel r) as [b|]; destruct (s !! rd_channel r) as [x|]; inversion Hc; subst; cbn; [|done].
  rewrite (sh_kind _ _ H2). case_decide; [|done]. apply rel_insert; [done|by apply Hf].
Qed.

Definition op_sized (o : @blocker_op M) : Prop :=
  match o with BSubscribe _ _ c _ _ => 0 <= c | BDepth _ d => 0 <= d | _ => True end.

(** Every call of a step is of the published message. *)
Definition calls_of (o : @blocker_op M) (calls : list (nat * M)) : Prop :=
  match o with BPublish _ _ msg => Forall (fun e => e.2 = msg) calls | _ => calls = [] end.

Lemma blocker_step_rel m s o :
  manager_rel m s -> op_sized o ->
  let '(ok, calls, m') := blocker_step m o in let '(ok', subscribers, s') := topic_step s o in
  ok = ok' /\ calls.*1 ≡ₚ subscribers /\ calls_of o calls /\ manager_rel m' s'.
Proof.
  intros Hr Hs. destruct o as [t ch msg|t ch cap i cb|t ch i| | |r|r|r d]; cbn [blocker_step topic_step op_sized] in *.
  - destruct (rel_create m s t (BlockerAttr_of ch) Hr) as (b & m' & Hb & He & Hin & Hn); [done|]. unfold Manager_Publish. rewrite He. cbn [channel_name capacity BlockerAttr_of] in *.
    case_decide as Hd; [|split_and!; [done|done|by constructor|by apply Hn]].
    split; [done|]. unfold Publish, Notify. cbn [fst snd]. split; [|split].
    + rewrite <- list_fmap_compose. cbn. rewrite rehash_perm. rewrite <- (sh_subs _ _ Hb). unfold Enqueue. by destruct (_ =? 0).
    + apply Forall_fmap, Forall_forall. done.
    + apply Hin; [done|]. by apply shows_publish.
  - destruct (rel_create m s t (mkBAttr cap ch) Hr) as (b & m' & Hb & He & Hin & Hn); [done|]. unfold Manager_Subscribe. rewrite He. cbn [channel_name capacity] in *.
    case_decide as Hd; [|split_and!; try done; by apply Hn].
    unfold Subscribe. rewrite (sh_subs _ _ Hb). set (x := default _ _) in *. destruct (subs x !! i) eqn:Hi.
    + rewrite decide_True by done. split_and!; try done. by apply Hin.
    + rewrite decide_False by (by intros []). split_and!; try done. apply Hin; [done|]. destruct Hb. split; cbn; congruence.
  - unfold Manager_Unsubscribe, GetBlocker, on_topic. pose proof (Hr ch) as Hc. destruct (m !! ch) as [b|]; destruct (s !! ch) as [x|]; inversion Hc; subst; cbn [mbind option_bind]; [|done].
    rewrite (sh_kind _ _ H2). case_decide as Hd; [|by rewrite bool_decide_eq_false_2 by tauto].
    unfold Unsubscribe. cbn [fst snd]. rewrite (sh_subs _ _ H2). split; [apply bool_decide_ext; tauto|]. do 2 (split; [done|]). apply rel_insert; [done|].
    destruct H2. split; cbn; congruence.
  - split_and!; try done. intros ch. unfold Manager_Observe. rewrite !lookup_fmap. destruct (Hr ch); cbn; constructor. by apply shows_observe.
  - split_and!; try done. intros ch. unfold Manager_Reset. rewrite !lookup_empty. constructor.
  - split_and!; try done. apply rel_existing; [done|]. intros b x []. split; cbn; try done. lia.
  - split_and!; try done. apply rel_existing; [done|]. apply shows_observe.
  - split_and!; try done. apply rel_existing; [done|]. intros b x Hb. by apply shows_set_capacity.
Qed.

Fixpoint blocker_runs m (ops : list blocker_op) : list (bool * list (nat * M)) * gmap string (@Blocker M) :=
  match ops with [] => ([], m) | o :: ops => let '(ok, calls, m) := blocker_step m o in let r := blocker_runs m ops in ((ok, calls) :: r.1, r.2) end.
Fixpoint topic_runs s (ops : list blocker_op) : list (bool * list nat) * gmap string topic :=
  match ops with [] => ([], s) | o :: ops => let '(ok, called, s) := topic_step s o in let r := topic_runs s ops in ((ok, called) :: r.1, r.2) end.

(** Blockers refine their specification: over any sequence of publishing, subscribing,
    unsubscribing, observing, clearing, resizing and resetting on channels of several message types,
    every call succeeds as specified, every publication reaches each subscriber of its channel exactly
    once with the message published, and afterwards each blocker holds the newest messages since
    the last clearing, as many as its capacity has let it keep, and the last snapshot of them. *)
Theorem blockers_refine ops :
  Forall op_sized ops ->
  let r := blocker_runs ∅ ops in let r' := topic_runs ∅ ops in
  Forall2 (fun got want => got.1 = want.1 /\ got.2.*1 ≡ₚ want.2) r.1 r'.1 /\
  Forall2 (fun o got => calls_of o got.2) ops r.1 /\
  (forall ch, match r.2 !! ch, r'.2 !! ch with
   | Some b, Some x => published_msg_queue_ b = take (keep x) (hist x) /\ observed_msg_queue_ b = seen x /\ Z.of_nat (keep x) <= capacity (attr_ b)
   | None, None => True
   | _, _ => False
   end).
Proof.
  intros Hs. cbv zeta. assert (Hr : manager_rel ∅ ∅) by (intros ch; rewrite !lookup_empty; constructor).
  revert Hr Hs. generalize (∅ : gmap string (@Blocker M)) (∅ : gmap string (@topic M)).
  induction ops as [|o ops IH]; intros m s Hr Hs.
  { do 2 (split; [constructor|]). intros ch. cbn. destruct (Hr ch) as [b x Hb|]; [|done]. pose proof (sh_limit _ _ Hb). destruct Hb. split_and!; [done|done|lia]. }
  apply Forall_cons in Hs as [Ho Hs]. pose proof (blocker_step_rel m s o Hr Ho) as Hstep. cbn [blocker_runs topic_runs].
  destruct (blocker_step m o) as [[ok calls] m']. destruct (topic_step s o) as [[ok' called] s']. destruct Hstep as (H1 & H2 & H3 & H4).
  destruct (IH m' s' H4 Hs) as (I1 & I2 & I3). split; [by constructor|]. split; [by constructor|]. exact I3.
Qed.
End Proofs.

(** Two nodes on a channel of capacity 2, a reader of another type, a clearing and a resizing. *)
Definition demo_reader (node : string) (cb : nat) : IntraReader := mkReader false 0 "ch" node 2 cb.
Definition demo_blocker_ops : list (@blocker_op Z) :=
  [BSubscribe 0 "ch" 2 "n1" 1; BSubscribe 0 "ch" 2 "n2" 2; BSubscribe 0 "ch" 2 "n1" 3; BPublish 0 "ch" 10; BPublish 0 "ch" 11; BPublish 0 "ch" 12;
   BObserve; BPublish 1 "ch" 13; BUnsubscribe 0 "ch" "n2"; BDepth (demo_reader "n1" 1) 1; BPublish 0 "ch" 14]%string.

Lemma blockers_refine_witness :
  exists b, (blocker_runs (H := recent_first) ∅ demo_blocker_ops).2 !! "ch"%string = Some b /\
    published_msg_queue_ b = [14] /\ observed_msg_queue_ b = [12; 11].
Proof.
  destruct (blockers_refine (H := recent_first) demo_blocker_ops) as (_ & _ & Hc).
  { unfold demo_blocker_ops. repeat (apply Forall_cons; split; [cbn; lia|]). constructor. }
  specialize (Hc "ch"%string). destruct ((blocker_runs _ _).2 !! "ch"%string) as [b|] eqn:E; [|exact (False_rect _ ltac:(by vm_compute in Hc))].
  exists b. split; [done|]. destruct ((topic_runs ∅ demo_blocker_ops).2 !! "ch"%string) as [x|] eqn:Ex; [|done].
  destruct Hc as (H1 & H2 & _). vm_compute in Ex. injection Ex as <-. by rewrite H1, H2.
Defined.

(** [Init] of a reader sets [init_] before it subscribes: when a second reader of a node and channel
    fails to subscribe, it counts as initialised all the same, and its [Shutdown] unsubscribes the
    first one, which then hears nothing. *)
Theorem second_reader_unsubscribes_first :
  let r1 := demo_reader "n"%string 1 in let r2 := demo_reader "n"%string 2 in
  let '(ok1, r1, m) := Reader_Init (M := Z) r1 ∅ in
  let '(ok2, r2, m) := Reader_Init r2 m in
  let m := (Reader_Shutdown r2 m).2 in
  ok1 = true /\ ok2 = false /\ init_ r1 = true /\ (Manager_Publish (H := recent_first) m 0 "ch"%string 7).1 = (true, []).
Proof. by vm_compute. Qed.
