(* ===== verification/Signal.v ===== *)
(** * Signals and slots: base/signal.h

    Slots are shared between the signal, the local copy an emission iterates over and the
    connections handed out, so they live on a heap and are referred to by their number (the
    identity [HasSlot] compares).  What a callback does to its own signal while an emission
    is under way (connecting, disconnecting itself or others, disconnecting all) is the
    parameter [script]; a call is recorded in [calls]. *)

From Stdlib Require Import ZArith Lia.
From stdpp Require Import base gmap sets list.
From S2P Require Import Prelude.

Section Signal.
Context {A : Type}.

(** A slot; [cb_] is the number of its callback, [None] an empty [std::function]. *)
Record Slot := mkSlot { cb_ : option nat; connected : bool }.

Record Signal := mkSignal {
  heap : gmap nat Slot;
  fresh : nat;
  slots_ : list nat;
  calls : list (nat * A)
}.

Record Connection := mkConn { slot_ : option nat; signal_ : bool }.

Definition Signal_new : Signal := mkSignal ∅ 0%nat [] [].

Definition is_connected (s : Signal) (i : nat) : bool :=
  if heap s !! i is Some sl then connected sl else false.

(** [slot->Disconnect()] *)
Definition Slot_Disconnect (s : Signal) (i : nat) : Signal :=
  mkSignal (alter (fun sl => mkSlot (cb_ sl) false) i (heap s)) (fresh s) (slots_ s) (calls s).

Definition ClearDisconnectedSlots (s : Signal) : Signal :=
  mkSignal (heap s) (fresh s) (filter (fun i => is_connected s i = true) (slots_ s)) (calls s).

Definition Connect (s : Signal) (cb : option nat) : Connection * Signal :=
  (mkConn (Some (fresh s)) true,
   mkSignal (<[fresh s := mkSlot cb true]> (heap s)) (S (fresh s)) (slots_ s ++ [fresh s]) (calls s)).

Definition HasSlot (conn : Connection) (slot : nat) : bool :=
  if slot_ conn is Some i then bool_decide (i = slot) else false.

(** The loop of [Disconnect] over [slots_], with its flag. *)
Definition disconnect_loop (conn : Connection) (l : list nat) (s : Signal) : bool * Signal :=
  foldl (fun st i => if HasSlot conn i then (true, Slot_Disconnect st.2 i) else st) (false, s) l.

Definition Disconnect (s : Signal) (conn : Connection) : bool * Signal :=
  let '(find, s) := disconnect_loop conn (slots_ s) s in
  (find, if (find : bool) then ClearDisconnectedSlots s else s).

Definition DisconnectAllSlots (s : Signal) : Signal :=
  let s := foldl Slot_Disconnect s (slots_ s) in
  mkSignal (heap s) (fresh s) [] (calls s).

Definition IsConnected (s : Signal) (conn : Connection) : bool :=
  if slot_ conn is Some i then is_connected s i else false.

Definition Connection_Disconnect (s : Signal) (conn : Connection) : bool * Signal :=
  if signal_ conn && bool_decide (is_Some (slot_ conn)) then Disconnect s conn else (false, s).

(** What a callback may do to the signal. *)
Inductive action := ActConnect (cb : option nat) | ActDisconnect (conn : Connection) | ActDisconnectAll.

Definition act (s : Signal) (a : action) : Signal :=
  match a with
  | ActConnect cb => (Connect s cb).2
  | ActDisconnect conn => (Connection_Disconnect s conn).2
  | ActDisconnectAll => DisconnectAllSlots s
  end.

(** ** The slots in the list are the connected ones *)
Record signal_ok (s : Signal) : Prop := {
  so_conn : forall i, is_connected s i = true <-> i ∈ slots_ s;
  so_nodup : NoDup (slots_ s);
  so_fresh : forall i, is_Some (heap s !! i) -> (i < fresh s)%nat
}.

Lemma signal_new_ok : signal_ok Signal_new.
Proof.
  split; cbn; [|constructor|].
  - intros i. unfold is_connected; cbn. rewrite lookup_empty. set_solver.
  - intros i. rewrite lookup_empty. by intros [? ?].
Qed.

Lemma is_connected_disconnect s i j :
  is_connected (Slot_Disconnect s i) j = bool_decide (j <> i) && is_connected s j.
Proof.
  unfold is_connected; cbn. destruct (decide (j = i)) as [->|Hne].
  - rewrite lookup_alter_eq, bool_decide_false by tauto. by destruct (heap s !! i).
  - by rewrite lookup_alter_ne, bool_decide_true.
Qed.

Lemma foldl_disconnect s l :
  let s' := foldl Slot_Disconnect s l in
  slots_ s' = slots_ s /\ fresh s' = fresh s /\ calls s' = calls s /\
  (forall j, is_connected s' j = bool_decide (j ∉ l) && is_connected s j) /\
  (forall j, is_Some (heap s' !! j) <-> is_Some (heap s !! j)).
Proof.
  cbv zeta. revert s. induction l as [|i l IH]; intros s; cbn [foldl].
  - by split_and!.
  - destruct (IH (Slot_Disconnect s i)) as (-> & -> & -> & Hc & Hh). split_and!; try done.
    + intros j. rewrite Hc, is_connected_disconnect. repeat case_bool_decide; set_solver.
    + intros j. rewrite Hh; cbn. destruct (decide (j = i)) as [->|]; [rewrite lookup_alter_eq, fmap_is_Some|rewrite lookup_alter_ne]; done.
Qed.

(** The loop of [Disconnect] disconnects the connection's slot if the signal has it. *)
Lemma disconnect_loop_spec conn l s :
  disconnect_loop conn l s =
    (existsb (HasSlot conn) l, foldl Slot_Disconnect s (filter (fun i => HasSlot conn i = true) l)).
Proof.
  unfold disconnect_loop.
  assert (Hgen : forall b, foldl (fun st i => if HasSlot conn i then (true, Slot_Disconnect st.2 i) else st) (b, s) l =
    (b || existsb (HasSlot conn) l, foldl Slot_Disconnect s (filter (fun i => HasSlot conn i = true) l))).
  { revert s. induction l as [|i l IH]; intros s b; cbn [foldl existsb]; [by rewrite orb_false_r|].
    rewrite filter_cons. destruct (HasSlot conn i).
    - rewrite decide_True by done. rewrite IH. by rewrite orb_true_r.
    - rewrite decide_False by done. by rewrite IH. }
  apply Hgen.
Qed.

Lemma HasSlot_spec conn i : HasSlot conn i = true <-> slot_ conn = Some i.
Proof. unfold HasSlot. destruct (slot_ conn); [|done]. rewrite bool_decide_eq_true. naive_solver. Qed.

Lemma filter_none (f : nat -> bool) l : existsb f l = false -> filter (fun i => f i = true) l = [].
Proof.
  induction l as [|i l IH]; [done|]. cbn [existsb]. rewrite filter_cons. intros [Hi Hl]%orb_false_iff.
  rewrite decide_False by congruence. by apply IH.
Qed.

Lemma clear_ok s :
  (forall i, is_connected s i = true -> i ∈ slots_ s) -> NoDup (slots_ s) ->
  (forall i, is_Some (heap s !! i) -> (i < fresh s)%nat) -> signal_ok (ClearDisconnectedSlots s).
Proof.
  intros Hc Hn Hf. split; cbn; [|by apply NoDup_filter|done].
  intros i. change (is_connected _ i) with (is_connected s i). rewrite list_elem_of_filter. naive_solver.
Qed.

Lemma Connect_ok s cb : signal_ok s -> signal_ok (Connect s cb).2.
Proof.
  intros [Hc Hn Hf].
  assert (Hfr : heap s !! fresh s = None).
  { destruct (heap s !! fresh s) eqn:He; [|done]. specialize (Hf (fresh s) ltac:(by rewrite He)). lia. }
  split; cbn.
  - intros i. unfold is_connected; cbn. rewrite elem_of_app, list_elem_of_singleton, <- Hc.
    destruct (decide (i = fresh s)) as [->|]; [rewrite lookup_insert_eq; naive_solver|].
    rewrite lookup_insert_ne by done. unfold is_connected. naive_solver.
  - apply NoDup_app. split; [done|]. split; [|apply NoDup_singleton].
    intros i Hi%Hc ->%list_elem_of_singleton. unfold is_connected in Hi. by rewrite Hfr in Hi.
  - intros i. destruct (decide (i = fresh s)) as [->|]; [lia|]. rewrite lookup_insert_ne by done.
    intros ?%Hf. lia.
Qed.

Lemma Disconnect_ok s conn : signal_ok s -> signal_ok (Disconnect s conn).2.
Proof.
  intros [Hc Hn Hf]. unfold Disconnect. rewrite disconnect_loop_spec.
  destruct (existsb (HasSlot conn) (slots_ s)) eqn:Hex; cbn [snd].
  - pose proof (foldl_disconnect s (filter (fun i => HasSlot conn i = true) (slots_ s))) as (Hs & Hfr & _ & Hcc & Hh).
    apply clear_ok.
    + intros i. rewrite Hs, Hcc, andb_true_iff. intros [_ ?]. by apply Hc.
    + by rewrite Hs.
    + intros i. rewrite Hh, Hfr. apply Hf.
  - rewrite filter_none by done. done.
Qed.

Lemma DisconnectAllSlots_ok s : signal_ok s -> signal_ok (DisconnectAllSlots s).
Proof.
  intros [Hc Hn Hf]. unfold DisconnectAllSlots.
  pose proof (foldl_disconnect s (slots_ s)) as (_ & Hfr & _ & Hcc & Hh). split; cbn.
  - intros i. transitivity (is_connected (foldl Slot_Disconnect s (slots_ s)) i = true); [done|].
    rewrite Hcc, andb_true_iff, bool_decide_eq_true, Hc. set_solver.
  - constructor.
  - intros i. rewrite Hh, Hfr. apply Hf.
Qed.

Lemma act_ok s a : signal_ok s -> signal_ok (act s a).
Proof.
  intros Hs. destruct a as [cb|conn|]; cbn [act]; [by apply Connect_ok| |by apply DisconnectAllSlots_ok].
  unfold Connection_Disconnect. destruct (_ && _); [by apply Disconnect_ok|done].
Qed.

Lemma acts_ok l s : signal_ok s -> signal_ok (foldl act s l).
Proof. revert s. induction l as [|a l IH]; intros s Hs; [done|]. by apply IH, act_ok. Qed.

(** A slot that would be called now. *)
Definition callable (s : Signal) (i : nat) : bool :=
  if heap s !! i is Some (mkSlot (Some _) true) then true else false.

Lemma callable_disconnect s l i : callable (foldl Slot_Disconnect s l) i = true -> callable s i = true.
Proof.
  revert s. induction l as [|j l IH]; intros s; cbn [foldl]; [done|]. intros Hc%IH. revert Hc.
  unfold callable; cbn. destruct (decide (i = j)) as [->|]; [|by rewrite lookup_alter_ne].
  rewrite lookup_alter_eq. destruct (heap s !! j) as [[[?|] ?]|]; done.
Qed.

(** A callback never makes a disconnected slot callable again; new slots get new numbers. *)
Lemma act_frame s a :
  calls (act s a) = calls s /\ (fresh s <= fresh (act s a))%nat /\
  forall i, (i < fresh s)%nat -> callable (act s a) i = true -> callable s i = true.
Proof.
  destruct a as [cb|conn|]; cbn [act].
  - cbn. split; [done|]. split; [lia|]. intros i Hi. unfold callable; cbn. by rewrite lookup_insert_ne by lia.
  - unfold Connection_Disconnect. destruct (_ && _); [|done]. unfold Disconnect. rewrite disconnect_loop_spec.
    set (l := filter _ _). pose proof (foldl_disconnect s l) as (_ & Hf & Hc & _).
    pose proof (callable_disconnect s l) as Hcall.
    destruct (existsb _ _); cbn; rewrite Hc, Hf; (split; [done|]; split; [lia|]); intros i _; apply Hcall.
  - unfold DisconnectAllSlots. pose proof (foldl_disconnect s (slots_ s)) as (_ & Hf & Hc & _).
    pose proof (callable_disconnect s (slots_ s)) as Hcall.
    cbn. rewrite Hc, Hf. split; [done|]. split; [lia|]. intros i _. apply Hcall.
Qed.

Lemma acts_frame l s :
  calls (foldl act s l) = calls s /\ (fresh s <= fresh (foldl act s l))%nat /\
  forall i, (i < fresh s)%nat -> callable (foldl act s l) i = true -> callable s i = true.
Proof.
  revert s. induction l as [|a l IH]; intros s; cbn [foldl]; [done|].
  destruct (IH (act s a)) as (-> & Hf & Hc). destruct (act_frame s a) as (-> & Hf' & Ha).
  split; [done|]. split; [lia|]. intros i Hi Hx. apply Ha; [done|]. apply Hc; [lia|done].
Qed.

(** ** Emission *)
Context (script : nat -> A -> list action).

(** [( *slot)(args...)] *)
Definition Slot_call (args : A) (s : Signal) (i : nat) : Signal :=
  match heap s !! i with
  | Some (mkSlot (Some cb) true) =>
      foldl act (mkSignal (heap s) (fresh s) (slots_ s) (calls s ++ [(i, args)])) (script cb args)
  | _ => s
  end.

(** [operator()]: the slots connected now are called, then the list is cleaned. *)
Definition Emit (s : Signal) (args : A) : Signal :=
  let local := slots_ s in
  ClearDisconnectedSlots (foldl (Slot_call args) s local).

(** One call: made exactly when the slot is still connected and has a callback. *)
Lemma Slot_call_spec args s i :
  signal_ok s ->
  let s' := Slot_call args s i in
  signal_ok s' /\ calls s' = calls s ++ (if callable s i then [(i, args)] else []) /\
  (fresh s <= fresh s')%nat /\
  forall j, (j < fresh s)%nat -> callable s' j = true -> callable s j = true.
Proof.
  intros Hok. cbv zeta. unfold Slot_call, callable at 1.
  destruct (heap s !! i) as [[[cb|] []]|]; try (rewrite app_nil_r; done).
  set (s1 := mkSignal _ _ _ _).
  assert (Hok1 : signal_ok s1) by (destruct Hok; by split).
  destruct (acts_frame (script cb args) s1) as (Hc & Hf & Hm).
  split; [by apply acts_ok|]. split; [by rewrite Hc|]. split; [done|]. apply Hm.
Qed.

Lemma emit_loop args l s :
  signal_ok s -> NoDup l -> Forall (fun i => (i < fresh s)%nat) l ->
  exists called, called `sublist_of` l /\
    let s' := foldl (Slot_call args) s l in
    signal_ok s' /\ calls s' = calls s ++ ((fun i => (i, args)) <$> called) /\
    (forall j, (j < fresh s)%nat -> callable s' j = true -> callable s j = true /\ (j ∈ l -> j ∈ called)) /\
    (forall l1 i l2, l = l1 ++ i :: l2 -> (i ∈ called <-> callable (foldl (Slot_call args) s l1) i = true)).
Proof.
  revert s. induction l as [|i l IH]; intros s Hok Hnd Hl; cbn [foldl].
  - exists []. split; [constructor|]. split; [done|]. split; [by rewrite app_nil_r|]. split.
    + intros j _ Hj. split; [done|set_solver].
    + by intros [] ? ? ?.
  - apply Forall_cons in Hl as [Hi Hl]. apply NoDup_cons in Hnd as [Hni Hnd].
    destruct (Slot_call_spec args s i Hok) as (Hok1 & Hc1 & Hf1 & Hm1).
    destruct (IH (Slot_call args s i) Hok1 Hnd) as (called & Hsub & Hok' & Hc & Hm & Hex).
    { eapply Forall_impl; [done|]. cbn. lia. }
    exists ((if callable s i then [i] else []) ++ called). split; [destruct (callable s i); cbn; by constructor|].
    split; [done|]. split; [rewrite Hc, Hc1, <- app_assoc; by destruct (callable s i)|]. split.
    + intros j Hj Hx. destruct (Hm j) as [Hy Hin]; [lia|done|].
      assert (Hz : callable s j = true) by by apply Hm1. split; [done|].
      intros [->|Hjl]%elem_of_cons; [rewrite Hz; set_solver|]. apply elem_of_app. right. by apply Hin.
    + assert (Hcl : forall x, x ∈ called -> x ∈ l) by (intros x Hx; by apply (sublist_subseteq _ _ Hsub)).
      intros l1 x l2 Heq. destruct l1 as [|y l1]; cbn in Heq; simplify_eq; cbn [foldl].
      * rewrite elem_of_app. destruct (callable s x); set_solver.
      * rewrite <- (Hex l1 x l2 eq_refl), elem_of_app.
        assert (x <> y) by set_solver. destruct (callable s y); set_solver.
Qed.

(** An emission calls slots in the order they were connected, each at most once and only
    those connected when it started: the slot at a given place is called exactly when it
    is still connected, with a callback, after the callbacks before it have run, so one
    disconnected by an earlier callback is skipped and one connected by a callback waits
    for the next emission; afterwards the list holds exactly the connected slots. *)
Theorem signal_emission (s : Signal) (args : A) :
  signal_ok s ->
  exists called, called `sublist_of` slots_ s /\
    let s' := Emit s args in
    signal_ok s' /\ calls s' = calls s ++ ((fun i => (i, args)) <$> called) /\
    (forall i, i ∈ slots_ s -> callable s' i = true -> i ∈ called) /\
    (forall l1 i l2, slots_ s = l1 ++ i :: l2 ->
       (i ∈ called <-> callable (foldl (Slot_call args) s l1) i = true)).
Proof.
  intros Hok. destruct (emit_loop args (slots_ s) s Hok) as (called & Hsub & Hok' & Hc & Hm & Hex).
  - apply Hok.
  - apply Forall_forall. intros i Hi. apply (so_fresh s Hok). apply (so_conn s Hok) in Hi.
    unfold is_connected in Hi. by destruct (heap s !! i).
  - exists called. split; [done|]. cbv zeta. unfold Emit. split.
    { apply clear_ok; [apply Hok'|apply Hok'|apply (so_fresh _ Hok')]. }
    split; [exact Hc|]. split; [|exact Hex].
    intros i Hi Hx. eapply Hm; [|exact Hx|exact Hi].
    apply (so_fresh s Hok). apply (so_conn s Hok) in Hi. unfold is_connected in Hi. by destruct (heap s !! i).
Qed.
End Signal.

(** Slot 0 disconnects slot 1 and connects a new one; slot 2 disconnects itself. *)
Definition demo_script (cb : nat) (_ : Z) : list action :=
  match cb with
  | 0%nat => [ActDisconnect (mkConn (Some 1%nat) true); ActConnect (Some 7%nat)]
  | 2%nat => [ActDisconnect (mkConn (Some 2%nat) true)]
  | _ => []
  end.

Definition demo_signal : Signal (A := Z) :=
  foldl (fun s cb => (Connect s (Some cb)).2) Signal_new [0%nat; 1%nat; 2%nat].

Lemma signal_emission_witness :
  signal_ok demo_signal /\
  calls (Emit demo_script demo_signal 5) = [(0%nat, 5); (2%nat, 5)] /\
  slots_ (Emit demo_script demo_signal 5) = [0%nat; 3%nat] /\
  signal_ok (Emit demo_script demo_signal 5).
Proof.
  assert (Hok : signal_ok demo_signal).
  { unfold demo_signal. cbn [foldl]. do 3 apply Connect_ok. apply signal_new_ok. }
  split; [exact Hok|]. split; [by vm_compute|]. split; [by vm_compute|].
  destruct (signal_emission demo_script demo_signal 5 Hok) as (called & _ & Hok' & _). exact Hok'.
Defined.
