(* ===== verification/CacheBuffer.v ===== *)
(** * CacheBuffer and ChannelBuffer: data/cache_buffer.h, data/channel_buffer.h

    A ring of the last messages of a channel, and the reader side that follows it by
    a message index.  The abstract view of a buffer is the list [hist] of all messages
    ever filled in; [repr] relates the ring to it. *)

From Stdlib Require Import ZArith Lia.
From stdpp Require Import base sets numbers sorting list.
From S2P Require Import Prelude.

Section CacheBuffer.
Context {T : Type}.

(** [fusion_callback_] holds the id of the registered callback, if any. *)
Record CacheBuffer := mkBuffer {
  head_ : Z;
  tail_ : Z;
  capacity_ : Z;
  buffer_ : list T;
  fusion_callback_ : option nat
}.

Definition CacheBuffer_new (dflt : T) (size : Z) : CacheBuffer :=
  let cap := size +u 1 in mkBuffer 0 0 cap (replicate (Z.to_nat cap) dflt) None.

(** The copy constructor. *)
Definition CacheBuffer_copy (rhs : CacheBuffer) : CacheBuffer :=
  mkBuffer (head_ rhs) (tail_ rhs) (capacity_ rhs) (buffer_ rhs) (fusion_callback_ rhs).

Definition GetIndex (b : CacheBuffer) (pos : Z) : Z := pos mod capacity_ b.
Definition at_ (b : CacheBuffer) (pos : Z) : option T := buffer_ b !! Z.to_nat (GetIndex b pos).
Definition Head (b : CacheBuffer) : Z := head_ b +u 1.
Definition Tail (b : CacheBuffer) : Z := tail_ b.
Definition Size (b : CacheBuffer) : Z := tail_ b -u head_ b.
Definition Front (b : CacheBuffer) : option T := at_ b (head_ b +u 1).
Definition Back (b : CacheBuffer) : option T := at_ b (tail_ b).
Definition Empty (b : CacheBuffer) : bool := tail_ b =? 0.
Definition Full (b : CacheBuffer) : bool := capacity_ b -u 1 =? tail_ b -u head_ b.
Definition Capacity (b : CacheBuffer) : Z := capacity_ b.

Definition SetFusionCallback (b : CacheBuffer) (cb : nat) : CacheBuffer :=
  mkBuffer (head_ b) (tail_ b) (capacity_ b) (buffer_ b) (Some cb).

Definition store (b : CacheBuffer) (pos : Z) (v : T) : list T :=
  <[Z.to_nat (GetIndex b pos) := v]> (buffer_ b).

(** [Fill] either hands the value to the callback (second component) or stores it. *)
Definition Fill (b : CacheBuffer) (v : T) : CacheBuffer * option (nat * T) :=
  match fusion_callback_ b with
  | Some cb => (b, Some (cb, v))
  | None =>
      if Full b then
        (mkBuffer (head_ b +u 1) (tail_ b +u 1) (capacity_ b) (store b (head_ b) v) None, None)
      else
        (mkBuffer (head_ b) (tail_ b +u 1) (capacity_ b) (store b (tail_ b +u 1) v) None, None)
  end.

(** ** Readers *)

(** [ChannelBuffer::Fetch]: the new index and the message, [None] for [false]. *)
Definition Fetch (b : CacheBuffer) (index : Z) : option (Z * T) :=
  if Empty b then None else
  let idx :=
    if index =? 0 then Some (Tail b)
    else if index =? Tail b +u 1 then None
    else if index <? Head b then Some (Tail b)
    else Some index in
  i ← idx; m ← at_ b i; Some (i, m).

(** [ChannelBuffer::Latest]. *)
Definition Latest (b : CacheBuffer) : option T :=
  if Empty b then None else Back b.

(** The loop of [FetchMulti]: [fuel] bounds the number of iterations. *)
Fixpoint fetch_loop (fuel : nat) (b : CacheBuffer) (index : Z) : list T :=
  match fuel with
  | O => []
  | S fuel =>
      if index <=? Tail b then option_list (at_ b index) ++ fetch_loop fuel b (index +u 1)
      else []
  end.

(** [ChannelBuffer::FetchMulti]: the messages appended to the vector. *)
Definition FetchMulti (b : CacheBuffer) (fetch_size : Z) : option (list T) :=
  if Empty b then None else
  let num := Z.min (Size b) fetch_size in
  Some (fetch_loop (Z.to_nat num + 1) b (Tail b -u num +u 1)).
End CacheBuffer.
Arguments CacheBuffer : clear implicits.

(** ** The ring and its history *)
Section Repr.
Context {T : Type}.
Implicit Types (b : CacheBuffer T) (hist : list T).

Record repr b hist : Prop := {
  rp_cap : 1 <= capacity_ b < two64;
  rp_len : Z.of_nat (length (buffer_ b)) = capacity_ b;
  rp_tail : tail_ b = Z.of_nat (length hist);
  rp_head : head_ b = Z.max 0 (tail_ b - (capacity_ b - 1));
  rp_bound : tail_ b + 1 < two64;
  rp_cells : forall i, 1 <= i -> tail_ b - capacity_ b < i <= tail_ b ->
    at_ b i = hist !! Z.to_nat (i - 1)
}.

Lemma repr_new dflt size : 0 <= size -> size + 1 < two64 -> repr (CacheBuffer_new dflt size) ([] : list T).
Proof.
  intros. unfold CacheBuffer_new. split; simpl; rewrite ?u64_small by lia; try word_lia.
  rewrite length_replicate. lia.
Qed.

Lemma Full_spec b hist : repr b hist -> Full b = bool_decide (capacity_ b - 1 <= tail_ b).
Proof.
  intros []. unfold Full. rewrite !u64_small by lia.
  destruct (decide (capacity_ b - 1 <= tail_ b)).
  - rewrite bool_decide_true by done. lia.
  - rewrite bool_decide_false by done. lia.
Qed.

Lemma cell_neq_window b i j :
  1 <= capacity_ b -> i < j < i + capacity_ b ->
  Z.to_nat (GetIndex b i) <> Z.to_nat (GetIndex b j).
Proof.
  intros Hc Hij He. apply Z_to_nat_mod_inj in He; [|lia].
  by apply (mod_neq_window (capacity_ b) i j) in He; [|lia..].
Qed.

(** [Fill] without a callback appends to the history. *)
Lemma Fill_repr b hist v :
  repr b hist -> fusion_callback_ b = None -> tail_ b + 2 < two64 ->
  repr (Fill b v).1 (hist ++ [v]) /\ fusion_callback_ (Fill b v).1 = None /\
  (Fill b v).2 = None /\ capacity_ (Fill b v).1 = capacity_ b.
Proof.
  intros Hr Hcb Hb. unfold Fill. rewrite Hcb, (Full_spec b hist) by done. pose proof Hr as [].
  assert (Hst : forall pos, GetIndex b pos = GetIndex b (tail_ b + 1) ->
    forall i, 1 <= i -> tail_ b + 1 - capacity_ b < i <= tail_ b + 1 ->
    store b pos v !! Z.to_nat (GetIndex b i) = (hist ++ [v]) !! Z.to_nat (i - 1)).
  { intros pos Hpos i Hi1 Hi. unfold store. rewrite Hpos.
    destruct (decide (i = tail_ b + 1)) as [->|Hne].
    - rewrite list_lookup_insert_eq by (apply Z_mod_lt_length; lia).
      rewrite list_lookup_middle; [done|lia].
    - rewrite list_lookup_insert_ne by (apply not_eq_sym, cell_neq_window; lia).
      rewrite lookup_app_l by lia. apply rp_cells0; lia. }
  case_bool_decide; simpl; (split; [|done]); split; unfold store, at_; simpl;
    rewrite ?length_insert, ?length_app, ?u64_small by lia; simpl; try lia; apply Hst.
  - unfold GetIndex. replace (tail_ b + 1) with (head_ b + capacity_ b) by lia.
    symmetry. apply mod_add_turn. lia.
  - done.
Qed.

Lemma Empty_spec b hist : repr b hist -> Empty b = bool_decide (hist = []).
Proof.
  intros []. unfold Empty. destruct hist; [by rewrite rp_tail0|].
  rewrite bool_decide_false by done. simpl in *. lia.
Qed.

Lemma at_some b hist i :
  repr b hist -> 1 <= i -> tail_ b - capacity_ b < i <= tail_ b ->
  exists m, at_ b i = Some m /\ hist !! Z.to_nat (i - 1) = Some m.
Proof.
  intros [] H1 H2. rewrite rp_cells0 by done.
  destruct (lookup_lt_is_Some_2 hist (Z.to_nat (i - 1))) as [m Hm]; [lia|eauto].
Qed.

(** The position a reader at [index] gets. *)
Definition fetch_pos b (index : Z) : Z :=
  if decide (index = 0 \/ index <= head_ b) then tail_ b else index.

Lemma Fetch_spec b hist index :
  repr b hist -> 0 <= index <= tail_ b + 1 ->
  if decide (hist = [] \/ index = tail_ b + 1) then Fetch b index = None
  else exists m, Fetch b index = Some (fetch_pos b index, m) /\
       hist !! Z.to_nat (fetch_pos b index - 1) = Some m.
Proof.
  intros Hr Hi. unfold Fetch, Tail, Head. rewrite (Empty_spec b hist) by done.
  destruct (decide (hist = [])) as [He|He].
  { by rewrite decide_True, bool_decide_true by auto. }
  rewrite bool_decide_false by done. pose proof Hr as [].
  assert (1 <= tail_ b) by (destruct hist; simpl in *; [done|lia]).
  rewrite !u64_small by lia.
  destruct (decide (index = tail_ b + 1)) as [->|Ht].
  { rewrite decide_True by auto. replace (tail_ b + 1 =? 0) with false by lia.
    by rewrite Z.eqb_refl. }
  rewrite decide_False by tauto. unfold fetch_pos.
  replace (index =? tail_ b + 1) with false by lia.
  destruct (decide (index = 0 \/ index <= head_ b)) as [Hd|Hd].
  - destruct (at_some b hist (tail_ b) Hr) as (m & Hm & Hh); [lia..|].
    exists m. split; [|done].
    destruct (Z.eqb_spec index 0); simpl; [by rewrite Hm|].
    replace (index <? head_ b + 1) with true by lia. simpl. by rewrite Hm.
  - destruct (at_some b hist index Hr) as (m & Hm & Hh); [lia..|].
    exists m. split; [|done].
    replace (index =? 0) with false by lia. replace (index <? head_ b + 1) with false by lia.
    simpl. by rewrite Hm.
Qed.

Lemma Latest_spec b hist : repr b hist -> Latest b = list.last hist.
Proof.
  intros Hr. unfold Latest. rewrite (Empty_spec b hist) by done. case_bool_decide as He; [by subst|].
  pose proof Hr as []. assert (1 <= tail_ b) by (destruct hist; simpl in *; [done|lia]).
  unfold Back. rewrite rp_cells0 by lia. rewrite last_lookup. f_equal. lia.
Qed.

Lemma fetch_loop_spec b hist n i :
  repr b hist -> 1 <= i -> tail_ b - capacity_ b < i ->
  tail_ b - i + 1 = Z.of_nat n ->
  fetch_loop (n + 1) b i = drop (Z.to_nat (i - 1)) hist.
Proof.
  intros Hr. revert i. induction n as [|n IH]; intros i H1 Hw Hn; pose proof Hr as []; simpl; unfold Tail.
  - replace (i <=? tail_ b) with false by lia. rewrite drop_ge by lia. done.
  - replace (i <=? tail_ b) with true by lia.
    destruct (at_some b hist i Hr) as (m & Hm & Hh); [lia..|].
    rewrite Hm, u64_small, IH by lia. symmetry.
    replace (Z.to_nat (i + 1 - 1)) with (S (Z.to_nat (i - 1))) by lia.
    by apply drop_S.
Qed.
End Repr.

(** ** One reader

    [DataVisitor<M0>]: a channel buffer and the index of the next message. *)
Section Visitor.
Context {T : Type}.

Record visitor := mkVisitor { buffer_v : CacheBuffer T; next_msg_index_ : Z }.

(** [TryFetch] of the single-channel visitor. *)
Definition TryFetch (v : visitor) : option T * visitor :=
  match Fetch (buffer_v v) (next_msg_index_ v) with
  | Some (i, m) => (Some m, mkVisitor (buffer_v v) (i +u 1))
  | None => (None, v)
  end.

Inductive vop := VFill (m : T) | VTryFetch.

(** A run of the writer and the reader: the visitor, the messages written and the
    messages delivered with their positions. *)
Record vrun := mkRun { vis : visitor; written : list T; delivered : list (Z * T) }.

Definition vstep (r : vrun) (o : vop) : vrun :=
  match o with
  | VFill m => mkRun (mkVisitor (Fill (buffer_v (vis r)) m).1 (next_msg_index_ (vis r)))
                 (written r ++ [m]) (delivered r)
  | VTryFetch =>
      let t := TryFetch (vis r) in
      mkRun t.2 (written r)
        (delivered r ++ match t.1 with Some m => [(next_msg_index_ t.2 - 1, m)] | None => [] end)
  end.

Definition vexec (r : vrun) (l : list vop) : vrun := foldl vstep r l.

Definition vstart (dflt : T) (size : Z) : vrun :=
  mkRun (mkVisitor (CacheBuffer_new dflt size) 0) [] [].

Record vinv (n : nat) (r : vrun) : Prop := {
  vi_repr : repr (buffer_v (vis r)) (written r);
  vi_cb : fusion_callback_ (buffer_v (vis r)) = None;
  vi_time : (length (written r) <= n)%nat;
  vi_index : 0 <= next_msg_index_ (vis r) <= tail_ (buffer_v (vis r)) + 1;
  vi_sorted : StronglySorted Z.lt (delivered r).*1;
  vi_before : Forall (fun d => d.1 < next_msg_index_ (vis r)) (delivered r);
  vi_vals : Forall (fun d => 1 <= d.1 /\ written r !! Z.to_nat (d.1 - 1) = Some d.2) (delivered r)
}.

Lemma StronglySorted_snoc (l : list Z) x :
  StronglySorted Z.lt l -> Forall (fun y => y < x) l -> StronglySorted Z.lt (l ++ [x]).
Proof.
  induction 1 as [|a l Hs IH Ha]; intros Hx; simpl; [repeat constructor|].
  apply Forall_cons in Hx as [? Hx]. constructor; [by apply IH|].
  apply Forall_app; split; [done|]. by constructor.
Qed.

Lemma vinv_step n r o : Z.of_nat n + 2 < two64 -> vinv n r -> vinv (n + 1) (vstep r o).
Proof.
  intros Hn [Hr Hcb Ht Hi Hs Hb Hv]. pose proof (rp_tail _ _ Hr) as Htail.
  destruct o as [m|]; simpl.
  - destruct (Fill_repr _ _ m Hr Hcb) as (Hr' & Hcb' & _); [lia|].
    pose proof (rp_tail _ _ Hr') as Htail'. rewrite length_app in Htail'. simpl in Htail'.
    split; simpl; try done; [rewrite length_app; simpl; lia|lia|].
    eapply Forall_impl; [exact Hv|]. intros d [? Hd]. split; [done|].
    rewrite lookup_app_l; [done|]. by eapply lookup_lt_Some.
  - unfold TryFetch. pose proof (Fetch_spec _ _ _ Hr Hi) as Hf.
    destruct (decide _) as [Hd|Hd].
    { rewrite Hf. simpl. rewrite app_nil_r. split; simpl; (done || lia). }
    destruct Hf as (m & Hf & Hm). rewrite Hf. simpl.
    set (i := fetch_pos (buffer_v (vis r)) (next_msg_index_ (vis r))) in *.
    assert (Hlt : (Z.to_nat (i - 1) < length (written r))%nat) by (by eapply lookup_lt_Some).
    assert (Hge : next_msg_index_ (vis r) <= i /\ 1 <= i <= tail_ (buffer_v (vis r))).
    { unfold i, fetch_pos in *. pose proof Hr as []. destruct (written r) as [|w ws]; [by destruct Hd; left|].
      simpl in *. case_decide; lia. }
    pose proof (rp_bound _ _ Hr). rewrite u64_small by lia. replace (i + 1 - 1) with i by lia.
    split; simpl; try done; try lia.
    + rewrite fmap_app. apply StronglySorted_snoc; [done|]. apply Forall_fmap.
      eapply Forall_impl; [exact Hb|]. intros d; simpl. lia.
    + apply Forall_app; split; [|repeat constructor; simpl; lia].
      eapply Forall_impl; [exact Hb|]. intros d; simpl. lia.
    + apply Forall_app; split; [done|]. constructor; [|done]. simpl. split; [lia|done].
Qed.

Lemma vinv_exec dflt size l :
  0 <= size -> size + 1 < two64 -> Z.of_nat (length l) + 2 < two64 ->
  vinv (length l) (vexec (vstart dflt size) l).
Proof.
  intros H0 H1. induction l as [|o l IH] using rev_ind; intros Hl.
  - split; simpl; try constructor; try done; by apply repr_new.
  - rewrite length_app in *. simpl in *. unfold vexec. rewrite foldl_app. simpl.
    apply vinv_step; [lia|]. apply IH. lia.
Qed.

Lemma vexec_written r l :
  written (vexec r l) = written r ++ omap (fun o => match o with VFill m => Some m | _ => None end) l.
Proof.
  revert r. induction l as [|o l IH]; intros r; [by rewrite app_nil_r|]. simpl.
  unfold vexec in *. simpl. rewrite IH. destruct o; simpl; [by rewrite <- app_assoc|done].
Qed.
End Visitor.

(** ** Theorems *)

(** The ring keeps the last messages.  After any number of [Fill]s a buffer of
    [size] slots reports its size, emptiness and fullness as counts of the messages
    filled, [Latest]/[Back] is the last message and every position from [Head] to
    [Tail] reads the message filled in at that position. *)
Theorem cache_buffer_keeps_last {T} (dflt : T) size (msgs : list T) :
  0 <= size -> size + 1 < two64 -> Z.of_nat (length msgs) + 2 < two64 ->
  let b := foldl (fun b m => (Fill b m).1) (CacheBuffer_new dflt size) msgs in
  let n := Z.of_nat (length msgs) in
  Tail b = n /\ Size b = Z.min n size /\ Full b = bool_decide (size <= n) /\
  Empty b = bool_decide (msgs = []) /\ Latest b = list.last msgs /\
  forall i, Head b <= i <= Tail b -> at_ b i = msgs !! Z.to_nat (i - 1).
Proof.
  intros H0 H1 H2 b n.
  assert (repr b msgs /\ fusion_callback_ b = None /\ capacity_ b = size + 1) as (Hr & _ & Hc).
  { unfold b, n in *. clear b n. induction msgs as [|m msgs IH] using rev_ind.
    - simpl. rewrite u64_small by lia. split; [by apply repr_new|done].
    - rewrite length_app in H2. simpl in H2. rewrite foldl_snoc.
      destruct IH as (Hr & Hcb & Hc); [lia|]. pose proof (rp_tail _ _ Hr).
      destruct (Fill_repr _ _ m Hr Hcb) as (? & ? & _ & ?); [lia|]. split_and!; congruence. }
  pose proof Hr as []. unfold Tail, Size, Head. rewrite !u64_small by lia.
  split_and!; try lia.
  - rewrite (Full_spec b msgs) by done. apply bool_decide_ext. lia.
  - by apply Empty_spec.
  - by apply Latest_spec.
  - intros i Hi. apply rp_cells0; lia.
Qed.

Lemma cache_buffer_keeps_last_witness :
  Latest (foldl (fun b m => (Fill b m).1) (CacheBuffer_new 0 2) [1; 2; 3; 4]) = Some 4.
Proof.
  destruct (cache_buffer_keeps_last 0 2 [1; 2; 3; 4]) as (_ & _ & _ & _ & H & _);
    [lia|reflexivity|reflexivity|exact H].
Defined.

(** C39: readers see messages in order.  Whatever the interleaving of writes and
    [TryFetch] calls, the delivered messages are at strictly increasing positions of
    the sequence of written messages: no message is delivered twice, out of order or
    altered. *)
Theorem visitor_in_order {T} (dflt : T) size (l : list (@vop T)) :
  0 <= size -> size + 1 < two64 -> Z.of_nat (length l) + 2 < two64 ->
  let r := vexec (vstart dflt size) l in
  written r = omap (fun o => match o with VFill m => Some m | _ => None end) l /\
  StronglySorted Z.lt (delivered r).*1 /\
  Forall (fun d => 1 <= d.1 /\ written r !! Z.to_nat (d.1 - 1) = Some d.2) (delivered r).
Proof.
  intros H0 H1 H2 r. destruct (vinv_exec dflt size l H0 H1 H2).
  split_and!; [unfold r; by rewrite vexec_written|done|done].
Qed.

Lemma visitor_in_order_witness :
  delivered (vexec (vstart 0 2) [VFill 5; VTryFetch; VFill 6; VFill 7; VTryFetch; VTryFetch; VTryFetch])
    = [(1, 5); (2, 6); (3, 7)] /\
  StronglySorted Z.lt
    (delivered (vexec (vstart 0 2) [VFill 5; VTryFetch; VFill 6; VFill 7; VTryFetch])).*1.
Proof.
  split; [reflexivity|].
  apply (visitor_in_order 0 2 [VFill 5; VTryFetch; VFill 6; VFill 7; VTryFetch]);
    [lia|reflexivity|reflexivity].
Defined.

(** What [Fetch] does on every branch.  On an empty buffer or past the end it
    fails; a new reader (index 0) and a reader that fell behind the ring jump to the
    newest message; any other reader gets exactly the message at its index, so a reader
    that keeps up misses nothing. *)
Theorem Fetch_all_branches {T} (b : CacheBuffer T) hist index :
  repr b hist -> 0 <= index <= tail_ b + 1 ->
  Fetch b index =
    if decide (hist = [] \/ index = tail_ b + 1) then None
    else let i := if decide (index = 0 \/ index < Head b) then tail_ b else index in
         (fun m => (i, m)) <$> hist !! Z.to_nat (i - 1).
Proof.
  intros Hr Hi. pose proof (Fetch_spec b hist index Hr Hi) as Hf.
  case_decide; [done|]. destruct Hf as (m & Hf & Hm). rewrite Hf.
  pose proof Hr as []. unfold Head. rewrite u64_small by lia. unfold fetch_pos in *.
  destruct (decide (index = 0 \/ index <= head_ b)).
  - rewrite decide_True by lia. simpl. by rewrite Hm.
  - rewrite decide_False by lia. simpl. by rewrite Hm.
Qed.

Lemma Fetch_all_branches_witness : Fetch (Fill (CacheBuffer_new 0 2) 9).1 1 = Some (1, 9).
Proof.
  rewrite (Fetch_all_branches _ [9]).
  - reflexivity.
  - apply (Fill_repr (CacheBuffer_new 0 2) [] 9); [|reflexivity|reflexivity].
    apply repr_new; vm_compute; congruence.
  - vm_compute; split; congruence.
Defined.

(** [FetchMulti] returns the newest [min(Size, fetch_size)] messages in the order
    they were filled, and the loop ends. *)
Theorem FetchMulti_newest {T} (b : CacheBuffer T) hist fetch_size :
  repr b hist -> hist <> [] -> 0 <= fetch_size ->
  FetchMulti b fetch_size =
    Some (drop (length hist - Z.to_nat (Z.min (Size b) fetch_size)) hist).
Proof.
  intros Hr Hne Hf. unfold FetchMulti. rewrite (Empty_spec b hist), bool_decide_false by done.
  pose proof Hr as []. assert (1 <= tail_ b) by (destruct hist; simpl in *; [done|lia]).
  unfold Size, Tail. rewrite (u64_small (tail_ b - head_ b)) by lia.
  set (num := Z.min (tail_ b - head_ b) fetch_size).
  rewrite (u64_small (tail_ b - num)), (u64_small (tail_ b - num + 1)) by lia.
  rewrite (fetch_loop_spec b hist) by (done || lia). do 2 f_equal. lia.
Qed.

Lemma FetchMulti_newest_witness :
  FetchMulti (Fill (Fill (CacheBuffer_new 0 2) 8).1 9).1 5 = Some [8; 9].
Proof.
  assert (Hr : repr (Fill (CacheBuffer_new 0 2) 8).1 [8]).
  { apply (Fill_repr (CacheBuffer_new 0 2) [] 8); [|reflexivity|reflexivity].
    apply repr_new; vm_compute; congruence. }
  rewrite (FetchMulti_newest _ [8; 9]); [reflexivity| |done|lia].
  apply (Fill_repr _ [8] 9 Hr); reflexivity.
Defined.
