(* ===== verification/DataFlow.v ===== *)
(** * Data flow: DataNotifier, DataDispatcher, AllLatest fusion and DataVisitor
    (data/data_notifier.h, data_dispatcher.h, fusion/all_latest.h, data_visitor.h)

    The objects these classes share through (weak) pointers live in a store: buffers of
    messages, buffers of fused tuples, the closures registered as fusion callbacks and
    the notifiers.  The per-channel vectors are kept in a map that is only used through
    the interface [KeyedStore], which the hash map implements.  All channels carry the
    same message type [M]; a fused tuple is the list of its components. *)

From Stdlib Require Import ZArith Lia.
From stdpp Require Import base gmap sets numbers list.
From S2P Require Import Prelude AtomicHashMap CacheBuffer.

Section DataFlow.
Context {M SB : Type} `{!KeyedStore SB (list nat)} (null : M).

(** The objects, by address; [next_addr] is the next address to allocate.  [notified]
    lists the notifier callbacks invoked so far. *)
Record data_state := mkData {
  buffers : gmap nat (CacheBuffer M);
  fused : gmap nat (CacheBuffer (list M));
  closures : gmap nat (list nat * nat);
  notifiers : gmap nat (option nat);
  buffers_map_ : SB;
  notifies_map_ : SB;
  next_addr : nat;
  is_shutdown : bool;
  notified : list nat
}.

Definition with_buffers (st : data_state) v := mkData v (fused st) (closures st) (notifiers st) (buffers_map_ st) (notifies_map_ st) (next_addr st) (is_shutdown st) (notified st).
Definition with_fused (st : data_state) v := mkData (buffers st) v (closures st) (notifiers st) (buffers_map_ st) (notifies_map_ st) (next_addr st) (is_shutdown st) (notified st).
Definition with_closures (st : data_state) v := mkData (buffers st) (fused st) v (notifiers st) (buffers_map_ st) (notifies_map_ st) (next_addr st) (is_shutdown st) (notified st).
Definition with_notifiers (st : data_state) v := mkData (buffers st) (fused st) (closures st) v (buffers_map_ st) (notifies_map_ st) (next_addr st) (is_shutdown st) (notified st).
Definition with_bmap (st : data_state) v := mkData (buffers st) (fused st) (closures st) (notifiers st) v (notifies_map_ st) (next_addr st) (is_shutdown st) (notified st).
Definition with_nmap (st : data_state) v := mkData (buffers st) (fused st) (closures st) (notifiers st) (buffers_map_ st) v (next_addr st) (is_shutdown st) (notified st).
Definition with_next (st : data_state) v := mkData (buffers st) (fused st) (closures st) (notifiers st) (buffers_map_ st) (notifies_map_ st) v (is_shutdown st) (notified st).
Definition with_notified (st : data_state) v := mkData (buffers st) (fused st) (closures st) (notifiers st) (buffers_map_ st) (notifies_map_ st) (next_addr st) (is_shutdown st) v.

Definition data_init : data_state := mkData ∅ ∅ ∅ ∅ ks_empty ks_empty 0 false [].

(** Appending to a per-channel vector: through the pointer when the channel is known,
    else by setting a one-element vector. *)
Definition add_to (m : SB) (channel_id : Z) (x : nat) : SB :=
  match ks_get m channel_id with
  | Some _ => ks_modify m channel_id (fun v => v ++ [x])
  | None => ks_set m channel_id [x]
  end.

(** [DataNotifier::AddNotifier]. *)
Definition AddNotifier (st : data_state) (channel_id : Z) (notifier : nat) : data_state :=
  with_nmap st (add_to (notifies_map_ st) channel_id notifier).

(** [DataNotifier::Notify]: null notifiers and empty callbacks are skipped. *)
Definition Notify (st : data_state) (channel_id : Z) : bool * data_state :=
  match ks_get (notifies_map_ st) channel_id with
  | Some v => (true, with_notified st (notified st ++ omap (fun n => mjoin (notifiers st !! n)) v))
  | None => (false, st)
  end.

(** [DataDispatcher::AddBuffer]. *)
Definition AddBuffer (st : data_state) (channel_id : Z) (buf : nat) : data_state :=
  with_bmap st (add_to (buffers_map_ st) channel_id buf).

(** The closure [AllLatest] registers on its first buffer: with a message on every
    other channel the tuple of the latest messages is filled into the fusion buffer. *)
Definition fusion_callback (st : data_state) (cb : nat) (m0 : M) : data_state :=
  match closures st !! cb with
  | None => st
  | Some (others, f) =>
      match mapM (fun o => buffers st !! o ≫= Latest) others with
      | None => st
      | Some ms =>
          match fused st !! f with
          | Some bf => with_fused st (<[f := (Fill bf (m0 :: ms)).1]> (fused st))
          | None => st
          end
      end
  end.

(** One buffer of the dispatch loop; an expired weak pointer is skipped. *)
Definition fill_buffer (m : M) (st : data_state) (id : nat) : data_state :=
  match buffers st !! id with
  | None => st
  | Some b =>
      let r := Fill b m in
      let st := with_buffers st (<[id := r.1]> (buffers st)) in
      match r.2 with Some (cb, v) => fusion_callback st cb v | None => st end
  end.

(** [DataDispatcher::Dispatch]. *)
Definition Dispatch (st : data_state) (channel_id : Z) (m : M) : bool * data_state :=
  if is_shutdown st then (false, st) else
  match ks_get (buffers_map_ st) channel_id with
  | Some v => Notify (foldl (fill_buffer m) st v) channel_id
  | None => (false, st)
  end.

(** ** Visitors *)

(** [new CacheBuffer(size)] for messages, owned by a visitor. *)
Definition new_buffer (st : data_state) (size : Z) : nat * data_state :=
  (next_addr st,
   with_next (with_buffers st (<[next_addr st := CacheBuffer_new null size]> (buffers st))) (S (next_addr st))).

(** The [AllLatest] constructor: a fusion buffer as large as the first buffer, and the
    callback on the first buffer.  The fusion buffer's address names the closure. *)
Definition AllLatest_new (st : data_state) (b0 : nat) (others : list nat) : nat * data_state :=
  match buffers st !! b0 with
  | None => (next_addr st, st)
  | Some b =>
      let f := next_addr st in
      let st := with_fused st (<[f := CacheBuffer_new [] (Capacity b -u 1)]> (fused st)) in
      let st := with_closures st (<[f := (others, f)]> (closures st)) in
      let st := with_buffers st (<[b0 := SetFusionCallback b f]> (buffers st)) in
      (f, with_next st (S f))
  end.

(** The three arities of the template. *)
Definition AllLatest_4 st b0 b1 b2 b3 := AllLatest_new st b0 [b1; b2; b3].
Definition AllLatest_3 st b0 b1 b2 := AllLatest_new st b0 [b1; b2].
Definition AllLatest_2 st b0 b1 := AllLatest_new st b0 [b1].

(** [AllLatest::Fusion]. *)
Definition Fusion (st : data_state) (f : nat) (index : Z) : option (Z * list M) :=
  fused st !! f ≫= fun bf => Fetch bf index.

Record DataVisitor := mkDV {
  dv_buffers : list nat;
  dv_fusion : option nat;
  dv_notifier : nat;
  dv_next_msg_index_ : Z
}.

(** [DataVisitorBase()] allocates the notifier. *)
Definition DataVisitorBase_new (st : data_state) : nat * data_state :=
  (next_addr st, with_next (with_notifiers st (<[next_addr st := None]> (notifiers st))) (S (next_addr st))).

Definition RegisterNotifyCallback (st : data_state) (v : DataVisitor) (cb : nat) : data_state :=
  with_notifiers st (<[dv_notifier v := Some cb]> (notifiers st)).

Fixpoint new_buffers (st : data_state) (sizes : list Z) : list nat * data_state :=
  match sizes with
  | [] => ([], st)
  | s :: sizes =>
      let r := new_buffer st s in
      let rs := new_buffers r.2 sizes in (r.1 :: rs.1, rs.2)
  end.

Definition add_buffers (st : data_state) (l : list (Z * nat)) : data_state :=
  foldl (fun st p => AddBuffer st p.1 p.2) st l.

(** The constructors of [DataVisitor]: configs are (channel id, queue size). *)
Definition DataVisitor_new (st : data_state) (configs : list (Z * Z)) : DataVisitor * data_state :=
  let r0 := DataVisitorBase_new st in
  let rb := new_buffers r0.2 configs.*2 in
  let st := add_buffers rb.2 (zip configs.*1 rb.1) in
  match configs.*1, rb.1 with
  | c0 :: _, b0 :: others =>
      let st := AddNotifier st c0 r0.1 in
      match others with
      | [] => (mkDV rb.1 None r0.1 0, st)
      | _ => let rf := AllLatest_new st b0 others in (mkDV rb.1 (Some rf.1) r0.1 0, rf.2)
      end
  | _, _ => (mkDV rb.1 None r0.1 0, st)
  end.

(** The specialisations for four, three and two channels. *)
Definition DataVisitor_4 st (c0 c1 c2 c3 : Z * Z) := DataVisitor_new st [c0; c1; c2; c3].
Definition DataVisitor_3 st (c0 c1 c2 : Z * Z) := DataVisitor_new st [c0; c1; c2].
Definition DataVisitor_2 st (c0 c1 : Z * Z) := DataVisitor_new st [c0; c1].

(** [TryFetch]: from the fusion buffer, or from the only buffer. *)
Definition DV_TryFetch (st : data_state) (v : DataVisitor) : option (list M) * DataVisitor :=
  let r := match dv_fusion v with
           | Some f => Fusion st f (dv_next_msg_index_ v)
           | None => match dv_buffers v with
                     | b0 :: _ => (fun p => (p.1, [p.2])) <$> (buffers st !! b0 ≫= fun b => Fetch b (dv_next_msg_index_ v))
                     | [] => None
                     end
           end in
  match r with
  | Some (i, ms) => (Some ms, mkDV (dv_buffers v) (dv_fusion v) (dv_notifier v) (i +u 1))
  | None => (None, v)
  end.
End DataFlow.
Arguments data_state : clear implicits.

(** ** The reference: what a fusing visitor should deliver *)
Section Reference.
Context {M : Type}.
Implicit Types (evs : list (Z * M)).

(** The messages of one channel in a sequence of dispatches. *)
Definition chan_hist (c : Z) evs : list M :=
  omap (fun e => if decide (e.1 = c) then Some e.2 else None) evs.

(** Every message of the first channel that arrives when all the other channels have
    one, together with the latest message of each of them. *)
Fixpoint fused_ref (c0 : Z) (cs : list Z) (seen evs : list (Z * M)) : list (list M) :=
  match evs with
  | [] => []
  | e :: evs =>
      (if decide (e.1 = c0)
       then match mapM (fun c => list.last (chan_hist c seen)) cs with
            | Some ms => [e.2 :: ms] | None => [] end
       else []) ++ fused_ref c0 cs (seen ++ [e]) evs
  end.

Lemma chan_hist_snoc c evs e :
  chan_hist c (evs ++ [e]) = chan_hist c evs ++ (if decide (e.1 = c) then [e.2] else []).
Proof. unfold chan_hist. rewrite omap_app. simpl. by case_decide. Qed.

Lemma chan_hist_length c evs : (length (chan_hist c evs) <= length evs)%nat.
Proof. unfold chan_hist. induction evs as [|e evs IH]; csimpl; [lia|]. case_decide; csimpl; lia. Qed.

Lemma fused_ref_snoc c0 cs seen evs e :
  fused_ref c0 cs seen (evs ++ [e]) =
    fused_ref c0 cs seen evs ++
    (if decide (e.1 = c0)
     then match mapM (fun c => list.last (chan_hist c (seen ++ evs))) cs with
          | Some ms => [e.2 :: ms] | None => [] end
     else []).
Proof.
  revert seen. induction evs as [|f evs IH]; intros seen; simpl.
  - by rewrite !app_nil_r.
  - rewrite IH. replace ((seen ++ [f]) ++ evs) with (seen ++ f :: evs) by (by rewrite <- app_assoc).
    by rewrite app_assoc.
Qed.

Lemma fused_ref_length c0 cs seen evs : (length (fused_ref c0 cs seen evs) <= length evs)%nat.
Proof.
  revert seen. induction evs as [|e evs IH]; intros seen; simpl; [lia|].
  rewrite length_app. specialize (IH (seen ++ [e])).
  repeat case_match; simpl; lia.
Qed.
End Reference.

(** ** Fusion implements the reference *)
Section Correctness.
Context {M SB : Type} `{!KeyedStore SB (list nat)} (null : M).
Implicit Types (st : data_state M SB).

(** The objects of a fusing visitor after the dispatches [evs]. *)
Record fusion_ok st (v : DataVisitor) (c0 : Z) (cs : list Z) (evs : list (Z * M)) : Prop := {
  fo_wf : ks_wf (buffers_map_ st);
  fo_nodup : NoDup (c0 :: cs);
  fo_up : is_shutdown st = false;
  fo_other : forall c, c ∉ c0 :: cs -> ks_get (buffers_map_ st) c = None;
  fo_objs : exists b0 bs f B0 BF,
    dv_buffers v = b0 :: bs /\ dv_fusion v = Some f /\ NoDup (b0 :: bs) /\
    ks_get (buffers_map_ st) c0 = Some [b0] /\
    Forall2 (fun c b => ks_get (buffers_map_ st) c = Some [b]) cs bs /\
    buffers st !! b0 = Some B0 /\ fusion_callback_ B0 = Some f /\
    Forall2 (fun c b => exists B, buffers st !! b = Some B /\
      fusion_callback_ B = None /\ repr B (chan_hist c evs)) cs bs /\
    closures st !! f = Some (bs, f) /\
    fused st !! f = Some BF /\ fusion_callback_ BF = None /\ repr BF (fused_ref c0 cs [] evs)
}.

Lemma add_to_get (m : SB) c x j :
  ks_wf m ->
  ks_get (add_to m c x) j =
    if decide (j = c) then Some (default [] (ks_get m c) ++ [x]) else ks_get m j.
Proof.
  intros Hwf. unfold add_to. destruct (ks_get m c) eqn:E.
  - rewrite ks_get_modify, E by done. done.
  - by rewrite ks_get_set.
Qed.

Lemma add_to_wf (m : SB) c x : ks_wf m -> ks_wf (add_to m c x).
Proof. intros. unfold add_to. case_match; [by apply ks_modify_wf|by apply ks_set_wf]. Qed.

(** A dispatch touches the delivery state only through its loop over the buffers. *)
Lemma Dispatch_step st c m v :
  is_shutdown st = false -> ks_get (buffers_map_ st) c = Some v ->
  exists l, (Dispatch st c m).2 = with_notified (foldl (fill_buffer m) st v) l.
Proof.
  intros Hu Hv. unfold Dispatch, Notify. rewrite Hu, Hv.
  set (s' := foldl (fill_buffer m) st v).
  destruct (ks_get (notifies_map_ s') c); simpl; [eauto|].
  exists (notified s'). by destruct s'.
Qed.

Lemma mapM_latest st cs bs evs :
  Forall2 (fun c b => exists B, buffers st !! b = Some B /\
      fusion_callback_ B = None /\ repr B (chan_hist c evs)) cs bs ->
  mapM (fun o => buffers st !! o ≫= Latest) bs = mapM (fun c => list.last (chan_hist c evs)) cs.
Proof.
  induction 1 as [|c b cs bs (B & HB & _ & Hr) H IH]; [done|]. cbn [mapM].
  rewrite HB. cbn [mbind option_bind]. rewrite (Latest_spec B _ Hr), IH. done.
Qed.

Lemma fusion_first st v c0 cs evs m :
  Z.of_nat (length evs) + 2 < two64 ->
  fusion_ok st v c0 cs evs ->
  fusion_ok (Dispatch st c0 m).2 v c0 cs (evs ++ [(c0, m)]).
Proof.
  intros Hn [Hwf Hnd Hup Ho (b0 & bs & f & B0 & BF & Hv & Hf & Hndb & Hk0 & Hks & HB0 & Hcb & HBs & Hcl & HF & HFcb & HFr)].
  destruct (Dispatch_step st c0 m [b0] Hup Hk0) as [l ->]. simpl.
  unfold fill_buffer. rewrite HB0. unfold Fill at 1 2. rewrite Hcb. simpl.
  unfold fusion_callback. simpl. rewrite Hcl. rewrite insert_id by done.
  rewrite (mapM_latest st cs bs evs) by done.
  assert (Hch : forall c, c ∈ cs -> chan_hist c (evs ++ [(c0, m)]) = chan_hist c evs).
  { intros c Hc. rewrite chan_hist_snoc. simpl. rewrite decide_False, app_nil_r; [done|].
    apply NoDup_cons in Hnd as [Hnin _]. intros ->. done. }
  assert (HBs' : Forall2 (fun c b => exists B, buffers st !! b = Some B /\
      fusion_callback_ B = None /\ repr B (chan_hist c (evs ++ [(c0, m)]))) cs bs).
  { clear -HBs Hch. induction HBs as [|c b cs bs (B & ? & ? & ?) H IH]; constructor.
    - exists B. split_and!; [done|done|]. rewrite Hch by set_solver. done.
    - apply IH. intros; apply Hch; set_solver. }
  destruct (mapM _ cs) as [ms|] eqn:Em.
  - rewrite HF. split; simpl; try done.
    pose proof (fused_ref_length c0 cs [] evs). pose proof (rp_tail _ _ HFr).
    destruct (Fill_repr BF _ (m :: ms) HFr HFcb) as (Hr' & Hcb' & _); [lia|].
    exists b0, bs, f, B0, (Fill BF (m :: ms)).1. rewrite lookup_insert_eq.
    split_and!; try done. rewrite fused_ref_snoc. simpl. rewrite decide_True, Em by done. done.
  - split; simpl; try done. exists b0, bs, f, B0, BF. split_and!; try done.
    rewrite fused_ref_snoc. simpl. rewrite decide_True, Em, app_nil_r by done. done.
Qed.

Lemma fusion_other st v c0 cs evs c m :
  c <> c0 -> Z.of_nat (length evs) + 2 < two64 ->
  fusion_ok st v c0 cs evs ->
  fusion_ok (Dispatch st c m).2 v c0 cs (evs ++ [(c, m)]).
Proof.
  intros Hc Hn [Hwf Hnd Hup Ho (b0 & bs & f & B0 & BF & Hv & Hf & Hndb & Hk0 & Hks & HB0 & Hcb & HBs & Hcl & HF & HFcb & HFr)].
  assert (HFr' : repr BF (fused_ref c0 cs [] (evs ++ [(c, m)]))).
  { rewrite fused_ref_snoc. simpl. rewrite decide_False, app_nil_r by done. done. }
  destruct (decide (c ∈ cs)) as [Hin|Hnin].
  - apply list_elem_of_lookup in Hin as [i Hi].
    destruct (Forall2_lookup_l _ _ _ _ _ Hks Hi) as (b & Hb & Hkb).
    destruct (Forall2_lookup_l _ _ _ _ _ HBs Hi) as (b' & Hb' & B & HB & HBcb & HBr).
    assert (b' = b) as -> by congruence.
    destruct (Dispatch_step st c m [b] Hup Hkb) as [l ->]. simpl.
    unfold fill_buffer. rewrite HB.
    pose proof (chan_hist_length c evs). pose proof (rp_tail _ _ HBr).
    destruct (Fill_repr B _ m HBr HBcb) as (Hr' & Hcb' & Hnone & _); [lia|]. rewrite Hnone.
    apply NoDup_cons in Hndb as [Hb0 Hndbs]. apply NoDup_cons in Hnd as [Hc0 Hndcs].
    assert (b <> b0) by (intros ->; apply Hb0; by eapply list_elem_of_lookup_2).
    split; simpl; try done; [by apply NoDup_cons|]. exists b0, bs, f, B0, BF.
    rewrite lookup_insert_ne by done. split_and!; try done; [by apply NoDup_cons|].
    apply Forall2_same_length_lookup. split; [by eapply Forall2_length|].
    intros j c' b' Hj Hj'. destruct (decide (j = i)) as [->|Hji].
    + simplify_eq. exists (Fill B m).1. rewrite lookup_insert_eq. split_and!; try done.
      rewrite chan_hist_snoc. simpl. by rewrite decide_True by done.
    + destruct (Forall2_lookup_lr _ _ _ _ _ _ HBs Hj Hj') as (B' & HB' & ? & ?).
      exists B'. rewrite lookup_insert_ne; [split_and!; try done|].
      * rewrite chan_hist_snoc. simpl. rewrite decide_False, app_nil_r; [done|].
        intros ->. apply Hji. by eapply (NoDup_lookup cs).
      * intros ->. apply Hji. by eapply (NoDup_lookup bs).
  - assert (ks_get (buffers_map_ st) c = None) as Hk by (apply Ho; set_solver).
    unfold Dispatch. rewrite Hup, Hk. simpl. split; try done.
    exists b0, bs, f, B0, BF. split_and!; try done.
    clear -HBs Hnin. induction HBs as [|c' b' cs bs (B & ? & ? & ?) _ IH]; constructor.
    + exists B. split_and!; [done|done|]. rewrite chan_hist_snoc. simpl.
      rewrite decide_False, app_nil_r by set_solver. done.
    + apply IH. set_solver.
Qed.

(** Construction of the buffers: consecutive addresses, everything else untouched. *)
Lemma new_buffers_spec st sizes :
  let r := new_buffers null st sizes in
  r.1 = seq (next_addr st) (length sizes) /\
  next_addr r.2 = (next_addr st + length sizes)%nat /\
  (forall i z, sizes !! i = Some z ->
     buffers r.2 !! (next_addr st + i)%nat = Some (CacheBuffer_new null z)) /\
  (forall j, (j < next_addr st)%nat -> buffers r.2 !! j = buffers st !! j) /\
  r.2 = with_next (with_buffers st (buffers r.2)) (next_addr r.2).
Proof.
  revert st. induction sizes as [|z sizes IH]; intros st; simpl.
  - split_and!; try done; try lia; by destruct st.
  - destruct (IH (new_buffer null st z).2) as (H1 & H2 & H3 & H4 & H5). simpl in *.
    split_and!.
    + by rewrite H1.
    + lia.
    + intros [|i] z' Hz; simpl in Hz.
      * simplify_eq. rewrite H4 by lia. rewrite Nat.add_0_r. apply lookup_insert_eq.
      * rewrite <- (H3 i z' Hz). f_equal. lia.
    + intros j Hj. rewrite H4 by lia. apply lookup_insert_ne. lia.
    + rewrite H5 at 1. done.
Qed.

Lemma add_buffers_eq st l :
  add_buffers st l = with_bmap st (foldl (fun m p => add_to m p.1 p.2) (buffers_map_ st) l).
Proof.
  revert st. induction l as [|p l IH]; intros st; simpl; [by destruct st|]. by rewrite IH.
Qed.

Lemma add_all_get (l : list (Z * nat)) (m : SB) :
  ks_wf m -> NoDup l.*1 -> (forall c, c ∈ l.*1 -> ks_get m c = None) ->
  let m' := foldl (fun m p => add_to m p.1 p.2) m l in
  ks_wf m' /\ (forall c b, (c, b) ∈ l -> ks_get m' c = Some [b]) /\
  (forall c, c ∉ l.*1 -> ks_get m' c = ks_get m c).
Proof.
  revert m. induction l as [|[c b] l IH]; intros m Hwf Hnd Hnone.
  - split_and!; [done| |done]. intros c b Hin. by apply not_elem_of_nil in Hin.
  - csimpl in *. apply NoDup_cons in Hnd as [Hc Hnd].
    destruct (IH (add_to m c b)) as (Hwf' & Hin & Hout).
    { by apply add_to_wf. }
    { done. }
    { intros c' Hc'. rewrite add_to_get by done. rewrite decide_False by congruence.
      apply Hnone. set_solver. }
    split_and!; [done| |].
    + intros c' b' [[= -> ->]|Hin']%elem_of_cons; [|by apply Hin].
      rewrite Hout by done. rewrite add_to_get, decide_True by done.
      by rewrite (Hnone c) by set_solver.
    + intros c' Hc'. rewrite Hout by set_solver. rewrite add_to_get by done.
      by rewrite decide_False by set_solver.
Qed.

(** A visitor over distinct channels starts with an empty history. *)
Lemma DataVisitor_new_ok c0 s0 c1 s1 configs :
  let cfg := (c0, s0) :: (c1, s1) :: configs in
  NoDup cfg.*1 -> Forall (fun p => 0 <= p.2 /\ p.2 + 1 < two64) cfg ->
  let r := DataVisitor_new null (data_init : data_state M SB) cfg in
  fusion_ok r.2 r.1 c0 (c1 :: configs.*1) [].
Proof.
  intros cfg Hnd Hsz. unfold DataVisitor_new.
  set (st0 := (DataVisitorBase_new _).2).
  destruct (new_buffers_spec st0 cfg.*2) as (H1 & H2 & H3 & H4 & H5).
  set (rb := new_buffers null st0 cfg.*2) in *. clearbody rb.
  rewrite add_buffers_eq, H1. cbn [length fmap list_fmap cfg]. simpl. rewrite length_fmap.
  set (l := zip cfg.*1 (1%nat :: 2%nat :: seq 3 (length configs))).
  assert (Hl1 : l.*1 = cfg.*1).
  { unfold l. apply fst_zip. simpl. by rewrite length_fmap, length_seq. }
  destruct (add_all_get l ks_empty) as (Hwf & Hin & Hout).
  { apply ks_empty_wf. }
  { by rewrite Hl1. }
  { intros. apply ks_get_empty. }
  assert (Hbuf : forall i z, cfg.*2 !! i = Some z -> buffers rb.2 !! (1 + i)%nat = Some (CacheBuffer_new null z))
    by (intros; by apply H3).
  rewrite H5. simpl. unfold AllLatest_new. simpl.
  pose proof (Hbuf 0%nat s0 eq_refl) as Hb0. simpl in Hb0. rewrite Hb0. simpl.
  apply Forall_cons in Hsz as [[Hs0 Hs0'] Hsz]. simpl in Hs0, Hs0'.
  split; simpl; try done.
  { intros c Hc. etrans; [apply Hout; by rewrite Hl1|apply ks_get_empty]. }
  eexists 1%nat, (2%nat :: seq 3 (length configs)), _, _, _.
  split_and!; try reflexivity.
  - apply (NoDup_seq 1 (S (S (length configs)))).
  - apply Hin. by left.
  - apply Forall2_same_length_lookup. split; [simpl; by rewrite length_fmap, length_seq|].
    intros i c b Hc Hb. apply Hin. apply list_elem_of_lookup. exists (S i).
    apply (lookup_zip_with_Some pair cfg.*1 (1%nat :: 2%nat :: seq 3 (length configs)) (S i) (c, b)).
    exists c, b. split_and!; done.
  - apply lookup_insert_eq.
  - done.
  - apply Forall2_same_length_lookup. split; [simpl; by rewrite length_fmap, length_seq|].
    intros i c b Hc Hb. assert (b = (2 + i)%nat) as ->.
    { apply (lookup_seq 2 (S (length configs)) i b). exact Hb. }
    assert (exists z, cfg.*2 !! (S i) = Some z /\ 0 <= z /\ z + 1 < two64) as (z & Hz & ? & ?).
    { destruct (((c1, s1) :: configs) !! i) as [[c' z]|] eqn:E.
      - exists z. split; [|by apply (Forall_lookup_1 _ _ _ _ Hsz) in E].
        etrans; [apply (list_lookup_fmap snd ((c1, s1) :: configs) i)|by rewrite E].
      - exfalso. pose proof (list_lookup_fmap fst ((c1, s1) :: configs) i) as Hfm.
        rewrite E in Hfm. pose proof (eq_trans (eq_sym Hc) Hfm). done. }
    exists (CacheBuffer_new null z). rewrite lookup_insert_ne by lia.
    split_and!; [by apply (Hbuf (S i))|done|by apply repr_new].
  - apply lookup_insert_eq.
  - apply lookup_insert_eq.
  - done.
  - unfold Capacity; simpl. rewrite (u64_small (s0 + 1)), u64_small by lia.
    apply repr_new; lia.
Qed.

Definition dispatch_all st (evs : list (Z * M)) : data_state M SB :=
  foldl (fun st e => (Dispatch st e.1 e.2).2) st evs.

Lemma dispatch_all_ok st v c0 cs evs :
  Z.of_nat (length evs) + 2 < two64 ->
  fusion_ok st v c0 cs [] -> fusion_ok (dispatch_all st evs) v c0 cs evs.
Proof.
  intros Hn H0. induction evs as [|[c m] evs IH] using rev_ind; [done|].
  unfold dispatch_all. rewrite foldl_snoc, length_app in *. simpl in *.
  destruct (decide (c = c0)) as [->|]; [apply fusion_first|apply fusion_other]; try done; try lia;
    apply IH; lia.
Qed.
End Correctness.

(** ** Theorems *)
Section Theorems.
Context {M SB : Type} `{!KeyedStore SB (list nat)} (null : M).

(** C3: fusion delivers the reference.  A visitor over two or more distinct channels,
    built on an empty data layer, holds after any sequence of dispatches exactly the
    tuples of the reference: one per message of the first channel that arrived when all
    the others had a message, paired with their latest messages; its first [TryFetch]
    returns the newest tuple. *)
Theorem fusion_delivers_latest c0 s0 c1 s1 configs (evs : list (Z * M)) :
  let cfg := (c0, s0) :: (c1, s1) :: configs in
  NoDup cfg.*1 -> Forall (fun p => 0 <= p.2 /\ p.2 + 1 < two64) cfg ->
  Z.of_nat (length evs) + 2 < two64 ->
  let r := DataVisitor_new null (data_init : data_state M SB) cfg in
  let st := dispatch_all r.2 evs in
  let ref := fused_ref c0 (c1 :: configs.*1) [] evs in
  (exists f BF, dv_fusion r.1 = Some f /\ fused st !! f = Some BF /\ repr BF ref) /\
  (DV_TryFetch st r.1).1 = list.last ref.
Proof.
  intros cfg Hnd Hsz Hn r st ref.
  pose proof (dispatch_all_ok _ _ _ _ evs Hn (DataVisitor_new_ok null c0 s0 c1 s1 configs Hnd Hsz : fusion_ok r.2 r.1 _ _ _)) as [].
  fold st in fo_objs0. fold ref in fo_objs0.
  destruct fo_objs0 as (b0 & bs & f & B0 & BF & ? & Hf & ? & ? & ? & ? & ? & ? & ? & HF & ? & Hr).
  split; [eauto|]. unfold DV_TryFetch, Fusion. rewrite Hf, HF.
  change (dv_next_msg_index_ r.1) with 0. cbn [mbind option_bind].
  pose proof (Fetch_spec BF ref 0 Hr) as Hfe. pose proof Hr as [].
  specialize (Hfe ltac:(lia)). destruct (decide _) as [Hd|Hd].
  - rewrite Hfe. simpl. destruct Hd as [->|]; [done|lia].
  - destruct Hfe as (m & -> & Hm). simpl. rewrite <- Hm.
    unfold fetch_pos. rewrite decide_True by auto. rewrite last_lookup. f_equal. lia.
Qed.

Lemma fill_buffer_quiet m (st : data_state M SB) id :
  notifiers (fill_buffer m st id) = notifiers st /\ notifies_map_ (fill_buffer m st id) = notifies_map_ st /\
  notified (fill_buffer m st id) = notified st.
Proof.
  unfold fill_buffer, fusion_callback. repeat case_match; done.
Qed.

Lemma fill_all_quiet m (st : data_state M SB) v :
  notifiers (foldl (fill_buffer m) st v) = notifiers st /\
  notifies_map_ (foldl (fill_buffer m) st v) = notifies_map_ st /\
  notified (foldl (fill_buffer m) st v) = notified st.
Proof.
  revert st. induction v as [|id v IH]; intros st; [done|]. simpl.
  destruct (IH (fill_buffer m st id)) as (-> & -> & ->). apply fill_buffer_quiet.
Qed.

(** [Dispatch] succeeds exactly when the system is up and the channel has both a
    buffer vector and a notifier vector, and then it invokes the callbacks of the
    channel's notifiers once each, in registration order; otherwise none. *)
Theorem Dispatch_notifies (st : data_state M SB) c m :
  (Dispatch st c m).1 =
    negb (is_shutdown st) && bool_decide (is_Some (ks_get (buffers_map_ st) c)) &&
    bool_decide (is_Some (ks_get (notifies_map_ st) c)) /\
  notified (Dispatch st c m).2 = notified st ++
    (if (Dispatch st c m).1
     then omap (fun n => mjoin (notifiers st !! n)) (default [] (ks_get (notifies_map_ st) c))
     else []).
Proof.
  unfold Dispatch. destruct (is_shutdown st); simpl; [by rewrite app_nil_r|].
  destruct (ks_get (buffers_map_ st) c) as [v|]; simpl; [|by rewrite app_nil_r].
  unfold Notify. destruct (fill_all_quiet m st v) as (Hn & Hm & Hl). rewrite Hn, Hm, Hl.
  destruct (ks_get (notifies_map_ st) c) as [w|] eqn:E; simpl; [done|].
  by rewrite Hl, app_nil_r.
Qed.
End Theorems.

(** Two channels 10 and 20 over the hash map: messages 1 and 3 of channel 20, messages
    7, 8 and 9 of channel 10. *)
Definition example_events : list (Z * Z) := [(10, 7); (20, 1); (10, 8); (20, 3); (10, 9)].

Lemma fusion_delivers_latest_witness :
  (DV_TryFetch
     (dispatch_all (DataVisitor_new 0 (data_init : data_state Z (AtomicHashMap (list nat))) [(10, 4); (20, 4)]).2
        example_events)
     (DataVisitor_new 0 (data_init : data_state Z (AtomicHashMap (list nat))) [(10, 4); (20, 4)]).1).1
    = Some [9; 3] /\
  fused_ref 10 [20] [] example_events = [[8; 1]; [9; 3]].
Proof.
  split; [|reflexivity].
  apply (fusion_delivers_latest (SB := AtomicHashMap (list nat)) 0 10 4 20 4 [] example_events).
  - apply (bool_decide_unpack _). reflexivity.
  - repeat (apply Forall_cons; split; [simpl; word_lia|]). apply Forall_nil. exact I.
  - reflexivity.
Defined.
