(* ===== verification/GlobalData.v ===== *)
(** * Name registries: common/global_data.cc, common/util.h

    [GlobalData] numbers the nodes, channels, services and tasks by the hash of their names,
    probing linearly past ids taken by other names.  The four tables are any keyed store
    ([AtomicHashMap] is one); [Hash] is [std::hash] and is not assumed to be injective.
    A registration is modelled as one uncontended call. *)

From Stdlib Require Import ZArith Lia.
From stdpp Require Import base gmap sets strings numbers list.
From S2P Require Import Prelude AtomicHashMap.

Section GlobalData.
Context {M : Type} `{!KeyedStore M string} (Hash : string -> Z).

(** [size] counts the [Set] calls; it bounds the number of probes. *)
Record registry := mkReg { id_map : M; size : nat }.

Record GlobalData := mkGlobal {
  node_id_map_ : registry; channel_id_map_ : registry; service_id_map_ : registry; task_id_map_ : registry }.

Definition registry_new : registry := mkReg ks_empty 0.
Definition GlobalData_new : GlobalData := mkGlobal registry_new registry_new registry_new registry_new.

(** The probing loop; [None] when the fuel runs out. *)
Fixpoint probe (fuel : nat) (m : M) (name : string) (id : Z) : option Z :=
  match fuel with
  | O => None
  | S fuel =>
      match ks_get m id with
      | None => Some id
      | Some n => if bool_decide (name = n) then Some id else probe fuel m name (id +u 1)
      end
  end.

Definition register (r : registry) (name : string) : option (Z * registry) :=
  (fun id => (id, mkReg (ks_set (id_map r) id name) (S (size r)))) <$> probe (S (size r)) (id_map r) name (Hash name).

Definition name_of (r : registry) (id : Z) : string := default "" (ks_get (id_map r) id).

Definition RegisterNode (g : GlobalData) (node_name : string) : option (Z * GlobalData) :=
  '(id, r) ← register (node_id_map_ g) node_name;
  Some (id, mkGlobal r (channel_id_map_ g) (service_id_map_ g) (task_id_map_ g)).
Definition GetNodeById (g : GlobalData) (id : Z) : string := name_of (node_id_map_ g) id.

Definition RegisterChannel (g : GlobalData) (channel : string) : option (Z * GlobalData) :=
  '(id, r) ← register (channel_id_map_ g) channel;
  Some (id, mkGlobal (node_id_map_ g) r (service_id_map_ g) (task_id_map_ g)).
Definition GetChannelById (g : GlobalData) (id : Z) : string := name_of (channel_id_map_ g) id.

Definition RegisterService (g : GlobalData) (service : string) : option (Z * GlobalData) :=
  '(id, r) ← register (service_id_map_ g) service;
  Some (id, mkGlobal (node_id_map_ g) (channel_id_map_ g) r (task_id_map_ g)).
Definition GetServiceById (g : GlobalData) (id : Z) : string := name_of (service_id_map_ g) id.

Definition RegisterTaskName (g : GlobalData) (task_name : string) : option (Z * GlobalData) :=
  '(id, r) ← register (task_id_map_ g) task_name;
  Some (id, mkGlobal (node_id_map_ g) (channel_id_map_ g) (service_id_map_ g) r).
Definition GetTaskNameById (g : GlobalData) (id : Z) : string := name_of (task_id_map_ g) id.

(** ** Probe sequences *)
Definition slot (name : string) (d : nat) : Z := u64 (Hash name + Z.of_nat d).

(** The first [d] slots of [name] are taken by other names. *)
Definition skipped (t : gmap Z string) (name : string) (d : nat) : Prop :=
  forall d', (d' < d)%nat -> exists n, t !! slot name d' = Some n /\ n <> name.

Record reg_ok (r : registry) (t : gmap Z string) : Prop := {
  ro_wf : ks_wf (id_map r);
  ro_get : forall k, ks_get (id_map r) k = t !! k;
  ro_size : (base.size t <= size r)%nat;
  ro_range : forall k n, t !! k = Some n -> 0 <= k < two64;
  ro_place : forall k n, t !! k = Some n -> exists d, Z.of_nat d < two64 /\ k = slot n d /\ skipped t n d
}.

Context (Hash_range : forall s, 0 <= Hash s < two64).

Lemma slot_0 name : slot name 0 = Hash name.
Proof. unfold slot. rewrite Z.add_0_r. by apply u64_small. Qed.

Lemma slot_S name d : slot name d +u 1 = slot name (S d).
Proof.
  unfold slot, u64. rewrite Zplus_mod_idemp_l. f_equal. lia.
Qed.

Lemma slot_inj name d d' :
  Z.of_nat d < two64 -> Z.of_nat d' < two64 -> slot name d = slot name d' -> d = d'.
Proof.
  unfold slot, u64. intros Hd Hd' He. destruct (Nat.lt_trichotomy d d') as [Hlt|[|Hlt]]; [|done|].
  - exfalso. apply (mod_neq_window two64 (Hash name + Z.of_nat d) (Hash name + Z.of_nat d')); [done|lia|done].
  - exfalso. apply (mod_neq_window two64 (Hash name + Z.of_nat d') (Hash name + Z.of_nat d)); [done|lia|done].
Qed.

(** The probe finds the first slot that is free or holds the name. *)
Lemma probe_spec r t name fuel d :
  reg_ok r t -> skipped t name d -> (size r < d + fuel)%nat -> Z.of_nat (d + fuel) < two64 ->
  exists e, (d <= e < d + fuel)%nat /\ probe fuel (id_map r) name (slot name d) = Some (slot name e) /\
            skipped t name e /\ (t !! slot name e = None \/ t !! slot name e = Some name).
Proof.
  intros Hok. revert d. induction fuel as [|fuel IH]; intros d Hsk Hf Hb.
  - exfalso.
    set (l := (slot name) <$> seq 0 d).
    assert (Hnd : NoDup l).
    { apply NoDup_fmap_2_strong; [|apply NoDup_seq]. intros x y Hx%elem_of_seq Hy%elem_of_seq. apply slot_inj; lia. }
    assert (Hsub : list_to_set l ⊆ dom t).
    { intros k. rewrite elem_of_list_to_set. intros (d' & -> & Hd'%elem_of_seq)%list_elem_of_fmap.
      destruct (Hsk d') as (n & Hn & _); [lia|]. by apply elem_of_dom. }
    apply subseteq_size in Hsub. rewrite size_list_to_set, size_dom in Hsub by done.
    unfold l in Hsub. rewrite length_fmap, length_seq in Hsub. pose proof (ro_size _ _ Hok). lia.
  - cbn [probe]. rewrite (ro_get _ _ Hok). destruct (t !! slot name d) as [n|] eqn:Hn.
    + case_bool_decide as Heq.
      * subst n. exists d. split; [lia|]. split; [done|]. split; [done|]. by right.
      * rewrite slot_S. destruct (IH (S d)) as (e & He & Hp & Hse & Ht); [|lia|lia|].
        { intros d' Hd'. destruct (decide (d' = d)) as [->|]; [by exists n|]. apply Hsk. lia. }
        exists e. split; [lia|]. done.
    + exists d. split; [lia|]. split; [done|]. split; [done|]. by left.
Qed.

Lemma skipped_insert t k n name d :
  (t !! k = None \/ t !! k = Some n) -> skipped t name d -> skipped (<[k := n]> t) name d.
Proof.
  intros Hk Hs d' Hd'. destruct (Hs d' Hd') as (x & Hx & Hne). exists x. split; [|done].
  destruct (decide (k = slot name d')) as [->|]; [|by rewrite lookup_insert_ne].
  rewrite lookup_insert_eq. destruct Hk as [Hk|Hk]; congruence.
Qed.

Lemma register_ok r t name :
  reg_ok r t -> Z.of_nat (size r) + 1 < two64 ->
  exists id r', register r name = Some (id, r') /\ reg_ok r' (<[id := name]> t) /\
    (t !! id = None \/ t !! id = Some name) /\ size r' = S (size r).
Proof.
  intros Hok Hb. unfold register.
  destruct (probe_spec r t name (S (size r)) 0 Hok) as (e & He & Hp & Hse & Ht); [|lia|lia|].
  { intros d' Hd'. lia. }
  rewrite slot_0 in Hp. rewrite Hp. cbn. eexists _, _. split; [done|]. split; [|done].
  destruct Hok as [Hwf Hg Hsz Hr Hpl]. split; cbn.
  - by apply ks_set_wf.
  - intros k. rewrite ks_get_set by done. case_decide as Hk; [subst; by rewrite lookup_insert_eq|].
    by rewrite lookup_insert_ne.
  - rewrite map_size_insert. destruct (t !! slot name e); cbn; lia.
  - intros k n. rewrite lookup_insert_Some. intros [[<- _]|[_ ?]]; [unfold slot; apply u64_range|by eapply Hr].
  - intros k n. rewrite lookup_insert_Some. intros [[<- <-]|[Hne Hk]].
    + exists e. split; [lia|]. split; [done|]. by apply skipped_insert.
    + destruct (Hpl k n Hk) as (d & ? & -> & ?). exists d. split; [done|]. split; [done|]. by apply skipped_insert.
Qed.

(** A name has one id. *)
Lemma reg_unique r t k k' n : reg_ok r t -> t !! k = Some n -> t !! k' = Some n -> k = k'.
Proof.
  intros Hok Hk Hk'. destruct (ro_place _ _ Hok k n Hk) as (d & Hd & -> & Hs).
  destruct (ro_place _ _ Hok k' n Hk') as (d' & Hd' & -> & Hs').
  destruct (Nat.lt_trichotomy d d') as [Hlt|[->|Hlt]]; [|done|].
  - destruct (Hs' d Hlt) as (x & Hx & Hne). congruence.
  - destruct (Hs d' Hlt) as (x & Hx & Hne). congruence.
Qed.

#[local] Arguments register : simpl never.

Fixpoint register_all (r : registry) (names : list string) : option (list Z * registry) :=
  match names with
  | [] => Some ([], r)
  | name :: names =>
      '(id, r) ← register r name;
      '(ids, r) ← register_all r names;
      Some (id :: ids, r)
  end.

Lemma register_all_ok names r t :
  reg_ok r t -> Z.of_nat (size r + length names) < two64 ->
  exists ids r' t', register_all r names = Some (ids, r') /\ reg_ok r' t' /\ t ⊆ t' /\
    Forall2 (fun name id => t' !! id = Some name) names ids.
Proof.
  revert r t. induction names as [|name names IH]; intros r t Hok Hb; cbn.
  - by exists [], r, t.
  - cbn in Hb. destruct (register_ok r t name Hok) as (id & r1 & -> & Hok1 & Ht & Hsz); [lia|]. cbn.
    destruct (IH r1 (<[id := name]> t) Hok1) as (ids & r' & t' & -> & Hok' & Hsub & HF); [lia|]. cbn.
    exists (id :: ids), r', t'. split; [done|]. split; [done|]. split.
    + etransitivity; [|done]. destruct Ht as [Ht|Ht]; [by apply insert_subseteq|by rewrite insert_id].
    + constructor; [|done]. eapply lookup_weaken; [apply lookup_insert_eq|done].
Qed.

Lemma registry_new_ok : reg_ok registry_new ∅.
Proof.
  split; cbn.
  - apply ks_empty_wf.
  - intros. by rewrite ks_get_empty.
  - by rewrite map_size_empty.
  - set_solver.
  - set_solver.
Qed.

(** Registering any sequence of names (fewer than 2^64) in a fresh table, whatever
    collisions [std::hash] has, always finds an id; two registrations give the same id
    exactly when they register the same name, and the name is found back by its id. *)
Theorem registry_ids_unique (names : list string) :
  Z.of_nat (length names) < two64 ->
  exists ids r, register_all registry_new names = Some (ids, r) /\ length ids = length names /\
    forall i j n n' a b, names !! i = Some n -> names !! j = Some n' -> ids !! i = Some a -> ids !! j = Some b ->
      (a = b <-> n = n') /\ name_of r a = n.
Proof.
  intros Hb. destruct (register_all_ok names registry_new ∅) as (ids & r & t & Hr & Hok & _ & HF);
    [apply registry_new_ok|done|].
  exists ids, r. split; [done|]. split; [symmetry; by eapply Forall2_length|].
  intros i j n n' a b Hi Hj Ha Hbj.
  assert (Ht : t !! a = Some n) by by apply (Forall2_lookup_lr _ _ _ i n a HF).
  assert (Ht' : t !! b = Some n') by by apply (Forall2_lookup_lr _ _ _ j n' b HF).
  split.
  - split; [intros; congruence|]. intros <-. by eapply reg_unique.
  - unfold name_of. by rewrite (ro_get _ _ Hok), Ht.
Qed.
End GlobalData.

(** Every name hashes to the largest id, so the ids wrap around. *)
Lemma registry_ids_unique_witness :
  exists ids r, register_all (M := AtomicHashMap string) (fun _ => two64 - 1) registry_new ["a"; "b"; "a"; "c"] = Some (ids, r) /\
    ids = [two64 - 1; 0; two64 - 1; 1] /\ name_of r 0 = "b".
Proof.
  destruct (registry_ids_unique (M := AtomicHashMap string) (fun _ => two64 - 1)
              ltac:(intros; unfold two64; lia) ["a"; "b"; "a"; "c"] ltac:(reflexivity))
    as (ids & r & Hr & Hlen & Hall).
  exists ids, r. split; [exact Hr|].
  assert (He : ids = [two64 - 1; 0; two64 - 1; 1]).
  { apply (f_equal (fmap fst)) in Hr. vm_compute in Hr. injection Hr as <-. by vm_compute. }
  split; [exact He|]. subst ids.
  by destruct (Hall 1%nat 1%nat "b" "b" 0 0 eq_refl eq_refl eq_refl eq_refl).
Defined.
