(* ===== verification/Role.v ===== *)
(** * Roles: service_discovery/role, proto/role_attributes.proto

    The attributes a participant announces (a proto2 message: every field is optional and
    its getter returns the default when it is absent) and the roles kept by the discovery
    containers, with their matching of partial attributes. *)

From Stdlib Require Import ZArith Lia.
From stdpp Require Import base strings gmap list.
From S2P Require Import Prelude.

Inductive QosHistoryPolicy := HISTORY_SYSTEM_DEFAULT | HISTORY_KEEP_LAST | HISTORY_KEEP_ALL.
Inductive QosReliabilityPolicy :=
| RELIABILITY_SYSTEM_DEFAULT | RELIABILITY_RELIABLE | RELIABILITY_BEST_EFFORT.
Inductive QosDurabilityPolicy :=
| DURABILITY_SYSTEM_DEFAULT | DURABILITY_TRANSIENT_LOCAL | DURABILITY_VOLATILE.

Record QosProfile := mkQos {
  history : option QosHistoryPolicy;
  depth : option Z;
  mps : option Z;
  reliability : option QosReliabilityPolicy;
  durability : option QosDurabilityPolicy
}.

Record SocketAddr := mkAddr { ip : option string; port : option Z }.

Record RoleAttributes := mkAttr {
  host_name_ : option string;
  host_ip_ : option string;
  process_id_ : option Z;
  node_name_ : option string;
  node_id_ : option Z;
  channel_name_ : option string;
  channel_id_ : option Z;
  message_type_ : option string;
  proto_desc_ : option string;
  id_ : option Z;
  qos_profile_ : option QosProfile;
  socket_addr_ : option SocketAddr;
  service_name_ : option string;
  service_id_ : option Z
}.

#[export] Instance QosHistoryPolicy_eq : EqDecision QosHistoryPolicy.
Proof. solve_decision. Defined.
#[export] Instance QosReliabilityPolicy_eq : EqDecision QosReliabilityPolicy.
Proof. solve_decision. Defined.
#[export] Instance QosDurabilityPolicy_eq : EqDecision QosDurabilityPolicy.
Proof. solve_decision. Defined.
#[export] Instance QosProfile_eq : EqDecision QosProfile.
Proof. solve_decision. Defined.
#[export] Instance SocketAddr_eq : EqDecision SocketAddr.
Proof. solve_decision. Defined.
#[export] Instance RoleAttributes_eq : EqDecision RoleAttributes.
Proof. solve_decision. Defined.

(** The empty message. *)
Definition no_attr : RoleAttributes :=
  mkAttr None None None None None None None None None None None None None None.

(** Getters. *)
Definition host_name (a : RoleAttributes) : string := default "" (host_name_ a).
Definition process_id (a : RoleAttributes) : Z := default 0 (process_id_ a).
Definition node_name (a : RoleAttributes) : string := default "" (node_name_ a).
Definition node_id (a : RoleAttributes) : Z := default 0 (node_id_ a).
Definition channel_name (a : RoleAttributes) : string := default "" (channel_name_ a).
Definition channel_id (a : RoleAttributes) : Z := default 0 (channel_id_ a).
Definition message_type (a : RoleAttributes) : string := default "" (message_type_ a).
Definition proto_desc (a : RoleAttributes) : string := default "" (proto_desc_ a).
Definition id (a : RoleAttributes) : Z := default 0 (id_ a).
Definition service_id (a : RoleAttributes) : Z := default 0 (service_id_ a).

Definition has {A} (o : option A) : bool := if o is Some _ then true else false.

(** ** Roles

    [RoleNode] is [RoleBase], [RoleReader] is [RoleWriter], [RoleClient] is [RoleServer];
    [Match] is virtual. *)
Inductive RoleClass := RoleBase | RoleWriter | RoleServer.
#[export] Instance RoleClass_eq : EqDecision RoleClass.
Proof. solve_decision. Defined.

Record Role := mkRole { role_class : RoleClass; attributes : RoleAttributes; timestamp_ns : Z }.
#[export] Instance Role_eq : EqDecision Role.
Proof. solve_decision. Defined.

(** [target.has_f() && target.f() != attributes_.f()], negated. *)
Definition field_ok {A} `{EqDecision A} (target : option A) (dflt : A) (own : option A) : bool :=
  if target is Some v then bool_decide (v = default dflt own) else true.

Definition RoleBase_Match (r : Role) (target_attr : RoleAttributes) : bool :=
  if negb (field_ok (node_id_ target_attr) 0 (node_id_ (attributes r))) then false
  else if negb (field_ok (process_id_ target_attr) 0 (process_id_ (attributes r))) then false
  else if negb (field_ok (host_name_ target_attr) "" (host_name_ (attributes r))) then false
  else true.

Definition RoleWriter_Match (r : Role) (target_attr : RoleAttributes) : bool :=
  if negb (field_ok (channel_id_ target_attr) 0 (channel_id_ (attributes r))) then false
  else if negb (field_ok (id_ target_attr) 0 (id_ (attributes r))) then false
  else RoleBase_Match r target_attr.

Definition RoleServer_Match (r : Role) (target_attr : RoleAttributes) : bool :=
  if negb (field_ok (service_id_ target_attr) 0 (service_id_ (attributes r))) then false
  else RoleBase_Match r target_attr.

Definition Match (r : Role) (target_attr : RoleAttributes) : bool :=
  match role_class r with
  | RoleBase => RoleBase_Match r target_attr
  | RoleWriter => RoleWriter_Match r target_attr
  | RoleServer => RoleServer_Match r target_attr
  end.

Definition IsEarlierThan (r other : Role) : bool := timestamp_ns r <? timestamp_ns other.

(** A role matches its own attributes. *)
Lemma field_ok_refl {A} `{EqDecision A} (o : option A) d : field_ok o d o = true.
Proof. destruct o; simpl; [by rewrite bool_decide_true|done]. Qed.

Lemma Match_refl r : Match r (attributes r) = true.
Proof.
  unfold Match, RoleWriter_Match, RoleServer_Match, RoleBase_Match.
  by destruct (role_class r); rewrite !field_ok_refl.
Qed.

(** The attributes that name one process. *)
Definition process_attr (host : string) (pid : Z) : RoleAttributes :=
  mkAttr (Some host) None (Some pid) None None None None None None None None None None None.

Lemma Match_process r host pid :
  Match r (process_attr host pid) = bool_decide (process_id (attributes r) = pid) &&
                                    bool_decide (host_name (attributes r) = host).
Proof.
  assert (Hb : RoleBase_Match r (process_attr host pid) =
               bool_decide (process_id (attributes r) = pid) && bool_decide (host_name (attributes r) = host)).
  { unfold RoleBase_Match, process_id, host_name; simpl.
    repeat case_bool_decide; simpl; congruence. }
  unfold Match, RoleWriter_Match, RoleServer_Match; simpl. by destruct (role_class r).
Qed.
