(* ===== verification/Warehouse.v ===== *)
(** * Warehouses: service_discovery/container/warehouse_base.h

    The interface the managers keep their roles behind.  The contents of a warehouse are the
    (key, role) pairs in the iteration order of its hash table; the laws speak about them up
    to permutation, so that a client never depends on that order.  An output parameter is an
    [option], [None] being the null pointer. *)

From Stdlib Require Import ZArith Lia.
From stdpp Require Import base strings gmap list.
From S2P Require Import Prelude Role.

Abbreviation contents := (list (Z * Role)) (only parsing).

(** ** Loops over the table *)

(** [roles_.find(key)] *)
Fixpoint find (key : Z) (l : contents) : option Role :=
  match l with
  | [] => None
  | (k, r) :: l => if k =? key then Some r else find key l
  end.

(** The first role that matches. *)
Fixpoint first_match (target : RoleAttributes) (l : contents) : option Role :=
  match l with
  | [] => None
  | (_, r) :: l => if Match r target then Some r else first_match target l
  end.

(** The roles that match, in order. *)
Definition all_match (target : RoleAttributes) (l : contents) : list Role :=
  (filter (fun kr => Match kr.2 target = true) l).*2.

(** The roles of a key ([equal_range]). *)
Definition equal_range (key : Z) (l : contents) : list Role := (filter (fun kr => kr.1 = key) l).*2.

(** The elements left by an erasing loop. *)
Definition erase_if (P : Z * Role -> bool) (l : contents) : contents := filter (fun kr => P kr = false) l.

#[global] Arguments all_match : simpl never.
#[global] Arguments equal_range : simpl never.
#[global] Arguments erase_if : simpl never.

Definition key_is (key : Z) (kr : Z * Role) : bool := kr.1 =? key.
Definition entry_is (key : Z) (role : Role) (kr : Z * Role) : bool :=
  (kr.1 =? key) && Match kr.2 (attributes role).
Definition role_is (target : RoleAttributes) (kr : Z * Role) : bool := Match kr.2 target.

Lemma find_None key l : find key l = None <-> forall r, (key, r) ∉ l.
Proof.
  induction l as [|[k r] l IH]; simpl; [set_solver|].
  destruct (Z.eqb_spec k key) as [->|Hne].
  - split; [done|]. intros H. destruct (H r). set_solver.
  - rewrite IH. set_solver.
Qed.

Lemma find_Some key l r : find key l = Some r -> (key, r) ∈ l.
Proof.
  induction l as [|[k r'] l IH]; simpl; [done|].
  destruct (Z.eqb_spec k key) as [->|Hne]; [intros [= ->]; set_solver|]. intros. set_solver.
Qed.

Lemma find_unique key l r : NoDup l.*1 -> find key l = Some r <-> (key, r) ∈ l.
Proof.
  intros Hnd. split; [apply find_Some|]. intros Hin.
  destruct (find key l) as [r'|] eqn:Hf; [|by apply find_None with (r := r) in Hf].
  apply find_Some in Hf. f_equal.
  apply list_elem_of_lookup in Hin as [i Hi]. apply list_elem_of_lookup in Hf as [j Hj].
  assert (i = j) as ->; [|congruence].
  apply (NoDup_lookup l.*1 i j key); [done|by rewrite list_lookup_fmap, Hi|by rewrite list_lookup_fmap, Hj].
Qed.

Lemma first_match_None t l : first_match t l = None <-> all_match t l = [].
Proof.
  induction l as [|[k r] l IH]; [done|]. unfold all_match in *. cbn [first_match].
  destruct (Match r t) eqn:HM.
  - rewrite filter_cons, decide_True by done. done.
  - rewrite filter_cons, decide_False by (simpl; congruence). done.
Qed.

Lemma first_match_Some t l r :
  first_match t l = Some r -> Match r t = true /\ exists k, (k, r) ∈ l.
Proof.
  induction l as [|[k r'] l IH]; cbn [first_match]; [done|].
  destruct (Match r' t) eqn:HM; [intros [= ->]; split; [done|]; exists k; set_solver|].
  intros [? [k' ?]]%IH. split; [done|]. exists k'. set_solver.
Qed.

Lemma erase_if_cons P kr l :
  erase_if P (kr :: l) = if P kr then erase_if P l else kr :: erase_if P l.
Proof.
  unfold erase_if. rewrite filter_cons.
  destruct (P kr); [by rewrite decide_False by done|by rewrite decide_True by done].
Qed.

Lemma equal_range_cons key k r l :
  equal_range key ((k, r) :: l) = if k =? key then r :: equal_range key l else equal_range key l.
Proof.
  unfold equal_range. rewrite filter_cons.
  destruct (Z.eqb_spec k key); [by rewrite decide_True by done|by rewrite decide_False by done].
Qed.

Lemma elem_of_erase_if P l kr : kr ∈ erase_if P l <-> P kr = false /\ kr ∈ l.
Proof. unfold erase_if. by rewrite list_elem_of_filter. Qed.

Lemma erase_if_keys P l : NoDup l.*1 -> NoDup (erase_if P l).*1.
Proof.
  intros. eapply sublist_NoDup; [done|]. apply fmap_sublist, sublist_filter.
Qed.

#[export] Instance erase_if_perm P : Proper ((≡ₚ) ==> (≡ₚ)) (erase_if P).
Proof. intros l l' H. unfold erase_if. by rewrite H. Qed.

Lemma elem_of_equal_range key l r : r ∈ equal_range key l <-> (key, r) ∈ l.
Proof.
  unfold equal_range. rewrite list_elem_of_fmap. setoid_rewrite list_elem_of_filter. split.
  - intros ([k r'] & -> & [Hk ?]). simpl in *. by subst.
  - intros. by exists (key, r).
Qed.

Lemma elem_of_all_match t l r : r ∈ all_match t l <-> Match r t = true /\ exists k, (k, r) ∈ l.
Proof.
  unfold all_match. rewrite list_elem_of_fmap. setoid_rewrite list_elem_of_filter. split.
  - intros ([k r'] & -> & [? ?]). eauto.
  - intros [? [k ?]]. by exists (k, r).
Qed.

(** ** The interface *)
Class WarehouseBase (W : Type) := {
  roles_ : W -> contents;
  wh_ok : W -> Prop;
  (** whether adding a role replaces the one of the same key *)
  wh_replaces : bool;
  wh_new : W;
  wh_Add : W -> Z -> Role -> bool -> bool * W;
  wh_Clear : W -> W;
  wh_Remove : W -> Z -> W;
  wh_Remove_role : W -> Z -> Role -> W;
  wh_Remove_attr : W -> RoleAttributes -> W;
  wh_Search : W -> Z -> bool;
  wh_Search_role : W -> Z -> option (option Role) -> bool * option (option Role);
  wh_Search_attrs : W -> Z -> option (list RoleAttributes) -> bool * option (list RoleAttributes);
  wh_Match_roles : W -> RoleAttributes -> option (list Role) -> bool * option (list Role);
  wh_GetAllRoles : W -> option (list Role) -> option (list Role);
  wh_GetAllAttrs : W -> option (list RoleAttributes) -> option (list RoleAttributes);

  wh_new_ok : wh_ok wh_new;
  wh_new_roles : roles_ wh_new = [];
  wh_Add_law : forall w k r b, wh_ok w ->
    let '(ok, w') := wh_Add w k r b in
    wh_ok w' /\
    if negb b && bool_decide (find k (roles_ w) <> None) then ok = false /\ w' = w
    else ok = true /\
         roles_ w' ≡ₚ (k, r) :: (if wh_replaces then erase_if (key_is k) (roles_ w) else roles_ w);
  wh_Clear_law : forall w, wh_ok (wh_Clear w) /\ roles_ (wh_Clear w) = [];
  wh_Remove_law : forall w k, wh_ok w ->
    wh_ok (wh_Remove w k) /\ roles_ (wh_Remove w k) = erase_if (key_is k) (roles_ w);
  wh_Remove_role_law : forall w k r, wh_ok w ->
    wh_ok (wh_Remove_role w k r) /\ roles_ (wh_Remove_role w k r) = erase_if (entry_is k r) (roles_ w);
  wh_Remove_attr_law : forall w t, wh_ok w ->
    wh_ok (wh_Remove_attr w t) /\ roles_ (wh_Remove_attr w t) = erase_if (role_is t) (roles_ w);
  wh_Search_law : forall w k, wh_Search w k = bool_decide (find k (roles_ w) <> None);
  wh_Search_role_law : forall w k out,
    wh_Search_role w k (Some out) =
      if find k (roles_ w) is Some r then (true, Some (Some r)) else (false, Some out);
  wh_Search_attrs_law : forall w k out, wh_ok w ->
    wh_Search_attrs w k (Some out) =
      (bool_decide (find k (roles_ w) <> None), Some (out ++ (attributes <$> equal_range k (roles_ w))));
  wh_Match_roles_law : forall w t out,
    wh_Match_roles w t (Some out) =
      (bool_decide (all_match t (roles_ w) <> []), Some (out ++ all_match t (roles_ w)));
  wh_GetAllRoles_law : forall w out, wh_GetAllRoles w (Some out) = Some (out ++ (roles_ w).*2);
  wh_GetAllAttrs_law : forall w out, wh_GetAllAttrs w (Some out) = Some (out ++ (attributes <$> (roles_ w).*2))
}.

(** ** The searching and listing code the two warehouses share

    A loop with a flag that appends what it finds to the output vector. *)
Definition append_all {A B} (f : A -> B) (found : list A) (out : list B) : bool * list B :=
  foldl (fun st x => (true, st.2 ++ [f x])) (false, out) found.

Lemma append_all_spec {A B} (f : A -> B) found out :
  append_all f found out = (bool_decide (found <> []), out ++ (f <$> found)).
Proof.
  unfold append_all.
  assert (H : forall b, foldl (fun (st : bool * list B) x => (true, st.2 ++ [f x])) (b, out) found =
                        (b || bool_decide (found <> []), out ++ (f <$> found))).
  { revert out. induction found as [|x found IH]; intros out b; simpl.
    - by rewrite orb_false_r, app_nil_r.
    - rewrite IH. f_equal; [by destruct b|]. by rewrite <- app_assoc. }
  by rewrite H.
Qed.

Lemma find_equal_range k l : find k l = None <-> equal_range k l = [].
Proof.
  rewrite find_None. split.
  - intros H. destruct (equal_range k l) as [|r t] eqn:He; [done|].
    destruct (H r). apply elem_of_equal_range. rewrite He. set_solver.
  - intros H r. rewrite <- elem_of_equal_range, H. set_solver.
Qed.
