(* ===== verification/SingleValueWarehouse.v ===== *)
(** * SingleValueWarehouse: service_discovery/container/single_value_warehouse.cc

    One role per key ([std::unordered_map]).  The table is its list of entries in iteration
    order; a new key may rearrange it. *)

From Stdlib Require Import ZArith Lia.
From stdpp Require Import base strings gmap list.
From S2P Require Import Prelude Role Warehouse.

Section SingleValueWarehouse.
Context `{HashOrder}.

Record SingleValueWarehouse := mkSingle { table : list (Z * Role) }.
Abbreviation W := SingleValueWarehouse (only parsing).

(** [roles_[key] = role] *)
Definition assign (key : Z) (role : Role) (l : list (Z * Role)) : list (Z * Role) :=
  match find key l with
  | Some _ => (fun kr => if kr.1 =? key then (key, role) else kr) <$> l
  | None => rehash ((key, role) :: l)
  end.

Definition Add (w : W) (key : Z) (role : Role) (ignore_if_exist : bool) : bool * W :=
  if negb ignore_if_exist && bool_decide (find key (table w) <> None) then (false, w)
  else (true, mkSingle (assign key role (table w))).

Definition Clear (w : W) : W := mkSingle [].

Definition Size (w : W) : nat := length (table w).

Definition Remove (w : W) (key : Z) : W := mkSingle (erase_if (key_is key) (table w)).

Definition Remove_role (w : W) (key : Z) (role : Role) : W :=
  match find key (table w) with
  | None => w
  | Some r => if negb (Match r (attributes role)) then w
              else mkSingle (erase_if (key_is key) (table w))
  end.

Definition Remove_attr (w : W) (target_attr : RoleAttributes) : W :=
  mkSingle (erase_if (role_is target_attr) (table w)).

(** [Search(key, RolePtr * )] *)
Definition Search_role (w : W) (key : Z) (first_matched_role : option (option Role))
    : bool * option (option Role) :=
  match first_matched_role with
  | None => (false, None)
  | Some out =>
      match find key (table w) with
      | None => (false, Some out)
      | Some r => (true, Some (Some r))
      end
  end.

Definition Search (w : W) (key : Z) : bool := (Search_role w key (Some None)).1.

(** [Search(key, RoleAttributes * )] *)
Definition Search_attr (w : W) (key : Z) (first_matched_role_attr : option RoleAttributes)
    : bool * option RoleAttributes :=
  match first_matched_role_attr with
  | None => (false, None)
  | Some out =>
      match Search_role w key (Some None) with
      | (true, Some (Some role)) => (true, Some (attributes role))
      | _ => (false, Some out)
      end
  end.

(** [Search(key, vector<RolePtr> * )] *)
Definition Search_roles (w : W) (key : Z) (matched_roles : option (list Role))
    : bool * option (list Role) :=
  match matched_roles with
  | None => (false, None)
  | Some out =>
      match Search_role w key (Some None) with
      | (true, Some (Some role)) => (true, Some (out ++ [role]))
      | _ => (false, Some out)
      end
  end.

(** [Search(key, vector<RoleAttributes> * )] *)
Definition Search_attrs (w : W) (key : Z) (matched_roles_attr : option (list RoleAttributes))
    : bool * option (list RoleAttributes) :=
  match matched_roles_attr with
  | None => (false, None)
  | Some out =>
      match Search_role w key (Some None) with
      | (true, Some (Some role)) => (true, Some (out ++ [attributes role]))
      | _ => (false, Some out)
      end
  end.

(** [Search(target_attr, RolePtr * )] *)
Definition Match_role (w : W) (target_attr : RoleAttributes) (first_matched_role : option (option Role))
    : bool * option (option Role) :=
  match first_matched_role with
  | None => (false, None)
  | Some out =>
      match first_match target_attr (table w) with
      | Some r => (true, Some (Some r))
      | None => (false, Some out)
      end
  end.

(** [Search(target_attr)] *)
Definition Match_any (w : W) (target_attr : RoleAttributes) : bool :=
  (Match_role w target_attr (Some None)).1.

(** [Search(target_attr, RoleAttributes * )] *)
Definition Match_attr (w : W) (target_attr : RoleAttributes) (first_matched_role_attr : option RoleAttributes)
    : bool * option RoleAttributes :=
  match first_matched_role_attr with
  | None => (false, None)
  | Some out =>
      match Match_role w target_attr (Some None) with
      | (true, Some (Some role)) => (true, Some (attributes role))
      | _ => (false, Some out)
      end
  end.

(** [Search(target_attr, vector<RolePtr> * )] *)
Definition Match_roles (w : W) (target_attr : RoleAttributes) (matched_roles : option (list Role))
    : bool * option (list Role) :=
  match matched_roles with
  | None => (false, None)
  | Some out => let r := append_all (fun x => x) (all_match target_attr (table w)) out in (r.1, Some r.2)
  end.

(** [Search(target_attr, vector<RoleAttributes> * )] *)
Definition Match_attrs (w : W) (target_attr : RoleAttributes) (matched_roles_attr : option (list RoleAttributes))
    : bool * option (list RoleAttributes) :=
  match matched_roles_attr with
  | None => (false, None)
  | Some out => let r := append_all attributes (all_match target_attr (table w)) out in (r.1, Some r.2)
  end.

Definition GetAllRoles (w : W) (roles : option (list Role)) : option (list Role) :=
  (fun out => (append_all (fun kr => kr.2) (table w) out).2) <$> roles.

Definition GetAllAttrs (w : W) (roles_attr : option (list RoleAttributes)) : option (list RoleAttributes) :=
  (fun out => (append_all (fun kr => attributes kr.2) (table w) out).2) <$> roles_attr.

(** ** Keys are unique *)
Definition single_ok (w : W) : Prop := NoDup (table w).*1.

(** The finite map the table stands for. *)
Definition as_map (w : W) : gmap Z Role := list_to_map (table w).

Lemma find_as_map w key : single_ok w -> as_map w !! key = find key (table w).
Proof.
  intros Hok. destruct (find key (table w)) as [r|] eqn:Hf.
  - apply elem_of_list_to_map; [done|]. by apply find_Some.
  - apply not_elem_of_list_to_map. rewrite list_elem_of_fmap. intros ([k r] & -> & ?).
    by apply find_None with (r := r) in Hf.
Qed.

Lemma replaced_none key role l :
  find key l = None ->
  (fun kr => if kr.1 =? key then (key, role) else kr) <$> l = l /\ erase_if (key_is key) l = l.
Proof.
  induction l as [|[k r] l IH]; [done|]. rewrite erase_if_cons. unfold key_is at 1; cbn.
  destruct (k =? key); [done|]. intros [He1 He2]%IH. by rewrite He1, He2.
Qed.

Lemma replaced_perm key role l r :
  NoDup l.*1 -> find key l = Some r ->
  (fun kr => if kr.1 =? key then (key, role) else kr) <$> l ≡ₚ (key, role) :: erase_if (key_is key) l.
Proof.
  induction l as [|[k r'] l IH]; [done|]. rewrite fmap_cons. intros [Hni Hnd]%NoDup_cons.
  rewrite erase_if_cons. unfold key_is at 1; cbn. destruct (Z.eqb_spec k key) as [->|Hne].
  - intros _. destruct (replaced_none key role l) as [He1 He2]; [|by rewrite He1, He2].
    apply find_None. intros r'' Hin. apply Hni. by apply (list_elem_of_fmap_2 fst _ _ Hin).
  - intros Hf. rewrite IH by done. apply Permutation_swap.
Qed.

Lemma assign_perm key role l :
  NoDup l.*1 -> assign key role l ≡ₚ (key, role) :: erase_if (key_is key) l.
Proof.
  intros Hnd. unfold assign. destruct (find key l) as [r|] eqn:Hf; [by eapply replaced_perm|].
  rewrite rehash_perm. by rewrite (proj2 (replaced_none key role l Hf)).
Qed.

Lemma assign_ok key role l : NoDup l.*1 -> NoDup (assign key role l).*1.
Proof.
  intros Hnd. rewrite assign_perm by done. apply NoDup_cons. split; [|by apply erase_if_keys].
  intros Hin. apply list_elem_of_fmap in Hin as ([k r] & Hk & [Hf _]%elem_of_erase_if). simpl in *. subst.
  unfold key_is in Hf; simpl in Hf. by rewrite Z.eqb_refl in Hf.
Qed.

Lemma single_range k w :
  single_ok w -> equal_range k (table w) = option_list (find k (table w)).
Proof.
  unfold single_ok. destruct w as [l]; cbn.
  induction l as [|[k' r] l IH]; [done|]. rewrite fmap_cons. intros [Hni Hnd]%NoDup_cons.
  rewrite equal_range_cons; cbn. destruct (Z.eqb_spec k' k) as [->|Hne]; [|by apply IH].
  simpl. f_equal. apply find_equal_range, find_None. intros r' Hin.
  apply Hni. by apply (list_elem_of_fmap_2 fst _ _ Hin).
Qed.

(** Erasing by (key, role) is a loop over at most one entry. *)
Lemma Remove_role_erase w k r :
  single_ok w -> table (Remove_role w k r) = erase_if (entry_is k r) (table w).
Proof.
  unfold single_ok, Remove_role. destruct w as [l]; cbn.
  induction l as [|[k' r'] l IH]; [done|]. rewrite fmap_cons. intros [Hni Hnd]%NoDup_cons. cbn [find].
  rewrite !erase_if_cons. unfold entry_is at 1, key_is at 1; cbn.
  destruct (Z.eqb_spec k' k) as [->|Hne]; cbn.
  - assert (Hno : find k l = None).
    { apply find_None. intros r'' Hin. apply Hni. by apply (list_elem_of_fmap_2 fst _ _ Hin). }
    assert (He : erase_if (entry_is k r) l = l).
    { clear -Hno. induction l as [|[k' r'] l IH]; [done|]. revert Hno. cbn.
      rewrite erase_if_cons. unfold entry_is at 1; cbn. destruct (k' =? k); [done|]. intros. by rewrite IH. }
    rewrite He, (proj2 (replaced_none k r l Hno)). by destruct (Match r' (attributes r)).
  - specialize (IH Hnd). destruct (find k l) as [x|]; cbn in *; [|by rewrite <- IH].
    destruct (Match x (attributes r)); cbn in *; by rewrite <- IH.
Qed.

#[export] Instance SingleValueWarehouse_base : WarehouseBase SingleValueWarehouse.
Proof.
  refine {| roles_ := table; wh_ok := single_ok; wh_replaces := true; wh_new := mkSingle [];
            wh_Add := Add; wh_Clear := Clear; wh_Remove := Remove; wh_Remove_role := Remove_role;
            wh_Remove_attr := Remove_attr; wh_Search := Search; wh_Search_role := Search_role;
            wh_Search_attrs := Search_attrs; wh_Match_roles := Match_roles;
            wh_GetAllRoles := GetAllRoles; wh_GetAllAttrs := GetAllAttrs |}.
  - constructor.
  - done.
  - intros w k r b Hok. unfold Add. destruct (negb b && _); cbn; [done|].
    split; [by apply assign_ok|]. split; [done|]. by apply assign_perm.
  - intros w. split; [constructor|done].
  - intros w k Hok. split; [by apply erase_if_keys|done].
  - intros w k r Hok. split; [|by apply Remove_role_erase].
    unfold single_ok. rewrite Remove_role_erase by done. by apply erase_if_keys.
  - intros w t Hok. split; [by apply erase_if_keys|done].
  - intros w k. unfold Search, Search_role. by destruct (find k (table w)).
  - intros w k out. unfold Search_role. by destruct (find k (table w)).
  - intros w k out Hok. unfold Search_attrs, Search_role. rewrite single_range by done.
    destruct (find k (table w)); cbn; [done|]. by rewrite app_nil_r.
  - intros w t out. unfold Match_roles. by rewrite append_all_spec, list_fmap_id.
  - intros w out. unfold GetAllRoles. cbn. by rewrite append_all_spec.
  - intros w out. unfold GetAllAttrs. cbn. rewrite append_all_spec. cbn. by rewrite <- list_fmap_compose.
Defined.

(** ** Refinement of a finite map *)
Lemma as_map_Some w j x : single_ok w -> as_map w !! j = Some x <-> (j, x) ∈ table w.
Proof. intros. rewrite find_as_map by done. by apply find_unique. Qed.

Lemma as_map_Add w k r b :
  single_ok w ->
  as_map (Add w k r b).2 =
    if negb b && bool_decide (is_Some (as_map w !! k)) then as_map w else <[k := r]> (as_map w).
Proof.
  intros Hok. rewrite find_as_map by done. unfold Add.
  rewrite (bool_decide_ext (find k (table w) <> None) (is_Some (find k (table w))))
    by apply not_eq_None_Some.
  destruct (negb b && _); cbn [snd]; [done|]. apply map_eq. intros j. apply option_eq. intros x.
  rewrite as_map_Some by by apply assign_ok. cbn [table]. rewrite assign_perm by done.
  rewrite elem_of_cons, elem_of_erase_if, lookup_insert_Some, as_map_Some by done.
  unfold key_is; cbn. rewrite Z.eqb_neq. naive_solver.
Qed.

Lemma as_map_erase w w' P :
  single_ok w -> table w' = erase_if P (table w) ->
  as_map w' = filter (fun kr => P kr = false) (as_map w).
Proof.
  intros Hok He. apply map_eq. intros j. apply option_eq. intros x.
  rewrite as_map_Some by (unfold single_ok; rewrite He; by apply erase_if_keys).
  rewrite He, elem_of_erase_if, map_lookup_filter_Some, as_map_Some by done. tauto.
Qed.

(** A SingleValueWarehouse whose keys are unique (every operation keeps them so) is a
    finite map: Add inserts, or refuses a present key when told not to ignore it; the three
    Removes delete the key, the key if its role matches, and all matching roles; Search
    is lookup and Size the number of keys, whatever order the hash table iterates in. *)
Theorem single_warehouse_refines_map (w : SingleValueWarehouse) (k : Z) (r : Role) (t : RoleAttributes) (b : bool) :
  single_ok w ->
  (single_ok (Add w k r b).2 /\ single_ok (Remove w k) /\
   single_ok (Remove_role w k r) /\ single_ok (Remove_attr w t)) /\
  (Add w k r b).1 = b || bool_decide (as_map w !! k = None) /\
  as_map (Add w k r b).2 =
    (if negb b && bool_decide (is_Some (as_map w !! k)) then as_map w else <[k := r]> (as_map w)) /\
  as_map (Remove w k) = delete k (as_map w) /\
  as_map (Remove_role w k r) =
    (if as_map w !! k is Some x then if Match x (attributes r) then delete k (as_map w) else as_map w
     else as_map w) /\
  as_map (Remove_attr w t) = filter (fun kx => Match kx.2 t = false) (as_map w) /\
  Search w k = bool_decide (is_Some (as_map w !! k)) /\
  Search_roles w k (Some []) = (Search w k, Some (option_list (as_map w !! k))) /\
  Size w = size (as_map w).
Proof.
  intros Hok.
  assert (Hkey : as_map (Remove w k) = delete k (as_map w)).
  { rewrite (as_map_erase w _ (key_is k)) by done. apply map_eq. intros j. apply option_eq. intros x.
    rewrite map_lookup_filter_Some, lookup_delete_Some. unfold key_is; cbn. rewrite Z.eqb_neq. naive_solver. }
  split.
  { pose proof (wh_Add_law w k r b Hok) as HA. cbn in HA. destruct (Add w k r b). destruct HA as [HA _].
    split; [done|]. split; [exact (proj1 (wh_Remove_law w k Hok))|].
    split; [exact (proj1 (wh_Remove_role_law w k r Hok))|exact (proj1 (wh_Remove_attr_law w t Hok))]. }
  rewrite as_map_Add, Hkey, (as_map_erase w (Remove_attr w t) (role_is t)) by done.
  split.
  { rewrite find_as_map by done. unfold Add. by destruct b; destruct (find k (table w)). }
  do 2 (split; [done|]). split.
  { rewrite find_as_map by done. unfold Remove_role. destruct (find k (table w)) as [x|]; [|done].
    destruct (Match x (attributes r)); [|done]. exact Hkey. }
  split; [done|].
  assert (Hs : Search w k = bool_decide (is_Some (as_map w !! k))).
  { rewrite find_as_map by done. unfold Search, Search_role. by destruct (find k (table w)). }
  split; [done|]. split.
  - unfold Search_roles. rewrite Hs, find_as_map by done. unfold Search_role.
    by destruct (find k (table w)).
  - unfold Size, as_map. by rewrite map_size_list_to_map.
Qed.
End SingleValueWarehouse.

(** Two nodes: one with two keys is refused, another removed by its process. *)
Definition node_role (pid nid : Z) : Role :=
  mkRole RoleBase (mkAttr (Some "host") None (Some pid) None (Some nid) None None None None None None None None None) 7.

Lemma single_warehouse_refines_map_witness :
  let w := (@Add recent_first (mkSingle [(1, node_role 10 1)]) 2 (node_role 20 2) false).2 in
  single_ok w /\ (@Add recent_first w 1 (node_role 30 1) false).1 = false /\
  as_map (Remove_attr w (process_attr "host" 10)) =
    filter (fun kx : Z * Role => Match kx.2 (process_attr "host" 10) = false) (as_map w) /\
  Size (Remove_attr w (process_attr "host" 10)) = 1%nat.
Proof.
  assert (Hok : single_ok (@Add recent_first (mkSingle [(1, node_role 10 1)]) 2 (node_role 20 2) false).2).
  { unfold single_ok. apply (bool_decide_unpack _). by vm_compute. }
  cbv zeta. split; [exact Hok|]. split; [by vm_compute|]. split; [|by vm_compute].
  pose proof (@single_warehouse_refines_map recent_first _ 1 (node_role 30 1) (process_attr "host" 10) false Hok)
    as (_ & _ & _ & _ & _ & Hr & _).
  exact Hr.
Defined.
