(* ===== verification/MultiValueWarehouse.v ===== *)
(** * MultiValueWarehouse: service_discovery/container/multi_value_warehouse.cc

    Several roles per key ([std::unordered_multimap]); adding never replaces. *)

From Stdlib Require Import ZArith Lia.
From stdpp Require Import base strings gmap list.
From S2P Require Import Prelude Role Warehouse.

Section MultiValueWarehouse.
Context `{HashOrder}.

Record MultiValueWarehouse := mkMulti { table : list (Z * Role) }.
Abbreviation W := MultiValueWarehouse (only parsing).

Definition Add (w : W) (key : Z) (role : Role) (ignore_if_exist : bool) : bool * W :=
  if negb ignore_if_exist && bool_decide (find key (table w) <> None) then (false, w)
  else (true, mkMulti (rehash ((key, role) :: table w))).

Definition Clear (w : W) : W := mkMulti [].

Definition Size (w : W) : nat := length (table w).

Definition Remove (w : W) (key : Z) : W := mkMulti (erase_if (key_is key) (table w)).

(** The loop over [equal_range(key)]. *)
Definition Remove_role (w : W) (key : Z) (role : Role) : W :=
  mkMulti (erase_if (entry_is key role) (table w)).

Definition Remove_attr (w : W) (target_attr : RoleAttributes) : W :=
  mkMulti (erase_if (role_is target_attr) (table w)).

(** [Search(key, RolePtr * )] *)
Definition Search_role (w : W) (key : Z) (first_matched_role : option (option Role))
    : bool * option (option Role) :=
  match first_matched_role with
  | None => (false, None)
  | Some out =>
      match find key (table w) with
      | None => (false, Some out)
      | Some r => (true, Some (Some r))
      end
  end.

Definition Search (w : W) (key : Z) : bool := (Search_role w key (Some None)).1.

(** [Search(key, RoleAttributes * )] *)
Definition Search_attr (w : W) (key : Z) (first_matched_role_attr : option RoleAttributes)
    : bool * option RoleAttributes :=
  match first_matched_role_attr with
  | None => (false, None)
  | Some out =>
      match Search_role w key (Some None) with
      | (true, Some (Some role)) => (true, Some (attributes role))
      | _ => (false, Some out)
      end
  end.

(** [Search(key, vector<RolePtr> * )] *)
Definition Search_roles (w : W) (key : Z) (matched_roles : option (list Role))
    : bool * option (list Role) :=
  match matched_roles with
  | None => (false, None)
  | Some out => let r := append_all (fun x => x) (equal_range key (table w)) out in (r.1, Some r.2)
  end.

(** [Search(key, vector<RoleAttributes> * )] *)
Definition Search_attrs (w : W) (key : Z) (matched_roles_attr : option (list RoleAttributes))
    : bool * option (list RoleAttributes) :=
  match matched_roles_attr with
  | None => (false, None)
  | Some out => let r := append_all attributes (equal_range key (table w)) out in (r.1, Some r.2)
  end.

(** [Search(target_attr, RolePtr * )] *)
Definition Match_role (w : W) (target_attr : RoleAttributes) (first_matched_role : option (option Role))
    : bool * option (option Role) :=
  match first_matched_role with
  | None => (false, None)
  | Some out =>
      match first_match target_attr (table w) with
      | Some r => (true, Some (Some r))
      | None => (false, Some out)
      end
  end.

(** [Search(target_attr)] *)
Definition Match_any (w : W) (target_attr : RoleAttributes) : bool :=
  (Match_role w target_attr (Some None)).1.

(** [Search(target_attr, RoleAttributes * )] *)
Definition Match_attr (w : W) (target_attr : RoleAttributes) (first_matched_role_attr : option RoleAttributes)
    : bool * option RoleAttributes :=
  match first_matched_role_attr with
  | None => (false, None)
  | Some out =>
      match Match_role w target_attr (Some None) with
      | (true, Some (Some role)) => (true, Some (attributes role))
      | _ => (false, Some out)
      end
  end.

(** [Search(target_attr, vector<RolePtr> * )] *)
Definition Match_roles (w : W) (target_attr : RoleAttributes) (matched_roles : option (list Role))
    : bool * option (list Role) :=
  match matched_roles with
  | None => (false, None)
  | Some out => let r := append_all (fun x => x) (all_match target_attr (table w)) out in (r.1, Some r.2)
  end.

(** [Search(target_attr, vector<RoleAttributes> * )] *)
Definition Match_attrs (w : W) (target_attr : RoleAttributes) (matched_roles_attr : option (list RoleAttributes))
    : bool * option (list RoleAttributes) :=
  match matched_roles_attr with
  | None => (false, None)
  | Some out => let r := append_all attributes (all_match target_attr (table w)) out in (r.1, Some r.2)
  end.

Definition GetAllRoles (w : W) (roles : option (list Role)) : option (list Role) :=
  (fun out => (append_all (fun kr => kr.2) (table w) out).2) <$> roles.

Definition GetAllAttrs (w : W) (roles_attr : option (list RoleAttributes)) : option (list RoleAttributes) :=
  (fun out => (append_all (fun kr => attributes kr.2) (table w) out).2) <$> roles_attr.

#[export] Instance MultiValueWarehouse_base : WarehouseBase MultiValueWarehouse.
Proof.
  refine {| roles_ := table; wh_ok := fun _ => True; wh_replaces := false; wh_new := mkMulti [];
            wh_Add := Add; wh_Clear := Clear; wh_Remove := Remove; wh_Remove_role := Remove_role;
            wh_Remove_attr := Remove_attr; wh_Search := Search; wh_Search_role := Search_role;
            wh_Search_attrs := Search_attrs; wh_Match_roles := Match_roles;
            wh_GetAllRoles := GetAllRoles; wh_GetAllAttrs := GetAllAttrs |}; try done.
  - intros w k r b _. unfold Add. destruct (negb b && _); cbn; [done|].
    split; [done|]. split; [done|]. by rewrite rehash_perm.
  - intros w k. unfold Search, Search_role. by destruct (find k (table w)).
  - intros w k out _. unfold Search_attrs. rewrite append_all_spec. cbn. f_equal.
    apply bool_decide_ext. by rewrite find_equal_range.
  - intros w t out. unfold Match_roles. by rewrite append_all_spec, list_fmap_id.
  - intros w out. unfold GetAllRoles. cbn. by rewrite append_all_spec.
  - intros w out. unfold GetAllAttrs. cbn. rewrite append_all_spec. cbn. by rewrite <- list_fmap_compose.
Defined.

(** A MultiValueWarehouse is a multiset of (key, role) pairs: an ignoring Add adds one
    entry and leaves the others alone; removing the (key, role) just added removes it and
    every older entry of that key whose role matches its attributes, and nothing else;
    searching a key or attributes lists exactly the entries that have or match them. *)
Theorem multi_warehouse_multiset (w : MultiValueWarehouse) (k : Z) (r : Role) (t : RoleAttributes) :
  let w1 := (Add w k r true).2 in
  (Add w k r true).1 = true /\ table w1 ≡ₚ (k, r) :: table w /\ Size w1 = S (Size w) /\
  (Search w k = true -> Add w k r false = (false, w)) /\
  (forall j x, (j, x) ∈ table (Remove_role w1 k r) <->
     (j, x) ∈ table w /\ ~ (j = k /\ Match x (attributes r) = true)) /\
  (forall x, x ∈ default [] (Search_roles w k (Some [])).2 <-> (k, x) ∈ table w) /\
  (forall x, x ∈ default [] (Match_roles w t (Some [])).2 <-> Match x t = true /\ exists j, (j, x) ∈ table w) /\
  Search w k = (Search_roles w k (Some [])).1 /\ Match_any w t = (Match_roles w t (Some [])).1.
Proof.
  cbv zeta.
  assert (Ha : table (Add w k r true).2 ≡ₚ (k, r) :: table w) by (cbn; apply rehash_perm).
  split; [done|]. split; [done|]. split; [unfold Size; by rewrite Ha|]. split.
  { unfold Search, Search_role, Add. by destruct (find k (table w)). }
  split.
  { intros j x. unfold Remove_role. cbn [table]. rewrite elem_of_erase_if. rewrite Ha.
    unfold entry_is; cbn. rewrite elem_of_cons, andb_false_iff, Z.eqb_neq.
    split.
    - intros [Hne [[= -> ->]|Hin]].
      + rewrite Match_refl in Hne. by destruct Hne.
      + split; [done|]. intros [-> HM]. destruct Hne; congruence.
    - intros [Hin Hne]. split; [|by right]. destruct (Match x (attributes r)); [left|by right].
      intros ->. by apply Hne. }
  unfold Search_roles, Match_roles. rewrite !append_all_spec, !list_fmap_id. cbn.
  split; [intros; apply elem_of_equal_range|]. split; [intros; apply elem_of_all_match|]. split.
  - unfold Search, Search_role. pose proof (find_equal_range k (table w)).
    destruct (find k (table w)); destruct (equal_range k (table w)); first [done | exfalso; naive_solver].
  - unfold Match_any, Match_role. pose proof (first_match_None t (table w)).
    destruct (first_match t (table w)); destruct (all_match t (table w)); first [done | exfalso; naive_solver].
Qed.
End MultiValueWarehouse.
