(* ===== verification/Graph.v ===== *)
(** * The node graph: service_discovery/container/graph.h, graph.cc

    Which node writes to and reads from which channel, kept twice: per channel ([edges_])
    and as an adjacency list of the complete edges writer -> reader ([list_]), on which the
    flow direction between two nodes is found by a breadth-first search.  The specification
    is the relation "some channel is written by a and read by b". *)

From Stdlib Require Import ZArith Lia.
From stdpp Require Import base strings gmap sets relations list.
From S2P Require Import Prelude.

Record Vertice := mkVertice { v_value : string }.
#[export] Instance Vertice_eq_dec : EqDecision Vertice.
Proof. solve_decision. Defined.

Definition IsDummy (v : Vertice) : bool := bool_decide (v_value v = "").
Definition GetKey (v : Vertice) : string := v_value v.

Record Edge := mkEdge { src : Vertice; dst : Vertice; e_value : string }.
#[export] Instance Edge_eq_dec : EqDecision Edge.
Proof. solve_decision. Defined.

Definition IsValid (e : Edge) : bool :=
  if bool_decide (e_value e = "") then false
  else if IsDummy (src e) && IsDummy (dst e) then false
  else true.

Definition edge_key (v d : string) : string := v +:+ "_" +:+ d.
Definition Edge_GetKey (e : Edge) : string := edge_key (e_value e) (GetKey (dst e)).

Abbreviation VerticeSet := (gmap string Vertice).
Abbreviation AdjacencyList := (gmap string VerticeSet).

Record RelatedVertices := mkRV { rv_src : VerticeSet; rv_dst : VerticeSet }.
Record Graph := mkGraph { edges_ : gmap string RelatedVertices; list_ : AdjacencyList }.

Definition Graph_new : Graph := mkGraph ∅ ∅.

Inductive FlowDirection := UNREACHABLE | UPSTREAM | DOWNSTREAM.
#[export] Instance FlowDirection_eq_dec : EqDecision FlowDirection.
Proof. solve_decision. Defined.

(** [edges_[v]] and [list_[k]] *)
Definition edges_at (g : Graph) (v : string) : RelatedVertices := default (mkRV ∅ ∅) (edges_ g !! v).
Definition list_at (l : AdjacencyList) (k : string) : VerticeSet := default ∅ (l !! k).

(** A key that is absent gets an empty set. *)
Definition touch (l : AdjacencyList) (k : string) : AdjacencyList :=
  if l !! k is Some _ then l else <[k := ∅]> l.

Section Graph.
Context `{HashOrder}.

(** The elements of an unordered container in the order a loop sees them. *)
Definition iterate (m : VerticeSet) : list (string * Vertice) := rehash (map_to_list m).

Definition InsertCompleteEdge (l : AdjacencyList) (e : Edge) : AdjacencyList :=
  let src_v_k := GetKey (src e) in
  let l := touch l src_v_k in
  let l := touch l (GetKey (dst e)) in
  <[src_v_k := <[Edge_GetKey e := dst e]> (list_at l src_v_k)]> l.

Definition DeleteCompleteEdge (l : AdjacencyList) (e : Edge) : AdjacencyList :=
  let src_v_k := GetKey (src e) in
  <[src_v_k := delete (Edge_GetKey e) (list_at l src_v_k)]> l.

Definition InsertOutgoingEdge (g : Graph) (e : Edge) : Graph :=
  let e_v := e_value e in
  let rv := edges_at g e_v in
  let v_k := GetKey (src e) in
  if rv_src rv !! v_k is Some _ then g
  else mkGraph (<[e_v := mkRV (<[v_k := src e]> (rv_src rv)) (rv_dst rv)]> (edges_ g))
               (foldl (fun l item => InsertCompleteEdge l (mkEdge (src e) item.2 e_v))
                      (list_ g) (iterate (rv_dst rv))).

Definition InsertIncomingEdge (g : Graph) (e : Edge) : Graph :=
  let e_v := e_value e in
  let rv := edges_at g e_v in
  let v_k := GetKey (dst e) in
  if rv_dst rv !! v_k is Some _ then g
  else mkGraph (<[e_v := mkRV (rv_src rv) (<[v_k := dst e]> (rv_dst rv))]> (edges_ g))
               (foldl (fun l item => InsertCompleteEdge l (mkEdge item.2 (dst e) e_v))
                      (list_ g) (iterate (rv_src rv))).

Definition DeleteOutgoingEdge (g : Graph) (e : Edge) : Graph :=
  let e_v := e_value e in
  let rv := edges_at g e_v in
  let v_k := GetKey (src e) in
  if rv_src rv !! v_k is Some _ then
    mkGraph (<[e_v := mkRV (delete v_k (rv_src rv)) (rv_dst rv)]> (edges_ g))
            (foldl (fun l item => DeleteCompleteEdge l (mkEdge (src e) item.2 e_v))
                   (list_ g) (iterate (rv_dst rv)))
  else g.

Definition DeleteIncomingEdge (g : Graph) (e : Edge) : Graph :=
  let e_v := e_value e in
  let rv := edges_at g e_v in
  let v_k := GetKey (dst e) in
  if rv_dst rv !! v_k is Some _ then
    mkGraph (<[e_v := mkRV (rv_src rv) (delete v_k (rv_dst rv))]> (edges_ g))
            (foldl (fun l item => DeleteCompleteEdge l (mkEdge item.2 (dst e) e_v))
                   (list_ g) (iterate (rv_src rv)))
  else g.

Definition Insert (g : Graph) (e : Edge) : Graph :=
  if negb (IsValid e) then g else
  let g := if edges_ g !! e_value e is Some _ then g
           else mkGraph (<[e_value e := mkRV ∅ ∅]> (edges_ g)) (list_ g) in
  let g := if negb (IsDummy (src e)) then InsertOutgoingEdge g e else g in
  if negb (IsDummy (dst e)) then InsertIncomingEdge g e else g.

Definition Delete (g : Graph) (e : Edge) : Graph :=
  if negb (IsValid e) then g else
  if edges_ g !! e_value e is Some _ then
    let g := if negb (IsDummy (src e)) then DeleteOutgoingEdge g e else g in
    if negb (IsDummy (dst e)) then DeleteIncomingEdge g e else g
  else g.

Definition num_edges (l : AdjacencyList) : nat :=
  sum_list_with (fun kv => size kv.2) (map_to_list l).

Definition GetNumOfEdge (g : Graph) : Z := u32 (Z.of_nat (num_edges (list_ g))).

(** The loop of [LevelTraverse]; [None] when the fuel runs out before the queue is empty or
    [end] is met. *)
Fixpoint traverse_loop (fuel : nat) (l : AdjacencyList) (visited : gmap string bool)
    (unvisited : list Vertice) (end_ : Vertice) : option (bool * AdjacencyList) :=
  match unvisited with
  | [] => Some (default false (visited !! GetKey end_), l)
  | curr :: unvisited =>
      match fuel with
      | O => None
      | S fuel =>
          if default false (visited !! GetKey curr) then traverse_loop fuel l visited unvisited end_
          else
            let visited := <[GetKey curr := true]> visited in
            if bool_decide (curr = end_) then Some (default false (visited !! GetKey end_), l)
            else let l := touch l (GetKey curr) in
                 traverse_loop fuel l visited (unvisited ++ (iterate (list_at l (GetKey curr))).*2) end_
      end
  end.

(** The queue sees every edge at most once: one round per edge and one for [start]. *)
Definition LevelTraverse (l : AdjacencyList) (start end_ : Vertice) : option (bool * AdjacencyList) :=
  traverse_loop (S (num_edges l)) l {[ GetKey end_ := false ]} [start] end_.

#[local] Arguments LevelTraverse : simpl never.

Definition GetDirectionOf (g : Graph) (lhs rhs : Vertice) : option (FlowDirection * Graph) :=
  if IsDummy lhs || IsDummy rhs then Some (UNREACHABLE, g)
  else if negb (bool_decide (is_Some (list_ g !! GetKey lhs))) || negb (bool_decide (is_Some (list_ g !! GetKey rhs)))
  then Some (UNREACHABLE, g)
  else
    '(up, l) ← LevelTraverse (list_ g) lhs rhs;
    if (up : bool) then Some (UPSTREAM, mkGraph (edges_ g) l)
    else
      '(down, l) ← LevelTraverse l rhs lhs;
      Some (if (down : bool) then DOWNSTREAM else UNREACHABLE, mkGraph (edges_ g) l).

(** ** Breadth-first search *)
Definition adjacent (l : AdjacencyList) (a b : string) : Prop :=
  exists m k, l !! a = Some m /\ m !! k = Some (mkVertice b).

(** Every vertex an edge leads to is a key. *)
Definition adj_closed (l : AdjacencyList) : Prop := forall a b, adjacent l a b -> is_Some (l !! b).

Lemma elem_of_iterate m k x : (k, x) ∈ iterate m <-> m !! k = Some x.
Proof. unfold iterate. rewrite rehash_perm. apply elem_of_map_to_list. Qed.

Lemma elem_of_iterate_snd m x : x ∈ (iterate m).*2 <-> exists k, m !! k = Some x.
Proof.
  rewrite list_elem_of_fmap. split.
  - intros ([k y] & -> & Hin). exists k. by apply elem_of_iterate.
  - intros [k Hk]. exists (k, x). split; [done|]. by apply elem_of_iterate.
Qed.

Lemma length_iterate m : length (iterate m) = size m.
Proof. unfold iterate. rewrite rehash_perm. apply length_map_to_list. Qed.

(** The edges that leave vertices not visited yet. *)
Definition pending (visited : gmap string bool) (l : AdjacencyList) : nat :=
  sum_list_with (fun kv => if default false (visited !! kv.1) then 0%nat else size kv.2) (map_to_list l).

Lemma sum_list_with_ext {A} (f g : A -> nat) l :
  (forall x, x ∈ l -> f x = g x) -> sum_list_with f l = sum_list_with g l.
Proof. induction l as [|x l IH]; intros Hfg; simpl; [done|]. rewrite Hfg, IH; set_solver. Qed.

Lemma sum_list_with_perm {A} (f : A -> nat) l l' :
  l ≡ₚ l' -> sum_list_with f l = sum_list_with f l'.
Proof. induction 1; simpl; lia. Qed.

Lemma pending_visit visited l k m :
  l !! k = Some m -> default false (visited !! k) = false ->
  pending visited l = (size m + pending (<[k := true]> visited) l)%nat.
Proof.
  intros Hk Hv. unfold pending.
  rewrite <- !(sum_list_with_perm _ _ _ (map_to_list_delete l k m Hk)). simpl.
  rewrite Hv, lookup_insert_eq. simpl. f_equal. apply sum_list_with_ext. intros [k' m'] Hin.
  apply elem_of_map_to_list, lookup_delete_Some in Hin as [Hne _]. simpl. by rewrite lookup_insert_ne.
Qed.

(** What the loop knows: the vertices seen are reachable and nothing is forgotten. *)
Record bfs_inv (l : AdjacencyList) (start end_ : string) (visited : gmap string bool) (q : list Vertice) : Prop := {
  bi_visited : forall a, visited !! a = Some true -> rtc (adjacent l) start a;
  bi_queue : forall v, v ∈ q -> rtc (adjacent l) start (v_value v) /\ is_Some (l !! v_value v);
  bi_start : visited !! start = Some true \/ mkVertice start ∈ q;
  bi_closed : forall a b, visited !! a = Some true -> adjacent l a b ->
                visited !! b = Some true \/ mkVertice b ∈ q;
  bi_end : visited !! end_ <> Some true
}.

Lemma default_false_true (o : option bool) : default false o = true <-> o = Some true.
Proof. destruct o as [[]|]; naive_solver. Qed.

Lemma bfs_done l start end_ visited :
  bfs_inv l start end_ visited [] -> ~ rtc (adjacent l) start end_.
Proof.
  intros [Hv Hq Hs Hc He] Hr.
  assert (Ha : visited !! start = Some true) by (destruct Hs; [done|set_solver]).
  apply He. clear Hv Hq Hs He. induction Hr as [|a b c Hab _ IH]; [done|].
  apply IH. destruct (Hc a b Ha Hab); [done|set_solver].
Qed.

Lemma bfs_skip l start end_ visited v q :
  bfs_inv l start end_ visited (v :: q) -> visited !! v_value v = Some true ->
  bfs_inv l start end_ visited q.
Proof.
  intros [Hv Hq Hs Hc He] Hk. split; [done|set_solver| | |done].
  - destruct Hs as [|Hs]; [by left|]. apply elem_of_cons in Hs as [Hs|]; [|by right].
    left. by rewrite <- Hs in Hk.
  - intros a b Ha Hab. destruct (Hc a b Ha Hab) as [|Hb]; [by left|].
    apply elem_of_cons in Hb as [Hb|]; [|by right]. left. by rewrite <- Hb in Hk.
Qed.

Lemma bfs_expand l start end_ visited v q m :
  adj_closed l -> l !! v_value v = Some m -> v_value v <> end_ ->
  bfs_inv l start end_ visited (v :: q) ->
  bfs_inv l start end_ (<[v_value v := true]> visited) (q ++ (iterate m).*2).
Proof.
  intros Hcl Hm Hne [Hv Hq Hs Hc He].
  assert (Hadj : forall b, adjacent l (v_value v) b <-> mkVertice b ∈ (iterate m).*2).
  { intros b. rewrite elem_of_iterate_snd. unfold adjacent. split; [|intros [k Hk]; by exists m, k].
    intros (m' & k & ? & ?). simplify_eq. by exists k. }
  destruct (Hq v) as [Hrv _]; [set_solver|].
  split.
  - intros a. destruct (decide (a = v_value v)) as [->|]; [by intros _|].
    rewrite lookup_insert_ne by done. apply Hv.
  - intros u. rewrite elem_of_app. intros [Hu|Hu]; [apply Hq; set_solver|].
    destruct u as [b]. apply Hadj in Hu. split; [|by eapply Hcl]. by eapply rtc_r.
  - destruct (decide (start = v_value v)) as [->|]; [left; apply lookup_insert_eq|].
    rewrite lookup_insert_ne by done. destruct Hs as [|Hs]; [by left|].
    right. apply elem_of_cons in Hs as [Hs|]; [by destruct v; simplify_eq|set_solver].
  - intros a b Ha Hab. destruct (decide (b = v_value v)) as [->|]; [left; apply lookup_insert_eq|].
    rewrite lookup_insert_ne by done. destruct (decide (a = v_value v)) as [->|].
    + right. apply Hadj in Hab. set_solver.
    + rewrite lookup_insert_ne in Ha by done. destruct (Hc a b Ha Hab) as [|Hb]; [by left|].
      right. apply elem_of_cons in Hb as [Hb|]; [by destruct v; simplify_eq|set_solver].
  - by rewrite lookup_insert_ne.
Qed.

Lemma touch_present l k m : l !! k = Some m -> touch l k = l.
Proof. unfold touch. by intros ->. Qed.

(** The loop ends within its fuel, leaves the adjacency list alone and decides reachability. *)
Lemma traverse_loop_correct fuel l start end_ visited q :
  adj_closed l -> bfs_inv l start (v_value end_) visited q ->
  (length q + pending visited l <= fuel)%nat ->
  exists b, traverse_loop fuel l visited q end_ = Some (b, l) /\
            (b = true <-> rtc (adjacent l) start (v_value end_)).
Proof.
  intros Hcl. revert visited q. induction fuel as [|fuel IH]; intros visited q Hinv Hf.
  - destruct q as [|v q]; [|simpl in Hf; lia]. eexists; split; [done|].
    rewrite default_false_true. split; [by intros ?%(bi_end _ _ _ _ _ Hinv)|].
    by intros ?%(bfs_done _ _ _ _ Hinv).
  - destruct q as [|v q]; cbn.
    + eexists; split; [done|].
      rewrite default_false_true. split; [by intros ?%(bi_end _ _ _ _ _ Hinv)|].
      by intros ?%(bfs_done _ _ _ _ Hinv).
    + destruct (default false (visited !! GetKey v)) eqn:Hvis.
      * apply default_false_true in Hvis. apply IH; [by eapply bfs_skip|simpl in Hf; lia].
      * destruct (bi_queue _ _ _ _ _ Hinv v) as [Hr [m Hm]]; [set_solver|].
        case_bool_decide as He.
        -- subst. unfold GetKey. rewrite lookup_insert_eq. eexists; split; [done|]. done.
        -- unfold GetKey in *. rewrite (touch_present l _ m) by done.
           unfold list_at. rewrite Hm. cbn. apply IH.
           ++ apply bfs_expand; [done..| |done]. intros Heq. apply He. destruct v, end_; by simplify_eq/=.
           ++ rewrite (pending_visit _ _ _ _ Hm Hvis) in Hf. simpl in Hf.
              rewrite length_app, length_fmap, length_iterate. lia.
Qed.

Lemma pending_le visited l : (pending visited l <= num_edges l)%nat.
Proof.
  unfold pending, num_edges. induction (map_to_list l) as [|kv t IH]; simpl; [lia|].
  destruct (default false _); lia.
Qed.

Lemma LevelTraverse_correct l start end_ :
  adj_closed l -> is_Some (l !! v_value start) ->
  exists b, LevelTraverse l start end_ = Some (b, l) /\
            (b = true <-> rtc (adjacent l) (v_value start) (v_value end_)).
Proof.
  intros Hcl Hs. unfold LevelTraverse. apply traverse_loop_correct; [done| |].
  - split.
    + intros a. by intros [_ ?]%lookup_singleton_Some.
    + intros v ->%list_elem_of_singleton. split; [constructor|done].
    + right. destruct start. set_solver.
    + intros a b. by intros [_ ?]%lookup_singleton_Some.
    + unfold GetKey. by rewrite lookup_singleton_eq.
  - simpl. pose proof (pending_le {[GetKey end_ := false]} l). lia.
Qed.

(** ** The complete edges kept in [list_]

    [E a v b]: node [a] writes channel [v], which node [b] reads. *)
Definition entry (l : AdjacencyList) (a key : string) (d : Vertice) : Prop :=
  exists m, l !! a = Some m /\ m !! key = Some d.

Record list_spec (l : AdjacencyList) (E : string -> string -> string -> Prop) : Prop := {
  ls_entry : forall a key d, entry l a key d <-> exists v b, key = edge_key v b /\ d = mkVertice b /\ E a v b;
  ls_closed : forall a v b, E a v b -> is_Some (l !! b)
}.

Lemma list_spec_ext l E E' :
  (forall a v b, E a v b <-> E' a v b) -> list_spec l E -> list_spec l E'.
Proof.
  intros He [H1 H2]. split.
  - intros. rewrite H1. by setoid_rewrite He.
  - intros a v b Hb. apply He in Hb. by eapply H2.
Qed.

Lemma list_spec_adjacent l E a b : list_spec l E -> adjacent l a b <-> exists v, E a v b.
Proof.
  intros [H1 _]. split.
  - intros (m & k & Hm & Hk). destruct (proj1 (H1 a k (mkVertice b))) as (v & b' & _ & [= <-] & ?); [by exists m|].
    by exists v.
  - intros [v Hv]. destruct (proj2 (H1 a (edge_key v b) (mkVertice b))) as (m & ? & ?); [by exists v, b|].
    by exists m, (edge_key v b).
Qed.

Lemma list_spec_closed l E : list_spec l E -> adj_closed l.
Proof. intros Hl a b [v Hv]%(list_spec_adjacent l E); [|done]. by eapply ls_closed. Qed.

Lemma touch_lookup l k a : touch l k !! a = if decide (a = k) then Some (list_at l k) else l !! a.
Proof.
  unfold touch, list_at. case_decide as Ha; [subst|].
  - destruct (l !! k) eqn:Hk; [by rewrite Hk|]. by rewrite lookup_insert_eq.
  - destruct (l !! k) eqn:Hk; [done|]. by rewrite lookup_insert_ne.
Qed.

Lemma touch_entry l k a key d : entry (touch l k) a key d <-> entry l a key d.
Proof.
  unfold entry. rewrite touch_lookup. case_decide; [subst|done]. unfold list_at.
  destruct (l !! k) as [m|]; cbn; [done|]. split; [|by intros (m & ? & ?)].
  intros (m & [= <-] & Hd). by rewrite lookup_empty in Hd.
Qed.

Lemma update_entry l s m a key d :
  entry (<[s := m]> l) a key d <-> (a = s /\ m !! key = Some d) \/ (a <> s /\ entry l a key d).
Proof.
  unfold entry. destruct (decide (a = s)) as [->|Hne].
  - rewrite lookup_insert_eq. naive_solver.
  - rewrite lookup_insert_ne by done. naive_solver.
Qed.

Lemma list_at_entry l s key d : list_at l s !! key = Some d <-> entry l s key d.
Proof.
  unfold list_at, entry. destruct (l !! s) as [m|]; cbn; [naive_solver|].
  rewrite lookup_empty. naive_solver.
Qed.

Lemma InsertCompleteEdge_spec l E a v b :
  list_spec l E ->
  (forall v' b', E a v' b' -> edge_key v' b' = edge_key v b -> v' = v /\ b' = b) ->
  list_spec (InsertCompleteEdge l (mkEdge (mkVertice a) (mkVertice b) v))
            (fun a' v' b' => E a' v' b' \/ (a' = a /\ v' = v /\ b' = b)).
Proof.
  intros [H1 H2] Hfree. unfold InsertCompleteEdge, Edge_GetKey, GetKey; cbn.
  set (l2 := touch (touch l a) b). split.
  - intros a' key d. rewrite update_entry.
    assert (He : forall x y z, entry l2 x y z <-> entry l x y z)
      by (intros; unfold l2; by rewrite !touch_entry).
    rewrite He, H1. split.
    + intros [[-> Hk]|[Hne (v' & b' & -> & -> & HE)]]; [|naive_solver].
      apply lookup_insert_Some in Hk as [[<- <-]|[Hne Hk]]; [exists v, b; naive_solver|].
      apply list_at_entry, He, H1 in Hk as (v' & b' & -> & -> & HE). naive_solver.
    + intros (v' & b' & -> & -> & [HE|(-> & -> & ->)]).
      * destruct (decide (a' = a)) as [->|]; [left|right; naive_solver]. split; [done|].
        apply lookup_insert_Some. destruct (decide (edge_key v' b' = edge_key v b)) as [Heq|].
        -- left. destruct (Hfree v' b' HE Heq) as [-> ->]. done.
        -- right. split; [done|]. apply list_at_entry, He, H1. by exists v', b'.
      * left. split; [done|]. by rewrite lookup_insert_eq.
  - intros a' v' b' Hb. unfold l2.
    assert (Hd : is_Some (touch (touch l a) b !! b')).
    { rewrite touch_lookup. case_decide; [done|]. rewrite touch_lookup. case_decide; [done|].
      destruct Hb as [Hb|(_ & _ & ->)]; [by eapply H2|done]. }
    destruct (decide (b' = a)) as [->|]; [by rewrite lookup_insert_eq|by rewrite lookup_insert_ne].
Qed.

Lemma DeleteCompleteEdge_spec l E a v b :
  list_spec l E ->
  (forall v' b', E a v' b' -> edge_key v' b' = edge_key v b -> v' = v /\ b' = b) ->
  list_spec (DeleteCompleteEdge l (mkEdge (mkVertice a) (mkVertice b) v))
            (fun a' v' b' => E a' v' b' /\ ~ (a' = a /\ v' = v /\ b' = b)).
Proof.
  intros [H1 H2] Hfree. unfold DeleteCompleteEdge, Edge_GetKey, GetKey; cbn. split.
  - intros a' key d. rewrite update_entry, H1. split.
    + intros [[-> Hk]|[Hne (v' & b' & -> & -> & HE)]]; [|naive_solver].
      apply lookup_delete_Some in Hk as [Hne Hk].
      apply list_at_entry, H1 in Hk as (v' & b' & -> & -> & HE). exists v', b'. naive_solver.
    + intros (v' & b' & -> & -> & HE & Hne).
      destruct (decide (a' = a)) as [->|]; [left|right; naive_solver]. split; [done|].
      apply lookup_delete_Some. split; [|by apply list_at_entry, H1; exists v', b'].
      intros Heq. destruct (Hfree v' b' HE (eq_sym Heq)) as [-> ->]. naive_solver.
  - intros a' v' b' [Hb _]. destruct (decide (b' = a)) as [->|]; [by rewrite lookup_insert_eq|].
    rewrite lookup_insert_ne by done. by eapply H2.
Qed.

(** ** Channel and node names without colliding edge keys

    An edge is filed under channel + "_" + reader; the refinement holds for sets of channel
    names [Cs] and reader names [Ns] for which that key determines the pair. *)
Definition collision_free (Cs Ns : gset string) : Prop :=
  forall v v' b b', v ∈ Cs -> v' ∈ Cs -> b ∈ Ns -> b' ∈ Ns ->
    edge_key v b = edge_key v' b' -> v = v' /\ b = b'.

#[export] Instance collision_free_dec Cs Ns : Decision (collision_free Cs Ns).
Proof.
  destruct (decide (set_Forall (fun v => set_Forall (fun v' => set_Forall (fun b => set_Forall
    (fun b' => edge_key v b = edge_key v' b' -> v = v' /\ b = b') Ns) Ns) Cs) Cs)) as [Hd|Hd]; [left|right].
  - intros v v' b b' Hv Hv' Hb Hb'. exact (Hd v Hv v' Hv' b Hb b' Hb').
  - intros Hc. apply Hd. intros v Hv v' Hv' b Hb b' Hb'. by apply Hc.
Defined.

Section Named.
Context (Cs Ns : gset string) (names_free : collision_free Cs Ns).

Definition named (E : string -> string -> string -> Prop) : Prop :=
  forall a v b, E a v b -> v ∈ Cs /\ b ∈ Ns.

Definition edges_of (mk : string * Vertice -> Edge) (L : list (string * Vertice)) (a v b : string) : Prop :=
  exists it, it ∈ L /\ mk it = mkEdge (mkVertice a) (mkVertice b) v.

Lemma named_free E a v b :
  named E -> v ∈ Cs -> b ∈ Ns ->
  forall v' b', E a v' b' -> edge_key v' b' = edge_key v b -> v' = v /\ b' = b.
Proof. intros HE Hv Hb v' b' [? ?]%HE Heq. by apply names_free. Qed.

Lemma fold_insert mk L l E :
  list_spec l E -> named E ->
  (forall it, it ∈ L -> e_value (mk it) ∈ Cs /\ v_value (dst (mk it)) ∈ Ns) ->
  list_spec (foldl (fun l it => InsertCompleteEdge l (mk it)) l L)
            (fun a v b => E a v b \/ edges_of mk L a v b).
Proof.
  revert l E. induction L as [|it L IH]; intros l E Hl HE HL; cbn.
  - eapply list_spec_ext; [|exact Hl]. intros. unfold edges_of. set_solver.
  - destruct (HL it) as [Hv Hb]; [set_solver|]. destruct (mk it) as [[a] [b] v] eqn:Hmk. cbn in Hv, Hb.
    eapply list_spec_ext; [|apply IH; [apply InsertCompleteEdge_spec; [exact Hl|by apply named_free]| |]].
    + intros a' v' b'. unfold edges_of. cbn. split.
      * intros [[HE'|(-> & -> & ->)]|(it' & Hin & Hit)]; [by left|right; exists it; set_solver|].
        right. exists it'. set_solver.
      * intros [HE'|(it' & Hin & Hit)]; [by left; left|]. apply elem_of_cons in Hin as [->|Hin]; [|naive_solver].
        left. right. rewrite Hmk in Hit. by simplify_eq.
    + intros a' v' b' [?|(-> & -> & ->)]; [by eapply HE|done].
    + intros it' Hin. apply HL. set_solver.
Qed.

Lemma fold_delete mk L l E :
  list_spec l E -> named E ->
  (forall it, it ∈ L -> e_value (mk it) ∈ Cs /\ v_value (dst (mk it)) ∈ Ns) ->
  list_spec (foldl (fun l it => DeleteCompleteEdge l (mk it)) l L)
            (fun a v b => E a v b /\ ~ edges_of mk L a v b).
Proof.
  revert l E. induction L as [|it L IH]; intros l E Hl HE HL; cbn.
  - eapply list_spec_ext; [|exact Hl]. intros. unfold edges_of. set_solver.
  - destruct (HL it) as [Hv Hb]; [set_solver|]. destruct (mk it) as [[a] [b] v] eqn:Hmk. cbn in Hv, Hb.
    eapply list_spec_ext; [|apply IH; [apply DeleteCompleteEdge_spec; [exact Hl|by apply named_free]| |]].
    + intros a' v' b'. unfold edges_of. cbn. split.
      * intros [[HE' Hne] Hno]. split; [done|]. intros (it' & Hin & Hit).
        apply elem_of_cons in Hin as [->|Hin]; [|naive_solver]. apply Hne. rewrite Hmk in Hit. by simplify_eq.
      * intros [HE' Hno]. split; [split; [done|]|].
        -- intros (-> & -> & ->). apply Hno. exists it. set_solver.
        -- intros (it' & Hin & Hit). apply Hno. exists it'. set_solver.
    + intros a' v' b' [? _]. by eapply HE.
    + intros it' Hin. apply HL. set_solver.
Qed.

(** ** The graph stands for a set of writers and a set of readers *)
Abbreviation roles := (gset (string * string)).

Record graph_ok (g : Graph) (WS RS : roles) : Prop := {
  go_src : forall v a x, rv_src (edges_at g v) !! a = Some x <-> x = mkVertice a /\ (v, a) ∈ WS;
  go_dst : forall v b x, rv_dst (edges_at g v) !! b = Some x <-> x = mkVertice b /\ (v, b) ∈ RS;
  go_list : list_spec (list_ g) (fun a v b => (v, a) ∈ WS /\ (v, b) ∈ RS);
  go_writers : forall v a, (v, a) ∈ WS -> v ∈ Cs /\ a <> "";
  go_readers : forall v b, (v, b) ∈ RS -> v ∈ Cs /\ b ∈ Ns /\ b <> ""
}.

Lemma graph_new_ok : graph_ok Graph_new ∅ ∅.
Proof.
  split; [| | |set_solver|set_solver].
  - intros v a x. unfold edges_at; cbn. rewrite lookup_empty. cbn. rewrite lookup_empty. set_solver.
  - intros v a x. unfold edges_at; cbn. rewrite lookup_empty. cbn. rewrite lookup_empty. set_solver.
  - split; [|set_solver]. intros a key d. unfold entry. setoid_rewrite lookup_empty. set_solver.
Qed.

Lemma graph_ok_named g WS RS :
  graph_ok g WS RS -> named (fun a v b => (v, a) ∈ WS /\ (v, b) ∈ RS).
Proof. intros Hg a v b [? ?]. split; by eapply go_readers. Qed.

Lemma edges_at_set g v rv l v' :
  edges_at (mkGraph (<[v := rv]> (edges_ g)) l) v' = if decide (v' = v) then rv else edges_at g v'.
Proof.
  unfold edges_at; cbn. case_decide; [subst; by rewrite lookup_insert_eq|by rewrite lookup_insert_ne].
Qed.

(** A set changed at channel [v] only. *)
Lemma graph_ok_update g WS RS v ws rs l WS' RS' :
  graph_ok g WS RS ->
  (forall v' a, v' <> v -> (v', a) ∈ WS' <-> (v', a) ∈ WS) ->
  (forall v' b, v' <> v -> (v', b) ∈ RS' <-> (v', b) ∈ RS) ->
  (forall a x, ws !! a = Some x <-> x = mkVertice a /\ (v, a) ∈ WS') ->
  (forall b x, rs !! b = Some x <-> x = mkVertice b /\ (v, b) ∈ RS') ->
  list_spec l (fun a v b => (v, a) ∈ WS' /\ (v, b) ∈ RS') ->
  (forall a, (v, a) ∈ WS' -> v ∈ Cs /\ a <> "") ->
  (forall b, (v, b) ∈ RS' -> v ∈ Cs /\ b ∈ Ns /\ b <> "") ->
  graph_ok (mkGraph (<[v := mkRV ws rs]> (edges_ g)) l) WS' RS'.
Proof.
  intros [Hs Hd _ Hw Hr] HW HR Hws Hrs Hl HnW HnR. split; [| |done| |].
  - intros v' a x. rewrite edges_at_set. case_decide as Hv; [subst; apply Hws|]. rewrite HW by done. apply Hs.
  - intros v' b x. rewrite edges_at_set. case_decide as Hv; [subst; apply Hrs|]. rewrite HR by done. apply Hd.
  - intros v' a. destruct (decide (v' = v)) as [->|]; [apply HnW|]. rewrite HW by done. apply Hw.
  - intros v' b. destruct (decide (v' = v)) as [->|]; [apply HnR|]. rewrite HR by done. apply Hr.
Qed.

Lemma InsertOutgoingEdge_ok g WS RS v a d :
  graph_ok g WS RS -> v ∈ Cs -> a <> "" ->
  graph_ok (InsertOutgoingEdge g (mkEdge (mkVertice a) d v)) ({[(v, a)]} ∪ WS) RS.
Proof.
  intros Hg Hv Ha. unfold InsertOutgoingEdge, GetKey; cbn.
  destruct (rv_src (edges_at g v) !! a) as [x|] eqn:Hx.
  { apply (go_src _ _ _ Hg) in Hx as [_ Hin]. by replace ({[(v, a)]} ∪ WS) with WS by set_solver. }
  pose proof (go_dst _ _ _ Hg v) as Hdst.
  apply (graph_ok_update g WS RS); [done|set_solver|done| |done| | |].
  - intros a' x'. rewrite lookup_insert_Some, (go_src _ _ _ Hg).
    destruct (decide (a = a')) as [->|Hne]; set_solver.
  - eapply list_spec_ext; [|apply fold_insert; [apply (go_list _ _ _ Hg)|exact (graph_ok_named _ _ _ Hg)|]].
    + intros a' v' b'. unfold edges_of. split.
      * intros [?|([k y] & Hin & [= -> -> ->])]; [set_solver|].
        apply elem_of_iterate, Hdst in Hin as [[= ->] ?]. set_solver.
      * intros [Hw Hr]. apply elem_of_union in Hw as [Hw|Hw]; [|by left].
        apply elem_of_singleton in Hw as [= -> ->]. right. exists (b', mkVertice b'). split; [|done].
        by apply elem_of_iterate, Hdst.
    + intros [k y] [-> Hr]%elem_of_iterate%Hdst. cbn. split; [done|]. by eapply (go_readers _ _ _ Hg).
  - intros a'. rewrite elem_of_union, elem_of_singleton. intros [[= ->]|?]; [done|by eapply (go_writers _ _ _ Hg)].
  - intros b'. apply (go_readers _ _ _ Hg).
Qed.

Lemma InsertIncomingEdge_ok g WS RS v b s :
  graph_ok g WS RS -> v ∈ Cs -> b ∈ Ns -> b <> "" ->
  graph_ok (InsertIncomingEdge g (mkEdge s (mkVertice b) v)) WS ({[(v, b)]} ∪ RS).
Proof.
  intros Hg Hv Hb Hne0. unfold InsertIncomingEdge, GetKey; cbn.
  destruct (rv_dst (edges_at g v) !! b) as [x|] eqn:Hx.
  { apply (go_dst _ _ _ Hg) in Hx as [_ Hin]. by replace ({[(v, b)]} ∪ RS) with RS by set_solver. }
  pose proof (go_src _ _ _ Hg v) as Hsrc.
  apply (graph_ok_update g WS RS); [done|done|set_solver|done| | | |].
  - intros b' x'. rewrite lookup_insert_Some, (go_dst _ _ _ Hg).
    destruct (decide (b = b')) as [->|Hne]; set_solver.
  - eapply list_spec_ext; [|apply fold_insert; [apply (go_list _ _ _ Hg)|exact (graph_ok_named _ _ _ Hg)|]].
    + intros a' v' b'. unfold edges_of. split.
      * intros [?|([k y] & Hin & [= -> -> ->])]; [set_solver|].
        apply elem_of_iterate, Hsrc in Hin as [[= ->] ?]. set_solver.
      * intros [Hw Hr]. apply elem_of_union in Hr as [Hr|Hr]; [|by left].
        apply elem_of_singleton in Hr as [= -> ->]. right. exists (a', mkVertice a'). split; [|done].
        by apply elem_of_iterate, Hsrc.
    + intros [k y] _. done.
  - intros a'. apply (go_writers _ _ _ Hg).
  - intros b'. rewrite elem_of_union, elem_of_singleton. intros [[= ->]|?]; [done|by eapply (go_readers _ _ _ Hg)].
Qed.

Lemma DeleteOutgoingEdge_ok g WS RS v a d :
  graph_ok g WS RS -> graph_ok (DeleteOutgoingEdge g (mkEdge (mkVertice a) d v)) (WS ∖ {[(v, a)]}) RS.
Proof.
  intros Hg. unfold DeleteOutgoingEdge, GetKey; cbn.
  destruct (rv_src (edges_at g v) !! a) as [x|] eqn:Hx.
  2: { assert ((v, a) ∉ WS).
       { intros Hin. rewrite (proj2 (go_src _ _ _ Hg v a (mkVertice a))) in Hx; done. }
       by replace (WS ∖ {[(v, a)]}) with WS by set_solver. }
  pose proof (go_dst _ _ _ Hg v) as Hdst. apply (go_src _ _ _ Hg) in Hx as [_ Hin0].
  apply (graph_ok_update g WS RS); [done|set_solver|done| |done| | |].
  - intros a' x'. rewrite lookup_delete_Some, (go_src _ _ _ Hg). set_solver.
  - eapply list_spec_ext; [|apply fold_delete; [apply (go_list _ _ _ Hg)|exact (graph_ok_named _ _ _ Hg)|]].
    + intros a' v' b'. unfold edges_of. split.
      * intros [[Hw Hr] Hno]. split; [|done]. apply elem_of_difference. split; [done|].
        intros [= -> ->]%elem_of_singleton. apply Hno. exists (b', mkVertice b'). split; [|done].
        by apply elem_of_iterate, Hdst.
      * intros [Hw Hr]. split; [set_solver|]. intros ([k y] & Hin & [= -> -> ->]). set_solver.
    + intros [k y] [-> Hr]%elem_of_iterate%Hdst. cbn. split; by eapply (go_readers _ _ _ Hg).
  - intros a' Hin. apply (go_writers _ _ _ Hg). set_solver.
  - intros b'. apply (go_readers _ _ _ Hg).
Qed.

Lemma DeleteIncomingEdge_ok g WS RS v b s :
  graph_ok g WS RS -> graph_ok (DeleteIncomingEdge g (mkEdge s (mkVertice b) v)) WS (RS ∖ {[(v, b)]}).
Proof.
  intros Hg. unfold DeleteIncomingEdge, GetKey; cbn.
  destruct (rv_dst (edges_at g v) !! b) as [x|] eqn:Hx.
  2: { assert ((v, b) ∉ RS).
       { intros Hin. rewrite (proj2 (go_dst _ _ _ Hg v b (mkVertice b))) in Hx; done. }
       by replace (RS ∖ {[(v, b)]}) with RS by set_solver. }
  pose proof (go_src _ _ _ Hg v) as Hsrc. apply (go_dst _ _ _ Hg) in Hx as [_ Hin0].
  destruct (go_readers _ _ _ Hg v b Hin0) as (Hv & Hb & _).
  apply (graph_ok_update g WS RS); [done|done|set_solver|done| | | |].
  - intros b' x'. rewrite lookup_delete_Some, (go_dst _ _ _ Hg). set_solver.
  - eapply list_spec_ext; [|apply fold_delete; [apply (go_list _ _ _ Hg)|exact (graph_ok_named _ _ _ Hg)|]].
    + intros a' v' b'. unfold edges_of. split.
      * intros [[Hw Hr] Hno]. split; [done|]. apply elem_of_difference. split; [done|].
        intros [= -> ->]%elem_of_singleton. apply Hno. exists (a', mkVertice a'). split; [|done].
        by apply elem_of_iterate, Hsrc.
      * intros [Hw Hr]. split; [set_solver|]. intros ([k y] & Hin & [= -> -> ->]). set_solver.
    + intros [k y] _. done.
  - intros a'. apply (go_writers _ _ _ Hg).
  - intros b' Hin. apply (go_readers _ _ _ Hg). set_solver.
Qed.

(** What an edge means for the two sets; an edge without a channel or without both ends
    means nothing. *)
Definition mentions (e : Edge) (v : Vertice) : roles :=
  if IsValid e && negb (IsDummy v) then {[(e_value e, v_value v)]} else ∅.

Definition edge_named (e : Edge) : Prop := e_value e ∈ Cs /\ (IsDummy (dst e) = false -> v_value (dst e) ∈ Ns).

Lemma IsDummy_spec v : IsDummy v = false <-> v_value v <> "".
Proof. unfold IsDummy. by rewrite bool_decide_eq_false. Qed.

Lemma Insert_ok g WS RS e :
  graph_ok g WS RS -> edge_named e ->
  graph_ok (Insert g e) (mentions e (src e) ∪ WS) (mentions e (dst e) ∪ RS).
Proof.
  intros Hg [HC HN]. unfold Insert, mentions. destruct (IsValid e); cbn; [|by rewrite !(left_id_L ∅ _)].
  destruct e as [[a] [b] v]; cbn in *.
  match goal with |- context [InsertOutgoingEdge ?h _] => set (g0 := h) end.
  assert (Hg0 : graph_ok g0 WS RS).
  { unfold g0. destruct (edges_ g !! v) eqn:Hv; [done|].
    apply (graph_ok_update g WS RS); try done.
    - intros a' x. rewrite <- (go_src _ _ _ Hg v a' x). unfold edges_at. by rewrite Hv.
    - intros a' x. rewrite <- (go_dst _ _ _ Hg v a' x). unfold edges_at. by rewrite Hv.
    - apply (go_list _ _ _ Hg).
    - apply (go_writers _ _ _ Hg).
    - apply (go_readers _ _ _ Hg). }
  clearbody g0.
  assert (Hg1 : graph_ok (if negb (IsDummy (mkVertice a)) then InsertOutgoingEdge g0 (mkEdge (mkVertice a) (mkVertice b) v) else g0)
                  ((if negb (IsDummy (mkVertice a)) then {[(v, a)]} else ∅) ∪ WS) RS).
  { destruct (IsDummy (mkVertice a)) eqn:Ha; cbn; [by rewrite (left_id_L ∅ _)|].
    apply InsertOutgoingEdge_ok; [done|done|]. by apply IsDummy_spec in Ha. }
  destruct (IsDummy (mkVertice b)) eqn:Hb; cbn; [by rewrite (left_id_L ∅ (∪) RS)|].
  apply InsertIncomingEdge_ok; [done|done|by apply HN|]. by apply IsDummy_spec in Hb.
Qed.

Lemma Delete_ok g WS RS e :
  graph_ok g WS RS -> graph_ok (Delete g e) (WS ∖ mentions e (src e)) (RS ∖ mentions e (dst e)).
Proof.
  intros Hg. unfold Delete, mentions. destruct (IsValid e); cbn; [|by rewrite !difference_empty_L].
  destruct e as [[a] [b] v]; cbn in *.
  destruct (edges_ g !! v) as [rv|] eqn:Hv.
  - assert (Hg1 : graph_ok (if negb (IsDummy (mkVertice a)) then DeleteOutgoingEdge g (mkEdge (mkVertice a) (mkVertice b) v) else g)
                  (WS ∖ (if negb (IsDummy (mkVertice a)) then {[(v, a)]} else ∅)) RS).
    { destruct (IsDummy (mkVertice a)); cbn; [by rewrite difference_empty_L|]. by apply DeleteOutgoingEdge_ok. }
    destruct (IsDummy (mkVertice b)); cbn; [by rewrite difference_empty_L|]. by apply DeleteIncomingEdge_ok.
  - assert (Hno : edges_at g v = mkRV ∅ ∅) by (unfold edges_at; by rewrite Hv).
    assert (forall x, (v, x) ∉ WS).
    { intros x Hin. pose proof (proj2 (go_src _ _ _ Hg v x (mkVertice x)) (conj eq_refl Hin)) as Hx.
      by rewrite Hno in Hx; cbn in Hx; rewrite lookup_empty in Hx. }
    assert (forall x, (v, x) ∉ RS).
    { intros x Hin. pose proof (proj2 (go_dst _ _ _ Hg v x (mkVertice x)) (conj eq_refl Hin)) as Hx.
      by rewrite Hno in Hx; cbn in Hx; rewrite lookup_empty in Hx. }
    replace (WS ∖ _) with WS; [replace (RS ∖ _) with RS; [done|]|].
    + destruct (IsDummy _); cbn; set_solver.
    + destruct (IsDummy _); cbn; set_solver.
Qed.

(** ** Flow between nodes *)
Definition flows (WS RS : roles) (a b : string) : Prop := exists v, (v, a) ∈ WS /\ (v, b) ∈ RS.

Lemma flows_adjacent g WS RS a b : graph_ok g WS RS -> adjacent (list_ g) a b <-> flows WS RS a b.
Proof. intros Hg. apply (list_spec_adjacent _ _ a b (go_list _ _ _ Hg)). Qed.

Lemma rtc_flows g WS RS a b :
  graph_ok g WS RS -> rtc (adjacent (list_ g)) a b <-> rtc (flows WS RS) a b.
Proof.
  intros Hg. split; intros Hr; (eapply rtc_subrel; [|exact Hr]); intros x y Hxy.
  - exact (proj1 (flows_adjacent g WS RS x y Hg) Hxy).
  - exact (proj2 (flows_adjacent g WS RS x y Hg) Hxy).
Qed.

(** Vertices joined by a path are keys with a name. *)
Lemma flow_ends g WS RS a b :
  graph_ok g WS RS -> a <> b -> rtc (flows WS RS) a b ->
  is_Some (list_ g !! a) /\ is_Some (list_ g !! b) /\ a <> "" /\ b <> "".
Proof.
  intros Hg Hne Hr.
  assert (Hf : exists y, flows WS RS a y) by (inversion Hr; subst; [done|eauto]).
  assert (Hl : exists y, flows WS RS y b).
  { apply rtc_inv_r in Hr as [->|(y & _ & ?)]; [done|eauto]. }
  destruct Hf as [y Hf], Hl as [z Hl].
  pose proof (proj2 (flows_adjacent g WS RS a y Hg) Hf) as (m & k & Hm & _).
  destruct Hf as (v & Hw & _), Hl as (v' & Hw' & Hr').
  split; [by eexists|]. split; [by eapply (ls_closed _ _ (go_list _ _ _ Hg) z v' b)|].
  split; [by eapply (go_writers _ _ _ Hg)|by eapply (go_readers _ _ _ Hg)].
Qed.

Lemma GetDirectionOf_ok g WS RS a b :
  graph_ok g WS RS -> a <> b ->
  exists d, GetDirectionOf g (mkVertice a) (mkVertice b) = Some (d, g) /\
    (d = UPSTREAM <-> rtc (flows WS RS) a b) /\
    (d = DOWNSTREAM <-> ~ rtc (flows WS RS) a b /\ rtc (flows WS RS) b a).
Proof.
  intros Hg Hne. unfold GetDirectionOf.
  assert (Hcl : adj_closed (list_ g)) by apply (list_spec_closed _ _ (go_list _ _ _ Hg)).
  assert (Hend : (is_Some (list_ g !! a) /\ is_Some (list_ g !! b) /\ a <> "" /\ b <> "") \/
                 (~ rtc (flows WS RS) a b /\ ~ rtc (flows WS RS) b a)).
  { destruct (decide (is_Some (list_ g !! a) /\ is_Some (list_ g !! b) /\ a <> "" /\ b <> "")); [by left|right].
    split; intros Hr; eapply flow_ends in Hr; naive_solver. }
  destruct (IsDummy (mkVertice a) || IsDummy (mkVertice b)) eqn:Hdum.
  { apply orb_true_iff in Hdum as [Hd|Hd]; apply bool_decide_eq_true in Hd; cbn in Hd; naive_solver. }
  unfold GetKey; cbn. repeat case_bool_decide; cbn; try naive_solver.
  destruct (LevelTraverse_correct (list_ g) (mkVertice a) (mkVertice b)) as (u & -> & Hu); [done|done|].
  rewrite (rtc_flows g WS RS) in Hu by done. cbn in *.
  destruct u; [destruct g; naive_solver|].
  destruct (LevelTraverse_correct (list_ g) (mkVertice b) (mkVertice a)) as (w & -> & Hw); [done|done|].
  rewrite (rtc_flows g WS RS) in Hw by done. cbn in *. destruct w, g; naive_solver.
Qed.
End Named.
End Graph.

(** ** Histories *)
Inductive graph_op := GInsert (e : Edge) | GDelete (e : Edge).

Definition graph_step `{HashOrder} (g : Graph) (o : graph_op) : Graph :=
  match o with GInsert e => Insert g e | GDelete e => Delete g e end.

(** The (channel, node) pairs a history leaves, writers by the source ends of its edges
    and readers by the destination ends. *)
Definition spec_step (end_ : Edge -> Vertice) (S : gset (string * string)) (o : graph_op) : gset (string * string) :=
  match o with
  | GInsert e => mentions e (end_ e) ∪ S
  | GDelete e => S ∖ mentions e (end_ e)
  end.

Definition writers_after (ops : list graph_op) := foldl (spec_step src) ∅ ops.
Definition readers_after (ops : list graph_op) := foldl (spec_step dst) ∅ ops.

Definition op_named (Cs Ns : gset string) (o : graph_op) : Prop :=
  match o with GInsert e => edge_named Cs Ns e | GDelete _ => True end.

(** C34: after any history of Insert and Delete over channel and node names whose edge keys
    do not collide, GetDirectionOf on two different nodes terminates (its search needs no
    more rounds than there are edges, plus one), leaves the graph unchanged, and answers
    UPSTREAM exactly when data written by the left node can reach the right one through
    channels that are written and read at that moment, DOWNSTREAM exactly when it can only
    flow the other way. *)
Theorem graph_tracks_flow `{HashOrder} (Cs Ns : gset string) (ops : list graph_op) (a b : string) :
  collision_free Cs Ns -> Forall (op_named Cs Ns) ops -> a <> b ->
  let g := foldl graph_step Graph_new ops in
  let reaches := rtc (flows (writers_after ops) (readers_after ops)) in
  exists d, GetDirectionOf g (mkVertice a) (mkVertice b) = Some (d, g) /\
    (d = UPSTREAM <-> reaches a b) /\ (d = DOWNSTREAM <-> ~ reaches a b /\ reaches b a).
Proof.
  intros Hfree Hops Hne. cbv zeta. apply (GetDirectionOf_ok Cs Ns); [|done].
  induction ops as [|o ops IH] using rev_ind; [by apply graph_new_ok|].
  apply Forall_app in Hops as [Hops Ho]. rewrite Forall_singleton in Ho.
  unfold writers_after, readers_after. rewrite !foldl_app. specialize (IH Hops).
  destruct o as [e|e]; cbn [foldl graph_step spec_step]; [apply Insert_ok; [exact Hfree|exact IH|exact Ho]|apply Delete_ok; [exact Hfree|exact IH]].
Qed.

Definition writes (n c : string) : Edge := mkEdge (mkVertice n) (mkVertice "") c.
Definition reads (n c : string) : Edge := mkEdge (mkVertice "") (mkVertice n) c.

(** A -> B -> C <- D, as in the comment of graph.h, with a channel removed again. *)
Definition comment_history : list graph_op :=
  GInsert <$> [writes "A" "ab"; reads "B" "ab"; writes "B" "bc"; reads "C" "bc"; writes "D" "dc"; reads "C" "dc"].

Lemma graph_tracks_flow_witness :
  let ops := comment_history ++ [GDelete (reads "B" "ab"); GInsert (reads "B" "ab")] in
  let g := foldl (@graph_step recent_first) Graph_new ops in
  (exists d, @GetDirectionOf recent_first g (mkVertice "C") (mkVertice "A") = Some (d, g) /\
    (d = UPSTREAM <-> rtc (flows (writers_after ops) (readers_after ops)) "C" "A") /\
    (d = DOWNSTREAM <-> ~ rtc (flows (writers_after ops) (readers_after ops)) "C" "A" /\
                        rtc (flows (writers_after ops) (readers_after ops)) "A" "C")) /\
  fst <$> @GetDirectionOf recent_first g (mkVertice "C") (mkVertice "A") = Some DOWNSTREAM /\
  fst <$> @GetDirectionOf recent_first g (mkVertice "D") (mkVertice "A") = Some UNREACHABLE.
Proof.
  cbv zeta. split; [|by vm_compute].
  apply (@graph_tracks_flow recent_first {["ab"; "bc"; "dc"]} {["B"; "C"]}).
  - apply (bool_decide_unpack _). by vm_compute.
  - repeat constructor; cbn; set_solver.
  - done.
Defined.

(** Two channels and readers whose names give the same edge key ("a" + "_" + "b_c" and
    "a_b" + "_" + "c") overwrite each other's edge: node A writes channel "a", which node
    "b_c" reads, yet GetDirectionOf reports them UNREACHABLE once A also writes "a_b" for "c". *)
Theorem graph_edge_key_collision :
  let ops := GInsert <$> [writes "A" "a"; reads "b_c" "a"; writes "A" "a_b"; reads "c" "a_b"] in
  flows (writers_after ops) (readers_after ops) "A" "b_c" /\
  (fst <$> @GetDirectionOf recent_first (foldl (@graph_step recent_first) Graph_new ops)
             (mkVertice "A") (mkVertice "b_c")) = Some UNREACHABLE.
Proof.
  cbv zeta. split; [|by vm_compute]. exists "a". split; apply (bool_decide_unpack _); by vm_compute.
Qed.
