(* ===== verification/Manager.v ===== *)
(** * Discovery managers: service_discovery/specific_manager/manager.cc, node_manager.cc

    The life cycle and the Join/Leave protocol every manager shares, over the two operations
    a specific manager supplies ([Check] and the disposal of a change), and the manager of
    nodes.  What Fast-RTPS and protobuf return is the argument [rtps]; the clock reading is
    the argument [now]. *)

From Stdlib Require Import ZArith Lia.
From stdpp Require Import base strings gmap list.
From S2P Require Import Prelude Signal Role Warehouse SingleValueWarehouse.

Inductive ChangeType := CHANGE_NODE | CHANGE_CHANNEL | CHANGE_SERVICE | CHANGE_PARTICIPANT.
Inductive OperateType := OPT_JOIN | OPT_LEAVE.
Inductive RoleType := ROLE_NODE | ROLE_WRITER | ROLE_READER | ROLE_SERVER | ROLE_CLIENT | ROLE_PARTICIPANT.
#[export] Instance RoleType_eq : EqDecision RoleType.
Proof. solve_decision. Defined.
#[export] Instance OperateType_eq : EqDecision OperateType.
Proof. solve_decision. Defined.

Definition role_number (r : RoleType) : Z :=
  match r with
  | ROLE_NODE => 1 | ROLE_WRITER => 2 | ROLE_READER => 3
  | ROLE_SERVER => 4 | ROLE_CLIENT => 5 | ROLE_PARTICIPANT => 6
  end.

(** A change message, by the values its getters return. *)
Record ChangeMsg := mkMsg {
  timestamp : Z; change_type : ChangeType; operate_type : OperateType; role_type : RoleType;
  role_attr : RoleAttributes }.

Record Manager := mkManager {
  is_shutdown_ : bool;
  is_discovery_started_ : bool;
  allowed_role_ : Z;
  change_type_ : ChangeType;
  topic_ : string;
  own_host : string;
  own_pid : Z;
  publisher_ : bool;
  subscriber_ : bool;
  listener_ : bool;
  signal_ : Signal (A := ChangeMsg);
  published : list ChangeMsg
}.

(** Results of the calls to the middleware. *)
Record Rtps := mkRtps {
  pub_attr_ok : bool; create_publisher : bool; sub_attr_ok : bool; create_subscriber : bool;
  serialize_ok : bool; write_ok : bool }.

Definition Manager_new (host : string) (pid : Z) : Manager :=
  mkManager false false 0 CHANGE_PARTICIPANT "" host pid false false false Signal_new [].

(** ** Discovery *)
Definition set_started (m : Manager) (b : bool) : Manager :=
  mkManager (is_shutdown_ m) b (allowed_role_ m) (change_type_ m) (topic_ m) (own_host m) (own_pid m)
            (publisher_ m) (subscriber_ m) (listener_ m) (signal_ m) (published m).

Definition set_endpoints (m : Manager) (p s l : bool) : Manager :=
  mkManager (is_shutdown_ m) (is_discovery_started_ m) (allowed_role_ m) (change_type_ m) (topic_ m)
            (own_host m) (own_pid m) p s l (signal_ m) (published m).

Definition set_signal (m : Manager) (s : Signal) : Manager :=
  mkManager (is_shutdown_ m) (is_discovery_started_ m) (allowed_role_ m) (change_type_ m) (topic_ m)
            (own_host m) (own_pid m) (publisher_ m) (subscriber_ m) (listener_ m) s (published m).

Definition CreatePublisher (rtps : Rtps) (m : Manager) : bool * Manager :=
  if negb (pub_attr_ok rtps) then (false, m)
  else (create_publisher rtps, set_endpoints m (create_publisher rtps) (subscriber_ m) (listener_ m)).

Definition CreateSubscriber (rtps : Rtps) (m : Manager) : bool * Manager :=
  if negb (sub_attr_ok rtps) then (false, m)
  else (create_subscriber rtps, set_endpoints m (publisher_ m) (create_subscriber rtps) true).

Definition StopDiscovery (m : Manager) : Manager :=
  if is_discovery_started_ m then set_endpoints (set_started m false) false false false else m.

Definition StartDiscovery (rtps : Rtps) (participant : bool) (m : Manager) : bool * Manager :=
  if negb participant then (false, m)
  else if is_discovery_started_ m then (true, m)
  else
    let m := set_started m true in
    let '(pub, m) := CreatePublisher rtps m in
    let '(ok, m) := if (pub : bool) then CreateSubscriber rtps m else (false, m) in
    if (ok : bool) then (true, m) else (false, StopDiscovery m).

Definition Shutdown (m : Manager) : Manager :=
  if is_shutdown_ m then m
  else
    let m := StopDiscovery (mkManager true (is_discovery_started_ m) (allowed_role_ m) (change_type_ m) (topic_ m)
               (own_host m) (own_pid m) (publisher_ m) (subscriber_ m) (listener_ m) (signal_ m) (published m)) in
    set_signal m (DisconnectAllSlots (signal_ m)).

Definition AddChangeListener (m : Manager) (func : option nat) : Connection * Manager :=
  let '(c, s) := Connect (signal_ m) func in (c, set_signal m s).

Definition RemoveChangeListener (m : Manager) (conn : Connection) : Manager :=
  set_signal m (Connection_Disconnect (signal_ m) conn).2.

(** ** Change messages *)
Definition NeedPublish (msg : ChangeMsg) : bool := true.

Definition fill {A} (o : option A) (d : A) : option A := Some (default d o).

Definition Convert (m : Manager) (now : Z) (attr : RoleAttributes) (role : RoleType) (opt : OperateType) : ChangeMsg :=
  mkMsg now (change_type_ m) opt role
    (mkAttr (fill (host_name_ attr) (own_host m)) (host_ip_ attr) (fill (process_id_ attr) (own_pid m))
            (node_name_ attr) (node_id_ attr) (channel_name_ attr) (channel_id_ attr) (message_type_ attr)
            (proto_desc_ attr) (id_ attr) (qos_profile_ attr) (socket_addr_ attr) (service_name_ attr)
            (service_id_ attr)).

Definition Publish (rtps : Rtps) (m : Manager) (msg : ChangeMsg) : bool * Manager :=
  if negb (is_discovery_started_ m) then (false, m)
  else if negb (serialize_ok rtps) then (false, m)
  else if publisher_ m
  then (write_ok rtps,
        if write_ok rtps
        then mkManager (is_shutdown_ m) (is_discovery_started_ m) (allowed_role_ m) (change_type_ m) (topic_ m)
               (own_host m) (own_pid m) (publisher_ m) (subscriber_ m) (listener_ m) (signal_ m) (published m ++ [msg])
        else m)
  else (true, m).

Definition IsFromSameProcess (m : Manager) (msg : ChangeMsg) : bool :=
  if negb (process_id (role_attr msg) =? own_pid m) || negb (bool_decide (host_name (role_attr msg) = own_host m))
  then false else true.

(** ** What a specific manager supplies *)
Class SpecificManager (T : Type) := {
  base : T -> Manager;
  with_base : T -> Manager -> T;
  Check : RoleAttributes -> bool;
  DisposeJoin : T -> ChangeMsg -> T;
  DisposeLeave : T -> ChangeMsg -> T;
  base_with_base : forall t m, base (with_base t m) = m;
  with_base_twice : forall t m m', with_base (with_base t m) m' = with_base t m';
  base_DisposeJoin : forall t msg, base (DisposeJoin t msg) = base t;
  base_DisposeLeave : forall t msg, base (DisposeLeave t msg) = base t
}.

Section SpecificManager.
Context {T : Type} `{SpecificManager T} (script : nat -> ChangeMsg -> list action).

Definition Notify (t : T) (msg : ChangeMsg) : T :=
  with_base t (set_signal (base t) (Emit script (signal_ (base t)) msg)).

Definition Dispose (t : T) (msg : ChangeMsg) : T :=
  Notify (match operate_type msg with OPT_JOIN => DisposeJoin t msg | OPT_LEAVE => DisposeLeave t msg end) msg.

Definition publish_t (rtps : Rtps) (t : T) (msg : ChangeMsg) : bool * T :=
  let '(b, m) := Publish rtps (base t) msg in (b, with_base t m).

Definition Join (rtps : Rtps) (now : Z) (t : T) (attr : RoleAttributes) (role : RoleType) (need_publish : bool) : bool * T :=
  if is_shutdown_ (base t) then (false, t)
  else if Z.land (Z.shiftl 1 (role_number role)) (allowed_role_ (base t)) =? 0 then (false, t)
  else if negb (Check attr) then (false, t)
  else
    let msg := Convert (base t) now attr role OPT_JOIN in
    let t := Dispose t msg in
    if need_publish then publish_t rtps t msg else (true, t).

Definition Leave (rtps : Rtps) (now : Z) (t : T) (attr : RoleAttributes) (role : RoleType) : bool * T :=
  if is_shutdown_ (base t) then (false, t)
  else if Z.land (Z.shiftl 1 (role_number role)) (allowed_role_ (base t)) =? 0 then (false, t)
  else if negb (Check attr) then (false, t)
  else
    let msg := Convert (base t) now attr role OPT_LEAVE in
    let t := Dispose t msg in
    if NeedPublish msg then publish_t rtps t msg else (true, t).

(** [msg] is what [ParseFromString] makes of the bytes received, [None] when it fails. *)
Definition OnRemoteChange (t : T) (msg : option ChangeMsg) : T :=
  if is_shutdown_ (base t) then t
  else match msg with
       | None => t
       | Some msg =>
           if IsFromSameProcess (base t) msg then t
           else if negb (Check (role_attr msg)) then t
           else Dispose t msg
       end.
End SpecificManager.

(** ** Life cycle *)
Section LifeCycle.
Context {T : Type} `{SpecificManager T} (script : nat -> ChangeMsg -> list action).

Inductive mgr_event :=
| EStart (rtps : Rtps) (participant : bool)
| EStop
| EShutdown
| EListen (func : option nat)
| EUnlisten (conn : Connection)
| EJoin (rtps : Rtps) (now : Z) (attr : RoleAttributes) (role : RoleType) (need_publish : bool)
| ELeave (rtps : Rtps) (now : Z) (attr : RoleAttributes) (role : RoleType)
| ERemote (msg : option ChangeMsg).

Definition mgr_step (t : T) (e : mgr_event) : T :=
  match e with
  | EStart rtps p => with_base t (StartDiscovery rtps p (base t)).2
  | EStop => with_base t (StopDiscovery (base t))
  | EShutdown => with_base t (Shutdown (base t))
  | EListen f => with_base t (AddChangeListener (base t) f).2
  | EUnlisten c => with_base t (RemoveChangeListener (base t) c)
  | EJoin rtps now attr role np => (Join script rtps now t attr role np).2
  | ELeave rtps now attr role => (Leave script rtps now t attr role).2
  | ERemote msg => OnRemoteChange script t msg
  end.

(** The middleware endpoints exist exactly while discovery is started. *)
Definition endpoints_ok (m : Manager) : Prop :=
  publisher_ m = is_discovery_started_ m /\ subscriber_ m = is_discovery_started_ m /\
  listener_ m = is_discovery_started_ m.

Definition same_life (m m' : Manager) : Prop :=
  is_shutdown_ m' = is_shutdown_ m /\ is_discovery_started_ m' = is_discovery_started_ m /\
  publisher_ m' = publisher_ m /\ subscriber_ m' = subscriber_ m /\ listener_ m' = listener_ m /\
  own_host m' = own_host m /\ own_pid m' = own_pid m /\ allowed_role_ m' = allowed_role_ m.

Lemma Dispose_life t msg : same_life (base t) (base (Dispose script t msg)).
Proof.
  unfold Dispose, Notify. rewrite base_with_base. unfold same_life; cbn.
  by destruct (operate_type msg); rewrite ?base_DisposeJoin, ?base_DisposeLeave.
Qed.

Lemma publish_life rtps t msg : same_life (base t) (base (publish_t rtps t msg).2).
Proof.
  unfold publish_t, Publish, same_life.
  destruct (negb (is_discovery_started_ (base t))); cbn; [by rewrite base_with_base|].
  destruct (negb (serialize_ok rtps)); cbn; [by rewrite base_with_base|].
  destruct (publisher_ (base t)) eqn:Hp; cbn; [|by rewrite base_with_base].
  destruct (write_ok rtps); cbn; rewrite base_with_base; done.
Qed.

Lemma same_life_trans m1 m2 m3 : same_life m1 m2 -> same_life m2 m3 -> same_life m1 m3.
Proof. unfold same_life. intuition congruence. Qed.

Lemma protocol_life t e :
  match e with EJoin _ _ _ _ _ | ELeave _ _ _ _ | ERemote _ => True | _ => False end ->
  same_life (base t) (base (mgr_step t e)).
Proof.
  assert (Hrefl : same_life (base t) (base t)) by done.
  destruct e as [| | | | |rtps now attr role np|rtps now attr role|msg]; try done; intros _; cbn [mgr_step].
  - unfold Join. destruct (is_shutdown_ _); [done|]. destruct (_ =? 0); [done|].
    destruct (negb (Check attr)); [done|]. destruct np; [|apply Dispose_life].
    eapply same_life_trans; [apply Dispose_life|apply publish_life].
  - unfold Leave. destruct (is_shutdown_ _); [done|]. destruct (_ =? 0); [done|].
    destruct (negb (Check attr)); [done|].
    eapply same_life_trans; [apply Dispose_life|apply publish_life].
  - unfold OnRemoteChange. destruct (is_shutdown_ _); [done|]. destruct msg as [msg|]; [|done].
    destruct (IsFromSameProcess _ _); [done|]. destruct (negb _); [done|]. apply Dispose_life.
Qed.

Lemma mgr_step_ok t e :
  endpoints_ok (base t) ->
  endpoints_ok (base (mgr_step t e)) /\ (is_shutdown_ (base t) = true -> is_shutdown_ (base (mgr_step t e)) = true).
Proof.
  unfold endpoints_ok. intros (Hp & Hs & Hl).
  destruct e as [rtps part| | | | |rtps now attr role np|rtps now attr role|msg].
  1-5: cbn [mgr_step]; rewrite base_with_base.
  - unfold StartDiscovery. destruct part; cbn; [|done].
    destruct (is_discovery_started_ (base t)) eqn:Hst; cbn; [intuition congruence|].
    unfold CreatePublisher, CreateSubscriber.
    destruct (pub_attr_ok rtps); cbn; [|intuition congruence].
    destruct (create_publisher rtps); cbn; [|intuition congruence].
    destruct (sub_attr_ok rtps); cbn; [|intuition congruence].
    destruct (create_subscriber rtps); cbn; intuition congruence.
  - unfold StopDiscovery. destruct (is_discovery_started_ (base t)) eqn:Hst; cbn; intuition congruence.
  - unfold Shutdown. destruct (is_shutdown_ (base t)) eqn:Hsd; [intuition congruence|]. unfold StopDiscovery; cbn.
    destruct (is_discovery_started_ (base t)) eqn:Hst; cbn; intuition congruence.
  - done.
  - done.
  - destruct (protocol_life t (EJoin rtps now attr role np) I) as (-> & -> & -> & -> & -> & _). done.
  - destruct (protocol_life t (ELeave rtps now attr role) I) as (-> & -> & -> & -> & -> & _). done.
  - destruct (protocol_life t (ERemote msg) I) as (-> & -> & -> & -> & -> & _). done.
Qed.

(** Over any sequence of starts (with any of the middleware calls failing), stops,
    shutdowns, listener changes, joins, leaves and remote messages, a manager has its
    publisher, subscriber and listener all three exactly while discovery is started; once
    shut down it stays so and refuses every join and leave and ignores every remote message;
    and a change it published for itself is ignored when the middleware echoes it. *)
Theorem manager_lifecycle (t : T) (evs : list mgr_event) :
  endpoints_ok (base t) ->
  let t' := foldl mgr_step t evs in
  endpoints_ok (base t') /\
  (is_shutdown_ (base t) = true -> is_shutdown_ (base t') = true) /\
  (is_shutdown_ (base t') = true -> forall rtps now attr role np msg,
     Join script rtps now t' attr role np = (false, t') /\
     Leave script rtps now t' attr role = (false, t') /\ OnRemoteChange script t' msg = t') /\
  (forall now attr role opt, host_name_ attr = None -> process_id_ attr = None ->
     OnRemoteChange script t' (Some (Convert (base t') now attr role opt)) = t').
Proof.
  intros Hok. cbv zeta. split_and!.
  - revert t Hok. induction evs as [|e evs IH]; intros t Hok; [done|]. apply IH. by apply mgr_step_ok.
  - revert t Hok. induction evs as [|e evs IH]; intros t Hok Hd; [done|].
    destruct (mgr_step_ok t e Hok) as [Hok' Hd']. cbn [foldl]. apply IH; auto.
  - intros Hd rtps now attr role np msg. unfold Join, Leave, OnRemoteChange. by rewrite Hd.
  - intros now attr role opt Hh Hpid. unfold OnRemoteChange.
    destruct (is_shutdown_ _); [done|]. unfold IsFromSameProcess, Convert; cbn. unfold host_name, process_id; cbn.
    rewrite Hh, Hpid; cbn. rewrite Z.eqb_refl, bool_decide_true by done. done.
Qed.
End LifeCycle.
