(* ===== verification/NodeManager.v ===== *)
(** * NodeManager: service_discovery/specific_manager/node_manager.cc

    Nodes are kept by id; of two joins with the same id the earlier one wins and the process
    of the later one is asked to shut down ([AsyncShutdown], recorded in a flag). *)

From Stdlib Require Import ZArith Lia.
From stdpp Require Import base strings gmap list.
From S2P Require Import Prelude GlobalData Signal Role Warehouse SingleValueWarehouse Manager.

Section NodeManager.
Context `{HashOrder}.

Record NodeManager := mkNM { nm_base : Manager; nodes_ : SingleValueWarehouse; async_shutdown : bool }.

Definition NodeManager_new (host : string) (pid : Z) : NodeManager :=
  let m := Manager_new host pid in
  mkNM (mkManager (is_shutdown_ m) (is_discovery_started_ m) (Z.lor (allowed_role_ m) (Z.shiftl 1 (role_number ROLE_NODE)))
          CHANGE_NODE "node_change_broadcast" (own_host m) (own_pid m) (publisher_ m) (subscriber_ m) (listener_ m)
          (signal_ m) (published m)) (mkSingle []) false.

Definition HasNode {M} `{!KeyedStore M string} (Hash : string -> Z) (g : GlobalData (M := M)) (t : NodeManager)
    (node_name : string) : option (bool * GlobalData (M := M)) :=
  '(key, g) ← RegisterNode Hash g node_name;
  Some (Search (nodes_ t) key, g).

Definition GetNodes (t : NodeManager) (nodes : option (list RoleAttributes)) : option (list RoleAttributes) :=
  GetAllAttrs (nodes_ t) nodes.

Definition NodeManager_Check (attr : RoleAttributes) : bool :=
  if negb (has (node_name_ attr)) then false
  else if negb (has (node_id_ attr)) then false
  else true.

(** The node a message describes. *)
Definition node_of (msg : ChangeMsg) : Role := mkRole RoleBase (role_attr msg) (timestamp msg).

Definition NodeManager_DisposeJoin (t : NodeManager) (msg : ChangeMsg) : NodeManager :=
  let node := node_of msg in
  let key := node_id (attributes node) in
  let '(added, nodes) := Add (nodes_ t) key node false in
  if (added : bool) then mkNM (nm_base t) nodes (async_shutdown t)
  else match Search_role nodes key (Some None) with
       | (true, Some (Some existing_node)) =>
           let '(newer_node, nodes) :=
             if IsEarlierThan node existing_node then (existing_node, (Add nodes key node true).2)
             else (node, nodes) in
           mkNM (nm_base t) nodes
             (if (process_id (attributes newer_node) =? own_pid (nm_base t)) &&
                 bool_decide (host_name (attributes newer_node) = own_host (nm_base t))
              then true else async_shutdown t)
       | _ => mkNM (nm_base t) (Add nodes key node true).2 (async_shutdown t)
       end.

Definition NodeManager_DisposeLeave (t : NodeManager) (msg : ChangeMsg) : NodeManager :=
  mkNM (nm_base t) (Remove (nodes_ t) (node_id (attributes (node_of msg)))) (async_shutdown t).

#[export] Instance NodeManager_specific : SpecificManager NodeManager.
Proof.
  refine {| base := nm_base; with_base t m := mkNM m (nodes_ t) (async_shutdown t);
            Check := NodeManager_Check; DisposeJoin := NodeManager_DisposeJoin;
            DisposeLeave := NodeManager_DisposeLeave |}; try done.
  intros t msg. unfold NodeManager_DisposeJoin. destruct (Add _ _ _ _) as [[] nodes]; [done|].
  destruct (Search_role _ _ _) as [[] [[existing|]|]]; try done. by destruct (IsEarlierThan _ _).
Defined.

Context (script : nat -> ChangeMsg -> list action).

Definition NodeManager_Dispose : NodeManager -> ChangeMsg -> NodeManager := Dispose script.

(** The nodes of a process that left are removed, then the listeners told. *)
Definition OnTopoModuleLeave (now : Z) (t : NodeManager) (host_name : string) (process_id : Z) : NodeManager :=
  if negb (is_discovery_started_ (nm_base t)) then t
  else
    let nodes_to_remove := default [] (Match_roles (nodes_ t) (process_attr host_name process_id) (Some [])).2 in
    let t := mkNM (nm_base t)
               (foldl (fun w node => Remove w (node_id (attributes node))) (nodes_ t) nodes_to_remove)
               (async_shutdown t) in
    foldl (fun t node => Notify script t (Convert (nm_base t) now (attributes node) ROLE_NODE OPT_LEAVE)) t nodes_to_remove.

(** ** Duplicated nodes *)
Definition own (t : NodeManager) (msg : ChangeMsg) : Prop :=
  process_id (role_attr msg) = own_pid (nm_base t) /\ host_name (role_attr msg) = own_host (nm_base t).

Definition msg_id (msg : ChangeMsg) : Z := node_id (role_attr msg).

(** What the joins [msgs] leave behind. *)
Record joins_ok (t0 : NodeManager) (msgs : list ChangeMsg) (t : NodeManager) : Prop := {
  jo_ok : single_ok (nodes_ t);
  jo_own : own_pid (nm_base t) = own_pid (nm_base t0) /\ own_host (nm_base t) = own_host (nm_base t0);
  jo_some : forall k r, as_map (nodes_ t) !! k = Some r ->
    exists msg, msg ∈ msgs /\ msg_id msg = k /\ r = node_of msg;
  jo_min : forall msg, msg ∈ msgs -> exists r, as_map (nodes_ t) !! msg_id msg = Some r /\ timestamp_ns r <= timestamp msg;
  jo_loser : forall msg, msg ∈ msgs -> own t0 msg ->
    as_map (nodes_ t) !! msg_id msg = Some (node_of msg) \/ async_shutdown t = true
}.

(** The effect of one join on the map of nodes and on the flag. *)
Lemma DisposeJoin_effect t msg :
  single_ok (nodes_ t) ->
  let t' := NodeManager_DisposeJoin t msg in
  let k := msg_id msg in
  single_ok (nodes_ t') /\
  match as_map (nodes_ t) !! k with
  | None => as_map (nodes_ t') = <[k := node_of msg]> (as_map (nodes_ t)) /\ async_shutdown t' = async_shutdown t
  | Some e =>
      if timestamp msg <? timestamp_ns e
      then as_map (nodes_ t') = <[k := node_of msg]> (as_map (nodes_ t)) /\
           (async_shutdown t' = true <-> async_shutdown t = true \/
              (process_id (attributes e) = own_pid (nm_base t) /\ host_name (attributes e) = own_host (nm_base t)))
      else as_map (nodes_ t') = as_map (nodes_ t) /\
           (async_shutdown t' = true <-> async_shutdown t = true \/ own t msg)
  end.
Proof.
  intros Hok. cbv zeta. unfold NodeManager_DisposeJoin. cbn [attributes node_of].
  change (node_id (role_attr msg)) with (msg_id msg).
  rewrite (find_as_map (nodes_ t) (msg_id msg) Hok).
  pose proof (as_map_Add (nodes_ t) (msg_id msg) (node_of msg) true Hok) as Hins. cbn [negb andb] in Hins.
  assert (Hok' : single_ok (Add (nodes_ t) (msg_id msg) (node_of msg) true).2) by by apply assign_ok.
  destruct (find (msg_id msg) (table (nodes_ t))) as [e|] eqn:Hf.
  - assert (Hadd : Add (nodes_ t) (msg_id msg) (node_of msg) false = (false, nodes_ t))
      by (unfold Add; by rewrite Hf).
    rewrite Hadd. unfold Search_role. rewrite Hf. unfold IsEarlierThan. cbn [timestamp_ns node_of].
    destruct (timestamp msg <? timestamp_ns e); cbn [nodes_ async_shutdown nm_base];
      (split; [done|]); (split; [done|]); unfold own; cbn [attributes node_of];
      repeat zcase; case_bool_decide; cbn; intuition congruence.
  - assert (Hadd : Add (nodes_ t) (msg_id msg) (node_of msg) false = Add (nodes_ t) (msg_id msg) (node_of msg) true)
      by (unfold Add; by rewrite Hf).
    rewrite Hadd. destruct (Add (nodes_ t) (msg_id msg) (node_of msg) true) as [b w] eqn:Ha.
    assert (b = true) as -> by (unfold Add in Ha; cbn in Ha; by simplify_eq). done.
Qed.

Lemma join_step t0 msgs t msg :
  joins_ok t0 msgs t -> operate_type msg = OPT_JOIN ->
  joins_ok t0 (msgs ++ [msg]) (NodeManager_Dispose t msg).
Proof.
  intros [Hok [Hpid Hhost] Hsome Hmin Hlose] Hop.
  unfold NodeManager_Dispose, Dispose, Notify. rewrite Hop. cbn [with_base NodeManager_specific DisposeJoin base].
  pose proof (base_DisposeJoin t msg) as Hb. cbn in Hb.
  destruct (DisposeJoin_effect t msg Hok) as [Hok' Heff]. cbv zeta in Heff.
  set (t' := NodeManager_DisposeJoin t msg) in *. clearbody t'.
  assert (Hown : forall m, own t m <-> own t0 m) by (intros; unfold own; by rewrite Hpid, Hhost).
  assert (Hnew : as_map (nodes_ t') !! msg_id msg = Some (node_of msg) \/
                 (exists e, as_map (nodes_ t) !! msg_id msg = Some e /\ timestamp_ns e <= timestamp msg /\
                            as_map (nodes_ t') = as_map (nodes_ t) /\ (own t msg -> async_shutdown t' = true))).
  { destruct (as_map (nodes_ t) !! msg_id msg) as [e|]; [|destruct Heff as [-> _]; left; apply lookup_insert_eq].
    destruct (Z.ltb_spec (timestamp msg) (timestamp_ns e)); destruct Heff as [He1 He2].
    - left. rewrite He1. apply lookup_insert_eq.
    - right. exists e. split; [done|]. split; [lia|]. split; [done|]. intros. apply He2. by right. }
  assert (Hold : forall k, k <> msg_id msg -> as_map (nodes_ t') !! k = as_map (nodes_ t) !! k).
  { intros k Hk. destruct (as_map (nodes_ t) !! msg_id msg) as [e|];
      [destruct (timestamp msg <? timestamp_ns e)|]; destruct Heff as [-> _]; rewrite ?lookup_insert_ne; done. }
  assert (Hflag : async_shutdown t = true -> async_shutdown t' = true).
  { intros Ha. destruct (as_map (nodes_ t) !! msg_id msg) as [e|];
      [destruct (timestamp msg <? timestamp_ns e)|]; destruct Heff as [_ He]; [apply He; by left..|congruence]. }
  split; cbn [nodes_ nm_base own_pid own_host async_shutdown set_signal].
  - done.
  - by rewrite Hb.
  - intros k r Hk. destruct (decide (k = msg_id msg)) as [->|Hne].
    + destruct Hnew as [Hn|(e & He & _ & Hs & _)].
      * exists msg. split; [set_solver|]. split; [done|]. congruence.
      * rewrite Hs in Hk. destruct (Hsome _ _ Hk) as (m & ? & ? & ?). exists m. set_solver.
    + rewrite Hold in Hk by done. destruct (Hsome _ _ Hk) as (m & ? & ? & ?). exists m. set_solver.
  - intros m [Hm| ->%list_elem_of_singleton]%elem_of_app.
    + destruct (Hmin m Hm) as (r & Hr & Hle). destruct (decide (msg_id m = msg_id msg)) as [Heq|Hne].
      * rewrite Heq in *. rewrite Hr in Heff.
        destruct (Z.ltb_spec (timestamp msg) (timestamp_ns r)); destruct Heff as [-> _].
        -- exists (node_of msg). split; [apply lookup_insert_eq|]. cbn. lia.
        -- by exists r.
      * exists r. by rewrite Hold.
    + destruct Hnew as [Hn|(e & He & Hle & Hs & _)].
      * exists (node_of msg). split; [done|]. cbn. lia.
      * exists e. by rewrite Hs.
  - intros m [Hm| ->%list_elem_of_singleton]%elem_of_app Hom.
    + destruct (Hlose m Hm Hom) as [Hr|Ha]; [|right; by apply Hflag].
      destruct (decide (msg_id m = msg_id msg)) as [Heq|Hne]; [|left; by rewrite Hold].
      rewrite Heq in *. rewrite Hr in Heff. cbn [timestamp_ns attributes node_of] in Heff.
      destruct (timestamp msg <? timestamp m); destruct Heff as [Heq' Hfl].
      * right. apply Hfl. right. apply Hown in Hom. exact Hom.
      * left. by rewrite Heq'.
    + destruct Hnew as [Hn|(e & He & _ & Hs & Hfl)]; [by left|]. right. apply Hfl. by apply Hown.
Qed.

(** After any sequence of join messages the nodes known are exactly those that joined,
    the one kept for an id is one of its joins with the smallest timestamp, and a node of
    this very process that is not the one kept has had the process's shutdown requested. *)
Theorem node_manager_keeps_earliest (t0 : NodeManager) (msgs : list ChangeMsg) :
  table (nodes_ t0) = [] -> Forall (fun msg => operate_type msg = OPT_JOIN) msgs ->
  let t := foldl NodeManager_Dispose t0 msgs in
  (forall k r, as_map (nodes_ t) !! k = Some r -> exists msg, msg ∈ msgs /\ msg_id msg = k /\ r = node_of msg) /\
  (forall msg, msg ∈ msgs -> exists r, as_map (nodes_ t) !! msg_id msg = Some r /\ timestamp_ns r <= timestamp msg) /\
  (forall msg, msg ∈ msgs -> own t0 msg ->
     as_map (nodes_ t) !! msg_id msg = Some (node_of msg) \/ async_shutdown t = true).
Proof.
  intros H0 Hops. cbv zeta.
  assert (Hj : joins_ok t0 msgs (foldl NodeManager_Dispose t0 msgs)); [|by destruct Hj].
  induction msgs as [|msg msgs IH] using rev_ind.
  - cbn [foldl]. assert (He : as_map (nodes_ t0) = ∅) by (unfold as_map; by rewrite H0).
    split; [|done|rewrite He; set_solver|set_solver|set_solver].
    unfold single_ok. rewrite H0. constructor.
  - apply Forall_app in Hops as [Hops Ho]. rewrite Forall_singleton in Ho.
    rewrite foldl_app. cbn [foldl]. apply join_step; [by apply IH|done].
Qed.

(** ** A process leaves *)

(** Every node is filed under its own id. *)
Definition filed (t : NodeManager) : Prop :=
  single_ok (nodes_ t) /\ forall k r, (k, r) ∈ table (nodes_ t) -> k = node_id (attributes r).

Lemma foldl_Remove l w :
  single_ok w ->
  single_ok (foldl (fun w node => Remove w (node_id (attributes node))) w l) /\
  forall kr, kr ∈ table (foldl (fun w node => Remove w (node_id (attributes node))) w l) <->
             kr ∈ table w /\ ~ exists node, node ∈ l /\ node_id (attributes node) = kr.1.
Proof.
  revert w. induction l as [|n l IH]; intros w Hok; cbn [foldl].
  - split; [done|]. set_solver.
  - destruct (IH (Remove w (node_id (attributes n)))) as [Hok' Hin]; [by apply erase_if_keys|].
    split; [done|]. intros kr. rewrite Hin. unfold Remove; cbn [table]. rewrite elem_of_erase_if.
    unfold key_is. rewrite Z.eqb_neq. set_solver.
Qed.

Lemma Notify_nodes l now t :
  nodes_ (foldl (fun t node => Notify script t (Convert (nm_base t) now (attributes node) ROLE_NODE OPT_LEAVE)) t l) = nodes_ t.
Proof. revert t. induction l as [|n l IH]; intros t; cbn [foldl]; [done|]. by rewrite IH. Qed.

(** When a process leaves the topology while discovery runs, exactly its nodes disappear
    from the node table: those with its host name and process id; every other node stays. *)
Lemma node_process_leaves (now : Z) (t : NodeManager) (host : string) (pid : Z) :
  filed t -> is_discovery_started_ (nm_base t) = true ->
  let t' := OnTopoModuleLeave now t host pid in
  filed t' /\
  forall k r, (k, r) ∈ table (nodes_ t') <->
    (k, r) ∈ table (nodes_ t) /\ ~ (process_id (attributes r) = pid /\ host_name (attributes r) = host).
Proof.
  intros [Hok Hfile] Hst. unfold OnTopoModuleLeave. rewrite Hst. cbn [negb]. cbv zeta.
  unfold filed. rewrite Notify_nodes. cbn [nodes_]. unfold Match_roles. rewrite append_all_spec, list_fmap_id.
  cbn [default snd app]. set (l := all_match (process_attr host pid) (table (nodes_ t))).
  destruct (foldl_Remove l (nodes_ t) Hok) as [Hok' Hin].
  split; [split; [done|]; intros k r [Hkr _]%Hin; by apply Hfile|].
  intros k r. rewrite Hin. cbn. split; intros [Hkr Hno]; (split; [done|]).
  - intros [Hp Hh]. apply Hno. exists r. split; [|symmetry; by apply Hfile].
    apply elem_of_all_match. rewrite Match_process, !bool_decide_true by done. eauto.
  - intros (n & [HM [k' Hk']]%elem_of_all_match & Hid). apply Hno.
    assert (k' = k) as -> by (rewrite (Hfile _ _ Hk'); done).
    apply (find_unique k _ n Hok) in Hk'. apply (find_unique k _ r Hok) in Hkr.
    rewrite Match_process, andb_true_iff, !bool_decide_eq_true in HM. congruence.
Qed.
End NodeManager.

(** ** Witnesses *)
Definition node_attr (host : string) (pid nid : Z) : RoleAttributes :=
  mkAttr (Some host) None (Some pid) (Some "n") (Some nid) None None None None None None None None None.
Definition join_msg (host : string) (pid nid ts : Z) : ChangeMsg :=
  mkMsg ts CHANGE_NODE OPT_JOIN ROLE_NODE (node_attr host pid nid).

Lemma node_manager_keeps_earliest_witness :
  let t0 := NodeManager_new "me" 1 in
  let msgs := [join_msg "me" 1 9 50; join_msg "other" 2 9 40; join_msg "me" 1 7 60] in
  let t := foldl (@NodeManager_Dispose recent_first (fun _ _ => [])) t0 msgs in
  async_shutdown t = true /\
  (forall msg, msg ∈ msgs -> own t0 msg ->
     as_map (nodes_ t) !! msg_id msg = Some (node_of msg) \/ async_shutdown t = true).
Proof.
  cbv zeta. split; [by vm_compute|].
  pose proof (@node_manager_keeps_earliest recent_first (fun _ _ => []) (NodeManager_new "me" 1)
    [join_msg "me" 1 9 50; join_msg "other" 2 9 40; join_msg "me" 1 7 60] eq_refl
    ltac:(repeat constructor)) as (_ & _ & Hl).
  exact Hl.
Defined.

Definition running_manager : NodeManager :=
  mkNM (set_started (nm_base (NodeManager_new "me" 1)) true)
    (mkSingle [(9, node_of (join_msg "other" 2 9 40)); (7, node_of (join_msg "me" 1 7 60))]) false.

(** The leave of a duplicated node removes the node that won: process 2 joins with the id
    of a node of process 1 later, loses, and its leave message then empties the table although
    the node of process 1 is still there. *)
Theorem node_leave_removes_winner :
  let dispose := @NodeManager_Dispose recent_first (fun _ _ => []) in
  let t := foldl dispose (NodeManager_new "h" 1) [join_msg "h" 1 9 40; join_msg "h" 2 9 50] in
  table (nodes_ t) = [(9, node_of (join_msg "h" 1 9 40))] /\
  table (nodes_ (dispose t (mkMsg 60 CHANGE_NODE OPT_LEAVE ROLE_NODE (node_attr "h" 2 9)))) = [].
Proof. by vm_compute. Qed.

(** A start whose subscriber fails, a good start, a join, a shutdown. *)
Definition life_script : list mgr_event :=
  [EStart (mkRtps true true true false true true) true; EStart (mkRtps true true true true true true) true;
   EJoin (mkRtps true true true true true true) 5 (mkAttr None None None (Some "n") (Some 4) None None None None None None None None None) ROLE_NODE true;
   EShutdown].

Lemma manager_lifecycle_witness :
  let t := foldl (@mgr_step NodeManager (@NodeManager_specific recent_first) (fun _ _ => [])) (NodeManager_new "me" 1) life_script in
  endpoints_ok (@base NodeManager (@NodeManager_specific recent_first) t) /\ length (published (@base NodeManager (@NodeManager_specific recent_first) t)) = 1%nat /\ is_shutdown_ (@base NodeManager (@NodeManager_specific recent_first) t) = true.
Proof.
  cbv zeta. split; [|by vm_compute].
  destruct (@manager_lifecycle NodeManager (@NodeManager_specific recent_first) (fun _ _ => []) (NodeManager_new "me" 1)
              life_script ltac:(done)) as [Hok _].
  exact Hok.
Defined.
