(* ===== verification/ChannelManager.v ===== *)
(** * ChannelManager: service_discovery/specific_manager/channel_manager.cc

    Writers and readers, each filed both by node and by channel, and the graph of the nodes.
    Queries by name go through the registries of [GlobalData].  What is logged (type
    mismatches) and handed to the protobuf factory (message descriptors) is recorded. *)

From Stdlib Require Import ZArith Lia.
From stdpp Require Import base strings gmap sets list.
From S2P Require Import Prelude AtomicHashMap GlobalData Signal Role Warehouse MultiValueWarehouse Graph Manager.

Record ChannelManager := mkCM {
  cm_base : Manager;
  node_graph_ : Graph;
  node_writers_ : MultiValueWarehouse;
  node_readers_ : MultiValueWarehouse;
  channel_writers_ : MultiValueWarehouse;
  channel_readers_ : MultiValueWarehouse;
  type_errors : list RoleAttributes;
  registered_desc : list string
}.

Definition ChannelManager_new (host : string) (pid : Z) : ChannelManager :=
  let m := Manager_new host pid in
  mkCM (mkManager (is_shutdown_ m) (is_discovery_started_ m)
          (Z.lor (Z.lor (allowed_role_ m) (Z.shiftl 1 (role_number ROLE_WRITER))) (Z.shiftl 1 (role_number ROLE_READER)))
          CHANGE_CHANNEL "channel_change_broadcast" (own_host m) (own_pid m) (publisher_ m) (subscriber_ m) (listener_ m)
          (signal_ m) (published m))
       Graph_new (mkMulti []) (mkMulti []) (mkMulti []) (mkMulti []) [] [].

(** The two wrapper types that go with any message type. *)
Definition exempted_msg_types_ : gset string :=
  {["apollo.cyber.message.RawMessage"; "apollo.cyber.message.PyMessage"]}.

Definition IsMessageTypeMatching (lhs rhs : string) : bool :=
  if bool_decide (lhs = rhs) then true
  else if bool_decide (lhs ∈ exempted_msg_types_) then true
  else if bool_decide (rhs ∈ exempted_msg_types_) then true
  else false.

Definition ChannelManager_Check (attr : RoleAttributes) : bool :=
  if negb (has (channel_name_ attr)) then false
  else if negb (has (channel_id_ attr)) then false
  else if negb (has (id_ attr)) then false
  else true.

(** The roles already on the channel whose message type does not go with the newcomer's. *)
Definition ScanMessageType (t : ChannelManager) (msg : ChangeMsg) : list RoleAttributes :=
  let key := channel_id (role_attr msg) in
  let bad (a : RoleAttributes) := negb (IsMessageTypeMatching (message_type (role_attr msg)) (message_type a)) in
  List.filter bad (default [] (Search_attrs (channel_writers_ t) key (Some [])).2) ++
  List.filter bad (default [] (Search_attrs (channel_readers_ t) key (Some [])).2).

Section ChannelManager.
Context `{HashOrder}.

Definition ChannelManager_DisposeJoin (t : ChannelManager) (msg : ChangeMsg) : ChannelManager :=
  let errors := type_errors t ++ ScanMessageType t msg in
  let a := role_attr msg in
  let v := mkVertice (node_name a) in
  let role := mkRole RoleWriter a (timestamp msg) in
  if bool_decide (role_type msg = ROLE_WRITER) then
    mkCM (cm_base t)
         (Insert (node_graph_ t) (mkEdge v (mkVertice "") (channel_name a)))
         (Add (node_writers_ t) (node_id a) role true).2 (node_readers_ t)
         (Add (channel_writers_ t) (channel_id a) role true).2 (channel_readers_ t) errors
         (if has (proto_desc_ a) && negb (bool_decide (proto_desc a = "")) then registered_desc t ++ [proto_desc a]
          else registered_desc t)
  else
    mkCM (cm_base t)
         (Insert (node_graph_ t) (mkEdge (mkVertice "") v (channel_name a)))
         (node_writers_ t) (Add (node_readers_ t) (node_id a) role true).2
         (channel_writers_ t) (Add (channel_readers_ t) (channel_id a) role true).2 errors (registered_desc t).

Definition ChannelManager_DisposeLeave (t : ChannelManager) (msg : ChangeMsg) : ChannelManager :=
  let a := role_attr msg in
  let v := mkVertice (node_name a) in
  let role := mkRole RoleWriter a 0 in
  if bool_decide (role_type msg = ROLE_WRITER) then
    mkCM (cm_base t)
         (Delete (node_graph_ t) (mkEdge v (mkVertice "") (channel_name a)))
         (Remove_role (node_writers_ t) (node_id a) role) (node_readers_ t)
         (Remove_role (channel_writers_ t) (channel_id a) role) (channel_readers_ t) (type_errors t) (registered_desc t)
  else
    mkCM (cm_base t)
         (Delete (node_graph_ t) (mkEdge (mkVertice "") v (channel_name a)))
         (node_writers_ t) (Remove_role (node_readers_ t) (node_id a) role)
         (channel_writers_ t) (Remove_role (channel_readers_ t) (channel_id a) role) (type_errors t) (registered_desc t).

#[export] Instance ChannelManager_specific : SpecificManager ChannelManager.
Proof.
  refine {| base := cm_base;
            with_base t m := mkCM m (node_graph_ t) (node_writers_ t) (node_readers_ t) (channel_writers_ t)
                               (channel_readers_ t) (type_errors t) (registered_desc t);
            Check := ChannelManager_Check; DisposeJoin := ChannelManager_DisposeJoin;
            DisposeLeave := ChannelManager_DisposeLeave |}; try done.
  - intros t msg. unfold ChannelManager_DisposeJoin. by case_bool_decide.
  - intros t msg. unfold ChannelManager_DisposeLeave. by case_bool_decide.
Defined.

Context (script : nat -> ChangeMsg -> list action).

Definition ChannelManager_Dispose : ChannelManager -> ChangeMsg -> ChannelManager := Dispose script.

(** One round of the loops of [OnTopoModuleLeave]. *)
Definition leave_role (now : Z) (kind : RoleType) (t : ChannelManager) (r : Role) : ChannelManager :=
  let msg := Convert (cm_base t) now (attributes r) kind OPT_LEAVE in
  Notify script (ChannelManager_DisposeLeave t msg) msg.

Definition OnTopoModuleLeave (now : Z) (t : ChannelManager) (host_name : string) (process_id : Z) : ChannelManager :=
  if negb (is_discovery_started_ (cm_base t)) then t
  else
    let attr := process_attr host_name process_id in
    let writers_to_remove := default [] (Match_roles (channel_writers_ t) attr (Some [])).2 in
    let readers_to_remove := default [] (Match_roles (channel_readers_ t) attr (Some [])).2 in
    let t := foldl (leave_role now ROLE_WRITER) t writers_to_remove in
    foldl (leave_role now ROLE_READER) t readers_to_remove.

(** ** Queries *)
Section Queries.
Context {M : Type} `{!KeyedStore M string} (Hash : string -> Z).
Abbreviation GD := (@GlobalData M).

Definition GetFlowDirection (t : ChannelManager) (lhs_node_name rhs_node_name : string) : option (FlowDirection * ChannelManager) :=
  '(d, g) ← GetDirectionOf (node_graph_ t) (mkVertice lhs_node_name) (mkVertice rhs_node_name);
  Some (d, mkCM (cm_base t) g (node_writers_ t) (node_readers_ t) (channel_writers_ t) (channel_readers_ t)
                (type_errors t) (registered_desc t)).

Definition GetChannelNames (t : ChannelManager) (channels : option (list string)) : option (list string) :=
  (fun out =>
     let roles := default [] (GetAllRoles (channel_readers_ t) (GetAllRoles (channel_writers_ t) (Some []))) in
     let local_channels : gset string := list_to_set ((fun r => channel_name (attributes r)) <$> roles) in
     out ++ rehash (elements local_channels)) <$> channels.

Definition first_writer (g : GD) (t : ChannelManager) (channel_name : string) : option (option Role * GD) :=
  '(key, g) ← RegisterChannel Hash g channel_name;
  Some (match Search_role (channel_writers_ t) key (Some None) with (true, Some w) => w | _ => None end, g).

Definition GetProtoDesc (g : GD) (t : ChannelManager) (channel_name : string) (desc : option string) : option (option string * GD) :=
  match desc with
  | None => Some (None, g)
  | Some out =>
      '(writer, g) ← first_writer g t channel_name;
      Some (Some (default out (w ← writer; proto_desc_ (attributes w))), g)
  end.

Definition GetMsgType (g : GD) (t : ChannelManager) (channel_name : string) (msg_type : option string) : option (option string * GD) :=
  match msg_type with
  | None => Some (None, g)
  | Some out =>
      '(writer, g) ← first_writer g t channel_name;
      Some (Some (default out (w ← writer; message_type_ (attributes w))), g)
  end.

Definition HasWriter (g : GD) (t : ChannelManager) (channel_name : string) : option (bool * GD) :=
  '(key, g) ← RegisterChannel Hash g channel_name; Some (Search (channel_writers_ t) key, g).

Definition HasReader (g : GD) (t : ChannelManager) (channel_name : string) : option (bool * GD) :=
  '(key, g) ← RegisterChannel Hash g channel_name; Some (Search (channel_readers_ t) key, g).

Definition GetWriters (t : ChannelManager) (writers : option (list RoleAttributes)) := GetAllAttrs (channel_writers_ t) writers.
Definition GetReaders (t : ChannelManager) (readers : option (list RoleAttributes)) := GetAllAttrs (channel_readers_ t) readers.

(** [w.Search(key, out)] under the id a registration gives. *)
Definition search_named (register : option (Z * GD)) (g : GD) (w : MultiValueWarehouse) (out : option (list RoleAttributes))
    : option (option (list RoleAttributes) * GD) :=
  match out with
  | None => Some (None, g)
  | Some l => '(key, g) ← register; Some ((Search_attrs w key (Some l)).2, g)
  end.

Definition GetWritersOfNode (g : GD) (t : ChannelManager) (node_name : string) (writers : option (list RoleAttributes)) :=
  search_named (RegisterNode Hash g node_name) g (node_writers_ t) writers.
Definition GetReadersOfNode (g : GD) (t : ChannelManager) (node_name : string) (readers : option (list RoleAttributes)) :=
  search_named (RegisterNode Hash g node_name) g (node_readers_ t) readers.
Definition GetWritersOfChannel (g : GD) (t : ChannelManager) (channel_name : string) (writers : option (list RoleAttributes)) :=
  search_named (RegisterChannel Hash g channel_name) g (channel_writers_ t) writers.
Definition GetReadersOfChannel (g : GD) (t : ChannelManager) (channel_name : string) (readers : option (list RoleAttributes)) :=
  search_named (RegisterChannel Hash g channel_name) g (channel_readers_ t) readers.

(** The attributes reported for a neighbouring node. *)
Definition node_attr_of (a : RoleAttributes) : RoleAttributes :=
  mkAttr (Some (host_name a)) None (Some (process_id a)) (Some (node_name a)) (Some (node_id a))
         None None None None None None None None None.

(** The loop over the channels that appends what [get] finds on each. *)
Fixpoint collect (get : GD -> string -> option (list RoleAttributes) -> option (option (list RoleAttributes) * GD))
    (g : GD) (channels : list string) (acc : option (list RoleAttributes)) : option (option (list RoleAttributes) * GD) :=
  match channels with
  | [] => Some (acc, g)
  | c :: channels => '(acc, g) ← get g c acc; collect get g channels acc
  end.

Definition neighbours (near : option (option (list RoleAttributes) * GD))
    (get : GD -> string -> option (list RoleAttributes) -> option (option (list RoleAttributes) * GD))
    (g : GD) (out : option (list RoleAttributes)) : option (option (list RoleAttributes) * GD) :=
  match out with
  | None => Some (None, g)
  | Some l =>
      '(own, g) ← near;
      match default [] own with
      | [] => Some (Some l, g)
      | ours =>
          let channels : gset string := list_to_set (channel_name <$> ours) in
          '(others, g) ← collect get g (rehash (elements channels)) (Some []);
          let nodes : gmap string RoleAttributes :=
            foldl (fun m a => <[node_name a := node_attr_of a]> m) ∅ (default [] others) in
          Some (Some (l ++ (rehash (map_to_list nodes)).*2), g)
      end
  end.

Definition GetUpstreamOfNode (g : GD) (t : ChannelManager) (node_name : string) (upstream_nodes : option (list RoleAttributes)) :=
  neighbours (GetReadersOfNode g t node_name (Some [])) (fun g c acc => GetWritersOfChannel g t c acc) g upstream_nodes.

Definition GetDownstreamOfNode (g : GD) (t : ChannelManager) (node_name : string) (downstream_nodes : option (list RoleAttributes)) :=
  neighbours (GetWritersOfNode g t node_name (Some [])) (fun g c acc => GetReadersOfChannel g t c acc) g downstream_nodes.
End Queries.

(** ** The two filings of a role agree *)

(** Attributes with everything a stored role is found and matched by. *)
Definition full (a : RoleAttributes) : Prop :=
  is_Some (host_name_ a) /\ is_Some (process_id_ a) /\ is_Some (node_id_ a) /\ is_Some (channel_id_ a).

Definition stored (r : Role) : Prop := role_class r = RoleWriter /\ full (attributes r).

Definition filed_by (f : RoleAttributes -> Z) (w : MultiValueWarehouse) : Prop :=
  forall k r, (k, r) ∈ table w -> k = f (attributes r) /\ stored r.

(** The roles [l], filed by node in [nw] and by channel in [cw]. *)
Record views (l : list Role) (nw cw : MultiValueWarehouse) : Prop := {
  vw_node : filed_by node_id nw;
  vw_chan : filed_by channel_id cw;
  vw_nroles : (table nw).*2 ≡ₚ l;
  vw_croles : (table cw).*2 ≡ₚ l
}.

(** The roles left when one leaves. *)
Definition without (a : RoleAttributes) (l : list Role) : list Role := filter (fun x => Match x a = false) l.

Lemma full_Match x a :
  role_class x = RoleWriter -> full a -> Match x a = true ->
  node_id (attributes x) = node_id a /\ channel_id (attributes x) = channel_id a /\
  process_id (attributes x) = process_id a /\ host_name (attributes x) = host_name a.
Proof.
  unfold Match, RoleWriter_Match, RoleBase_Match. intros -> ([h Hh] & [p Hp] & [n Hn] & [c Hc]).
  unfold node_id, channel_id, process_id, host_name. rewrite Hh, Hp, Hn, Hc. cbn.
  destruct (field_ok (id_ a) 0 (id_ (attributes x))); repeat case_bool_decide; done.
Qed.

Lemma entry_is_Match k x r :
  role_class x = RoleWriter -> full (attributes r) ->
  (k = node_id (attributes x) -> entry_is (node_id (attributes r)) r (k, x) = Match x (attributes r)) /\
  (k = channel_id (attributes x) -> entry_is (channel_id (attributes r)) r (k, x) = Match x (attributes r)).
Proof.
  intros Hc Hf. unfold entry_is; cbn. destruct (Match x (attributes r)) eqn:HM.
  - destruct (full_Match x _ Hc Hf HM) as (Hn & Hch & _). split; intros ->; by rewrite andb_true_r, Z.eqb_eq.
  - by rewrite !andb_false_r.
Qed.

Lemma erase_roles (P : Z * Role -> bool) a l :
  (forall k x, (k, x) ∈ l -> P (k, x) = Match x a) -> (erase_if P l).*2 = without a l.*2.
Proof.
  unfold without. induction l as [|[k x] l IH]; intros HP; [done|].
  rewrite erase_if_cons, fmap_cons, filter_cons. rewrite (HP k x) by set_solver. cbn.
  rewrite <- IH by (intros; apply HP; set_solver). by destruct (Match x a).
Qed.

#[local] Instance without_perm a : Proper ((≡ₚ) ==> (≡ₚ)) (without a).
Proof. intros l l' Hl. unfold without. by rewrite Hl. Qed.

Lemma views_add l nw cw r :
  views l nw cw -> stored r ->
  views (r :: l) (Add nw (node_id (attributes r)) r true).2 (Add cw (channel_id (attributes r)) r true).2.
Proof.
  intros [Hn Hc Hpn Hpc] Hr. unfold Add; cbn. split; cbn.
  - intros k x. unfold MultiValueWarehouse.table. rewrite rehash_perm. intros [[= -> ->]|Hin]%elem_of_cons; [done|by apply Hn].
  - intros k x. unfold MultiValueWarehouse.table. rewrite rehash_perm. intros [[= -> ->]|Hin]%elem_of_cons; [done|by apply Hc].
  - rewrite rehash_perm. cbn. by rewrite Hpn.
  - rewrite rehash_perm. cbn. by rewrite Hpc.
Qed.

Lemma views_remove l nw cw r :
  views l nw cw -> full (attributes r) ->
  views (without (attributes r) l) (Remove_role nw (node_id (attributes r)) r) (Remove_role cw (channel_id (attributes r)) r).
Proof.
  intros [Hn Hc Hpn Hpc] Hr. unfold Remove_role. split; cbn.
  - intros k x [_ Hin]%elem_of_erase_if. by apply Hn.
  - intros k x [_ Hin]%elem_of_erase_if. by apply Hc.
  - rewrite (erase_roles _ (attributes r)); [by rewrite Hpn|].
    intros k x Hin. destruct (Hn k x Hin) as (Hk & Hcl & _). by apply (entry_is_Match k x r Hcl Hr).
  - rewrite (erase_roles _ (attributes r)); [by rewrite Hpc|].
    intros k x Hin. destruct (Hc k x Hin) as (Hk & Hcl & _). by apply (entry_is_Match k x r Hcl Hr).
Qed.

(** ** The manager stands for a list of writers and one of readers *)
Record cm_views (ws rs : list Role) (t : ChannelManager) : Prop := {
  cv_writers : views ws (node_writers_ t) (channel_writers_ t);
  cv_readers : views rs (node_readers_ t) (channel_readers_ t)
}.

(** What a message means for the writers ([kind = true]) or the readers. *)
Definition spec_msg (kind : bool) (l : list Role) (msg : ChangeMsg) : list Role :=
  if Bool.eqb (bool_decide (role_type msg = ROLE_WRITER)) kind then
    match operate_type msg with
    | OPT_JOIN => mkRole RoleWriter (role_attr msg) (timestamp msg) :: l
    | OPT_LEAVE => without (role_attr msg) l
    end
  else l.

Lemma dispose_views ws rs t msg :
  cm_views ws rs t -> full (role_attr msg) ->
  cm_views (spec_msg true ws msg) (spec_msg false rs msg) (ChannelManager_Dispose t msg).
Proof.
  intros [Hw Hr] Hf. unfold ChannelManager_Dispose, Dispose, Notify, spec_msg.
  pose proof (fun ts => conj (eq_refl RoleWriter) Hf : stored (mkRole RoleWriter (role_attr msg) ts)) as Hst.
  destruct (operate_type msg); cbn.
  - unfold ChannelManager_DisposeJoin. case_bool_decide; cbn; split; cbn; try done.
    + by apply (views_add ws _ _ (mkRole RoleWriter (role_attr msg) (timestamp msg))).
    + by apply (views_add rs _ _ (mkRole RoleWriter (role_attr msg) (timestamp msg))).
  - unfold ChannelManager_DisposeLeave. case_bool_decide; cbn; split; cbn; try done.
    + by apply (views_remove ws _ _ (mkRole RoleWriter (role_attr msg) 0)).
    + by apply (views_remove rs _ _ (mkRole RoleWriter (role_attr msg) 0)).
Qed.

Lemma views_search l nw cw k :
  views l nw cw -> Search cw k = true <-> exists r, r ∈ l /\ channel_id (attributes r) = k.
Proof.
  intros [_ Hc _ Hpc]. unfold Search, Search_role.
  transitivity (exists r, (k, r) ∈ table cw).
  - destruct (find k (table cw)) as [r|] eqn:Hf; cbn.
    + split; [|done]. intros _. exists r. by apply find_Some.
    + split; [done|]. intros [r Hr]. by apply find_None with (r := r) in Hf.
  - split.
    + intros [r Hr]. exists r. split; [|symmetry; by eapply Hc].
      rewrite <- Hpc. apply list_elem_of_fmap. by exists (k, r).
    + intros (r & Hr & <-). rewrite <- Hpc in Hr. apply list_elem_of_fmap in Hr as ([k r'] & -> & Hin).
      exists r'. cbn. by rewrite <- (proj1 (Hc k r' Hin)).
Qed.

Lemma run_views ws rs t msgs :
  cm_views ws rs t -> Forall (fun msg => full (role_attr msg)) msgs ->
  cm_views (foldl (spec_msg true) ws msgs) (foldl (spec_msg false) rs msgs) (foldl ChannelManager_Dispose t msgs).
Proof.
  revert ws rs t. induction msgs as [|msg msgs IH]; intros ws rs t Ht Hm; [done|].
  apply Forall_cons in Hm as [Hf Hm]. cbn [foldl]. apply IH; [|done]. by apply dispose_views.
Qed.

(** C38: after any sequence of join and leave messages, in any order and with duplicates, whose attributes carry
    host name, process id, node id and channel id, the
    writers filed by node and those filed by channel are the same multiset: the joins not
    matched by a later leave, each under its own node id and channel id; [HasWriter] of a channel name says
    that it has a writer exactly when such a join with the id of the name exists.  The same for readers. *)
Theorem channel_manager_views {M : Type} `{!KeyedStore M string} (t : ChannelManager) (msgs : list ChangeMsg) :
  table (node_writers_ t) = [] -> table (channel_writers_ t) = [] ->
  table (node_readers_ t) = [] -> table (channel_readers_ t) = [] ->
  Forall (fun msg => full (role_attr msg)) msgs ->
  let t' := foldl ChannelManager_Dispose t msgs in
  let ws := foldl (spec_msg true) [] msgs in
  let rs := foldl (spec_msg false) [] msgs in
  cm_views ws rs t' /\
  forall Hash (g g' : @GlobalData M) channel_name key, RegisterChannel Hash g channel_name = Some (key, g') -> exists has_writer has_reader,
    HasWriter Hash g t' channel_name = Some (has_writer, g') /\ HasReader Hash g t' channel_name = Some (has_reader, g') /\
    (has_writer = true <-> exists r, r ∈ ws /\ channel_id (attributes r) = key) /\
    (has_reader = true <-> exists r, r ∈ rs /\ channel_id (attributes r) = key).
Proof.
  intros H1 H2 H3 H4 Hm. cbv zeta.
  assert (Hv : cm_views (foldl (spec_msg true) [] msgs) (foldl (spec_msg false) [] msgs) (foldl ChannelManager_Dispose t msgs)).
  { apply run_views; [|done]. split; split; unfold filed_by; rewrite ?H1, ?H2, ?H3, ?H4; set_solver. }
  split; [done|]. intros Hash g g' name key Hreg. destruct Hv as [Hw Hr]. unfold HasWriter, HasReader. rewrite Hreg. eexists _, _. split; [reflexivity|]. split; [reflexivity|].
  split; by eapply views_search.
Qed.

(** ** A process leaves *)
Definition of_process (host : string) (pid : Z) (r : Role) : Prop :=
  process_id (attributes r) = pid /\ host_name (attributes r) = host.

Lemma Convert_full m now a kind op : full a -> role_attr (Convert m now a kind op) = a.
Proof. intros ([h Hh] & [p Hp] & _). destruct a; cbn in *; by subst. Qed.

Lemma leave_role_views now kind ws rs t r :
  cm_views ws rs t -> full (attributes r) ->
  cm_views (if bool_decide (kind = ROLE_WRITER) then without (attributes r) ws else ws)
           (if bool_decide (kind = ROLE_WRITER) then rs else without (attributes r) rs)
           (leave_role now kind t r).
Proof.
  intros Hv Hf. set (msg := Convert (cm_base t) now (attributes r) kind OPT_LEAVE).
  assert (Hm : role_attr msg = attributes r) by by apply Convert_full.
  pose proof (dispose_views ws rs t msg Hv) as Hd. rewrite Hm in Hd. specialize (Hd Hf).
  unfold spec_msg in Hd. rewrite Hm in Hd. cbn [role_type operate_type msg Convert] in Hd.
  case_bool_decide; exact Hd.
Qed.

Lemma leave_loop_views now kind l ws rs t :
  cm_views ws rs t -> Forall (fun r => full (attributes r)) l ->
  cm_views (if bool_decide (kind = ROLE_WRITER) then foldl (fun ws r => without (attributes r) ws) ws l else ws)
           (if bool_decide (kind = ROLE_WRITER) then rs else foldl (fun rs r => without (attributes r) rs) rs l)
           (foldl (leave_role now kind) t l).
Proof.
  revert ws rs t. induction l as [|r l IH]; intros ws rs t Hv Hl; [by case_bool_decide|].
  apply Forall_cons in Hl as [Hf Hl]. pose proof (leave_role_views now kind ws rs t r Hv Hf) as Hv'.
  specialize (IH _ _ _ Hv' Hl). cbn [foldl]. case_bool_decide; exact IH.
Qed.

(** Removing, one after the other, every role of a process removes the roles of that process. *)
Lemma elem_of_without_all l gone x :
  x ∈ foldl (fun l r => without (attributes r) l) l gone <->
  x ∈ l /\ forall r, r ∈ gone -> Match x (attributes r) = false.
Proof.
  revert l. induction gone as [|r gone IH]; intros l; cbn [foldl]; [set_solver|].
  rewrite IH. unfold without. rewrite list_elem_of_filter. set_solver.
Qed.

Lemma without_process l nw cw host pid x :
  views l nw cw ->
  x ∈ foldl (fun l r => without (attributes r) l) l (all_match (process_attr host pid) (table cw)) <->
  x ∈ l /\ ~ of_process host pid x.
Proof.
  intros Hv. pose proof (vw_chan _ _ _ Hv) as Hc. pose proof (vw_croles _ _ _ Hv) as Hpc.
  assert (Hin : forall y, y ∈ l <-> exists k, (k, y) ∈ table cw).
  { intros y. rewrite <- Hpc, list_elem_of_fmap. split.
    - intros ([k y'] & -> & ?). by exists k.
    - intros [k ?]. by exists (k, y). }
  assert (HM : forall y, Match y (process_attr host pid) = true <-> of_process host pid y).
  { intros y. rewrite Match_process, andb_true_iff, !bool_decide_eq_true. done. }
  rewrite elem_of_without_all. split.
  - intros [Hx Hno]. split; [done|]. intros Hp. specialize (Hno x). rewrite Match_refl in Hno.
    enough (true = false) by done. apply Hno. apply elem_of_all_match. rewrite HM. split; [done|]. by apply Hin.
  - intros [Hx Hp]. split; [done|]. intros r [Hr [k Hk]]%elem_of_all_match.
    destruct (Match x (attributes r)) eqn:HMx; [|done]. destruct Hp. apply HM in Hr.
    apply Hin in Hx as [kx Hkx]. destruct (Hc _ _ Hkx) as [_ [Hcl _]]. destruct (Hc _ _ Hk) as [_ [_ Hf]].
    destruct (full_Match x _ Hcl Hf HMx) as (_ & _ & Hpid & Hhost).
    unfold of_process in *. by rewrite Hpid, Hhost.
Qed.

(** When a process leaves while discovery runs, exactly its writers and readers disappear,
    from the filings by node and by channel alike, and every role of another process stays. *)
Lemma channel_process_leaves (now : Z) (t : ChannelManager) (ws rs : list Role) (host : string) (pid : Z) :
  cm_views ws rs t -> is_discovery_started_ (cm_base t) = true ->
  exists ws' rs', cm_views ws' rs' (OnTopoModuleLeave now t host pid) /\
    (forall x, x ∈ ws' <-> x ∈ ws /\ ~ of_process host pid x) /\
    (forall x, x ∈ rs' <-> x ∈ rs /\ ~ of_process host pid x).
Proof.
  intros Hv Hst. unfold OnTopoModuleLeave. rewrite Hst. cbn [negb]. cbv zeta.
  unfold Match_roles. rewrite !append_all_spec, !list_fmap_id. cbn [default snd app].
  set (gw := all_match _ (table (channel_writers_ t))). set (gr := all_match _ (table (channel_readers_ t))).
  assert (Hgw : Forall (fun r => full (attributes r)) gw).
  { apply Forall_forall. intros r [_ [k Hk]]%elem_of_all_match. by apply (vw_chan _ _ _ (cv_writers _ _ _ Hv) k r). }
  assert (Hgr : Forall (fun r => full (attributes r)) gr).
  { apply Forall_forall. intros r [_ [k Hk]]%elem_of_all_match. by apply (vw_chan _ _ _ (cv_readers _ _ _ Hv) k r). }
  pose proof (leave_loop_views now ROLE_WRITER gw ws rs t Hv Hgw) as Hv1.
  pose proof (leave_loop_views now ROLE_READER gr _ _ _ Hv1 Hgr) as Hv2.
  eexists _, _. split; [exact Hv2|]. split; intros x.
  - exact (without_process ws _ _ host pid x (cv_writers _ _ _ Hv)).
  - exact (without_process rs _ _ host pid x (cv_readers _ _ _ Hv)).
Qed.
End ChannelManager.

(** ** Witnesses *)
Definition role_attr_of (pid nid cid uid : Z) (node channel : string) : RoleAttributes :=
  mkAttr (Some "h") None (Some pid) (Some node) (Some nid) (Some channel) (Some cid) (Some "T") None (Some uid)
         None None None None.
Definition role_msg (op : OperateType) (kind : RoleType) (ts : Z) (a : RoleAttributes) : ChangeMsg :=
  mkMsg ts CHANGE_CHANNEL op kind a.

Definition two_writers : list ChangeMsg :=
  [role_msg OPT_JOIN ROLE_WRITER 1 (role_attr_of 10 1 5 100 "A" "c");
   role_msg OPT_JOIN ROLE_WRITER 2 (role_attr_of 10 1 5 101 "A" "c");
   role_msg OPT_JOIN ROLE_READER 3 (role_attr_of 20 2 5 102 "B" "c")].

Definition one_left : list ChangeMsg :=
  two_writers ++ [role_msg OPT_LEAVE ROLE_WRITER 4 (role_attr_of 10 1 5 100 "A" "c")].

Lemma full_role_attr pid nid cid uid n c : full (role_attr_of pid nid cid uid n c).
Proof. repeat split; by eexists. Qed.

Lemma channel_manager_views_witness :
  let t := foldl (@ChannelManager_Dispose recent_first (fun _ _ => [])) (ChannelManager_new "h" 10) one_left in
  cm_views (foldl (spec_msg true) [] one_left) (foldl (spec_msg false) [] one_left) t /\
  length (foldl (spec_msg true) [] one_left) = 1%nat /\
  fst <$> HasWriter (M := AtomicHashMap string) (fun _ => 5) GlobalData_new t "c" = Some true /\ fst <$> HasWriter (M := AtomicHashMap string) (fun _ => 6) GlobalData_new t "d" = Some false.
Proof.
  cbv zeta. destruct (@channel_manager_views recent_first (fun _ _ => []) (AtomicHashMap string) _ (ChannelManager_new "h" 10) one_left eq_refl eq_refl eq_refl eq_refl) as [Hv Hhas].
  { repeat constructor; apply full_role_attr. }
  split; [exact Hv|]. split; [by vm_compute|]. split.
  - destruct (RegisterChannel (M := AtomicHashMap string) (fun _ => 5) GlobalData_new "c") as [[k g']|] eqn:Hreg; [|vm_compute in Hreg; discriminate].
    assert (k = 5) as -> by (vm_compute in Hreg; congruence).
    destruct (Hhas _ _ _ _ _ Hreg) as (b & _ & -> & _ & [_ Hb] & _). cbn. rewrite Hb; [done|]. vm_compute. by eexists; split; [left|].
  - by vm_compute.
Defined.

Definition stored_role (pid uid : Z) : Role := mkRole RoleWriter (role_attr_of pid 1 5 uid "A" "c") 0.
Definition started_manager : ChannelManager :=
  mkCM (set_started (cm_base (ChannelManager_new "h" 10)) true) Graph_new
    (mkMulti [(1, stored_role 10 100); (1, stored_role 20 101)]) (mkMulti [])
    (mkMulti [(5, stored_role 10 100); (5, stored_role 20 101)]) (mkMulti []) [] [].

(** With two writers of one node on a channel, the leave of one removes the node's edge
    from the graph although the other still writes: the manager reports that the channel has a
    writer of node A and a reader of node B, and that no data flows from A to B. *)
Theorem channel_leave_loses_edge :
  let t := foldl (@ChannelManager_Dispose recent_first (fun _ _ => [])) (ChannelManager_new "h" 10) one_left in
  Search (channel_writers_ t) 5 = true /\ Search (node_writers_ t) 1 = true /\ Search (channel_readers_ t) 5 = true /\
  (fst <$> @GetFlowDirection recent_first t "A" "B") = Some UNREACHABLE.
Proof. by vm_compute. Qed.
