(* ===== verification/ServiceManager.v ===== *)
(** * ServiceManager: service_discovery/specific_manager/service_manager.cc

    At most one server per service id and any number of clients. *)

From Stdlib Require Import ZArith Lia.
From stdpp Require Import base strings gmap list.
From S2P Require Import Prelude AtomicHashMap GlobalData Signal Role Warehouse SingleValueWarehouse MultiValueWarehouse Manager.

Record ServiceManager := mkSM {
  sm_base : Manager; servers_ : SingleValueWarehouse; clients_ : MultiValueWarehouse }.

Definition ServiceManager_new (host : string) (pid : Z) : ServiceManager :=
  let m := Manager_new host pid in
  mkSM (mkManager (is_shutdown_ m) (is_discovery_started_ m)
          (Z.lor (Z.lor (allowed_role_ m) (Z.shiftl 1 (role_number ROLE_SERVER))) (Z.shiftl 1 (role_number ROLE_CLIENT)))
          CHANGE_SERVICE "service_change_broadcast" (own_host m) (own_pid m) (publisher_ m) (subscriber_ m) (listener_ m)
          (signal_ m) (published m)) (mkSingle []) (mkMulti []).

Definition HasService (Hash : string -> Z) (t : ServiceManager) (service_name : string) : bool :=
  SingleValueWarehouse.Search (servers_ t) (Hash service_name).

Definition GetServers (t : ServiceManager) (servers : option (list RoleAttributes)) : option (list RoleAttributes) :=
  SingleValueWarehouse.GetAllAttrs (servers_ t) servers.

Definition GetClients (Hash : string -> Z) (t : ServiceManager) (service_name : string) (clients : option (list RoleAttributes))
    : option (list RoleAttributes) :=
  match clients with
  | None => None
  | Some out => (MultiValueWarehouse.Search_attrs (clients_ t) (Hash service_name) (Some out)).2
  end.

Definition ServiceManager_Check (attr : RoleAttributes) : bool :=
  if negb (has (service_name_ attr)) then false
  else if negb (has (service_id_ attr)) then false
  else true.

Section ServiceManager.
Context `{HashOrder}.

Definition ServiceManager_DisposeJoin (t : ServiceManager) (msg : ChangeMsg) : ServiceManager :=
  let role := mkRole RoleServer (role_attr msg) 0 in
  let key := service_id (attributes role) in
  if bool_decide (role_type msg = ROLE_SERVER)
  then mkSM (sm_base t) (SingleValueWarehouse.Add (servers_ t) key role true).2 (clients_ t)
  else mkSM (sm_base t) (servers_ t) (MultiValueWarehouse.Add (clients_ t) key role true).2.

Definition ServiceManager_DisposeLeave (t : ServiceManager) (msg : ChangeMsg) : ServiceManager :=
  let role := mkRole RoleServer (role_attr msg) 0 in
  let key := service_id (attributes role) in
  if bool_decide (role_type msg = ROLE_SERVER)
  then mkSM (sm_base t) (SingleValueWarehouse.Remove (servers_ t) key) (clients_ t)
  else mkSM (sm_base t) (servers_ t) (MultiValueWarehouse.Remove_role (clients_ t) key role).

#[export] Instance ServiceManager_specific : SpecificManager ServiceManager.
Proof.
  refine {| base := sm_base; with_base t m := mkSM m (servers_ t) (clients_ t);
            Check := ServiceManager_Check; DisposeJoin := ServiceManager_DisposeJoin;
            DisposeLeave := ServiceManager_DisposeLeave |}; try done.
  - intros t msg. unfold ServiceManager_DisposeJoin. by case_bool_decide.
  - intros t msg. unfold ServiceManager_DisposeLeave. by case_bool_decide.
Defined.

Context (script : nat -> ChangeMsg -> list action).

Definition ServiceManager_Dispose : ServiceManager -> ChangeMsg -> ServiceManager := Dispose script.

Definition notify_leave (now : Z) (kind : RoleType) (t : ServiceManager) (r : Role) : ServiceManager :=
  Notify script t (Convert (sm_base t) now (attributes r) kind OPT_LEAVE).

Definition OnTopoModuleLeave (now : Z) (t : ServiceManager) (host_name : string) (process_id : Z) : ServiceManager :=
  if negb (is_discovery_started_ (sm_base t)) then t
  else
    let attr := process_attr host_name process_id in
    let servers_to_remove := default [] (SingleValueWarehouse.Match_roles (servers_ t) attr (Some [])).2 in
    let servers := foldl (fun w server => SingleValueWarehouse.Remove w (service_id (attributes server)))
                         (servers_ t) servers_to_remove in
    let clients_to_remove := default [] (MultiValueWarehouse.Match_roles (clients_ t) attr (Some [])).2 in
    let clients := foldl (fun w client => MultiValueWarehouse.Remove_role w (service_id (attributes client)) client)
                         (clients_ t) clients_to_remove in
    let t := mkSM (sm_base t) servers clients in
    let t := foldl (notify_leave now ROLE_SERVER) t servers_to_remove in
    foldl (notify_leave now ROLE_CLIENT) t clients_to_remove.

(** ** A process leaves *)
Definition stored_service (k : Z) (r : Role) : Prop :=
  k = service_id (attributes r) /\ role_class r = RoleServer /\
  is_Some (host_name_ (attributes r)) /\ is_Some (process_id_ (attributes r)).

Record services_ok (t : ServiceManager) : Prop := {
  sk_single : single_ok (servers_ t);
  sk_servers : forall k r, (k, r) ∈ SingleValueWarehouse.table (servers_ t) -> stored_service k r;
  sk_clients : forall k r, (k, r) ∈ MultiValueWarehouse.table (clients_ t) -> stored_service k r
}.

Definition of_process (host : string) (pid : Z) (r : Role) : Prop :=
  process_id (attributes r) = pid /\ host_name (attributes r) = host.

Lemma Match_of_process host pid r : Match r (process_attr host pid) = true <-> of_process host pid r.
Proof. by rewrite Match_process, andb_true_iff, !bool_decide_eq_true. Qed.

Lemma elem_of_remove_servers l w kr :
  kr ∈ SingleValueWarehouse.table (foldl (fun w s => SingleValueWarehouse.Remove w (service_id (attributes s))) w l) <->
  kr ∈ SingleValueWarehouse.table w /\ forall s, s ∈ l -> service_id (attributes s) <> kr.1.
Proof.
  revert w. induction l as [|s l IH]; intros w; cbn [foldl]; [set_solver|].
  rewrite IH. unfold SingleValueWarehouse.Remove; cbn [SingleValueWarehouse.table]. rewrite elem_of_erase_if.
  unfold key_is. rewrite Z.eqb_neq. set_solver.
Qed.

Lemma single_remove_servers l w :
  single_ok w -> single_ok (foldl (fun w s => SingleValueWarehouse.Remove w (service_id (attributes s))) w l).
Proof. revert w. induction l as [|s l IH]; intros w Hw; [done|]. apply IH. by apply erase_if_keys. Qed.

Lemma elem_of_remove_clients l w kr :
  kr ∈ MultiValueWarehouse.table (foldl (fun w c => MultiValueWarehouse.Remove_role w (service_id (attributes c)) c) w l) <->
  kr ∈ MultiValueWarehouse.table w /\ forall c, c ∈ l -> entry_is (service_id (attributes c)) c kr = false.
Proof.
  revert w. induction l as [|s l IH]; intros w; cbn [foldl]; [set_solver|].
  rewrite IH. unfold MultiValueWarehouse.Remove_role; cbn [MultiValueWarehouse.table]. rewrite elem_of_erase_if. set_solver.
Qed.

Lemma notify_leave_tables now kind l t :
  servers_ (foldl (notify_leave now kind) t l) = servers_ t /\ clients_ (foldl (notify_leave now kind) t l) = clients_ t.
Proof. revert t. induction l as [|n l IH]; intros t; cbn [foldl]; [done|]. apply (IH (notify_leave now kind t n)). Qed.

(** A role that matches the attributes of a role of the process is of the process. *)
Lemma same_process_Match host pid c x :
  stored_service (service_id (attributes c)) c -> role_class x = RoleServer ->
  Match x (attributes c) = true -> of_process host pid c -> of_process host pid x.
Proof.
  intros (_ & _ & [h Hh] & [p Hp]) Hx HM [Hpid Hhost]. revert HM.
  unfold Match, RoleServer_Match, RoleBase_Match. rewrite Hx, Hh, Hp. cbn.
  unfold of_process, process_id, host_name in *. rewrite Hh, Hp in *. cbn in *.
  destruct (field_ok (service_id_ (attributes c)) 0 _), (field_ok (node_id_ (attributes c)) 0 _);
    repeat case_bool_decide; cbn; try done. intros _. by subst.
Qed.

(** When a process leaves while discovery runs, exactly the servers and clients with its
    host name and process id are removed, and every table stays filed by service id. *)
Lemma service_process_leaves (now : Z) (t : ServiceManager) (host : string) (pid : Z) :
  services_ok t -> is_discovery_started_ (sm_base t) = true ->
  let t' := OnTopoModuleLeave now t host pid in
  services_ok t' /\
  (forall k r, (k, r) ∈ SingleValueWarehouse.table (servers_ t') <->
     (k, r) ∈ SingleValueWarehouse.table (servers_ t) /\ ~ of_process host pid r) /\
  (forall k r, (k, r) ∈ MultiValueWarehouse.table (clients_ t') <->
     (k, r) ∈ MultiValueWarehouse.table (clients_ t) /\ ~ of_process host pid r).
Proof.
  intros [Hs Hsv Hcl] Hst. unfold OnTopoModuleLeave. rewrite Hst. cbn [negb]. cbv zeta.
  unfold SingleValueWarehouse.Match_roles, MultiValueWarehouse.Match_roles.
  rewrite !append_all_spec, !list_fmap_id. cbn [default snd app Datatypes.id].
  set (ls := all_match _ (SingleValueWarehouse.table _)). set (lc := all_match _ (MultiValueWarehouse.table _)).
  set (ts := mkSM _ _ _).
  destruct (notify_leave_tables now ROLE_CLIENT lc (foldl (notify_leave now ROLE_SERVER) ts ls)) as [E1 E2].
  destruct (notify_leave_tables now ROLE_SERVER ls ts) as [E3 E4].
  set (t' := foldl (notify_leave now ROLE_CLIENT) _ lc) in *.
  assert (Es : servers_ t' = servers_ ts) by congruence. assert (Ec : clients_ t' = clients_ ts) by congruence.
  clearbody t'. clear E1 E2 E3 E4.
  assert (H1 : forall k r, (k, r) ∈ SingleValueWarehouse.table (servers_ t') <->
            (k, r) ∈ SingleValueWarehouse.table (servers_ t) /\ ~ of_process host pid r).
  { intros k r. rewrite Es. unfold ts; cbn [servers_]. rewrite elem_of_remove_servers. cbn.
    split; intros [Hkr Hno]; (split; [done|]).
    - intros Hp. apply (Hno r); [|symmetry; by apply (Hsv k r)].
      apply elem_of_all_match. split; [by apply Match_of_process|by exists k].
    - intros s [HM [k' Hk']]%elem_of_all_match Hid. apply Hno. apply Match_of_process in HM.
      assert (k' = k) as -> by (rewrite (proj1 (Hsv _ _ Hk')); done).
      apply (find_unique k _ s Hs) in Hk'. apply (find_unique k _ r Hs) in Hkr. congruence. }
  assert (H2 : forall k r, (k, r) ∈ MultiValueWarehouse.table (clients_ t') <->
            (k, r) ∈ MultiValueWarehouse.table (clients_ t) /\ ~ of_process host pid r).
  { intros k r. rewrite Ec. unfold ts; cbn [clients_]. rewrite elem_of_remove_clients.
    split; intros [Hkr Hno]; (split; [done|]).
    - intros Hp. enough (true = false) by done. rewrite <- (Hno r).
      + unfold entry_is; cbn. rewrite Match_refl, (proj1 (Hcl _ _ Hkr)), Z.eqb_refl. done.
      + apply elem_of_all_match. split; [by apply Match_of_process|by exists k].
    - intros c [HM [k' Hk']]%elem_of_all_match. apply Match_of_process in HM.
      unfold entry_is; cbn. destruct (Match r (attributes c)) eqn:HMr; [|by rewrite andb_false_r].
      destruct Hno. destruct (Hcl _ _ Hk') as (Hkc & Hrest). destruct (Hcl _ _ Hkr) as (_ & Hclass & _).
      eapply (same_process_Match host pid c r); [|done|done|done]. split; [done|exact Hrest]. }
  split; [|split; [exact H1|exact H2]]. split.
  - rewrite Es. unfold ts; cbn [servers_]. by apply single_remove_servers.
  - intros k r [Hin _]%H1. by apply Hsv.
  - intros k r [Hin _]%H2. by apply Hcl.
Qed.
End ServiceManager.

(** ** Witness and a name collision *)
Definition service_attr (pid sid : Z) : RoleAttributes :=
  mkAttr (Some "h") None (Some pid) None None None None None None None None None (Some "s") (Some sid).
Definition service_role (pid sid : Z) : Role := mkRole RoleServer (service_attr pid sid) 0.
Definition started_services : ServiceManager :=
  mkSM (set_started (sm_base (ServiceManager_new "h" 1)) true)
    (mkSingle [(4, service_role 10 4); (6, service_role 20 6)])
    (mkMulti [(4, service_role 20 4); (4, service_role 10 4)]).

(** A service is announced under the id RegisterService gives its name, but HasService looks
    for the bare hash: when the name collides with an earlier one its id is another, and the
    running service "b" is not found. *)
Theorem HasService_misses_collided :
  let Hash (_ : string) := 7 in
  exists ida idb r1 r2,
    register (M := AtomicHashMap string) Hash registry_new "a" = Some (ida, r1) /\
    register Hash r1 "b" = Some (idb, r2) /\
    let join := mkMsg 0 CHANGE_SERVICE OPT_JOIN ROLE_SERVER (service_attr 10 idb) in
    let t := @ServiceManager_Dispose recent_first (fun _ _ => []) (ServiceManager_new "h" 1) join in
    SingleValueWarehouse.Search (servers_ t) idb = true /\ HasService Hash t "b" = false.
Proof. cbv zeta. do 4 eexists. split; [reflexivity|]. split; [reflexivity|]. by vm_compute. Qed.
