(* ===== verification/Decimal.v ===== *)
(** * Decimal integers

    [std::to_string] and [std::stoi] on 32-bit integers, as the code uses them for process numbers
    and sets of processors. *)

From Stdlib Require Import ZArith Lia Ascii String.
From stdpp Require Import base strings list.
From S2P Require Import Prelude.

Definition digit (d : Z) : ascii := ascii_of_nat (Z.to_nat (d + 48)).

(** The decimal digits of a number below [10 ^ fuel]. *)
Fixpoint decimal (fuel : nat) (n : Z) : string :=
  match fuel with
  | O => ""
  | S fuel => if n <? 10 then String (digit n) ""
              else decimal fuel (n / 10) +:+ String (digit (n mod 10)) ""
  end.

Definition to_string (n : Z) : string := if n <? 0 then String "-" (decimal 20 (- n)) else decimal 20 n.

Definition digit_value (c : ascii) : option Z :=
  let v := Z.of_nat (nat_of_ascii c) - 48 in
  if (0 <=? v) && (v <? 10) then Some v else None.

(** Digits up to the first other character. *)
Fixpoint read_digits (acc : Z) (s : string) : Z :=
  match s with
  | EmptyString => acc
  | String c s => if digit_value c is Some v then read_digits (acc * 10 + v) s else acc
  end.

Definition isspace (c : ascii) : bool :=
  let v := Z.of_nat (nat_of_ascii c) in (v =? 32) || ((9 <=? v) && (v <=? 13)).

Fixpoint skip_space (s : string) : string :=
  match s with
  | String c s' => if isspace c then skip_space s' else s
  | EmptyString => s
  end.

(** [None] is an exception: no digit, or out of the range of [int]. *)
Definition stoi (s : string) : option Z :=
  let s := skip_space s in
  let '(neg, s) := match s with
                   | String "-" s => (true, s)
                   | String "+" s => (false, s)
                   | _ => (false, s)
                   end in
  match s with
  | String c _ =>
      if digit_value c is Some _ then
        let v := if (neg : bool) then - read_digits 0 s else read_digits 0 s in
        if (- two31 <=? v) && (v <? two31) then Some v else None
      else None
  | EmptyString => None
  end.

Lemma sapp_cons c a b : String c a +:+ b = String c (a +:+ b).
Proof. done. Qed.

Lemma sapp_assoc a b c : (a +:+ b) +:+ c = a +:+ b +:+ c.
Proof. induction a as [|x a IH]; [done|]. rewrite !sapp_cons. by rewrite IH. Qed.

Lemma sapp_nil a : a +:+ "" = a.
Proof. induction a as [|x a IH]; [done|]. rewrite sapp_cons. by rewrite IH. Qed.

Lemma digit_value_digit d : 0 <= d < 10 -> digit_value (digit d) = Some d.
Proof.
  intros Hd. assert (Hc : d = 0 \/ d = 1 \/ d = 2 \/ d = 3 \/ d = 4 \/ d = 5 \/ d = 6 \/ d = 7 \/ d = 8 \/ d = 9) by lia.
  repeat destruct Hc as [->|Hc]; subst; reflexivity.
Qed.

Fixpoint pow10 (n : nat) : Z := match n with O => 1 | S n => 10 * pow10 n end.

Lemma read_decimal fuel n acc s :
  0 <= n < pow10 fuel ->
  exists k, read_digits acc (decimal fuel n +:+ s) = read_digits (acc * pow10 k + n) s.
Proof.
  revert n acc s. induction fuel as [|fuel IH]; intros n acc s Hn; [cbn in Hn; exists 0%nat; cbn; f_equal; lia|].
  cbn [decimal]. cbn [pow10] in Hn. destruct (Z.ltb_spec n 10).
  - exists 1%nat. rewrite sapp_cons. cbn [read_digits]. rewrite digit_value_digit by lia. done.
  - pose proof (Z.div_mod n 10 ltac:(lia)). pose proof (Z.mod_pos_bound n 10 ltac:(lia)).
    destruct (IH (n / 10) acc (String (digit (n mod 10)) s)) as [k Hk].
    { split; [apply Z.div_pos; lia|apply Z.div_lt_upper_bound; lia]. }
    exists (S k). rewrite sapp_assoc, sapp_cons. change ("" +:+ s) with s. rewrite Hk. cbn [read_digits]. rewrite digit_value_digit by lia. f_equal. cbn [pow10]. lia.
Qed.

Lemma decimal_head fuel n :
  0 <= n -> (0 < fuel)%nat -> exists d s, decimal fuel n = String (digit d) s /\ 0 <= d < 10.
Proof.
  revert n. induction fuel as [|fuel IH]; intros n Hn Hf; [lia|]. cbn [decimal]. destruct (Z.ltb_spec n 10).
  - exists n, "". split; [done|lia].
  - destruct fuel as [|fuel].
    + exists (n mod 10), "". cbn. split; [done|]. apply Z.mod_pos_bound. lia.
    + destruct (IH (n / 10)) as (d & s & -> & Hd); [apply Z.div_pos; lia|lia|].
      exists d, (s +:+ String (digit (n mod 10)) ""). done.
Qed.

Lemma stoi_to_string pid : 0 <= pid < two31 -> stoi (to_string pid) = Some pid.
Proof.
  intros Hp. unfold to_string. destruct (Z.ltb_spec pid 0); [lia|].
  destruct (decimal_head 20 pid) as (d & s & He & Hd); [lia|lia|].
  assert (Hr : read_digits 0 (decimal 20 pid) = pid).
  { destruct (read_decimal 20 pid 0 "") as [k Hk]; [cbn; word_lia|]. by rewrite sapp_nil in Hk. }
  unfold stoi. rewrite He in *.
  assert (Hsk : skip_space (String (digit d) s) = String (digit d) s /\
                (match String (digit d) s with String "-" s => (true, s) | String "+" s => (false, s) | _ => (false, String (digit d) s) end)
                = (false, String (digit d) s)).
  { assert (Hc : d = 0 \/ d = 1 \/ d = 2 \/ d = 3 \/ d = 4 \/ d = 5 \/ d = 6 \/ d = 7 \/ d = 8 \/ d = 9) by lia.
    repeat destruct Hc as [->|Hc]; subst; split; reflexivity. }
  destruct Hsk as [-> ->]. cbv zeta. rewrite digit_value_digit by done. rewrite Hr.
  destruct (Z.leb_spec (- two31) pid); [|word_lia]. destruct (Z.ltb_spec pid two31); [done|lia].
Qed.
