(* ===== verification/TopologyManager.v ===== *)
(** * TopologyManager: service_discovery/topology_manager.cc

    Owns the three managers and tells them when a participant (a process) is gone, which it
    learns from the name "host+pid" the participant announced; what Fast-RTPS does is an argument. *)

From Stdlib Require Import ZArith Lia Ascii String.
From stdpp Require Import base strings gmap list.
From S2P Require Import Prelude Decimal Signal Role Warehouse SingleValueWarehouse MultiValueWarehouse Manager.
From S2P Require NodeManager ChannelManager ServiceManager.

(** The parts before and after the first '+'. *)
Fixpoint split_plus (s : string) : option (string * string) :=
  match s with
  | EmptyString => None
  | String c s => if bool_decide (c = "+"%char) then Some ("", s)
                  else '(a, b) ← split_plus s; Some (String c a, b)
  end.

Definition ParseParticipantName (participant_name : string) : option (string * Z) :=
  '(host_name, pid_str) ← split_plus participant_name;
  process_id ← stoi pid_str;
  Some (host_name, process_id).

(** [CreateParticipant]'s name of this process. *)
Definition participant_name (host : string) (pid : Z) : string := host +:+ String "+" (to_string pid).

Fixpoint has_plus (s : string) : bool :=
  match s with EmptyString => false | String c s => bool_decide (c = "+"%char) || has_plus s end.

Lemma split_plus_app h s : has_plus h = false -> split_plus (h +:+ String "+" s) = Some (h, s).
Proof.
  induction h as [|c h IH]; [done|]. rewrite sapp_cons. cbn [has_plus split_plus]. intros [Hc Hh]%orb_false_iff.
  rewrite Hc. by rewrite IH.
Qed.

(** ** The manager *)
Inductive DISCOVERY_STATUS := DISCOVERED_RTPSPARTICIPANT | REMOVED_RTPSPARTICIPANT | DROPPED_RTPSPARTICIPANT | OTHER_STATUS.

Record PartInfo := mkInfo { m_guid : Z; m_status : DISCOVERY_STATUS; m_RTPSParticipantName : string }.

Record TopologyManager := mkTopo {
  init_ : bool;
  node_manager_ : option NodeManager.NodeManager;
  channel_manager_ : option ChannelManager.ChannelManager;
  service_manager_ : option ServiceManager.ServiceManager;
  participant_ : bool;
  participant_listener_ : bool;
  change_signal_ : Signal (A := ChangeMsg);
  participant_names_ : gmap Z string
}.

Section TopologyManager.
Context `{HashOrder} (script : nat -> ChangeMsg -> list action).

(** [Convert]: the message, if the participant's name is known and well formed, and the names kept. *)
Definition Convert (now : Z) (names : gmap Z string) (info : PartInfo) : option ChangeMsg * gmap Z string :=
  let '(name, names, opt) :=
    match m_status info with
    | DISCOVERED_RTPSPARTICIPANT =>
        (m_RTPSParticipantName info, <[m_guid info := m_RTPSParticipantName info]> names, OPT_JOIN)
    | REMOVED_RTPSPARTICIPANT | DROPPED_RTPSPARTICIPANT =>
        (default "" (names !! m_guid info), delete (m_guid info) names, OPT_LEAVE)
    | OTHER_STATUS => ("", names, OPT_JOIN)
    end in
  match ParseParticipantName name with
  | None => (None, names)
  | Some (host, pid) => (Some (mkMsg now CHANGE_PARTICIPANT opt ROLE_PARTICIPANT (process_attr host pid)), names)
  end.

Definition OnParticipantChange (now : Z) (t : TopologyManager) (info : PartInfo) : TopologyManager :=
  let '(msg, names) := Convert now (participant_names_ t) info in
  let t := mkTopo (init_ t) (node_manager_ t) (channel_manager_ t) (service_manager_ t) (participant_ t)
             (participant_listener_ t) (change_signal_ t) names in
  match msg with
  | None => t
  | Some msg =>
      if negb (init_ t) then t
      else
        let host := host_name (role_attr msg) in
        let pid := process_id (role_attr msg) in
        let t :=
          match operate_type msg with
          | OPT_LEAVE =>
              mkTopo (init_ t)
                ((fun m => NodeManager.OnTopoModuleLeave script now m host pid) <$> node_manager_ t)
                ((fun m => ChannelManager.OnTopoModuleLeave script now m host pid) <$> channel_manager_ t)
                ((fun m => ServiceManager.OnTopoModuleLeave script now m host pid) <$> service_manager_ t)
                (participant_ t) (participant_listener_ t) (change_signal_ t) (participant_names_ t)
          | OPT_JOIN => t
          end in
        mkTopo (init_ t) (node_manager_ t) (channel_manager_ t) (service_manager_ t) (participant_ t)
          (participant_listener_ t) (Emit script (change_signal_ t) msg) (participant_names_ t)
  end.

(** The state before [Init]. *)
Definition TopologyManager_raw : TopologyManager := mkTopo false None None None false false Signal_new ∅.

(** [InitNodeManager() && InitChannelManager() && InitServiceManager()] *)
Definition init_managers (rtps : Rtps) (nm : NodeManager.NodeManager) (cm : ChannelManager.ChannelManager)
    (sm : ServiceManager.ServiceManager) :=
  let '(b1, n) := StartDiscovery rtps true (NodeManager.nm_base nm) in
  let nm := @with_base _ NodeManager.NodeManager_specific nm n in
  if negb b1 then (false, nm, cm, sm)
  else
    let '(b2, c) := StartDiscovery rtps true (ChannelManager.cm_base cm) in
    let cm := @with_base _ ChannelManager.ChannelManager_specific cm c in
    if negb b2 then (false, nm, cm, sm)
    else
      let '(b3, s) := StartDiscovery rtps true (ServiceManager.sm_base sm) in
      (b3, nm, cm, @with_base _ ServiceManager.ServiceManager_specific sm s).

Definition Init (rtps : Rtps) (host : string) (pid : Z) (t : TopologyManager) : bool * TopologyManager :=
  if init_ t then (true, t)
  else
    let '(result, nm, cm, sm) :=
      init_managers rtps (NodeManager.NodeManager_new host pid) (ChannelManager.ChannelManager_new host pid)
        (ServiceManager.ServiceManager_new host pid) in
    if negb result
    then (false, mkTopo false None None None false false (change_signal_ t) (participant_names_ t))
    else (true, mkTopo true (Some nm) (Some cm) (Some sm) true true (change_signal_ t) (participant_names_ t)).

Definition Shutdown (t : TopologyManager) : TopologyManager :=
  if negb (init_ t) then t
  else
    mkTopo false
      ((fun m => @with_base _ NodeManager.NodeManager_specific m (Manager.Shutdown (NodeManager.nm_base m))) <$> node_manager_ t)
      ((fun m => @with_base _ ChannelManager.ChannelManager_specific m (Manager.Shutdown (ChannelManager.cm_base m))) <$> channel_manager_ t)
      ((fun m => @with_base _ ServiceManager.ServiceManager_specific m (Manager.Shutdown (ServiceManager.sm_base m))) <$> service_manager_ t)
      (participant_ t) false (DisconnectAllSlots (change_signal_ t)) (participant_names_ t).

Definition AddChangeListener (t : TopologyManager) (func : option nat) : Connection * TopologyManager :=
  let '(c, s) := Connect (change_signal_ t) func in
  (c, mkTopo (init_ t) (node_manager_ t) (channel_manager_ t) (service_manager_ t) (participant_ t)
        (participant_listener_ t) s (participant_names_ t)).

Definition RemoveChangeListener (t : TopologyManager) (conn : Connection) : TopologyManager :=
  mkTopo (init_ t) (node_manager_ t) (channel_manager_ t) (service_manager_ t) (participant_ t)
    (participant_listener_ t) (Connection_Disconnect (change_signal_ t) conn).2 (participant_names_ t).

(** ** Participants that come and go *)

(** The name a process announces itself under parses back to its host name and process id,
    provided the host name has no '+'. *)
Lemma participant_name_roundtrip (host : string) (pid : Z) :
  has_plus host = false -> 0 <= pid < two31 -> ParseParticipantName (participant_name host pid) = Some (host, pid).
Proof.
  intros Hh Hp. unfold ParseParticipantName, participant_name. rewrite split_plus_app by done. cbn [mbind option_bind].
  by rewrite stoi_to_string.
Qed.

(** A topology with its managers running and their tables well formed. *)
Record running (t : TopologyManager) (nm : NodeManager.NodeManager) (cm : ChannelManager.ChannelManager)
    (sm : ServiceManager.ServiceManager) (ws rs : list Role) : Prop := {
  rn_init : init_ t = true;
  rn_node : node_manager_ t = Some nm /\ NodeManager.filed nm /\ is_discovery_started_ (NodeManager.nm_base nm) = true;
  rn_chan : channel_manager_ t = Some cm /\ ChannelManager.cm_views ws rs cm /\ is_discovery_started_ (ChannelManager.cm_base cm) = true;
  rn_serv : service_manager_ t = Some sm /\ ServiceManager.services_ok sm /\ is_discovery_started_ (ServiceManager.sm_base sm) = true
}.

Definition of_process (host : string) (pid : Z) (r : Role) : Prop :=
  process_id (attributes r) = pid /\ host_name (attributes r) = host.

(** C33: a participant that was discovered under the name its process announces and is later
    removed or dropped takes all its roles with it, and only them: afterwards the nodes, the
    writers and readers (by node and by channel) and the servers and clients known are exactly
    the earlier ones that do not have its host name and process id, the participant's name is
    forgotten, and the listeners of the topology are told of its leaving. *)
Theorem topology_process_leaves (now now' : Z) (t : TopologyManager) nm cm sm ws rs (g : Z) (host : string) (pid : Z)
    (st : DISCOVERY_STATUS) (name' : string) :
  running t nm cm sm ws rs -> has_plus host = false -> 0 <= pid < two31 ->
  st = REMOVED_RTPSPARTICIPANT \/ st = DROPPED_RTPSPARTICIPANT ->
  let t1 := OnParticipantChange now t (mkInfo g DISCOVERED_RTPSPARTICIPANT (participant_name host pid)) in
  let t2 := OnParticipantChange now' t1 (mkInfo g st name') in
  exists nm' cm' sm' ws' rs',
    node_manager_ t2 = Some nm' /\ channel_manager_ t2 = Some cm' /\ service_manager_ t2 = Some sm' /\
    (forall k r, (k, r) ∈ SingleValueWarehouse.table (NodeManager.nodes_ nm') <->
       (k, r) ∈ SingleValueWarehouse.table (NodeManager.nodes_ nm) /\ ~ of_process host pid r) /\
    ChannelManager.cm_views ws' rs' cm' /\
    (forall r, r ∈ ws' <-> r ∈ ws /\ ~ of_process host pid r) /\
    (forall r, r ∈ rs' <-> r ∈ rs /\ ~ of_process host pid r) /\
    (forall k r, (k, r) ∈ SingleValueWarehouse.table (ServiceManager.servers_ sm') <->
       (k, r) ∈ SingleValueWarehouse.table (ServiceManager.servers_ sm) /\ ~ of_process host pid r) /\
    (forall k r, (k, r) ∈ MultiValueWarehouse.table (ServiceManager.clients_ sm') <->
       (k, r) ∈ MultiValueWarehouse.table (ServiceManager.clients_ sm) /\ ~ of_process host pid r) /\
    participant_names_ t2 !! g = None /\
    change_signal_ t2 = Emit script (change_signal_ t1)
      (mkMsg now' CHANGE_PARTICIPANT OPT_LEAVE ROLE_PARTICIPANT (process_attr host pid)).
Proof.
  intros [Hi (Hn & Hnf & Hns) (Hc & Hcv & Hcs) (Hs & Hsv & Hss)] Hh Hp Hst. cbv zeta.
  pose proof (participant_name_roundtrip host pid Hh Hp) as Hparse.
  destruct (NodeManager.node_process_leaves script now' nm host pid Hnf Hns) as [_ HN].
  destruct (ChannelManager.channel_process_leaves script now' cm ws rs host pid Hcv Hcs) as (ws' & rs' & HV & HW & HR).
  destruct (ServiceManager.service_process_leaves script now' sm host pid Hsv Hss) as (_ & HS & HC).
  set (t1 := OnParticipantChange now t _).
  assert (Ht1 : init_ t1 = true /\ node_manager_ t1 = Some nm /\ channel_manager_ t1 = Some cm /\
                service_manager_ t1 = Some sm /\ participant_names_ t1 !! g = Some (participant_name host pid)).
  { unfold t1, OnParticipantChange, Convert; cbn [m_status m_RTPSParticipantName m_guid]. rewrite Hparse.
    cbn [init_ negb operate_type]. rewrite Hi. cbn. split_and!; try done. by rewrite lookup_insert_eq. }
  clearbody t1. destruct Ht1 as (Hi1 & Hn1 & Hc1 & Hs1 & Hg).
  assert (Hconv : Convert now' (participant_names_ t1) (mkInfo g st name') =
    (Some (mkMsg now' CHANGE_PARTICIPANT OPT_LEAVE ROLE_PARTICIPANT (process_attr host pid)), delete g (participant_names_ t1))).
  { unfold Convert. destruct Hst as [-> | ->]; cbn [m_status m_guid]; rewrite Hg; cbn [default Datatypes.id]; by rewrite Hparse. }
  unfold OnParticipantChange. rewrite Hconv. cbn [init_ node_manager_ channel_manager_ service_manager_]. rewrite Hi1, Hn1, Hc1, Hs1.
  cbn [negb operate_type role_attr]. unfold process_attr at 1 2 3 4 5 6 7; unfold host_name, process_id; cbn.
  exists (NodeManager.OnTopoModuleLeave script now' nm host pid), (ChannelManager.OnTopoModuleLeave script now' cm host pid),
    (ServiceManager.OnTopoModuleLeave script now' sm host pid), ws', rs'.
  split_and!; try done. by rewrite lookup_delete_eq.
Qed.
End TopologyManager.

(** ** Witness *)
Lemma running_filed : NodeManager.filed NodeManager.running_manager.
Proof. split; [apply (bool_decide_unpack _); by vm_compute|]. intros k r. cbn. set_solver. Qed.

Lemma started_views :
  ChannelManager.cm_views [ChannelManager.stored_role 10 100; ChannelManager.stored_role 20 101] [] ChannelManager.started_manager.
Proof.
  assert (Hs : forall p u, ChannelManager.stored (ChannelManager.stored_role p u))
    by (intros; split; [done|apply ChannelManager.full_role_attr]).
  split; split; cbn; try done; intros k r; cbn.
  - intros [[= -> ->]|[[= -> ->]|Hn%not_elem_of_nil]%elem_of_cons]%elem_of_cons; [split; [done|apply Hs]..|done].
  - intros [[= -> ->]|[[= -> ->]|Hn%not_elem_of_nil]%elem_of_cons]%elem_of_cons; [split; [done|apply Hs]..|done].
  - by intros Hn%not_elem_of_nil.
  - by intros Hn%not_elem_of_nil.
Qed.

Lemma started_services_ok : ServiceManager.services_ok ServiceManager.started_services.
Proof.
  split.
  - apply (bool_decide_unpack _). by vm_compute.
  - intros k r [[= -> ->]|[[= -> ->]|Hn%not_elem_of_nil]%elem_of_cons]%elem_of_cons; [by repeat split; eexists..|done].
  - intros k r [[= -> ->]|[[= -> ->]|Hn%not_elem_of_nil]%elem_of_cons]%elem_of_cons; [by repeat split; eexists..|done].
Qed.

Definition demo_topology : TopologyManager :=
  mkTopo true (Some NodeManager.running_manager) (Some ChannelManager.started_manager)
    (Some ServiceManager.started_services) true true Signal_new ∅.

Definition demo_leave : TopologyManager :=
  @OnParticipantChange recent_first (fun _ _ => []) 2
    (@OnParticipantChange recent_first (fun _ _ => []) 1 demo_topology
       (mkInfo 77 DISCOVERED_RTPSPARTICIPANT (participant_name "h" 10)))
    (mkInfo 77 DROPPED_RTPSPARTICIPANT "").

Lemma topology_process_leaves_witness :
  (exists cm', channel_manager_ demo_leave = Some cm' /\ participant_names_ demo_leave !! 77 = None) /\
  (exists cm', channel_manager_ demo_leave = Some cm' /\
     MultiValueWarehouse.table (ChannelManager.channel_writers_ cm') = [(5, ChannelManager.stored_role 20 101)]).
Proof.
  split; [|eexists; split; [reflexivity|by vm_compute]].
  destruct (@topology_process_leaves recent_first (fun _ _ => []) 1 2 demo_topology NodeManager.running_manager
              ChannelManager.started_manager ServiceManager.started_services
              [ChannelManager.stored_role 10 100; ChannelManager.stored_role 20 101] [] 77 "h" 10 DROPPED_RTPSPARTICIPANT "")
    as (nm' & cm' & sm' & ws' & rs' & _ & Hc & _ & _ & _ & _ & _ & _ & _ & Hg & _).
  - split; [done| | |].
    + split; [done|]. split; [apply running_filed|done].
    + split; [done|]. split; [apply started_views|done].
    + split; [done|]. split; [apply started_services_ok|done].
  - reflexivity.
  - split; [lia|reflexivity].
  - by right.
  - exists cm'. split; [exact Hc|exact Hg].
Defined.
