(* ===== verification/TimingWheel.v ===== *)
(** * The timing wheel: timer/timing_wheel.cc, timing_wheel.h, timer_bucket.h, timer_task.h

    Buckets hold weak pointers: a task is a number, alive while it is in the table [tasks].
    The loop of the tick thread is cut where [AddTask] of another thread can fall in: after
    [Tick], after the work index moved, and around the move of the assistant index and the
    cascade ([phase]); a whole [AddTask] is one step between two of these stretches, and the
    sleep of the loop is no step.  What the wheel asks [cyber::Async] to run is logged with the
    position of the wheel.

    [ceil] of a [double] is exact here: the durations are far below 2^53 and the division is
    by 2. *)

From Stdlib Require Import ZArith Lia.
From stdpp Require Import base gmap sets numbers list.
From S2P Require Import Prelude.

Definition WORK_WHEEL_SIZE : Z := 512.
Definition ASSISTANT_WHEEL_SIZE : Z := 64.
Definition TIMER_RESOLUTION_MS : Z := 2.
Definition TIMER_MAX_INTERVAL_MS : Z := WORK_WHEEL_SIZE * ASSISTANT_WHEEL_SIZE * TIMER_RESOLUTION_MS.

Record TimerTask := mkTask {
  interval_ms : Z;
  remainder_interval_ms : Z;
  next_fire_duration_ms : Z;
  accumulated_error_ns : Z;
  last_execute_time_ns : Z
}.

Definition with_remainder (t : TimerTask) (r : Z) : TimerTask :=
  mkTask (interval_ms t) r (next_fire_duration_ms t) (accumulated_error_ns t) (last_execute_time_ns t).

(** Where the tick thread is: about to tick, about to advance the work index, about to
    advance the assistant index, about to cascade. *)
Inductive phase := PTick | PInc | PAssist | PCascade.
#[export] Instance phase_eq_dec : EqDecision phase.
Proof. solve_decision. Defined.

Record TimingWheel := mkWheel {
  running_ : bool;
  tick_count_ : Z;
  work_wheel_ : list (list nat);
  assistant_wheel_ : list (list nat);
  current_work_wheel_index_ : Z;
  current_assistant_wheel_index_ : Z;
  tasks : gmap nat TimerTask;
  at_ : phase
}.

Definition TimingWheel_new : TimingWheel :=
  mkWheel false 0 (replicate 512 []) (replicate 64 []) 0 0 ∅ PTick.

Definition GetWorkWheelIndex (index : Z) : Z := Z.land index (WORK_WHEEL_SIZE - 1).
Definition GetAssistantWheelIndex (index : Z) : Z := Z.land index (ASSISTANT_WHEEL_SIZE - 1).

(** [TimerBucket::AddTask] *)
Definition Bucket_AddTask (wheel : list (list nat)) (index : Z) (task : nat) : list (list nat) :=
  alter (fun b => b ++ [task]) (Z.to_nat index) wheel.

Definition Start (w : TimingWheel) : TimingWheel :=
  if running_ w then w
  else mkWheel true (tick_count_ w) (work_wheel_ w) (assistant_wheel_ w) (current_work_wheel_index_ w)
         (current_assistant_wheel_index_ w) (tasks w) (at_ w).

Definition Shutdown (w : TimingWheel) : TimingWheel :=
  if running_ w
  then mkWheel false (tick_count_ w) (work_wheel_ w) (assistant_wheel_ w) (current_work_wheel_index_ w)
         (current_assistant_wheel_index_ w) (tasks w) (at_ w)
  else w.

(** [ceil(d / TIMER_RESOLUTION_MS)] *)
Definition ticks_of (d : Z) : Z := (d + TIMER_RESOLUTION_MS - 1) / TIMER_RESOLUTION_MS.

(** [AddTask(task)]; the task exists, its caller holds it. *)
Definition AddTask (w : TimingWheel) (task : nat) (t : TimerTask) : TimingWheel :=
  let w := Start w in
  let current := current_work_wheel_index_ w in
  let work_wheel_index := current +u ticks_of (next_fire_duration_ms t) in
  if WORK_WHEEL_SIZE <=? work_wheel_index then
    let real_work_wheel_index := GetWorkWheelIndex work_wheel_index in
    let tasks := <[task := with_remainder t real_work_wheel_index]> (tasks w) in
    let assistant_ticks := work_wheel_index / WORK_WHEEL_SIZE in
    if (assistant_ticks =? 1) && (real_work_wheel_index <? current_work_wheel_index_ w) then
      mkWheel (running_ w) (tick_count_ w) (Bucket_AddTask (work_wheel_ w) real_work_wheel_index task)
        (assistant_wheel_ w) current (current_assistant_wheel_index_ w) tasks (at_ w)
    else
      let assistant_wheel_index := GetAssistantWheelIndex (current_assistant_wheel_index_ w +u assistant_ticks) in
      mkWheel (running_ w) (tick_count_ w) (work_wheel_ w)
        (Bucket_AddTask (assistant_wheel_ w) assistant_wheel_index task) current (current_assistant_wheel_index_ w)
        tasks (at_ w)
  else
    mkWheel (running_ w) (tick_count_ w) (Bucket_AddTask (work_wheel_ w) work_wheel_index task)
      (assistant_wheel_ w) current (current_assistant_wheel_index_ w) (tasks w) (at_ w).

(** The bucket of the current index, and whether each of its tasks is alive. *)
Definition current_bucket (w : TimingWheel) : list nat :=
  default [] (work_wheel_ w !! Z.to_nat (current_work_wheel_index_ w)).
Definition alive (w : TimingWheel) (task : nat) : bool := bool_decide (is_Some (tasks w !! task)).

(** [Tick]: the tasks handed to [Async], and the wheel with the bucket emptied. *)
Definition Tick (w : TimingWheel) : list nat * TimingWheel :=
  (List.filter (alive w) (current_bucket w),
   mkWheel (running_ w) (tick_count_ w) (<[Z.to_nat (current_work_wheel_index_ w) := []]> (work_wheel_ w))
     (assistant_wheel_ w) (current_work_wheel_index_ w) (current_assistant_wheel_index_ w) (tasks w) (at_ w)).

(** [Cascade]: living tasks go to the work wheel at their remainder. *)
Definition Cascade (w : TimingWheel) (assistant_wheel_index : Z) : TimingWheel :=
  let bucket := default [] (assistant_wheel_ w !! Z.to_nat assistant_wheel_index) in
  let work := foldl (fun ww task =>
                if tasks w !! task is Some t then Bucket_AddTask ww (remainder_interval_ms t) task else ww)
                (work_wheel_ w) bucket in
  mkWheel (running_ w) (tick_count_ w) work (<[Z.to_nat assistant_wheel_index := []]> (assistant_wheel_ w))
    (current_work_wheel_index_ w) (current_assistant_wheel_index_ w) (tasks w) (at_ w).

Definition set_at (w : TimingWheel) (p : phase) : TimingWheel :=
  mkWheel (running_ w) (tick_count_ w) (work_wheel_ w) (assistant_wheel_ w) (current_work_wheel_index_ w)
    (current_assistant_wheel_index_ w) (tasks w) p.

(** One stretch of the loop of [TickFunc], whose test [while (running_)] comes before [Tick]; the
    first component is what was handed to [Async]. *)
Definition TickFunc_step (w : TimingWheel) : list nat * TimingWheel :=
  match at_ w with
  | PTick =>
      if running_ w then
        let '(fired, w) := Tick w in
        (fired, mkWheel (running_ w) (tick_count_ w +u 1) (work_wheel_ w) (assistant_wheel_ w)
                  (current_work_wheel_index_ w) (current_assistant_wheel_index_ w) (tasks w) PInc)
      else ([], w)
  | PInc =>
      let i := GetWorkWheelIndex (current_work_wheel_index_ w +u 1) in
      ([], mkWheel (running_ w) (tick_count_ w) (work_wheel_ w) (assistant_wheel_ w) i
             (current_assistant_wheel_index_ w) (tasks w) (if i =? 0 then PAssist else PTick))
  | PAssist =>
      ([], mkWheel (running_ w) (tick_count_ w) (work_wheel_ w) (assistant_wheel_ w) (current_work_wheel_index_ w)
             (GetAssistantWheelIndex (current_assistant_wheel_index_ w +u 1)) (tasks w) PCascade)
  | PCascade => ([], set_at (Cascade w (current_assistant_wheel_index_ w)) PTick)
  end.

(** ** Runs of the wheel

    A run adds ghost data to the wheel: [pos] counts the moves of the work index, [due] is the
    position at which a pending task has to fire, [adds] the (task, due position) pairs of all
    additions, [fired] the (task, position) pairs handed to [Async] and [lost] the additions
    whose task was gone when its bucket was emptied. *)
Record run := mkRun {
  wheel : TimingWheel; pos : Z; due : gmap nat Z; adds : list (nat * Z); fired : list (nat * Z);
  lost : list (nat * Z); fresh : nat }.

Definition run_init : run := mkRun TimingWheel_new 0 ∅ [] [] [] 0.

(** [t] is in bucket [i]. *)
Definition in_bucket (wl : list (list nat)) (i : nat) (t : nat) : Prop := exists b, wl !! i = Some b /\ t ∈ b.
Definition in_wheel (wl : list (list nat)) (t : nat) : Prop := exists i, in_bucket wl i t.
Definition pending (w : TimingWheel) (t : nat) : Prop := in_wheel (work_wheel_ w) t \/ in_wheel (assistant_wheel_ w) t.

(** The bucket a step empties, and the dead tasks dropped with it. *)
Definition emptied (w : TimingWheel) : list nat :=
  match at_ w with
  | PTick => if running_ w then current_bucket w else []
  | PCascade => default [] (assistant_wheel_ w !! Z.to_nat (current_assistant_wheel_index_ w))
  | _ => []
  end.
Definition dropped (w : TimingWheel) : list nat := List.filter (fun t => negb (alive w t)) (emptied w).

Definition loop_step (r : run) : run :=
  let '(f, w) := TickFunc_step (wheel r) in
  mkRun w (if decide (at_ (wheel r) = PInc) then pos r + 1 else pos r) (due r) (adds r)
    (fired r ++ ((fun t => (t, pos r)) <$> f))
    (lost r ++ ((fun t => (t, default 0 (due r !! t))) <$> dropped (wheel r))) (fresh r).

Definition add_step (r : run) (t : nat) (task : TimerTask) : run :=
  let d := pos r + ticks_of (next_fire_duration_ms task) in
  mkRun (AddTask (wheel r) t task) (pos r) (<[t := d]> (due r)) (adds r ++ [(t, d)]) (fired r) (lost r) (fresh r).

Definition shutdown_step (r : run) : run :=
  mkRun (Shutdown (wheel r)) (pos r) (due r) (adds r) (fired r) (lost r) (fresh r).

Definition set_tasks (r : run) (ts : gmap nat TimerTask) (f : nat) : run :=
  let w := wheel r in
  mkRun (mkWheel (running_ w) (tick_count_ w) (work_wheel_ w) (assistant_wheel_ w) (current_work_wheel_index_ w)
           (current_assistant_wheel_index_ w) ts (at_ w)) (pos r) (due r) (adds r) (fired r) (lost r) f.

(** The tick thread advances; a task that is not pending and whose interval is in range is
    added while the two indices agree; tasks are made, changed between their firing and their
    next addition, and dropped at any time; the wheel is shut down, and an addition starts it
    again: [Start] waits for the lock that [Shutdown] holds until the tick thread has left its
    loop. *)
Inductive run_step : run -> run -> Prop :=
| rs_loop r : run_step r (loop_step r)
| rs_add r t task :
    tasks (wheel r) !! t = Some task -> ~ pending (wheel r) t ->
    1 <= next_fire_duration_ms task < TIMER_MAX_INTERVAL_MS ->
    at_ (wheel r) = PTick \/ (at_ (wheel r) = PInc /\ running_ (wheel r) = true) -> run_step r (add_step r t task)
| rs_new r task : run_step r (set_tasks r (<[fresh r := task]> (tasks (wheel r))) (S (fresh r)))
| rs_change r t task task' :
    tasks (wheel r) !! t = Some task -> ~ pending (wheel r) t ->
    run_step r (set_tasks r (<[t := task']> (tasks (wheel r))) (fresh r))
| rs_drop r t : run_step r (set_tasks r (delete t (tasks (wheel r))) (fresh r))
| rs_shutdown r : run_step r (shutdown_step r).

(** ** Buckets *)
Lemma in_bucket_add wl idx t i t' :
  0 <= idx < Z.of_nat (length wl) ->
  in_bucket (Bucket_AddTask wl idx t) i t' <-> in_bucket wl i t' \/ (i = Z.to_nat idx /\ t' = t).
Proof.
  intros Hi. unfold in_bucket, Bucket_AddTask. destruct (decide (i = Z.to_nat idx)) as [->|Hne].
  - rewrite list_lookup_alter_eq. destruct (lookup_lt_is_Some_2 wl (Z.to_nat idx)) as [b Hb]; [lia|]. rewrite Hb. cbn.
    split.
    + intros (b' & [= <-] & [?|?%list_elem_of_singleton]%elem_of_app); [left; by exists b|by right].
    + intros [(b' & [= <-] & ?)|[_ ->]]; (eexists; split; [done|]); apply elem_of_app; [by left|right; by apply list_elem_of_singleton].
  - rewrite list_lookup_alter_ne by done. naive_solver.
Qed.

Lemma in_bucket_clear wl k i t : in_bucket (<[k := []]> wl) i t <-> i <> k /\ in_bucket wl i t.
Proof.
  unfold in_bucket. destruct (decide (i = k)) as [->|Hne].
  - split; [|by intros [? _]]. intros (b & Hb & Ht). destruct (decide (k < length wl)%nat).
    + rewrite list_lookup_insert_eq in Hb by done. simplify_eq. by apply not_elem_of_nil in Ht.
    + by rewrite list_insert_ge, lookup_ge_None_2 in Hb by lia.
  - rewrite list_lookup_insert_ne by done. naive_solver.
Qed.

Lemma bucket_add_nodup (wl : list (list nat)) idx t :
  (forall i b, wl !! i = Some b -> NoDup b) -> (forall i, ~ in_bucket wl i t) ->
  forall i b, Bucket_AddTask wl idx t !! i = Some b -> NoDup b.
Proof.
  intros Hnd Hno i b. unfold Bucket_AddTask. destruct (decide (i = Z.to_nat idx)) as [->|Hne].
  - rewrite list_lookup_alter_eq. destruct (wl !! Z.to_nat idx) as [b0|] eqn:Hb; [|done]. intros [= <-].
    apply NoDup_app. split; [by eapply Hnd|]. split; [|apply NoDup_singleton].
    intros x Hx ->%list_elem_of_singleton. apply (Hno (Z.to_nat idx)). by exists b0.
  - rewrite list_lookup_alter_ne by done. apply Hnd.
Qed.

Lemma bucket_clear_nodup (wl : list (list nat)) (k : nat) :
  (forall i b, wl !! i = Some b -> NoDup b) -> forall i b, <[k := []]> wl !! i = Some b -> NoDup b.
Proof.
  intros Hnd i b. rewrite list_lookup_insert_Some. intros [(_ & <- & _)|[_ ?]]; [constructor|by eapply Hnd].
Qed.

Lemma length_Bucket_AddTask wl idx t : length (Bucket_AddTask wl idx t) = length wl.
Proof. apply length_alter. Qed.

Lemma work_index x : GetWorkWheelIndex x = x mod 512.
Proof. unfold GetWorkWheelIndex. change (WORK_WHEEL_SIZE - 1) with (Z.ones 9). by rewrite Z.land_ones. Qed.
Lemma assistant_index x : GetAssistantWheelIndex x = x mod 64.
Proof. unfold GetAssistantWheelIndex. change (ASSISTANT_WHEEL_SIZE - 1) with (Z.ones 6). by rewrite Z.land_ones. Qed.

(** ** The invariant of a run *)

(** The last revolution whose cascade is done, and the first position not ticked yet. *)
Definition epoch (r : run) : Z :=
  pos r / 512 - (match at_ (wheel r) with PAssist | PCascade => 1 | _ => 0 end).
Definition lo (r : run) : Z := pos r + (match at_ (wheel r) with PInc => 1 | _ => 0 end).

Definition work_entry (r : run) (i t : nat) (d : Z) : Prop :=
  due r !! t = Some d /\ d mod 512 = Z.of_nat i /\ lo r <= d < pos r + 512 /\ (t, d) ∈ adds r.

Definition assistant_entry (r : run) (j t : nat) (d : Z) : Prop :=
  due r !! t = Some d /\ (d / 512) mod 64 = Z.of_nat j /\ epoch r < d / 512 <= epoch r + 64 /\ (t, d) ∈ adds r /\
  forall task, tasks (wheel r) !! t = Some task -> remainder_interval_ms task = d mod 512.

Record run_ok (r : run) : Prop := {
  ok_work : length (work_wheel_ (wheel r)) = 512%nat;
  ok_assist : length (assistant_wheel_ (wheel r)) = 64%nat;
  ok_pos : 0 <= pos r;
  ok_cur : current_work_wheel_index_ (wheel r) = pos r mod 512;
  ok_acur : current_assistant_wheel_index_ (wheel r) =
              (match at_ (wheel r) with PCascade => pos r / 512 | _ => epoch r end) mod 64;
  ok_phase : at_ (wheel r) = PAssist \/ at_ (wheel r) = PCascade -> pos r mod 512 = 0;
  ok_wentry : forall i t, in_bucket (work_wheel_ (wheel r)) i t -> exists d, work_entry r i t d;
  ok_aentry : forall j t, in_bucket (assistant_wheel_ (wheel r)) j t -> exists d, assistant_entry r j t d;
  ok_once : forall t, in_wheel (work_wheel_ (wheel r)) t -> ~ in_wheel (assistant_wheel_ (wheel r)) t;
  ok_wnodup : forall i b, work_wheel_ (wheel r) !! i = Some b -> NoDup b;
  ok_anodup : forall j b, assistant_wheel_ (wheel r) !! j = Some b -> NoDup b;
  ok_fresh : forall t, is_Some (tasks (wheel r) !! t) \/ pending (wheel r) t -> (t < fresh r)%nat;
  ok_fnodup : NoDup (fired r);
  ok_fired : forall t p, (t, p) ∈ fired r -> (t, p) ∈ adds r /\ p < lo r;
  ok_lost : forall t d, (t, d) ∈ lost r -> tasks (wheel r) !! t = None /\ (t < fresh r)%nat;
  ok_cover : forall t d, (t, d) ∈ adds r ->
    (t, d) ∈ fired r \/ (t, d) ∈ lost r \/ (pending (wheel r) t /\ due r !! t = Some d)
}.

Lemma run_init_ok : run_ok run_init.
Proof.
  assert (Hw : forall n i t, ~ in_bucket (replicate n []) i t).
  { intros n i t (b & Hb & Ht). apply lookup_replicate in Hb as [-> _]. by apply not_elem_of_nil in Ht. }
  assert (Hp : forall t, ~ pending TimingWheel_new t).
  { intros t [[i Hi]|[i Hi]]; [exact (Hw 512%nat i t Hi)|exact (Hw 64%nat i t Hi)]. }
  split; cbn [wheel run_init TimingWheel_new work_wheel_ assistant_wheel_ at_ tasks pos due adds fired lost fresh
              current_work_wheel_index_ current_assistant_wheel_index_]; try done.
  - intros i t Hi. by apply Hw in Hi.
  - intros i t Hi. by apply Hw in Hi.
  - intros t [i Hi]. by apply Hw in Hi.
  - intros i b Hb. apply lookup_replicate in Hb as [-> _]. constructor.
  - intros i b Hb. apply lookup_replicate in Hb as [-> _]. constructor.
  - intros t [[x Hx]|Hx]; [by rewrite lookup_empty in Hx|by apply Hp in Hx].
  - constructor.
  - intros t p Hn. by apply not_elem_of_nil in Hn.
  - intros t p Hn. by apply not_elem_of_nil in Hn.
  - intros t p Hn. by apply not_elem_of_nil in Hn.
Qed.

(** An addition in the past or present is no longer pending. *)
Lemma pending_due r t d :
  run_ok r -> pending (wheel r) t -> due r !! t = Some d -> lo r <= d.
Proof.
  intros Hok [[i Hi]|[j Hj]] Hd.
  - destruct (ok_wentry r Hok i t Hi) as (d' & Hd' & _ & Hr & _). simplify_eq. lia.
  - destruct (ok_aentry r Hok j t Hj) as (d' & Hd' & _ & Hr & _). simplify_eq.
    pose proof (ok_phase r Hok) as Hph. unfold epoch, lo in *.
    pose proof (Z.div_mod d 512 ltac:(lia)). pose proof (Z.mod_pos_bound d 512 ltac:(lia)).
    pose proof (Z.div_mod (pos r) 512 ltac:(lia)). pose proof (Z.mod_pos_bound (pos r) 512 ltac:(lia)).
    destruct (at_ (wheel r)); try lia; rewrite Hph in * by auto; lia.
Qed.

(** *** Tasks made, changed and dropped *)
Lemma set_tasks_ok r ts f :
  run_ok r -> (fresh r <= f)%nat ->
  (forall t, is_Some (ts !! t) -> (t < f)%nat) ->
  (forall t task, ts !! t = Some task -> pending (wheel r) t ->
     exists task', tasks (wheel r) !! t = Some task' /\ remainder_interval_ms task = remainder_interval_ms task') ->
  (forall t, (t < fresh r)%nat -> tasks (wheel r) !! t = None -> ts !! t = None) ->
  run_ok (set_tasks r ts f).
Proof.
  intros [] Hf Hts Hrem Hdead. split; try done.
  - intros j t Hj. destruct (ok_aentry0 j t Hj) as (d & H1 & H2 & H3 & H4 & H5). exists d.
    do 4 (split; [done|]). intros task Ht. cbn in Ht.
    destruct (Hrem t task Ht) as (task' & Ht' & ->); [right; by exists j|]. by apply H5.
  - intros t [Ht|Hp]; [by apply Hts|]. cbn. pose proof (ok_fresh0 t (or_intror Hp)). lia.
  - intros t d Hl. destruct (ok_lost0 t d Hl). cbn. split; [by apply Hdead|lia].
Qed.

(** *** An addition *)
Lemma ticks_of_range d : 1 <= d < TIMER_MAX_INTERVAL_MS -> 1 <= ticks_of d <= 32768.
Proof.
  unfold ticks_of, TIMER_MAX_INTERVAL_MS, WORK_WHEEL_SIZE, ASSISTANT_WHEEL_SIZE, TIMER_RESOLUTION_MS. intros Hd.
  pose proof (Z.div_mod (d + 2 - 1) 2 ltac:(lia)). pose proof (Z.mod_pos_bound (d + 2 - 1) 2 ltac:(lia)). lia.
Qed.

(** Where [AddTask] puts a task that is [k] ticks away. *)
Lemma AddTask_where w t task n :
  let k := ticks_of (next_fire_duration_ms task) in
  current_work_wheel_index_ w = n mod 512 -> 0 <= n -> 1 <= k <= 32768 ->
  current_assistant_wheel_index_ w = (n / 512) mod 64 ->
  let d := n + k in
  let w' := AddTask w t task in
  at_ w' = at_ w /\ current_work_wheel_index_ w' = current_work_wheel_index_ w /\
  current_assistant_wheel_index_ w' = current_assistant_wheel_index_ w /\
  ((k < 512 /\ work_wheel_ w' = Bucket_AddTask (work_wheel_ w) (d mod 512) t /\ assistant_wheel_ w' = assistant_wheel_ w /\
    (tasks w' = tasks w \/ exists r, tasks w' = <[t := with_remainder task r]> (tasks w))) \/
   (n / 512 < d / 512 <= n / 512 + 64 /\ work_wheel_ w' = work_wheel_ w /\
    assistant_wheel_ w' = Bucket_AddTask (assistant_wheel_ w) ((d / 512) mod 64) t /\
    tasks w' = <[t := with_remainder task (d mod 512)]> (tasks w))).
Proof.
  cbv zeta. intros Hc Hn Hk Ha. set (k := ticks_of (next_fire_duration_ms task)) in *.
  assert (Hs : current_work_wheel_index_ (Start w) = n mod 512 /\ current_assistant_wheel_index_ (Start w) = (n / 512) mod 64 /\
               work_wheel_ (Start w) = work_wheel_ w /\ assistant_wheel_ (Start w) = assistant_wheel_ w /\
               tasks (Start w) = tasks w /\ at_ (Start w) = at_ w) by (unfold Start; by destruct (running_ w)).
  destruct Hs as (Hs1 & Hs2 & Hs3 & Hs4 & Hs5 & Hs6).
  pose proof (Z.div_mod n 512 ltac:(lia)). pose proof (Z.mod_pos_bound n 512 ltac:(lia)).
  assert (Hm : (n mod 512 + k) mod 512 = (n + k) mod 512) by by rewrite Zplus_mod_idemp_l.
  assert (Hq : (n mod 512 + k) / 512 = (n + k) / 512 - n / 512).
  { replace (n + k) with (n mod 512 + k + n / 512 * 512) by lia. rewrite Z.div_add by lia. lia. }
  pose proof (Z.div_mod (n mod 512 + k) 512 ltac:(lia)). pose proof (Z.mod_pos_bound (n mod 512 + k) 512 ltac:(lia)).
  unfold AddTask. cbv zeta. fold k. rewrite Hs1, Hs2, Hs3, Hs4, Hs5, Hs6, !work_index, !assistant_index.
  rewrite (u64_small (n mod 512 + k)) by word_lia. unfold WORK_WHEEL_SIZE.
  destruct (Z.leb_spec 512 (n mod 512 + k)).
  - rewrite Hm. destruct ((_ =? 1) && _) eqn:Hb; cbn; (split; [done|]; split; [done|]; split; [done|]).
    + left. apply andb_true_iff in Hb as [Hb1%Z.eqb_eq Hb2%Z.ltb_lt]. split; [lia|]. split; [done|]. split; [done|]. right. by eexists.
    + right. apply andb_false_iff in Hb. rewrite Z.eqb_neq, Z.ltb_ge in Hb.
      pose proof (Z.mod_pos_bound (n / 512) 64 ltac:(lia)).
      split; [lia|]. split; [done|]. split; [|done].
      rewrite u64_small by word_lia. rewrite Zplus_mod_idemp_l. do 2 f_equal. lia.
  - cbn. do 3 (split; [done|]). left. split; [lia|]. split; [|split; [done|by left]].
    f_equal. rewrite <- Hm. symmetry. apply Z.mod_small. lia.
Qed.

(** A wheel [w'] that is the wheel of [r] with [t], due at [d], in one more bucket: of the work
    wheel when [direct], of the assistant wheel otherwise. *)
Record put (r : run) (t : nat) (d : Z) (direct : bool) (w' : TimingWheel) : Prop := {
  pu_at : at_ w' = at_ (wheel r);
  pu_cur : current_work_wheel_index_ w' = current_work_wheel_index_ (wheel r);
  pu_acur : current_assistant_wheel_index_ w' = current_assistant_wheel_index_ (wheel r);
  pu_wlen : length (work_wheel_ w') = length (work_wheel_ (wheel r));
  pu_alen : length (assistant_wheel_ w') = length (assistant_wheel_ (wheel r));
  pu_work : forall i x, in_bucket (work_wheel_ w') i x <->
              in_bucket (work_wheel_ (wheel r)) i x \/ (x = t /\ direct = true /\ Z.of_nat i = d mod 512);
  pu_assist : forall j x, in_bucket (assistant_wheel_ w') j x <->
              in_bucket (assistant_wheel_ (wheel r)) j x \/ (x = t /\ direct = false /\ Z.of_nat j = (d / 512) mod 64);
  pu_wnodup : forall i b, work_wheel_ w' !! i = Some b -> NoDup b;
  pu_anodup : forall j b, assistant_wheel_ w' !! j = Some b -> NoDup b;
  pu_tasks : forall x, x <> t -> tasks w' !! x = tasks (wheel r) !! x;
  pu_task : is_Some (tasks (wheel r) !! t);
  pu_rem : direct = false -> forall task, tasks w' !! t = Some task -> remainder_interval_ms task = d mod 512;
  pu_range : if direct then d < pos r + 512 else epoch r < d / 512 <= epoch r + 64;
  pu_new : ~ pending (wheel r) t
}.

Lemma put_pending r t d direct w' x :
  put r t d direct w' -> pending w' x <-> pending (wheel r) x \/
    (x = t /\ exists i, Z.of_nat i = if direct then d mod 512 else (d / 512) mod 64).
Proof.
  intros []. unfold pending, in_wheel. setoid_rewrite pu_work0. setoid_rewrite pu_assist0.
  destruct direct; naive_solver.
Qed.

Lemma put_ok r t d direct w' :
  run_ok r -> put r t d direct w' -> lo r <= d ->
  run_ok (mkRun w' (pos r) (<[t := d]> (due r)) (adds r ++ [(t, d)]) (fired r) (lost r) (fresh r)).
Proof.
  intros [] Hput Hlod. pose proof (put_pending _ _ _ _ _ t Hput) as Hpt.
  pose proof (fun x => proj1 (put_pending _ _ _ _ _ x Hput)) as Hp1.
  pose proof (fun x => proj2 (put_pending _ _ _ _ _ x Hput)) as Hp2.
  destruct Hput. set (r' := mkRun _ _ _ _ _ _ _).
  assert (Hlo : lo r' = lo r) by (unfold lo; cbn; by rewrite pu_at0).
  assert (Hepo : epoch r' = epoch r) by (unfold epoch; cbn; by rewrite pu_at0).
  assert (Hnt : forall x, pending (wheel r) x -> x <> t) by (intros x Hx ->; by apply pu_new0).
  assert (Hw : forall i x, in_bucket (work_wheel_ (wheel r)) i x -> x <> t) by (intros; apply Hnt; left; by eexists).
  assert (Ha : forall i x, in_bucket (assistant_wheel_ (wheel r)) i x -> x <> t) by (intros; apply Hnt; right; by eexists).
  split; cbn [r' wheel pos fired fresh]; rewrite ?pu_at0, ?pu_cur0, ?pu_acur0, ?Hlo, ?Hepo, ?pu_wlen0, ?pu_alen0; try done.
  - intros i x [Hi|(-> & -> & Hi)]%pu_work0.
    + destruct (ok_wentry0 i x Hi) as (e & H1 & H2 & H3 & H4). exists e. unfold work_entry. rewrite Hlo. cbn.
      rewrite lookup_insert_ne by (symmetry; by eapply Hw). set_solver.
    + exists d. unfold work_entry. rewrite Hlo. cbn. rewrite lookup_insert_eq. set_solver.
  - intros j x [Hj|(-> & -> & Hj)]%pu_assist0.
    + destruct (ok_aentry0 j x Hj) as (e & H1 & H2 & H3 & H4 & H5). exists e. unfold assistant_entry. rewrite Hepo. cbn.
      rewrite lookup_insert_ne by (symmetry; by eapply Ha). rewrite pu_tasks0 by (by eapply Ha). set_solver.
    + exists d. unfold assistant_entry. rewrite Hepo. cbn. rewrite lookup_insert_eq.
      split; [done|]. split; [done|]. split; [done|]. split; [set_solver|]. by apply pu_rem0.
  - intros x [i Hi%pu_work0] [j Hj%pu_assist0].
    destruct Hi as [Hi|(-> & Hd & _)], Hj as [Hj|(Hx & Hd' & _)].
    + apply (ok_once0 x); by eexists.
    + subst. by apply (Hw i t).
    + by apply (Ha j t).
    + congruence.
  - intros x Hx. destruct (decide (x = t)) as [->|Hne]; [apply ok_fresh0; by left|].
    apply ok_fresh0. rewrite <- pu_tasks0 by done. destruct Hx as [Hx|[Hx|[? _]]%Hp1]; [by left|by right|done].
  - intros x p Hx. destruct (ok_fired0 x p Hx). cbn. set_solver.
  - intros x e Hx. destruct (ok_lost0 x e Hx) as [Hl1 Hl2]. split; [|done].
    rewrite pu_tasks0; [done|]. intros ->. rewrite Hl1 in pu_task0. by destruct pu_task0.
  - cbn. intros x e [Hx|[= -> ->]%list_elem_of_singleton]%elem_of_app.
    + destruct (ok_cover0 x e Hx) as [|[|[Hp He]]]; [by left|by right; left|]. right; right.
      split; [apply Hp2; by left|]. rewrite lookup_insert_ne; [done|]. symmetry. by apply Hnt.
    + right; right. split; [|apply lookup_insert_eq]. apply Hp2. right. split; [done|].
      pose proof (Z.mod_pos_bound d 512 ltac:(lia)). pose proof (Z.mod_pos_bound (d / 512) 64 ltac:(lia)).
      destruct direct; [exists (Z.to_nat (d mod 512))|exists (Z.to_nat ((d / 512) mod 64))]; lia.
Qed.

Lemma AddTask_put r t task :
  run_ok r -> tasks (wheel r) !! t = Some task -> ~ pending (wheel r) t ->
  1 <= next_fire_duration_ms task < TIMER_MAX_INTERVAL_MS ->
  at_ (wheel r) = PTick \/ at_ (wheel r) = PInc ->
  exists direct, put r t (pos r + ticks_of (next_fire_duration_ms task)) direct (AddTask (wheel r) t task).
Proof.
  intros [] Ht Hnp Hd Hat. pose proof (ticks_of_range _ Hd) as Hk. set (k := ticks_of (next_fire_duration_ms task)) in *.
  assert (Hep : epoch r = pos r / 512) by (unfold epoch; destruct Hat as [-> | ->]; lia).
  assert (Hac : current_assistant_wheel_index_ (wheel r) = (pos r / 512) mod 64).
  { rewrite ok_acur0, Hep. by destruct Hat as [-> | ->]. }
  pose proof (AddTask_where (wheel r) t task (pos r) ok_cur0 ok_pos0 Hk Hac) as (Ha & Hc1 & Hc2 & Hwhere).
  fold k in Hwhere. set (d := pos r + k) in *. set (w' := AddTask (wheel r) t task) in *. clearbody w'.
  pose proof (Z.mod_pos_bound d 512 ltac:(lia)). pose proof (Z.mod_pos_bound (d / 512) 64 ltac:(lia)).
  assert (Hnw : forall i, ~ in_bucket (work_wheel_ (wheel r)) i t) by (intros i Hi; apply Hnp; left; by eexists).
  assert (Hna : forall i, ~ in_bucket (assistant_wheel_ (wheel r)) i t) by (intros i Hi; apply Hnp; right; by eexists).
  destruct Hwhere as [(Hk5 & Hw & Hs & Htk)|(Hr & Hw & Hs & Htk)].
  - exists true. split; rewrite ?Hw, ?Hs, ?length_Bucket_AddTask; try done.
    + intros i x. rewrite in_bucket_add by (rewrite ok_work0; lia). split; (intros [?|?]; [by left|right]); intuition lia.
    + intros j x. split; [by left|]. by intros [?|(_ & ? & _)].
    + by apply bucket_add_nodup.
    + intros x Hx. destruct Htk as [-> |[q ->]]; [done|by rewrite lookup_insert_ne].
    + unfold d. lia.
  - exists false. split; rewrite ?Hw, ?Hs, ?length_Bucket_AddTask; try done.
    + intros j x. split; [by left|]. by intros [?|(_ & ? & _)].
    + intros i x. rewrite in_bucket_add by (rewrite ok_assist0; lia). split; (intros [?|?]; [by left|right]); intuition lia.
    + by apply bucket_add_nodup.
    + intros x Hx. rewrite Htk. by rewrite lookup_insert_ne.
    + intros _ task'. rewrite Htk, lookup_insert_eq. by intros [= <-].
    + by rewrite Hep.
Qed.

Lemma add_ok r t task :
  run_ok r -> tasks (wheel r) !! t = Some task -> ~ pending (wheel r) t ->
  1 <= next_fire_duration_ms task < TIMER_MAX_INTERVAL_MS ->
  at_ (wheel r) = PTick \/ at_ (wheel r) = PInc -> run_ok (add_step r t task).
Proof.
  intros Hok Ht Hnp Hd Hat. destruct (AddTask_put r t task Hok Ht Hnp Hd Hat) as [direct Hput].
  apply (put_ok r t _ direct); [done|done|]. pose proof (ticks_of_range _ Hd).
  unfold lo. destruct Hat as [-> | ->]; lia.
Qed.

(** *** The tick thread *)

(** A step that leaves buckets and tasks alone and moves the indices along. *)
Lemma move_ok r w' n :
  run_ok r -> let r' := mkRun w' n (due r) (adds r) (fired r) (lost r) (fresh r) in
  work_wheel_ w' = work_wheel_ (wheel r) -> assistant_wheel_ w' = assistant_wheel_ (wheel r) ->
  tasks w' = tasks (wheel r) -> lo r' = lo r -> epoch r' = epoch r -> pos r <= n ->
  current_work_wheel_index_ w' = n mod 512 ->
  current_assistant_wheel_index_ w' = (match at_ w' with PCascade => n / 512 | _ => epoch r end) mod 64 ->
  (at_ w' = PAssist \/ at_ w' = PCascade -> n mod 512 = 0) ->
  run_ok r'.
Proof.
  intros [] r' Hw Ha Ht Hlo Hep Hn Hc Hac Hph.
  assert (Hpe : forall x, pending w' x <-> pending (wheel r) x) by (intros; unfold pending; by rewrite Hw, Ha).
  split; cbn [r' wheel pos due adds fired lost fresh]; rewrite ?Hlo, ?Hep, ?Hw, ?Ha, ?Ht; try done; try lia.
  - intros i t Hi. destruct (ok_wentry0 i t Hi) as (d & H1 & H2 & H3 & H4). exists d. unfold work_entry.
    rewrite Hlo. cbn. do 2 (split; [done|]). split; [lia|done].
  - intros j t Hj. destruct (ok_aentry0 j t Hj) as (d & H1 & H2 & H3 & H4 & H5). exists d. unfold assistant_entry.
    rewrite Hep. cbn. by rewrite Ht.
  - intros t. rewrite Hpe. apply ok_fresh0.
  - intros t d. rewrite Hpe. apply ok_cover0.
Qed.

(** What the bucket under the work index holds is due now. *)
Lemma current_due r t :
  run_ok r -> at_ (wheel r) = PTick ->
  in_bucket (work_wheel_ (wheel r)) (Z.to_nat (current_work_wheel_index_ (wheel r))) t ->
  due r !! t = Some (pos r) /\ (t, pos r) ∈ adds r.
Proof.
  intros Hok Hat Hi. destruct (ok_wentry r Hok _ t Hi) as (d & H1 & H2 & H3 & H4).
  rewrite (ok_cur r Hok) in H2. pose proof (Z.mod_pos_bound (pos r) 512 ltac:(lia)).
  unfold lo in H3. rewrite Hat in H3.
  assert (d = pos r) as ->; [|done].
  pose proof (Z.div_mod d 512 ltac:(lia)). pose proof (Z.div_mod (pos r) 512 ltac:(lia)). lia.
Qed.

Lemma current_bucket_in r t :
  run_ok r -> t ∈ current_bucket (wheel r) <->
    in_bucket (work_wheel_ (wheel r)) (Z.to_nat (current_work_wheel_index_ (wheel r))) t.
Proof.
  intros _. unfold current_bucket, in_bucket. destruct (_ !! _) as [b|]; cbn.
  - naive_solver.
  - split; [by intros ?%not_elem_of_nil|by intros (? & ? & _)].
Qed.

Lemma alive_spec w t : alive w t = true <-> is_Some (tasks w !! t).
Proof. apply bool_decide_eq_true. Qed.

Lemma dead_in w b t :
  t ∈ List.filter (fun t => negb (alive w t)) b <-> t ∈ b /\ tasks w !! t = None.
Proof.
  rewrite list_elem_of_In, List.filter_In, <- list_elem_of_In, negb_true_iff. unfold alive.
  by rewrite bool_decide_eq_false, <- eq_None_not_Some.
Qed.

Lemma alive_in w b t : t ∈ List.filter (alive w) b <-> t ∈ b /\ is_Some (tasks w !! t).
Proof. by rewrite list_elem_of_In, List.filter_In, <- list_elem_of_In, alive_spec. Qed.

(** Additions dropped with a bucket of pending tasks are of tasks that are gone. *)
Lemma dropped_lost r b (f : nat -> Z) t d :
  run_ok r -> (forall t, t ∈ b -> pending (wheel r) t) ->
  (t, d) ∈ lost r ++ ((fun t => (t, f t)) <$> List.filter (fun t => negb (alive (wheel r) t)) b) ->
  tasks (wheel r) !! t = None /\ (t < fresh r)%nat.
Proof.
  intros Hok Hp [Hl|(x & [= <- ->] & [Hx Hn]%dead_in)%list_elem_of_fmap]%elem_of_app; [by eapply (ok_lost r Hok)|].
  split; [done|]. apply (ok_fresh r Hok). right. by apply Hp.
Qed.

Lemma tick_ok r : run_ok r -> at_ (wheel r) = PTick -> run_ok (loop_step r).
Proof.
  intros Hok Hat. pose proof (current_due r) as Hdue. pose proof (current_bucket_in r) as Hin.
  unfold loop_step, TickFunc_step, dropped, emptied. rewrite Hat.
  destruct (running_ (wheel r)) eqn:Hrun; cbn [Tick List.filter fmap list_fmap].
  2: { rewrite !app_nil_r. rewrite decide_False by done. by destruct r. }
  rewrite decide_False by done. set (c := Z.to_nat (current_work_wheel_index_ (wheel r))) in *.
  set (b := current_bucket (wheel r)) in *. set (r' := mkRun _ _ _ _ _ _ _).
  assert (Hb : forall t, t ∈ b -> due r !! t = Some (pos r) /\ (t, pos r) ∈ adds r /\ pending (wheel r) t).
  { intros t Ht%(Hin t Hok). destruct (Hdue t Hok Hat Ht). do 2 (split; [done|]). left. by exists c. }
  assert (Hlo : lo r' = lo r + 1) by (unfold lo; cbn; rewrite Hat; lia).
  assert (Hlp : lo r = pos r) by (unfold lo; rewrite Hat; lia).
  assert (Hep : epoch r' = epoch r) by (unfold epoch; cbn; by rewrite Hat).
  assert (Hpe : forall t, pending (wheel r') t -> pending (wheel r) t).
  { intros t [[i [_ Hi]%in_bucket_clear]|Ha]; [left; by exists i|by right]. }
  assert (HNb : NoDup b).
  { unfold b, current_bucket. destruct (_ !! _) as [b'|] eqn:Hb'; [by eapply (ok_wnodup r Hok)|constructor]. }
  destruct Hok as [? ? ? ? ? ? ? ? ? ? ? ? ? ? ? ?] eqn:HokE. clear HokE. split; cbn [r' wheel pos due adds fired lost fresh tasks at_ work_wheel_ assistant_wheel_
    current_work_wheel_index_ current_assistant_wheel_index_]; rewrite ?length_insert; try done.
  - rewrite Hep, ok_acur0. by rewrite Hat.
  - by intros [?|?].
  - intros i t [Hne Hi]%in_bucket_clear. destruct (ok_wentry0 i t Hi) as (d & H1 & H2 & H3 & H4). exists d.
    unfold work_entry. rewrite Hlo. do 2 (split; [done|]). split; [|done]. change (pos r') with (pos r).
    assert (d <> pos r); [|lia]. intros ->. apply Hne. unfold c. rewrite ok_cur0. lia.
  - intros j t Hj. destruct (ok_aentry0 j t Hj) as (d & H1 & H2 & H3 & H4). exists d. unfold assistant_entry. by rewrite Hep.
  - intros t [i [_ Hi]%in_bucket_clear]. apply ok_once0. by exists i.
  - by apply bucket_clear_nodup.
  - intros t [?|?%Hpe]; apply ok_fresh0; [by left|by right].
  - apply NoDup_app. split; [done|]. split.
    + intros [t p] Hf (x & Hx & _)%list_elem_of_fmap. destruct (ok_fired0 t p Hf). simplify_eq. lia.
    + apply NoDup_fmap_2; [by intros ?? [=]|]. by apply NoDup_ListNoDup, List.NoDup_filter, NoDup_ListNoDup.
  - intros t p [Hf|(x & [= <- ->] & [Hx _]%alive_in)%list_elem_of_fmap]%elem_of_app.
    + destruct (ok_fired0 t p Hf). split; [done|lia].
    + split; [by apply Hb|lia].
  - intros t d. by apply dropped_lost; [|intros; apply Hb].
  - intros t d Ha. destruct (ok_cover0 t d Ha) as [?|[?|[Hp Hd]]]; [left; set_solver|right; left; set_solver|].
    destruct (decide (t ∈ b)) as [Ht|Ht].
    + assert (d = pos r) as -> by (destruct (Hb t Ht); naive_solver). destruct (tasks (wheel r) !! t) as [task|] eqn:Hal.
      * left. apply elem_of_app. right. apply list_elem_of_fmap. exists t. split; [done|]. by apply alive_in.
      * right; left. apply elem_of_app. right. apply list_elem_of_fmap. exists t. rewrite Hd. split; [done|]. by apply dead_in.
    + right; right. split; [|done]. destruct Hp as [[i Hi]|Hp]; [|by right]. left. exists i.
      apply in_bucket_clear. split; [|done]. intros ->. apply Ht. by apply Hin.
Qed.

Lemma inc_ok r : run_ok r -> at_ (wheel r) = PInc -> run_ok (loop_step r).
Proof.
  intros Hok Hat. unfold loop_step, TickFunc_step, dropped, emptied. rewrite Hat. cbn [List.filter fmap list_fmap].
  rewrite !app_nil_r, decide_True by done. pose proof (ok_cur r Hok) as Hc. pose proof (ok_acur r Hok) as Hac.
  pose proof (ok_pos r Hok). rewrite Hat in Hac.
  pose proof (Z.div_mod (pos r) 512 ltac:(lia)). pose proof (Z.mod_pos_bound (pos r) 512 ltac:(lia)).
  pose proof (Z.div_mod (pos r + 1) 512 ltac:(lia)). pose proof (Z.mod_pos_bound (pos r + 1) 512 ltac:(lia)).
  rewrite Hc, work_index, (u64_small (_ + 1)), Zplus_mod_idemp_l by word_lia.
  assert (He : epoch r = pos r / 512) by (unfold epoch; rewrite Hat; lia).
  assert (Hl : lo r = pos r + 1) by (unfold lo; by rewrite Hat).
  apply (move_ok r _ (pos r + 1) Hok); try done; cbn [at_ current_assistant_wheel_index_];
    rewrite ?He, ?Hl; try unfold lo, epoch; cbn [at_ wheel pos]; try lia;
    destruct (Z.eqb_spec ((pos r + 1) mod 512) 0); try lia; try (by rewrite Hac, He); by intros [?|?].
Qed.

Lemma assist_ok r : run_ok r -> at_ (wheel r) = PAssist -> run_ok (loop_step r).
Proof.
  intros Hok Hat. unfold loop_step, TickFunc_step, dropped, emptied. rewrite Hat. cbn [List.filter fmap list_fmap].
  rewrite !app_nil_r, decide_False by done. pose proof (ok_acur r Hok) as Hac. rewrite Hat in Hac.
  pose proof (Z.mod_pos_bound (epoch r) 64 ltac:(lia)).
  assert (He : epoch r = pos r / 512 - 1) by (unfold epoch; by rewrite Hat).
  apply (move_ok r _ (pos r) Hok); try done; cbn [at_ current_assistant_wheel_index_].
  - unfold lo. cbn. by rewrite Hat.
  - apply (ok_cur r Hok).
  - rewrite Hac, assistant_index, u64_small, Zplus_mod_idemp_l, He by word_lia. f_equal. lia.
  - intros _. apply (ok_phase r Hok). by left.
Qed.

(** The buckets after the loop of [Cascade]. *)
Definition cascade_into (ts : gmap nat TimerTask) (wl : list (list nat)) (b : list nat) : list (list nat) :=
  foldl (fun ww task => if ts !! task is Some t then Bucket_AddTask ww (remainder_interval_ms t) task else ww) wl b.

Section cascade.
Context (ts : gmap nat TimerTask).
Definition in_range (b : list nat) : Prop :=
  forall x t, x ∈ b -> ts !! x = Some t -> 0 <= remainder_interval_ms t < 512.

Lemma cascade_length b wl : length (cascade_into ts wl b) = length wl.
Proof.
  revert wl. induction b as [|x b IH]; intros wl; [done|]. unfold cascade_into in *. cbn.
  rewrite IH. destruct (ts !! x); [apply length_Bucket_AddTask|done].
Qed.

Lemma cascade_in b wl i x :
  in_range b -> length wl = 512%nat ->
  in_bucket (cascade_into ts wl b) i x <->
    in_bucket wl i x \/ (x ∈ b /\ exists t, ts !! x = Some t /\ i = Z.to_nat (remainder_interval_ms t)).
Proof.
  revert wl. induction b as [|y b IH]; intros wl Hr Hl; unfold cascade_into in *; cbn.
  { split; [by left|]. intros [?|[?%not_elem_of_nil _]]; done. }
  assert (Hr' : in_range b) by (intros z t Hz; apply Hr; set_solver).
  rewrite IH; [|done|destruct (ts !! y); [by rewrite length_Bucket_AddTask|done]].
  setoid_rewrite elem_of_cons. destruct (ts !! y) as [t|] eqn:Hy; [|naive_solver].
  rewrite in_bucket_add by (rewrite Hl; apply (Hr y t); [set_solver|done]). naive_solver.
Qed.

Lemma cascade_nodup b wl :
  in_range b -> length wl = 512%nat -> NoDup b ->
  (forall i c, wl !! i = Some c -> NoDup c) -> (forall x, x ∈ b -> ~ in_wheel wl x) ->
  forall i c, cascade_into ts wl b !! i = Some c -> NoDup c.
Proof.
  revert wl. induction b as [|y b IH]; intros wl Hr Hl Hb Hnd Hno; [done|]. unfold cascade_into in *. cbn.
  apply NoDup_cons in Hb as [Hy Hb].
  assert (Hr' : in_range b) by (intros z t Hz; apply Hr; set_solver).
  destruct (ts !! y) as [t|] eqn:Hty; apply IH; try done.
  - by rewrite length_Bucket_AddTask.
  - apply bucket_add_nodup; [done|]. intros i Hi. apply (Hno y); [set_solver|by exists i].
  - intros x Hx [i Hi]. rewrite in_bucket_add in Hi by (rewrite Hl; apply (Hr y t); [set_solver|done]).
    destruct Hi as [Hi|[_ ->]]; [|done]. apply (Hno x); [set_solver|by exists i].
  - intros x Hx. apply Hno. set_solver.
Qed.
End cascade.

(** What the bucket of the new assistant index holds is due within the coming revolution. *)
Lemma cascaded_due r t :
  run_ok r -> at_ (wheel r) = PCascade ->
  in_bucket (assistant_wheel_ (wheel r)) (Z.to_nat (current_assistant_wheel_index_ (wheel r))) t ->
  exists d, due r !! t = Some d /\ pos r <= d < pos r + 512 /\ (t, d) ∈ adds r /\
    forall task, tasks (wheel r) !! t = Some task -> remainder_interval_ms task = d mod 512.
Proof.
  intros Hok Hat Hi. destruct (ok_aentry r Hok _ t Hi) as (d & H1 & H2 & H3 & H4 & H5). exists d.
  split; [done|]. split; [|done]. pose proof (ok_acur r Hok) as Ha. rewrite Hat in Ha. rewrite Ha in H2.
  pose proof (ok_phase r Hok (or_intror Hat)) as Hph. unfold epoch in H3. rewrite Hat in H3.
  pose proof (Z.mod_pos_bound (pos r / 512) 64 ltac:(lia)).
  pose proof (Z.div_mod (d / 512) 64 ltac:(lia)). pose proof (Z.div_mod (pos r / 512) 64 ltac:(lia)).
  pose proof (Z.div_mod d 512 ltac:(lia)). pose proof (Z.mod_pos_bound d 512 ltac:(lia)).
  pose proof (Z.div_mod (pos r) 512 ltac:(lia)).
  assert (d / 512 = pos r / 512) by lia. lia.
Qed.

Lemma cascade_ok r : run_ok r -> at_ (wheel r) = PCascade -> run_ok (loop_step r).
Proof.
  intros Hok Hat. pose proof (cascaded_due r) as Hdue.
  unfold loop_step, TickFunc_step, dropped, emptied. rewrite Hat. cbn [fmap list_fmap].
  rewrite app_nil_r, decide_False by done. set (c := Z.to_nat (current_assistant_wheel_index_ (wheel r))) in *.
  unfold Cascade. fold c. set (b := default [] (assistant_wheel_ (wheel r) !! c)).
  change (foldl _ (work_wheel_ (wheel r)) b) with (cascade_into (tasks (wheel r)) (work_wheel_ (wheel r)) b).
  set (r' := mkRun _ _ _ _ _ _ _).
  assert (Hb : forall t, t ∈ b <-> in_bucket (assistant_wheel_ (wheel r)) c t).
  { intros t. unfold b, in_bucket. destruct (_ !! c); cbn; [naive_solver|].
    split; [by intros ?%not_elem_of_nil|by intros (? & ? & _)]. }
  assert (Hbp : forall t, t ∈ b -> pending (wheel r) t) by (intros t Ht%Hb; right; by exists c).
  assert (Hrange : in_range (tasks (wheel r)) b).
  { intros x t Hx%Hb Ht. destruct (Hdue x Hok Hat Hx) as (d & _ & _ & _ & Hd). rewrite (Hd t Ht). apply Z.mod_pos_bound. lia. }
  pose proof (fun i x => cascade_in _ b _ i x Hrange (ok_work r Hok)) as Hin.
  assert (HNb : NoDup b).
  { unfold b. destruct (_ !! c) as [b'|] eqn:Hb'; [by eapply (ok_anodup r Hok)|constructor]. }
  assert (Hlo : lo r' = lo r) by (unfold lo; cbn; by rewrite Hat).
  assert (Hlp : lo r = pos r) by (unfold lo; rewrite Hat; lia).
  assert (Hep : epoch r' = epoch r + 1) by (unfold epoch; cbn; rewrite Hat; lia).
  assert (Hpe : forall t, pending (wheel r') t -> pending (wheel r) t).
  { intros t [[i [Hi|[Ht _]]%Hin]|[i [_ Hi]%in_bucket_clear]]; [left; by exists i|by apply Hbp|right; by exists i]. }
  destruct Hok as [? ? ? ? ? ? ? ? ? ? ? ? ? ? ? ?] eqn:HokE. clear HokE.
  split; cbn [r' wheel pos due adds fired lost fresh tasks at_ work_wheel_ assistant_wheel_ set_at
    current_work_wheel_index_ current_assistant_wheel_index_]; rewrite ?length_insert, ?cascade_length, ?Hlo; try done.
  - rewrite Hep, ok_acur0, Hat. f_equal. unfold epoch. rewrite Hat. lia.
  - by intros [?|?].
  - intros i t [Hi|(Ht & task & Htask & Hi)]%Hin.
    + destruct (ok_wentry0 i t Hi) as (d & H1 & H2 & H3 & H4). exists d. unfold work_entry. by rewrite Hlo.
    + apply Hb in Ht. destruct (Hdue t Hok Hat Ht) as (d & H1 & H2 & H3 & H4). exists d. unfold work_entry.
      rewrite Hlo, Hlp. split; [done|]. rewrite Hi, (H4 task Htask). pose proof (Z.mod_pos_bound d 512 ltac:(lia)). split; [lia|done].
  - intros j t [Hne Hj]%in_bucket_clear. destruct (ok_aentry0 j t Hj) as (d & H1 & H2 & H3 & H4). exists d.
    unfold assistant_entry. rewrite Hep. do 2 (split; [done|]). split; [|done].
    assert (d / 512 <> pos r / 512).
    { intros Hq. apply Hne. unfold c. rewrite ok_acur0, Hat. rewrite <- Hq. lia. }
    unfold epoch in *. rewrite Hat in *. lia.
  - intros t [i [Hi|(Ht & _)]%Hin] [j [Hne Hj]%in_bucket_clear].
    + apply (ok_once0 t); [by exists i|by exists j].
    + apply Hb in Ht. destruct (ok_aentry0 _ t Ht) as (d & Hd & H1 & _). destruct (ok_aentry0 _ t Hj) as (d' & Hd' & H2 & _).
      simplify_eq. lia.
  - apply cascade_nodup; try done. intros x Hx%Hb Hw. apply (ok_once0 x Hw). by exists c.
  - by apply bucket_clear_nodup.
  - intros t [?|?%Hpe]; apply ok_fresh0; [by left|by right].
  - intros t d. by apply dropped_lost.
  - intros t d Ha. destruct (ok_cover0 t d Ha) as [?|[?|[Hp Hd]]]; [by left|right; left; set_solver|right].
    destruct Hp as [[i Hi]|[j Hj]].
    + right. split; [|done]. left. exists i. apply Hin. by left.
    + destruct (decide (j = c)) as [->|Hne].
      * destruct (tasks (wheel r) !! t) as [task|] eqn:Htask.
        -- right. split; [|done]. left. eexists. apply Hin. right. split; [by apply Hb|by exists task].
        -- left. apply elem_of_app. right. apply list_elem_of_fmap. exists t. rewrite Hd. split; [done|].
           apply dead_in. split; [by apply Hb|done].
      * right. split; [|done]. right. exists j. by apply in_bucket_clear.
Qed.

Lemma loop_ok r : run_ok r -> run_ok (loop_step r).
Proof.
  intros Hok. destruct (at_ (wheel r)) eqn:Hat; [by apply tick_ok|by apply inc_ok|by apply assist_ok|by apply cascade_ok].
Qed.

Lemma shutdown_ok r : run_ok r -> run_ok (shutdown_step r).
Proof.
  intros Hok. unfold shutdown_step, Shutdown. destruct (running_ (wheel r)) eqn:Hr; [|by destruct r].
  apply (move_ok r _ (pos r) Hok); try done; [apply (ok_cur r Hok)|apply (ok_acur r Hok)|apply (ok_phase r Hok)].
Qed.

Lemma run_step_ok r r' : run_ok r -> run_step r r' -> run_ok r'.
Proof.
  intros Hok Hs. pose proof (ok_fresh r Hok) as Hfr. destruct Hs as [r|r t task Ht Hnp Hd Hat|r task|r t task task' Ht Hnp|r t|r].
  - by apply loop_ok.
  - apply add_ok; try done. intuition.
  - apply set_tasks_ok; [done|lia| | |]; intros x.
    + rewrite lookup_insert_is_Some. intros [<- |[_ ?]]; [lia|]. assert (x < fresh r)%nat by (apply Hfr; by left). lia.
    + intros u Hu Hp. assert (x < fresh r)%nat by (apply Hfr; by right). rewrite lookup_insert_ne in Hu by lia. by exists u.
    + intros Hx Hn. by rewrite lookup_insert_ne by lia.
  - apply set_tasks_ok; [done|lia| | |]; intros x.
    + rewrite lookup_insert_is_Some. intros [<- |[_ ?]]; apply Hfr; left; [by exists task|done].
    + intros u Hu Hp. destruct (decide (x = t)) as [->|Hne]; [done|]. rewrite lookup_insert_ne in Hu by done. by exists u.
    + intros Hx Hn. rewrite lookup_insert_ne; [done|]. intros ->. congruence.
  - apply set_tasks_ok; [done|lia| | |]; intros x.
    + rewrite lookup_delete_is_Some. intros [_ ?]. apply Hfr. by left.
    + intros u [_ Hu]%lookup_delete_Some Hp. by exists u.
    + intros Hx Hn. apply lookup_delete_None. by right.
  - by apply shutdown_ok.
Qed.

Lemma reachable_ok r : rtc run_step run_init r -> run_ok r.
Proof. intros Hr. pose proof run_init_ok as Hi. induction Hr as [|x y z Hxy _ IH]; [done|]. apply IH. by eapply run_step_ok. Qed.

(** What the tick thread leaves alone, and how the position advances. *)
Lemma loop_keeps r :
  adds (loop_step r) = adds r /\ due (loop_step r) = due r /\ tasks (wheel (loop_step r)) = tasks (wheel r) /\
  running_ (wheel (loop_step r)) = running_ (wheel r).
Proof.
  unfold loop_step, TickFunc_step. destruct (at_ (wheel r)); [destruct (running_ (wheel r)) eqn:?| | |]; cbn; repeat split; done.
Qed.

Lemma iter_loop_keeps n r :
  adds (Nat.iter n loop_step r) = adds r /\ tasks (wheel (Nat.iter n loop_step r)) = tasks (wheel r) /\
  running_ (wheel (Nat.iter n loop_step r)) = running_ (wheel r).
Proof.
  induction n as [|n IH]; [done|]. cbn [Nat.iter nat_rect]. destruct (loop_keeps (Nat.iter n loop_step r)) as (H1 & _ & H2 & H3).
  unfold Nat.iter in *. rewrite H1, H2, H3. done.
Qed.

Lemma iter_loop_ok n r : run_ok r -> run_ok (Nat.iter n loop_step r).
Proof. intros Hok. induction n as [|n IH]; [done|]. cbn. by apply loop_ok. Qed.

(** Steps until the next move of the work index. *)
Definition rank (p : phase) : nat := match p with PAssist => 4 | PCascade => 3 | PTick => 2 | PInc => 1 end.

Lemma loop_rank r :
  running_ (wheel r) = true ->
  (pos (loop_step r) = pos r /\ rank (at_ (wheel r)) = S (rank (at_ (wheel (loop_step r))))) \/
  (pos (loop_step r) = pos r + 1).
Proof.
  intros Hr. unfold loop_step, TickFunc_step. destruct (at_ (wheel r)); rewrite ?Hr; cbn; auto.
Qed.

Lemma position_advances r : running_ (wheel r) = true -> exists n, pos (Nat.iter n loop_step r) = pos r + 1.
Proof.
  remember (rank (at_ (wheel r))) as k eqn:Hk. revert r Hk. induction k as [|k IH]; intros r Hk Hr.
  { by destruct (at_ (wheel r)). }
  destruct (loop_rank r Hr) as [[Hp Hrk]|Hp]; [|by exists 1%nat].
  destruct (IH (loop_step r)) as [n Hn]; [congruence|by destruct (loop_keeps r) as (_ & _ & _ & ->)|].
  exists (n + 1)%nat. unfold Nat.iter in *. rewrite nat_rect_plus. cbn. lia.
Qed.

Lemma position_reaches r k : running_ (wheel r) = true -> exists n, pos (Nat.iter n loop_step r) = pos r + Z.of_nat k.
Proof.
  intros Hr. induction k as [|k [n Hn]]; [exists 0%nat; cbn; lia|].
  destruct (position_advances (Nat.iter n loop_step r)) as [m Hm]; [by destruct (iter_loop_keeps n r) as (_ & _ & ->)|].
  exists (m + n)%nat. unfold Nat.iter in *. rewrite nat_rect_plus. lia.
Qed.

(** Nothing that is due before the position of the wheel is still pending. *)
Lemma due_settled r t d :
  run_ok r -> (t, d) ∈ adds r -> d < lo r -> (t, d) ∈ fired r \/ (t, d) ∈ lost r.
Proof.
  intros Hok Ha Hd. destruct (ok_cover r Hok t d Ha) as [?|[?|[Hp Hdue]]]; [by left|by right|].
  pose proof (pending_due r t d Hok Hp Hdue). lia.
Qed.

Lemma loop_fires r t d :
  rtc run_step run_init r -> running_ (wheel r) = true -> (t, d) ∈ adds r -> is_Some (tasks (wheel r) !! t) ->
  exists n, (t, d) ∈ fired (Nat.iter n loop_step r).
Proof.
  intros Hok%reachable_ok Hr Ha [x Hx]. destruct (position_reaches r (Z.to_nat (d + 1)) Hr) as [n Hn]. exists n.
  pose proof (iter_loop_ok n r Hok) as Hok'. destruct (iter_loop_keeps n r) as (Hadds & Htasks & _).
  set (r' := Nat.iter n loop_step r) in *. rewrite <- Hadds in Ha. pose proof (ok_pos r Hok).
  assert (Hlo : d < lo r') by (unfold lo; destruct (at_ (wheel r')); lia).
  destruct (due_settled r' t d Hok' Ha Hlo) as [?|Hlost]; [done|].
  destruct (ok_lost r' Hok' t d Hlost) as [Hnone _]. rewrite Htasks in Hnone. congruence.
Qed.

Lemma AddTask_runs w t task : running_ (AddTask w t task) = true.
Proof. unfold AddTask, Start. destruct (running_ w) eqn:?; cbn; repeat case_match; done. Qed.

Lemma AddTask_alive w t task x : is_Some (tasks w !! x) -> is_Some (tasks (AddTask w t task) !! x).
Proof.
  intros Hx. unfold AddTask, Start. destruct (running_ w) eqn:?; cbn; repeat case_match; cbn; try done;
    rewrite lookup_insert_is_Some'; by right.
Qed.

(** C37: whatever additions, changes, releases of tasks, shutdowns and restarts happen around the
    tick thread, provided additions fall where the two indices agree, no task is handed to
    [Async] twice for one addition, each is handed over exactly at the position its interval
    asks for, and every addition whose position has been ticked was handed over there, unless
    its task had been released. *)
Theorem timing_wheel_exact r :
  rtc run_step run_init r ->
  NoDup (fired r) /\
  (forall t p, (t, p) ∈ fired r -> (t, p) ∈ adds r) /\
  (forall t d, (t, d) ∈ adds r -> d < lo r -> is_Some (tasks (wheel r) !! t) -> (t, d) ∈ fired r) /\
  (forall t d, (t, d) ∈ adds r -> d < lo r -> (t, d) ∈ fired r \/ (t, d) ∈ lost r) /\
  (forall t d, (t, d) ∈ lost r -> tasks (wheel r) !! t = None).
Proof.
  intros Hok%reachable_ok. split; [apply (ok_fnodup r Hok)|]. split; [intros; by apply (ok_fired r Hok)|].
  assert (Hl : forall t d, (t, d) ∈ lost r -> tasks (wheel r) !! t = None) by (intros; by eapply (ok_lost r Hok)).
  split; [|split; [intros; by apply due_settled|done]].
  intros t d Ha Hd [x Hx]. destruct (due_settled r t d Hok Ha Hd) as [?|Hlost%Hl]; [done|congruence].
Qed.

(** An added task that stays alive is handed to [Async], at its position, after finitely many
    steps of the tick thread. *)
Theorem timing_wheel_fires r t task :
  rtc run_step run_init r -> tasks (wheel r) !! t = Some task -> ~ pending (wheel r) t ->
  1 <= next_fire_duration_ms task < TIMER_MAX_INTERVAL_MS ->
  at_ (wheel r) = PTick \/ (at_ (wheel r) = PInc /\ running_ (wheel r) = true) ->
  exists n, (t, pos r + ticks_of (next_fire_duration_ms task)) ∈ fired (Nat.iter n loop_step (add_step r t task)).
Proof.
  intros Hr Ht Hnp Hd Hat. apply loop_fires; cbn.
  - eapply rtc_r; [exact Hr|]. by constructor.
  - apply AddTask_runs.
  - apply elem_of_app. right. by apply list_elem_of_singleton.
  - apply AddTask_alive. by eexists.
Qed.

(** ** A run *)
Definition task_of (d : Z) : TimerTask := mkTask d 0 d 0 0.

(** Two tasks, due after 3 ticks and after 600, through one revolution of the work wheel. *)
Definition sample_run : run :=
  let r := set_tasks run_init {[0%nat := task_of 6]} 1 in
  let r := set_tasks r (<[1%nat := task_of 1200]> (tasks (wheel r))) 2 in
  let r := add_step r 0 (task_of 6) in
  let r := add_step r 1 (task_of 1200) in
  Nat.iter 1210 loop_step r.

Lemma iter_loop_reach n r r' : rtc run_step r r' -> rtc run_step r (Nat.iter n loop_step r').
Proof. intros Hr. induction n as [|n IH]; [done|]. cbn. eapply rtc_r; [exact IH|constructor]. Qed.

Lemma not_pending_dec w t :
  forallb (fun b => negb (bool_decide (t ∈ b))) (work_wheel_ w ++ assistant_wheel_ w) = true -> ~ pending w t.
Proof.
  rewrite forallb_forall. intros Hf [[i (b & Hb & Ht)]|[i (b & Hb & Ht)]];
    (specialize (Hf b); rewrite bool_decide_eq_true_2 in Hf by done; cbn in Hf; discriminate Hf;
     apply list_elem_of_In, elem_of_app; apply list_elem_of_lookup_2 in Hb; auto).
Qed.

Lemma sample_run_reachable : rtc run_step run_init sample_run.
Proof.
  apply iter_loop_reach. eapply rtc_l; [apply (rs_new _ (task_of 6))|]. eapply rtc_l; [apply (rs_new _ (task_of 1200))|].
  eapply rtc_l; [eapply (rs_add _ 0 (task_of 6)); [reflexivity|by apply not_pending_dec; vm_compute|by cbn|by left]|].
  apply rtc_once. eapply (rs_add _ 1 (task_of 1200)); [reflexivity|by apply not_pending_dec; vm_compute|by cbn|by left].
Qed.

Lemma timing_wheel_exact_witness :
  fired sample_run = [(0%nat, 3); (1%nat, 600)] /\
  (forall t d, (t, d) ∈ adds sample_run -> d < lo sample_run -> (t, d) ∈ fired sample_run \/ (t, d) ∈ lost sample_run).
Proof.
  split; [by vm_compute|]. apply (timing_wheel_exact sample_run). apply sample_run_reachable.
Defined.

Lemma timing_wheel_fires_witness :
  let r := set_tasks run_init {[0%nat := task_of 1200]} 1 in
  exists n, (0%nat, 600) ∈ fired (Nat.iter n loop_step (add_step r 0 (task_of 1200))).
Proof.
  set (r := set_tasks run_init {[0%nat := task_of 1200]} 1).
  apply (timing_wheel_fires r 0 (task_of 1200));
    [apply rtc_once, (rs_new run_init (task_of 1200))|reflexivity|by apply not_pending_dec; vm_compute|by cbn|by left].
Defined.

(** ** Additions while the indices disagree *)

(** A started wheel, one task, at the point where the work index has come back to 0 and the
    assistant index has not moved yet; the task is added there with an interval of one
    revolution (1024 ms). *)
Definition at_wrap : run :=
  let r := set_tasks run_init {[0%nat := task_of 1024]} 1 in
  Nat.iter 1024 loop_step (mkRun (Start (wheel r)) (pos r) (due r) (adds r) (fired r) (lost r) (fresh r)).

(** An [AddTask] that falls between the wrap of the work index and the move of the assistant
    index puts a task of 512 ticks into the bucket that is cascaded at once: it is handed to
    [Async] at position 512 instead of 1024, one revolution early. *)
Theorem wrap_window_fires_early :
  at_ (wheel at_wrap) = PAssist /\ pos at_wrap = 512 /\
  let r := add_step at_wrap 0 (task_of 1024) in
  due r !! 0%nat = Some 1024 /\ fired (Nat.iter 3 loop_step r) = [(0%nat, 512)].
Proof. by vm_compute. Qed.
