(* ===== verification/Timer.v ===== *)
(** * Timers: timer/timer.cc, timer.h

    A timer owns one task and puts it on the wheel; the callback of a periodic timer measures
    itself and puts the task back with the duration until its next start.  The user callback is
    not code of the runtime: what the timer sees of it are the two clock readings around it. *)

From Stdlib Require Import ZArith Lia.
From stdpp Require Import base gmap sets numbers list.
From S2P Require Import Prelude TimingWheel.

Record TimerOption := mkOption { period : Z; oneshot : bool }.

Record Timer := mkTimer {
  timer_id_ : Z;
  timer_opt_ : TimerOption;
  started_ : bool;
  task_ : option nat
}.

(** The id, and the counter after the call. *)
Definition GenerateTimerId (global_timer_id : Z) : Z * Z := (global_timer_id, global_timer_id +u 1).

Definition Timer_of_option (g : Z) (opt : TimerOption) : Timer * Z :=
  let '(id, g) := GenerateTimerId g in (mkTimer id opt false None, g).
Definition Timer_default (g : Z) : Timer * Z := Timer_of_option g (mkOption 0 false).
Definition Timer_make (g period : Z) (oneshot : bool) : Timer * Z := Timer_of_option g (mkOption (u32 period) oneshot).

Definition SetTimerOption (tm : Timer) (opt : TimerOption) : Timer :=
  mkTimer (timer_id_ tm) opt (started_ tm) (task_ tm).
Definition set_started (tm : Timer) (b : bool) : Timer := mkTimer (timer_id_ tm) (timer_opt_ tm) b (task_ tm).
Definition set_task (tm : Timer) (t : option nat) : Timer := mkTimer (timer_id_ tm) (timer_opt_ tm) (started_ tm) t.

Definition with_tasks (w : TimingWheel) (ts : gmap nat TimerTask) : TimingWheel :=
  mkWheel (running_ w) (tick_count_ w) (work_wheel_ w) (assistant_wheel_ w) (current_work_wheel_index_ w)
    (current_assistant_wheel_index_ w) ts (at_ w).

(** A strong pointer to a task is given up. *)
Definition release (w : TimingWheel) (t : option nat) : TimingWheel :=
  if t is Some n then with_tasks w (delete n (tasks w)) else w.

(** [InitTimerTask()]; the new task gets the number [n]. *)
Definition InitTimerTask (tm : Timer) (w : TimingWheel) (n : nat) : bool * Timer * TimingWheel :=
  let p := period (timer_opt_ tm) in
  if p =? 0 then (false, tm, w)
  else if TIMER_MAX_INTERVAL_MS <=? p then (false, tm, w)
  else
    let w := release w (task_ tm) in
    (true, set_task tm (Some n), with_tasks w (<[n := mkTask p 0 p 0 0]> (tasks w))).

Definition Timer_Start (reality_mode : bool) (tm : Timer) (w : TimingWheel) (n : nat) : Timer * TimingWheel :=
  if negb reality_mode then (tm, w)
  else if started_ tm then (tm, w)
  else
    match InitTimerTask (set_started tm true) w n with
    | (true, tm, w) => (tm, if tasks w !! n is Some t then AddTask w n t else w)
    | (false, tm, w) => (tm, w)
    end.

Definition Timer_Stop (tm : Timer) (w : TimingWheel) : Timer * TimingWheel :=
  let was := started_ tm in
  let tm := set_started tm false in
  if was && (if task_ tm is Some _ then true else false)
  then (set_task tm None, release w (task_ tm))
  else (tm, w).

Definition Timer_destroy (tm : Timer) (w : TimingWheel) : TimingWheel :=
  if task_ tm is Some _ then release (Timer_Stop tm w).2 (task_ (Timer_Stop tm w).1) else w.

(** [llround(static_cast<double>(ns) / 1e6)]: to the nearest, halves away from zero. *)
Definition llround_ms (ns : Z) : Z :=
  if 0 <=? ns then (ns + 500000) / 1000000 else - ((- ns + 500000) / 1000000).

(** What the callback of a periodic timer makes of its task; [start] and [end_] are the readings
    of the monotonic clock around the user callback. *)
Definition reschedule (task : TimerTask) (start end_ : Z) : TimerTask :=
  let execute_time_ms := u64 (llround_ms (end_ -u start)) in
  let accumulated_error_ns :=
    if last_execute_time_ns task =? 0 then accumulated_error_ns task
    else i64 (accumulated_error_ns task +
              (start -u last_execute_time_ns task -u (interval_ms task *u 1000000))) in
  let next_fire_duration_ms :=
    if interval_ms task <=? execute_time_ms then TIMER_RESOLUTION_MS
    else
      let accumulated_error_ms := llround_ms accumulated_error_ns in
      if accumulated_error_ms <=? i64 (interval_ms task -u execute_time_ms -u TIMER_RESOLUTION_MS)
      then interval_ms task -u execute_time_ms -u accumulated_error_ms
      else TIMER_RESOLUTION_MS in
  mkTask (interval_ms task) (remainder_interval_ms task) next_fire_duration_ms accumulated_error_ns start.

(** The callback the wheel runs for task [n]; [None] when the user callback is not reached. *)
Definition periodic_callback (w : TimingWheel) (n : nat) (start end_ : Z) : option TimingWheel :=
  t ← tasks w !! n;
  let t := reschedule t start end_ in
  Some (AddTask (with_tasks w (<[n := t]> (tasks w))) n t).
Definition oneshot_callback (w : TimingWheel) (n : nat) : option TimingWheel :=
  _ ← tasks w !! n; Some w.

(** ** The duration until the next start *)
Lemma llround_near ns : Z.abs (1000000 * llround_ms ns - ns) <= 500000.
Proof.
  unfold llround_ms. destruct (Z.leb_spec 0 ns).
  - pose proof (Z.div_mod (ns + 500000) 1000000 ltac:(lia)). pose proof (Z.mod_pos_bound (ns + 500000) 1000000 ltac:(lia)). lia.
  - pose proof (Z.div_mod (- ns + 500000) 1000000 ltac:(lia)). pose proof (Z.mod_pos_bound (- ns + 500000) 1000000 ltac:(lia)). lia.
Qed.

Lemma llround_nonneg ns : 0 <= ns -> 0 <= llround_ms ns.
Proof. intros. pose proof (llround_near ns). lia. Qed.

(** [i64] undoes [u64] on a sum that fits. *)
Lemma i64_u64_add a x : - 2 ^ 63 <= a + x < 2 ^ 63 -> i64 (a + u64 x) = a + x.
Proof.
  intros. unfold i64, u64.
  replace (a + x mod two64 + 2 ^ 63) with (x mod two64 + (a + 2 ^ 63)) by lia. rewrite Zplus_mod_idemp_l.
  rewrite Z.mod_small by word_lia. lia.
Qed.

Lemma u64_sub_l a b : u64 (u64 a - b) = u64 (a - b).
Proof. unfold u64. by rewrite Zminus_mod_idemp_l. Qed.

(** [reschedule] without wrap-around. *)
Lemma reschedule_eq task start end_ :
  let e := llround_ms (end_ - start) in
  let acc := if last_execute_time_ns task =? 0 then accumulated_error_ns task
             else accumulated_error_ns task + (start - last_execute_time_ns task - interval_ms task * 1000000) in
  0 <= start <= end_ -> end_ < 2 ^ 63 -> 1 <= interval_ms task < TIMER_MAX_INTERVAL_MS ->
  - 2 ^ 62 <= acc < 2 ^ 62 ->
  reschedule task start end_ =
    mkTask (interval_ms task) (remainder_interval_ms task)
      (if interval_ms task <=? e then TIMER_RESOLUTION_MS
       else Z.max TIMER_RESOLUTION_MS (interval_ms task - e - llround_ms acc)) acc start.
Proof.
  cbv zeta. unfold TIMER_MAX_INTERVAL_MS, WORK_WHEEL_SIZE, ASSISTANT_WHEEL_SIZE, TIMER_RESOLUTION_MS.
  intros Hs He Hi Ha. unfold reschedule. unfold TIMER_RESOLUTION_MS.
  pose proof (llround_near (end_ - start)). pose proof (llround_nonneg (end_ - start) ltac:(lia)).
  rewrite (u64_small (end_ - start)) by word_lia. rewrite (u64_small (llround_ms _)) by word_lia.
  set (acc := if _ =? 0 then accumulated_error_ns task else _ + _) in *.
  assert (Hacc : (if last_execute_time_ns task =? 0 then accumulated_error_ns task
    else i64 (accumulated_error_ns task + (start -u last_execute_time_ns task -u (interval_ms task *u 1000000)))) = acc).
  { unfold acc. destruct (_ =? 0) eqn:Hz; [done|]. rewrite u64_sub_l, (u64_small (_ * 1000000)) by word_lia.
    apply i64_u64_add. unfold acc in Ha. lia. }
  rewrite Hacc. pose proof (llround_near acc). f_equal.
  destruct (Z.leb_spec (interval_ms task) (llround_ms (end_ - start))); [done|]. rewrite !u64_sub_l.
  rewrite <- (Z.add_0_l (u64 _)), i64_u64_add by lia.
  destruct (Z.leb_spec (llround_ms acc) (0 + (interval_ms task - llround_ms (end_ - start) - 2)));
    [rewrite u64_small by word_lia|]; lia.
Qed.

(** The duration a periodic timer asks for is at least one resolution of the wheel, and at most
    its interval, or the resolution, once its accumulated error is not negative: its addition is
    one the wheel fires exactly. *)
Theorem next_fire_in_range task start end_ :
  0 <= start <= end_ -> end_ < 2 ^ 63 -> 1 <= interval_ms task < TIMER_MAX_INTERVAL_MS ->
  0 <= last_execute_time_ns task <= start -> - 2 ^ 61 <= accumulated_error_ns task < 2 ^ 61 -> start < 2 ^ 61 ->
  let t := reschedule task start end_ in
  TIMER_RESOLUTION_MS <= next_fire_duration_ms t /\
  next_fire_duration_ms t <= Z.max TIMER_RESOLUTION_MS (interval_ms task - llround_ms (accumulated_error_ns t)) /\
  (- 500000 < accumulated_error_ns t -> 1 <= next_fire_duration_ms t < TIMER_MAX_INTERVAL_MS).
Proof.
  intros Hs He Hi Hl Ha Hst. cbv zeta. 
  assert (interval_ms task < 65536) by apply Hi.
  rewrite reschedule_eq by (try done; zcase; word_lia).
  cbn [next_fire_duration_ms accumulated_error_ns].
  set (acc := if _ =? 0 then _ else _). pose proof (llround_near acc). pose proof (llround_nonneg (end_ - start) ltac:(lia)).
  unfold TIMER_MAX_INTERVAL_MS, WORK_WHEEL_SIZE, ASSISTANT_WHEEL_SIZE, TIMER_RESOLUTION_MS in *.
  zcase; (split; [lia|]; split; lia).
Qed.

Lemma next_fire_in_range_witness :
  next_fire_duration_ms (reschedule (mkTask 100 0 100 3000000 1000000000) 1105000000 1120000000) = 77 /\
  (- 500000 < 8000000 -> 1 <= next_fire_duration_ms (reschedule (mkTask 100 0 100 3000000 1000000000) 1105000000 1120000000)
     < TIMER_MAX_INTERVAL_MS).
Proof.
  split; [by vm_compute|].
  pose proof (next_fire_in_range (mkTask 100 0 100 3000000 1000000000) 1105000000 1120000000
    ltac:(lia) ltac:(lia) ltac:(by vm_compute) ltac:(by vm_compute) ltac:(by vm_compute) ltac:(lia)) as (_ & _ & H).
  exact H.
Defined.

(** ** No drift

    A periodic timer whose executions last [dur] and start [jit] after the moment the timer asked
    for. *)
Definition execution (s : TimerTask * Z) (x : Z * Z) : TimerTask * Z :=
  let '(task, start) := s in
  let t := reschedule task start (start + x.1) in
  (t, start + x.1 + 1000000 * next_fire_duration_ms t + x.2).

Section drift.
Context (interval J s0 : Z).
Hypothesis Hint : 1 <= interval < TIMER_MAX_INTERVAL_MS.
Hypothesis Hs0 : 0 < s0.
Hypothesis HJ : 0 <= J.

(** The error of the start number [k]; the task remembers the one of its last execution. *)
Definition offset (k start : Z) : Z := start - s0 - k * interval * 1000000.

Record on_schedule (k : Z) (s : TimerTask * Z) : Prop := {
  os_interval : interval_ms s.1 = interval;
  os_start : - 1000000 <= offset k s.2 <= 1000000 + J;
  os_last : (k = 0 /\ last_execute_time_ns s.1 = 0 /\ accumulated_error_ns s.1 = 0 /\ s.2 = s0) \/
            (0 < k /\ 0 < last_execute_time_ns s.1 /\ accumulated_error_ns s.1 = offset (k - 1) (last_execute_time_ns s.1))
}.

Definition steady (x : Z * Z) : Prop := 0 <= x.1 /\ x.1 + J + 4000000 <= interval * 1000000 /\ 0 <= x.2 <= J.

Lemma execution_on_schedule k s x :
  on_schedule k s -> steady x -> s0 + (k + 1) * interval * 1000000 < 2 ^ 61 -> on_schedule (k + 1) (execution s x).
Proof.
  intros [Hi Ho Hl] (Hd & Hslack & Hj) Hb. destruct s as [task start], x as [dur jit]. cbn [fst snd] in *.
  assert (Hmax : interval < 65536) by apply Hint.
  assert (Hstart : 0 < start).
  { unfold offset in Ho. destruct Hl as [(-> & _ & _ & ->)|(? & ? & _)]; [done|]. nia. }
  assert (Hacc : (if last_execute_time_ns task =? 0 then accumulated_error_ns task
    else accumulated_error_ns task + (start - last_execute_time_ns task - interval_ms task * 1000000)) = offset k start).
  { unfold offset in *. destruct Hl as [(-> & -> & -> & ->)|(? & ? & ->)]; cbn; [lia|]. zcase; lia. }
  unfold execution. cbn [fst snd]. unfold offset in Ho.
  rewrite reschedule_eq; rewrite ?Hacc, ?Hi; try done; try (unfold offset; word_lia); try lia.
  pose proof (llround_near (start + dur - start)) as Hr1. pose proof (llround_near (offset k start)) as Hr2.
  unfold TIMER_RESOLUTION_MS.
  assert (Hlt : llround_ms (start + dur - start) < interval) by (unfold offset in *; lia).
  destruct (Z.leb_spec interval (llround_ms (start + dur - start))); [lia|]. rewrite Z.max_r by (unfold offset in *; lia).
  split; cbn [fst snd interval_ms next_fire_duration_ms accumulated_error_ns last_execute_time_ns].
  - done.
  - unfold offset in *. lia.
  - right. assert (0 <= k) by (destruct Hl as [(-> & _)|(? & _)]; lia).
    split; [lia|]. split; [done|]. by replace (k + 1 - 1) with k by lia.
Qed.

Lemma executions_on_schedule l k s :
  on_schedule k s -> 0 <= k -> Forall steady l -> s0 + (k + Z.of_nat (length l)) * interval * 1000000 < 2 ^ 61 ->
  on_schedule (k + Z.of_nat (length l)) (foldl execution s l).
Proof.
  revert k s. induction l as [|x l IH]; intros k s Hs Hk Hl Hb; cbn [foldl length]; [by rewrite Z.add_0_r|].
  apply Forall_cons in Hl as [Hx Hl]. rewrite Nat2Z.inj_succ. cbn [length] in Hb. rewrite Nat2Z.inj_succ in Hb.
  replace (k + Z.succ (Z.of_nat (length l))) with (k + 1 + Z.of_nat (length l)) in * by lia.
  apply IH; [|lia|done|done]. apply execution_on_schedule; [done|done|]. nia.
Qed.
End drift.

(** C40: a periodic timer does not drift.  If each execution leaves at least 4 ms and the largest
    delay [J] of the interval free, then after any number of executions the next start is within
    1 ms before and [J] + 1 ms after the first start plus that many intervals. *)
Theorem timer_no_drift interval J s0 l :
  1 <= interval < TIMER_MAX_INTERVAL_MS -> 0 < s0 -> 0 <= J ->
  Forall (steady interval J) l -> s0 + Z.of_nat (length l) * interval * 1000000 < 2 ^ 61 ->
  let start := (foldl execution (mkTask interval 0 interval 0 0, s0) l).2 in
  - 1000000 <= start - (s0 + Z.of_nat (length l) * interval * 1000000) <= 1000000 + J.
Proof.
  intros Hi Hs HJ Hl Hb. cbv zeta.
  assert (H0 : on_schedule interval J s0 0 (mkTask interval 0 interval 0 0, s0)).
  { split; cbn [fst snd]; [done|unfold offset; lia|by left]. }
  destruct (executions_on_schedule interval J s0 Hi Hs HJ l 0 _ H0 ltac:(lia) Hl) as [_ Ho _]; [by rewrite Z.add_0_l|].
  unfold offset in Ho. lia.
Qed.

Lemma timer_no_drift_witness :
  - 1000000 <= (foldl execution (mkTask 100 0 100 0 0, 5000000000) [(20300000, 1700000); (41600000, 0); (300000, 1900000)]).2
    - 5300000000 <= 3000000.
Proof.
  apply (timer_no_drift 100 2000000 5000000000 [(20300000, 1700000); (41600000, 0); (300000, 1900000)]);
    [by vm_compute|lia|lia| |by vm_compute].
  repeat apply Forall_cons_2; unfold steady; cbn; try lia. apply Forall_nil_2.
Defined.

(** ** Starting and stopping *)

Lemma run_step_dead r r' t :
  run_step r r' -> tasks (wheel r) !! t = None -> (t < fresh r)%nat ->
  tasks (wheel r') !! t = None /\ (t < fresh r')%nat /\
  (forall p, (t, p) ∈ fired r' -> (t, p) ∈ fired r).
Proof.
  intros Hs Hn Hf. destruct Hs as [r|r u task Hu _ _ _|r task|r u task task' Hu _|r u|r]; cbn [fired].
  - destruct (loop_keeps r) as (_ & _ & -> & _). split; [done|]. unfold loop_step.
    destruct (TickFunc_step (wheel r)) as [f w] eqn:Hstep. cbn. split; [done|].
    intros p [?|(x & Hx & Hin)%list_elem_of_fmap]%elem_of_app; [done|]. simplify_eq. exfalso.
    unfold TickFunc_step in Hstep. destruct (at_ (wheel r)); [destruct (running_ (wheel r))| | |]; cbn in Hstep; simplify_eq;
      try by apply not_elem_of_nil in Hin.
    apply list_elem_of_In, List.filter_In in Hin as [_ Hal%alive_spec]. destruct Hal. congruence.
  - split; [|done]. assert (u <> t) by congruence. cbn. unfold AddTask, Start.
    destruct (running_ (wheel r)); cbn; repeat case_match; cbn; by rewrite ?lookup_insert_ne by done.
  - cbn. rewrite lookup_insert_ne by lia. split; [done|]. split; [lia|done].
  - cbn. rewrite lookup_insert_ne by congruence. done.
  - cbn. split; [apply lookup_delete_None; by right|done].
  - cbn. unfold Shutdown. destruct (running_ (wheel r)); done.
Qed.

Lemma rtc_dead r r' t :
  rtc run_step r r' -> tasks (wheel r) !! t = None -> (t < fresh r)%nat ->
  tasks (wheel r') !! t = None /\ (forall p, (t, p) ∈ fired r' -> (t, p) ∈ fired r).
Proof.
  induction 1 as [|x y z Hxy _ IH]; intros Hn Hf; [done|].
  destruct (run_step_dead x y t Hxy Hn Hf) as (Hn' & Hf' & Hfi). destruct (IH Hn' Hf') as [H1 H2]. split; [done|]. auto.
Qed.

Lemma Timer_Start_wheel tm w n :
  started_ tm = false -> task_ tm = None -> 1 <= period (timer_opt_ tm) < TIMER_MAX_INTERVAL_MS ->
  let p := period (timer_opt_ tm) in
  Timer_Start true tm w n =
    (mkTimer (timer_id_ tm) (timer_opt_ tm) true (Some n),
     AddTask (with_tasks w (<[n := mkTask p 0 p 0 0]> (tasks w))) n (mkTask p 0 p 0 0)).
Proof.
  intros Hs Ht Hp. cbv zeta. unfold Timer_Start, InitTimerTask. rewrite Hs. cbn [set_started negb timer_opt_ task_].
  rewrite Ht. destruct (Z.eqb_spec (period (timer_opt_ tm)) 0); [lia|].
  destruct (Z.leb_spec TIMER_MAX_INTERVAL_MS (period (timer_opt_ tm))); [lia|].
  cbn [release with_tasks tasks]. rewrite lookup_insert_eq. reflexivity.
Qed.

(** Starting a stopped timer with a period in range, at a moment when the indices of the wheel
    agree, makes a task and adds it, and the tick thread hands it to [Async] exactly
    [ceil(period / 2)] positions later; a timer that was started, a simulated clock and a period
    out of range leave the wheel alone. *)
Theorem timer_start_fires r tm :
  rtc run_step run_init r -> at_ (wheel r) = PTick \/ (at_ (wheel r) = PInc /\ running_ (wheel r) = true) ->
  let p := period (timer_opt_ tm) in
  (started_ tm = false -> task_ tm = None -> 1 <= p < TIMER_MAX_INTERVAL_MS ->
   exists r', rtc run_step r r' /\ wheel r' = (Timer_Start true tm (wheel r) (fresh r)).2 /\
     task_ (Timer_Start true tm (wheel r) (fresh r)).1 = Some (fresh r) /\
     exists n, (fresh r, pos r + ticks_of p) ∈ fired (Nat.iter n loop_step r')) /\
  (started_ tm = true \/ p = 0 \/ TIMER_MAX_INTERVAL_MS <= p ->
   forall mode n, (Timer_Start mode tm (wheel r) n).2 = wheel r) /\
  (forall n, Timer_Start false tm (wheel r) n = (tm, wheel r)).
Proof.
  intros Hr Hat. cbv zeta. split; [|split; [|done]].
  - intros Hs Ht Hp. rewrite Timer_Start_wheel by done. set (p := period (timer_opt_ tm)) in *.
    set (task := mkTask p 0 p 0 0). set (r1 := set_tasks r (<[fresh r := task]> (tasks (wheel r))) (S (fresh r))).
    assert (H1 : run_step r r1) by constructor.
    assert (H2 : run_step r1 (add_step r1 (fresh r) task)).
    { constructor; [apply lookup_insert_eq| |done|done]. intros Hpe.
      pose proof (ok_fresh r (reachable_ok r Hr) (fresh r) (or_intror Hpe)). lia. }
    exists (add_step r1 (fresh r) task). split; [by eapply rtc_l, rtc_once|]. split; [done|]. split; [done|].
    apply loop_fires.
    + etrans; [exact Hr|]. by eapply rtc_l, rtc_once.
    + cbn. apply AddTask_runs.
    + cbn. apply elem_of_app. right. by apply list_elem_of_singleton.
    + cbn. apply AddTask_alive. cbn. rewrite lookup_insert_eq. by eexists.
  - intros Hno mode n. unfold Timer_Start, InitTimerTask. destruct mode; [|done]. cbn [negb set_started timer_opt_].
    destruct (started_ tm); [done|]. destruct (Z.eqb_spec (period (timer_opt_ tm)) 0); [done|].
    destruct (Z.leb_spec TIMER_MAX_INTERVAL_MS (period (timer_opt_ tm))); [done|]. destruct Hno as [?|[?|?]]; [done|lia|lia].
Qed.

Definition sample_timer : Timer := (Timer_make 7 20 false).1.

Lemma timer_start_fires_witness :
  exists r', rtc run_step run_init r' /\ wheel r' = (Timer_Start true sample_timer (wheel run_init) 0).2 /\
    task_ (Timer_Start true sample_timer (wheel run_init) 0).1 = Some 0%nat /\
    exists n, (0%nat, 10) ∈ fired (Nat.iter n loop_step r').
Proof.
  destruct (timer_start_fires run_init sample_timer) as [H _]; [apply rtc_refl|by left|].
  apply H; [reflexivity|reflexivity|by vm_compute].
Defined.

(** Once [Stop] has returned, the task of the timer is never handed to [Async] again, whatever
    happens to the wheel, and the timer can be started again. *)
Theorem timer_stop_silent r tm t :
  rtc run_step run_init r -> started_ tm = true -> task_ tm = Some t -> is_Some (tasks (wheel r) !! t) ->
  let '(tm', w') := Timer_Stop tm (wheel r) in
  started_ tm' = false /\ task_ tm' = None /\
  exists r', run_step r r' /\ wheel r' = w' /\
    forall r'', rtc run_step r' r'' -> forall p, (t, p) ∈ fired r'' -> (t, p) ∈ fired r.
Proof.
  intros Hr Hs Ht Hal. unfold Timer_Stop. rewrite Hs. cbn [set_started task_]. rewrite Ht. cbn.
  do 2 (split; [done|]). exists (set_tasks r (delete t (tasks (wheel r))) (fresh r)). split; [constructor|]. split; [done|].
  intros r'' Hr'' p Hp. pose proof (ok_fresh r (reachable_ok r Hr) t (or_introl Hal)).
  apply (rtc_dead _ _ t Hr'') in Hp; [done|apply lookup_delete_eq|done].
Qed.

Lemma timer_stop_silent_witness :
  let '(tm', w') := Timer_Stop (mkTimer 7 (mkOption 1200 false) true (Some 1%nat)) (wheel sample_run) in
  started_ tm' = false /\ task_ tm' = None /\
  exists r', run_step sample_run r' /\ wheel r' = w' /\
    forall r'', rtc run_step r' r'' -> forall p, (1%nat, p) ∈ fired r'' -> (1%nat, p) ∈ fired sample_run.
Proof.
  apply (timer_stop_silent sample_run (mkTimer 7 (mkOption 1200 false) true (Some 1%nat)) 1);
    [apply sample_run_reachable|reflexivity|reflexivity|by apply (bool_decide_unpack _); vm_compute].
Defined.

(** [Start] with a period out of range leaves the timer started without a task: a later [Start]
    with a good period does nothing. *)
Theorem start_stuck_after_bad_period :
  let tm := (Timer_Start true (Timer_default 0).1 TimingWheel_new 0).1 in
  started_ tm = true /\ task_ tm = None /\
  Timer_Start true (SetTimerOption tm (mkOption 20 true)) TimingWheel_new 0 = (SetTimerOption tm (mkOption 20 true), TimingWheel_new).
Proof. done. Qed.
