(* ===== verification/Time.v ===== *)
(** * Time: time/time.cc, time/duration.cc, time/rate.cc, time/clock.cc

    Points in time are 64-bit unsigned numbers of nanoseconds, durations 64-bit signed ones; their
    arithmetic wraps.  The readings of the system clock are arguments.  [ToMicrosecond] goes through a
    double, of which the standard library's executable model of IEEE 754 is used; the other
    conversions from and to double, and printing, are left out. *)

From Stdlib Require Import ZArith Lia SpecFloat.
From stdpp Require Import base list.
From S2P Require Import Prelude.

(** ** Durations *)
Definition Duration_new (nanoseconds : Z) : Z := i64 nanoseconds.
Definition Duration_secs (seconds nanoseconds : Z) : Z := i64 (seconds *u 1000000000 +u nanoseconds).
Definition Duration_add (d e : Z) : Z := i64 (d + e).
Definition Duration_sub (d e : Z) : Z := i64 (d - e).
Definition Duration_neg (d : Z) : Z := i64 (- d).

(** ** Points in time *)
Definition Time_new (nanoseconds : Z) : Z := u64 nanoseconds.
Definition Time_secs (seconds nanoseconds : Z) : Z := seconds *u 1000000000 +u nanoseconds.
Definition Time_sub_time (t s : Z) : Z := i64 (t -u s).
Definition Time_add (t d : Z) : Z := t +u d.
Definition Time_sub (t d : Z) : Z := t -u d.
Definition IsZero (t : Z) : bool := t =? 0.

(** [static_cast<uint64_t>(nanoseconds_ / 1000.0)] for a non-negative double. *)
Definition double_of (n : Z) : spec_float := binary_normalize 53 1024 n 0 false.
Definition truncate (f : spec_float) : Z :=
  match f with
  | S754_finite false m e => if 0 <=? e then Z.pos m * 2 ^ e else Z.pos m / 2 ^ (- e)
  | _ => 0
  end.
Definition ToMicrosecond (t : Z) : Z := truncate (SFdiv 53 1024 (double_of t) (double_of 1000)).

(** Up to seconds a 32-bit number holds, no constructor wraps. *)
Lemma Duration_secs_exact s n : 0 <= s < two32 -> 0 <= n < two32 -> Duration_secs s n = s * 1000000000 + n /\ Time_secs s n = s * 1000000000 + n.
Proof.
  intros Hs Hn. unfold Duration_secs, Time_secs. rewrite (u64_small (s * _)) by word_lia. rewrite u64_small by word_lia. by rewrite i64_small by word_lia.
Qed.

(** Arithmetic of points in time and durations is inverse also where it wraps: adding and taking
    away a duration gives the point back, and the difference of a moved point from its origin is the
    duration it was moved by; between points less than 2^63 ns apart the order is the sign of the
    difference. *)
Theorem time_arithmetic t s d :
  0 <= t < two64 -> 0 <= s < two64 -> - 2 ^ 63 <= d < 2 ^ 63 ->
  Time_sub (Time_add t d) d = t /\ Time_add (Time_sub t d) d = t /\
  Time_sub_time (Time_add t d) t = d /\ Time_add s (Time_sub_time t s) = t /\
  (Z.abs (t - s) < 2 ^ 63 -> (t <? s) = (Time_sub_time t s <? 0)).
Proof.
  intros Ht Hs Hd. unfold Time_sub, Time_add, Time_sub_time, u64, i64.
  assert (Hn : two64 <> 0) by done.
  split_and!.
  - rewrite Zminus_mod_idemp_l. replace (t + d - d) with t by lia. apply Z.mod_small. lia.
  - rewrite Zplus_mod_idemp_l. replace (t - d + d) with t by lia. apply Z.mod_small. lia.
  - rewrite Zminus_mod_idemp_l. replace (t + d - t) with d by lia. rewrite Zplus_mod_idemp_l. rewrite Z.mod_small by word_lia. lia.
  - replace (s + (((t - s) mod two64 + 2 ^ 63) mod two64 - 2 ^ 63)) with (((t - s) mod two64 + 2 ^ 63) mod two64 + (s - 2 ^ 63)) by lia.
    rewrite Zplus_mod_idemp_l. replace ((t - s) mod two64 + 2 ^ 63 + (s - 2 ^ 63)) with ((t - s) mod two64 + s) by lia.
    rewrite Zplus_mod_idemp_l. replace (t - s + s) with t by lia. apply Z.mod_small. lia.
  - intros Hab. rewrite Zplus_mod_idemp_l. rewrite Z.mod_small by word_lia. repeat zcase; lia.
Qed.

Lemma time_arithmetic_witness : Time_add 5 (Time_sub_time 3 5) = 3 /\ (3 <? 5) = (Time_sub_time 3 5 <? 0).
Proof. destruct (time_arithmetic 3 5 0) as (_ & _ & _ & H1 & H2); [vm_compute; intuition congruence..|]. split; [exact H1|apply H2; reflexivity]. Defined.

(** A double has 53 bits: at the present time microseconds come out wrong by rounding. *)
Theorem ToMicrosecond_rounds : ToMicrosecond 1700000000000000999 = 1700000000000001 /\ 1700000000000000999 / 1000 = 1700000000000000.
Proof. split; vm_compute; reflexivity. Qed.

(** ** Rate *)
Record Rate := mkRate { start_ : Z; expected_cycle_time_ : Z; actual_cycle_time_ : Z }.

Definition Rate_new (now d : Z) : Rate := mkRate now d 0.
Definition Rate_Reset (r : Rate) (now : Z) : Rate := mkRate now (expected_cycle_time_ r) (actual_cycle_time_ r).

(** [Sleep] at [now]: the new state, and the time it sleeps until, if it sleeps. *)
Definition Rate_Sleep (r : Rate) (now : Z) : Rate * option Z :=
  let expected_end := Time_add (if now <? start_ r then now else start_ r) (expected_cycle_time_ r) in
  let sleep_time := Time_sub_time expected_end now in
  let actual := Time_sub_time now (start_ r) in
  if sleep_time <? 0 then
    (mkRate (if Time_add expected_end (expected_cycle_time_ r) <? now then now else expected_end) (expected_cycle_time_ r) actual, None)
  else (mkRate expected_end (expected_cycle_time_ r) actual, Some expected_end).

(** The calls of [Sleep] of a loop, at the times [nows]. *)
Fixpoint Rate_run (r : Rate) (nows : list Z) : Rate * list (option Z) :=
  match nows with
  | [] => (r, [])
  | now :: nows => let '(r1, s) := Rate_Sleep r now in let '(r2, l) := Rate_run r1 nows in (r2, s :: l)
  end.

(** Away from the limits of 64 bits. *)
Lemma Rate_Sleep_eq r now :
  0 < expected_cycle_time_ r < 2 ^ 61 -> 0 <= start_ r < 2 ^ 61 -> 0 <= now < 2 ^ 61 ->
  let P := expected_cycle_time_ r in
  let e := (if now <? start_ r then now else start_ r) + P in
  Rate_Sleep r now = (mkRate (if e + P <? now then now else e) P (now - start_ r), if e <? now then None else Some e).
Proof.
  intros HP Hs Hn P e. unfold Rate_Sleep. fold P.
  assert (He : 0 <= e < 2 ^ 62) by (unfold e; zcase; lia).
  assert (Hee : Time_add (if now <? start_ r then now else start_ r) P = e) by (unfold Time_add; apply u64_small; fold e; word_lia).
  rewrite Hee. unfold Time_add. rewrite (u64_small (e + P)) by word_lia.
  assert (Hs1 : Time_sub_time now (start_ r) = now - start_ r).
  { unfold Time_sub_time, u64, i64. rewrite Zplus_mod_idemp_l, Z.mod_small by word_lia. lia. }
  assert (Hs2 : (Time_sub_time e now <? 0) = (e <? now)).
  { destruct (time_arithmetic e now 0) as (_ & _ & _ & _ & H); [word_lia..|]. symmetry. apply H. lia. }
  rewrite Hs1, Hs2. destruct (Z.ltb_spec e now); [done|]. destruct (Z.ltb_spec (e + P) now); [lia|done].
Qed.

Lemma rate_run_grid P t0 ac nows late :
  0 < P -> 0 <= t0 -> t0 + (Z.of_nat (length nows) + 3) * P < 2 ^ 61 ->
  (forall k now, nows !! k = Some now -> t0 + Z.of_nat k * P <= now <= t0 + (Z.of_nat k + 2) * P) ->
  let '(r, l) := Rate_run (mkRate t0 P ac) nows in
  start_ r = t0 + Z.of_nat (length nows) * P /\
  (forall k now, nows !! k = Some now ->
     l !! k = Some (if t0 + (Z.of_nat k + 1) * P <? now then None else Some (t0 + (Z.of_nat k + 1) * P))) /\
  (start_ r + 2 * P < late < 2 ^ 61 -> Rate_Sleep r late = (mkRate late P (late - start_ r), None)).
Proof.
  revert t0 ac. induction nows as [|now nows IH]; intros t0 ac HP Ht Hlim Hnow.
  - cbn [Rate_run start_ length]. split; [lia|]. split; [by intros [|k] now|]. intros Hl.
    cbn [length Z.of_nat] in Hlim. rewrite Rate_Sleep_eq by (cbn [start_ expected_cycle_time_]; lia). cbn [start_ expected_cycle_time_]. repeat zcase; try lia; done.
  - pose proof (Hnow 0%nat now eq_refl) as H0. cbn [length] in Hlim. cbn [Rate_run]. rewrite Rate_Sleep_eq by (cbn [start_ expected_cycle_time_]; nia).
    cbn [start_ expected_cycle_time_]. destruct (Z.ltb_spec now t0); [lia|]. destruct (Z.ltb_spec (t0 + P + P) now); [lia|].
    specialize (IH (t0 + P) (now - t0) HP ltac:(lia) ltac:(nia)).
    destruct (Rate_run _ nows) as [r l]. destruct IH as (IH1 & IH2 & IH3).
    { intros k y Hy. specialize (Hnow (S k) y Hy). nia. }
    split; [rewrite IH1; cbn [length]; nia|]. split; [|exact IH3].
    intros [|k] y Hy.
    { injection Hy as <-. cbn [lookup list_lookup]. replace (t0 + (Z.of_nat 0 + 1) * P) with (t0 + P) by lia. done. }
    change (l !! k = Some (if t0 + (Z.of_nat (S k) + 1) * P <? y then None else Some (t0 + (Z.of_nat (S k) + 1) * P))).
    rewrite (IH2 k y Hy). replace (t0 + P + (Z.of_nat k + 1) * P) with (t0 + (Z.of_nat (S k) + 1) * P) by nia. done.
Qed.

(** A loop that calls [Sleep] does not drift: while no call comes before the start of its cycle or
    more than one whole cycle late, the k-th call sleeps until exactly k periods after the start of
    the loop, or returns at once when that has passed, and the cycle after the last call starts on
    the grid; a later call starts the grid anew at its own time. *)
Theorem rate_keeps_grid P t0 nows late :
  0 < P -> 0 <= t0 -> t0 + (Z.of_nat (length nows) + 3) * P < 2 ^ 61 ->
  (forall k now, nows !! k = Some now -> t0 + Z.of_nat k * P <= now <= t0 + (Z.of_nat k + 2) * P) ->
  let '(r, l) := Rate_run (Rate_new t0 P) nows in
  start_ r = t0 + Z.of_nat (length nows) * P /\
  (forall k now, nows !! k = Some now ->
     l !! k = Some (if t0 + (Z.of_nat k + 1) * P <? now then None else Some (t0 + (Z.of_nat k + 1) * P))) /\
  (start_ r + 2 * P < late < 2 ^ 61 -> Rate_Sleep r late = (mkRate late P (late - start_ r), None)).
Proof. apply rate_run_grid. Qed.

Lemma rate_keeps_grid_witness :
  let '(r, l) := Rate_run (Rate_new 1000 100) [1040; 1210; 1290] in start_ r = 1300 /\ l = [Some 1100; None; Some 1300].
Proof.
  pose proof (rate_keeps_grid 100 1000 [1040; 1210; 1290] 5000 ltac:(lia) ltac:(lia) ltac:(cbn; lia)) as H.
  assert (Hn : forall k now, [1040; 1210; 1290] !! k = Some now -> 1000 + Z.of_nat k * 100 <= now <= 1000 + (Z.of_nat k + 2) * 100).
  { intros [|[|[|k]]] now; cbn; intros [= <-] || intros ?; try lia; done. }
  specialize (H Hn). vm_compute in H |- *. split; [apply H|reflexivity].
Defined.

(** ** Clock *)
Inductive ClockMode := MODE_CYBER | MODE_MOCK | OTHER_MODE.
Record Clock := mkClock { mode_ : ClockMode; mock_now_ : Z }.
Definition Clock_new (configured : ClockMode) : Clock := mkClock configured 0.

(** [None] is [AFATAL]: the process ends. *)
Definition Clock_Now (c : Clock) (now : Z) : option Z :=
  match mode_ c with MODE_CYBER => Some now | MODE_MOCK => Some (mock_now_ c) | OTHER_MODE => None end.
Definition SetMode (c : Clock) (m : ClockMode) : Clock :=
  mkClock (match m with OTHER_MODE => mode_ c | _ => m end) 0.
Definition SetNow (c : Clock) (now : Z) : Clock :=
  match mode_ c with MODE_MOCK => mkClock MODE_MOCK now | _ => c end.

(** A mocked clock shows what it was set to. *)
Lemma mocked_clock c now real : Clock_Now (SetNow (SetMode c MODE_MOCK) now) real = Some now.
Proof. done. Qed.

(** A mode that is refused still resets a mocked clock. *)
Theorem refused_mode_resets c now real : Clock_Now (SetMode (SetNow (SetMode c MODE_MOCK) now) OTHER_MODE) real = Some 0.
Proof. done. Qed.
