(* ===== verification/Bytes.v ===== *)
(** * Bytes: integers in memory, [memcpy] and the wire formats built from them

    Integers are stored little-endian, as on the x86-64 and aarch64 machines the runtime is
    built for; [htonl] and [ntohl] then reverse the four bytes.  [WireFormat] is what the
    transport asks of a fixed-size encoding. *)

From Stdlib Require Import ZArith Lia Strings.Byte.
From stdpp Require Import base numbers list.
From S2P Require Import Prelude.

Abbreviation bytes := (list Byte.byte) (only parsing).
#[export] Instance byte_eq_dec : EqDecision Byte.byte := Byte.byte_eq_dec.

Definition Z_of_byte (b : Byte.byte) : Z := Z.of_N (Byte.to_N b).
Definition byte_of_Z (z : Z) : Byte.byte := default Byte.x00 (Byte.of_N (Z.to_N (z mod 256))).

Lemma Z_of_byte_range b : 0 <= Z_of_byte b < 256.
Proof. unfold Z_of_byte. pose proof (Byte.to_N_bounded b). lia. Qed.

Lemma Z_of_byte_of_Z z : Z_of_byte (byte_of_Z z) = z mod 256.
Proof.
  unfold Z_of_byte, byte_of_Z. pose proof (Z.mod_pos_bound z 256 ltac:(lia)).
  destruct (Byte.of_N (Z.to_N (z mod 256))) as [b|] eqn:Hb; cbn.
  - apply Byte.to_of_N in Hb. lia.
  - apply Byte.of_N_None_iff in Hb. lia.
Qed.

Lemma byte_of_Z_of_byte b : byte_of_Z (Z_of_byte b) = b.
Proof.
  unfold byte_of_Z. rewrite Z.mod_small by apply Z_of_byte_range. unfold Z_of_byte.
  by rewrite N2Z.id, Byte.of_to_N.
Qed.

(** ** Integers in memory *)
Fixpoint le_bytes (n : nat) (z : Z) : bytes :=
  match n with
  | O => []
  | S n => byte_of_Z z :: le_bytes n (z / 256)
  end.

Fixpoint le_value (l : bytes) : Z :=
  match l with
  | [] => 0
  | b :: l => Z_of_byte b + 256 * le_value l
  end.

Lemma length_le_bytes n z : length (le_bytes n z) = n.
Proof. revert z. induction n as [|n IH]; intros z; cbn; [done|]. by rewrite IH. Qed.

Lemma le_value_range l : 0 <= le_value l < 256 ^ Z.of_nat (length l).
Proof.
  induction l as [|b l IH]; cbn [le_value length]; [lia|].
  rewrite Nat2Z.inj_succ, Z.pow_succ_r by lia. pose proof (Z_of_byte_range b). lia.
Qed.

Lemma le_value_bytes n z : le_value (le_bytes n z) = z mod 256 ^ Z.of_nat n.
Proof.
  revert z. induction n as [|n IH]; intros z; cbn [le_bytes le_value]; [by rewrite Z.mod_1_r|].
  rewrite IH, Z_of_byte_of_Z, Nat2Z.inj_succ, Z.pow_succ_r by lia.
  rewrite Z.rem_mul_r by lia. lia.
Qed.

Lemma le_bytes_value l : le_bytes (length l) (le_value l) = l.
Proof.
  induction l as [|b l IH]; cbn [length le_bytes le_value]; [done|].
  pose proof (Z_of_byte_range b). f_equal.
  - rewrite <- (byte_of_Z_of_byte b) at 2. unfold byte_of_Z. do 3 f_equal.
    rewrite (Z.mul_comm 256), Z.mod_add by lia. done.
  - rewrite (Z.mul_comm 256), Z.div_add, Z.div_small by lia. by rewrite Z.add_0_l.
Qed.

Lemma le_bytes_inj n x y : 0 <= x < 256 ^ Z.of_nat n -> 0 <= y < 256 ^ Z.of_nat n -> le_bytes n x = le_bytes n y -> x = y.
Proof.
  intros Hx Hy He. rewrite <- (Z.mod_small x (256 ^ Z.of_nat n)), <- (Z.mod_small y (256 ^ Z.of_nat n)) by done.
  rewrite <- !le_value_bytes. by f_equal.
Qed.

(** [htonl] and [ntohl]: the value whose memory is the reverse. *)
Definition htonl (x : Z) : Z := le_value (rev (le_bytes 4 x)).
Definition ntohl (x : Z) : Z := le_value (rev (le_bytes 4 x)).

Lemma le_bytes_htonl x : le_bytes 4 (htonl x) = rev (le_bytes 4 x).
Proof.
  unfold htonl. rewrite <- (le_bytes_value (rev (le_bytes 4 x))) at 2. by rewrite length_rev, length_le_bytes.
Qed.

Lemma ntohl_htonl x : ntohl (htonl x) = u32 x.
Proof. unfold ntohl. rewrite le_bytes_htonl, rev_involutive, le_value_bytes. done. Qed.

(** ** [memcpy] into a buffer *)

(** [src] copied to [dst + off]; [None] when the copy would leave the buffer. *)
Definition memcpy (dst : bytes) (off : nat) (src : bytes) : option bytes :=
  if decide (off + length src <= length dst)%nat
  then Some (take off dst ++ src ++ drop (off + length src) dst)
  else None.

Lemma memcpy_length dst off src dst' : memcpy dst off src = Some dst' -> length dst' = length dst.
Proof.
  unfold memcpy. intros Hm. case_decide; [|done]. simplify_eq. rewrite !length_app, length_take, length_drop. lia.
Qed.

(** A buffer that is filled from the left. *)
Lemma memcpy_append pre rest src off :
  off = length pre -> (length src <= length rest)%nat ->
  memcpy (pre ++ rest) off src = Some ((pre ++ src) ++ drop (length src) rest).
Proof.
  intros -> Hl. unfold memcpy. rewrite decide_True by (rewrite length_app; lia).
  rewrite take_app_length, drop_app_add. by rewrite <- app_assoc.
Qed.

(** [n] bytes read at [off]. *)
Definition read_at (src : bytes) (off n : nat) : bytes := take n (drop off src).

Lemma read_memcpy dst off src dst' :
  memcpy dst off src = Some dst' -> read_at dst' off (length src) = src.
Proof.
  unfold memcpy, read_at. intros Hm. case_decide; [|done]. simplify_eq.
  rewrite drop_app_length' by (rewrite length_take; lia). by rewrite take_app_length.
Qed.

Lemma read_memcpy_before dst off src dst' i n :
  memcpy dst off src = Some dst' -> (i + n <= off)%nat -> read_at dst' i n = read_at dst i n.
Proof.
  unfold memcpy, read_at. intros Hm Hi. case_decide; [|done]. simplify_eq.
  rewrite drop_app_le, take_app_le by (rewrite ?length_drop, length_take; lia).
  rewrite skipn_firstn_comm, take_take. f_equal. lia.
Qed.

(** ** Fixed-size encodings

    [wf_decode x b] overwrites the object [x] with what [b] holds; [wf_same] is equality of the
    encoded part; [wf_valid] says that the members have their widths. *)
Class WireFormat (A : Type) := {
  wf_size : nat;
  wf_encode : A -> bytes;
  wf_decode : A -> bytes -> option A;
  wf_valid : A -> Prop;
  wf_same : A -> A -> Prop;
  wf_encode_size x : wf_valid x -> length (wf_encode x) = wf_size;
  wf_round_trip x y : wf_valid x -> wf_valid y ->
    exists z, wf_decode y (wf_encode x) = Some z /\ wf_valid z /\ wf_same z x;
  wf_reject y b : length b <> wf_size -> wf_decode y b = None;
  wf_accept y b : wf_valid y -> length b = wf_size ->
    exists z, wf_decode y b = Some z /\ wf_valid z /\ wf_encode z = b
}.

(** Decoding fails exactly on the wrong length, and what is decoded encodes to what was read. *)
Lemma wf_decode_spec `{WireFormat A} y b :
  wf_valid y ->
  match wf_decode y b with
  | Some z => length b = wf_size /\ wf_valid z /\ wf_encode z = b
  | None => length b <> wf_size
  end.
Proof.
  intros Hy. destruct (decide (length b = wf_size)) as [Hl|Hl].
  - destruct (wf_accept y b Hy Hl) as (z & -> & Hz). done.
  - by rewrite wf_reject.
Qed.
