(* ===== verification/MessageHeader.v ===== *)
(** * Message framing: message/message_header.h, message_traits.h, raw_message.h, py_message.h

    A message travels as a 192-byte header in network byte order followed by its content.  The
    traits of message_traits.h are the interface [Message]; raw and Python messages implement it
    here, a protobuf type is any other instance. *)

From Stdlib Require Import ZArith Lia Strings.Byte Strings.String.
From stdpp Require Import base numbers list.
From S2P Require Import Prelude Bytes.

Record MessageHeader := mkHeader {
  magic_num_ : bytes;
  seq_ : bytes;
  timestamp_ns_ : bytes;
  src_id_ : bytes;
  dst_id_ : bytes;
  msg_type_ : bytes;
  res_ : bytes;
  content_size_ : bytes
}.

Definition bytes_of (s : string) : bytes := list_byte_of_string s.
Definition zeros (n : nat) : bytes := replicate n Byte.x00.

Definition Convert32ToArray (input : Z) : bytes := le_bytes 4 (htonl input).
Definition Convert64ToArray (input : Z) : bytes :=
  let h_high := u32 (Z.shiftr (Z.land input 0xffffffff00000000) 32) in
  let h_low := u32 (Z.land input 0xffffffff) in
  Convert32ToArray h_high ++ Convert32ToArray h_low.
Definition ConvertArrayTo32 (input : bytes) : Z := ntohl (le_value (take 4 input)).
Definition ConvertArrayTo64 (input : bytes) : Z :=
  let high := ConvertArrayTo32 input in
  let low := ConvertArrayTo32 (drop 4 input) in
  Z.lor (u64 (Z.shiftl high 32)) low.

(** The constructor: every field reset. *)
Definition MessageHeader_new : MessageHeader :=
  mkHeader (bytes_of "BDACBDAC") (zeros 8) (zeros 8) (zeros 8) (zeros 8) (zeros 129) (zeros 19) (zeros 4).

Definition is_magic_num_match (h : MessageHeader) (other : option bytes) : bool :=
  match other with
  | None => false
  | Some o => if decide (length o <> 8%nat) then false else bool_decide (magic_num_ h = o)
  end.

Definition seq (h : MessageHeader) : Z := ConvertArrayTo64 (seq_ h).
Definition timestamp_ns (h : MessageHeader) : Z := ConvertArrayTo64 (timestamp_ns_ h).
Definition src_id (h : MessageHeader) : Z := ConvertArrayTo64 (src_id_ h).
Definition dst_id (h : MessageHeader) : Z := ConvertArrayTo64 (dst_id_ h).
Definition content_size (h : MessageHeader) : Z := ConvertArrayTo32 (content_size_ h).

Definition set_seq (x : Z) (h : MessageHeader) : MessageHeader :=
  mkHeader (magic_num_ h) (Convert64ToArray x) (timestamp_ns_ h) (src_id_ h) (dst_id_ h) (msg_type_ h) (res_ h) (content_size_ h).
Definition set_timestamp_ns (x : Z) (h : MessageHeader) : MessageHeader :=
  mkHeader (magic_num_ h) (seq_ h) (Convert64ToArray x) (src_id_ h) (dst_id_ h) (msg_type_ h) (res_ h) (content_size_ h).
Definition set_src_id (x : Z) (h : MessageHeader) : MessageHeader :=
  mkHeader (magic_num_ h) (seq_ h) (timestamp_ns_ h) (Convert64ToArray x) (dst_id_ h) (msg_type_ h) (res_ h) (content_size_ h).
Definition set_dst_id (x : Z) (h : MessageHeader) : MessageHeader :=
  mkHeader (magic_num_ h) (seq_ h) (timestamp_ns_ h) (src_id_ h) (Convert64ToArray x) (msg_type_ h) (res_ h) (content_size_ h).
Definition set_content_size (x : Z) (h : MessageHeader) : MessageHeader :=
  mkHeader (magic_num_ h) (seq_ h) (timestamp_ns_ h) (src_id_ h) (dst_id_ h) (msg_type_ h) (res_ h) (Convert32ToArray x).

(** The bytes before the first zero: what a [const char*] means to its reader. *)
Fixpoint c_str (l : bytes) : bytes :=
  match l with
  | [] => []
  | b :: l => if decide (b = Byte.x00) then [] else b :: c_str l
  end.
Definition msg_type (h : MessageHeader) : bytes := c_str (msg_type_ h).

(** [set_msg_type(msg_type, msg_type_len)]: a null pointer is [None]. *)
Definition set_msg_type (msg_type : option bytes) (h : MessageHeader) : MessageHeader :=
  match msg_type with
  | None => h
  | Some s =>
      if decide (length s = 0%nat) then h
      else
        let real_len := if decide (129 <= length s)%nat then 128%nat else length s in
        mkHeader (magic_num_ h) (seq_ h) (timestamp_ns_ h) (src_id_ h) (dst_id_ h)
          (take real_len s ++ zeros (129 - real_len)) (res_ h) (content_size_ h)
  end.

(** ** The header in memory *)
Definition sizeof_MessageHeader : nat := 192.

Definition header_bytes (h : MessageHeader) : bytes :=
  magic_num_ h ++ seq_ h ++ timestamp_ns_ h ++ src_id_ h ++ dst_id_ h ++ msg_type_ h ++ res_ h ++ content_size_ h.

Definition header_at (b : bytes) : MessageHeader :=
  mkHeader (read_at b 0 8) (read_at b 8 8) (read_at b 16 8) (read_at b 24 8) (read_at b 32 8)
    (read_at b 40 129) (read_at b 169 19) (read_at b 188 4).

(** ** Messages *)

(** What the traits select for a message type: its size as an [int] (-1 when it has none), its
    type name, what [SetTypeName] does to it, and the two conversions.  [SerializeToArray m data
    size] returns the buffer after the call, [None] for [false]. *)
Class Message (T : Type) := {
  ByteSize : T -> Z;
  MessageType : T -> bytes;
  SetTypeName : bytes -> T -> T;
  SerializeToArray : T -> bytes -> Z -> option bytes;
  ParseFromArray : bytes -> Z -> T -> option T;
  content : T -> bytes;
  same_message : T -> T -> Prop
}.

(** The size of the message fits an [int]. *)
Definition sized {T} `{!Message T} (m : T) : Prop := Z.of_nat (length (content m)) = ByteSize m.

(** A message type whose conversions stay in their buffers and are inverse to each other. *)
Class LawfulMessage (T : Type) `{!Message T} := {
  serialize_fits m data size :
    sized m -> ByteSize m <= size -> SerializeToArray m data size = memcpy data 0 (content m);
  serialize_short m data size : size < ByteSize m -> SerializeToArray m data size = None;
  parse_content m m0 rest :
    sized m -> 0 < ByteSize m ->
    exists m', ParseFromArray (content m ++ rest) (ByteSize m) m0 = Some m' /\ same_message m' m;
  parse_local m0 n d d' :
    take (Z.to_nat n) d = take (Z.to_nat n) d' -> ParseFromArray d n m0 = ParseFromArray d' n m0
}.

Section HC.
Context {T : Type} `{!Message T}.

Definition FullByteSize (m : T) : Z :=
  let content_size := ByteSize m in
  if content_size <? 0 then content_size else i32 (content_size + Z.of_nat sizeof_MessageHeader).

(** [SerializeToHC(message, data, size)], [data] being the buffer. *)
Definition SerializeToHC (m : T) (data : bytes) (size : Z) : option bytes :=
  let msg_size := ByteSize m in
  if msg_size <? 0 then None
  else
    let header := set_content_size msg_size (set_msg_type (Some (MessageType m)) MessageHeader_new) in
    if u64 size <? Z.of_nat sizeof_MessageHeader then None
    else
      data ← memcpy data 0 (header_bytes header);
      let left_size := size - Z.of_nat sizeof_MessageHeader in
      tl ← SerializeToArray m (drop sizeof_MessageHeader data) left_size;
      Some (take sizeof_MessageHeader data ++ tl).

(** [ParseFromHC(data, size, message)] *)
Definition ParseFromHC (data : bytes) (size : Z) (m : T) : option T :=
  if size <? Z.of_nat sizeof_MessageHeader then None
  else
    let header := header_at data in
    if size - Z.of_nat sizeof_MessageHeader <? content_size header then None
    else
      let m := SetTypeName (msg_type header) m in
      ParseFromArray (drop sizeof_MessageHeader data) (i32 (content_size header)) m.
End HC.

(** *** Raw messages *)
Record RawMessage := mkRaw { message : bytes; timestamp : Z }.

Definition Raw_ByteSize (m : RawMessage) : Z := i32 (Z.of_nat (length (message m))).
Definition Raw_SerializeToArray (m : RawMessage) (data : bytes) (size : Z) : option bytes :=
  if size <? Raw_ByteSize m then None else memcpy data 0 (message m).
Definition Raw_SerializeToString (m : RawMessage) : bytes := message m.
Definition Raw_ParseFromArray (data : bytes) (size : Z) (m : RawMessage) : option RawMessage :=
  if size <=? 0 then None else Some (mkRaw (take (Z.to_nat size) data) (timestamp m)).
Definition Raw_ParseFromString (str : bytes) (m : RawMessage) : RawMessage := mkRaw str (timestamp m).
Definition Raw_TypeName : bytes := bytes_of "apollo.cyber.message.RawMessage".

#[export] Instance RawMessage_message : Message RawMessage := {|
  ByteSize := Raw_ByteSize; MessageType := fun _ => Raw_TypeName; SetTypeName := fun _ m => m;
  SerializeToArray := Raw_SerializeToArray; ParseFromArray := Raw_ParseFromArray;
  content := message; same_message m m' := message m = message m' |}.

(** *** Python messages *)
Record PyMessageWrap := mkPy { data_ : bytes; type_name_ : bytes }.

Definition Py_ByteSize (m : PyMessageWrap) : Z := i32 (Z.of_nat (length (data_ m))).
Definition Py_SerializeToArray (m : PyMessageWrap) (data : bytes) (size : Z) : option bytes :=
  if size <? Py_ByteSize m then None else memcpy data 0 (data_ m).
Definition Py_SerializeToString (m : PyMessageWrap) : bytes := data_ m.
Definition Py_ParseFromArray (data : bytes) (size : Z) (m : PyMessageWrap) : option PyMessageWrap :=
  if size <=? 0 then None else Some (mkPy (take (Z.to_nat size) data) (type_name_ m)).
Definition Py_ParseFromString (msgstr : bytes) (m : PyMessageWrap) : PyMessageWrap := mkPy msgstr (type_name_ m).
Definition set_data (msg : bytes) (m : PyMessageWrap) : PyMessageWrap := mkPy msg (type_name_ m).
Definition set_type_name (type_name : bytes) (m : PyMessageWrap) : PyMessageWrap := mkPy (data_ m) type_name.
Definition Py_TypeName : bytes := bytes_of "apollo.cyber.message.PyMessage".

#[export] Instance PyMessage_message : Message PyMessageWrap := {|
  ByteSize := Py_ByteSize; MessageType := fun _ => Py_TypeName; SetTypeName := fun _ m => m;
  SerializeToArray := Py_SerializeToArray; ParseFromArray := Py_ParseFromArray;
  content := data_; same_message m m' := data_ m = data_ m' |}.

#[export] Instance RawMessage_lawful : LawfulMessage RawMessage.
Proof.
  split; cbn; unfold sized, Raw_SerializeToArray, Raw_ParseFromArray; cbn.
  - intros m data size _ Hs. destruct (Z.ltb_spec size (Raw_ByteSize m)); [lia|done].
  - intros m data size Hs. destruct (Z.ltb_spec size (Raw_ByteSize m)); [done|lia].
  - intros m m0 rest Hm Hp. destruct (Z.leb_spec (Raw_ByteSize m) 0); [lia|]. eexists. split; [done|]. cbn.
    rewrite <- Hm, Nat2Z.id. apply take_app_length.
  - intros m0 n d d' ->. done.
Qed.

#[export] Instance PyMessage_lawful : LawfulMessage PyMessageWrap.
Proof.
  split; cbn; unfold sized, Py_SerializeToArray, Py_ParseFromArray; cbn.
  - intros m data size _ Hs. destruct (Z.ltb_spec size (Py_ByteSize m)); [lia|done].
  - intros m data size Hs. destruct (Z.ltb_spec size (Py_ByteSize m)); [done|lia].
  - intros m m0 rest Hm Hp. destruct (Z.leb_spec (Py_ByteSize m) 0); [lia|]. eexists. split; [done|]. cbn.
    rewrite <- Hm, Nat2Z.id. apply take_app_length.
  - intros m0 n d d' ->. done.
Qed.

(** *** Strings

    [SerializeToString] and [ParseFromString], for the transports that carry strings. *)
Class StringMessage (T : Type) := {
  SerializeToString : T -> option bytes;
  ParseFromString : bytes -> T -> option T
}.

Class LawfulStringMessage (T : Type) `{!Message T, !StringMessage T} :=
  string_round_trip (m m0 : T) str :
    SerializeToString m = Some str -> exists m', ParseFromString str m0 = Some m' /\ same_message m' m.

#[export] Instance RawMessage_string : StringMessage RawMessage := {|
  SerializeToString m := Some (Raw_SerializeToString m); ParseFromString str m := Some (Raw_ParseFromString str m) |}.
#[export] Instance PyMessage_string : StringMessage PyMessageWrap := {|
  SerializeToString m := Some (Py_SerializeToString m); ParseFromString str m := Some (Py_ParseFromString str m) |}.
#[export] Instance RawMessage_string_lawful : LawfulStringMessage RawMessage.
Proof. intros m m0 str Hs. cbn in *. simplify_eq. by eexists. Qed.
#[export] Instance PyMessage_string_lawful : LawfulStringMessage PyMessageWrap.
Proof. intros m m0 str Hs. cbn in *. simplify_eq. by eexists. Qed.

(** ** Fields of a header *)
Lemma length_Convert32 x : length (Convert32ToArray x) = 4%nat.
Proof. apply length_le_bytes. Qed.
Lemma length_Convert64 x : length (Convert64ToArray x) = 8%nat.
Proof. unfold Convert64ToArray. by rewrite length_app, !length_Convert32. Qed.

Lemma To32_app x l : ConvertArrayTo32 (Convert32ToArray x ++ l) = u32 x.
Proof.
  unfold ConvertArrayTo32. rewrite take_app_length' by (by rewrite length_Convert32). unfold Convert32ToArray.
  rewrite le_value_bytes. change (256 ^ Z.of_nat 4) with two32. rewrite Z.mod_small; [by rewrite ntohl_htonl|].
  pose proof (le_value_range (rev (le_bytes 4 x))) as H. rewrite length_rev, length_le_bytes in H. exact H.
Qed.

Lemma To32_Convert32 x : ConvertArrayTo32 (Convert32ToArray x) = u32 x.
Proof. rewrite <- (app_nil_r (Convert32ToArray x)). apply To32_app. Qed.

(** The high and the low half of a 64-bit value. *)
Lemma high_half x : u32 (Z.shiftr (Z.land x 0xffffffff00000000) 32) = (u64 x) / two32.
Proof.
  apply Z.bits_inj'. intros n Hn. unfold u32, u64, two32, two64.
  rewrite <- (Z.shiftr_div_pow2 _ 32), !Z.shiftr_spec by lia.
  destruct (Z.lt_ge_cases n 32).
  - rewrite Z.mod_pow2_bits_low, Z.shiftr_spec, Z.land_spec by lia.
    change 0xffffffff00000000 with (Z.shiftl (Z.ones 32) 32). rewrite Z.shiftl_spec by lia.
    rewrite Z.ones_spec_low by lia. rewrite andb_true_r, Z.mod_pow2_bits_low by lia. done.
  - rewrite Z.mod_pow2_bits_high by lia. symmetry. apply Z.mod_pow2_bits_high. lia.
Qed.

Lemma low_half x : u32 (Z.land x 0xffffffff) = (u64 x) mod two32.
Proof.
  change 0xffffffff with (Z.ones 32). rewrite Z.land_ones by lia. unfold u32, u64, two32, two64.
  rewrite Z.mod_mod by lia. change (2 ^ 64) with (2 ^ 32 * 2 ^ 32).
  rewrite Z.rem_mul_r by lia. rewrite Z.mul_comm, Z.mod_add, Z.mod_mod by lia. done.
Qed.

Lemma lor_halves h l : 0 <= l < two32 -> Z.lor (Z.shiftl h 32) l = h * two32 + l.
Proof.
  intros Hl. pose proof (Z.add_lor_land (Z.shiftl h 32) l) as He.
  assert (Hz : Z.land (Z.shiftl h 32) l = 0).
  { apply Z.bits_inj'. intros n Hn. rewrite Z.land_spec, Z.bits_0. destruct (Z.lt_ge_cases n 32).
    - by rewrite Z.shiftl_spec_low.
    - rewrite <- (Z.mod_small l two32) by done. unfold two32. rewrite Z.mod_pow2_bits_high by lia. apply andb_false_r. }
  rewrite Hz, Z.shiftl_mul_pow2 in He by lia. rewrite Z.shiftl_mul_pow2 by lia. word_lia.
Qed.

Lemma To64_Convert64 x : ConvertArrayTo64 (Convert64ToArray x) = u64 x.
Proof.
  unfold ConvertArrayTo64, Convert64ToArray. rewrite To32_app, drop_app_length', To32_Convert32 by (by rewrite length_Convert32).
  rewrite !(u32_small (u32 _)) by apply u32_range. rewrite high_half, low_half.
  pose proof (u64_range x). pose proof (Z.div_mod (u64 x) two32 ltac:(done)).
  pose proof (Z.mod_pos_bound (u64 x) two32 ltac:(done)).
  assert (0 <= u64 x / two32 < two32).
  { split; [apply Z.div_pos; word_lia|apply Z.div_lt_upper_bound; word_lia]. }
  rewrite (u64_small (Z.shiftl _ _)) by (rewrite Z.shiftl_mul_pow2 by lia; word_lia). rewrite lor_halves by done. lia.
Qed.

(** ** A header is its fields

    The values a header stands for, and what each setter does to them. *)
Record header_view := mkView {
  v_seq : Z; v_timestamp_ns : Z; v_src_id : Z; v_dst_id : Z; v_msg_type : bytes; v_content_size : Z }.

Definition view (h : MessageHeader) : header_view :=
  mkView (seq h) (timestamp_ns h) (src_id h) (dst_id h) (msg_type h) (content_size h).

Inductive setter :=
| SetSeq (x : Z) | SetTimestamp (x : Z) | SetSrcId (x : Z) | SetDstId (x : Z)
| SetMsgType (s : option bytes) | SetContentSize (x : Z).

Definition apply_setter (h : MessageHeader) (o : setter) : MessageHeader :=
  match o with
  | SetSeq x => set_seq x h | SetTimestamp x => set_timestamp_ns x h | SetSrcId x => set_src_id x h
  | SetDstId x => set_dst_id x h | SetMsgType s => set_msg_type s h | SetContentSize x => set_content_size x h
  end.

Definition view_setter (v : header_view) (o : setter) : header_view :=
  let '(mkView q t s d m c) := v in
  match o with
  | SetSeq x => mkView (u64 x) t s d m c
  | SetTimestamp x => mkView q (u64 x) s d m c
  | SetSrcId x => mkView q t (u64 x) d m c
  | SetDstId x => mkView q t s (u64 x) m c
  | SetMsgType None | SetMsgType (Some []) => v
  | SetMsgType (Some n) => mkView q t s d (c_str (take 128 n)) c
  | SetContentSize x => mkView q t s d m (u32 x)
  end.

(** The arrays have their sizes and the type name is terminated. *)
Record header_ok (h : MessageHeader) : Prop := {
  ho_magic : magic_num_ h = bytes_of "BDACBDAC";
  ho_seq : length (seq_ h) = 8%nat;
  ho_timestamp : length (timestamp_ns_ h) = 8%nat;
  ho_src : length (src_id_ h) = 8%nat;
  ho_dst : length (dst_id_ h) = 8%nat;
  ho_type : length (msg_type_ h) = 129%nat;
  ho_terminated : (length (msg_type h) <= 128)%nat;
  ho_res : length (res_ h) = 19%nat;
  ho_content : length (content_size_ h) = 4%nat
}.

Lemma c_str_zeros l n : c_str (l ++ zeros n) = c_str l.
Proof. induction l as [|b l IH]; cbn; [by destruct n|]. case_decide; [done|]. by rewrite IH. Qed.
Lemma c_str_length l : (length (c_str l) <= length l)%nat.
Proof. induction l as [|b l IH]; cbn; [done|]. case_decide; cbn; lia. Qed.

(** The array [set_msg_type] writes. *)
Definition type_array (s : bytes) : bytes :=
  let real_len := if decide (129 <= length s)%nat then 128%nat else length s in take real_len s ++ zeros (129 - real_len).

Lemma type_array_spec s :
  length (type_array s) = 129%nat /\ c_str (type_array s) = c_str (take 128 s) /\ (length (c_str (type_array s)) <= 128)%nat.
Proof.
  unfold type_array. assert (Hc : forall n, c_str (take n s ++ zeros (129 - n)) = c_str (take n s)) by (intros; apply c_str_zeros).
  unfold zeros. rewrite length_app, length_take, length_replicate. fold (zeros (129 - length s)).
  case_decide.
  - split; [lia|]. split; [apply Hc|]. rewrite Hc. etrans; [apply c_str_length|]. rewrite length_take. lia.
  - split; [lia|]. rewrite (firstn_all2 (n := 128)) by lia. rewrite Hc, firstn_all. split; [done|].
    etrans; [apply c_str_length|]. lia.
Qed.

Lemma set_msg_type_eq s h :
  s <> [] -> set_msg_type (Some s) h =
    mkHeader (magic_num_ h) (seq_ h) (timestamp_ns_ h) (src_id_ h) (dst_id_ h) (type_array s) (res_ h) (content_size_ h).
Proof. intros Hs. unfold set_msg_type. rewrite decide_False; [done|]. by destruct s. Qed.

Lemma MessageHeader_new_ok : header_ok MessageHeader_new.
Proof. by split; vm_compute; try lia. Qed.

Lemma apply_setter_ok h o : header_ok h -> header_ok (apply_setter h o).
Proof.
  intros []. destruct o as [x|x|x|x|[s|]|x]; cbn [apply_setter]; try (split; cbn; rewrite ?length_Convert64, ?length_Convert32; done).
  destruct (decide (s = [])) as [->|Hs]; [by split|]. rewrite set_msg_type_eq by done.
  destruct (type_array_spec s) as (H1 & _ & H3). by split.
Qed.

Lemma apply_setter_view h o : view (apply_setter h o) = view_setter (view h) o.
Proof.
  destruct o as [x|x|x|x|[[|b s]|]|x]; cbn [apply_setter view_setter view]; try done;
    try (unfold view; f_equal; solve [done | apply To64_Convert64 | apply To32_Convert32]).
  rewrite set_msg_type_eq by done. unfold view, msg_type. cbn [msg_type_].
  destruct (type_array_spec (b :: s)) as (_ & -> & _). done.
Qed.

(** Whatever setters are applied to a new header, its getters return the values last set, the
    type name cut to 128 characters, and its arrays keep their sizes with the type name
    terminated. *)
Theorem header_fields_round_trip ops :
  let h := foldl apply_setter MessageHeader_new ops in
  view h = foldl view_setter (mkView 0 0 0 0 [] 0) ops /\ header_ok h.
Proof.
  cbv zeta. change (mkView 0 0 0 0 [] 0) with (view MessageHeader_new). generalize MessageHeader_new_ok.
  generalize MessageHeader_new. induction ops as [|o ops IH]; intros h Hh; cbn [foldl]; [done|].
  rewrite <- apply_setter_view. apply IH. by apply apply_setter_ok.
Qed.

(** ** The header in memory *)
Lemma read_app_l (a b : bytes) off n : off = 0%nat -> length a = n -> read_at (a ++ b) off n = a.
Proof. intros -> <-. unfold read_at. rewrite drop_0. apply take_app_length. Qed.
Lemma read_app_r (a b : bytes) off n : (length a <= off)%nat -> read_at (a ++ b) off n = read_at b (off - length a) n.
Proof. intros H. unfold read_at. by rewrite drop_app_ge. Qed.

Lemma header_round_trip h rest : header_ok h -> header_at (header_bytes h ++ rest) = h.
Proof.
  intros []. destruct h as [m q t s d ty r c]. cbn [magic_num_ seq_ timestamp_ns_ src_id_ dst_id_ msg_type_ res_ content_size_] in *.
  unfold header_at, header_bytes. cbn [magic_num_ seq_ timestamp_ns_ src_id_ dst_id_ msg_type_ res_ content_size_].
  assert (length m = 8%nat) by (by subst). rewrite <- !app_assoc.
  f_equal; repeat (rewrite read_app_r by lia); rewrite read_app_l by lia; done.
Qed.

Lemma length_header_bytes h : header_ok h -> length (header_bytes h) = sizeof_MessageHeader.
Proof.
  intros []. unfold header_bytes. rewrite !length_app.
  rewrite ho_magic0, ho_seq0, ho_timestamp0, ho_src0, ho_dst0, ho_type0, ho_res0, ho_content0. done.
Qed.

Lemma memcpy_0 dst src : (length src <= length dst)%nat -> memcpy dst 0 src = Some (src ++ drop (length src) dst).
Proof. intros Hl. unfold memcpy. rewrite decide_True by lia. done. Qed.

Section HC_laws.
Context {T : Type} `{!Message T, !LawfulMessage T}.
Implicit Types m : T.

(** The header of a serialized message. *)
Definition hc_header m : MessageHeader := set_content_size (ByteSize m) (set_msg_type (Some (MessageType m)) MessageHeader_new).

Lemma hc_header_ok m : header_ok (hc_header m).
Proof.
  apply (apply_setter_ok _ (SetContentSize (ByteSize m))), (apply_setter_ok _ (SetMsgType (Some (MessageType m)))).
  apply MessageHeader_new_ok.
Qed.

Lemma hc_header_fields m :
  msg_type (hc_header m) = c_str (take 128 (MessageType m)) /\ content_size (hc_header m) = u32 (ByteSize m).
Proof.
  pose proof (apply_setter_view (set_msg_type (Some (MessageType m)) MessageHeader_new) (SetContentSize (ByteSize m))) as H1.
  pose proof (apply_setter_view MessageHeader_new (SetMsgType (Some (MessageType m)))) as H2.
  cbn [apply_setter] in H1, H2. rewrite H2 in H1. clear H2. unfold hc_header.
  split; [apply (f_equal v_msg_type) in H1|apply (f_equal v_content_size) in H1]; cbn [view v_msg_type v_content_size] in H1;
    rewrite H1; by destruct (MessageType m).
Qed.

Lemma SerializeToHC_eq m data size :
  sized m -> Z.of_nat sizeof_MessageHeader + ByteSize m <= size <= Z.of_nat (length data) -> size < two31 ->
  SerializeToHC m data size =
    Some (header_bytes (hc_header m) ++ content m ++ drop (sizeof_MessageHeader + length (content m)) data).
Proof.
  intros Hs Hsz H31. unfold sized in Hs. pose proof (length_header_bytes _ (hc_header_ok m)) as Hl.
  unfold SerializeToHC. fold (hc_header m). unfold sizeof_MessageHeader in *.
  destruct (Z.ltb_spec (ByteSize m) 0); [lia|]. rewrite u64_small by word_lia.
  destruct (Z.ltb_spec size (Z.of_nat 192)); [lia|].
  rewrite memcpy_0 by lia. cbn [mbind option_bind]. rewrite Hl, drop_app_length' by done.
  rewrite serialize_fits, memcpy_0 by (exact Hs || (rewrite ?length_drop; lia)). cbn [mbind option_bind].
  rewrite take_app_length', drop_drop by done. done.
Qed.

(** C9: a message that is not empty and whose [ByteSize] is the length of its content, put by [SerializeToHC] into a
    buffer of at least [size] bytes, [size] below 2^31, is read back by [ParseFromHC], with its size
    and its type name (the first 128 characters, up to a NUL) in the header, whatever the buffer held; with
    less room than header and content need, [SerializeToHC] fails. *)
Theorem hc_round_trip m m0 data size :
  sized m -> 0 < ByteSize m -> size <= Z.of_nat (length data) -> size < two31 -> 0 <= size ->
  (Z.of_nat sizeof_MessageHeader + ByteSize m <= size ->
    exists data' m', SerializeToHC m data size = Some data' /\ length data' = length data /\
      ParseFromHC data' size m0 = Some m' /\ same_message m' m /\
      msg_type (header_at data') = c_str (take 128 (MessageType m)) /\ content_size (header_at data') = ByteSize m) /\
  (size < Z.of_nat sizeof_MessageHeader + ByteSize m -> SerializeToHC m data size = None).
Proof.
  intros Hs Hp Hlen H31 H0. split; intros Hfit.
  - pose proof (length_header_bytes _ (hc_header_ok m)) as Hl. destruct (hc_header_fields m) as [Ht Hc].
    rewrite u32_small in Hc by (unfold sizeof_MessageHeader in *; word_lia).
    rewrite SerializeToHC_eq by done. unfold sized in Hs. eexists.
    set (rest := drop (sizeof_MessageHeader + length (content m)) data).
    destruct (parse_content m (SetTypeName (msg_type (hc_header m)) m0) rest) as (m' & Hm' & Hsame); [done|done|].
    exists m'. split; [done|]. split; [unfold rest; rewrite !length_app, length_drop, Hl; lia|].
    unfold ParseFromHC. rewrite header_round_trip by apply hc_header_ok. rewrite Ht, Hc.
    split; [|done]. destruct (Z.ltb_spec size (Z.of_nat sizeof_MessageHeader)); [lia|].
    destruct (Z.ltb_spec (size - Z.of_nat sizeof_MessageHeader) (ByteSize m)); [lia|].
    rewrite drop_app_length' by done. rewrite i32_small by word_lia. by rewrite <- Ht.
  - unfold SerializeToHC. destruct (Z.ltb_spec (ByteSize m) 0); [done|]. rewrite u64_small by word_lia.
    destruct (Z.ltb_spec size (Z.of_nat sizeof_MessageHeader)); [done|].
    fold (hc_header m). rewrite memcpy_0 by (rewrite length_header_bytes by apply hc_header_ok; lia). cbn [mbind option_bind].
    by rewrite serialize_short by lia.
Qed.

(** C11: [ParseFromHC] looks at no byte past [size]: what follows the message in memory does not
    change its result, and a header that announces more content than there is makes it fail. *)
Theorem ParseFromHC_in_bounds m0 data data' size :
  take (Z.to_nat size) data = take (Z.to_nat size) data' ->
  ParseFromHC data size m0 = ParseFromHC data' size m0 /\
  (size - Z.of_nat sizeof_MessageHeader < content_size (header_at data) -> ParseFromHC data size m0 = None).
Proof.
  intros Ht. unfold ParseFromHC. destruct (Z.ltb_spec size (Z.of_nat sizeof_MessageHeader)) as [|Hs]; [done|].
  assert (Hr : forall off n, (off + n <= Z.to_nat size)%nat -> read_at data off n = read_at data' off n).
  { intros off n Hle. unfold read_at. rewrite !take_drop_commute.
    rewrite <- (Nat.min_l (off + n) (Z.to_nat size)) by lia. rewrite <- !take_take. by rewrite Ht. }
  unfold sizeof_MessageHeader in *.
  assert (Hh : header_at data = header_at data') by (unfold header_at; f_equal; apply Hr; lia). rewrite <- Hh.
  destruct (Z.ltb_spec (size - Z.of_nat 192) (content_size (header_at data))); [done|]. split; [|lia].
  apply parse_local. set (c := content_size (header_at data)) in *.
  destruct (Z.lt_ge_cases (i32 c) 0); [by rewrite Z2Nat.nonpos by lia|].
  assert (0 <= c) by apply le_value_range. 
  assert (i32 c <= c) by (unfold i32; pose proof (Z.mod_le (c + two31) two32 ltac:(word_lia) ltac:(done)); lia).
  specialize (Hr 192%nat (Z.to_nat (i32 c))). unfold read_at in Hr. apply Hr. lia.
Qed.
End HC_laws.

Lemma hc_round_trip_witness :
  exists data' m', SerializeToHC (mkRaw (bytes_of "hello") 7) (zeros 200) 200 = Some data' /\ length data' = 200%nat /\
    ParseFromHC data' 200 (mkRaw [] 0) = Some m' /\ message m' = bytes_of "hello" /\
    msg_type (header_at data') = Raw_TypeName /\ content_size (header_at data') = 5.
Proof.
  destruct (hc_round_trip (mkRaw (bytes_of "hello") 7) (mkRaw [] 0) (zeros 200) 200) as [H _]; [reflexivity|done..|].
  destruct (H ltac:(by vm_compute)) as (data' & m' & H1 & H2 & H3 & H4 & H5 & H6). exists data', m'.
  by rewrite H1, H2, H3, H4, H5, H6.
Defined.

Lemma ParseFromHC_in_bounds_witness :
  ParseFromHC (header_bytes (set_content_size 9 MessageHeader_new) ++ bytes_of "short") 197 (mkRaw [] 0) = None.
Proof.
  apply (ParseFromHC_in_bounds (mkRaw [] 0) (header_bytes (set_content_size 9 MessageHeader_new) ++ bytes_of "short")
    (header_bytes (set_content_size 9 MessageHeader_new) ++ bytes_of "short") 197); [reflexivity|by vm_compute].
Defined.
