(* ===== verification/MessageInfo.v ===== *)
(** * Message and block information: transport/common/identity.cc, transport/message/message_info.cc,
    transport/shm/readable_info.cc

    What accompanies a message between processes, and the notice that a block of shared memory
    is ready.  Both are fixed-size encodings ([WireFormat]); [Hash] is [std::hash] of a string. *)

From Stdlib Require Import ZArith Lia Strings.Byte.
From stdpp Require Import base numbers list.
From S2P Require Import Prelude Bytes.

(** ** Identities *)
Definition ID_SIZE : nat := 8.

Record Identity := mkId { id_data : bytes; hash_value_ : Z }.

Section Info.
Context (Hash : bytes -> Z).

Definition Update (i : Identity) : Identity := mkId (id_data i) (Hash (id_data i)).

(** [Identity(need_generate)]; [uuid] is what [uuid_generate] wrote. *)
Definition Identity_new (need_generate : bool) (uuid : bytes) : Identity :=
  let i := mkId (replicate ID_SIZE Byte.x00) 0 in
  if need_generate then Update (mkId (take ID_SIZE uuid) (hash_value_ i)) else i.

Definition Identity_eqb (a b : Identity) : bool := bool_decide (id_data a = id_data b).
Definition HashValue (i : Identity) : Z := hash_value_ i.

(** [set_data(data)] copies [ID_SIZE] bytes; [None] is the null pointer. *)
Definition set_data (i : Identity) (data : option bytes) : Identity :=
  match data with
  | None => i
  | Some d => Update (mkId (take ID_SIZE d) (hash_value_ i))
  end.

(** ** Message information *)
Record MessageInfo := mkInfo { sender_id_ : Identity; channel_id_ : Z; seq_num_ : Z; spare_id_ : Identity }.

Definition MessageInfo_kSize : nat := 2 * ID_SIZE + 8.

Definition MessageInfo_default : MessageInfo := mkInfo (Identity_new false []) 0 0 (Identity_new false []).
Definition MessageInfo_new (sender_id : Identity) (seq_num : Z) (spare_id : Identity) : MessageInfo :=
  mkInfo sender_id 0 seq_num spare_id.

Definition MessageInfo_eqb (a b : MessageInfo) : bool :=
  Identity_eqb (sender_id_ a) (sender_id_ b) && (channel_id_ a =? channel_id_ b) &&
  (seq_num_ a =? seq_num_ b) && Identity_eqb (spare_id_ a) (spare_id_ b).

(** [SerializeTo] a string. *)
Definition Info_SerializeTo (i : MessageInfo) : bytes :=
  id_data (sender_id_ i) ++ le_bytes 8 (seq_num_ i) ++ id_data (spare_id_ i).

(** [SerializeTo] a buffer of [len] bytes: the buffer afterwards, [None] for [false]. *)
Definition Info_SerializeTo_buffer (i : MessageInfo) (dst : option bytes) (len : Z) : option bytes :=
  match dst with
  | None => None
  | Some dst =>
      if len <? Z.of_nat MessageInfo_kSize then None
      else
        dst ← memcpy dst 0 (id_data (sender_id_ i));
        dst ← memcpy dst ID_SIZE (le_bytes 8 (seq_num_ i));
        memcpy dst (ID_SIZE + 8) (id_data (spare_id_ i))
  end.

(** [DeserializeFrom]: the object afterwards, [None] for [false]; [len] is the length of [src]. *)
Definition Info_DeserializeFrom (i : MessageInfo) (src : bytes) : option MessageInfo :=
  if decide (length src <> MessageInfo_kSize) then None
  else Some (mkInfo (set_data (sender_id_ i) (Some src)) (channel_id_ i)
               (le_value (read_at src ID_SIZE 8)) (set_data (spare_id_ i) (Some (drop (ID_SIZE + 8) src)))).

(** ** Readable blocks *)
Record ReadableInfo := mkReadable { host_id_ : Z; block_index_ : Z; readable_channel_id_ : Z }.

Definition ReadableInfo_kSize : nat := 8 * 2 + 4.
Definition ReadableInfo_default : ReadableInfo := mkReadable 0 0 0.

Definition Readable_SerializeTo (r : ReadableInfo) : bytes :=
  le_bytes 8 (host_id_ r) ++ le_bytes 4 (block_index_ r) ++ le_bytes 8 (readable_channel_id_ r).

Definition Readable_DeserializeFrom (r : ReadableInfo) (src : bytes) : option ReadableInfo :=
  if decide (length src <> ReadableInfo_kSize) then None
  else Some (mkReadable (le_value (read_at src 0 8)) (le_value (read_at src 8 4)) (le_value (read_at src 12 8))).

(** ** Both are wire formats *)
Definition readable_valid (r : ReadableInfo) : Prop :=
  0 <= host_id_ r < two64 /\ 0 <= block_index_ r < two32 /\ 0 <= readable_channel_id_ r < two64.

Definition info_valid (i : MessageInfo) : Prop :=
  length (id_data (sender_id_ i)) = ID_SIZE /\ 0 <= seq_num_ i < two64 /\ length (id_data (spare_id_ i)) = ID_SIZE.

(** The info that a reader whose object was [j] has after it received [i]: the members that are encoded, with
    the hashes computed from the bytes; [channel_id_] is not encoded and stays that of [j]. *)
Definition received (j i : MessageInfo) : MessageInfo := mkInfo (Update (sender_id_ i)) (channel_id_ j) (seq_num_ i) (Update (spare_id_ i)).
Definition info_same (a b : MessageInfo) : Prop := a = received a b.

(** An info as the transport makes them, with identities that are hashed and no channel, is received as it is. *)
Definition plain_info (i : MessageInfo) : Prop :=
  channel_id_ i = 0 /\ HashValue (sender_id_ i) = Hash (id_data (sender_id_ i)) /\ HashValue (spare_id_ i) = Hash (id_data (spare_id_ i)).
Lemma received_plain i : plain_info i -> received MessageInfo_default i = i.
Proof. destruct i as [[] ? ? []]. intros (H1 & H2 & H3). cbn in *. unfold received, Update. cbn. by rewrite H1, <- H2, <- H3. Qed.

Lemma read_split_3 (a b c : bytes) :
  read_at (a ++ b ++ c) 0 (length a) = a /\ read_at (a ++ b ++ c) (length a) (length b) = b /\
  read_at (a ++ b ++ c) (length a + length b) (length c) = c.
Proof.
  unfold read_at. split; [by rewrite drop_0, take_app_length|]. split.
  - by rewrite drop_app_length, take_app_length.
  - rewrite <- drop_drop, !drop_app_length. apply firstn_all.
Qed.

Lemma le_value_8 x : 0 <= x < two64 -> le_value (le_bytes 8 x) = x.
Proof. intros. rewrite le_value_bytes. by apply Z.mod_small. Qed.
Lemma le_value_4 x : 0 <= x < two32 -> le_value (le_bytes 4 x) = x.
Proof. intros. rewrite le_value_bytes. by apply Z.mod_small. Qed.

(** Reading [k] bytes as an integer and writing it back. *)
Lemma le_bytes_read b off k : (off + k <= length b)%nat -> le_bytes k (le_value (read_at b off k)) = read_at b off k.
Proof.
  intros Hl. rewrite <- (le_bytes_value (read_at b off k)) at 2. f_equal.
  unfold read_at. rewrite length_take, length_drop. lia.
Qed.

Lemma read_range b off k : 0 <= le_value (read_at b off k) < 256 ^ Z.of_nat k.
Proof.
  pose proof (le_value_range (read_at b off k)) as H. assert (length (read_at b off k) <= k)%nat.
  { unfold read_at. rewrite length_take. lia. }
  assert (256 ^ Z.of_nat (length (read_at b off k)) <= 256 ^ Z.of_nat k) by (apply Z.pow_le_mono_r; lia). lia.
Qed.

Lemma read_concat (b : bytes) i j : read_at b 0 i ++ read_at b i j = read_at b 0 (i + j).
Proof. unfold read_at. rewrite !drop_0. apply take_take_drop. Qed.

Lemma read_all (b : bytes) : read_at b 0 (length b) = b.
Proof. unfold read_at. rewrite drop_0. apply firstn_all. Qed.

#[refine, export] Instance ReadableInfo_wire : WireFormat ReadableInfo := {|
  wf_size := ReadableInfo_kSize; wf_encode := Readable_SerializeTo; wf_decode := Readable_DeserializeFrom;
  wf_valid := readable_valid; wf_same := eq |}.
Proof.
  - intros x _. unfold Readable_SerializeTo. by rewrite !length_app, !length_le_bytes.
  - intros [h i c] y (Hh & Hi & Hc) _. cbn [host_id_ block_index_ readable_channel_id_] in *. unfold Readable_DeserializeFrom.
    assert (Hl : length (Readable_SerializeTo (mkReadable h i c)) = ReadableInfo_kSize).
    { unfold Readable_SerializeTo. by rewrite !length_app, !length_le_bytes. }
    rewrite decide_False by (intros Hn; by apply Hn). unfold Readable_SerializeTo. cbn [host_id_ block_index_ readable_channel_id_].
    destruct (read_split_3 (le_bytes 8 h) (le_bytes 4 i) (le_bytes 8 c)) as (H1 & H2 & H3).
    rewrite ?length_le_bytes in H1; rewrite ?length_le_bytes in H2; rewrite ?length_le_bytes in H3. cbn [Nat.add] in H3.
    rewrite H1, H2, H3, !le_value_8, le_value_4 by done. eexists. split; [done|]. split; [|done]. by unfold readable_valid.
  - intros y b Hl. unfold Readable_DeserializeFrom. by rewrite decide_True.
  - intros y b _ Hl. unfold Readable_DeserializeFrom. rewrite decide_False by (intros Hn; by apply Hn).
    eexists. split; [done|]. split; [exact (conj (read_range b 0 8) (conj (read_range b 8 4) (read_range b 12 8)))|]. unfold Readable_SerializeTo, ReadableInfo_kSize in *.
    cbn [host_id_ block_index_ readable_channel_id_]. rewrite !le_bytes_read by lia.
    rewrite app_assoc, !read_concat. pose proof (read_all b) as Hb. rewrite Hl in Hb. exact Hb.
Defined.

#[refine, export] Instance MessageInfo_wire : WireFormat MessageInfo := {|
  wf_size := MessageInfo_kSize; wf_encode := Info_SerializeTo; wf_decode := Info_DeserializeFrom;
  wf_valid := info_valid; wf_same := info_same |}.
Proof.
  - intros x (H1 & _ & H2). unfold Info_SerializeTo. by rewrite !length_app, H1, H2, length_le_bytes.
  - intros x y (H1 & Hs & H2) _. unfold Info_DeserializeFrom.
    assert (Hl : length (Info_SerializeTo x) = MessageInfo_kSize).
    { unfold Info_SerializeTo. by rewrite !length_app, H1, H2, length_le_bytes. }
    rewrite decide_False by (intros Hn; by apply Hn). unfold Info_SerializeTo.
    destruct (read_split_3 (id_data (sender_id_ x)) (le_bytes 8 (seq_num_ x)) (id_data (spare_id_ x))) as (R1 & R2 & R3).
    unfold read_at in R1. rewrite drop_0 in R1. rewrite H1 in R1; rewrite ?length_le_bytes, H1 in R2; rewrite ?length_le_bytes, H1, H2 in R3. unfold read_at in R3.
    eexists. split; [done|]. unfold info_valid, info_same, received, Update. cbn [sender_id_ seq_num_ spare_id_ channel_id_ set_data Update id_data HashValue hash_value_].
    rewrite R1, R2, R3, le_value_8 by done. done.
  - intros y b Hl. unfold Info_DeserializeFrom. by rewrite decide_True.
  - intros y b _ Hl. unfold Info_DeserializeFrom. rewrite decide_False by (intros Hn; by apply Hn).
    eexists. split; [done|]. unfold info_valid, Info_SerializeTo, MessageInfo_kSize in *.
    cbn [sender_id_ seq_num_ spare_id_ set_data Update id_data]. unfold ID_SIZE in *.
    rewrite !length_take, length_drop, le_bytes_read by lia. split; [split; [lia|split; [apply (read_range b 8 8)|lia]]|].
    change (take 8 (drop (8 + 8) b)) with (read_at b (8 + 8) 8). change (take 8 b) with (read_at b 0 8).
    rewrite app_assoc, !read_concat. pose proof (read_all b) as Hb. rewrite Hl in Hb. exact Hb.
Defined.
End Info.

Section Laws.
Context (Hash : bytes -> Z).

Lemma Info_buffer_eq i dst len :
  info_valid i -> Z.of_nat MessageInfo_kSize <= len <= Z.of_nat (length dst) ->
  Info_SerializeTo_buffer i (Some dst) len = Some (Info_SerializeTo i ++ drop MessageInfo_kSize dst).
Proof.
  intros (H1 & _ & H2) Hl. unfold Info_SerializeTo_buffer. destruct (Z.ltb_spec len (Z.of_nat MessageInfo_kSize)); [lia|].
  unfold MessageInfo_kSize, ID_SIZE, Info_SerializeTo in *.
  pose proof (length_le_bytes 8 (seq_num_ i)) as H3. set (q := le_bytes 8 (seq_num_ i)) in *. clearbody q.
  rewrite (memcpy_append [] dst) by (cbn; lia). cbn [mbind option_bind app].
  rewrite memcpy_append by (rewrite ?length_drop; lia). cbn [mbind option_bind].
  rewrite memcpy_append by (rewrite ?length_app, ?length_drop; lia). rewrite !drop_drop, H1, H2, H3.
  by rewrite <- !app_assoc.
Qed.

(** What accompanies a message and the notice of a readable block survive the wire: a message
    info written to a string or to the front of a buffer is read back with sender, sequence
    number and spare id, their hashes recomputed, leaving the channel id of the reader; a buffer
    shorter than the encoding is refused; a readable info is read back whole; input of any other
    length is refused. *)
Theorem transport_info_round_trip i j dst len r r0 src :
  info_valid i -> readable_valid r -> len <= Z.of_nat (length dst) ->
  (if len <? Z.of_nat MessageInfo_kSize then Info_SerializeTo_buffer i (Some dst) len = None
   else Info_SerializeTo_buffer i (Some dst) len = Some (Info_SerializeTo i ++ drop MessageInfo_kSize dst)) /\
  (exists k, Info_DeserializeFrom Hash j (Info_SerializeTo i) = Some k /\ info_same Hash k i /\ channel_id_ k = channel_id_ j) /\
  Readable_DeserializeFrom r0 (Readable_SerializeTo r) = Some r /\
  (length src <> MessageInfo_kSize -> Info_DeserializeFrom Hash j src = None) /\
  (length src <> ReadableInfo_kSize -> Readable_DeserializeFrom r0 src = None).
Proof.
  intros Hi Hr Hl. split.
  { destruct (Z.ltb_spec len (Z.of_nat MessageInfo_kSize)) as [Hs|]; [|by apply Info_buffer_eq].
    unfold Info_SerializeTo_buffer. by destruct (Z.ltb_spec len (Z.of_nat MessageInfo_kSize)); [|lia]. }
  split.
  { destruct (@wf_round_trip _ (MessageInfo_wire Hash) i i Hi Hi) as (k & Hk & _ & Hs). cbn in Hk. unfold Info_DeserializeFrom in *.
    case_decide; [done|]. injection Hk as <-. eexists. split; [done|]. split; [|done].
    unfold info_same, received, set_data, Update in *. cbn in *. injection Hs as H1 _ H2 H3 _. by rewrite H1, H2, H3. }
  split.
  { destruct (@wf_round_trip _ ReadableInfo_wire r r Hr Hr) as (k & Hk & _ & Hs). cbn in Hk, Hs. by subst. }
  split; intros Hn; [exact (@wf_reject _ (MessageInfo_wire Hash) j src Hn)|exact (@wf_reject _ ReadableInfo_wire r0 src Hn)].
Qed.

End Laws.

Lemma transport_info_round_trip_witness :
  Readable_DeserializeFrom ReadableInfo_default (Readable_SerializeTo (mkReadable 77 513 (two64 - 1))) = Some (mkReadable 77 513 (two64 - 1)).
Proof.
  apply (transport_info_round_trip (fun _ => 5) (MessageInfo_default (fun _ => 5)) (MessageInfo_default (fun _ => 5)) [] 0
    (mkReadable 77 513 (two64 - 1)) ReadableInfo_default []).
  - by vm_compute.
  - by vm_compute.
  - done.
Defined.
