(* ===== verification/History.v ===== *)
(** * History of a transmitter: transport/message/history.h, history_attributes.h

    The last messages of a writer, kept for readers that join later.  [max_history_depth] is the
    limit of the configuration, when it has one. *)

From Stdlib Require Import ZArith Lia.
From stdpp Require Import base list.
From S2P Require Import Prelude Role.

Record HistoryAttributes := mkHistoryAttr { history_policy : QosHistoryPolicy; attr_depth : Z }.
Definition HistoryAttributes_default : HistoryAttributes := mkHistoryAttr HISTORY_KEEP_LAST 1000.

Section History.
Context {A : Type}.

Record History := mkHistory { enabled_ : bool; depth_ : Z; max_depth_ : Z; msgs_ : list A }.

(** The constructor. *)
Definition History_new (max_history_depth : option Z) (attr : HistoryAttributes) : History :=
  let max_depth := default 1000 max_history_depth in
  let depth :=
    if decide (history_policy attr = HISTORY_KEEP_ALL) then max_depth
    else if max_depth <? attr_depth attr then max_depth else attr_depth attr in
  mkHistory false depth max_depth [].

Definition set_enabled (b : bool) (h : History) : History := mkHistory b (depth_ h) (max_depth_ h) (msgs_ h).

(** [while (msgs_.size() > depth_) msgs_.pop_front();] *)
Fixpoint pop_while (depth : Z) (msgs : list A) : list A :=
  match msgs with
  | [] => []
  | m :: rest => if depth <? Z.of_nat (length msgs) then pop_while depth rest else msgs
  end.

Definition Add (h : History) (m : A) : History :=
  if negb (enabled_ h) then h
  else mkHistory (enabled_ h) (depth_ h) (max_depth_ h) (pop_while (depth_ h) (msgs_ h ++ [m])).
Definition Clear (h : History) : History := mkHistory (enabled_ h) (depth_ h) (max_depth_ h) [].

(** [GetCachedMessage(msgs)]: the vector afterwards; [None] is a null pointer. *)
Definition GetCachedMessage (h : History) (msgs : option (list A)) : option (list A) := (fun l => msgs_ h ++ l) <$> msgs.
Definition GetSize (h : History) : nat := length (msgs_ h).

(** The last [n] elements. *)
Definition lastn (n : nat) (l : list A) : list A := drop (length l - n) l.

Lemma pop_while_eq depth l : 0 <= depth -> pop_while depth l = lastn (Z.to_nat depth) l.
Proof.
  intros Hd. induction l as [|m l IH]; [done|]. cbn [pop_while]. unfold lastn in *.
  destruct (Z.ltb_spec depth (Z.of_nat (length (m :: l)))) as [Hlt|Hge]; cbn [length] in *.
  - rewrite IH. replace (S (length l) - Z.to_nat depth)%nat with (S (length l - Z.to_nat depth)) by lia. done.
  - replace (S (length l) - Z.to_nat depth)%nat with 0%nat by lia. done.
Qed.

Lemma lastn_snoc n l m : lastn n (lastn n l ++ [m]) = lastn n (l ++ [m]).
Proof.
  unfold lastn. rewrite !length_app, length_drop. cbn [length].
  destruct (decide (length l <= n)%nat) as [Hle|Hgt].
  - replace (length l - n)%nat with 0%nat by lia. cbn [drop]. by replace (length l - 0 + 1 - n)%nat with (length l + 1 - n)%nat by lia.
  - replace (length l - (length l - n) + 1 - n)%nat with 1%nat by lia.
    rewrite <- (drop_app_le l [m] (length l - n)) by lia. rewrite drop_drop. f_equal. lia.
Qed.

Inductive history_op := HAdd (m : A) | HClear | HEnable | HDisable.
Definition history_step (h : History) (o : history_op) : History :=
  match o with HAdd m => Add h m | HClear => Clear h | HEnable => set_enabled true h | HDisable => set_enabled false h end.

(** The unbounded log: whether it records, and what it recorded since it was cleared. *)
Definition log_step (s : bool * list A) (o : history_op) : bool * list A :=
  match o with
  | HAdd m => (s.1, if s.1 then s.2 ++ [m] else s.2)
  | HClear => (s.1, [])
  | HEnable => (true, s.2)
  | HDisable => (false, s.2)
  end.

Lemma history_log h s o :
  0 <= depth_ h -> enabled_ h = s.1 -> msgs_ h = lastn (Z.to_nat (depth_ h)) s.2 ->
  enabled_ (history_step h o) = (log_step s o).1 /\ msgs_ (history_step h o) = lastn (Z.to_nat (depth_ h)) (log_step s o).2 /\
  depth_ (history_step h o) = depth_ h.
Proof.
  intros Hd He Hm. destruct o as [m| | |]; cbn; try done. unfold Add. rewrite He. destruct s.1; cbn; [|done].
  split; [done|]. split; [|done]. rewrite pop_while_eq, Hm by done. apply lastn_snoc.
Qed.

(** Over any sequence of additions, clears and switches, a history holds the newest messages that
    were added while it was on, since it was last cleared, oldest first and at most as many as its
    depth, which is the configured limit for [KEEP_ALL] and never above it. *)
Theorem history_keeps_newest limit attr ops :
  0 <= attr_depth attr -> 0 <= default 1000 limit ->
  let h := foldl history_step (History_new limit attr) ops in
  let log := (foldl log_step (false, []) ops).2 in
  GetCachedMessage h (Some []) = Some (lastn (Z.to_nat (depth_ h)) log) /\
  Z.of_nat (GetSize h) = Z.min (Z.of_nat (length log)) (depth_ h) /\
  depth_ h = (if decide (history_policy attr = HISTORY_KEEP_ALL) then default 1000 limit else Z.min (attr_depth attr) (default 1000 limit)).
Proof.
  intros Ha Hl. cbv zeta. set (h0 := History_new limit attr).
  assert (Hd0 : depth_ h0 = if decide (history_policy attr = HISTORY_KEEP_ALL) then default 1000 limit else Z.min (attr_depth attr) (default 1000 limit)).
  { unfold h0, History_new. cbn [depth_]. case_decide; [done|]. destruct (Z.ltb_spec (default 1000 limit) (attr_depth attr)); lia. }
  assert (Hpos : 0 <= depth_ h0) by (rewrite Hd0; case_decide; lia). rewrite <- Hd0.
  assert (H : enabled_ (foldl history_step h0 ops) = (foldl log_step (false, []) ops).1 /\
    msgs_ (foldl history_step h0 ops) = lastn (Z.to_nat (depth_ h0)) (foldl log_step (false, []) ops).2 /\ depth_ (foldl history_step h0 ops) = depth_ h0).
  { induction ops as [|o ops IH] using rev_ind; [done|]. rewrite !foldl_app. cbn [foldl]. destruct IH as (H1 & H2 & H3).
    destruct (history_log (foldl history_step h0 ops) (foldl log_step (false, []) ops) o) as (E1 & E2 & E3); [by rewrite H3|done|by rewrite H3|].
    split; [done|]. rewrite H3 in *. by rewrite E2, E3. }
  destruct H as (_ & Hm & ->). unfold GetCachedMessage, GetSize. cbn [fmap option_fmap option_map]. rewrite app_nil_r, Hm. split; [done|]. split; [|done].
  unfold lastn. rewrite length_drop. lia.
Qed.
End History.

Lemma history_keeps_newest_witness :
  GetCachedMessage (foldl history_step (History_new None (mkHistoryAttr HISTORY_KEEP_LAST 2))
    [HAdd 1; HEnable; HAdd 2; HClear; HAdd 3; HAdd 4; HAdd 5]) (Some []) = Some [4; 5].
Proof.
  destruct (history_keeps_newest None (mkHistoryAttr HISTORY_KEEP_LAST 2)
    [HAdd 1; HEnable; HAdd 2; HClear; HAdd 3; HAdd 4; HAdd 5]) as [-> _]; [cbn; lia|cbn; lia|reflexivity].
Defined.
