(* ===== verification/ListenerHandler.v ===== *)
(** * Listener handlers and dispatchers: transport/message/listener_handler.h, transport/dispatcher/dispatcher.h

    A handler of a channel keeps one signal for listeners that take every message and one signal
    per sender for listeners that take the messages of that sender; the connections are kept under
    the listeners' ids.  A dispatcher keeps a handler per channel.  Listeners are numbers, as in
    Signal; here they do not call back into the handler, whose write lock they would need. *)

From Stdlib Require Import ZArith Lia Strings.Byte.
From stdpp Require Import base gmap sets list.
From S2P Require Import Prelude Signal Bytes MessageHeader MessageInfo.

Section ListenerHandler.
Context {M : Type}.

Abbreviation MessageSignal := (@Signal (M * MessageInfo)) (only parsing).
Abbreviation ConnectionMap := (gmap Z Connection) (only parsing).

Record ListenerHandler := mkHandler {
  signal_ : MessageSignal;
  signal_conns_ : ConnectionMap;
  signals_ : gmap Z MessageSignal;
  signals_conns_ : gmap Z ConnectionMap
}.

Definition Handler_new : ListenerHandler := mkHandler Signal_new ∅ ∅ ∅.

(** [Connect(self_id, listener)] *)
Definition Connect_self (h : ListenerHandler) (self_id : Z) (listener : nat) : ListenerHandler :=
  let '(connection, s) := Signal.Connect (signal_ h) (Some listener) in
  if negb (IsConnected s connection) then mkHandler s (signal_conns_ h) (signals_ h) (signals_conns_ h)
  else mkHandler s (<[self_id := connection]> (signal_conns_ h)) (signals_ h) (signals_conns_ h).

(** [Connect(self_id, oppo_id, listener)] *)
Definition Connect_oppo (h : ListenerHandler) (self_id oppo_id : Z) (listener : nat) : ListenerHandler :=
  let sigs := if signals_ h !! oppo_id is None then <[oppo_id := Signal_new]> (signals_ h) else signals_ h in
  let '(connection, s) := Signal.Connect (default Signal_new (sigs !! oppo_id)) (Some listener) in
  let sigs := <[oppo_id := s]> sigs in
  if negb (IsConnected s connection) then mkHandler (signal_ h) (signal_conns_ h) sigs (signals_conns_ h)
  else
    let conns := if signals_conns_ h !! oppo_id is None then <[oppo_id := ∅]> (signals_conns_ h) else signals_conns_ h in
    mkHandler (signal_ h) (signal_conns_ h) sigs (<[oppo_id := <[self_id := connection]> (default ∅ (conns !! oppo_id))]> conns).

(** [Disconnect(self_id)] *)
Definition Disconnect_self (h : ListenerHandler) (self_id : Z) : ListenerHandler :=
  match signal_conns_ h !! self_id with
  | None => h
  | Some connection =>
      mkHandler (Connection_Disconnect (signal_ h) connection).2 (delete self_id (signal_conns_ h)) (signals_ h) (signals_conns_ h)
  end.

(** [Disconnect(self_id, oppo_id)]; the connections under [oppo_id] are to its signal. *)
Definition Disconnect_oppo (h : ListenerHandler) (self_id oppo_id : Z) : ListenerHandler :=
  match signals_conns_ h !! oppo_id with
  | None => h
  | Some conns =>
      match conns !! self_id with
      | None => h
      | Some connection =>
          mkHandler (signal_ h) (signal_conns_ h)
            (alter (fun s => (Connection_Disconnect s connection).2) oppo_id (signals_ h))
            (<[oppo_id := delete self_id conns]> (signals_conns_ h))
      end
  end.

(** An emission and the listeners it calls, in order. *)
Definition emit (s : MessageSignal) (args : M * MessageInfo) : list nat * MessageSignal :=
  let s' := Emit (fun _ _ => []) s args in
  (omap (fun c => heap s !! c.1 ≫= cb_) (drop (length (calls s)) (calls s')), s').

(** [Run(msg, msg_info)]: the listeners called and the handler afterwards. *)
Definition Run (h : ListenerHandler) (msg : M) (msg_info : MessageInfo) : list nat * ListenerHandler :=
  let '(called, s) := emit (signal_ h) (msg, msg_info) in
  let h := mkHandler s (signal_conns_ h) (signals_ h) (signals_conns_ h) in
  let oppo_id := HashValue (sender_id_ msg_info) in
  match signals_ h !! oppo_id with
  | None => (called, h)
  | Some s' =>
      let '(called', s') := emit s' (msg, msg_info) in
      (called ++ called', mkHandler (signal_ h) (signal_conns_ h) (<[oppo_id := s']> (signals_ h)) (signals_conns_ h))
  end.

(** ** What a signal and its connections say *)

(** [l] lists the ids and listeners in the order they were connected. *)
Record wired (s : MessageSignal) (conns : ConnectionMap) (l : list (Z * nat)) : Prop := {
  wi_ok : signal_ok s;
  wi_slots : Forall2 (fun i e => heap s !! i = Some (mkSlot (Some e.2) true) /\ conns !! e.1 = Some (mkConn (Some i) true)) (slots_ s) l;
  wi_keys : forall k, is_Some (conns !! k) <-> k ∈ l.*1
}.

Lemma wired_new : wired Signal_new ∅ [].
Proof.
  split; [apply signal_new_ok|constructor|]. intros k. rewrite lookup_empty. split; [by intros [? ?]|set_solver].
Qed.

Lemma signal_fresh (s : MessageSignal) i : signal_ok s -> i ∈ slots_ s -> i <> fresh s.
Proof.
  intros Hok Hi ->. apply (so_conn _ Hok) in Hi. unfold is_connected in Hi.
  destruct (heap s !! fresh s) eqn:He; [|done]. pose proof (so_fresh _ Hok (fresh s) ltac:(by rewrite He)). lia.
Qed.

Lemma wired_connect s conns l k cb :
  wired s conns l -> k ∉ l.*1 ->
  let '(c, s') := Signal.Connect s (Some cb) in
  IsConnected s' c = true /\ wired s' (<[k := c]> conns) (l ++ [(k, cb)]).
Proof.
  intros [Hok Hs Hk] Hnk. cbn. split; [unfold IsConnected, is_connected; cbn; by rewrite lookup_insert_eq|].
  split; [exact (Connect_ok s (Some cb) Hok)| |].
  - cbn. apply Forall2_app.
    + apply Forall2_same_length_lookup_2; [by eapply Forall2_length|]. intros j i e Hi He.
      destruct (Forall2_lookup_lr _ _ _ _ _ _ Hs Hi He) as [H1 H2].
      rewrite lookup_insert_ne; [|intros <-; apply (signal_fresh s (fresh s) Hok); [by eapply list_elem_of_lookup_2|done]].
      rewrite lookup_insert_ne; [done|]. intros ->. apply Hnk. apply list_elem_of_fmap. exists e. split; [done|by eapply list_elem_of_lookup_2].
    + constructor; [|constructor]. cbn. by rewrite !lookup_insert_eq.
  - intros x. rewrite fmap_app, elem_of_app. cbn. rewrite list_elem_of_singleton, <- Hk.
    destruct (decide (x = k)) as [->|]; [rewrite lookup_insert_eq; naive_solver|]. rewrite lookup_insert_ne by done. naive_solver.
Qed.

Lemma HasSlot_single i j : HasSlot (mkConn (Some i) true) j = bool_decide (i = j).
Proof. done. Qed.

(** Disconnecting a slot of the signal removes it and leaves the others. *)
Lemma disconnect_slots (s : MessageSignal) i :
  signal_ok s -> i ∈ slots_ s ->
  let s' := (Connection_Disconnect s (mkConn (Some i) true)).2 in
  slots_ s' = filter (fun j => j <> i) (slots_ s) /\ forall j, j <> i -> heap s' !! j = heap s !! j.
Proof.
  intros Hok Hi. cbv zeta. unfold Connection_Disconnect. cbn [Signal.signal_ slot_ andb]. rewrite bool_decide_true by eauto.
  unfold Disconnect. rewrite disconnect_loop_spec.
  assert (Hf : filter (fun j => HasSlot (mkConn (Some i) true) j = true) (slots_ s) = [i]).
  { assert (Hn : NoDup (slots_ s)) by apply Hok. clear Hok. induction (slots_ s) as [|j l IH]; [set_solver|].
    apply NoDup_cons in Hn as [Hj Hn]. rewrite filter_cons, HasSlot_single. destruct (decide (i = j)) as [->|Hne].
    - rewrite bool_decide_true, decide_True by done. f_equal. apply filter_none. apply not_true_iff_false. rewrite existsb_exists.
      intros (x & Hx & Hh). rewrite HasSlot_single in Hh. apply bool_decide_eq_true in Hh. subst. by apply Hj, list_elem_of_In.
    - rewrite bool_decide_false, decide_False by done. apply IH; set_solver. }
  assert (Hex : existsb (HasSlot (mkConn (Some i) true)) (slots_ s) = true).
  { apply existsb_exists. exists i. split; [by apply list_elem_of_In|]. rewrite HasSlot_single. by apply bool_decide_true. }
  rewrite Hf, Hex. cbn [foldl snd ClearDisconnectedSlots slots_ heap]. split; [|intros j Hj; cbn; by rewrite lookup_alter_ne].
  apply filter_ext_elem. intros j Hj. rewrite is_connected_disconnect, andb_true_iff, bool_decide_eq_true.
  rewrite (so_conn _ Hok). cbn in Hj. naive_solver.
Qed.

Lemma Forall2_filter {A B} (R : A -> B -> Prop) (P : A -> Prop) (Q : B -> Prop)
    `{!forall x, Decision (P x), !forall x, Decision (Q x)} (l : list A) (k : list B) :
  Forall2 (fun x y => (P x -> R x y) /\ (P x <-> Q y)) l k -> Forall2 R (filter P l) (filter Q k).
Proof.
  induction 1 as [|x y l k [HR Hi] _ IH]; [constructor|]. rewrite !filter_cons.
  destruct (decide (P x)) as [Hp|Hp]; destruct (decide (Q y)) as [Hq|Hq]; try tauto. constructor; auto.
Qed.

Lemma wired_disconnect s conns l k c :
  wired s conns l -> conns !! k = Some c ->
  wired (Connection_Disconnect s c).2 (delete k conns) (filter (fun e => e.1 <> k) l).
Proof.
  intros [Hok Hs Hk] Hc. assert (Hkl : k ∈ l.*1) by (apply Hk; by rewrite Hc).
  apply list_elem_of_fmap in Hkl as (e & -> & He). apply list_elem_of_lookup in He as [j He].
  destruct (Forall2_lookup_r _ _ _ _ _ Hs He) as (i & Hi & H1 & H2). rewrite Hc in H2. simplify_eq.
  pose proof (list_elem_of_lookup_2 _ _ _ Hi) as Hin. destruct (disconnect_slots s i Hok Hin) as [Hsl Hh].
  split.
  - exact (act_ok s (ActDisconnect (mkConn (Some i) true)) Hok).
  - rewrite Hsl. apply Forall2_filter. apply Forall2_same_length_lookup_2; [by eapply Forall2_length|].
    intros p x y Hx Hy. destruct (Forall2_lookup_lr _ _ _ _ _ _ Hs Hx Hy) as [A1 A2].
    assert (Hiff : x <> i <-> y.1 <> e.1).
    { split; intros Hne Heq; apply Hne; [congruence|]. subst x.
      assert (p = j) as -> by (by eapply NoDup_lookup; [apply (so_nodup _ Hok)|..]). congruence. }
    split; [|done]. intros Hne. rewrite Hh by done. rewrite lookup_delete_ne; [done|]. apply Hiff in Hne. congruence.
  - intros x. rewrite list_elem_of_fmap. destruct (decide (x = e.1)) as [->|Hne].
    + rewrite lookup_delete_eq. split; [by intros [? ?]|]. intros (y & Hy & [Hn _]%list_elem_of_filter). congruence.
    + rewrite lookup_delete_ne by done. rewrite Hk, list_elem_of_fmap. setoid_rewrite list_elem_of_filter. naive_solver.
Qed.

(** An emission calls every listener once, in order, and changes neither slots nor connections. *)
Lemma quiet_loop (s : MessageSignal) args l :
  (forall i, i ∈ l -> callable s i = true) ->
  let s' := foldl (Slot_call (fun _ _ => []) args) s l in
  heap s' = heap s /\ fresh s' = fresh s /\ slots_ s' = slots_ s /\ calls s' = calls s ++ ((fun i => (i, args)) <$> l).
Proof.
  cbv zeta. revert s. induction l as [|i l IH]; intros s Hc; cbn [foldl fmap list_fmap]; [by rewrite app_nil_r|].
  assert (Hi : Slot_call (fun _ _ => []) args s i = mkSignal (heap s) (fresh s) (slots_ s) (calls s ++ [(i, args)])).
  { specialize (Hc i ltac:(set_solver)). unfold callable in Hc. unfold Slot_call. by destruct (heap s !! i) as [[[cb|] []]|]. }
  rewrite Hi. destruct (IH (mkSignal (heap s) (fresh s) (slots_ s) (calls s ++ [(i, args)]))) as (-> & -> & -> & ->).
  - intros j Hj. apply (Hc j). set_solver.
  - cbn. by rewrite <- app_assoc.
Qed.

Lemma wired_emit s conns l args :
  wired s conns l -> let '(called, s') := emit s args in called = l.*2 /\ wired s' conns l.
Proof.
  intros [Hok Hs Hk]. unfold emit, Emit.
  assert (Hcall : forall i, i ∈ slots_ s -> callable s i = true).
  { intros i [j Hj]%list_elem_of_lookup. destruct (Forall2_lookup_l _ _ _ _ _ Hs Hj) as (e & _ & He & _). unfold callable. by rewrite He. }
  destruct (quiet_loop s args (slots_ s) Hcall) as (Q1 & Q2 & Q3 & Q4). set (s1 := foldl _ s _) in *.
  assert (Hc : forall i, is_connected s1 i = is_connected s i) by (intros i; unfold is_connected; by rewrite Q1).
  assert (Hf : slots_ (ClearDisconnectedSlots s1) = slots_ s).
  { cbn. rewrite Q3. apply filter_id_elem. intros i Hi. by rewrite Hc, (so_conn _ Hok). }
  split.
  - cbn [ClearDisconnectedSlots calls]. rewrite Q4, drop_app_length. clear Q1 Q2 Q3 Q4 Hc Hf s1 Hcall Hk.
    induction Hs as [|i e ids l [He _] _ IH]; [done|]. cbn. rewrite He. cbn. by rewrite IH.
  - split.
    + destruct Hok as [O1 O2 O3]. split; rewrite ?Hf; auto.
      * intros i. change (is_connected s1 i = true <-> i ∈ slots_ s). rewrite Hc. apply O1.
      * cbn. rewrite Q1, Q2. apply O3.
    + rewrite Hf. cbn. by rewrite Q1.
    + done.
Qed.

(** ** The handler *)

(** What the handler stands for: listeners for all messages, and for those of each sender. *)
Record handler_ok (h : ListenerHandler) (all : list (Z * nat)) (per : gmap Z (list (Z * nat))) : Prop := {
  ho_all : wired (signal_ h) (signal_conns_ h) all;
  ho_of : forall o, wired (default Signal_new (signals_ h !! o)) (default ∅ (signals_conns_ h !! o)) (default [] (per !! o));
  ho_signals : forall o, signals_ h !! o = None -> signals_conns_ h !! o = None
}.

Inductive handler_op :=
| HConnect (self_id : Z) (listener : nat)
| HConnectOppo (self_id oppo_id : Z) (listener : nat)
| HDisconnect (self_id : Z)
| HDisconnectOppo (self_id oppo_id : Z)
| HRun (msg : M) (msg_info : MessageInfo).

Definition handler_step (h : ListenerHandler) (o : handler_op) : list nat * ListenerHandler :=
  match o with
  | HConnect self cb => ([], Connect_self h self cb)
  | HConnectOppo self oppo cb => ([], Connect_oppo h self oppo cb)
  | HDisconnect self => ([], Disconnect_self h self)
  | HDisconnectOppo self oppo => ([], Disconnect_oppo h self oppo)
  | HRun msg info => Run h msg info
  end.

(** The abstract handler: two registries of listeners. *)
Definition registry : Type := list (Z * nat) * gmap Z (list (Z * nat)).

Definition registry_empty : registry := ([], ∅).

Definition registry_step (r : registry) (o : handler_op) : list nat * registry :=
  let '(all, per) := r in
  match o with
  | HConnect self cb => ([], (all ++ [(self, cb)], per))
  | HConnectOppo self oppo cb => ([], (all, <[oppo := default [] (per !! oppo) ++ [(self, cb)]]> per))
  | HDisconnect self => ([], (filter (fun e => e.1 <> self) all, per))
  | HDisconnectOppo self oppo => ([], (all, <[oppo := filter (fun e => e.1 <> self) (default [] (per !! oppo))]> per))
  | HRun _ info => (all.*2 ++ (default [] (per !! HashValue (sender_id_ info))).*2, r)
  end.

(** An id is connected once at a time. *)
Definition op_ok (r : registry) (o : handler_op) : Prop :=
  match o with
  | HConnect self _ => self ∉ r.1.*1
  | HConnectOppo self oppo _ => self ∉ (default [] (r.2 !! oppo)).*1
  | _ => True
  end.

Lemma wired_skip s conns l k : wired s conns l -> conns !! k = None -> filter (fun e => e.1 <> k) l = l.
Proof.
  intros [_ _ Hk] Hn. apply filter_id_elem. intros e He Heq.
  assert (is_Some (conns !! k)) as [? ?]; [|congruence]. apply Hk, list_elem_of_fmap. by exists e.
Qed.

Lemma handler_connect_oppo h all per self oppo cb :
  handler_ok h all per -> self ∉ (default [] (per !! oppo)).*1 ->
  handler_ok (Connect_oppo h self oppo cb) all (<[oppo := default [] (per !! oppo) ++ [(self, cb)]]> per).
Proof.
  intros [Ha Ho Hs] Hn. unfold Connect_oppo.
  assert (default Signal_new ((if signals_ h !! oppo is None then <[oppo := Signal_new]> (signals_ h) else signals_ h) !! oppo) =
          default Signal_new (signals_ h !! oppo)) as ->.
  { destruct (signals_ h !! oppo) eqn:He; [by rewrite He|by rewrite lookup_insert_eq]. }
  assert (default ∅ ((if signals_conns_ h !! oppo is None then <[oppo := ∅]> (signals_conns_ h) else signals_conns_ h) !! oppo) =
          default ∅ (signals_conns_ h !! oppo)) as ->.
  { destruct (signals_conns_ h !! oppo) eqn:He; [by rewrite He|by rewrite lookup_insert_eq]. }
  pose proof (wired_connect _ _ _ self cb (Ho oppo) Hn) as Hw. destruct (Signal.Connect _ _) as [c s']. destruct Hw as [-> Hw].
  split; [done| |]; cbn [negb signals_ signals_conns_].
  - intros o. destruct (decide (o = oppo)) as [->|Hne]; [by rewrite !lookup_insert_eq|]. rewrite !lookup_insert_ne by done.
    destruct (signals_ h !! oppo) eqn:E1; destruct (signals_conns_ h !! oppo) eqn:E2; rewrite ?lookup_insert_ne by done; apply Ho.
  - intros o. destruct (decide (o = oppo)) as [->|Hne]; [by rewrite lookup_insert_eq|]. rewrite !lookup_insert_ne by done.
    destruct (signals_ h !! oppo) eqn:E1; destruct (signals_conns_ h !! oppo) eqn:E2; rewrite ?lookup_insert_ne by done; apply Hs.
Qed.

Lemma handler_disconnect_oppo h all per self oppo :
  handler_ok h all per ->
  handler_ok (Disconnect_oppo h self oppo) all (<[oppo := filter (fun e => e.1 <> self) (default [] (per !! oppo))]> per).
Proof.
  intros [Ha Ho Hs]. unfold Disconnect_oppo. pose proof (Ho oppo) as Hw.
  assert (Hsame : filter (fun e => e.1 <> self) (default [] (per !! oppo)) = default [] (per !! oppo) ->
    handler_ok h all (<[oppo := filter (fun e => e.1 <> self) (default [] (per !! oppo))]> per)).
  { intros ->. split; [done| |done]. intros o. destruct (decide (o = oppo)) as [->|]; [by rewrite lookup_insert_eq|by rewrite lookup_insert_ne]. }
  destruct (signals_conns_ h !! oppo) as [conns|] eqn:Hc; [|by eapply Hsame, wired_skip].
  cbn [default from_option id] in Hw. destruct (conns !! self) as [c|] eqn:Hself; [|by eapply Hsame, wired_skip].
  destruct (signals_ h !! oppo) as [s|] eqn:Hsig; [|by apply Hs in Hsig; congruence]. cbn [default from_option id] in Hw.
  split; [done| |]; cbn [signals_ signals_conns_].
  - intros o. destruct (decide (o = oppo)) as [->|Hne].
    + rewrite lookup_alter_eq, !lookup_insert_eq, Hsig. cbn. by apply wired_disconnect.
    + rewrite lookup_alter_ne, !lookup_insert_ne by done. apply Ho.
  - intros o. destruct (decide (o = oppo)) as [->|Hne]; [by rewrite lookup_alter_eq, Hsig|].
    rewrite lookup_alter_ne, lookup_insert_ne by done. apply Hs.
Qed.

Lemma handler_run h all per msg info :
  handler_ok h all per ->
  let '(called, h') := Run h msg info in
  called = all.*2 ++ (default [] (per !! HashValue (sender_id_ info))).*2 /\ handler_ok h' all per.
Proof.
  intros [Ha Ho Hs]. unfold Run. pose proof (wired_emit _ _ _ (msg, info) Ha) as He. destruct (emit (signal_ h) _) as [called s].
  destruct He as [-> Ha']. cbn [signals_ signal_conns_ signal_ signals_conns_].
  set (oppo := HashValue (sender_id_ info)). pose proof (Ho oppo) as Hw. destruct (signals_ h !! oppo) as [s'|] eqn:Hsig; cbn [default from_option id] in Hw.
  - pose proof (wired_emit _ _ _ (msg, info) Hw) as He. destruct (emit s' _) as [called s2]. destruct He as [-> Hw'].
    split; [done|]. split; [done| |]; cbn [signals_ signals_conns_].
    + intros o. destruct (decide (o = oppo)) as [->|]; [by rewrite lookup_insert_eq|by rewrite lookup_insert_ne].
    + intros o. destruct (decide (o = oppo)) as [->|]; [by rewrite lookup_insert_eq|rewrite lookup_insert_ne by done; apply Hs].
  - split; [|by split]. destruct Hw as [_ Hw _]. cbn in Hw. apply Forall2_nil_inv_l in Hw. by rewrite Hw, app_nil_r.
Qed.

Lemma handler_step_ok h r o :
  handler_ok h r.1 r.2 -> op_ok r o ->
  (handler_step h o).1 = (registry_step r o).1 /\ handler_ok (handler_step h o).2 (registry_step r o).2.1 (registry_step r o).2.2.
Proof.
  destruct r as [all per]. intros Hh Hop. cbn [fst snd] in Hh. destruct o as [self cb|self oppo cb|self|self oppo|msg info]; cbn [handler_step registry_step fst snd].
  - split; [done|]. destruct Hh as [Ha Ho Hs]. unfold Connect_self. pose proof (wired_connect _ _ _ self cb Ha Hop) as Hw.
    destruct (Signal.Connect _ _) as [c s']. destruct Hw as [-> Hw]. by split.
  - split; [done|]. by apply handler_connect_oppo.
  - split; [done|]. destruct Hh as [Ha Ho Hs]. unfold Disconnect_self. destruct (signal_conns_ h !! self) as [c|] eqn:Hc.
    + split; [by apply wired_disconnect|done|done].
    + erewrite wired_skip by done. by split.
  - split; [done|]. by apply handler_disconnect_oppo.
  - pose proof (handler_run h all per msg info Hh) as Hr. destruct (Run h msg info) as [called h']. exact Hr.
Qed.

(** ** Dispatchers *)

(** [msg_listeners_] with the message type a handler was made for. *)
Record Dispatcher := mkDispatcher { is_shutdown_ : bool; msg_listeners_ : gmap Z (nat * ListenerHandler) }.

Definition Dispatcher_new : Dispatcher := mkDispatcher false ∅.
Definition Shutdown (d : Dispatcher) : Dispatcher := mkDispatcher true (msg_listeners_ d).
Definition HasChannel (d : Dispatcher) (channel_id : Z) : bool := bool_decide (is_Some (msg_listeners_ d !! channel_id)).

(** [AddListener<MessageT>(self_attr, listener)] and, with an opposite, [AddListener<MessageT>(self_attr,
    opposite_attr, listener)]; [ty] is the message type. *)
Definition AddListener (d : Dispatcher) (ty : nat) (channel_id self_id : Z) (oppo_id : option Z) (listener : nat) : Dispatcher :=
  let connect h := if oppo_id is Some o then Connect_oppo h self_id o listener else Connect_self h self_id listener in
  if is_shutdown_ d then d
  else
    match msg_listeners_ d !! channel_id with
    | Some (ty', h) =>
        if decide (ty' = ty) then mkDispatcher (is_shutdown_ d) (<[channel_id := (ty', connect h)]> (msg_listeners_ d)) else d
    | None => mkDispatcher (is_shutdown_ d) (<[channel_id := (ty, connect Handler_new)]> (msg_listeners_ d))
    end.

Definition RemoveListener (d : Dispatcher) (channel_id self_id : Z) (oppo_id : option Z) : Dispatcher :=
  let disconnect h := if oppo_id is Some o then Disconnect_oppo h self_id o else Disconnect_self h self_id in
  if is_shutdown_ d then d
  else
    match msg_listeners_ d !! channel_id with
    | Some (ty, h) => mkDispatcher (is_shutdown_ d) (<[channel_id := (ty, disconnect h)]> (msg_listeners_ d))
    | None => d
    end.

(** [OnMessage(channel_id, message, msg_info)]; the message has the type of the handler. *)
Definition OnMessage (d : Dispatcher) (channel_id : Z) (message : M) (msg_info : MessageInfo) : list nat * Dispatcher :=
  if is_shutdown_ d then ([], d)
  else
    match msg_listeners_ d !! channel_id with
    | Some (ty, h) =>
        let '(called, h) := Run h message msg_info in
        (called, mkDispatcher (is_shutdown_ d) (<[channel_id := (ty, h)]> (msg_listeners_ d)))
    | None => ([], d)
    end.

Inductive dispatch_op :=
| DAdd (ty : nat) (channel self : Z) (oppo : option Z) (cb : nat)
| DRemove (channel self : Z) (oppo : option Z)
| DMessage (channel : Z) (msg : M) (info : MessageInfo)
| DShutdown.

Definition dispatch_step (d : Dispatcher) (o : dispatch_op) : list nat * Dispatcher :=
  match o with
  | DAdd ty ch self oppo cb => ([], AddListener d ty ch self oppo cb)
  | DRemove ch self oppo => ([], RemoveListener d ch self oppo)
  | DMessage ch msg info => OnMessage d ch msg info
  | DShutdown => ([], Shutdown d)
  end.

(** The abstract dispatcher: the type and the registry of every channel, until it is shut down. *)
Record channels := mkChannels { closed : bool; regs : gmap Z (nat * registry) }.
Definition channels_new : channels := mkChannels false ∅.

Definition channel_op (c : channels) (ch : Z) (ty : nat) (r : registry) (o : handler_op) : list nat * channels :=
  ((registry_step r o).1, mkChannels (closed c) (<[ch := (ty, (registry_step r o).2)]> (regs c))).

Definition add_op (self : Z) (oppo : option Z) (cb : nat) : handler_op :=
  if oppo is Some o then HConnectOppo self o cb else HConnect self cb.
Definition remove_op (self : Z) (oppo : option Z) : handler_op :=
  if oppo is Some o then HDisconnectOppo self o else HDisconnect self.

Definition channels_step (c : channels) (o : dispatch_op) : list nat * channels :=
  if closed c then ([], c)
  else
    match o with
    | DAdd ty ch self oppo cb =>
        let '(ty', r) := default (ty, registry_empty) (regs c !! ch) in
        if decide (ty' = ty) then channel_op c ch ty r (add_op self oppo cb) else ([], c)
    | DRemove ch self oppo => if regs c !! ch is Some (ty, r) then channel_op c ch ty r (remove_op self oppo) else ([], c)
    | DMessage ch msg info => if regs c !! ch is Some (ty, r) then channel_op c ch ty r (HRun msg info) else ([], c)
    | DShutdown => ([], mkChannels true (regs c))
    end.

(** On its channel, an id is connected once at a time. *)
Definition dispatch_ok (c : channels) (o : dispatch_op) : Prop :=
  match o with
  | DAdd ty ch self oppo cb => op_ok (default (ty, registry_empty) (regs c !! ch)).2 (add_op self oppo cb)
  | _ => True
  end.

Definition dispatcher_rel (d : Dispatcher) (c : channels) : Prop :=
  is_shutdown_ d = closed c /\
  forall ch, option_Forall2 (fun x y => x.1 = y.1 /\ handler_ok x.2 y.2.1 y.2.2) (msg_listeners_ d !! ch) (regs c !! ch).

Lemma Handler_new_ok : handler_ok Handler_new registry_empty.1 registry_empty.2.
Proof.
  split; cbn; [apply wired_new| |by intros; rewrite lookup_empty]. intros o. rewrite !lookup_empty. apply wired_new.
Qed.

(** One operation on the handler of a channel. *)
Lemma channel_op_rel d c ch ty h r o :
  dispatcher_rel d c -> handler_ok h r.1 r.2 -> op_ok r o ->
  (handler_step h o).1 = (channel_op c ch ty r o).1 /\
  dispatcher_rel (mkDispatcher (is_shutdown_ d) (<[ch := (ty, (handler_step h o).2)]> (msg_listeners_ d))) (channel_op c ch ty r o).2.
Proof.
  intros [Hc Hd] Hh Ho. destruct (handler_step_ok h r o Hh Ho) as [H1 H2]. split; [done|]. split; [done|]. cbn.
  intros ch'. destruct (decide (ch' = ch)) as [->|Hne]; [rewrite !lookup_insert_eq; by constructor|].
  rewrite !lookup_insert_ne by done. apply Hd.
Qed.

Lemma dispatch_step_rel d c o :
  dispatcher_rel d c -> dispatch_ok c o ->
  (dispatch_step d o).1 = (channels_step c o).1 /\ dispatcher_rel (dispatch_step d o).2 (channels_step c o).2.
Proof.
  intros Hr Hok. pose proof Hr as [Hs Hd]. unfold channels_step. destruct (closed c) eqn:Hc.
  { destruct o; cbn; unfold AddListener, RemoveListener, OnMessage; rewrite ?Hs; done. }
  destruct o as [ty ch self oppo cb|ch self oppo|ch msg info|]; cbn [dispatch_step dispatch_ok] in *.
  - unfold AddListener. rewrite Hs. specialize (Hd ch). destruct (msg_listeners_ d !! ch) as [[ty' h]|]; destruct (regs c !! ch) as [[ty2 r]|]; inversion Hd; subst.
    + destruct H1 as [Ht Hh]. cbn [fst snd] in Ht, Hh. subst ty2. cbn [default from_option id snd] in *. case_decide; [|done]. subst.
      pose proof (channel_op_rel d c ch ty h r _ Hr Hh Hok) as Hop. rewrite Hs in Hop. by destruct oppo.
    + cbn [default from_option id] in *. rewrite decide_True by done.
      pose proof (channel_op_rel d c ch ty Handler_new registry_empty _ Hr Handler_new_ok Hok) as Hop. rewrite Hs in Hop. by destruct oppo.
  - unfold RemoveListener. rewrite Hs. specialize (Hd ch). destruct (msg_listeners_ d !! ch) as [[ty' h]|]; destruct (regs c !! ch) as [[ty2 r]|]; inversion Hd; subst; [|done].
    destruct H1 as [Ht Hh]. cbn [fst snd] in Ht, Hh. subst ty2.
    pose proof (channel_op_rel d c ch ty' h r (remove_op self oppo) Hr Hh) as Hop. rewrite Hs in Hop. destruct oppo; by apply Hop.
  - unfold OnMessage. rewrite Hs. specialize (Hd ch). destruct (msg_listeners_ d !! ch) as [[ty' h]|]; destruct (regs c !! ch) as [[ty2 r]|]; inversion Hd; subst; [|done].
    destruct H1 as [Ht Hh]. cbn [fst snd] in Ht, Hh. subst ty2.
    pose proof (channel_op_rel d c ch ty' h r (HRun msg info) Hr Hh I) as Hop. rewrite Hs in Hop. cbn [handler_step] in Hop.
    by destruct (Run h msg info) as [called h'].
  - by split.
Qed.

Fixpoint dispatch_runs (d : Dispatcher) (ops : list dispatch_op) : list (list nat) :=
  match ops with [] => [] | o :: ops => (dispatch_step d o).1 :: dispatch_runs (dispatch_step d o).2 ops end.
Fixpoint channels_runs (c : channels) (ops : list dispatch_op) : list (list nat) :=
  match ops with [] => [] | o :: ops => (channels_step c o).1 :: channels_runs (channels_step c o).2 ops end.
Fixpoint dispatches_ok (c : channels) (ops : list dispatch_op) : Prop :=
  match ops with [] => True | o :: ops => dispatch_ok c o /\ dispatches_ok (channels_step c o).2 ops end.

(** C8: a dispatcher with its handlers and signals refines a registry per channel: over any sequence of
    added and removed listeners, messages and a shutdown in which an id is connected once at a
    time, a message goes to the listeners of its channel connected for all senders and then to
    those connected for its sender, in the order they were connected, each once, and to no
    other; a listener of another message type is refused, and nothing happens after shutdown. *)
Theorem dispatcher_refines ops :
  dispatches_ok channels_new ops -> dispatch_runs Dispatcher_new ops = channels_runs channels_new ops.
Proof.
  assert (H0 : dispatcher_rel Dispatcher_new channels_new) by (split; [done|]; intros ch; cbn; rewrite !lookup_empty; constructor).
  revert H0. generalize Dispatcher_new channels_new. induction ops as [|o ops IH]; intros d c Hr Hok; [done|].
  destruct Hok as [Ho Hok]. destruct (dispatch_step_rel d c o Hr Ho) as [H1 H2]. cbn. f_equal; [done|by apply IH].
Qed.
End ListenerHandler.

(** ** What listeners receive *)

(** The listeners of a registry that a message of a sender goes to. *)
Definition subscribers (r : registry) (sender : Z) : list nat := r.1.*2 ++ (default [] (r.2 !! sender)).*2.

(** A dispatcher that is not shut down and whose listeners on channel [ch] are those of registry [r]. *)
Definition registered {M} (d : @Dispatcher M) (ch : Z) (r : registry) : Prop :=
  exists c ty, dispatcher_rel d c /\ closed c = false /\ regs c !! ch = Some (ty, r).

Lemma OnMessage_registered {M} (d : @Dispatcher M) ch r (m : M) inf :
  registered d ch r ->
  let '(called, b) := OnMessage d ch m inf in called = subscribers r (HashValue (sender_id_ inf)) /\ registered b ch r.
Proof.
  intros (c & ty & Hrel & Hcl & Hreg). pose proof (dispatch_step_rel d c (DMessage ch m inf) Hrel I) as [H1 H2].
  cbn [dispatch_step channels_step] in H1, H2. unfold channels_step in H1, H2. rewrite Hcl, Hreg in H1, H2. unfold channel_op in H1, H2. destruct r as [all per].
  cbn in H1, H2. destruct (OnMessage d ch m inf) as [called b]. split; [exact H1|].
  eexists _, ty. split; [exact H2|]. cbn. split; [done|apply lookup_insert_eq].
Qed.

(** A message that an adapter hands to a listener. *)
Record delivery (T : Type) := mkDelivery { to : nat; msg : T; info : MessageInfo }.
Arguments mkDelivery {T} _ _ _.
Arguments to {T} _.
Arguments msg {T} _.
Arguments info {T} _.

(** What the listeners of a message receive: one message, the same as the sent one, and one info, the sent one but
    for [channel_id_], which does not travel and is 0. *)
Definition delivered {T} `{!Message T} (Hash : bytes -> Z) (r : registry) (m : T) (inf : MessageInfo) (out : list (delivery T)) : Prop :=
  exists m', same_message m' m /\
    out = (fun cb => mkDelivery cb m' (received Hash (MessageInfo_default Hash) inf)) <$> subscribers r (Hash (id_data (sender_id_ inf))).

(** [RunFromString(str, msg_info)], [M_new] being a new message. *)
Definition RunFromString {M} `{!Message M} (M_new : M) (h : ListenerHandler) (str : bytes) (msg_info : MessageInfo) : list nat * ListenerHandler :=
  match ParseFromHC str (i32 (Z.of_nat (length str))) M_new with
  | Some msg => Run h msg msg_info
  | None => ([], h)
  end.

(** Listener 1 takes all messages of channel 5, listener 2 those of sender 9; listener 3 is of another
    type; id 1 is disconnected and connected again. *)
Definition demo_info (sender : Z) : MessageInfo := mkInfo (mkId [] sender) 0 0 (mkId [] 0).
Definition demo_ops : list (dispatch_op (M := Z)) :=
  [DAdd 0 5 1 None 1; DAdd 0 5 2 (Some 9) 2; DAdd 1 5 3 None 3; DMessage 5 100 (demo_info 9); DMessage 5 101 (demo_info 8);
   DRemove 5 1 None; DMessage 5 102 (demo_info 9); DAdd 0 5 1 None 4; DMessage 5 103 (demo_info 9); DMessage 6 104 (demo_info 9);
   DShutdown; DMessage 5 105 (demo_info 9)].

Lemma dispatcher_refines_witness :
  dispatch_runs Dispatcher_new demo_ops = [[]; []; []; [1; 2]; [1]; []; [2]; []; [4; 2]; []; []; []]%nat.
Proof.
  rewrite dispatcher_refines; [by vm_compute|]. cbn. repeat split; try done; vm_compute; set_solver.
Defined.

(** An id that connects again without disconnecting keeps its first listener connected for good:
    both are called, and disconnecting the id removes only the second. *)
Theorem reconnect_leaks_listener :
  dispatch_runs (M := Z) Dispatcher_new
    [DAdd 0 5 1 None 1; DAdd 0 5 1 None 2; DMessage 5 100 (demo_info 9); DRemove 5 1 None; DRemove 5 1 None; DMessage 5 101 (demo_info 9)]
  = [[]; []; [1; 2]; []; []; [1]]%nat.
Proof. by vm_compute. Qed.
