(* ===== verification/IntraDispatcher.v ===== *)
(** * The dispatcher inside a process: transport/dispatcher/intra_dispatcher.h

    Readers of one channel may want different message types.  The chain keeps a handler per channel
    and type; the dispatcher's own handler, of the type it saw first, has one wrapper per chain
    handler, which runs the chain.  Types are numbered in the order of their names.  A message of
    another type is converted by serializing it and parsing the result: [convert] is that function,
    [None] where one of the two fails (MessageHeader has [SerializeToHC] and [ParseFromHC]). *)

From Stdlib Require Import ZArith Lia.
From stdpp Require Import base gmap sets list.
From S2P Require Import Prelude Signal MessageInfo ListenerHandler.

Section Intra.
Context {M : Type} (convert : nat -> M -> option M).

Abbreviation Handler := (@ListenerHandler M) (only parsing).

(** [std::map<uint64_t, std::map<std::string, ListenerHandlerBasePtr>>]: the inner map in its order. *)
Abbreviation BaseHandlers := (gmap Z (list (nat * @ListenerHandler M))) (only parsing).

Record ChannelChain := mkChain { handlers_ : BaseHandlers; oppo_handlers_ : gmap Z BaseHandlers }.

Fixpoint type_lookup (l : list (nat * Handler)) (ty : nat) : option Handler :=
  match l with [] => None | (t, h) :: l => if decide (t = ty) then Some h else type_lookup l ty end.
Fixpoint type_insert (l : list (nat * Handler)) (ty : nat) (h : Handler) : list (nat * Handler) :=
  match l with
  | [] => [(ty, h)]
  | (t, h') :: l =>
      if decide (t = ty) then (ty, h) :: l else if decide (ty < t)%nat then (ty, h) :: (t, h') :: l else (t, h') :: type_insert l ty h
  end.
Definition type_erase (l : list (nat * Handler)) (ty : nat) : list (nat * Handler) := filter (fun e => e.1 <> ty) l.

(** [GetHandler]: the handler and whether it was created. *)
Definition GetHandler (hs : BaseHandlers) (channel_id : Z) (ty : nat) : Handler * bool * BaseHandlers :=
  let l := default [] (hs !! channel_id) in
  match type_lookup l ty with
  | Some h => (h, false, <[channel_id := l]> hs)
  | None => (Handler_new, true, <[channel_id := type_insert l ty Handler_new]> hs)
  end.

Definition put_handler (hs : BaseHandlers) (channel_id : Z) (ty : nat) (h : Handler) : BaseHandlers :=
  <[channel_id := type_insert (default [] (hs !! channel_id)) ty h]> hs.

(** [RemoveHandler]: the handlers without the one of [ty]. *)
Definition RemoveHandler (hs : BaseHandlers) (channel_id : Z) (ty : nat) : BaseHandlers :=
  match hs !! channel_id with
  | None => hs
  | Some l => if decide (type_erase l ty = []) then delete channel_id hs else <[channel_id := type_erase l ty]> hs
  end.

(** [AddListener] of the chain, without and with an opposite. *)
Definition Chain_AddListener (c : ChannelChain) (self_id : Z) (oppo_id : option Z) (channel_id : Z) (ty : nat) (listener : nat) : bool * ChannelChain :=
  match oppo_id with
  | None =>
      let '(h, created, hs) := GetHandler (handlers_ c) channel_id ty in
      (created, mkChain (put_handler hs channel_id ty (Connect_self h self_id listener)) (oppo_handlers_ c))
  | Some o =>
      let '(h, created, hs) := GetHandler (default ∅ (oppo_handlers_ c !! o)) channel_id ty in
      (created, mkChain (handlers_ c) (<[o := put_handler hs channel_id ty (Connect_oppo h self_id o listener)]> (oppo_handlers_ c)))
  end.

(** [RemoveListener] of the chain.  The handler leaves the chain before its listener is disconnected. *)
Definition Chain_RemoveListener (c : ChannelChain) (self_id : Z) (oppo_id : option Z) (channel_id : Z) (ty : nat) : ChannelChain :=
  match oppo_id with
  | None => mkChain (RemoveHandler (handlers_ c) channel_id ty) (oppo_handlers_ c)
  | Some o =>
      match oppo_handlers_ c !! o with
      | None => c
      | Some hs =>
          let hs := RemoveHandler hs channel_id ty in
          mkChain (handlers_ c) (if decide (hs = ∅) then delete o (oppo_handlers_ c) else <[o := hs]> (oppo_handlers_ c))
      end
  end.

(** The loop of [Run] over the handlers of a channel: who was called with which message. *)
Fixpoint run_handlers (ty : nat) (msg : M) (info : MessageInfo) (l : list (nat * Handler)) : list (nat * M) * list (nat * Handler) :=
  match l with
  | [] => ([], [])
  | (t, h) :: l =>
      let '(called, h) :=
        match (if decide (t = ty) then Some msg else convert t msg) with
        | Some m => let '(cs, h) := ListenerHandler.Run h m info in ((fun cb => (cb, m)) <$> cs, h)
        | None => ([], h)
        end in
      let '(rest, l) := run_handlers ty msg info l in
      (called ++ rest, (t, h) :: l)
  end.

Definition Chain_Run (c : ChannelChain) (oppo_id : option Z) (channel_id : Z) (ty : nat) (msg : M) (info : MessageInfo) : list (nat * M) * ChannelChain :=
  let run hs :=
    match hs !! channel_id with
    | None => ([], hs)
    | Some l => let '(called, l) := run_handlers ty msg info l in (called, <[channel_id := l]> hs)
    end in
  match oppo_id with
  | None => let '(called, hs) := run (handlers_ c) in (called, mkChain hs (oppo_handlers_ c))
  | Some o =>
      match oppo_handlers_ c !! o with
      | None => ([], c)
      | Some hs => let '(called, hs) := run hs in (called, mkChain (handlers_ c) (<[o := hs]> (oppo_handlers_ c)))
      end
  end.

(** ** The dispatcher *)

(** [wrappers] are the listeners made by [AddListener]: opposite, channel and type they run the chain with. *)
Record IntraDispatcher := mkIntra { base : Dispatcher (M := M); chain_ : ChannelChain; wrappers : list (option Z * Z * nat) }.

Definition Intra_new : IntraDispatcher := mkIntra Dispatcher_new (mkChain ∅ ∅) [].

(** [GetHandler] of the dispatcher: [None] when the channel's handler has another type. *)
Definition Intra_GetHandler (b : Dispatcher (M := M)) (channel_id : Z) (ty : nat) : option Handler * Dispatcher (M := M) :=
  match msg_listeners_ b !! channel_id with
  | Some (ty', h) => (if decide (ty' = ty) then Some h else None, b)
  | None => (Some Handler_new, mkDispatcher (is_shutdown_ b) (<[channel_id := (ty, Handler_new)]> (msg_listeners_ b)))
  end.

Definition AddListener (d : IntraDispatcher) (ty : nat) (channel_id self_id : Z) (oppo_id : option Z) (listener : nat) : IntraDispatcher :=
  if is_shutdown_ (base d) then d
  else
    let '(created, c) := Chain_AddListener (chain_ d) self_id oppo_id channel_id ty listener in
    let '(handler, b) := Intra_GetHandler (base d) channel_id ty in
    match handler with
    | Some h =>
        if (created : bool) then
          let n := length (wrappers d) in
          let h := if oppo_id is Some o then Connect_oppo h self_id o n else Connect_self h self_id n in
          mkIntra (mkDispatcher (is_shutdown_ b) (<[channel_id := (ty, h)]> (msg_listeners_ b))) c (wrappers d ++ [(oppo_id, channel_id, ty)])
        else mkIntra b c (wrappers d)
    | None => mkIntra b c (wrappers d)
    end.

Definition RemoveListener (d : IntraDispatcher) (ty : nat) (channel_id self_id : Z) (oppo_id : option Z) : IntraDispatcher :=
  if is_shutdown_ (base d) then d
  else mkIntra (ListenerHandler.RemoveListener (base d) channel_id self_id oppo_id)
         (Chain_RemoveListener (chain_ d) self_id oppo_id channel_id ty) (wrappers d).

(** The wrappers called by the dispatcher's handler, one after the other. *)
Fixpoint run_wrappers (ws : list (option Z * Z * nat)) (called : list nat) (msg : M) (info : MessageInfo) (c : ChannelChain) : list (nat * M) * ChannelChain :=
  match called with
  | [] => ([], c)
  | n :: called =>
      let '(out, c) := if ws !! n is Some (oppo, ch, ty) then Chain_Run c oppo ch ty msg info else ([], c) in
      let '(rest, c) := run_wrappers ws called msg info c in
      (out ++ rest, c)
  end.

Definition OnMessage (d : IntraDispatcher) (ty : nat) (channel_id : Z) (msg : M) (info : MessageInfo) : list (nat * M) * IntraDispatcher :=
  if is_shutdown_ (base d) then ([], d)
  else
    match msg_listeners_ (base d) !! channel_id with
    | None => ([], d)
    | Some (ty', h) =>
        match (if decide (ty' = ty) then Some msg else convert ty' msg) with
        | None => ([], d)
        | Some m =>
            let '(called, h) := ListenerHandler.Run h m info in
            let '(out, c) := run_wrappers (wrappers d) called m info (chain_ d) in
            (out, mkIntra (mkDispatcher (is_shutdown_ (base d)) (<[channel_id := (ty', h)]> (msg_listeners_ (base d)))) c (wrappers d))
        end
    end.
(** ** Listeners of one type on one channel *)
Section Delivery.
Context (ch : Z) (ty : nat).

Abbreviation per_of r o := (default [] (r.2 !! o)) (only parsing).

(** The chain's handler of the channel, with the registry it stands for. *)
Definition cell_ok (hs : BaseHandlers) (there : bool) (r : registry) : Prop :=
  if there then exists h, hs !! ch = Some [(ty, h)] /\ handler_ok h r.1 r.2 else hs !! ch = None /\ r = registry_empty.

Lemma cell_add hs there r (o : handler_op (M := M)) (f : Handler -> Handler) :
  cell_ok hs there r -> op_ok r o -> (forall h, handler_step h o = ([], f h)) ->
  let '(h, created, hs') := GetHandler hs ch ty in
  created = negb there /\ cell_ok (put_handler hs' ch ty (f h)) true (registry_step r o).2.
Proof.
  intros Hc Ho Hf. unfold GetHandler, put_handler. destruct there; cbn [cell_ok] in *.
  - destruct Hc as (h & Hh & Hok). rewrite Hh. cbn [default from_option id type_lookup]. rewrite decide_True by done. split; [done|].
    exists (f h). rewrite !lookup_insert_eq. cbn [default from_option id type_insert]. rewrite decide_True by done.
    destruct (handler_step_ok h r o Hok Ho) as [_ H2]. by rewrite Hf in H2.
  - destruct Hc as [Hn ->]. rewrite Hn. cbn [default from_option id type_lookup type_insert]. split; [done|].
    exists (f Handler_new). rewrite !lookup_insert_eq. cbn [default from_option id type_insert]. rewrite decide_True by done.
    destruct (handler_step_ok Handler_new registry_empty o Handler_new_ok Ho) as [_ H2]. by rewrite Hf in H2.
Qed.

Lemma cell_run hs there r msg info :
  cell_ok hs there r ->
  let out := match hs !! ch with None => ([], hs) | Some l => let '(called, l) := run_handlers ty msg info l in (called, <[ch := l]> hs) end in
  out.1 = (fun cb => (cb, msg)) <$> (r.1.*2 ++ (per_of r (HashValue (sender_id_ info))).*2) /\ cell_ok out.2 there r.
Proof.
  intros Hc. cbv zeta. destruct there; cbn [cell_ok] in *.
  - destruct Hc as (h & Hh & Hok). rewrite Hh. cbn [run_handlers]. rewrite decide_True by done.
    pose proof (handler_run h r.1 r.2 msg info Hok) as Hr. destruct (ListenerHandler.Run h msg info) as [cs h']. destruct Hr as [-> Hok'].
    cbn [fst snd]. split; [by rewrite app_nil_r|]. exists h'. by rewrite lookup_insert_eq.
  - destruct Hc as [Hn ->]. rewrite Hn. cbn. by rewrite lookup_empty.
Qed.

(** The wrapper that stands for a chain handler. *)
Definition wrapper_ok (ws : list (option Z * Z * nat)) (oppo : option Z) (there : bool) (l : list (Z * nat)) : Prop :=
  if there then exists self n, l = [(self, n)] /\ ws !! n = Some (oppo, ch, ty) else l = [].

Definition is_there {A} (l : list A) : bool := negb (bool_decide (length l = 0%nat)).

Record intra_ok (d : IntraDispatcher) (r : registry) : Prop := {
  in_open : is_shutdown_ (base d) = false;
  in_all : exists ra, cell_ok (handlers_ (chain_ d)) (is_there r.1) ra /\ ra.1 = r.1 /\ forall p, per_of ra p = [];
  in_per : forall o, exists ro, cell_ok (default ∅ (oppo_handlers_ (chain_ d) !! o)) (is_there (per_of r o)) ro /\ ro.1 = [] /\ per_of ro o = per_of r o;
  in_base : exists rb, match msg_listeners_ (base d) !! ch with Some (t, h) => t = ty /\ handler_ok h rb.1 rb.2 | None => rb = registry_empty end /\
    wrapper_ok (wrappers d) None (is_there r.1) rb.1 /\ forall o, wrapper_ok (wrappers d) (Some o) (is_there (per_of r o)) (per_of rb o)
}.

Lemma wrapper_more ws w oppo b l : wrapper_ok ws oppo b l -> wrapper_ok (ws ++ [w]) oppo b l.
Proof. destruct b; [|done]. intros (self & n & -> & Hn). exists self, n. split; [done|]. by apply lookup_app_l_Some. Qed.

Lemma is_there_snoc {A} (l : list A) x : is_there (l ++ [x]) = true.
Proof. unfold is_there. rewrite length_app. by case_bool_decide; [cbn in *; lia|]. Qed.

Lemma is_there_nil {A} (l : list A) : is_there l = false -> l = [].
Proof. unfold is_there. case_bool_decide; [|done]. intros _. by apply length_zero_iff_nil. Qed.

Lemma intra_new_ok : intra_ok Intra_new registry_empty.
Proof.
  assert (He : forall o : Z, per_of registry_empty o = []) by (intros o; cbn; by rewrite lookup_empty).
  assert (Hc : forall hs, hs !! ch = None -> cell_ok hs false registry_empty) by done.
  split; cbn [Intra_new base chain_ wrappers handlers_ oppo_handlers_]; [done| | |].
  - exists registry_empty. split; [apply Hc, lookup_empty|done].
  - intros o. exists registry_empty. rewrite (He o). split; [|done]. apply Hc. rewrite lookup_empty. apply lookup_empty.
  - exists registry_empty. split; [cbn; by rewrite lookup_empty|]. split; [done|]. intros o. by rewrite (He o).
Qed.

Lemma base_handler d r rb :
  match msg_listeners_ (base d) !! ch with Some (t, h) => t = ty /\ handler_ok h rb.1 rb.2 | None => rb = registry_empty end ->
  intra_ok d r ->
  exists hb, let '(h, b) := Intra_GetHandler (base d) ch ty in h = Some hb /\ handler_ok hb rb.1 rb.2 /\ is_shutdown_ b = false /\ msg_listeners_ b !! ch = Some (ty, hb).
Proof.
  intros Hb Hd. unfold Intra_GetHandler. destruct (msg_listeners_ (base d) !! ch) as [[t h]|] eqn:Hm.
  - destruct Hb as [-> Hok]. exists h. rewrite decide_True by done. split; [done|]. split; [done|]. split; [apply Hd|done].
  - subst rb. exists Handler_new. split; [done|]. split; [apply Handler_new_ok|]. split; [apply Hd|]. cbn. apply lookup_insert_eq.
Qed.

Lemma intra_add_oppo d r self o cb :
  intra_ok d r -> op_ok (M := M) r (HConnectOppo self o cb) -> intra_ok (AddListener d ty ch self (Some o) cb) (registry_step (M := M) r (HConnectOppo self o cb)).2.
Proof.
  intros Hd Hop. pose proof Hd as [H1 (ra & Ha & Ea & Pa) H3 (rb & Hb & Wa & Wp)]. destruct r as [all per]. cbn [fst snd] in *.
  unfold AddListener. rewrite H1. destruct (base_handler d (all, per) rb Hb Hd) as (hb & Hbh). destruct (Intra_GetHandler (base d) ch ty) as [h b].
  destruct Hbh as (-> & Hhb & Hsb & Hlb). destruct rb as [wall wper]. cbn [Chain_AddListener registry_step fst snd op_ok] in *.
  destruct (H3 o) as (ro & Hro & Ero & Pro).
  assert (Ho : op_ok (M := M) ro (HConnectOppo self o cb)) by (cbn; by rewrite Pro).
  pose proof (cell_add _ _ _ _ (fun h => Connect_oppo h self o cb) Hro Ho ltac:(done)) as Hadd.
  destruct (GetHandler (default ∅ (oppo_handlers_ (chain_ d) !! o)) ch ty) as [[hh created] hs]. destruct Hadd as [-> Hcell].
  assert (Hchain : forall o', exists ro', cell_ok (default ∅ (<[o := put_handler hs ch ty (Connect_oppo hh self o cb)]> (oppo_handlers_ (chain_ d)) !! o'))
    (is_there (default [] (<[o := default [] (per !! o) ++ [(self, cb)]]> per !! o'))) ro' /\ ro'.1 = [] /\
    per_of ro' o' = default [] (<[o := default [] (per !! o) ++ [(self, cb)]]> per !! o')).
  { intros o'. destruct (decide (o' = o)) as [->|Hne]; [|rewrite !lookup_insert_ne by done; apply H3].
    rewrite !lookup_insert_eq. cbn [default from_option id]. rewrite is_there_snoc. exists (registry_step (M := M) ro (HConnectOppo self o cb)).2. split; [exact Hcell|].
    destruct ro as [? ?]. cbn in *. rewrite lookup_insert_eq. cbn. by rewrite Pro. }
  destruct (is_there (default [] (per !! o))) eqn:Hth; cbn [negb].
  - split; cbn [base chain_ wrappers handlers_ oppo_handlers_ msg_listeners_ fst snd]; [done|by exists ra|exact Hchain|].
    exists (wall, wper). rewrite Hlb. split; [done|]. split; [done|]. intros o'. cbn [fst snd]. destruct (decide (o' = o)) as [->|Hne]; [|rewrite lookup_insert_ne by done; apply Wp].
    rewrite lookup_insert_eq. cbn [default from_option id]. rewrite is_there_snoc. specialize (Wp o). by rewrite Hth in Wp.
  - split; cbn [base chain_ wrappers handlers_ oppo_handlers_ msg_listeners_ is_shutdown_ fst snd]; [done|by exists ra|exact Hchain|].
    assert (Hwo : default [] (wper !! o) = []) by (specialize (Wp o); by rewrite Hth in Wp).
    assert (How : op_ok (M := M) (wall, wper) (HConnectOppo self o (length (wrappers d)))) by (cbn; rewrite Hwo; set_solver).
    exists (registry_step (M := M) (wall, wper) (HConnectOppo self o (length (wrappers d)))).2. rewrite lookup_insert_eq. split; [split; [done|]|split].
    + apply (handler_step_ok hb (wall, wper) _ Hhb How).
    + cbn. by apply wrapper_more.
    + intros o'. cbn [registry_step fst snd]. destruct (decide (o' = o)) as [->|Hne]; [|rewrite !lookup_insert_ne by done; apply wrapper_more, Wp].
      rewrite !lookup_insert_eq. cbn [default from_option id]. rewrite is_there_snoc, Hwo. exists self, (length (wrappers d)). split; [done|]. apply lookup_snoc_len.
Qed.

Lemma intra_add_self d r self cb :
  intra_ok d r -> op_ok (M := M) r (HConnect self cb) -> intra_ok (AddListener d ty ch self None cb) (registry_step (M := M) r (HConnect self cb)).2.
Proof.
  intros Hd Hop. pose proof Hd as [H1 (ra & Ha & Ea & Pa) H3 (rb & Hb & Wa & Wp)]. destruct r as [all per]. cbn [fst snd] in *.
  unfold AddListener. rewrite H1. destruct (base_handler d (all, per) rb Hb Hd) as (hb & Hbh). destruct (Intra_GetHandler (base d) ch ty) as [h b].
  destruct Hbh as (-> & Hhb & Hsb & Hlb). destruct rb as [wall wper]. cbn [Chain_AddListener registry_step fst snd op_ok] in *.
  assert (Ho : op_ok (M := M) ra (HConnect self cb)) by (cbn; by rewrite Ea).
  pose proof (cell_add _ _ _ _ (fun h => Connect_self h self cb) Ha Ho ltac:(done)) as Hadd.
  destruct (GetHandler (handlers_ (chain_ d)) ch ty) as [[hh created] hs]. destruct Hadd as [-> Hcell].
  assert (Hchain : exists ra', cell_ok (put_handler hs ch ty (Connect_self hh self cb)) (is_there (all ++ [(self, cb)])) ra' /\ ra'.1 = all ++ [(self, cb)] /\ forall p, per_of ra' p = []).
  { exists (registry_step (M := M) ra (HConnect self cb)).2. rewrite is_there_snoc. split; [exact Hcell|]. destruct ra as [? ?]. cbn in *. by rewrite Ea. }
  destruct (is_there all) eqn:Hth; cbn [negb].
  - split; cbn [base chain_ wrappers handlers_ oppo_handlers_ msg_listeners_ fst snd]; [done|exact Hchain|done|].
    exists (wall, wper). rewrite Hlb. split; [done|]. cbn [fst snd]. split; [by rewrite is_there_snoc|done].
  - split; cbn [base chain_ wrappers handlers_ oppo_handlers_ msg_listeners_ is_shutdown_ fst snd]; [done|exact Hchain|done|].
    cbn [wrapper_ok] in Wa. subst wall. assert (How : op_ok (M := M) ([], wper) (HConnect self (length (wrappers d)))) by (cbn; set_solver).
    exists (registry_step (M := M) ([], wper) (HConnect self (length (wrappers d)))).2. rewrite lookup_insert_eq. split; [split; [done|]|split].
    + apply (handler_step_ok hb ([], wper) _ Hhb How).
    + cbn [registry_step fst snd app]. rewrite is_there_snoc. exists self, (length (wrappers d)). split; [done|]. apply lookup_snoc_len.
    + intros o'. cbn [registry_step fst snd]. apply wrapper_more, Wp.
Qed.

Lemma intra_add d r self oppo cb :
  intra_ok d r -> op_ok (M := M) r (add_op self oppo cb) -> intra_ok (AddListener d ty ch self oppo cb) (registry_step (M := M) r (add_op self oppo cb)).2.
Proof. destruct oppo; [apply intra_add_oppo|apply intra_add_self]. Qed.

(** Running the chain for all senders, and for the sender of the message. *)
Lemma chain_run_cell c oppo there r msg info :
  cell_ok (if oppo is Some o then default ∅ (oppo_handlers_ c !! o) else handlers_ c) there r ->
  (Chain_Run c oppo ch ty msg info).1 = (fun cb => (cb, msg)) <$> (r.1.*2 ++ (per_of r (HashValue (sender_id_ info))).*2) /\
  (oppo = None -> oppo_handlers_ (Chain_Run c oppo ch ty msg info).2 = oppo_handlers_ c).
Proof.
  intros Hc. pose proof (cell_run _ _ _ msg info Hc) as [Hr _]. unfold Chain_Run. destruct oppo as [o|].
  - split; [|done]. destruct (oppo_handlers_ c !! o) as [hs|]; cbn [default from_option id] in *; [|by rewrite lookup_empty in Hr].
    destruct (hs !! ch) as [l|]; [|exact Hr]. destruct (run_handlers ty msg info l) as [called l']. exact Hr.
  - destruct (handlers_ c !! ch) as [l|]; [|done]. destruct (run_handlers ty msg info l) as [called l']. done.
Qed.

Lemma intra_message d r msg info :
  intra_ok d r -> (OnMessage d ty ch msg info).1 = (fun cb => (cb, msg)) <$> (r.1.*2 ++ (per_of r (HashValue (sender_id_ info))).*2).
Proof.
  intros [H1 (ra & Ha & Ea & Pa) H3 (rb & Hb & Wa & Wp)]. set (o := HashValue (sender_id_ info)) in *. destruct (H3 o) as (ro & Hro & Ero & Pro).
  destruct (chain_run_cell (chain_ d) None _ ra msg info Ha) as [Ra Ka]. rewrite Ea, Pa, app_nil_r in Ra. fold o in Ra.
  specialize (Wp o). unfold OnMessage. rewrite H1. destruct (msg_listeners_ (base d) !! ch) as [[t h]|].
  - destruct Hb as [-> Hok]. rewrite decide_True by done. pose proof (handler_run h rb.1 rb.2 msg info Hok) as Hr.
    destruct (ListenerHandler.Run h msg info) as [called h']. destruct Hr as [-> _]. fold o.
    assert (Hout : forall c, oppo_handlers_ c = oppo_handlers_ (chain_ d) ->
      (run_wrappers (wrappers d) (per_of rb o).*2 msg info c).1 = (fun cb => (cb, msg)) <$> (per_of r o).*2).
    { intros c Hoc. destruct (is_there (per_of r o)) eqn:Hth; cbn [wrapper_ok] in Wp; [|by rewrite Wp, (is_there_nil _ Hth)].
      destruct Wp as (self & n & -> & Hn). cbn [fmap list_fmap run_wrappers snd]. rewrite Hn.
      assert (Hc : cell_ok (default ∅ (oppo_handlers_ c !! o)) true ro) by (by rewrite Hoc).
      destruct (chain_run_cell c (Some o) true ro msg info Hc) as [Rp _]. fold o in Rp. rewrite Ero, Pro in Rp.
      destruct (Chain_Run c (Some o) ch ty msg info) as [out c']. cbn [fst] in *. by rewrite app_nil_r, Rp. }
    rewrite !fmap_app. destruct (is_there r.1) eqn:Hth; cbn [wrapper_ok] in Wa.
    + destruct Wa as (self & n & -> & Hn). cbn [fmap list_fmap run_wrappers snd app]. rewrite Hn.
      destruct (Chain_Run (chain_ d) None ch ty msg info) as [out c']. cbn [fst snd] in *. specialize (Hout c' (Ka eq_refl)).
      destruct (run_wrappers (wrappers d) _ msg info c') as [rest c'']. cbn [fst] in *. by rewrite Ra, Hout.
    + rewrite Wa, (is_there_nil _ Hth). cbn [fmap list_fmap app]. specialize (Hout (chain_ d) eq_refl).
      destruct (run_wrappers (wrappers d) _ msg info (chain_ d)) as [rest c'']. exact Hout.
  - subst rb. cbn in Wa, Wp. rewrite lookup_empty in Wp.
    assert (E1 : r.1 = []) by (destruct (is_there r.1) eqn:E; [by destruct Wa as (? & ? & ? & _)|by apply is_there_nil]).
    assert (E2 : per_of r o = []) by (destruct (is_there (per_of r o)) eqn:E; [by destruct Wp as (? & ? & ? & _)|by apply is_there_nil]).
    by rewrite E1, E2.
Qed.

(** The listeners of a channel: added ones, with fresh ids. *)
Definition listener : Type := Z * option Z * nat.
Definition add_all (ls : list listener) : IntraDispatcher := foldl (fun d '(self, oppo, cb) => AddListener d ty ch self oppo cb) Intra_new ls.
Definition registered (ls : list listener) : registry := foldl (fun r '(self, oppo, cb) => (registry_step (M := M) r (add_op self oppo cb)).2) registry_empty ls.
Definition fresh_ids (ls : list listener) : Prop :=
  forall l1 self oppo cb l2, ls = l1 ++ (self, oppo, cb) :: l2 -> op_ok (M := M) (registered l1) (add_op self oppo cb).

Lemma add_all_ok ls : fresh_ids ls -> intra_ok (add_all ls) (registered ls).
Proof.
  induction ls as [|[[self oppo] cb] ls IH] using rev_ind; intros Hf; [apply intra_new_ok|].
  unfold add_all, registered. rewrite !foldl_app. cbn [foldl]. apply intra_add; [|by apply (Hf ls self oppo cb [])].
  apply IH. intros l1 s o c l2 ->. by apply (Hf l1 s o c (l2 ++ [(self, oppo, cb)])); rewrite <- app_assoc.
Qed.

(** Inside a process, once listeners with distinct ids have been added to a channel, a message of
    their type goes through the dispatcher's handler, its wrappers and the chain to every listener
    for all senders and then to those for its sender, each once, in the order they were added. *)
Theorem intra_dispatcher_delivers ls msg info :
  fresh_ids ls ->
  (OnMessage (add_all ls) ty ch msg info).1 =
    (fun cb => (cb, msg)) <$> ((registered ls).1.*2 ++ (default [] ((registered ls).2 !! HashValue (sender_id_ info))).*2).
Proof. intros Hf. by apply intra_message, add_all_ok. Qed.
End Delivery.
End Intra.

(** Two readers of one channel and one writer in a process; the second leaves. *)
Definition no_convert (_ : nat) (_ : Z) : option Z := None.
Definition two_readers : IntraDispatcher (M := Z) := AddListener (AddListener Intra_new 0 5 1 (Some 9) 11) 0 5 2 (Some 9) 12.

(** A reader that leaves silences the others: removing its listener drops the chain's handler with the
    listeners of every other reader of the type, whichever of the readers leaves. *)
Theorem leaving_reader_silences_others :
  (OnMessage no_convert two_readers 0 5 100 (demo_info 9)).1 = [(11%nat, 100); (12%nat, 100)] /\
  (OnMessage no_convert (RemoveListener two_readers 0 5 2 (Some 9)) 0 5 101 (demo_info 9)).1 = [] /\
  (OnMessage no_convert (RemoveListener two_readers 0 5 1 (Some 9)) 0 5 101 (demo_info 9)).1 = [].
Proof. by vm_compute. Qed.

Lemma intra_dispatcher_delivers_witness :
  (OnMessage no_convert (add_all 5 0 [(1, Some 9, 11%nat); (2, None, 12%nat); (3, Some 9, 13%nat); (4, Some 8, 14%nat)]) 0 5 100 (demo_info 9)).1
  = [(12%nat, 100); (11%nat, 100); (13%nat, 100)].
Proof.
  rewrite (intra_dispatcher_delivers no_convert 5 0 [(1, Some 9, 11%nat); (2, None, 12%nat); (3, Some 9, 13%nat); (4, Some 8, 14%nat)] 100 (demo_info 9)); [reflexivity|].
  intros l1 self oppo cb l2 Heq.
  do 4 (destruct l1 as [|? l1]; cbn [app] in Heq; [injection Heq as <- <- <- _; vm_compute; set_solver|injection Heq as <- Heq]).
  by destruct l1.
Defined.
