(* ===== verification/Hybrid.v ===== *)
(** * Hybrid transport: transport/transmitter/hybrid_transmitter.h, transport/receiver/hybrid_receiver.h,
    transport/transmitter/transmitter.h

    A writer and its readers may share a process, a host or only a network; both ends choose the
    way they talk from the relation of their attributes and the configured modes.  The transmitters
    of the single modes are seen through their [enabled_] flag and the modes a message goes out on;
    whether enabling one succeeds is the parameter [enables].  The receivers of the single modes add
    and remove listeners on the dispatcher of their mode, which is an interface. *)

From Stdlib Require Import ZArith Lia Strings.Byte.
From stdpp Require Import base gmap sets strings functions list.
From S2P Require Import Prelude Role MessageInfo History ListenerHandler.

(** ** Modes and relations *)
Inductive OptionalMode := HYBRID | INTRA | SHM | RTPS.
Inductive Relation := NO_RELATION | DIFF_HOST | DIFF_PROC | SAME_PROC.

#[export] Instance OptionalMode_eq : EqDecision OptionalMode.
Proof. solve_decision. Defined.
#[export] Instance Relation_eq : EqDecision Relation.
Proof. solve_decision. Defined.
#[refine, export] Instance OptionalMode_countable : Countable OptionalMode :=
  inj_countable' (fun m => match m with HYBRID => 0 | INTRA => 1 | SHM => 2 | RTPS => 3 end)%nat
    (fun n => match n with 0 => HYBRID | 1 => INTRA | 2 => SHM | _ => RTPS end)%nat _.
Proof. by intros []. Defined.

(** The configured modes, with the defaults of the message. *)
Record CommunicationMode := mkMode { same_proc_ : option OptionalMode; diff_proc_ : option OptionalMode; diff_host_ : option OptionalMode }.
Definition same_proc (m : CommunicationMode) : OptionalMode := default INTRA (same_proc_ m).
Definition diff_proc (m : CommunicationMode) : OptionalMode := default SHM (diff_proc_ m).
Definition diff_host (m : CommunicationMode) : OptionalMode := default RTPS (diff_host_ m).

(** [InitMode] and [ObtainConfig]. *)
Definition obtain_mode (config : option CommunicationMode) : CommunicationMode := default (mkMode None None None) config.

(** [mapping_table_]; a relation it does not hold reads as the zero of the enumeration. *)
Definition mapping_table (m : CommunicationMode) (r : Relation) : OptionalMode :=
  match r with SAME_PROC => same_proc m | DIFF_PROC => diff_proc m | DIFF_HOST => diff_host m | NO_RELATION => HYBRID end.

Definition host_ip (a : RoleAttributes) : string := default "" (host_ip_ a).

Definition GetRelation (self opposite : RoleAttributes) : Relation :=
  if decide (channel_name opposite <> channel_name self) then NO_RELATION
  else if decide (host_ip opposite <> host_ip self) then DIFF_HOST
  else if decide (process_id opposite <> process_id self) then DIFF_PROC
  else SAME_PROC.

Definition modes (m : CommunicationMode) : list OptionalMode := [same_proc m; diff_proc m; diff_host m].

(** Getters of the QoS profile. *)
Definition qos_history (a : RoleAttributes) : QosHistoryPolicy := default HISTORY_KEEP_LAST (qos_profile_ a ≫= history).
Definition qos_depth (a : RoleAttributes) : Z := default 1 (qos_profile_ a ≫= depth).
Definition qos_durability (a : RoleAttributes) : QosDurabilityPolicy := default DURABILITY_VOLATILE (qos_profile_ a ≫= durability).
Definition transient_local (a : RoleAttributes) : bool := bool_decide (qos_durability a = DURABILITY_TRANSIENT_LOCAL).

Section Hybrid.
Context {M : Type}.

(** ** The transmitter *)
Section Transmitter.
Context (enables : OptionalMode -> bool).

(** [jobs] are the calls of [ThreadFunc] started by [TransmitHistoryMsg]. *)
Record HybridTransmitter := mkHT {
  ht_attr : RoleAttributes;
  ht_mode : CommunicationMode;
  ht_history : History (A := M * MessageInfo);
  transmitters_ : gmap OptionalMode bool;
  receivers_ : gmap OptionalMode (gset Z);
  seq_num_ : Z;
  msg_info_ : MessageInfo;
  jobs : list (RoleAttributes * list (M * MessageInfo))
}.

Definition with_tx (h : HybridTransmitter) (t : gmap OptionalMode bool) (r : gmap OptionalMode (gset Z)) : HybridTransmitter :=
  mkHT (ht_attr h) (ht_mode h) (ht_history h) t r (seq_num_ h) (msg_info_ h) (jobs h).

Definition InitHistory (limit : option Z) (attr : RoleAttributes) : History (A := M * MessageInfo) :=
  let h := History_new limit (mkHistoryAttr (qos_history attr) (qos_depth attr)) in
  if transient_local attr then set_enabled true h else h.

Definition InitTransmitters (m : CommunicationMode) : gmap OptionalMode bool := foldl (fun t k => <[k := false]> t) ∅ (modes m).
Definition InitReceivers (t : gmap OptionalMode bool) : gmap OptionalMode (gset Z) := (fun _ => ∅) <$> t.

(** The constructor; [sender] is the endpoint's identity. *)
Definition HybridTransmitter_new (config : option CommunicationMode) (limit : option Z) (attr : RoleAttributes) (sender : Identity) : HybridTransmitter :=
  let m := obtain_mode config in
  let t := InitTransmitters m in
  mkHT attr m (InitHistory limit attr) t (InitReceivers t) 0 (mkInfo sender 0 0 (mkId (replicate ID_SIZE Byte.x00) 0)) [].

Definition tx_enable (m : OptionalMode) (e : bool) : bool := if e then true else enables m.

Definition Enable_all (h : HybridTransmitter) : HybridTransmitter := with_tx h (map_imap (fun m e => Some (tx_enable m e)) (transmitters_ h)) (receivers_ h).
Definition Disable_all (h : HybridTransmitter) : HybridTransmitter := with_tx h ((fun _ => false) <$> transmitters_ h) (receivers_ h).

Definition TransmitHistoryMsg (h : HybridTransmitter) (opposite : RoleAttributes) : HybridTransmitter :=
  if negb (transient_local (ht_attr h)) then h
  else
    let unsent_msgs := default [] (GetCachedMessage (ht_history h) (Some [])) in
    if decide (unsent_msgs = []) then h
    else mkHT (ht_attr h) (ht_mode h) (ht_history h) (transmitters_ h) (receivers_ h) (seq_num_ h) (msg_info_ h) (jobs h ++ [(opposite, unsent_msgs)]).

(** [Enable(opposite_attr)]; [None] is the call through a null pointer for a mode without transmitter. *)
Definition Enable (h : HybridTransmitter) (opposite : RoleAttributes) : option HybridTransmitter :=
  let relation := GetRelation (ht_attr h) opposite in
  if decide (relation = NO_RELATION) then Some h
  else
    let m := mapping_table (ht_mode h) relation in
    let r := <[m := {[id opposite]} ∪ default ∅ (receivers_ h !! m)]> (receivers_ h) in
    e ← transmitters_ h !! m;
    Some (TransmitHistoryMsg (with_tx h (<[m := tx_enable m e]> (transmitters_ h)) r) opposite).

Definition Disable (h : HybridTransmitter) (opposite : RoleAttributes) : option HybridTransmitter :=
  let relation := GetRelation (ht_attr h) opposite in
  if decide (relation = NO_RELATION) then Some h
  else
    let m := mapping_table (ht_mode h) relation in
    let ids := default ∅ (receivers_ h !! m) ∖ {[id opposite]} in
    let r := <[m := ids]> (receivers_ h) in
    if decide (ids = ∅) then (e ← transmitters_ h !! m; Some (with_tx h (<[m := false]> (transmitters_ h)) r))
    else Some (with_tx h (transmitters_ h) r).

(** [Transmit(msg, msg_info)]: the modes the message goes out on. *)
Definition Transmit_info (h : HybridTransmitter) (msg : M) (info : MessageInfo) : list OptionalMode * HybridTransmitter :=
  ((filter (fun e => e.2 = true) (map_to_list (transmitters_ h))).*1,
   mkHT (ht_attr h) (ht_mode h) (Add (ht_history h) (msg, info)) (transmitters_ h) (receivers_ h) (seq_num_ h) (msg_info_ h) (jobs h)).

(** [Transmit(msg)] of the base class. *)
Definition Transmit (h : HybridTransmitter) (msg : M) : list OptionalMode * HybridTransmitter :=
  let seq_num := seq_num_ h +u 1 in
  let info := mkInfo (sender_id_ (msg_info_ h)) (MessageInfo.channel_id_ (msg_info_ h)) seq_num (spare_id_ (msg_info_ h)) in
  Transmit_info (mkHT (ht_attr h) (ht_mode h) (ht_history h) (transmitters_ h) (receivers_ h) seq_num info (jobs h)) msg info.
End Transmitter.

(** ** The receiver *)

(** What a receiver asks of the dispatcher of its mode: that it routes like a registry. *)
Class DispatcherOps (D : Type) := {
  d_step : D -> dispatch_op (M := M) -> list nat * D;
  d_rel : D -> channels -> Prop;
  d_refines d c o : d_rel d c -> dispatch_ok c o ->
    (d_step d o).1 = (channels_step c o).1 /\ d_rel (d_step d o).2 (channels_step c o).2
}.

#[export] Instance Dispatcher_ops : DispatcherOps (Dispatcher (M := M)) := {|
  d_step := dispatch_step; d_rel := dispatcher_rel; d_refines := dispatch_step_rel |}.

Context {D : Type} `{!DispatcherOps D}.

(** A receiver of message type [hr_type] with listener [hr_listener]; [hr_jobs] are the calls of
    [ThreadFunc] that wait for the history of a writer. *)
Record HybridReceiver := mkHR {
  hr_attr : RoleAttributes;
  hr_mode : CommunicationMode;
  hr_type : nat;
  hr_listener : nat;
  hr_transmitters : gmap OptionalMode (gmap Z RoleAttributes);
  hr_jobs : list RoleAttributes
}.

Definition HybridReceiver_new (config : option CommunicationMode) (attr : RoleAttributes) (ty listener : nat) : HybridReceiver :=
  let m := obtain_mode config in
  mkHR attr m ty listener (foldl (fun t k => <[k := ∅]> t) ∅ (modes m)) [].

(** The dispatcher the receiver of a mode uses: the switch of [InitReceivers]. *)
Definition kind (m : OptionalMode) : OptionalMode := match m with INTRA => INTRA | SHM => SHM | _ => RTPS end.

Definition on_dispatcher (disp : OptionalMode -> D) (m : OptionalMode) (o : dispatch_op (M := M)) : OptionalMode -> D :=
  <[kind m := (d_step (disp (kind m)) o).2]> disp.

(** [Enable(opposite_attr)] of the receiver, on the dispatchers of its process. *)
Definition REnable (r : HybridReceiver) (disp : OptionalMode -> D) (opposite : RoleAttributes) : HybridReceiver * (OptionalMode -> D) :=
  let relation := GetRelation (hr_attr r) opposite in
  if decide (relation = NO_RELATION) then (r, disp)
  else
    let m := mapping_table (hr_mode r) relation in
    let known := default ∅ (hr_transmitters r !! m) in
    if decide (known !! id opposite = None) then
      (mkHR (hr_attr r) (hr_mode r) (hr_type r) (hr_listener r) (<[m := <[id opposite := opposite]> known]> (hr_transmitters r))
         (if transient_local opposite then hr_jobs r ++ [opposite] else hr_jobs r),
       on_dispatcher disp m (DAdd (hr_type r) (channel_id (hr_attr r)) (id (hr_attr r)) (Some (id opposite)) (hr_listener r)))
    else (r, disp).

Definition RDisable (r : HybridReceiver) (disp : OptionalMode -> D) (opposite : RoleAttributes) : HybridReceiver * (OptionalMode -> D) :=
  let relation := GetRelation (hr_attr r) opposite in
  if decide (relation = NO_RELATION) then (r, disp)
  else
    let m := mapping_table (hr_mode r) relation in
    let known := default ∅ (hr_transmitters r !! m) in
    if decide (known !! id opposite = None) then (r, disp)
    else
      (mkHR (hr_attr r) (hr_mode r) (hr_type r) (hr_listener r) (<[m := delete (id opposite) known]> (hr_transmitters r)) (hr_jobs r),
       on_dispatcher disp m (DRemove (channel_id (hr_attr r)) (id (hr_attr r)) (Some (id opposite)))).

(** ** Both ends choose the same mode *)
Lemma GetRelation_sym a b : GetRelation a b = GetRelation b a.
Proof. unfold GetRelation. repeat case_decide; try done; exfalso; congruence. Qed.

(** The mode and id under which an end keeps a peer. *)
Definition peer (m : CommunicationMode) (self a : RoleAttributes) : option (OptionalMode * Z) :=
  if decide (GetRelation self a = NO_RELATION) then None else Some (mapping_table m (GetRelation self a), id a).

Definition joined (p : option (OptionalMode * Z)) (s : gset (OptionalMode * Z)) : gset (OptionalMode * Z) := if p is Some e then {[e]} ∪ s else s.
Definition left_by (p : option (OptionalMode * Z)) (s : gset (OptionalMode * Z)) : gset (OptionalMode * Z) := if p is Some e then s ∖ {[e]} else s.

Lemma mapping_modes m self a e : peer m self a = Some e -> e.1 ∈ modes m.
Proof. unfold peer, modes. case_decide; [done|]. intros [= <-]. cbn. destruct (GetRelation self a); cbn; set_solver. Qed.

(** *** The transmitter: a mode is on exactly while a reader uses it. *)
Record tx_ok (h : HybridTransmitter) (s : gset (OptionalMode * Z)) : Prop := {
  tx_modes : forall m, is_Some (transmitters_ h !! m) <-> m ∈ modes (ht_mode h);
  tx_ids : forall m i, i ∈ default ∅ (receivers_ h !! m) <-> (m, i) ∈ s;
  tx_on : forall m e, transmitters_ h !! m = Some e -> (e = true <-> default ∅ (receivers_ h !! m) <> ∅)
}.

Lemma init_lookup {V} (v : V) l (t : gmap OptionalMode V) k :
  foldl (fun t k => <[k := v]> t) t l !! k = if decide (k ∈ l) then Some v else t !! k.
Proof.
  revert t. induction l as [|x l IH]; intros t; cbn [foldl]; [done|]. rewrite IH. destruct (decide (x = k)) as [->|Hne].
  - rewrite lookup_insert_eq. by repeat case_decide; set_solver.
  - rewrite lookup_insert_ne by done. by repeat case_decide; set_solver.
Qed.

Lemma tx_new config limit attr sender : tx_ok (HybridTransmitter_new config limit attr sender) ∅.
Proof.
  unfold HybridTransmitter_new. set (m := obtain_mode config). split; cbn [transmitters_ receivers_ ht_mode]; unfold InitReceivers, InitTransmitters.
  - intros k. rewrite init_lookup, lookup_empty. case_decide; [by eauto|]. split; [by intros [? ?]|done].
  - intros k i. rewrite lookup_fmap. split; [|set_solver]. destruct (_ !! k); cbn; set_solver.
  - intros k e He. rewrite lookup_fmap, He. cbn. rewrite init_lookup, lookup_empty in He. case_decide; simplify_eq. done.
Qed.

Lemma tx_history h a s : tx_ok h s -> tx_ok (TransmitHistoryMsg h a) s /\ ht_attr (TransmitHistoryMsg h a) = ht_attr h /\
  ht_mode (TransmitHistoryMsg h a) = ht_mode h /\ transmitters_ (TransmitHistoryMsg h a) = transmitters_ h.
Proof.
  intros []. unfold TransmitHistoryMsg. destruct (negb _); [by split; [split|]|]. case_decide; [by split; [split|]|]. by split; [split|].
Qed.

Lemma tx_enable_ok h s a :
  tx_ok h s -> exists h', Enable (fun _ => true) h a = Some h' /\ tx_ok h' (joined (peer (ht_mode h) (ht_attr h) a) s) /\
    ht_attr h' = ht_attr h /\ ht_mode h' = ht_mode h.
Proof.
  intros Ht. pose proof Ht as [Hm Hi Ho]. unfold Enable, peer. case_decide as Hr; [by exists h|]. set (m := mapping_table _ _).
  assert (Hmm : m ∈ modes (ht_mode h)) by (apply (mapping_modes _ (ht_attr h) a (m, id a)); unfold peer; by rewrite decide_False).
  apply Hm in Hmm as [e He]. rewrite He. cbn [mbind option_bind joined]. set (h1 := with_tx _ _ _).
  destruct (tx_history h1 a ({[(m, id a)]} ∪ s)) as (H1 & H2 & H3 & _); [|eexists; split; [done|]; by rewrite H2, H3].
  split; cbn [h1 with_tx transmitters_ receivers_ ht_mode].
  - intros k. rewrite <- Hm, lookup_insert_is_Some. destruct (decide (m = k)) as [<-|]; [rewrite He|]; naive_solver.
  - intros k i. destruct (decide (m = k)) as [<-|Hne]; [rewrite lookup_insert_eq|rewrite lookup_insert_ne by done]; cbn [default from_option Datatypes.id].
    + rewrite elem_of_union, Hi. set_solver.
    + rewrite Hi. set_solver.
  - intros k e'. destruct (decide (m = k)) as [<-|Hne]; [rewrite !lookup_insert_eq|rewrite !lookup_insert_ne by done; apply Ho].
    intros [= <-]. cbn. unfold tx_enable. split; [set_solver|by destruct e].
Qed.

Lemma tx_disable_ok h s a :
  tx_ok h s -> exists h', Disable h a = Some h' /\ tx_ok h' (left_by (peer (ht_mode h) (ht_attr h) a) s) /\
    ht_attr h' = ht_attr h /\ ht_mode h' = ht_mode h.
Proof.
  intros Ht. pose proof Ht as [Hm Hi Ho]. unfold Disable, peer. case_decide as Hr; [by exists h|]. set (m := mapping_table _ _).
  assert (Hmm : m ∈ modes (ht_mode h)) by (apply (mapping_modes _ (ht_attr h) a (m, id a)); unfold peer; by rewrite decide_False).
  apply Hm in Hmm as [e He]. rewrite He. cbn [mbind option_bind left_by]. set (ids := default ∅ (receivers_ h !! m) ∖ {[id a]}).
  assert (Hids : forall k i, i ∈ default ∅ (<[m := ids]> (receivers_ h) !! k) <-> (k, i) ∈ s ∖ {[(m, id a)]}).
  { intros k i. destruct (decide (m = k)) as [<-|Hne]; [rewrite lookup_insert_eq|rewrite lookup_insert_ne by done]; cbn [default from_option Datatypes.id].
    - unfold ids. rewrite elem_of_difference, Hi. set_solver.
    - rewrite Hi. set_solver. }
  case_decide as Hem; eexists; (split; [done|]); (split; [|done]); split; cbn [with_tx transmitters_ receivers_ ht_mode]; try done.
  - intros k. rewrite <- Hm, lookup_insert_is_Some. destruct (decide (m = k)) as [<-|]; [rewrite He|]; naive_solver.
  - intros k e'. destruct (decide (m = k)) as [<-|Hne]; [rewrite !lookup_insert_eq|rewrite !lookup_insert_ne by done; apply Ho].
    intros [= <-]. cbn. split; [done|]. by rewrite Hem.
  - intros k e'. destruct (decide (m = k)) as [<-|Hne]; [rewrite lookup_insert_eq|rewrite lookup_insert_ne by done; apply Ho].
    rewrite He. intros [= <-]. cbn. split; [done|]. intros _. apply (Ho m e He). unfold ids in Hem. intros Hz. rewrite Hz in Hem. set_solver.
Qed.

(** *** The receiver: it is connected to a writer at most once, on one dispatcher. *)

(** The listeners of registry [r] for sender [o]: those of [self] are the receiver's own. *)
Record own_entries (self : Z) (cb : nat) (r : registry) (o : Z) (n : nat) : Prop := {
  oe_all : Forall (fun e => e.2 <> cb) r.1;
  oe_own : Forall (fun e => e.2 = cb <-> e.1 = self) (default [] (r.2 !! o));
  oe_count : length (filter (fun e => e.1 = self) (default [] (r.2 !! o))) = n
}.

(** The registry of a channel for listeners of type [ty]. *)
Definition reg_at (c : channels) (ch : Z) (ty : nat) (r : registry) : Prop :=
  closed c = false /\ default (ty, registry_empty) (regs c !! ch) = (ty, r).

Definition count_in (s : gset (OptionalMode * Z)) (k : OptionalMode) (o : Z) : nat := if decide ((k, o) ∈ s) then 1 else 0.

(** The receiver keeps the peers [s]. *)
Definition rx_knows (r : HybridReceiver) (s : gset (OptionalMode * Z)) : Prop :=
  forall m i, is_Some (default ∅ (hr_transmitters r !! m) !! i) <-> (m, i) ∈ s.

Record rx_ok (r : HybridReceiver) (disp : OptionalMode -> D) (s : gset (OptionalMode * Z)) : Prop := {
  rx_known : rx_knows r s;
  rx_disp : forall k, exists c reg, d_rel (disp k) c /\ reg_at c (channel_id (hr_attr r)) (hr_type r) reg /\
    forall o, own_entries (id (hr_attr r)) (hr_listener r) reg o (count_in s k o)
}.

(** No peer is kept under a mode that shares its dispatcher with another. *)
Definition plain (m : CommunicationMode) : Prop := HYBRID ∉ modes m.

Lemma kind_plain m k : plain m -> k ∈ modes m -> kind k = k.
Proof. intros Hp Hk. destruct k; try done. Qed.

Lemma own_skip self cb r o n : own_entries self cb r o n -> n = 0%nat -> self ∉ (default [] (r.2 !! o)).*1.
Proof.
  intros [_ _ Hc] -> Hin. apply list_elem_of_fmap in Hin as (e & -> & He).
  assert (e ∈ filter (fun x => x.1 = e.1) (default [] (r.2 !! o))) as Hf by (by apply list_elem_of_filter).
  destruct (filter _ _); [set_solver|done].
Qed.

(** Adding and removing the receiver's own entry for [o]. *)
Lemma own_add self cb r o n :
  (forall p, own_entries self cb r p (n p)) ->
  forall p, own_entries self cb (registry_step (M := M) r (HConnectOppo self o cb)).2 p (if decide (p = o) then S (n p) else n p).
Proof.
  intros H p. destruct (H p) as [H1 H2 H3]. destruct r as [all per]. cbn. split; cbn [fst snd] in *; [done|..]; (destruct (decide (p = o)) as [->|Hne];
    [rewrite lookup_insert_eq; cbn [default from_option Datatypes.id]|by rewrite lookup_insert_ne]).
  - apply Forall_app. split; [done|]. by repeat constructor.
  - rewrite filter_app, length_app, H3, filter_cons, decide_True by done. cbn. lia.
Qed.

Lemma own_remove self cb r o n :
  (forall p, own_entries self cb r p (n p)) ->
  forall p, own_entries self cb (registry_step (M := M) r (HDisconnectOppo self o)).2 p (if decide (p = o) then 0 else n p)%nat.
Proof.
  intros H p. destruct (H p) as [H1 H2 H3]. destruct r as [all per]. cbn. split; cbn [fst snd] in *; [done|..]; (destruct (decide (p = o)) as [->|Hne];
    [rewrite lookup_insert_eq; cbn [default from_option Datatypes.id]|by rewrite lookup_insert_ne]).
  - apply Forall_forall. intros e [_ He]%list_elem_of_filter. by apply (proj1 (Forall_forall _ _) H2).
  - rewrite filter_none_elem; [done|]. by intros e [Hne _]%list_elem_of_filter.
Qed.

(** One operation on the dispatcher of mode [m]. *)
Lemma rx_on_dispatcher r disp s s' m o (ho : handler_op (M := M)) :
  (forall k, exists c reg, d_rel (disp k) c /\ reg_at c (channel_id (hr_attr r)) (hr_type r) reg /\
    forall p, own_entries (id (hr_attr r)) (hr_listener r) reg p (count_in s k p)) ->
  kind m = m ->
  (forall c reg, reg_at c (channel_id (hr_attr r)) (hr_type r) reg -> (forall p, own_entries (id (hr_attr r)) (hr_listener r) reg p (count_in s m p)) ->
     dispatch_ok c o /\ exists c', (channels_step c o).2 = c' /\ reg_at c' (channel_id (hr_attr r)) (hr_type r) (registry_step reg ho).2 /\
     forall p, own_entries (id (hr_attr r)) (hr_listener r) (registry_step reg ho).2 p (count_in s' m p)) ->
  (forall k p, k <> m -> count_in s' k p = count_in s k p) ->
  forall k, exists c reg, d_rel (on_dispatcher disp m o k) c /\ reg_at c (channel_id (hr_attr r)) (hr_type r) reg /\
    forall p, own_entries (id (hr_attr r)) (hr_listener r) reg p (count_in s' k p).
Proof.
  intros Hd Hk Hop Hs k. unfold on_dispatcher. rewrite Hk. thread_cases k m.
  - destruct (Hd m) as (c & reg & Hrel & Hreg & Hown). destruct (Hop c reg Hreg Hown) as (Hok & c' & <- & Hreg' & Hown').
    exists (channels_step c o).2, (registry_step reg ho).2. split; [by apply d_refines|done].
  - destruct (Hd k) as (c & reg & Hrel & Hreg & Hown). exists c, reg. split; [done|]. split; [done|]. intros p. rewrite Hs by done. apply Hown.
Qed.

Lemma count_in_joined m i s k p : (m, i) ∉ s -> count_in ({[(m, i)]} ∪ s) k p = if decide (k = m /\ p = i) then S (count_in s k p) else count_in s k p.
Proof.
  intros Hn. unfold count_in. destruct (decide (k = m /\ p = i)) as [[-> ->]|Hne].
  - rewrite decide_True by set_solver. by rewrite decide_False.
  - destruct (decide ((k, p) ∈ s)); [rewrite decide_True by set_solver|rewrite decide_False]; [done|done|]. set_solver.
Qed.

Lemma count_in_left m i s k p : count_in (s ∖ {[(m, i)]}) k p = if decide (k = m /\ p = i) then 0%nat else count_in s k p.
Proof.
  unfold count_in. destruct (decide (k = m /\ p = i)) as [[-> ->]|Hne]; [rewrite decide_False by set_solver; done|].
  destruct (decide ((k, p) ∈ s)); [rewrite decide_True|rewrite decide_False]; set_solver.
Qed.

Lemma rx_new config attr ty cb : rx_knows (HybridReceiver_new config attr ty cb) ∅.
Proof.
  intros m i. unfold HybridReceiver_new. cbn [hr_transmitters]. rewrite init_lookup, lookup_empty.
  case_decide; cbn; rewrite lookup_empty; (split; [by intros [? ?]|set_solver]).
Qed.

Lemma REnable_knows r disp s a :
  rx_knows r s -> rx_knows (REnable r disp a).1 (joined (peer (hr_mode r) (hr_attr r) a) s).
Proof.
  intros Hkn. unfold REnable, peer. case_decide as Hr; [done|]. set (m := mapping_table _ _). cbn [joined]. case_decide as Hnew.
  - intros k i. cbn. destruct (decide (k = m)) as [->|Hne]; [rewrite lookup_insert_eq|rewrite lookup_insert_ne by done]; cbn [default from_option Datatypes.id].
    + destruct (decide (i = id a)) as [->|]; [rewrite lookup_insert_eq|rewrite lookup_insert_ne, (Hkn m i) by done]; set_solver.
    + rewrite (Hkn k i). set_solver.
  - assert (Hs : (m, id a) ∈ s) by (apply Hkn; by apply not_eq_None_Some). replace ({[(m, id a)]} ∪ s) with s by set_solver. done.
Qed.

Lemma RDisable_knows r disp s a :
  rx_knows r s -> rx_knows (RDisable r disp a).1 (left_by (peer (hr_mode r) (hr_attr r) a) s).
Proof.
  intros Hkn. unfold RDisable, peer. case_decide as Hr; [done|]. set (m := mapping_table _ _). cbn [left_by]. case_decide as Hnew.
  - assert (Hns : (m, id a) ∉ s) by (rewrite <- (Hkn m (id a)), Hnew; by intros [? ?]). replace (s ∖ {[(m, id a)]}) with s by set_solver. done.
  - intros k i. cbn. destruct (decide (k = m)) as [->|Hne]; [rewrite lookup_insert_eq|rewrite lookup_insert_ne by done]; cbn [default from_option Datatypes.id].
    + destruct (decide (i = id a)) as [->|]; [rewrite lookup_delete_eq; split; [by intros [? ?]|set_solver]|rewrite lookup_delete_ne, (Hkn m i) by done; set_solver].
    + rewrite (Hkn k i). set_solver.
Qed.

Lemma REnable_same r disp a : let r' := (REnable r disp a).1 in hr_attr r' = hr_attr r /\ hr_mode r' = hr_mode r.
Proof. unfold REnable. case_decide; [done|]. by case_decide. Qed.
Lemma RDisable_same r disp a : let r' := (RDisable r disp a).1 in hr_attr r' = hr_attr r /\ hr_mode r' = hr_mode r.
Proof. unfold RDisable. case_decide; [done|]. by case_decide. Qed.

Lemma rx_enable_ok r disp s a :
  rx_ok r disp s -> plain (hr_mode r) ->
  let '(r', disp') := REnable r disp a in
  rx_ok r' disp' (joined (peer (hr_mode r) (hr_attr r) a) s) /\ hr_attr r' = hr_attr r /\ hr_mode r' = hr_mode r /\
  hr_type r' = hr_type r /\ hr_listener r' = hr_listener r.
Proof.
  intros [Hkn Hd] Hp. pose proof (REnable_knows r disp s a Hkn) as Hkn'. revert Hkn'. unfold REnable, peer. case_decide as Hr; [done|]. set (m := mapping_table _ _). cbn [joined]. intros Hkn'.
  assert (Hm : m ∈ modes (hr_mode r)) by (apply (mapping_modes _ (hr_attr r) a (m, id a)); unfold peer; by rewrite decide_False).
  revert Hkn'. case_decide as Hnew; cbn [fst]; intros Hkn'.
  - assert (Hns : (m, id a) ∉ s) by (rewrite <- (Hkn m (id a)), Hnew; by intros [? ?]). split; [|done]. split; cbn [hr_transmitters hr_attr hr_type hr_listener].
    + exact Hkn'.
    + apply (rx_on_dispatcher r disp s _ m _ (HConnectOppo (id (hr_attr r)) (id a) (hr_listener r)) Hd); [by eapply kind_plain| |].
      * intros c reg [Hcl Hreg] Hown. assert (Hok : op_ok (M := M) reg (HConnectOppo (id (hr_attr r)) (id a) (hr_listener r))).
        { eapply own_skip; [apply Hown|]. unfold count_in. by rewrite decide_False. }
        cbn [dispatch_ok]. rewrite Hreg. split; [exact Hok|]. eexists. split; [done|]. unfold channels_step. rewrite Hcl, Hreg, decide_True by done.
        split; [split; [done|]; cbn; by rewrite lookup_insert_eq|]. intros p. rewrite count_in_joined by done.
        pose proof (own_add _ _ reg (id a) _ Hown p) as Ho. destruct (decide (p = id a)) as [->|]; [by rewrite decide_True|by rewrite decide_False by tauto].
      * intros k p Hne. rewrite count_in_joined by done. by rewrite decide_False by tauto.
  - assert (Hs : (m, id a) ∈ s) by (apply Hkn; by apply not_eq_None_Some). replace ({[(m, id a)]} ∪ s) with s by set_solver. done.
Qed.

Lemma rx_disable_ok r disp s a :
  rx_ok r disp s -> plain (hr_mode r) ->
  let '(r', disp') := RDisable r disp a in
  rx_ok r' disp' (left_by (peer (hr_mode r) (hr_attr r) a) s) /\ hr_attr r' = hr_attr r /\ hr_mode r' = hr_mode r /\
  hr_type r' = hr_type r /\ hr_listener r' = hr_listener r.
Proof.
  intros [Hkn Hd] Hp. pose proof (RDisable_knows r disp s a Hkn) as Hkn'. revert Hkn'. unfold RDisable, peer. case_decide as Hr; [done|]. set (m := mapping_table _ _). cbn [left_by]. intros Hkn'.
  assert (Hm : m ∈ modes (hr_mode r)) by (apply (mapping_modes _ (hr_attr r) a (m, id a)); unfold peer; by rewrite decide_False).
  revert Hkn'. case_decide as Hnew; cbn [fst]; intros Hkn'.
  - assert (Hns : (m, id a) ∉ s) by (rewrite <- (Hkn m (id a)), Hnew; by intros [? ?]). replace (s ∖ {[(m, id a)]}) with s by set_solver. done.
  - split; [|done]. split; cbn [hr_transmitters hr_attr hr_type hr_listener].
    + exact Hkn'.
    + apply (rx_on_dispatcher r disp s _ m _ (HDisconnectOppo (id (hr_attr r)) (id a)) Hd); [by eapply kind_plain| |].
      * intros c reg [Hcl Hreg] Hown. split; [done|]. eexists. split; [done|]. unfold channels_step. rewrite Hcl.
        assert (Hin : (m, id a) ∈ s) by (apply Hkn; by apply not_eq_None_Some).
        destruct (regs c !! channel_id (hr_attr r)) as [[ty' reg']|] eqn:Hc; cbn [default from_option Datatypes.id] in Hreg; simplify_eq.
        -- split; [split; [done|]; cbn; by rewrite lookup_insert_eq|]. intros p. rewrite count_in_left.
           pose proof (own_remove _ _ reg (id a) _ Hown p) as Ho. destruct (decide (p = id a)) as [->|]; [by rewrite decide_True|by rewrite decide_False by tauto].
        -- exfalso. destruct (Hown (id a)) as [_ _ Hc0]. unfold count_in in Hc0. by rewrite decide_True in Hc0.
      * intros k p Hne. rewrite count_in_left. by rewrite decide_False by tauto.
Qed.

(** ** A writer and a reader *)
Inductive hybrid_event := WEnable (a : RoleAttributes) | WDisable (a : RoleAttributes) | WTransmit (msg : M) | RJoin (a : RoleAttributes) | RLeave (a : RoleAttributes).

Record system := mkSys { sys_w : HybridTransmitter; sys_r : HybridReceiver; sys_disp : OptionalMode -> D }.

Definition hybrid_step (s : system) (e : hybrid_event) : option system :=
  match e with
  | WEnable a => (fun w => mkSys w (sys_r s) (sys_disp s)) <$> Enable (fun _ => true) (sys_w s) a
  | WDisable a => (fun w => mkSys w (sys_r s) (sys_disp s)) <$> Disable (sys_w s) a
  | WTransmit msg => Some (mkSys (Transmit (sys_w s) msg).2 (sys_r s) (sys_disp s))
  | RJoin a => let '(r, d) := REnable (sys_r s) (sys_disp s) a in Some (mkSys (sys_w s) r d)
  | RLeave a => let '(r, d) := RDisable (sys_r s) (sys_disp s) a in Some (mkSys (sys_w s) r d)
  end.

Definition hybrid_run (s : system) (evs : list hybrid_event) : option system := foldl (fun s e => s ≫= fun s => hybrid_step s e) (Some s) evs.

(** Who each end has been told of. *)
Definition wpeers (m : CommunicationMode) (self : RoleAttributes) (s : gset (OptionalMode * Z)) (e : hybrid_event) : gset (OptionalMode * Z) :=
  match e with WEnable a => joined (peer m self a) s | WDisable a => left_by (peer m self a) s | _ => s end.
Definition rpeers (m : CommunicationMode) (self : RoleAttributes) (s : gset (OptionalMode * Z)) (e : hybrid_event) : gset (OptionalMode * Z) :=
  match e with RJoin a => joined (peer m self a) s | RLeave a => left_by (peer m self a) s | _ => s end.

(** How often the reader's listener is called for one message of the writer; [reach m] says whether
    what the writer sends in mode [m] gets to the reader's process. *)
Definition receipts (s : system) (reach : OptionalMode -> bool) (msg : M) : nat :=
  let '(sent, w) := Transmit (sys_w s) msg in
  length (filter (fun cb => cb = hr_listener (sys_r s))
    (concat ((fun m => if reach m then (d_step (sys_disp s (kind m)) (DMessage (channel_id (hr_attr (sys_r s))) msg (msg_info_ w))).1 else []) <$> sent))).

Record sys_ok (s : system) (W R : gset (OptionalMode * Z)) : Prop := {
  so_w : tx_ok (sys_w s) W;
  so_r : rx_ok (sys_r s) (sys_disp s) R
}.

Definition same_ends (s s' : system) : Prop :=
  ht_attr (sys_w s') = ht_attr (sys_w s) /\ ht_mode (sys_w s') = ht_mode (sys_w s) /\ sender_id_ (msg_info_ (sys_w s')) = sender_id_ (msg_info_ (sys_w s)) /\
  hr_attr (sys_r s') = hr_attr (sys_r s) /\ hr_mode (sys_r s') = hr_mode (sys_r s) /\ hr_listener (sys_r s') = hr_listener (sys_r s).

Lemma tx_sender h a h' :
  (Enable (fun _ => true) h a = Some h' \/ Disable h a = Some h') -> msg_info_ h' = msg_info_ h.
Proof.
  intros [He|He].
  - unfold Enable in He. case_decide; [by simplify_eq|]. destruct (transmitters_ h !! _); [|done]. cbn [mbind option_bind] in He. injection He as <-.
    unfold TransmitHistoryMsg. destruct (negb _); [done|]. by case_decide.
  - unfold Disable in He. case_decide; [by simplify_eq|]. case_decide; [|by injection He as <-].
    destruct (transmitters_ h !! _); [|done]. by injection He as <-.
Qed.

Lemma hybrid_step_ok s W R e :
  sys_ok s W R -> plain (hr_mode (sys_r s)) ->
  exists s', hybrid_step s e = Some s' /\ same_ends s s' /\
    sys_ok s' (wpeers (ht_mode (sys_w s)) (ht_attr (sys_w s)) W e) (rpeers (hr_mode (sys_r s)) (hr_attr (sys_r s)) R e).
Proof.
  intros [Hw Hr] Hp. destruct e as [a|a|msg|a|a]; cbn [hybrid_step wpeers rpeers].
  - destruct (tx_enable_ok (sys_w s) W a Hw) as (h & He & Hok & H1 & H2). pose proof (tx_sender _ _ _ (or_introl He)) as H3. rewrite He.
    eexists. split; [done|]. split; [by repeat split; cbn; rewrite ?H3|by split].
  - destruct (tx_disable_ok (sys_w s) W a Hw) as (h & He & Hok & H1 & H2). pose proof (tx_sender _ _ _ (or_intror He)) as H3. rewrite He.
    eexists. split; [done|]. split; [by repeat split; cbn; rewrite ?H3|by split].
  - eexists. split; [done|]. split; [done|]. split; [|done]. destruct Hw. by split.
  - pose proof (rx_enable_ok (sys_r s) (sys_disp s) R a Hr Hp) as H. destruct (REnable (sys_r s) (sys_disp s) a) as [r d].
    destruct H as (Hok & H1 & H2 & H3 & H4). eexists. split; [done|]. split; [by repeat split|by split].
  - pose proof (rx_disable_ok (sys_r s) (sys_disp s) R a Hr Hp) as H. destruct (RDisable (sys_r s) (sys_disp s) a) as [r d].
    destruct H as (Hok & H1 & H2 & H3 & H4). eexists. split; [done|]. split; [by repeat split|by split].
Qed.

Lemma hybrid_run_ok s W R evs :
  sys_ok s W R -> plain (hr_mode (sys_r s)) ->
  exists s', hybrid_run s evs = Some s' /\ same_ends s s' /\
    sys_ok s' (foldl (wpeers (ht_mode (sys_w s)) (ht_attr (sys_w s))) W evs) (foldl (rpeers (hr_mode (sys_r s)) (hr_attr (sys_r s))) R evs).
Proof.
  intros Hok Hp. induction evs as [|e evs IH] using rev_ind; [by exists s|].
  destruct IH as (s1 & Hrun & (E1 & E2 & E3 & E4 & E5 & E6) & Hok1). unfold hybrid_run in *. rewrite !foldl_app, Hrun. cbn [foldl mbind option_bind].
  destruct (hybrid_step_ok s1 _ _ e Hok1) as (s2 & -> & (F1 & F2 & F3 & F4 & F5 & F6) & Hok2); [by rewrite E5|].
  exists s2. split; [done|]. split; [by split; [congruence|]; split; [congruence|]; split; [congruence|]; split; [congruence|]; split; congruence|].
  by rewrite E1, E2, E4, E5 in Hok2.
Qed.

(** How often a dispatcher calls the receiver's listener. *)
Lemma dispatcher_count r disp s k msg info :
  rx_ok r disp s ->
  length (filter (fun cb => cb = hr_listener r) (d_step (disp k) (DMessage (channel_id (hr_attr r)) msg info)).1) =
    count_in s k (HashValue (sender_id_ info)).
Proof.
  intros [_ Hd]. destruct (Hd k) as (c & reg & Hrel & [Hcl Hreg] & Hown). set (o := HashValue (sender_id_ info)).
  destruct (d_refines (disp k) c (DMessage (channel_id (hr_attr r)) msg info) Hrel I) as [-> _].
  destruct (Hown o) as [H1 H2 H3]. unfold channels_step. rewrite Hcl.
  destruct (regs c !! channel_id (hr_attr r)) as [[ty' reg']|]; cbn [default from_option Datatypes.id] in Hreg; simplify_eq; cbn [fst]; [|exact H3].
  destruct reg as [all per]. cbn [channel_op registry_step fst snd] in *. fold o. rewrite filter_app, length_app, <- H3.
  rewrite filter_none_elem.
  2:{ intros cb (e & -> & He)%list_elem_of_fmap. by apply (proj1 (Forall_forall _ _) H1). }
  cbn [length Nat.add]. clear - H2. induction H2 as [|e l He _ IH]; [done|]. cbn [fmap list_fmap]. rewrite !filter_cons.
  destruct (decide (e.1 = id (hr_attr r))) as [Hs|Hs]; [rewrite decide_True by (by apply He); cbn; by rewrite IH|].
  rewrite decide_False by (by rewrite He). done.
Qed.

Lemma count_concat {X Y} (P : Y -> Prop) `{!forall y, Decision (P y)} (f : X -> list Y) (l : list X) :
  length (filter P (concat (f <$> l))) = sum_list ((fun x => length (filter P (f x))) <$> l).
Proof. induction l as [|x l IH]; [done|]. cbn. by rewrite filter_app, length_app, IH. Qed.

Lemma sum_single {X} `{!EqDecision X} (g : X -> nat) (m : X) l :
  NoDup l -> (forall x, x ∈ l -> x <> m -> g x = 0%nat) -> sum_list (g <$> l) = if decide (m ∈ l) then g m else 0%nat.
Proof.
  induction 1 as [|x l Hx _ IH]; intros H0; [done|]. cbn [fmap list_fmap sum_list sum_list_with]. change (sum_list_with Datatypes.id (g <$> l)) with (sum_list (g <$> l)). rewrite IH by set_solver. cbn.
  destruct (decide (x = m)) as [->|Hne].
  - rewrite (decide_True (P := m ∈ m :: l)) by set_solver. rewrite decide_False by done. lia.
  - rewrite (H0 x) by set_solver. destruct (decide (m ∈ l)); [rewrite (decide_True (P := m ∈ x :: l)) by set_solver|rewrite (decide_False (P := m ∈ x :: l)) by set_solver]; done.
Qed.

Lemma NoDup_fst_filter {X Y} (P : X * Y -> Prop) `{!forall e, Decision (P e)} (l : list (X * Y)) : NoDup l.*1 -> NoDup (filter P l).*1.
Proof.
  induction l as [|e l IH]; [done|]. cbn [fmap list_fmap]. rewrite filter_cons. intros [Hx Hl]%NoDup_cons. case_decide; [|by apply IH].
  cbn [fmap list_fmap]. apply NoDup_cons. split; [|by apply IH]. intros (y & Hy & [_ Hin]%list_elem_of_filter)%list_elem_of_fmap.
  apply Hx. apply list_elem_of_fmap. by exists y.
Qed.

Lemma sent_modes (h : HybridTransmitter) s msg :
  tx_ok h s -> NoDup (Transmit h msg).1 /\ forall m, m ∈ (Transmit h msg).1 <-> (m ∈ modes (ht_mode h) /\ exists i, (m, i) ∈ s).
Proof.
  intros [Hm Hi Ho]. cbn [Transmit Transmit_info fst transmitters_]. split.
  - apply NoDup_fst_filter, NoDup_fst_map_to_list.
  - intros m. rewrite list_elem_of_fmap. split.
    + intros ([k e] & -> & [He Hin%elem_of_map_to_list]%list_elem_of_filter). cbn in *. subst e. split; [apply Hm; eauto|].
      pose proof (proj1 (Ho k true Hin) eq_refl) as Hne. apply set_choose_L in Hne as [i Hii]. exists i. by apply Hi.
    + intros [[e He]%Hm [i Hin%Hi]]. exists (m, e). split; [done|]. apply list_elem_of_filter. split; [|by apply elem_of_map_to_list].
      cbn. apply (Ho m e He). set_solver.
Qed.

(** The events tell the reader about the writer with the writer's own attributes. *)
Definition true_attrs (w : RoleAttributes) (e : hybrid_event) : Prop :=
  match e with RJoin a | RLeave a => id a = id w -> a = w | _ => True end.

Lemma rpeers_single m self w evs :
  Forall (true_attrs w) evs -> forall k, (k, id w) ∈ foldl (rpeers m self) ∅ evs -> peer m self w = Some (k, id w).
Proof.
  induction evs as [|e evs IH] using rev_ind; [set_solver|]. rewrite Forall_app, Forall_singleton, foldl_app. intros [He1 He2] k. cbn [foldl].
  specialize (IH He1 k). set (R := foldl _ ∅ evs) in *. destruct e as [a|a|msg|a|a]; cbn [rpeers]; try done.
  - unfold joined. destruct (peer m self a) as [x|] eqn:Hpa; [|done]. rewrite elem_of_union, elem_of_singleton. intros [<-|?]; [|auto].
    assert (a = w) as ->; [|done]. apply He2. unfold peer in Hpa. case_decide; [done|]. by injection Hpa.
  - unfold left_by. destruct (peer m self a); [set_solver|done].
Qed.

(** A writer that is not TRANSIENT_LOCAL queues no history. *)
Definition no_history (J : list (RoleAttributes * list (M * MessageInfo))) (s : system) : Prop :=
  transient_local (ht_attr (sys_w s)) = false /\ jobs (sys_w s) = J.
Lemma no_history_step J s s' e : no_history J s -> hybrid_step s e = Some s' -> no_history J s'.
Proof.
  intros [Ht HJ] Hs. unfold no_history. destruct e as [a|a|msg|a|a]; cbn [hybrid_step] in Hs.
  - destruct (Enable _ _ a) as [w|] eqn:He; [|done]. injection Hs as <-. unfold Enable in He. case_decide; [by simplify_eq|].
    destruct (transmitters_ _ !! _); [|done]. cbn [mbind option_bind] in He. injection He as <-. unfold TransmitHistoryMsg. cbn [with_tx ht_attr]. by rewrite Ht.
  - destruct (Disable _ a) as [w|] eqn:He; [|done]. injection Hs as <-. unfold Disable in He. case_decide; [by simplify_eq|]. case_decide; [|by injection He as <-].
    destruct (transmitters_ _ !! _); [|done]. by injection He as <-.
  - by injection Hs as <-.
  - destruct (REnable _ _ a). by injection Hs as <-.
  - destruct (RDisable _ _ a). by injection Hs as <-.
Qed.
Lemma no_history_run J s evs s' : no_history J s -> hybrid_run s evs = Some s' -> no_history J s'.
Proof.
  intros Hs. revert s'. induction evs as [|e evs IH] using rev_ind; [by intros s' [= <-]|]. intros s'. unfold hybrid_run. rewrite foldl_app. cbn [foldl].
  change (foldl _ (Some s) evs) with (hybrid_run s evs). destruct (hybrid_run s evs) as [s1|]; [|done]. apply no_history_step. by apply IH.
Qed.


(** Both ends as constructed, on dispatchers nobody listens on yet. *)
Lemma system_new_ok config limit wattr sender rattr ty cb disp :
  (forall k, d_rel (disp k) channels_new) ->
  sys_ok (mkSys (HybridTransmitter_new config limit wattr sender) (HybridReceiver_new config rattr ty cb) disp) ∅ ∅.
Proof.
  intros Hd. split; [apply tx_new|]. split; cbn [sys_r sys_disp HybridReceiver_new hr_transmitters hr_attr hr_type hr_listener].
  - apply rx_new.
  - intros k. exists channels_new, registry_empty. split; [done|]. split; [split; [done|]; cbn; by rewrite lookup_empty|].
    intros o. split; cbn; [constructor|..]; rewrite lookup_empty; [constructor|]. unfold count_in. by rewrite decide_False by set_solver.
Qed.
End Hybrid.

(** ** Examples *)
Definition end_attr (host : string) (process i : Z) : RoleAttributes :=
  mkAttr None (Some host) (Some process) None None (Some "/chatter"%string) (Some 77) None None (Some i)
    (Some (mkQos None (Some 10) None None (Some DURABILITY_TRANSIENT_LOCAL))) None None None.

Definition demo_system : system (M := Z) (D := Dispatcher (M := Z)) :=
  mkSys (HybridTransmitter_new None None (end_attr "10.0.0.1" 100 5) (mkId [] 5))
    (HybridReceiver_new None (end_attr "10.0.0.1" 200 6) 0 3) (fun _ => Dispatcher_new).

(** The reader of another process on the host joins, then one on another host and one in the writer's
    process; the reader hears of the writer, of its leaving and of its return. *)
Definition demo_events : list (hybrid_event (M := Z)) :=
  [WEnable (end_attr "10.0.0.1" 200 6); RJoin (end_attr "10.0.0.1" 100 5); WEnable (end_attr "10.0.0.2" 1 7); WTransmit 41;
   WEnable (end_attr "10.0.0.1" 100 8); RJoin (end_attr "10.0.0.1" 100 5); RLeave (end_attr "10.0.0.1" 100 5); WDisable (end_attr "10.0.0.2" 1 7);
   RJoin (end_attr "10.0.0.1" 100 5)].


(** A reader that is announced twice is sent the history twice: the transmitter does not look whether it
    has the id already, as the receiver does. *)
Theorem history_sent_twice :
  let w := (Transmit (HybridTransmitter_new (M := Z) None None (end_attr "10.0.0.1" 100 5) (mkId [] 5)) 41).2 in
  (w ← Enable (fun _ => true) w (end_attr "10.0.0.1" 200 6); w ← Enable (fun _ => true) w (end_attr "10.0.0.1" 200 6);
   Some (fst <$> (mjoin (snd <$> jobs w)))) = Some [41; 41].
Proof. by vm_compute. Qed.
