(* ===== verification/ShmBlocks.v ===== *)
(** * Blocks of shared memory: transport/shm/block.cc, block.h, state.h and the block operations of
    transport/shm/segment.cc

    Writers of all processes draw block numbers from the counter [seq_] of the segment and lock
    the block they get; readers lock the block they were told about.  The lock operations are
    split at their atomic accesses; what a writer puts into a block is incomplete ([None]) from
    its first store to its last. *)

From Stdlib Require Import ZArith Lia.
From stdpp Require Import base gmap sets functions numbers list.
From S2P Require Import Prelude.

Section ShmBlocks.
Context {M : Type}.

Definition kRWLockFree : Z := 0.
Definition kWriteExclusive : Z := -1.
Definition kMaxTryLockTimes : Z := 5.

Record Block := mkBlock { lock_num_ : Z; contents : option M }.

Definition set_lock (b : Block) (n : Z) : Block := mkBlock n (contents b).
Definition set_contents (b : Block) (d : option M) : Block := mkBlock (lock_num_ b) d.

(** The counter and the blocks of a mapped segment, and the completed writes. *)
Record Blocks := mkBlocks { seq_ : Z; blocks_ : list Block; written : list (nat * M) }.

Definition FetchAddSeq (s : Blocks) (diff : Z) : Z * Blocks :=
  (seq_ s, mkBlocks (u32 (seq_ s + diff)) (blocks_ s) (written s)).

Definition upd (s : Blocks) (i : nat) (f : Block -> Block) : Blocks :=
  mkBlocks (seq_ s) (alter f i (blocks_ s)) (written s).

Definition lock_of (s : Blocks) (i : nat) : Z := default 0 (lock_num_ <$> blocks_ s !! i).

(** [TryLockForWrite]: one compare-and-swap. *)
Definition TryLockForWrite (spurious : bool) (s : Blocks) (i : nat) : bool * Blocks :=
  if cas_weak spurious (lock_of s i) kRWLockFree then (true, upd s i (fun b => set_lock b kWriteExclusive)) else (false, s).

Definition ReleaseWriteLock (s : Blocks) (i : nat) : Blocks := upd s i (fun b => set_lock b (i32 (lock_num_ b + 1))).
Definition ReleaseReadLock (s : Blocks) (i : nat) : Blocks := upd s i (fun b => set_lock b (i32 (lock_num_ b - 1))).

(** Where a thread is: drawing a number, trying a block, filling it, releasing it; loading the
    lock of a block to read, swapping it, reading, releasing. *)
Inductive pc :=
| SIdle
| WSeq (m : M)
| WTry (m : M) (i : nat)
| WBegin (m : M) (i : nat)
| WFill (m : M) (i : nat)
| WDone (i : nat)
| RLoad (i : nat) (try_times : Z)
| RCas (i : nat) (lock_num try_times : Z)
| RRead (i : nat)
| RGot (i : nat) (d : option M).

Inductive event := StartWrite (m : M) | StartRead (i : nat) | Go (spurious : bool).

(** [GetNextWritableBlockIndex] and [TryLockForWrite], then the stores into the block and
    [ReleaseWrittenBlock]. *)
Definition Write_step (s : Blocks) (spurious : bool) (p : pc) : Blocks * pc :=
  match p with
  | WSeq m =>
      let '(q, s') := FetchAddSeq s 1 in (s', WTry m (Z.to_nat (q mod Z.of_nat (length (blocks_ s)))))
  | WTry m i =>
      let '(ok, s') := TryLockForWrite spurious s i in if ok then (s', WBegin m i) else (s', WSeq m)
  | WBegin m i => (upd s i (fun b => set_contents b None), WFill m i)
  | WFill m i =>
      let s' := upd s i (fun b => set_contents b (Some m)) in (mkBlocks (seq_ s') (blocks_ s') (written s' ++ [(i, m)]), WDone i)
  | WDone i => (ReleaseWriteLock s i, SIdle)
  | _ => (s, p)
  end.

(** [TryLockForRead], the reading of the block and [ReleaseReadBlock]. *)
Definition Read_step (s : Blocks) (spurious : bool) (p : pc) : Blocks * pc :=
  match p with
  | RLoad i k => if lock_of s i <? kRWLockFree then (s, SIdle) else (s, RCas i (lock_of s i) k)
  | RCas i n k =>
      if cas_weak spurious (lock_of s i) n then (upd s i (fun b => set_lock b (i32 (n + 1))), RRead i)
      else if k + 1 =? kMaxTryLockTimes then (s, SIdle) else (s, RLoad i (k + 1))
  | RRead i => (s, RGot i (blocks_ s !! i ≫= contents))
  | RGot i d => (ReleaseReadLock s i, SIdle)
  | _ => (s, p)
  end.

Definition block_thread (s : Blocks) (p : pc) (e : event) : Blocks * pc :=
  match p, e with
  | SIdle, StartWrite m => (s, WSeq m)
  | SIdle, StartRead i =>
      if Z.of_nat (length (blocks_ s)) <=? Z.of_nat i then (s, SIdle) else (s, RLoad i 0)
  | (WSeq _ | WTry _ _ | WBegin _ _ | WFill _ _ | WDone _), Go b => Write_step s b p
  | (RLoad _ _ | RCas _ _ _ | RRead _ | RGot _ _), Go b => Read_step s b p
  | _, _ => (s, p)
  end.

Definition blocks_init (block_num : nat) (seq : Z) : @conf Blocks pc :=
  Conf (mkBlocks seq (replicate block_num (mkBlock 0 None)) []) (fun _ => SIdle).

(** The threads that hold block [i]. *)
Definition reads_at (i : nat) (p : pc) : bool :=
  match p with RRead j | RGot j _ => bool_decide (i = j) | _ => false end.
Definition writes_at (i : nat) (p : pc) : bool :=
  match p with WBegin _ j | WFill _ j | WDone j => bool_decide (i = j) | _ => false end.

Definition fills_at (i : nat) (p : pc) : bool := match p with WFill _ j => bool_decide (i = j) | _ => false end.

(** The message of the last completed write into block [i]. *)
Definition last_write (i : nat) (l : list (nat * M)) : option M := last (filter (fun x => x.1 = i) l).*2.

(** ** The invariant *)
Record block_ok (n : nat) (c : @conf Blocks pc) (i : nat) (b : Block) : Prop := {
  bo_sets : exists R W : gset nat,
    tracks (reads_at i) (pcs c) R /\ tracks (writes_at i) (pcs c) W /\
    lock_num_ b = Z.of_nat (size R) - Z.of_nat (size W) /\ (size W <= 1)%nat /\ (W <> ∅ -> R = ∅) /\ (size R <= n)%nat;
  bo_data : (forall u, fills_at i (pcs c u) = false) -> contents b = last_write i (written (shared c))
}.

(** The block a thread works on. *)
Definition index_of (p : pc) : option nat :=
  match p with
  | SIdle | WSeq _ => None
  | WTry _ i | WBegin _ i | WFill _ i | WDone i | RLoad i _ | RCas i _ _ | RRead i | RGot i _ => Some i
  end.

Record pc_ok (s : Blocks) (p : pc) : Prop := {
  po_cas : forall i n k, p = RCas i n k -> 0 <= n;
  po_range : forall i, index_of p = Some i -> is_Some (blocks_ s !! i);
  po_got : forall i d, p = RGot i d -> (blocks_ s !! i ≫= contents) = d
}.

Record blocks_inv (n : nat) (c : @conf Blocks pc) : Prop := {
  bi_blocks : forall i b, blocks_ (shared c) !! i = Some b -> block_ok n c i b;
  bi_pcs : forall u, pc_ok (shared c) (pcs c u);
  bi_some : blocks_ (shared c) <> []
}.

(** What a step of a thread does to the locks of a block it does not touch. *)
Definition alike (i : nat) (p p' : pc) : Prop :=
  reads_at i p' = reads_at i p /\ writes_at i p' = writes_at i p /\ fills_at i p' = fills_at i p.

Lemma block_ok_alike n c t s' p' i b :
  block_ok n c i b -> alike i (pcs c t) p' -> last_write i (written s') = last_write i (written (shared c)) ->
  block_ok (n + 1) (Conf s' (<[t := p']> (pcs c))) i b.
Proof.
  intros [(R & W & HR & HW & ? & ? & ? & ?) Hd] (Ha1 & Ha2 & Ha3) Hl. split; cbn.
  - exists R, W. split_and!; try (by apply tracks_same); try done; lia.
  - intros Hf. rewrite Hl. apply Hd. intros u. specialize (Hf u). thread_cases u t; [|done]. by rewrite <- Ha3.
Qed.

(** A step that leaves the blocks alone. *)
Lemma inv_quiet n c t s' p' :
  blocks_inv n c -> blocks_ s' = blocks_ (shared c) -> written s' = written (shared c) ->
  (forall i, alike i (pcs c t) p') -> pc_ok (shared c) p' ->
  blocks_inv (n + 1) (Conf s' (<[t := p']> (pcs c))).
Proof.
  intros [Hb Hp Hne] Hs Hw Ha Hp'. split; cbn; [| |by rewrite Hs].
  - intros i b. rewrite Hs. intros Hi. apply block_ok_alike; [by apply Hb|done|by rewrite Hw].
  - intros u. assert (Hk : forall p, pc_ok (shared c) p -> pc_ok s' p) by (intros p [? ? ?]; split; by rewrite ?Hs).
    apply Hk. thread_cases u t; [done|apply Hp].
Qed.

(** A step that changes block [i]. *)
Lemma inv_change n c t s' p' i b b' :
  blocks_inv n c -> blocks_ (shared c) !! i = Some b -> blocks_ s' = <[i := b']> (blocks_ (shared c)) ->
  (forall j, j <> i -> last_write j (written s') = last_write j (written (shared c))) ->
  (forall j, j <> i -> alike j (pcs c t) p') ->
  block_ok (n + 1) (Conf s' (<[t := p']> (pcs c))) i b' -> pc_ok s' p' ->
  (forall u d, u <> t -> pcs c u = RGot i d -> contents b' = contents b) ->
  blocks_inv (n + 1) (Conf s' (<[t := p']> (pcs c))).
Proof.
  intros [Hb Hp Hsome] Hi Hs Hw Ha Hok Hp' Hst. split; cbn; [| |rewrite Hs; by intros ?%(f_equal length); rewrite length_insert in *; destruct (blocks_ (shared c))].
  - intros j x. rewrite Hs. intros [(<- & <- & _)|[Hne Hj]]%list_lookup_insert_Some; [done|].
    apply block_ok_alike; [by apply Hb|by apply Ha|by apply Hw].
  - intros u. thread_cases u t; [done|]. destruct (Hp u) as [H1 H2 H3]. split; [done| |].
    + intros j Hj. rewrite Hs. destruct (decide (j = i)) as [->|Hne].
      * rewrite list_lookup_insert_eq by (by eapply lookup_lt_Some). done.
      * rewrite list_lookup_insert_ne by done. by apply H2.
    + intros j d Hd. rewrite Hs. specialize (H3 j d Hd). destruct (decide (j = i)) as [->|Hne].
      * rewrite list_lookup_insert_eq by (by eapply lookup_lt_Some). rewrite Hi in H3. cbn in *. rewrite (Hst u d); done.
      * by rewrite list_lookup_insert_ne.
Qed.

Lemma upd_blocks s i f b : blocks_ s !! i = Some b -> blocks_ (upd s i f) = <[i := f b]> (blocks_ s).
Proof.
  intros Hi. cbn. apply list_eq. intros j. destruct (decide (j = i)) as [->|].
  - by rewrite list_lookup_alter_eq, Hi, list_lookup_insert_eq by (by eapply lookup_lt_Some).
  - by rewrite list_lookup_alter_ne, list_lookup_insert_ne.
Qed.

Lemma lock_of_eq s i b : blocks_ s !! i = Some b -> lock_of s i = lock_num_ b.
Proof. intros Hi. unfold lock_of. by rewrite Hi. Qed.

(** The sets of holders of a block when nobody writes it, or somebody does. *)
Lemma no_writer n c i b :
  block_ok n c i b -> 0 <= lock_num_ b ->
  (forall u, writes_at i (pcs c u) = false) /\ exists R, tracks (reads_at i) (pcs c) R /\ lock_num_ b = Z.of_nat (size R) /\ (size R <= n)%nat.
Proof.
  intros [(R & W & HR & HW & Hn & HW1 & HWR & HRn) _] H0.
  assert (W = ∅) as ->.
  { destruct (decide (W = ∅)) as [|Hne]; [done|]. rewrite (HWR Hne) in Hn. rewrite size_empty in Hn.
    assert (size W <> 0%nat) by (intros ?%tracks_empty_size; done). lia. }
  split; [|exists R; rewrite size_empty in Hn; split_and!; [done|lia|done]].
  intros u. destruct (writes_at i (pcs c u)) eqn:Hu; [|done]. apply (HW u) in Hu. set_solver.
Qed.

Lemma writer_alone n c i b t :
  block_ok n c i b -> writes_at i (pcs c t) = true ->
  lock_num_ b = -1 /\ (forall u, reads_at i (pcs c u) = false) /\ (forall u, u <> t -> writes_at i (pcs c u) = false).
Proof.
  intros [(R & W & HR & HW & Hn & HW1 & HWR & HRn) _] Ht. pose proof (proj2 (HW t) Ht) as HtW.
  assert (W = {[t]}) as ->.
  { assert (size W = 1%nat) as [x Hx%leibniz_equiv]%size_1_elem_of; [|subst; set_solver].
    assert (size W <> 0%nat) by (intros ->%tracks_empty_size; set_solver). lia. }
  assert (R = ∅) as -> by (apply HWR; set_solver). rewrite size_empty, size_singleton in Hn. split; [lia|]. split.
  - intros u. destruct (reads_at i (pcs c u)) eqn:Hu; [|done]. apply (HR u) in Hu. set_solver.
  - intros u Hne. destruct (writes_at i (pcs c u)) eqn:Hu; [|done]. apply (HW u) in Hu. set_solver.
Qed.

Ltac alike_tac := intros; unfold alike; cbn; rewrite ?bool_decide_eq_false_2 by done; done.

(** The condition on the contents after a step of [t] that stores nothing. *)
Lemma data_kept n c t p' i b s' :
  block_ok n c i b -> written s' = written (shared c) -> fills_at i (pcs c t) = false ->
  (forall u, fills_at i (pcs (Conf s' (<[t := p']> (pcs c))) u) = false) ->
  contents b = last_write i (written s').
Proof.
  intros Hok Hw Ht Hf. rewrite Hw. apply (bo_data _ _ _ _ Hok). intros u. specialize (Hf u). cbn in Hf.
  by thread_cases u t.
Qed.

Lemma write_enters n c t m i b :
  blocks_inv n c -> pcs c t = WTry m i -> blocks_ (shared c) !! i = Some b -> lock_num_ b = 0 ->
  blocks_inv (n + 1) (Conf (upd (shared c) i (fun b => set_lock b kWriteExclusive)) (<[t := WBegin m i]> (pcs c))).
Proof.
  intros Hinv Hpc Hi H0. pose proof (bi_blocks _ _ Hinv i b Hi) as Hok.
  destruct (no_writer _ _ _ _ Hok ltac:(lia)) as (Hnw & R & HR & HRn & _).
  assert (R = ∅) as -> by (apply tracks_empty_size; lia).
  apply (inv_change n c t _ _ i b (set_lock b (-1))); try done.
  - exact (upd_blocks _ _ _ _ Hi).
  - rewrite Hpc. alike_tac.
  - assert (HW : tracks (writes_at i) (pcs c) ∅) by (intros u; rewrite Hnw; set_solver).
    destruct (tracks_add (writes_at i) (pcs c) t (WBegin m i) ∅ HW) as [HW' Hs]; [cbn; by rewrite bool_decide_eq_true_2|by rewrite Hpc|].
    split.
    + exists ∅, ({[t]} ∪ ∅). cbn. rewrite Hs, size_empty. split_and!; try done; try lia. by apply tracks_same; [|rewrite Hpc].
    + exact (data_kept n c t _ i b _ Hok eq_refl ltac:(by rewrite Hpc)).
  - split; [done| |done]. intros j [= <-].
    rewrite (upd_blocks _ _ _ _ Hi), list_lookup_insert_eq by (by eapply lookup_lt_Some). done.
Qed.

Lemma read_enters n c t i k b :
  Z.of_nat n + 1 < two31 -> blocks_inv n c -> pcs c t = RCas i (lock_num_ b) k -> blocks_ (shared c) !! i = Some b ->
  blocks_inv (n + 1) (Conf (upd (shared c) i (fun b' => set_lock b' (i32 (lock_num_ b + 1)))) (<[t := RRead i]> (pcs c))).
Proof.
  intros Hn Hinv Hpc Hi. pose proof (bi_blocks _ _ Hinv i b Hi) as Hok.
  pose proof (po_cas _ _ (bi_pcs _ _ Hinv t) _ _ _ Hpc) as H0.
  destruct (no_writer _ _ _ _ Hok H0) as (Hnw & R & HR & HRn & HRle).
  apply (inv_change n c t _ _ i b (set_lock b (i32 (lock_num_ b + 1)))); try done.
  - exact (upd_blocks _ _ _ _ Hi).
  - rewrite Hpc. alike_tac.
  - destruct (tracks_add (reads_at i) (pcs c) t (RRead i) R HR) as [HR' Hs]; [cbn; by rewrite bool_decide_eq_true_2|by rewrite Hpc|].
    split.
    + exists ({[t]} ∪ R), ∅. cbn. rewrite Hs, size_empty, i32_small by word_lia. split_and!; try done; try lia.
      apply tracks_same; [intros u; rewrite Hnw; set_solver|by rewrite Hpc].
    + exact (data_kept n c t _ i b _ Hok eq_refl ltac:(by rewrite Hpc)).
  - split; [done| |done]. intros j [= <-].
    rewrite (upd_blocks _ _ _ _ Hi), list_lookup_insert_eq by (by eapply lookup_lt_Some). done.
Qed.

Lemma read_leaves n c t i d b :
  Z.of_nat n + 1 < two31 -> blocks_inv n c -> pcs c t = RGot i d -> blocks_ (shared c) !! i = Some b ->
  blocks_inv (n + 1) (Conf (ReleaseReadLock (shared c) i) (<[t := SIdle]> (pcs c))).
Proof.
  intros Hn Hinv Hpc Hi. pose proof (bi_blocks _ _ Hinv i b Hi) as Hok.
  apply (inv_change n c t _ _ i b (set_lock b (i32 (lock_num_ b - 1)))); try done.
  - exact (upd_blocks _ _ _ _ Hi).
  - rewrite Hpc. alike_tac.
  - destruct (bo_sets _ _ _ _ Hok) as (R & W & HR & HW & HRn & HW1 & HWR & HRle).
    destruct (tracks_del (reads_at i) (pcs c) t SIdle R HR) as [HR' Hs]; [done|rewrite Hpc; cbn; by rewrite bool_decide_eq_true_2|].
    split.
    + exists (R ∖ {[t]}), W. cbn. rewrite i32_small by word_lia. split_and!; try done; try lia.
      * by apply tracks_same; [|rewrite Hpc].
      * intros Hne. rewrite (HWR Hne). set_solver.
    + exact (data_kept n c t _ i b _ Hok eq_refl ltac:(by rewrite Hpc)).
Qed.

Lemma last_write_snoc i j m l : last_write i (l ++ [(j, m)]) = if decide (j = i) then Some m else last_write i l.
Proof.
  unfold last_write. rewrite filter_app, fmap_app. destruct (decide (j = i)) as [->|Hne].
  - rewrite filter_cons_True by done. cbn. by rewrite last_snoc.
  - rewrite filter_cons_False by done. cbn. by rewrite app_nil_r.
Qed.

(** The writer of block [i] stores into it. *)
Lemma write_stores n c t i b p' d l :
  blocks_inv n c -> blocks_ (shared c) !! i = Some b -> writes_at i (pcs c t) = true -> writes_at i p' = true ->
  reads_at i p' = false -> (forall j, j <> i -> alike j (pcs c t) p') -> pc_ok (upd (shared c) i (fun b => set_contents b d)) p' ->
  (forall j, j <> i -> last_write j l = last_write j (written (shared c))) ->
  (fills_at i p' = false -> d = last_write i l) ->
  let s' := upd (shared c) i (fun b => set_contents b d) in
  blocks_inv (n + 1) (Conf (mkBlocks (seq_ s') (blocks_ s') l) (<[t := p']> (pcs c))).
Proof.
  intros Hinv Hi Ht Hw' Hr' Ha Hp' Hl Hd s'. pose proof (bi_blocks _ _ Hinv i b Hi) as Hok.
  destruct (writer_alone _ _ _ _ t Hok Ht) as (Hlock & Hnr & Hnw).
  apply (inv_change n c t _ _ i b (set_contents b d)); try done.
  - exact (upd_blocks _ _ _ _ Hi).
  - destruct (bo_sets _ _ _ _ Hok) as (R & W & HR & HW & HRn & HW1 & HWR & HRle). split.
    + exists R, W. cbn. split_and!; try done; try lia; apply tracks_same; try done; by rewrite ?Ht, ?Hnr.
    + intros Hf. cbn. specialize (Hf t). cbn in Hf. rewrite fn_lookup_insert in Hf. by apply Hd.
  - by destruct Hp'.
  - intros u e Hne Hu. specialize (Hnr u). rewrite Hu in Hnr. cbn in Hnr. by rewrite bool_decide_eq_true_2 in Hnr.
Qed.

Lemma write_leaves n c t i b :
  blocks_inv n c -> pcs c t = WDone i -> blocks_ (shared c) !! i = Some b ->
  blocks_inv (n + 1) (Conf (ReleaseWriteLock (shared c) i) (<[t := SIdle]> (pcs c))).
Proof.
  intros Hinv Hpc Hi. pose proof (bi_blocks _ _ Hinv i b Hi) as Hok.
  assert (Ht : writes_at i (pcs c t) = true) by (rewrite Hpc; cbn; by rewrite bool_decide_eq_true_2).
  destruct (writer_alone _ _ _ _ t Hok Ht) as (Hlock & Hnr & Hnw).
  apply (inv_change n c t _ _ i b (set_lock b (i32 (lock_num_ b + 1)))); try done.
  - exact (upd_blocks _ _ _ _ Hi).
  - rewrite Hpc. alike_tac.
  - split.
    + exists ∅, ∅. cbn. rewrite Hlock, size_empty. split_and!; try done; try lia; intros u; cbn.
      * thread_cases u t; [set_solver|]. rewrite Hnr. set_solver.
      * thread_cases u t; [set_solver|]. rewrite Hnw by done. set_solver.
    + exact (data_kept n c t _ i b _ Hok eq_refl ltac:(by rewrite Hpc)).
Qed.

(** A thread whose next place needs nothing but its index. *)
Lemma pc_ok_index s p i :
  is_Some (blocks_ s !! i) -> index_of p = Some i -> (forall j m k, p <> RCas j m k) -> (forall j d, p <> RGot j d) -> pc_ok s p.
Proof. intros Hs Hi Hc Hg. split; [intros j m k ->; by destruct (Hc j m k)|by rewrite Hi; intros j [= <-]|intros j d ->; by destruct (Hg j d)]. Qed.

Ltac quiet Hinv Hpc := eapply inv_quiet; [exact Hinv|done|done|rewrite Hpc; alike_tac|].

Lemma blocks_inv_write n c t spurious :
  Z.of_nat n + 1 < two31 -> blocks_inv n c ->
  let '(s', p') := Write_step (shared c) spurious (pcs c t) in blocks_inv (n + 1) (Conf s' (<[t := p']> (pcs c))).
Proof.
  intros Hn Hinv. pose proof (bi_pcs _ _ Hinv t) as Hp. pose proof (po_range _ _ Hp) as Hr.
  destruct (pcs c t) as [|m|m i|m i|m i|i|i k|i m k|i|i d] eqn:Hpc; cbn [Write_step FetchAddSeq];
    try (quiet Hinv Hpc; done).
  - quiet Hinv Hpc. eapply pc_ok_index; [|reflexivity|done|done]. apply lookup_lt_is_Some. pose proof (bi_some _ _ Hinv). set (k := Z.of_nat (length (blocks_ (shared c)))).
    assert (0 < k) by (unfold k; destruct (blocks_ (shared c)); [done|cbn; lia]).
    pose proof (Z.mod_pos_bound (seq_ (shared c)) k ltac:(done)). lia.
  - destruct (Hr i eq_refl) as [b Hb]. unfold TryLockForWrite. rewrite (lock_of_eq _ _ _ Hb).
    destruct (cas_weak _ _ _) eqn:Hcas; [|quiet Hinv Hpc; by split].
    apply andb_true_iff in Hcas as [_ Hz%Z.eqb_eq]. by apply (write_enters n c t m i b).
  - destruct (Hr i eq_refl) as [b Hb].
    refine (write_stores n c t i b (WFill m i) None (written (shared c)) Hinv Hb _ _ _ _ _ _ _); rewrite ?Hpc; cbn;
      rewrite ?bool_decide_eq_true_2 by done; try done; try alike_tac.
    apply (pc_ok_index _ _ i); try done. rewrite (upd_blocks _ _ _ _ Hb), list_lookup_insert_eq by (by eapply lookup_lt_Some). done.
  - destruct (Hr i eq_refl) as [b Hb].
    refine (write_stores n c t i b (WDone i) (Some m) (written (shared c) ++ [(i, m)]) Hinv Hb _ _ _ _ _ _ _); rewrite ?Hpc; cbn;
      rewrite ?bool_decide_eq_true_2 by done; try done; try alike_tac.
    + apply (pc_ok_index _ _ i); try done. rewrite (upd_blocks _ _ _ _ Hb), list_lookup_insert_eq by (by eapply lookup_lt_Some). done.
    + intros j Hj. by rewrite last_write_snoc, decide_False.
    + intros _. by rewrite last_write_snoc, decide_True.
  - destruct (Hr i eq_refl) as [b Hb]. by apply (write_leaves n c t i b).
Qed.

Lemma blocks_inv_read n c t spurious :
  Z.of_nat n + 1 < two31 -> blocks_inv n c ->
  let '(s', p') := Read_step (shared c) spurious (pcs c t) in blocks_inv (n + 1) (Conf s' (<[t := p']> (pcs c))).
Proof.
  intros Hn Hinv. pose proof (bi_pcs _ _ Hinv t) as Hp. pose proof (po_range _ _ Hp) as Hr.
  destruct (pcs c t) as [|m|m i|m i|m i|i|i k|i m k|i|i d] eqn:Hpc; cbn [Read_step]; try (quiet Hinv Hpc; done).
  - destruct (Z.ltb_spec (lock_of (shared c) i) kRWLockFree); [quiet Hinv Hpc; by split|]. quiet Hinv Hpc.
    split; [by intros j ? ? [= <- <- <-]|intros j [= <-]; by apply Hr|done].
  - destruct (Hr i eq_refl) as [b Hb]. rewrite (lock_of_eq _ _ _ Hb). destruct (cas_weak _ _ _) eqn:Hcas.
    + apply andb_true_iff in Hcas as [_ Hz%Z.eqb_eq]. subst m. by apply (read_enters n c t i k b).
    + destruct (_ =? _); [quiet Hinv Hpc; by split|]. quiet Hinv Hpc. by apply (pc_ok_index _ _ i); [eexists| | |].
  - quiet Hinv Hpc. split; [done|intros j [= <-]; by apply Hr|by intros j d [= <- <-]].
  - destruct (Hr i eq_refl) as [b Hb]. by apply (read_leaves n c t i d b).
Qed.

Lemma blocks_inv_exec1 n c ev :
  Z.of_nat n + 1 < two31 -> blocks_inv n c -> blocks_inv (n + 1) (exec1 block_thread c ev).
Proof.
  intros Hn Hinv. destruct ev as [t e]. unfold exec1. cbn [fst snd].
  pose proof (fun b => blocks_inv_write n c t b Hn Hinv) as Hw. pose proof (fun b => blocks_inv_read n c t b Hn Hinv) as Hr.
  pose proof (bi_pcs _ _ Hinv t) as Hp.
  destruct (pcs c t) as [|m|m i|m i|m i|i|i k|i m k|i|i d] eqn:Hpc; destruct e as [m'|i'|sp]; cbn [block_thread];
    try (specialize (Hw sp); by destruct (Write_step _ _ _)); try (specialize (Hr sp); by destruct (Read_step _ _ _));
    try (quiet Hinv Hpc; done).
  - destruct (Z.leb_spec (Z.of_nat (length (blocks_ (shared c)))) (Z.of_nat i')); [quiet Hinv Hpc; done|]. quiet Hinv Hpc.
    apply (pc_ok_index _ _ i'); try done. apply lookup_lt_is_Some. lia.
Qed.

Lemma blocks_inv_exec num seq sched :
  (0 < num)%nat -> Z.of_nat (length sched) + 1 < two31 ->
  blocks_inv (length sched) (exec block_thread (blocks_init num seq) sched).
Proof.
  intros Hnum Hn. apply (exec_invariant _ blocks_inv (length sched)); [| |done].
  - intros k c ev Hlt Hi. apply blocks_inv_exec1; [lia|done].
  - split; cbn; [|by split|destruct num; [lia|done]]. intros i b Hb%lookup_replicate. destruct Hb as [-> _]. split; [|done].
    exists ∅, ∅. cbn. rewrite size_empty. split_and!; try done; try lia; intros u; set_solver.
Qed.

(** C6: in a segment with blocks, whatever the interleaving of fewer than 2^31 - 1 steps of writers and readers
    of all processes, the lock of every block is the number of the threads that read it less the number of those
    that write it; a block that is being written has one writer and no reader, and its lock is -1;
    a reader that holds a block finds there, during the whole time it holds it, the complete message of
    the last write into that block. *)
Theorem shm_blocks_consistent num seq sched t i :
  (0 < num)%nat -> Z.of_nat (length sched) + 1 < two31 ->
  let c := exec block_thread (blocks_init num seq) sched in
  (forall b, blocks_ (shared c) !! i = Some b -> exists readers writers : gset nat,
     (forall u, u ∈ readers <-> reads_at i (pcs c u) = true) /\ (forall u, u ∈ writers <-> writes_at i (pcs c u) = true) /\
     lock_num_ b = Z.of_nat (size readers) - Z.of_nat (size writers) /\ (size writers <= 1)%nat /\ (writers <> ∅ -> readers = ∅)) /\
  (writes_at i (pcs c t) = true ->
     lock_of (shared c) i = kWriteExclusive /\ forall u, (writes_at i (pcs c u) = true -> u = t) /\ reads_at i (pcs c u) = false) /\
  (reads_at i (pcs c t) = true ->
     (blocks_ (shared c) !! i ≫= contents) = last_write i (written (shared c)) /\
     forall d, pcs c t = RGot i d -> d = last_write i (written (shared c))).
Proof.
  intros Hnum Hn c. pose proof (blocks_inv_exec num seq sched Hnum Hn) as Hinv. fold c in Hinv.
  assert (Hsome : forall p, pc_ok (shared c) p -> reads_at i p = true \/ writes_at i p = true -> is_Some (blocks_ (shared c) !! i)).
  { intros p [_ Hr _] Hrw. apply Hr. destruct p; cbn in Hrw; destruct Hrw as [Hrw|Hrw]; try done;
      apply bool_decide_eq_true in Hrw as ->; done. }
  split; [|split].
  - intros b Hb. destruct (bo_sets _ _ _ _ (bi_blocks _ _ Hinv i b Hb)) as (R & W & HR & HW & Hl & H1 & HWR & _). by exists R, W.
  - intros Ht. destruct (Hsome _ (bi_pcs _ _ Hinv t) (or_intror Ht)) as [b Hb].
    destruct (writer_alone _ _ _ _ t (bi_blocks _ _ Hinv i b Hb) Ht) as (Hl & Hnr & Hnw). split; [by rewrite (lock_of_eq _ _ _ Hb)|].
    intros u. split; [|apply Hnr]. destruct (decide (u = t)); [done|]. by rewrite Hnw.
  - intros Ht. destruct (Hsome _ (bi_pcs _ _ Hinv t) (or_introl Ht)) as [b Hb]. rewrite Hb. cbn.
    assert (Hd : contents b = last_write i (written (shared c))).
    { apply (bo_data _ _ _ _ (bi_blocks _ _ Hinv i b Hb)). intros u. destruct (fills_at i (pcs c u)) eqn:Hf; [|done].
      assert (Hw : writes_at i (pcs c u) = true) by (destruct (pcs c u); done).
      destruct (writer_alone _ _ _ _ u (bi_blocks _ _ Hinv i b Hb) Hw) as (_ & Hnr & _). congruence. }
    split; [done|]. intros d Hg. pose proof (po_got _ _ (bi_pcs _ _ Hinv t) i d Hg) as Hq. rewrite Hb in Hq. cbn in Hq. congruence.
Qed.
End ShmBlocks.
Arguments pc : clear implicits.
Arguments event : clear implicits.

(** Two writers and a reader on two blocks. *)
Definition shm_sample : list (nat * event nat) :=
  [(0%nat, StartWrite 7%nat); (1%nat, StartWrite 8%nat); (0%nat, Go false); (1%nat, Go false); (0%nat, Go false);
   (1%nat, Go true); (0%nat, Go false); (1%nat, Go false); (0%nat, Go false); (0%nat, Go false); (2%nat, StartRead 0);
   (2%nat, Go false); (2%nat, Go false); (2%nat, Go false); (1%nat, Go false)].

Lemma shm_blocks_consistent_witness :
  let c := exec block_thread (blocks_init 2 4294967294) shm_sample in
  pcs c 2%nat = RGot 0 (Some 7%nat) /\ Some 7%nat = last_write 0 (written (shared c)).
Proof.
  split; [by vm_compute|].
  apply (shm_blocks_consistent 2 4294967294 shm_sample 2 0); [lia|by vm_compute|by vm_compute|by vm_compute].
Defined.
