(* ===== verification/ShmSegment.v ===== *)
(** * Segments of shared memory: transport/shm/shm_conf.cc, state.h, segment.cc, posix_segment.cc

    A segment is a process's view of the named shared-memory object of a channel.  The objects
    live in the operating system ([OS]); a call that fails there is one of the [faults].  Memory
    is never given back while a process maps it, so an object stays in [objects] after its name
    is gone.  Operations of one process at a time: the interleaving of block locks is in
    ShmBlocks. *)

From Stdlib Require Import ZArith Lia Strings.Byte.
From stdpp Require Import base gmap numbers list.
From S2P Require Import Prelude Bytes.

(** ** Configuration *)
Definition EXTRA_SIZE : Z := 1024 * 4.
Definition STATE_SIZE : Z := 1024.
Definition BLOCK_SIZE : Z := 1024.
Definition MESSAGE_INFO_SIZE : Z := 1024.
Definition BLOCK_NUM_16K : Z := 512.
Definition MESSAGE_SIZE_16K : Z := 1024 * 16.
Definition BLOCK_NUM_128K : Z := 128.
Definition MESSAGE_SIZE_128K : Z := 1024 * 128.
Definition BLOCK_NUM_1M : Z := 64.
Definition MESSAGE_SIZE_1M : Z := 1024 * 1024.
Definition BLOCK_NUM_8M : Z := 32.
Definition MESSAGE_SIZE_8M : Z := 1024 * 1024 * 8.
Definition BLOCK_NUM_16M : Z := 16.
Definition MESSAGE_SIZE_16M : Z := 1024 * 1024 * 16.
Definition BLOCK_NUM_MORE : Z := 8.
Definition MESSAGE_SIZE_MORE : Z := 1024 * 1024 * 32.

Record ShmConf := mkConf {
  ceiling_msg_size_ : Z;
  block_buf_size_ : Z;
  block_num_ : Z;
  managed_shm_size_ : Z
}.
#[export] Instance ShmConf_eq_dec : EqDecision ShmConf.
Proof. solve_decision. Defined.

Definition GetCeilingMessageSize (real_msg_size : Z) : Z :=
  if real_msg_size <=? MESSAGE_SIZE_16K then MESSAGE_SIZE_16K
  else if real_msg_size <=? MESSAGE_SIZE_128K then MESSAGE_SIZE_128K
  else if real_msg_size <=? MESSAGE_SIZE_1M then MESSAGE_SIZE_1M
  else if real_msg_size <=? MESSAGE_SIZE_8M then MESSAGE_SIZE_8M
  else if real_msg_size <=? MESSAGE_SIZE_16M then MESSAGE_SIZE_16M
  else MESSAGE_SIZE_MORE.

Definition GetBlockBufSize (ceiling_msg_size : Z) : Z := ceiling_msg_size +u MESSAGE_INFO_SIZE.

Definition GetBlockNum (ceiling_msg_size : Z) : Z :=
  if ceiling_msg_size =? MESSAGE_SIZE_16K then BLOCK_NUM_16K
  else if ceiling_msg_size =? MESSAGE_SIZE_128K then BLOCK_NUM_128K
  else if ceiling_msg_size =? MESSAGE_SIZE_1M then BLOCK_NUM_1M
  else if ceiling_msg_size =? MESSAGE_SIZE_8M then BLOCK_NUM_8M
  else if ceiling_msg_size =? MESSAGE_SIZE_16M then BLOCK_NUM_16M
  else if ceiling_msg_size =? MESSAGE_SIZE_MORE then BLOCK_NUM_MORE
  else 0.

Definition Update (real_msg_size : Z) : ShmConf :=
  let ceiling := GetCeilingMessageSize real_msg_size in
  let buf := GetBlockBufSize ceiling in
  let num := GetBlockNum ceiling in
  mkConf ceiling buf num (EXTRA_SIZE +u STATE_SIZE +u ((BLOCK_SIZE +u buf) *u num)).

Definition ShmConf_default : ShmConf := Update MESSAGE_SIZE_16K.

(** ** Shared objects *)
Record State := mkState {
  need_remap_ : bool;
  seq_ : Z;
  reference_count_ : Z;
  state_ceiling_ : Z
}.

Definition State_new (ceiling : Z) : State := mkState false 0 0 ceiling.
Definition DecreaseReferenceCounts (s : State) : State :=
  if reference_count_ s =? 0 then s
  else mkState (need_remap_ s) (seq_ s) (reference_count_ s - 1) (state_ceiling_ s).
Definition IncreaseReferenceCounts (s : State) : State :=
  mkState (need_remap_ s) (seq_ s) (u32 (reference_count_ s + 1)) (state_ceiling_ s).
Definition FetchAddSeq (s : State) (diff : Z) : Z * State :=
  (seq_ s, mkState (need_remap_ s) (u32 (seq_ s + diff)) (reference_count_ s) (state_ceiling_ s)).
Definition set_need_remap (s : State) (need : bool) : State :=
  mkState need (seq_ s) (reference_count_ s) (state_ceiling_ s).

Record Block := mkBlk { lock_num_ : Z; msg_size_ : Z; msg_info_size_ : Z }.

Definition with_lock (b : Block) (n : Z) : Block := mkBlk n (msg_size_ b) (msg_info_size_ b).

(** Uncontended lock operations. *)
Definition TryLockForWrite (b : Block) : bool * Block := if lock_num_ b =? 0 then (true, with_lock b (-1)) else (false, b).
Definition TryLockForRead (b : Block) : bool * Block :=
  if lock_num_ b <? 0 then (false, b) else (true, with_lock b (i32 (lock_num_ b + 1))).
Definition ReleaseWriteLock (b : Block) : Block := with_lock b (i32 (lock_num_ b + 1)).
Definition ReleaseReadLock (b : Block) : Block := with_lock b (i32 (lock_num_ b - 1)).

(** [sh_size] is the length of the file; a buffer that was never written holds zeros. *)
Record Shm := mkShm { sh_size : Z; sh_state : State; sh_blocks : list Block; sh_bufs : gmap nat bytes }.

(** Names (the decimal channel id) and objects. *)
Record OS := mkOS { names : gmap Z nat; objects : list Shm }.
Record faults := mkFaults { f_open : bool; f_truncate : bool; f_stat : bool; f_map : bool }.
Definition no_faults : faults := mkFaults false false false false.

Definition with_object (w : OS) (o : nat) (f : Shm -> Shm) : OS := mkOS (names w) (alter f o (objects w)).
Definition with_state (f : State -> State) (x : Shm) : Shm := mkShm (sh_size x) (f (sh_state x)) (sh_blocks x) (sh_bufs x).
Definition with_block (i : nat) (f : Block -> Block) (x : Shm) : Shm :=
  mkShm (sh_size x) (sh_state x) (alter f i (sh_blocks x)) (sh_bufs x).
Definition with_buf (i : nat) (b : bytes) (x : Shm) : Shm := mkShm (sh_size x) (sh_state x) (sh_blocks x) (<[i := b]> (sh_bufs x)).

(** ** Segments *)
Inductive map_ptr := MNull | MFailed | MObj (o : nat).

(** [block_buf_addrs_] maps an index to the object its buffer lies in. *)
Record Segment := mkSeg {
  init_ : bool;
  conf_ : ShmConf;
  channel_id_ : Z;
  state_ : option nat;
  blocks_ : option nat;
  managed_shm_ : map_ptr;
  block_buf_addrs_ : gmap nat nat
}.

Definition Segment_new (channel_id : Z) : Segment := mkSeg false ShmConf_default channel_id None None MNull ∅.

Definition set_init (s : Segment) (b : bool) : Segment :=
  mkSeg b (conf_ s) (channel_id_ s) (state_ s) (blocks_ s) (managed_shm_ s) (block_buf_addrs_ s).
Definition set_conf (s : Segment) (c : ShmConf) : Segment :=
  mkSeg (init_ s) c (channel_id_ s) (state_ s) (blocks_ s) (managed_shm_ s) (block_buf_addrs_ s).
Definition set_managed (s : Segment) (m : map_ptr) : Segment :=
  mkSeg (init_ s) (conf_ s) (channel_id_ s) (state_ s) (blocks_ s) m (block_buf_addrs_ s).

(** The loop over the blocks that fills [block_buf_addrs_]. *)
Definition buf_addrs (addrs : gmap nat nat) (num o : nat) : gmap nat nat :=
  foldl (fun a i => <[i := o]> a) addrs (seq 0 num).

(** The segment attached to object [o] with configuration [c]. *)
Definition attach (s : Segment) (o : nat) (c : ShmConf) : Segment :=
  mkSeg true c (channel_id_ s) (Some o) (Some o) (MObj o) (buf_addrs (block_buf_addrs_ s) (Z.to_nat (block_num_ c)) o).

Definition OpenOnly (f : faults) (w : OS) (s : Segment) : bool * OS * Segment :=
  if init_ s then (true, w, s)
  else
    match names w !! channel_id_ s with
    | None => (false, w, s)
    | Some o =>
        if f_open f then (false, w, s)
        else if f_stat f then (false, w, s)
        else
          match objects w !! o with
          | None => (false, w, s)
          | Some x =>
              if f_map f || (sh_size x =? 0) then (false, w, set_managed s MFailed)
              else
                let c := Update (state_ceiling_ (sh_state x)) in
                (true, with_object w o (with_state IncreaseReferenceCounts), attach s o c)
          end
    end.

Definition OpenOrCreate (f : faults) (w : OS) (s : Segment) : bool * OS * Segment :=
  if init_ s then (true, w, s)
  else
    match names w !! channel_id_ s with
    | Some _ => OpenOnly f w s
    | None =>
        if f_open f then (false, w, s)
        else
          let o := length (objects w) in
          let fresh size := mkShm size (State_new (ceiling_msg_size_ (conf_ s))) [] ∅ in
          if f_truncate f then (false, mkOS (<[channel_id_ s := o]> (names w)) (objects w ++ [fresh 0]), s)
          else if f_map f then (false, mkOS (names w) (objects w ++ [fresh 0]), set_managed s MFailed)
          else
            let st := State_new (ceiling_msg_size_ (conf_ s)) in
            let c := Update (state_ceiling_ st) in
            let x := mkShm (managed_shm_size_ (conf_ s)) (IncreaseReferenceCounts st)
                       (replicate (Z.to_nat (block_num_ c)) (mkBlk 0 0 0)) ∅ in
            (true, mkOS (<[channel_id_ s := o]> (names w)) (objects w ++ [x]), attach s o c)
    end.

Definition Remove (w : OS) (s : Segment) : bool * OS :=
  match names w !! channel_id_ s with
  | None => (false, w)
  | Some _ => (true, mkOS (delete (channel_id_ s) (names w)) (objects w))
  end.

Definition Reset (s : Segment) : Segment := mkSeg (init_ s) (conf_ s) (channel_id_ s) None None MNull ∅.

(** The result of an operation that follows a pointer: a value, a refusal, an access outside
    the mapped memory, or a loop that waits for another process. *)
Inductive result (A : Type) := Ok (a : A) | Refused | Fault | Spins.
Arguments Ok {A} _.
Arguments Refused {A}.
Arguments Fault {A}.
Arguments Spins {A}.

Definition state_of (w : OS) (s : Segment) : option State := o ← state_ s; sh_state <$> objects w !! o.

Definition Destroy (w : OS) (s : Segment) : bool * OS * Segment :=
  if negb (init_ s) then (true, w, s)
  else
    let s := set_init s false in
    match state_ s with
    | None => (false, w, s)
    | Some o =>
        let w := with_object w o (with_state DecreaseReferenceCounts) in
        if default 0 (reference_count_ <$> state_of w s) =? 0
        then let '(ok, w) := Remove w s in (ok, w, s)
        else (true, w, s)
    end.

Definition Remap (f : faults) (w : OS) (s : Segment) : bool * OS * Segment := OpenOnly f w (Reset (set_init s false)).

(** [None] when [state_] is null. *)
Definition Recreate (f : faults) (w : OS) (s : Segment) (msg_size : Z) : option (bool * OS * Segment) :=
  let s := set_init s false in
  o ← state_ s;
  let w := with_object w o (with_state (fun st => set_need_remap st true)) in
  let s := Reset s in
  let w := (Remove w s).2 in
  Some (OpenOrCreate f w (set_conf s (Update msg_size))).

(** [GetNextWritableBlockIndex]: [None] when the fuel runs out. *)
Fixpoint GetNextWritableBlockIndex (fuel : nat) (num : Z) (x : Shm) : option (nat * Shm) :=
  match fuel with
  | O => None
  | S fuel =>
      let '(q, st) := FetchAddSeq (sh_state x) 1 in
      let x := mkShm (sh_size x) st (sh_blocks x) (sh_bufs x) in
      let i := Z.to_nat (q mod num) in
      match sh_blocks x !! i with
      | None => None
      | Some b => if (TryLockForWrite b).1 then Some (i, with_block i (fun b => (TryLockForWrite b).2) x)
                  else GetNextWritableBlockIndex fuel num x
      end
  end.

(** The tail of [AcquireBlockToWrite] once the segment is up to date. *)
Definition take_block (w : OS) (s : Segment) : result nat * OS * Segment :=
  match state_ s with
  | None => (Fault, w, s)
  | Some o =>
      match objects w !! o with
      | None => (Fault, w, s)
      | Some x =>
          match GetNextWritableBlockIndex (Z.to_nat (block_num_ (conf_ s))) (block_num_ (conf_ s)) x with
          | None => (Spins, w, s)
          | Some (i, x') => (Ok i, with_object w o (fun _ => x'), s)
          end
      end
  end.

Definition AcquireBlockToWrite (f : faults) (w : OS) (s : Segment) (msg_size : Z) : result nat * OS * Segment :=
  let '(opened, w, s) := OpenOrCreate f w s in
  if negb opened then (Refused, w, s)
  else
    match state_of w s with
    | None => (Fault, w, s)
    | Some st =>
        let '(result, w, s) := if need_remap_ st then Remap f w s else (true, w, s) in
        match (if ceiling_msg_size_ (conf_ s) <? msg_size then Recreate f w s msg_size else Some (result, w, s)) with
        | None => (Fault, w, s)
        | Some (result, w, s) => if negb result then (Refused, w, s) else take_block w s
        end
    end.

(** A write into the block array through [blocks_]. *)
Definition on_block (w : OS) (s : Segment) (i : nat) (f : Block -> Block) : result unit * OS :=
  match blocks_ s with
  | None => (Fault, w)
  | Some o =>
      match objects w !! o with
      | None => (Fault, w)
      | Some x => if decide (i < length (sh_blocks x))%nat then (Ok tt, with_object w o (with_block i f)) else (Fault, w)
      end
  end.

Definition ReleaseWrittenBlock (w : OS) (s : Segment) (i : nat) : result unit * OS :=
  if block_num_ (conf_ s) <=? Z.of_nat i then (Ok tt, w) else on_block w s i ReleaseWriteLock.
Definition ReleaseReadBlock (w : OS) (s : Segment) (i : nat) : result unit * OS :=
  if block_num_ (conf_ s) <=? Z.of_nat i then (Ok tt, w) else on_block w s i ReleaseReadLock.

(** [blocks_[index].TryLockForRead()] *)
Definition lock_to_read (w : OS) (s : Segment) (i : nat) : result bool * OS :=
  match blocks_ s with
  | None => (Fault, w)
  | Some o =>
      match objects w !! o ≫= (fun x => sh_blocks x !! i) with
      | None => (Fault, w)
      | Some b => (Ok (TryLockForRead b).1, with_object w o (with_block i (fun b => (TryLockForRead b).2)))
      end
  end.

Definition AcquireBlockToRead (f : faults) (w : OS) (s : Segment) (index : nat) : result unit * OS * Segment :=
  let '(opened, w, s) := OpenOnly f w s in
  if negb opened then (Refused, w, s)
  else if block_num_ (conf_ s) <=? Z.of_nat index then (Refused, w, s)
  else
    match state_of w s with
    | None => (Fault, w, s)
    | Some st =>
        let '(result, w, s) := if need_remap_ st then Remap f w s else (true, w, s) in
        if negb result then (Refused, w, s)
        else
          match lock_to_read w s index with
          | (Ok true, w) => (Ok tt, w, s)
          | (Ok false, w) => (Refused, w, s)
          | (_, w) => (Fault, w, s)
          end
    end.

(** ** Layout *)

Definition ceilings : list Z :=
  [MESSAGE_SIZE_16K; MESSAGE_SIZE_128K; MESSAGE_SIZE_1M; MESSAGE_SIZE_8M; MESSAGE_SIZE_16M; MESSAGE_SIZE_MORE].

Ltac unfold_sizes :=
  unfold MESSAGE_SIZE_16K, MESSAGE_SIZE_128K, MESSAGE_SIZE_1M, MESSAGE_SIZE_8M, MESSAGE_SIZE_16M, MESSAGE_SIZE_MORE in *.

Lemma ceiling_cases real : GetCeilingMessageSize real ∈ ceilings.
Proof. unfold GetCeilingMessageSize, ceilings. repeat zcase; set_solver. Qed.

(** The six configurations: size of a message, number of blocks. *)
Lemma Update_cases real :
  let c := Update real in
  exists k, block_num_ c = 2 ^ k /\ 3 <= k <= 9 /\ ceiling_msg_size_ c ∈ ceilings /\
    block_buf_size_ c = ceiling_msg_size_ c + 1024 /\
    managed_shm_size_ c = 5120 + (1024 + block_buf_size_ c) * block_num_ c /\ 0 < ceiling_msg_size_ c <= 33554432.
Proof.
  cbv zeta. unfold Update. cbn [ceiling_msg_size_ block_num_ block_buf_size_ managed_shm_size_].
  pose proof (ceiling_cases real) as Hc. set (x := GetCeilingMessageSize real) in *. clearbody x.
  unfold ceilings in Hc. repeat (apply elem_of_cons in Hc as [->|Hc]); [..|by apply not_elem_of_nil in Hc].
  all: [> exists 9|exists 7|exists 6|exists 5|exists 4|exists 3]; (split; [by vm_compute|]); (split; [lia|]);
    (split; [unfold ceilings; set_solver|]); by vm_compute.
Qed.

Lemma Update_ceiling real : Update (ceiling_msg_size_ (Update real)) = Update real.
Proof.
  unfold Update at 2. cbn [ceiling_msg_size_]. pose proof (ceiling_cases real) as Hc. unfold Update at 2.
  set (x := GetCeilingMessageSize real) in *. clearbody x.
  unfold ceilings in Hc. repeat (apply elem_of_cons in Hc as [->|Hc]); [..|by apply not_elem_of_nil in Hc]; by vm_compute.
Qed.

Lemma ceiling_enough real : real <= MESSAGE_SIZE_MORE -> real <= ceiling_msg_size_ (Update real).
Proof. unfold Update. cbn [ceiling_msg_size_]. unfold GetCeilingMessageSize. intros. repeat zcase; lia. Qed.

Section Layout.
Context (sizeof_State sizeof_Block : Z).
Hypothesis State_fits : 0 < sizeof_State <= STATE_SIZE.
Hypothesis Block_fits : 0 < sizeof_Block <= BLOCK_SIZE.

(** Where a mapped segment keeps block [i] and its buffer. *)
Definition block_offset (i : Z) : Z := sizeof_State + i * sizeof_Block.
Definition buf_offset (c : ShmConf) (i : Z) : Z := sizeof_State + block_num_ c * sizeof_Block + i * block_buf_size_ c.

(** The configuration chosen for a message size lays a segment out without overlap: the state,
    the blocks and the buffers follow each other inside the mapped size, no size wraps around,
    a reader that recomputes the configuration from the ceiling stored in the segment gets the
    same one, and a buffer has room for the message and its info as long as the message is not
    larger than the largest ceiling. *)
Theorem shm_layout real :
  let c := Update real in
  (forall i j, 0 <= i < j -> j < block_num_ c ->
     block_offset i + sizeof_Block <= block_offset j /\ buf_offset c i + block_buf_size_ c <= buf_offset c j) /\
  (forall i, 0 <= i < block_num_ c ->
     sizeof_State <= block_offset i /\ block_offset i + sizeof_Block <= buf_offset c 0 /\
     0 <= buf_offset c i /\ buf_offset c i + block_buf_size_ c <= managed_shm_size_ c) /\
  0 < block_num_ c /\ managed_shm_size_ c < two64 /\
  Update (ceiling_msg_size_ c) = c /\
  (real <= MESSAGE_SIZE_MORE -> real + MESSAGE_INFO_SIZE <= block_buf_size_ c).
Proof.
  cbv zeta. destruct (Update_cases real) as (k & Hn & Hk & _ & Hb & Hm & Hc).
  assert (8 <= block_num_ (Update real) <= 512).
  { rewrite Hn. change 8 with (2 ^ 3). change 512 with (2 ^ 9). split; apply Z.pow_le_mono_r; lia. }
  unfold block_offset, buf_offset, STATE_SIZE, BLOCK_SIZE, MESSAGE_INFO_SIZE in *. set (c := Update real) in *.
  split; [intros i j Hij Hj; split; nia|]. split; [intros i Hi; repeat split; nia|].
  split; [lia|]. split; [unfold two64; nia|]. split; [apply Update_ceiling|].
  intros Hr. pose proof (ceiling_enough real Hr) as He. fold c in He. lia.
Qed.
End Layout.

Lemma shm_layout_witness :
  0 < block_num_ (Update 20000) /\ managed_shm_size_ (Update 20000) < two64 /\
  Update (ceiling_msg_size_ (Update 20000)) = Update 20000.
Proof.
  destruct (shm_layout 32 32 ltac:(done) ltac:(done) 20000) as (_ & _ & H1 & H2 & H3 & _). done.
Defined.

(** ** Finding a block to write *)

(** The block that attempt [k] from now on tries. *)
Definition attempt (st : State) (num : Z) (k : nat) : nat := Z.to_nat ((seq_ st + Z.of_nat k) mod num).

Lemma attempt_next st num k m :
  num = 2 ^ m -> 0 <= m <= 32 -> attempt (FetchAddSeq st 1).2 num k = attempt st num (S k).
Proof.
  intros -> Hm. unfold attempt. cbn [FetchAddSeq snd seq_]. f_equal. unfold u32, two32.
  rewrite <- (Zplus_mod_idemp_l ((seq_ st + 1) mod 2 ^ 32)), Z.mod_mod_divide, Zplus_mod_idemp_l; [f_equal; lia|].
  exists (2 ^ (32 - m)). rewrite <- Z.pow_add_r by lia. f_equal. lia.
Qed.

(** Every block is tried within [num] attempts. *)
Lemma attempt_covers st num i : 0 < num -> 0 <= i < num -> exists k, (Z.of_nat k < num) /\ attempt st num k = Z.to_nat i.
Proof.
  intros Hn Hi. pose proof (Z.mod_pos_bound (i - seq_ st) num Hn). exists (Z.to_nat ((i - seq_ st) mod num)). split; [lia|].
  unfold attempt. rewrite Z2Nat.id by lia. f_equal. rewrite Zplus_mod_idemp_r. replace (seq_ st + (i - seq_ st)) with i by lia.
  by apply Z.mod_small.
Qed.

(** Objects keep their size, ceiling and number of blocks. *)
Definition same_shape (x x' : Shm) : Prop :=
  sh_size x' = sh_size x /\ state_ceiling_ (sh_state x') = state_ceiling_ (sh_state x) /\
  length (sh_blocks x') = length (sh_blocks x).

(** What the search changes: the counter, and the lock of the block it returns; without a free
    block among those tried it goes on. *)
Lemma GetNext_spec fuel num x :
  num = 2 ^ Z.log2 num -> 0 <= Z.log2 num <= 32 -> Z.of_nat (length (sh_blocks x)) = num ->
  match GetNextWritableBlockIndex fuel num x with
  | Some (i, q) => exists b, sh_blocks x !! i = Some b /\ lock_num_ b = 0 /\
      sh_blocks q = <[i := with_lock b (-1)]> (sh_blocks x) /\ sh_bufs q = sh_bufs x /\ same_shape x q /\
      need_remap_ (sh_state q) = need_remap_ (sh_state x) /\ reference_count_ (sh_state q) = reference_count_ (sh_state x)
  | None => forall k b, (k < fuel)%nat -> sh_blocks x !! attempt (sh_state x) num k = Some b -> lock_num_ b <> 0
  end.
Proof.
  intros Hp Hl Hlen. assert (Hnum : 0 < num) by (rewrite Hp; apply Z.pow_pos_nonneg; lia).
  revert x Hlen. induction fuel as [|fuel IH]; intros x Hlen; [cbn; intros k b Hk; lia|].
  cbn [GetNextWritableBlockIndex FetchAddSeq]. set (x1 := mkShm _ _ _ _).
  destruct (sh_blocks x1 !! Z.to_nat (seq_ (sh_state x) mod num)) as [b1|] eqn:Hb1.
  2:{ exfalso. apply lookup_ge_None in Hb1. pose proof (Z.mod_pos_bound (seq_ (sh_state x)) num Hnum). cbn in Hb1. lia. }
  unfold TryLockForWrite. destruct (Z.eqb_spec (lock_num_ b1) 0) as [Hz|Hz]; cbn [fst].
  - exists b1. cbn [with_block sh_blocks sh_bufs sh_state need_remap_ reference_count_ x1] in *.
    split; [done|]. split; [done|]. split; [|split; [done|]; split; [|done]].
    + apply list_eq. intros j. destruct (decide (j = Z.to_nat (seq_ (sh_state x) mod num))) as [->|].
      * rewrite list_lookup_alter_eq, Hb1, list_lookup_insert_eq by (by eapply lookup_lt_Some). cbn. by rewrite Hz.
      * by rewrite list_lookup_alter_ne, list_lookup_insert_ne.
    + repeat split. cbn. apply length_alter.
  - specialize (IH x1 Hlen). destruct (GetNextWritableBlockIndex fuel num x1) as [[i q]|]; [exact IH|].
    intros k b Hk Hb. destruct k as [|k].
    + unfold attempt in Hb. rewrite Z.add_0_r in Hb. cbn in Hb1. congruence.
    + apply (IH k b); [lia|]. cbn [x1 sh_blocks sh_state].
      pose proof (attempt_next (sh_state x) num k _ Hp Hl) as Ha. cbn [FetchAddSeq snd] in Ha. by rewrite Ha.
Qed.

(** ** Consistency of segments *)
Definition conf_of (x : Shm) : ShmConf := Update (state_ceiling_ (sh_state x)).

Definition shm_ok (x : Shm) : Prop :=
  sh_size x <> 0 ->
  ceiling_msg_size_ (conf_of x) = state_ceiling_ (sh_state x) /\ Z.of_nat (length (sh_blocks x)) = block_num_ (conf_of x) /\
  sh_size x = managed_shm_size_ (conf_of x).

Record os_ok (w : OS) : Prop := {
  oo_objects : forall o x, objects w !! o = Some x -> shm_ok x;
  oo_names : forall n o, names w !! n = Some o -> is_Some (objects w !! o)
}.

(** An attached segment agrees with its object. *)
Record attached (w : OS) (s : Segment) (o : nat) (x : Shm) : Prop := {
  at_state : state_ s = Some o;
  at_blocks : blocks_ s = Some o;
  at_managed : managed_shm_ s = MObj o;
  at_object : objects w !! o = Some x;
  at_size : sh_size x <> 0;
  at_conf : conf_ s = conf_of x;
  at_bufs : forall i, Z.of_nat i < block_num_ (conf_ s) -> block_buf_addrs_ s !! i = Some o
}.

Definition seg_ok (w : OS) (s : Segment) : Prop :=
  (exists real, conf_ s = Update real) /\ (init_ s = true -> exists o x, attached w s o x).

Definition evolves (w w' : OS) : Prop :=
  forall o x, objects w !! o = Some x -> exists x', objects w' !! o = Some x' /\ same_shape x x'.

#[export] Instance evolves_preorder : PreOrder evolves.
Proof.
  split.
  - intros w o x Hx. exists x. by repeat split.
  - intros w1 w2 w3 H12 H23 o x Hx. destruct (H12 o x Hx) as (x2 & Hx2 & A1 & A2 & A3).
    destruct (H23 o x2 Hx2) as (x3 & Hx3 & B1 & B2 & B3). exists x3. split; [done|]. split; [congruence|]. split; congruence.
Qed.

Lemma same_shape_ok x x' : same_shape x x' -> shm_ok x -> shm_ok x'.
Proof. intros (H1 & H2 & H3) Hok. unfold shm_ok, conf_of. rewrite H1, H2, H3. exact Hok. Qed.

Lemma seg_ok_evolves w w' s : evolves w w' -> seg_ok w s -> seg_ok w' s.
Proof.
  intros He [Hr Hs]. split; [done|]. intros Hi. destruct (Hs Hi) as (o & x & []).
  destruct (He o x at_object0) as (x' & Hx' & H1 & H2 & H3). exists o, x'. split; try done.
  - by rewrite H1.
  - unfold conf_of. by rewrite H2.
Qed.

Lemma with_object_ok w o f :
  os_ok w -> (forall x, objects w !! o = Some x -> same_shape x (f x)) -> os_ok (with_object w o f) /\ evolves w (with_object w o f).
Proof.
  intros [Ho Hn] Hf. split; [split|].
  - intros p x. cbn. destruct (decide (p = o)) as [->|Hne].
    + rewrite list_lookup_alter_eq. destruct (objects w !! o) as [y|] eqn:Hy; [|done]. cbn. intros [= <-].
      apply (same_shape_ok y); [by apply Hf|by eapply Ho].
    + rewrite list_lookup_alter_ne by done. apply Ho.
  - intros n p Hp. cbn in *. apply lookup_lt_is_Some. rewrite length_alter. apply lookup_lt_is_Some. by eapply Hn.
  - intros p x Hx. cbn. destruct (decide (p = o)) as [->|Hne].
    + rewrite list_lookup_alter_eq, Hx. eexists. split; [done|by apply Hf].
    + rewrite list_lookup_alter_ne by done. exists x. by repeat split.
Qed.

Lemma same_shape_state x f : state_ceiling_ (f (sh_state x)) = state_ceiling_ (sh_state x) -> same_shape x (with_state f x).
Proof. intros. by repeat split. Qed.
Lemma same_shape_block x i f : same_shape x (with_block i f x).
Proof. repeat split. cbn. apply length_alter. Qed.

(** A state an operation may leave behind. *)
Definition good (w w' : OS) (s' : Segment) : Prop := os_ok w' /\ seg_ok w' s' /\ evolves w w'.

Lemma good_refl w s : os_ok w -> seg_ok w s -> good w w s.
Proof. intros. by split; [|split]. Qed.

Lemma good_detached w w' s' real :
  os_ok w' -> evolves w w' -> conf_ s' = Update real -> init_ s' = false -> good w w' s'.
Proof. intros Ho He Hc Hi. split; [done|]. split; [|done]. split; [by exists real|]. by rewrite Hi. Qed.

Lemma buf_addrs_lookup a num o i : (i < num)%nat -> buf_addrs a num o !! i = Some o.
Proof.
  unfold buf_addrs. induction num as [|num IH]; [lia|]. intros Hi. rewrite seq_S, foldl_app. cbn.
  destruct (decide (i = num)) as [->|]; [apply lookup_insert_eq|]. rewrite lookup_insert_ne by done. apply IH. lia.
Qed.

Lemma attach_ok w s o x :
  os_ok w -> objects w !! o = Some x -> sh_size x <> 0 -> seg_ok w (attach s o (conf_of x)).
Proof.
  intros Hok Hx Hs. split; [by exists (state_ceiling_ (sh_state x))|]. intros _. exists o, x. split; try done.
  intros i Hi. cbn in *. apply buf_addrs_lookup. lia.
Qed.

Lemma OpenOnly_good f w s : os_ok w -> seg_ok w s ->
  let '(ok, w', s') := OpenOnly f w s in good w w' s' /\ (ok = true -> init_ s' = true).
Proof.
  intros Hok Hs. unfold OpenOnly. destruct (init_ s) eqn:Hi; [by split; [apply good_refl|]|].
  destruct Hs as [[real Hr] Hs]. assert (Hg : good w w s) by (by eapply good_detached).
  destruct (names w !! channel_id_ s) as [o|] eqn:Hn; [|done].
  destruct (f_open f); [done|]. destruct (f_stat f); [done|]. destruct (objects w !! o) as [x|] eqn:Hx; [|done].
  destruct (f_map f || (sh_size x =? 0)) eqn:Hm; [split; [by eapply good_detached|done]|].
  apply orb_false_iff in Hm as [_ Hm%Z.eqb_neq].
  destruct (with_object_ok w o (with_state IncreaseReferenceCounts) Hok) as [Hok' Hev]; [by intros; apply same_shape_state|].
  split; [|done]. split; [done|]. split; [|done].
  assert (Hx' : objects (with_object w o (with_state IncreaseReferenceCounts)) !! o = Some (with_state IncreaseReferenceCounts x)).
  { cbn. by rewrite list_lookup_alter_eq, Hx. }
  exact (attach_ok _ s o _ Hok' Hx' Hm).
Qed.

Lemma evolves_snoc w n x : evolves w (mkOS n (objects w ++ [x])).
Proof. intros o y Hy. exists y. cbn. rewrite lookup_app_l by (by eapply lookup_lt_Some). by repeat split. Qed.

Lemma os_ok_snoc w n x :
  os_ok w -> shm_ok x -> (forall c o, n !! c = Some o -> names w !! c = Some o \/ o = length (objects w)) ->
  os_ok (mkOS n (objects w ++ [x])).
Proof.
  intros [Ho Hn] Hx Hnn. split; cbn.
  - intros o y [Hy|(_ & Hy)]%lookup_app_Some; [by eapply Ho|]. apply list_lookup_singleton_Some in Hy as [_ Hy]. by subst.
  - intros c o Hc. apply lookup_lt_is_Some. rewrite length_app. cbn. destruct (Hnn c o Hc) as [Hold| ->]; [|lia].
    destruct (Hn c o Hold) as [y Hy]. apply lookup_lt_Some in Hy. lia.
Qed.

Lemma names_insert (m : gmap Z nat) (k : Z) (v : nat) c o : <[k := v]> m !! c = Some o -> m !! c = Some o \/ o = v.
Proof. rewrite lookup_insert_Some. intros [[_ Hv]|[_ ?]]; auto. Qed.

Lemma OpenOrCreate_good f w s : os_ok w -> seg_ok w s ->
  let '(ok, w', s') := OpenOrCreate f w s in good w w' s' /\ (ok = true -> init_ s' = true).
Proof.
  intros Hok Hs. unfold OpenOrCreate. destruct (init_ s) eqn:Hi; [by split; [apply good_refl|]|].
  destruct (names w !! channel_id_ s) as [o|] eqn:Hn; [by apply OpenOnly_good|].
  destruct Hs as [[real Hr] Hs]. assert (Hg : good w w s) by (by eapply good_detached).
  destruct (f_open f); [done|].
  assert (Hz : forall st, shm_ok (mkShm 0 st [] ∅)) by (intros st H; done).
  destruct (f_truncate f).
  { split; [|done]. eapply good_detached; [|apply evolves_snoc|done|done].
    apply os_ok_snoc; [done|apply Hz|]. intros c o. apply names_insert. }
  destruct (f_map f).
  { split; [|done]. eapply good_detached; [|apply evolves_snoc|done|done]. apply os_ok_snoc; [done|apply Hz|auto]. }
  set (x := mkShm _ _ _ _). split; [|done].
  assert (Hc : conf_of x = conf_ s) by (unfold conf_of; cbn; rewrite Hr; apply Update_ceiling).
  destruct (Update_cases real) as (k & Hk & Hk9 & _ & Hb & Hm & Hc0).
  assert (Hx : shm_ok x).
  { intros _. rewrite Hc. split; [by cbn|]. split; [|done]. cbn [x sh_blocks State_new state_ceiling_]. rewrite length_replicate, Hr, Update_ceiling.
    rewrite Z2Nat.id; [done|]. rewrite Hk. apply Z.pow_nonneg. lia. }
  assert (Hsz : sh_size x <> 0).
  { cbn. rewrite Hr, Hm, Hk. assert (0 < 2 ^ k) by (apply Z.pow_pos_nonneg; lia).
    assert (0 <= (1024 + block_buf_size_ (Update real)) * 2 ^ k) by (apply Z.mul_nonneg_nonneg; lia). lia. }
  assert (Hok' : os_ok (mkOS (<[channel_id_ s := length (objects w)]> (names w)) (objects w ++ [x]))).
  { apply os_ok_snoc; [done|done|]. intros c o. apply names_insert. }
  split; [done|]. split; [|apply evolves_snoc].
  apply (attach_ok _ s (length (objects w)) x Hok'); [cbn; apply lookup_snoc_len|done].
Qed.

Lemma detach_ok w s : os_ok w -> seg_ok w s -> seg_ok w (Reset (set_init s false)).
Proof. intros _ [Hr _]. by split. Qed.

Lemma good_trans w1 w2 w3 s s' : good w1 w2 s -> good w2 w3 s' -> good w1 w3 s'.
Proof. intros (_ & _ & H12) (Ho & Hs & H23). split; [done|]. split; [done|]. by etrans. Qed.

Lemma Remap_good f w s : os_ok w -> seg_ok w s ->
  let '(ok, w', s') := Remap f w s in good w w' s' /\ (ok = true -> init_ s' = true).
Proof. intros Hok Hs. apply OpenOnly_good; [done|by apply detach_ok]. Qed.

Lemma Remove_ok w s : os_ok w -> os_ok (Remove w s).2 /\ evolves w (Remove w s).2.
Proof.
  intros [Ho Hn]. unfold Remove. destruct (names w !! channel_id_ s); cbn; [|by split; [split|]].
  split; [split; [done|]|by intros o x Hx; exists x]. cbn. intros c o [_ Hc]%lookup_delete_Some. by eapply Hn.
Qed.

Lemma OpenOrCreate_new f w s :
  os_ok w -> seg_ok w s -> init_ s = false -> names w !! channel_id_ s = None ->
  (OpenOrCreate f w s).1.1 = true -> conf_ (OpenOrCreate f w s).2 = conf_ s.
Proof.
  intros Hok [[real Hr] _] Hi Hn. unfold OpenOrCreate. rewrite Hi, Hn.
  destruct (f_open f); [done|]. destruct (f_truncate f); [done|]. destruct (f_map f); [done|]. cbn. intros _.
  rewrite Hr. apply Update_ceiling.
Qed.

Lemma Recreate_good f w s msg_size w' s' ok : os_ok w -> seg_ok w s ->
  Recreate f w s msg_size = Some (ok, w', s') ->
  good w w' s' /\ (ok = true -> init_ s' = true /\ conf_ s' = Update msg_size).
Proof.
  intros Hok Hs. unfold Recreate. cbn [set_init state_]. destruct (state_ s) as [o|] eqn:Ho; [|done]. cbn [mbind option_bind].
  set (w1 := with_object w o _). set (s1 := Reset (set_init s false)). set (w2 := (Remove w1 s1).2).
  destruct (with_object_ok w o (with_state (fun st => set_need_remap st true)) Hok) as [Hok1 Hev1]; [by intros; apply same_shape_state|].
  fold w1 in Hok1, Hev1. destruct (Remove_ok w1 s1 Hok1) as [Hok2 Hev2]. fold w2 in Hok2, Hev2.
  set (s2 := set_conf s1 (Update msg_size)). assert (Hs2 : seg_ok w2 s2) by (split; [by exists msg_size|done]).
  pose proof (OpenOrCreate_good f w2 s2 Hok2 Hs2) as Hg. pose proof (OpenOrCreate_new f w2 s2 Hok2 Hs2 eq_refl) as Hnew.
  change (Reset (set_init s false)) with s1. intros [= He]. destruct (OpenOrCreate f w2 s2) as [[ok' w3] s3] eqn:Ho3. simplify_eq.
  destruct Hg as [(Hok3 & Hs3 & Hev3) Hi3]. split; [split; [done|]; split; [done|]; by do 2 etrans|].
  intros ->. split; [by apply Hi3|]. cbn in Hnew. apply Hnew; [|done].
  unfold w2, Remove. change (channel_id_ s1) with (channel_id_ s).
  destruct (names w1 !! channel_id_ s) eqn:Hn; [apply lookup_delete_eq|exact Hn].
Qed.

Lemma Ok_attached w s : seg_ok w s -> init_ s = true -> exists o x, attached w s o x.
Proof. intros [_ H] Hi. by apply H. Qed.

(** The configuration of an attached segment. *)
Lemma attached_conf w s o x :
  os_ok w -> attached w s o x -> block_num_ (conf_ s) = 2 ^ Z.log2 (block_num_ (conf_ s)) /\ 0 <= Z.log2 (block_num_ (conf_ s)) <= 32 /\ Z.of_nat (length (sh_blocks x)) = block_num_ (conf_ s) /\ 0 < block_num_ (conf_ s).
Proof.
  intros Hok []. destruct (oo_objects w Hok o x at_object0 at_size0) as (_ & Hl & _). rewrite at_conf0, Hl.
  destruct (Update_cases (state_ceiling_ (sh_state x))) as (k & Hk & Hk9 & _). unfold conf_of in *. rewrite Hk, Z.log2_pow2 by lia.
  split; [done|]. split; [lia|]. split; [done|]. apply Z.pow_pos_nonneg; lia.
Qed.

(** Taking a block of an attached segment. *)
Lemma take_block_spec w s o x :
  os_ok w -> attached w s o x ->
  let '(r, w', s') := take_block w s in
  s' = s /\ os_ok w' /\ evolves w w' /\
  match r with
  | Ok i => exists b, sh_blocks x !! i = Some b /\ lock_num_ b = 0 /\
      (sh_blocks <$> objects w' !! o) = Some (<[i := with_lock b (-1)]> (sh_blocks x)) /\ (sh_bufs <$> objects w' !! o) = Some (sh_bufs x)
  | Spins => w' = w /\ forall i b, sh_blocks x !! i = Some b -> lock_num_ b <> 0
  | _ => False
  end.
Proof.
  intros Hok Hat. destruct (attached_conf w s o x Hok Hat) as (Hp & Hl & Hlen & Hpos). destruct Hat.
  unfold take_block. rewrite at_state0, at_object0. set (num := block_num_ (conf_ s)) in *.
  pose proof (GetNext_spec (Z.to_nat num) num x Hp Hl Hlen) as Hg.
  destruct (GetNextWritableBlockIndex _ _ x) as [[i x']|].
  - destruct Hg as (b & Hb & H0 & Q1 & Q2 & Q3 & _). split; [done|].
    destruct (with_object_ok w o (fun _ => x') Hok) as [Hok' Hev]; [intros y Hy; by simplify_eq|].
    split; [done|]. split; [done|]. exists b. cbn. rewrite list_lookup_alter_eq, at_object0. cbn. rewrite Q1, Q2. done.
  - split; [done|]. split; [done|]. split; [reflexivity|]. split; [done|]. intros i b Hi.
    pose proof (lookup_lt_Some _ _ _ Hi). destruct (attempt_covers (sh_state x) num (Z.of_nat i) Hpos ltac:(lia)) as (k & Hk & Ha).
    apply (Hg k b); [lia|]. by rewrite Ha, Nat2Z.id.
Qed.

(** The segment after [need_remap] was looked at, before the size of the message is. *)
Definition refreshed (f : faults) (w : OS) (s : Segment) : bool * OS * Segment :=
  let '(_, w, s) := OpenOrCreate f w s in
  if default false (need_remap_ <$> state_of w s) then Remap f w s else (true, w, s).

Lemma refreshed_good f w s : os_ok w -> seg_ok w s ->
  let '(ok, w', s') := refreshed f w s in good w w' s' /\ ((OpenOrCreate f w s).1.1 = true -> ok = true -> init_ s' = true).
Proof.
  intros Hok Hs. unfold refreshed. pose proof (OpenOrCreate_good f w s Hok Hs) as Hg.
  destruct (OpenOrCreate f w s) as [[ok w1] s1]. destruct Hg as [Hg Hi]. pose proof Hg as (Hok1 & Hs1 & _).
  destruct (default false _).
  - pose proof (Remap_good f w1 s1 Hok1 Hs1) as Hr. destruct (Remap f w1 s1) as [[ok2 w2] s2].
    destruct Hr as [Hr Hri]. split; [by eapply good_trans|]. intros _. exact Hri.
  - split; [done|]. intros Ho _. by apply Hi.
Qed.

(** What [AcquireBlockToWrite] may leave behind: segments stay consistent; a block it returns was free in the
    segment as it was attached before (in [w2], which is [w] unless the segment had to be opened,
    remapped or made anew) and is locked for writing now, nothing else of the segment's blocks and buffers has
    changed, and the messages of the segment are large enough; it waits only when no block is free. *)
Definition usable (w : OS) (s : Segment) (msg_size : Z) : Prop :=
  init_ s = true /\ need_remap_ <$> state_of w s = Some false /\ msg_size <= ceiling_msg_size_ (conf_ s).
Definition acquired (w : OS) (s : Segment) (msg_size : Z) (fault : Prop) (t : result nat * OS * Segment) : Prop :=
  let '(r, w', s') := t in
  good w w' s' /\
  match r with
  | Ok i => exists w2 o x x' b, evolves w w2 /\ attached w2 s' o x /\ attached w' s' o x' /\ Z.of_nat i < block_num_ (conf_ s') /\
      sh_blocks x !! i = Some b /\ lock_num_ b = 0 /\ sh_blocks x' = <[i := with_lock b (-1)]> (sh_blocks x) /\ sh_bufs x' = sh_bufs x /\
      (msg_size <= MESSAGE_SIZE_MORE -> msg_size <= ceiling_msg_size_ (conf_ s')) /\ (usable w s msg_size -> w2 = w /\ s' = s)
  | Refused => True
  | Spins => exists o x, attached w' s' o x /\ forall i b, sh_blocks x !! i = Some b -> lock_num_ b <> 0
  | Fault => fault
  end.

Lemma take_block_acquired w s w2 s2 msg_size fault :
  (usable w s msg_size -> w2 = w /\ s2 = s) ->
  os_ok w2 -> seg_ok w2 s2 -> evolves w w2 -> init_ s2 = true ->
  (msg_size <= MESSAGE_SIZE_MORE -> msg_size <= ceiling_msg_size_ (conf_ s2)) ->
  acquired w s msg_size fault (take_block w2 s2).
Proof.
  intros Huse Hok2 Hs2 Hev2 Hi2 Hsz. destruct (Ok_attached w2 s2 Hs2 Hi2) as (o & x & Hat).
  pose proof (take_block_spec w2 s2 o x Hok2 Hat) as Ht. destruct (attached_conf w2 s2 o x Hok2 Hat) as (_ & _ & Hlen & _).
  unfold acquired. destruct (take_block w2 s2) as [[r w3] s3]. destruct Ht as (-> & Hok3 & Hev3 & Ht).
  pose proof (seg_ok_evolves _ _ _ Hev3 Hs2) as Hs3. split; [split; [done|]; split; [done|]; by etrans|].
  destruct r as [i| | |]; try done.
  - destruct (Ok_attached w3 s2 Hs3 Hi2) as (o3 & x3 & Hat3). assert (o3 = o) as -> by (destruct Hat, Hat3; congruence).
    destruct Ht as (b & Hb & H0 & Hbl & Hbf). rewrite (at_object _ _ _ _ Hat3) in Hbl, Hbf. cbn in Hbl, Hbf. injection Hbl as Hbl. injection Hbf as Hbf.
    exists w2, o, x, x3, b. pose proof (lookup_lt_Some _ _ _ Hb). split_and!; try done. lia.
  - destruct Ht as [-> Ht]. by exists o, x.
Qed.

Lemma refreshed_usable f w s msg_size : usable w s msg_size -> refreshed f w s = (true, w, s).
Proof.
  intros (Hi & Hr & _). unfold refreshed, OpenOrCreate. rewrite Hi. by rewrite Hr.
Qed.

Lemma AcquireBlockToWrite_spec f w s msg_size : os_ok w -> seg_ok w s ->
  acquired w s msg_size ((refreshed f w s).1.1 = false /\ ceiling_msg_size_ (conf_ (refreshed f w s).2) < msg_size)
    (AcquireBlockToWrite f w s msg_size).
Proof.
  intros Hok Hs. pose proof (refreshed_good f w s Hok Hs) as Hr. pose proof (refreshed_usable f w s msg_size) as Huse. unfold AcquireBlockToWrite. unfold refreshed in *.
  destruct (OpenOrCreate f w s) as [[ok0 w0] s0] eqn:Ho. pose proof (OpenOrCreate_good f w s Hok Hs) as Hg0. rewrite Ho in Hg0.
  destruct Hg0 as [Hg0 Hi0]. destruct ok0; cbn [negb]; [|done].
  destruct (Ok_attached w0 s0) as (o0 & x0 & Hat0); [apply Hg0|by apply Hi0|].
  assert (Hst : state_of w0 s0 = Some (sh_state x0)).
  { unfold state_of. rewrite (at_state _ _ _ _ Hat0). cbn. by rewrite (at_object _ _ _ _ Hat0). }
  rewrite Hst in *. cbn [default fmap option_fmap option_map] in *.
  destruct (if need_remap_ (sh_state x0) then _ else _) as [[ok1 w1] s1]. cbn [fst snd] in *.
  destruct Hr as [(Hok1 & Hs1 & Hev1) Hi1]. specialize (Hi1 eq_refl).
  destruct (Z.ltb_spec (ceiling_msg_size_ (conf_ s1)) msg_size) as [Hlt|Hge].
  - destruct (Recreate f w1 s1 msg_size) as [[[ok2 w2] s2]|] eqn:Hre.
    + destruct (Recreate_good f w1 s1 msg_size w2 s2 ok2 Hok1 Hs1 Hre) as [(Hok2 & Hs2 & Hev2) Hi2].
      destruct ok2; cbn [negb]; [|split; [split; [done|]; split; [done|]; by etrans|done]].
      destruct (Hi2 eq_refl) as [Hin Hcf]. apply take_block_acquired; try done; [|by etrans|].
      { intros Hu. specialize (Huse Hu) as [= _ -> ->]. destruct Hu as (_ & _ & ?). lia. } rewrite Hcf. apply ceiling_enough.
    + split; [done|]. split; [|done]. destruct ok1; [|done]. exfalso.
      destruct (Ok_attached w1 s1 Hs1 (Hi1 eq_refl)) as (o1 & x1 & Hat1). unfold Recreate in Hre. cbn in Hre.
      rewrite (at_state _ _ _ _ Hat1) in Hre. done.
  - destruct ok1; cbn [negb]; [|done]. apply take_block_acquired; [|done|done|done|by apply Hi1|intros _; lia].
    intros Hu. by specialize (Huse Hu) as [= -> ->].
Qed.

Lemma on_block_good w s i g : os_ok w -> seg_ok w s -> good w (on_block w s i g).2 s.
Proof.
  intros Hok Hs. unfold on_block. destruct (blocks_ s) as [o|]; [|by apply good_refl].
  destruct (objects w !! o) as [x|]; [|by apply good_refl]. case_decide; [|by apply good_refl]. cbn [snd].
  destruct (with_object_ok w o (with_block i g) Hok) as [Hok' Hev]; [by intros; apply same_shape_block|].
  split; [done|]. split; [by eapply seg_ok_evolves|done].
Qed.

Lemma release_good w s i :
  os_ok w -> seg_ok w s -> good w (ReleaseWrittenBlock w s i).2 s /\ good w (ReleaseReadBlock w s i).2 s.
Proof.
  intros Hok Hs. unfold ReleaseWrittenBlock, ReleaseReadBlock.
  destruct (_ <=? _); [by split; apply good_refl|split; by apply on_block_good].
Qed.

Lemma AcquireBlockToRead_good f w s i : os_ok w -> seg_ok w s ->
  let '(_, w', s') := AcquireBlockToRead f w s i in good w w' s'.
Proof.
  intros Hok Hs. unfold AcquireBlockToRead. pose proof (OpenOnly_good f w s Hok Hs) as Hg.
  destruct (OpenOnly f w s) as [[ok w1] s1]. destruct Hg as [Hg Hi]. destruct ok; cbn [negb]; [|done].
  destruct (_ <=? _); [done|]. destruct (state_of w1 s1) as [st|]; [|done].
  assert (Hm : forall ok2 w2 s2, (if need_remap_ st then Remap f w1 s1 else (true, w1, s1)) = (ok2, w2, s2) -> good w w2 s2).
  { intros ok2 w2 s2. destruct (need_remap_ st); [|by intros [= <- <- <-]]. destruct Hg as (Hok1 & Hs1 & Hev1).
    pose proof (Remap_good f w1 s1 Hok1 Hs1) as Hr. intros Heq. rewrite Heq in Hr. eapply good_trans; [|apply Hr]. by split. }
  destruct (if need_remap_ st then _ else _) as [[ok2 w2] s2]. specialize (Hm ok2 w2 s2 eq_refl).
  destruct ok2; cbn [negb]; [|done]. destruct Hm as (Hok2 & Hs2 & Hev2).
  assert (Hl : good w (lock_to_read w2 s2 i).2 s2).
  { unfold lock_to_read. destruct (blocks_ s2) as [o|]; [|by split]. destruct (_ ≫= _) as [b|]; [|by split]. cbn [snd].
    destruct (with_object_ok w2 o (with_block i (fun b => (TryLockForRead b).2)) Hok2) as [Hok3 Hev3]; [by intros; apply same_shape_block|].
    split; [done|]. split; [by eapply seg_ok_evolves|by etrans]. }
  destruct (lock_to_read w2 s2 i) as [[[]| | |] w3]; exact Hl.
Qed.

Lemma Destroy_good w s : os_ok w -> seg_ok w s -> let '(_, w', s') := Destroy w s in good w w' s'.
Proof.
  intros Hok Hs. unfold Destroy. cbv zeta. destruct (init_ s); cbn [negb]; [|by apply good_refl]. destruct Hs as [[real Hr] _].
  cbn [set_init state_]. destruct (state_ s) as [o|]; [|by eapply good_detached].
  destruct (with_object_ok w o (with_state DecreaseReferenceCounts) Hok) as [Hok' Hev].
  { intros x _. apply same_shape_state. unfold DecreaseReferenceCounts. by destruct (_ =? _). }
  set (w1 := with_object w o (with_state DecreaseReferenceCounts)) in *. set (s1 := set_init s false).
  destruct (_ =? _); [|by eapply good_detached]. destruct (Remove_ok w1 s1 Hok') as [Hok2 Hev2].
  destruct (Remove w1 s1) as [ok w2]. eapply good_detached; [done|by etrans|done|done].
Qed.

(** *** Any number of processes *)
Inductive seg_op :=
| OWrite (f : faults) (msg_size : Z)
| OWritten (i : nat)
| ORead (f : faults) (i : nat)
| OReadDone (i : nat)
| ODestroy.

Definition apply_op (w : OS) (s : Segment) (o : seg_op) : OS * Segment :=
  match o with
  | OWrite f n => let '(_, w, s) := AcquireBlockToWrite f w s n in (w, s)
  | OWritten i => ((ReleaseWrittenBlock w s i).2, s)
  | ORead f i => let '(_, w, s) := AcquireBlockToRead f w s i in (w, s)
  | OReadDone i => ((ReleaseReadBlock w s i).2, s)
  | ODestroy => let '(_, w, s) := Destroy w s in (w, s)
  end.

(** The operating system and the segment of every process. *)
Definition procs_step (c : OS * (nat -> Segment)) (ev : nat * seg_op) : OS * (nat -> Segment) :=
  let '(w, s) := apply_op c.1 (c.2 ev.1) ev.2 in (w, <[ev.1 := s]> c.2).
Definition procs (channel : nat -> Z) (evs : list (nat * seg_op)) : OS * (nat -> Segment) :=
  foldl procs_step (mkOS ∅ [], fun p => Segment_new (channel p)) evs.

Lemma apply_op_good w s o : os_ok w -> seg_ok w s -> good w (apply_op w s o).1 (apply_op w s o).2.
Proof.
  intros Hok Hs. destruct o as [f n|i|f i|i|]; cbn [apply_op].
  - pose proof (AcquireBlockToWrite_spec f w s n Hok Hs) as H. destruct (AcquireBlockToWrite f w s n) as [[r w'] s']. apply H.
  - apply (release_good w s i Hok Hs).
  - pose proof (AcquireBlockToRead_good f w s i Hok Hs) as H. by destruct (AcquireBlockToRead f w s i) as [[r w'] s'].
  - apply (release_good w s i Hok Hs).
  - pose proof (Destroy_good w s Hok Hs) as H. by destruct (Destroy w s) as [[r w'] s'].
Qed.

Lemma procs_ok channel evs : os_ok (procs channel evs).1 /\ forall p, seg_ok (procs channel evs).1 ((procs channel evs).2 p).
Proof.
  unfold procs. induction evs as [|[p o] evs IH] using rev_ind; cbn.
  - split; [by split|]. intros p. split; [by exists MESSAGE_SIZE_16K|done].
  - rewrite foldl_app. cbn. destruct IH as [Hok Hs]. unfold procs_step. cbn [fst snd]. set (c := foldl _ _ _) in *.
    pose proof (apply_op_good c.1 (c.2 p) o Hok (Hs p)) as (Hok' & Hs' & Hev). destruct (apply_op c.1 (c.2 p) o) as [w' s']. cbn in *.
    split; [done|]. intros q. thread_cases q p; [done|]. by eapply seg_ok_evolves.
Qed.

(** C10: after any sequence of operations of any processes, with any failures of the operating
    system, every segment agrees with the object it is attached to (configuration, number of
    blocks, buffers), and an [AcquireBlockToWrite] hands out a block that was free (lock 0) in the segment it
    is attached to, locks it for writing (lock -1) and changes no other block and no buffer, in a
    segment with room for the message if it has at most 32 MiB (the largest ceiling); or reports
    failure; or waits because no block is free; it leaves the mapped memory only where remapping
    failed and the message is larger than the ceiling of the segment it had. *)
Theorem shm_segments_consistent channel evs p f msg_size :
  let w := (procs channel evs).1 in
  let s := (procs channel evs).2 p in
  (init_ s = true -> exists o x, attached w s o x /\ Z.of_nat (length (sh_blocks x)) = block_num_ (conf_ s)) /\
  acquired w s msg_size ((refreshed f w s).1.1 = false /\ ceiling_msg_size_ (conf_ (refreshed f w s).2) < msg_size)
    (AcquireBlockToWrite f w s msg_size).
Proof.
  cbv zeta. destruct (procs_ok channel evs) as [Hok Hs]. split; [|by apply AcquireBlockToWrite_spec].
  intros Hi. destruct (Ok_attached _ _ (Hs p) Hi) as (o & x & Hat). exists o, x. split; [done|].
  by destruct (attached_conf _ _ _ _ Hok Hat) as (_ & _ & ? & _).
Qed.

(** ** Where the segments go wrong *)

(** A message larger than the largest ceiling gets a block whose buffer is too small for it. *)
Theorem oversized_message_accepted :
  let '(r, w, s) := AcquireBlockToWrite no_faults (mkOS ∅ []) (Segment_new 7) 40000000 in
  r = Ok 0%nat /\ block_buf_size_ (conf_ s) < 40000000.
Proof. by vm_compute. Qed.

Definition at_process (p : nat) (evs : list (nat * seg_op)) : OS * Segment :=
  ((procs (fun _ => 7) evs).1, (procs (fun _ => 7) evs).2 p).

(** The reader checks the index against the configuration it had before it remapped: told of
    block 500 of a segment that was recreated with 8 blocks, it follows the index outside the
    block array. *)
Theorem stale_index_read :
  let '(w, s) := at_process 1 [(0%nat, OWrite no_faults 100); (0%nat, OWritten 0); (1%nat, ORead no_faults 0);
                               (1%nat, OReadDone 0); (0%nat, OWrite no_faults 20000000)] in
  (AcquireBlockToRead no_faults w s 500).1.1 = Fault.
Proof. by vm_compute. Qed.

(** A block released after its segment was recreated under the same object is released in the
    new segment: the lock of a block nobody holds is left at 1 and no writer gets it again. *)
Theorem release_hits_new_segment :
  let '(w, s) := at_process 0 [(0%nat, OWrite no_faults 100); (0%nat, OWrite no_faults 20000);
                               (0%nat, OWritten 0); (0%nat, OWritten 0)] in
  (x ← blocks_ s ≫= (fun o => objects w !! o); lock_num_ <$> sh_blocks x !! 0%nat) = Some 1.
Proof. by vm_compute. Qed.
