(* ===== verification/ConditionNotifier.v ===== *)
(** * The condition notifier: transport/shm/condition_notifier.cc, condition_notifier.h

    Notifiers of all processes announce readable blocks in a ring of 4096 entries in shared
    memory; every process has a listener that follows the ring.  The accesses to the ring are
    steps; storing an entry is not atomic, so an entry is [None] between its first and its last
    store.  Attaching the ring is I/O; an initialised notifier starts with the ring zeroed. *)

From Stdlib Require Import ZArith Lia.
From stdpp Require Import base gmap functions numbers list.
From S2P Require Import Prelude.

Definition kBufLength : Z := 4096.

Section ConditionNotifier.
Context {I : Type} (info0 : I).

Record Indicator := mkInd { next_seq : Z; infos : list (option I); seqs : list Z }.

Definition Indicator_new : Indicator :=
  mkInd 0 (replicate (Z.to_nat kBufLength) (Some info0)) (replicate (Z.to_nat kBufLength) 0).

(** Where a call of [Listen] is. *)
Inductive lpc := LNew | LLoop | LCheck | LCopy (idx : nat).

(** The ring, a listener with its cursor [next_seq_], and what has happened: [claimed] lists the
    announcements in the order of their sequence numbers, [from] is where the listener started
    and [got] what it returned. *)
Record ring := mkRing {
  ind : Indicator;
  next_seq_ : Z;
  at_ : lpc;
  claimed : list I;
  from : Z;
  got : list (option I)
}.

Definition ring_new : ring := mkRing Indicator_new 0 LNew [] 0 [].

(** Where a call of [Notify] is: about to take a number, about to store the entry, in the middle
    of storing it, about to store its number. *)
Inductive npc := NIdle | NClaim (i : I) | NBegin (seq : Z) (i : I) | NFill (seq : Z) (i : I) | NSeq (seq : Z).

Inductive nevent := StartNotify (i : I) | NStep | LStep.

Definition slot (seq : Z) : nat := Z.to_nat (seq mod kBufLength).

Definition set_info (d : Indicator) (k : nat) (x : option I) : Indicator := mkInd (next_seq d) (<[k := x]> (infos d)) (seqs d).
Definition set_seq (d : Indicator) (k : nat) (x : Z) : Indicator := mkInd (next_seq d) (infos d) (<[k := x]> (seqs d)).
Definition with_ind (r : ring) (d : Indicator) : ring := mkRing d (next_seq_ r) (at_ r) (claimed r) (from r) (got r).

(** [Notify(info)] of an initialised notifier. *)
Definition Notify_step (r : ring) (p : npc) : ring * npc :=
  match p with
  | NClaim i =>
      let seq := next_seq (ind r) in
      (mkRing (mkInd (seq +u 1) (infos (ind r)) (seqs (ind r))) (next_seq_ r) (at_ r) (claimed r ++ [i]) (from r) (got r),
       NBegin seq i)
  | NBegin seq i => (with_ind r (set_info (ind r) (slot seq) None), NFill seq i)
  | NFill seq i => (with_ind r (set_info (ind r) (slot seq) (Some i)), NSeq seq)
  | NSeq seq => (with_ind r (set_seq (ind r) (slot seq) seq), NIdle)
  | _ => (r, p)
  end.

(** The constructor's load of [next_seq], then [Listen] without its time-out: a call that times out
    leaves the state where the next one takes it up. *)
Definition Listen_step (r : ring) : ring :=
  let d := ind r in
  match at_ r with
  | LNew => mkRing d (next_seq d) LLoop (claimed r) (next_seq d) (got r)
  | LLoop =>
      if next_seq d =? next_seq_ r then r else mkRing d (next_seq_ r) LCheck (claimed r) (from r) (got r)
  | LCheck =>
      let idx := slot (next_seq_ r) in
      let actual_seq := default 0 (seqs d !! idx) in
      if next_seq_ r <=? actual_seq then mkRing d actual_seq (LCopy idx) (claimed r) (from r) (got r)
      else mkRing d (next_seq_ r) LLoop (claimed r) (from r) (got r)
  | LCopy idx =>
      mkRing d (next_seq_ r +u 1) LLoop (claimed r) (from r) (got r ++ [infos d !! idx ≫= id])
  end.

Definition ring_thread (r : ring) (p : npc) (e : nevent) : ring * npc :=
  match p, e with
  | _, LStep => (Listen_step r, p)
  | NIdle, StartNotify i => (r, NClaim i)
  | NIdle, _ => (r, p)
  | _, NStep => Notify_step r p
  | _, _ => (r, p)
  end.

Definition ring_init : @conf ring npc := Conf ring_new (fun _ => NIdle).

(** The number a thread is announcing. *)
Definition announcing (p : npc) : option Z :=
  match p with NBegin q _ | NFill q _ | NSeq q => Some q | _ => None end.

(** No notifier and no listener is more than one turn of the ring behind. *)
Definition unlapped (c : @conf ring npc) : Prop :=
  (at_ (shared c) <> LNew -> next_seq (ind (shared c)) <= next_seq_ (shared c) + kBufLength) /\
  forall u q, announcing (pcs c u) = Some q -> next_seq (ind (shared c)) <= q + kBufLength.

(** ** The invariant *)
Definition in_window (r : ring) (q : Z) : Prop := 0 <= q < next_seq (ind r) /\ next_seq (ind r) <= q + kBufLength.

(** The announcement [q] is complete. *)
Definition complete (r : ring) (q : Z) : Prop :=
  seqs (ind r) !! slot q = Some q /\ exists i, infos (ind r) !! slot q = Some (Some i) /\ claimed r !! Z.to_nat q = Some i.

Record thread_ok (r : ring) (p : npc) : Prop := {
  to_range : forall q, announcing p = Some q -> 0 <= q < next_seq (ind r);
  to_old : forall q, announcing p = Some q -> exists a, seqs (ind r) !! slot q = Some a /\ a <= q /\ (a = q -> q = 0);
  to_claimed : forall q i, p = NBegin q i \/ p = NFill q i -> claimed r !! Z.to_nat q = Some i;
  to_stored : forall q, p = NSeq q -> exists i, infos (ind r) !! slot q = Some (Some i) /\ claimed r !! Z.to_nat q = Some i
}.

Record listener_ok (r : ring) : Prop := {
  lo_range : at_ r <> LNew -> 0 <= from r <= next_seq_ r /\ next_seq_ r <= next_seq (ind r);
  lo_check : at_ r = LCheck -> next_seq_ r < next_seq (ind r);
  lo_copy : forall k, at_ r = LCopy k -> next_seq_ r < next_seq (ind r) /\ k = slot (next_seq_ r) /\ (1 <= from r -> complete r (next_seq_ r));
  lo_got : at_ r <> LNew -> 1 <= from r -> got r = Some <$> take (Z.to_nat (next_seq_ r - from r)) (drop (Z.to_nat (from r)) (claimed r));
  lo_new : at_ r = LNew -> got r = []
}.

Record ring_inv (n : nat) (c : @conf ring npc) : Prop := {
  ri_next : next_seq (ind (shared c)) = Z.of_nat (length (claimed (shared c)));
  ri_small : (length (claimed (shared c)) <= n)%nat;
  ri_infos : length (infos (ind (shared c))) = Z.to_nat kBufLength;
  ri_seqs : length (seqs (ind (shared c))) = Z.to_nat kBufLength;
  ri_threads : forall u, thread_ok (shared c) (pcs c u);
  ri_distinct : forall u v q, announcing (pcs c u) = Some q -> announcing (pcs c v) = Some q -> u = v;
  ri_window : forall q, in_window (shared c) q -> complete (shared c) q \/ exists u, announcing (pcs c u) = Some q;
  ri_fresh : forall k, next_seq (ind (shared c)) <= k < kBufLength -> seqs (ind (shared c)) !! Z.to_nat k = Some 0;
  ri_listener : listener_ok (shared c)
}.

Lemma slot_window r q q' : in_window r q -> in_window r q' -> slot q = slot q' -> q = q'.
Proof.
  unfold in_window, slot, kBufLength. intros Hq Hq' Hs%Z_to_nat_mod_inj; [|done].
  destruct (Z.le_ge_cases q q'); [apply (mod_eq_window 4096)|symmetry; apply (mod_eq_window 4096)]; try done; lia.
Qed.

Lemma slot_lt q : (slot q < Z.to_nat kBufLength)%nat.
Proof. unfold slot. pose proof (Z.mod_pos_bound q kBufLength ltac:(done)). unfold kBufLength in *. lia. Qed.

Lemma slot_small k : 0 <= k < kBufLength -> slot k = Z.to_nat k.
Proof. intros Hk. unfold slot. by rewrite Z.mod_small. Qed.

(** Changing the listener only. *)
Lemma listen_inv n c r' :
  ring_inv n c -> ind r' = ind (shared c) -> claimed r' = claimed (shared c) -> listener_ok r' ->
  forall t, ring_inv (n + 1) (Conf r' (<[t := pcs c t]> (pcs c))).
Proof.
  intros [] Hi Hc Hl t.
  assert (Hp : forall u, (<[t := pcs c t]> (pcs c)) u = pcs c u) by (intros u; by thread_cases u t).
  assert (Hcm : forall q, complete (shared c) q -> complete r' q) by (intros q Hq; unfold complete; by rewrite Hi, Hc).
  split; cbn [shared pcs]; rewrite ?Hi, ?Hc; try done; try lia.
  - intros u. rewrite Hp. destruct (ri_threads0 u). split; by rewrite ?Hi, ?Hc.
  - intros u v q. rewrite !Hp. apply ri_distinct0.
  - intros q Hq. destruct (ri_window0 q) as [?|[u Hu]]; [unfold in_window in *; by rewrite Hi in Hq|left; auto|right; exists u; by rewrite Hp].
Qed.

(** The announcements of a consistent ring lie in its window. *)
Lemma announcing_window n c u q :
  ring_inv n c -> unlapped c -> announcing (pcs c u) = Some q -> in_window (shared c) q.
Proof. intros Hi [_ Hu] Hq. split; [by apply (to_range _ _ (ri_threads _ _ Hi u))|by eapply Hu]. Qed.

(** A store of thread [t], which announces [q], into the slot of [q]. *)
Lemma store_inv n c t q d' p' :
  ring_inv n c -> unlapped c -> announcing (pcs c t) = Some q ->
  next_seq d' = next_seq (ind (shared c)) ->
  length (infos d') = length (infos (ind (shared c))) -> length (seqs d') = length (seqs (ind (shared c))) ->
  (forall k, k <> slot q -> infos d' !! k = infos (ind (shared c)) !! k /\ seqs d' !! k = seqs (ind (shared c)) !! k) ->
  announcing p' = Some q \/ (announcing p' = None /\ complete (with_ind (shared c) d') q) ->
  thread_ok (with_ind (shared c) d') p' ->
  ring_inv (n + 1) (Conf (with_ind (shared c) d') (<[t := p']> (pcs c))).
Proof.
  intros Hinv Hunl Ht Hn Hl1 Hl2 Hd Hp' Hok. set (r := shared c) in *. set (r' := with_ind r d').
  pose proof (announcing_window n c t q Hinv Hunl Ht) as Hwq. fold r in Hwq.
  assert (Hother : forall x, in_window r x -> x <> q -> slot x <> slot q).
  { intros x Hx Hne Hs. apply Hne. by apply (slot_window r). }
  assert (Hcm : forall x, in_window r x -> x <> q -> complete r x -> complete r' x).
  { intros x Hx Hne [Hs (i & Hi & Hc)]. destruct (Hd (slot x) (Hother x Hx Hne)) as [E1 E2]. split; [cbn; congruence|].
    exists i. split; [cbn; congruence|done]. }
  pose proof (announcing_window n c) as Haw. destruct Hinv. fold r in ri_next0, ri_small0, ri_infos0, ri_seqs0, ri_threads0, ri_window0, ri_fresh0, ri_listener0.
  split; cbn [shared pcs]; fold r'; try (cbn [r' with_ind ind claimed]; rewrite ?Hn, ?Hl1, ?Hl2; done || lia).
  - intros u. thread_cases u t; [done|]. destruct (ri_threads0 u) as [T1 T2 T3 T4].
    assert (Hu : forall x, announcing (pcs c u) = Some x -> slot x <> slot q).
    { intros x Hx. apply Hother; [apply (Haw u x); [by split|done|done]|]. intros ->. by apply (ri_distinct0 u t q) in Hx. }
    split; cbn [r' with_ind ind claimed]; rewrite ?Hn; try done.
    + intros x Hx. destruct (Hd _ (Hu x Hx)) as [_ ->]. by apply T2.
    + intros x Hx. destruct (Hd (slot x)) as [-> _]; [apply Hu; by rewrite Hx|by apply T4].
  - intros u v x. thread_cases u t; thread_cases v t; try done.
    + intros Hx Hv. destruct Hp' as [Hp'|[Hp' _]]; [|congruence]. simplify_eq. by apply (ri_distinct0 t v q).
    + intros Hu Hx. destruct Hp' as [Hp'|[Hp' _]]; [|congruence]. simplify_eq. by apply (ri_distinct0 u t q).
    + apply ri_distinct0.
  - intros x Hx. assert (Hwx : in_window r x) by (unfold in_window in *; cbn in Hx; by rewrite Hn in Hx).
    destruct (decide (x = q)) as [->|Hne].
    + destruct Hp' as [Hp'|[_ Hp']]; [right; exists t; by rewrite fn_lookup_insert|by left].
    + destruct (ri_window0 x Hwx) as [Hc|[u Hu]]; [left; by apply Hcm|right]. exists u. thread_cases u t; congruence.
  - cbn [r' with_ind ind]. rewrite Hn. intros k Hk. rewrite <- (ri_fresh0 k Hk). apply Hd. destruct Hwq as [[? ?] _].
    rewrite slot_small by lia. lia.
  - destruct ri_listener0 as [L1 L2 L3 L4 L5]. split; cbn [r' with_ind ind at_ next_seq_ from got claimed]; rewrite ?Hn; try done.
    intros k Hk. destruct (L3 k Hk) as (A1 & A2 & A3). split; [done|]. split; [done|]. intros Hf.
    assert (at_ r <> LNew) by (by rewrite Hk). destruct (L1 ltac:(done)) as [B1 B2].
    assert (Hwc : in_window r (next_seq_ r)) by (split; [lia|by apply Hunl]).
    apply Hcm; [done| |by apply A3]. intros Heq. destruct (A3 Hf) as [Hs _].
    destruct (to_old _ _ (ri_threads0 t) q Ht) as (a & Ha & _ & Haq). rewrite <- Heq in *. fold r in Ha. rewrite Hs in Ha. simplify_eq.
    lia.
Qed.

(** The slot a new announcement takes holds an announcement one turn older, or was never used. *)
Lemma claim_old n c t i :
  ring_inv n c -> unlapped (exec1 ring_thread c (t, NStep)) -> pcs c t = NClaim i -> Z.of_nat n + 1 < two64 ->
  exists a, seqs (ind (shared c)) !! slot (next_seq (ind (shared c))) = Some a /\ a <= next_seq (ind (shared c)) /\
    (a = next_seq (ind (shared c)) -> next_seq (ind (shared c)) = 0).
Proof.
  intros Hinv Hunl Ht Hn. destruct Hinv. set (q := next_seq (ind (shared c))) in *.
  destruct (Z.lt_ge_cases q kBufLength) as [Hq|Hq].
  - exists 0. rewrite slot_small by lia. rewrite ri_fresh0 by lia. split; [done|lia].
  - exists (q - kBufLength). assert (0 < kBufLength) by done.
    assert (slot q = slot (q - kBufLength)) as ->.
    { unfold slot. f_equal. rewrite <- (mod_add_turn kBufLength (q - kBufLength)) by done. f_equal. lia. }
    destruct (ri_window0 (q - kBufLength)) as [[Hc _]|[u Hu]]; [split; fold q; lia|split; [done|lia]|].
    exfalso. destruct Hunl as [_ Hunl]. specialize (Hunl u (q - kBufLength)).
    unfold exec1 in Hunl. cbn [fst snd] in Hunl. rewrite Ht in Hunl. cbn in Hunl. fold q in Hunl.
    rewrite u64_small in Hunl by lia. thread_cases u t; [by rewrite Ht in Hu|]. specialize (Hunl Hu). lia.
Qed.

Lemma complete_claim r d' q i :
  infos d' = infos (ind r) -> seqs d' = seqs (ind r) -> complete r q ->
  complete (mkRing d' (next_seq_ r) (at_ r) (claimed r ++ [i]) (from r) (got r)) q.
Proof.
  intros H1 H2 [Hs (j & Hj & Hc)]. unfold complete. cbn. rewrite H1, H2. split; [done|]. exists j. split; [done|].
  by apply lookup_app_l_Some.
Qed.

(** Taking a number. *)
Lemma claim_inv n c t i :
  ring_inv n c -> unlapped (exec1 ring_thread c (t, NStep)) -> pcs c t = NClaim i -> Z.of_nat n + 1 < two64 ->
  ring_inv (n + 1) (exec1 ring_thread c (t, NStep)).
Proof.
  intros Hinv Hunl Ht Hn. pose proof (claim_old n c t i Hinv Hunl Ht Hn) as Hold. clear Hunl.
  unfold exec1. cbn [fst snd]. rewrite Ht. cbn [ring_thread Notify_step fst snd].
  destruct Hinv. set (r := shared c) in *. rewrite u64_small by lia.
  assert (Hcl : forall k x, claimed r !! k = Some x -> (claimed r ++ [i]) !! k = Some x) by (intros; by apply lookup_app_l_Some).
  split; cbn [shared pcs ind claimed next_seq infos seqs]; rewrite ?length_app; cbn [length]; try done; try lia.
  - intros u. thread_cases u t.
    + split; cbn; try congruence.
      * intros q [= <-]. lia.
      * intros q [= <-]. done.
      * intros q j [[= <- <-]|[=]]. rewrite ri_next0, Nat2Z.id. apply lookup_snoc_len.
    + destruct (ri_threads0 u) as [T1 T2 T3 T4]. split; cbn; try done.
      * intros q Hq. specialize (T1 q Hq). lia.
      * intros q j Hq. by apply Hcl, T3.
      * intros q Hq. destruct (T4 q Hq) as (j & ? & ?). exists j. auto.
  - intros u v x. thread_cases u t; thread_cases v t; try done; cbn [announcing].
    + intros [= <-] Hv. apply (to_range _ _ (ri_threads0 v)) in Hv. lia.
    + intros Hu [= <-]. apply (to_range _ _ (ri_threads0 u)) in Hu. lia.
    + apply ri_distinct0.
  - intros x [Hx1 Hx2]. cbn in Hx1, Hx2. destruct (decide (x = next_seq (ind r))) as [->|Hne].
    + right. exists t. by rewrite fn_lookup_insert.
    + destruct (ri_window0 x) as [Hc|[u Hu]]; [split; lia|left; by apply complete_claim|right].
      exists u. thread_cases u t; [by rewrite Ht in Hu|done].
  - intros k Hk. apply ri_fresh0. lia.
  - destruct ri_listener0 as [L1 L2 L3 L4 L5]. split; cbn; try done.
    + intros Ha. specialize (L1 Ha). lia.
    + intros Ha. specialize (L2 Ha). lia.
    + intros k Hk. destruct (L3 k Hk) as (? & ? & Hc). split; [lia|]. split; [done|]. intros Hf. apply complete_claim; auto.
    + intros Ha Hf. rewrite L4 by done. destruct (L1 Ha). rewrite drop_app_le by lia.
      rewrite take_app_le; [done|]. rewrite length_drop. lia.
Qed.

(** A step of a notifier that has its number. *)
Lemma notify_inv n c t q :
  ring_inv n c -> unlapped c -> announcing (pcs c t) = Some q -> ring_inv (n + 1) (exec1 ring_thread c (t, NStep)).
Proof.
  intros Hinv Hunl Hq. pose proof (slot_lt q) as Hlt.
  pose proof (ri_threads _ _ Hinv t) as [T1 T2 T3 T4]. pose proof (ri_infos _ _ Hinv) as Hli. pose proof (ri_seqs _ _ Hinv) as Hls.
  unfold exec1. cbn [fst snd]. destruct (pcs c t) as [|?|q' i|q' i|q'] eqn:Ht; try done; cbn in Hq; simplify_eq; cbn [ring_thread Notify_step fst snd].
  - apply (store_inv _ _ _ q); rewrite ?Ht; cbn; rewrite ?length_insert; auto; [by intros; rewrite list_lookup_insert_ne|].
    split; cbn; try congruence; auto. intros x j [[=]|[= <- <-]]. eauto.
  - apply (store_inv _ _ _ q); rewrite ?Ht; cbn; rewrite ?length_insert; auto; [by intros; rewrite list_lookup_insert_ne|].
    split; cbn; auto; [intros x j [[=]|[=]]|]. intros x [= <-]. exists i. rewrite list_lookup_insert_eq by lia. eauto.
  - apply (store_inv _ _ _ q); rewrite ?Ht; cbn; rewrite ?length_insert; auto; [by intros; rewrite list_lookup_insert_ne| |].
    + right. split; [done|]. unfold complete. cbn. rewrite list_lookup_insert_eq by lia. auto.
    + split; cbn; try congruence. intros x j [[=]|[=]].
Qed.

(** A step of the listener keeps its part of the invariant. *)
Lemma listener_step n c :
  ring_inv n c -> unlapped c -> Z.of_nat n + 1 < two64 -> listener_ok (Listen_step (shared c)).
Proof.
  intros Hinv [Hlap _] Hn. destruct Hinv. set (r := shared c) in *. destruct ri_listener0 as [L1 L2 L3 L4 L5].
  unfold Listen_step. destruct (at_ r) as [| | |k] eqn:Ha.
  - split; cbn; try congruence; [lia|]. intros _ _. rewrite Z.sub_diag. cbn. rewrite L5 by done. done.
  - destruct (Z.eqb_spec (next_seq (ind r)) (next_seq_ r)); [split; rewrite ?Ha; done|].
    specialize (L1 ltac:(done)). split; cbn; try congruence; auto; lia.
  - specialize (L1 ltac:(done)). specialize (L2 eq_refl). specialize (Hlap ltac:(done)).
    destruct (ri_window0 (next_seq_ r)) as [Hc|[u Hu]]; [split; lia| |].
    + rewrite (proj1 Hc). cbn. rewrite Z.leb_refl. split; cbn; try congruence; auto.
      intros k [= <-]. split; [done|]. split; [done|]. intros _. exact Hc.
    + destruct (to_old _ _ (ri_threads0 u) _ Hu) as (a & Has & Hle & H0). fold r in Has. rewrite Has. cbn.
      destruct (Z.leb_spec (next_seq_ r) a) as [Hge|]; [|split; cbn; try congruence; auto].
      assert (a = next_seq_ r) as -> by lia. specialize (H0 eq_refl).
      split; cbn; try congruence; auto. intros k [= <-]. split; [done|]. split; [done|]. lia.
  - destruct (L1 ltac:(done)) as [B1 B2]. destruct (L3 k eq_refl) as (A1 & -> & A3). rewrite u64_small by lia.
    split; cbn; try congruence; [lia|]. intros _ Hf. destruct (A3 Hf) as [_ (i & Hi & Hc)]. rewrite L4 by done. rewrite Hi. cbn.
    replace (Z.to_nat (next_seq_ r + 1 - from r)) with (S (Z.to_nat (next_seq_ r - from r))) by lia.
    rewrite (take_succ_lookup _ _ i); [by rewrite fmap_app|]. rewrite lookup_drop. rewrite <- Hc. f_equal. lia.
Qed.

Lemma Listen_step_ind r : ind (Listen_step r) = ind r /\ claimed (Listen_step r) = claimed r.
Proof. unfold Listen_step. destruct (at_ r); repeat case_match; done. Qed.

Lemma idle_inv n c t p' :
  ring_inv n c -> announcing (pcs c t) = None -> announcing p' = None -> ring_inv (n + 1) (Conf (shared c) (<[t := p']> (pcs c))).
Proof.
  intros [] Hp Hp'. split; cbn [shared pcs]; try done; try lia.
  - intros u. thread_cases u t; [|done]. split; try congruence.
    + intros q i [-> | ->]; done.
    + by intros q ->.
  - intros u v q. thread_cases u t; thread_cases v t; try congruence. apply ri_distinct0.
  - intros q Hq. destruct (ri_window0 q Hq) as [?|[u Hu]]; [by left|right]. exists u. thread_cases u t; congruence.
Qed.

Lemma ring_inv_exec1 n c ev :
  ring_inv n c -> unlapped c -> unlapped (exec1 ring_thread c ev) -> Z.of_nat n + 1 < two64 ->
  ring_inv (n + 1) (exec1 ring_thread c ev).
Proof.
  intros Hinv Hu Hu' Hn. destruct ev as [t e].
  assert (Hstay : ring_inv (n + 1) (Conf (shared c) (<[t := pcs c t]> (pcs c)))).
  { apply listen_inv; try done. apply Hinv. }
  destruct e as [i| |].
  - unfold exec1. cbn [fst snd]. destruct (pcs c t) eqn:Ht; cbn [ring_thread fst snd]; try done.
    apply (idle_inv _ _ _ (NClaim i)); by rewrite ?Ht.
  - destruct (announcing (pcs c t)) as [q|] eqn:Hq; [by eapply notify_inv|].
    destruct (pcs c t) eqn:Ht; try done; [|by eapply claim_inv].
    unfold exec1. cbn [fst snd]. by rewrite Ht.
  - unfold exec1. cbn [fst snd]. assert (ring_thread (shared c) (pcs c t) LStep = (Listen_step (shared c), pcs c t)) as -> by (by destruct (pcs c t)).
    cbn [fst snd]. apply listen_inv; [done|apply Listen_step_ind|apply Listen_step_ind|by eapply listener_step].
Qed.

Lemma ring_inv_init : ring_inv 0 ring_init.
Proof.
  split; cbn [ring_init shared pcs ring_new ind claimed Indicator_new infos seqs next_seq]; try done.
  - intros u. split; try done. intros q i [[=]|[=]].
  - intros q [[? ?] _]. cbn in *. lia.
  - intros k Hk. apply lookup_replicate_2. unfold kBufLength in *. lia.
Qed.

(** Every state of the run of [sched] is within one turn of the ring. *)
Definition keeps_pace (sched : list (nat * nevent)) : Prop :=
  forall s1 s2, sched = s1 ++ s2 -> unlapped (exec ring_thread ring_init s1).

Lemma ring_inv_exec sched :
  keeps_pace sched -> Z.of_nat (length sched) < two64 -> ring_inv (length sched) (exec ring_thread ring_init sched).
Proof.
  induction sched as [|ev sched IH] using rev_ind; [intros; apply ring_inv_init|].
  rewrite length_app, exec_app. cbn [length]. intros Hp Hl. apply ring_inv_exec1; [| | |lia].
  - apply IH; [|lia]. intros s1 s2 ->. apply (Hp s1 (s2 ++ [ev])). by rewrite app_assoc.
  - by apply (Hp sched [ev]).
  - specialize (Hp (sched ++ [ev]) [] (eq_sym (app_nil_r _))). by rewrite exec_app in Hp.
Qed.

(** A run of at most 4096 steps cannot turn the ring. *)
Record slow (n : nat) (c : @conf ring npc) : Prop := {
  sl_next : 0 <= next_seq (ind (shared c)) <= Z.of_nat n;
  sl_seqs : Forall (fun a => 0 <= a) (seqs (ind (shared c)));
  sl_cursor : 0 <= next_seq_ (shared c);
  sl_threads : forall u q, announcing (pcs c u) = Some q -> 0 <= q
}.

Lemma slow_step n r p e :
  slow n (Conf r (fun _ => p)) -> Z.of_nat n + 1 < two64 ->
  slow (n + 1) (Conf (ring_thread r p e).1 (fun _ => (ring_thread r p e).2)).
Proof.
  intros [H1 H2 H3 H4] Hn. cbn [shared pcs] in *. specialize (H4 0%nat).
  assert (Hl : slow (n + 1) (Conf (Listen_step r) (fun _ => p))).
  { destruct (Listen_step_ind r) as [Hi _]. split; cbn [shared pcs]; rewrite ?Hi; auto; [lia|].
    unfold Listen_step. repeat case_match; cbn; try done; try lia. apply u64_range. }
  destruct p as [|i|q i|q i|q]; destruct e; cbn [ring_thread Notify_step fst snd]; try done;
    split; cbn; rewrite ?u64_small by lia; try done; try lia; try (by intros ? ? [= <-]; auto; lia).
  apply Forall_insert; auto.
Qed.

Lemma slow_exec sched :
  (length sched <= Z.to_nat kBufLength)%nat -> slow (length sched) (exec ring_thread ring_init sched).
Proof.
  apply (exec_invariant ring_thread slow).
  - intros n c [t e] Hn [H1 H2 H3 H4]. assert (Z.of_nat n + 1 < two64) by (unfold kBufLength in Hn; word_lia).
    pose proof (slow_step n (shared c) (pcs c t) e) as [S1 S2 S3 S4]; [by split; auto; intros u; apply H4|done|].
    split; [done..|]. intros u q. cbn. thread_cases u t; [by apply (S4 0%nat)|apply H4].
  - split; cbn [ring_init shared pcs ring_new ind Indicator_new seqs next_seq next_seq_]; try done. by apply Forall_replicate.
Qed.

Lemma short_keeps_pace sched : (length sched <= Z.to_nat kBufLength)%nat -> keeps_pace sched.
Proof.
  intros Hl s1 s2 ->. rewrite length_app in Hl. destruct (slow_exec s1) as [H1 H2 H3 H4]; [lia|].
  unfold kBufLength in *. split; [unfold kBufLength; lia|]. intros u q Hq%H4. unfold kBufLength. lia.
Qed.

(** C7: in every interleaving of any number of notifiers with a listener in which none falls more
    than one turn of the ring behind, a listener that joined after the first announcement has
    received exactly the announcements numbered from its start, each once, in the order of the
    sequence numbers and unaltered, although the entries are stored without a lock. *)
Theorem notifier_in_order sched :
  Z.of_nat (length sched) < two64 -> keeps_pace sched ->
  let r := shared (exec ring_thread ring_init sched) in
  at_ r <> LNew -> 1 <= from r ->
  got r = Some <$> take (Z.to_nat (next_seq_ r - from r)) (drop (Z.to_nat (from r)) (claimed r)) /\
  from r <= next_seq_ r <= Z.of_nat (length (claimed r)).
Proof.
  intros Hl Hp r Ha Hf. destruct (ring_inv_exec sched Hp Hl). fold r in ri_next0, ri_listener0.
  destruct (lo_range _ ri_listener0 Ha). split; [by apply lo_got|lia].
Qed.

(** ** Whole calls

    [Notify] and [Listen] run without interference, as the other components call them. *)
Definition idle : nat -> npc := fun _ => NIdle.
Definition notify_sched (i : I) : list (nat * nevent) :=
  [(0%nat, StartNotify i); (0%nat, NStep); (0%nat, NStep); (0%nat, NStep); (0%nat, NStep)].

Definition Notify_call (r : ring) (i : I) : bool * ring := (true, shared (exec ring_thread (Conf r idle) (notify_sched i))).

(** One turn of the loop of [Listen]; [None] when nothing is announced. *)
Definition Listen_call (r : ring) : option I * ring :=
  let r := Listen_step r in
  if at_ r is LCheck then
    let r := Listen_step r in
    if at_ r is LCopy _ then let r := Listen_step r in (last (got r) ≫= id, r) else (None, r)
  else (None, r).

Definition ring_joined : ring := Listen_step ring_new.

Definition ring_ok (r : ring) : Prop := ring_inv (length (claimed r)) (Conf r idle) /\ at_ r = LLoop /\ Z.of_nat (length (claimed r)) < two64.
Definition ring_pending (r : ring) : list I := drop (Z.to_nat (next_seq_ r)) (claimed r).
Definition ring_room (r : ring) : Prop := Z.of_nat (length (ring_pending r)) < kBufLength /\ Z.of_nat (length (claimed r)) + 6 < two64.

Lemma ring_inv_ext n c c' :
  ring_inv n c -> shared c = shared c' -> (forall u, pcs c u = pcs c' u) -> ring_inv (length (claimed (shared c'))) c'.
Proof.
  intros [] Hs Hp. split; rewrite <- ?Hs; try done.
  - intros u. rewrite <- Hp. done.
  - intros u v q. rewrite <- !Hp. apply ri_distinct0.
  - intros q Hq. destruct (ri_window0 q Hq) as [?|[u Hu]]; [by left|right]. exists u. by rewrite <- Hp.
Qed.

(** A ring that nobody is announcing in: every announcement of the window is complete. *)
Lemma ring_ok_facts r : ring_ok r ->
  next_seq (ind r) = Z.of_nat (length (claimed r)) /\ 0 <= next_seq_ r <= next_seq (ind r) /\
  forall q, in_window r q -> complete r q.
Proof.
  intros [Hinv [Ha _]]. destruct Hinv. cbn [shared pcs] in *. split; [done|].
  destruct (lo_range _ ri_listener0); [by rewrite Ha|]. split; [lia|]. intros q Hq. destruct (ri_window0 q Hq) as [?|[u Hu]]; done.
Qed.

Lemma ring_joined_ok : ring_ok ring_joined /\ ring_pending ring_joined = [].
Proof.
  split; [|done]. split; [|done]. assert (Hk : keeps_pace [(0%nat, LStep)]) by (apply short_keeps_pace; vm_compute; lia).
  assert (H1 : ring_inv 1 (exec1 ring_thread ring_init (0%nat, LStep))).
  { apply (ring_inv_exec1 0 ring_init (0%nat, LStep)); [apply ring_inv_init|by apply (Hk [] [(0%nat, LStep)])|by apply (Hk [(0%nat, LStep)] [])|word_lia]. }
  apply (ring_inv_ext 1 _ (Conf ring_joined idle) H1); [done|]. intros u. cbn [pcs exec1 fst]. thread_cases u 0%nat; done.
Qed.

(** A single notifier in a ring with room never laps. *)
Lemma unlapped_solo r g :
  next_seq (ind r) <= next_seq_ r + kBufLength -> (forall u q, announcing (g u) = Some q -> u = 0%nat) ->
  (forall q, announcing (g 0%nat) = Some q -> next_seq (ind r) <= q + kBufLength) -> unlapped (Conf r g).
Proof. intros H1 H2 H3. split; [done|]. cbn. intros u q Hq. pose proof (H2 u q Hq). subst. by apply H3. Qed.

Lemma ring_notify r i : ring_ok r -> ring_room r ->
  let '(b, r') := Notify_call r i in
  b = true /\ ring_ok r' /\ ring_pending r' = ring_pending r ++ [i] /\ claimed r' = claimed r ++ [i].
Proof.
  intros Hok [Hr1 Hr2]. destruct (ring_ok_facts r Hok) as (Hn & Hc & _). destruct Hok as (Hinv & Ha & Hb).
  assert (Hp : next_seq (ind r) + 1 <= next_seq_ r + kBufLength).
  { unfold ring_pending in Hr1. rewrite length_drop in Hr1. lia. }
  assert (Hrun : forall k, (k <= 5)%nat -> unlapped (exec ring_thread (Conf r idle) (take k (notify_sched i)))).
  { intros k Hk. do 6 (destruct k as [|k]; [apply unlapped_solo; cbn -[u64 kBufLength]; repeat (rewrite fn_lookup_insert; cbn -[u64 kBufLength]); rewrite ?u64_small by lia;
      [lia|intros u q; unfold idle; by repeat (thread_cases u 0%nat; try done)
      |intros q; rewrite ?fn_lookup_insert; cbn; try done; intros [= <-]; unfold kBufLength; lia]|]). lia. }
  assert (Hall : forall k, (k <= 5)%nat -> ring_inv (length (claimed r) + k) (exec ring_thread (Conf r idle) (take k (notify_sched i)))).
  { induction k as [|k IH]; intros Hk; [by rewrite Nat.add_0_r|].
    destruct (lookup_lt_is_Some_2 (notify_sched i) k) as [ev Hev]; [cbn; lia|].
    rewrite (take_succ_lookup _ _ ev) by done. rewrite exec_app. cbn [exec foldl]. rewrite <- Nat.add_1_r, Nat.add_assoc.
    apply ring_inv_exec1; [apply IH; lia|apply Hrun; lia| |lia]. specialize (Hrun (S k) Hk).
    by rewrite (take_succ_lookup _ _ ev), exec_app in Hrun by done. }
  specialize (Hall 5%nat ltac:(lia)). unfold Notify_call. split; [done|]. set (c := exec ring_thread (Conf r idle) (notify_sched i)).
  change (exec ring_thread (Conf r idle) (take 5 (notify_sched i))) with c in Hall.
  assert (Hcl : claimed (shared c) = claimed r ++ [i]) by done. split; [|split; [|done]].
  - split; [|split; [exact Ha|rewrite Hcl, length_app; cbn; lia]]. apply (ring_inv_ext _ c (Conf (shared c) idle) Hall); [done|].
    intros u. unfold idle. cbn. by repeat (thread_cases u 0%nat; try done).
  - unfold ring_pending. rewrite Hcl. change (next_seq_ (shared c)) with (next_seq_ r). rewrite drop_app_le by lia. done.
Qed.

Lemma ring_listen r : ring_ok r -> ring_room r \/ Z.of_nat (length (ring_pending r)) <= kBufLength ->
  let '(x, r') := Listen_call r in
  ring_ok r' /\ x = head (ring_pending r) /\ ring_pending r' = tail (ring_pending r) /\ claimed r' = claimed r.
Proof.
  intros Hok Hroom. destruct (ring_ok_facts r Hok) as (Hn & Hc & Hw). destruct Hok as (Hinv & Ha & Hb).
  assert (Hp : next_seq (ind r) <= next_seq_ r + kBufLength).
  { unfold ring_room, ring_pending in Hroom. rewrite length_drop in Hroom. unfold kBufLength in *. lia. }
  assert (E1 : Listen_step r = if next_seq (ind r) =? next_seq_ r then r
    else mkRing (ind r) (next_seq_ r) LCheck (claimed r) (from r) (got r)) by (unfold Listen_step; by rewrite Ha).
  unfold Listen_call. cbv zeta. rewrite E1. clear E1. destruct (Z.eqb_spec (next_seq (ind r)) (next_seq_ r)) as [He|Hne].
  { rewrite Ha. split; [exact (conj Hinv (conj Ha Hb))|]. unfold ring_pending. rewrite drop_ge by lia. done. }
  cbn [at_]. destruct (Hw (next_seq_ r)) as [Hs (i & Hi & Hcl)]; [split; lia|].
  assert (E2 : Listen_step (mkRing (ind r) (next_seq_ r) LCheck (claimed r) (from r) (got r)) =
    mkRing (ind r) (next_seq_ r) (LCopy (slot (next_seq_ r))) (claimed r) (from r) (got r)).
  { unfold Listen_step. cbn [at_ ind next_seq_ claimed from got]. rewrite Hs. cbn [default from_option id]. by rewrite Z.leb_refl. }
  rewrite E2. clear E2. cbn [at_]. unfold Listen_step. cbn [at_ ind next_seq_ claimed from got]. rewrite Hi. cbn [mbind option_bind id].
  rewrite last_snoc. cbn [mbind option_bind id]. pose proof (lookup_lt_Some _ _ _ Hcl) as Hlt. rewrite u64_small by lia.
  assert (Hdrop : drop (Z.to_nat (next_seq_ r)) (claimed r) = i :: drop (Z.to_nat (next_seq_ r + 1)) (claimed r)).
  { replace (Z.to_nat (next_seq_ r + 1)) with (S (Z.to_nat (next_seq_ r))) by lia. by apply drop_S. }
  unfold ring_pending. rewrite Hdrop. cbn [next_seq_ claimed head tail]. split; [|done]. split; [|done]. cbn [claimed].
  destruct Hinv. split; cbn [shared pcs ind claimed] in *; try done.
  { intros u. destruct (ri_threads0 u). by split. }
  destruct ri_listener0 as [L1 L2 L3 L4 L5]. split; cbn; try congruence; rewrite Ha in *; specialize (L1 ltac:(done)); [lia|].
  intros _ Hf. rewrite L4 by done.
  replace (Z.to_nat (next_seq_ r + 1 - from r)) with (S (Z.to_nat (next_seq_ r - from r))) by lia.
  rewrite (take_succ_lookup _ _ i); [by rewrite fmap_app|]. rewrite lookup_drop, <- Hcl. f_equal. lia.
Qed.
End ConditionNotifier.

(** Notifier 1 announces 7; the listener joins; notifiers 2 and 3 take the numbers 1 and 2 and 3 is
    the first to finish; the listener waits for number 1 and then receives both in order. *)
Definition two_notifiers : list (nat * nevent) :=
  [(1%nat, StartNotify 7); (1%nat, NStep); (1%nat, NStep); (1%nat, NStep); (1%nat, NStep); (0%nat, LStep);
   (2%nat, StartNotify 8); (3%nat, StartNotify 9); (2%nat, NStep); (3%nat, NStep); (3%nat, NStep); (3%nat, NStep); (3%nat, NStep);
   (0%nat, LStep); (0%nat, LStep); (2%nat, NStep); (0%nat, LStep); (0%nat, LStep); (2%nat, NStep); (2%nat, NStep);
   (0%nat, LStep); (0%nat, LStep); (0%nat, LStep); (0%nat, LStep); (0%nat, LStep); (0%nat, LStep)].

Lemma notifier_in_order_witness :
  let r := shared (exec ring_thread (ring_init 0) two_notifiers) in
  from r = 1 /\ next_seq_ r = 3 /\ got r = Some <$> take 2 (drop 1 [7; 8; 9]) /\ from r <= next_seq_ r <= 3.
Proof.
  intros r. assert (Hf : from r = 1) by (vm_compute; reflexivity). assert (Hn : next_seq_ r = 3) by (vm_compute; reflexivity).
  assert (Hc : claimed r = [7; 8; 9]) by (vm_compute; reflexivity). assert (Ha : at_ r = LLoop) by (vm_compute; reflexivity).
  pose proof (notifier_in_order 0 two_notifiers) as H. cbv zeta in H. fold r in H. rewrite Hf, Hn, Hc, Ha in H.
  split; [done|]. split; [done|]. rewrite Hf, Hn. apply H; [reflexivity| |discriminate|lia].
  apply short_keeps_pace. vm_compute. lia.
Defined.

(** A listener that starts before the first announcement takes the entry 0 as soon as its number is
    taken: the numbers of the ring are zero from the start, so the check cannot see that the entry is
    still being stored. *)
Theorem first_entry_unwritten :
  let r := shared (exec ring_thread (ring_init 0)
    [(0%nat, LStep); (1%nat, StartNotify 7); (1%nat, NStep); (0%nat, LStep); (0%nat, LStep); (0%nat, LStep)]) in
  claimed r = [7] /\ got r = [Some 0] /\ next_seq_ r = 1.
Proof. vm_compute. auto. Qed.
