(* ===== verification/ShmTransport.v ===== *)
(** * Messages over shared memory: transport/transmitter/shm_transmitter.h, transport/dispatcher/shm_dispatcher.cc

    A transmitter writes a message and its info into a block of the channel's segment and announces
    the block; the dispatcher of the receiving process listens for announcements, reads the block and
    calls the listeners of the channel.  The notifier is an interface; the condition notifier
    implements it.  Calls run one after another here; what interleaving does to the blocks and to the
    ring is in ShmBlocks and ConditionNotifier. *)

From Stdlib Require Import ZArith Lia Strings.Byte.
From stdpp Require Import base gmap sets numbers list.
From S2P Require Import Prelude Signal Bytes MessageHeader MessageInfo ShmSegment ConditionNotifier ListenerHandler.

(** ** Notifiers *)
Class Notifier (N : Type) := {
  Notify : N -> ReadableInfo -> bool * N;
  Listen : N -> option ReadableInfo * N
}.

(** A notifier delivers announcements in order as long as no more than [nt_capacity] are outstanding;
    [nt_budget n k] says that its counters allow [k] more. *)
Class LawfulNotifier (N : Type) `{!Notifier N} := {
  nt_ok : N -> Prop;
  nt_pending : N -> list ReadableInfo;
  nt_capacity : nat;
  nt_budget : N -> nat -> Prop;
  nt_capacity_pos : (0 < nt_capacity)%nat;
  nt_notify n i k : nt_ok n -> nt_budget n (S k) -> (length (nt_pending n) < nt_capacity)%nat ->
    (Notify n i).1 = true /\ nt_ok (Notify n i).2 /\ nt_pending (Notify n i).2 = nt_pending n ++ [i] /\ nt_budget (Notify n i).2 k;
  nt_listen n k : nt_ok n -> nt_budget n k -> (length (nt_pending n) <= nt_capacity)%nat ->
    nt_ok (Listen n).2 /\ (Listen n).1 = head (nt_pending n) /\ nt_pending (Listen n).2 = tail (nt_pending n) /\ nt_budget (Listen n).2 k
}.

#[export] Instance ring_notifier : Notifier (@ring ReadableInfo) := {|
  Notify := Notify_call; Listen := Listen_call |}.

#[refine, export] Instance ring_lawful : LawfulNotifier (@ring ReadableInfo) := {|
  nt_ok := ring_ok; nt_pending := ring_pending; nt_capacity := Z.to_nat kBufLength;
  nt_budget r k := Z.of_nat (length (claimed r)) + Z.of_nat k + 6 < two64 |}.
Proof.
  - unfold kBufLength. lia.
  - intros n i k Hok Hb Hl. pose proof (ring_notify n i Hok) as H. cbn [Notify ring_notifier].
    destruct (Notify_call n i) as [b n']. destruct H as (? & ? & ? & Hc); [split; [unfold kBufLength in *|]; lia|].
    cbn [fst snd]. rewrite Hc, length_app. cbn [length]. do 3 (split; [done|]). lia.
  - intros n k Hok Hb Hl. pose proof (ring_listen n Hok) as H. cbn [Listen ring_notifier]. destruct (Listen_call n) as [b n'].
    destruct H as (? & ? & ? & Hc); [right; unfold kBufLength in *; lia|]. cbn [fst snd]. by rewrite Hc.
Defined.

(** Operations that may leave the mapped memory, in sequence. *)
Definition rbind {W A B} (m : result A * W) (k : A -> W -> result B * W) : result B * W :=
  match m with
  | (Ok a, w) => k a w
  | (Refused, w) => (Refused, w)
  | (Fault, w) => (Fault, w)
  | (Spins, w) => (Spins, w)
  end.
Notation "'let!' ( x , w ) := m 'in' k" := (rbind m (fun x w => k)) (at level 10, x pattern, w name, k at level 200, right associativity) : cyber_scope.

Section ShmTransport.
Context {T N : Type} `{!Message T, !Notifier N} (Hash : bytes -> Z) (T_new : T).

Record world := mkWorld { os : OS; notifier : N }.

(** ** The transmitter *)
Record ShmTransmitter := mkTransmitter { enabled_ : bool; segment_ : option Segment; tx_channel_id_ : Z; tx_host_id_ : Z }.

Definition Transmitter_new (channel_id host_id : Z) : ShmTransmitter := mkTransmitter false None channel_id host_id.

Definition Enable (t : ShmTransmitter) : ShmTransmitter :=
  if enabled_ t then t else mkTransmitter true (Some (Segment_new (tx_channel_id_ t))) (tx_channel_id_ t) (tx_host_id_ t).
Definition Disable (t : ShmTransmitter) : ShmTransmitter :=
  if enabled_ t then mkTransmitter false None (tx_channel_id_ t) (tx_host_id_ t) else t.

(** The buffer of block [i]. *)
Definition buffer (w : OS) (s : Segment) (i : nat) : option bytes :=
  o ← block_buf_addrs_ s !! i; x ← objects w !! o;
  Some (default (replicate (Z.to_nat (block_buf_size_ (conf_of x))) Byte.x00) (sh_bufs x !! i)).
Definition put_buffer (w : OS) (s : Segment) (i : nat) (b : bytes) : OS :=
  if block_buf_addrs_ s !! i is Some o then with_object w o (with_buf i b) else w.

(** What [Transmit] does with the block it acquired: the message, its size, the info after it and the
    info's size.  Writing past the buffer is a fault. *)
Definition write_block (w : OS) (s : Segment) (i : nat) (msg : T) (msg_info : MessageInfo) : result bool * OS :=
  let msg_size := u64 (ByteSize msg) in
  match buffer w s i with
  | None => (Fault, w)
  | Some buf =>
      if Z.of_nat (length buf) <? i32 msg_size then (Fault, w)
      else
        match SerializeToArray msg buf (i32 msg_size) with
        | None => (Ok false, w)
        | Some buf =>
            let w := put_buffer w s i buf in
            let! (_, w) := on_block w s i (fun b => mkBlk (lock_num_ b) msg_size (msg_info_size_ b)) in
            if Z.of_nat (length buf) <? msg_size + Z.of_nat MessageInfo_kSize then (Fault, w)
            else
              match Info_SerializeTo_buffer msg_info (Some (drop (Z.to_nat msg_size) buf)) (Z.of_nat MessageInfo_kSize) with
              | None => (Ok false, w)
              | Some info =>
                  let w := put_buffer w s i (take (Z.to_nat msg_size) buf ++ info) in
                  let! (_, w) := on_block w s i (fun b => mkBlk (lock_num_ b) (msg_size_ b) (Z.of_nat MessageInfo_kSize)) in
                  (Ok true, w)
              end
        end
  end.

Definition Transmit (f : faults) (w : world) (t : ShmTransmitter) (msg : T) (msg_info : MessageInfo) : result bool * world * ShmTransmitter :=
  if negb (enabled_ t) then (Ok false, w, t)
  else
    match segment_ t with
    | None => (Fault, w, t)
    | Some s =>
        let '(r, o, s) := AcquireBlockToWrite f (os w) s (u64 (ByteSize msg)) in
        let t := mkTransmitter true (Some s) (tx_channel_id_ t) (tx_host_id_ t) in
        match r with
        | Ok i =>
            let written :=
              let! (written, o) := write_block o s i msg msg_info in
              let! (_, o) := ReleaseWrittenBlock o s i in
              (Ok written, o) in
            match written with
            | (Ok true, o) =>
                let '(b, n) := Notify (notifier w) (mkReadable (tx_host_id_ t) (Z.of_nat i) (tx_channel_id_ t)) in
                (Ok b, mkWorld o n, t)
            | (r, o) => (r, mkWorld o (notifier w), t)
            end
        | Refused => (Ok false, mkWorld o (notifier w), t)
        | Fault => (Fault, mkWorld o (notifier w), t)
        | Spins => (Spins, mkWorld o (notifier w), t)
        end
    end.

(** ** The dispatcher *)

(** A readable block: its buffer and the size of its message. *)
Definition ReadableBlock : Type := bytes * Z.

Record ShmDispatcher := mkShmDispatcher {
  base : Dispatcher (M := ReadableBlock);
  disp_host_id_ : Z;
  segments_ : gmap Z Segment;
  previous_indexes_ : gmap Z Z
}.

Definition UINT32_MAX : Z := two32 - 1.

Definition ShmDispatcher_new (host_id : Z) : ShmDispatcher := mkShmDispatcher Dispatcher_new host_id ∅ ∅.

Definition AddSegment (d : ShmDispatcher) (channel_id : Z) : ShmDispatcher :=
  if segments_ d !! channel_id is Some _ then d
  else mkShmDispatcher (base d) (disp_host_id_ d) (<[channel_id := Segment_new channel_id]> (segments_ d))
         (<[channel_id := UINT32_MAX]> (previous_indexes_ d)).

Definition AddListener (d : ShmDispatcher) (channel_id self_id : Z) (oppo_id : option Z) (listener : nat) : ShmDispatcher :=
  AddSegment (mkShmDispatcher (ListenerHandler.AddListener (base d) 0 channel_id self_id oppo_id listener)
                (disp_host_id_ d) (segments_ d) (previous_indexes_ d)) channel_id.

Definition Shutdown (d : ShmDispatcher) : ShmDispatcher :=
  if is_shutdown_ (base d) then d
  else mkShmDispatcher (ListenerHandler.Shutdown (base d)) (disp_host_id_ d) ∅ (previous_indexes_ d).

Definition adapter (rb : ReadableBlock) (msg_info : MessageInfo) (listener : nat) : option (delivery T) :=
  (fun m => mkDelivery listener m msg_info) <$> ParseFromArray rb.1 (i32 rb.2) T_new.

(** The deserialization in [ReadMessage]: [Fault] when it reads past the buffer. *)
Definition read_info (buf : bytes) (b : Block) : result (option MessageInfo) :=
  if negb (msg_info_size_ b =? Z.of_nat MessageInfo_kSize) then Ok None
  else if Z.of_nat (length buf) <? msg_size_ b + msg_info_size_ b then Fault
  else Ok (Info_DeserializeFrom Hash (MessageInfo_default Hash) (read_at buf (Z.to_nat (msg_size_ b)) MessageInfo_kSize)).

Definition block_at (w : OS) (s : Segment) (i : nat) : option Block := o ← blocks_ s; x ← objects w !! o; sh_blocks x !! i.

Definition with_base (d : ShmDispatcher) (b : Dispatcher) : ShmDispatcher :=
  mkShmDispatcher b (disp_host_id_ d) (segments_ d) (previous_indexes_ d).

Definition ReadMessage (f : faults) (w : OS) (d : ShmDispatcher) (channel_id : Z) (block_index : nat)
  : result (list (delivery T)) * OS * ShmDispatcher :=
  let release w s out d :=
    match ReleaseReadBlock w s block_index with (Ok _, w) => (Ok out, w, d) | (_, w) => (Fault, w, d) end in
  match segments_ d !! channel_id with
  | None => (Fault, w, d)
  | Some s =>
      let '(r, w, s) := AcquireBlockToRead f w s block_index in
      let d := mkShmDispatcher (base d) (disp_host_id_ d) (<[channel_id := s]> (segments_ d)) (previous_indexes_ d) in
      match r with
      | Ok tt =>
          match block_at w s block_index, buffer w s block_index with
          | Some b, Some buf =>
              match read_info buf b with
              | Ok (Some msg_info) =>
                  let rb := (buf, msg_size_ b) in
                  let '(called, base) := OnMessage (base d) channel_id rb msg_info in
                  release w s (omap (adapter rb msg_info) called) (with_base d base)
              | Ok None => release w s [] d
              | _ => (Fault, w, d)
              end
          | _, _ => (Fault, w, d)
          end
      | Refused => (Ok [], w, d)
      | Fault => (Fault, w, d)
      | Spins => (Spins, w, d)
      end
  end.

(** One turn of [ThreadFunc]: what the listeners received. *)
Definition ThreadFunc_turn (f : faults) (w : world) (d : ShmDispatcher) : result (list (delivery T)) * world * ShmDispatcher :=
  if is_shutdown_ (base d) then (Ok [], w, d)
  else
    let '(heard, n) := Listen (notifier w) in
    match heard with
    | None => (Ok [], mkWorld (os w) n, d)
    | Some readable_info =>
        if negb (host_id_ readable_info =? disp_host_id_ d) then (Ok [], mkWorld (os w) n, d)
        else
          let channel_id := readable_channel_id_ readable_info in
          let block_index := block_index_ readable_info in
          match segments_ d !! channel_id with
          | None => (Ok [], mkWorld (os w) n, d)
          | Some _ =>
              let d := mkShmDispatcher (base d) (disp_host_id_ d) (segments_ d) (<[channel_id := block_index]> (previous_indexes_ d)) in
              let '(r, o, d) := ReadMessage f (os w) d channel_id (Z.to_nat block_index) in
              (r, mkWorld o n, d)
          end
    end.
End ShmTransport.

(** ** A channel between one transmitter and one dispatcher *)

(** The object of a channel, with every block free. *)
Record current (w : OS) (ch : Z) (o : nat) (x : Shm) : Prop := {
  cu_name : names w !! ch = Some o;
  cu_object : objects w !! o = Some x;
  cu_size : sh_size x <> 0;
  cu_fresh : need_remap_ (sh_state x) = false;
  cu_free : Forall (fun b => lock_num_ b = 0) (sh_blocks x);
  cu_bufs : forall i b, sh_bufs x !! i = Some b -> Z.of_nat (length b) = block_buf_size_ (conf_of x)
}.

(** The segment of the reader: not opened, attached to the object, or to be remapped from an object
    with at least as many blocks. *)
Definition reader_at (w : OS) (s : Segment) (o : nat) (x : Shm) : Prop :=
  init_ s = true -> exists o' x', attached w s o' x' /\
    (o' = o \/ (need_remap_ (sh_state x') = true /\ block_num_ (conf_of x) <= block_num_ (conf_of x'))).

Record segs_ok (w : OS) (ch : Z) (s : Segment) : Prop := {
  sg_os : os_ok w;
  sg_channel : ShmSegment.channel_id_ s = ch;
  sg_ok : seg_ok w s
}.

Definition channel_ok (w : OS) (ch : Z) (ws rs : Segment) : Prop :=
  segs_ok w ch ws /\ segs_ok w ch rs /\
  ((init_ ws = false /\ init_ rs = false /\ names w !! ch = None) \/
   (init_ ws = true /\ exists o x, attached w ws o x /\ current w ch o x /\ reader_at w rs o x)).

Lemma attached_shape w w' s o x x' :
  attached w s o x -> objects w' !! o = Some x' -> same_shape x x' -> attached w' s o x'.
Proof.
  intros [] Ho (H1 & H2 & H3). split; try done.
  - by rewrite H1.
  - unfold conf_of in *. by rewrite H2.
Qed.

Lemma same_shape_refl x : same_shape x x.
Proof. by repeat split. Qed.

Lemma same_shape_conf x x' : same_shape x x' -> conf_of x' = conf_of x.
Proof. intros (_ & H & _). unfold conf_of. by rewrite H. Qed.

(** A segment created for a channel without one. *)
Lemma OpenOrCreate_create w s real :
  os_ok w -> init_ s = false -> names w !! ShmSegment.channel_id_ s = None -> conf_ s = Update real ->
  exists w' s' x, OpenOrCreate no_faults w s = (true, w', s') /\ objects w' = objects w ++ [x] /\ conf_of x = Update real /\
    ShmSegment.channel_id_ s' = ShmSegment.channel_id_ s /\ init_ s' = true /\
    attached w' s' (length (objects w)) x /\ current w' (ShmSegment.channel_id_ s) (length (objects w)) x.
Proof.
  intros Hok Hi Hn Hc. assert (Hs : seg_ok w s) by (split; [by exists real|by rewrite Hi]).
  pose proof (OpenOrCreate_good no_faults w s Hok Hs) as Hg. unfold OpenOrCreate in *. rewrite Hi, Hn in *. cbn [f_open f_truncate f_map no_faults] in *.
  set (x := mkShm _ _ _ _) in *. destruct Hg as [(Hok' & [_ Hs'] & _) _]. specialize (Hs' eq_refl).
  set (w' := mkOS _ _) in *. set (s' := attach _ _ _) in *. exists w', s', x. split; [done|]. split; [done|].
  split; [unfold conf_of; cbn; rewrite Hc; apply Update_ceiling|]. split; [done|]. split; [done|].
  assert (Hx : objects w' !! length (objects w) = Some x) by (cbn; apply lookup_snoc_len).
  destruct Hs' as (o & y & Hat). assert (o = length (objects w)) as -> by (destruct Hat; cbn in *; congruence).
  assert (y = x) as -> by (destruct Hat; congruence). split; [done|]. split; try done.
  - cbn. apply lookup_insert_eq.
  - apply Hat.
  - by apply Forall_replicate.
Qed.

Lemma block_num_mono a b : a ∈ ceilings -> b ∈ ceilings -> a <= b -> GetBlockNum b <= GetBlockNum a.
Proof.
  unfold ceilings. rewrite !elem_of_cons, !elem_of_nil. unfold_sizes.
  intros [->|[->|[->|[->|[->|[->|[]]]]]]] [->|[->|[->|[->|[->|[->|[]]]]]]] Hle; try lia; by vm_compute.
Qed.

Lemma conf_of_num x : block_num_ (conf_of x) = GetBlockNum (ceiling_msg_size_ (conf_of x)) /\ ceiling_msg_size_ (conf_of x) ∈ ceilings.
Proof. unfold conf_of, Update. cbn. split; [done|apply ceiling_cases]. Qed.

(** Recreating the segment of a channel for a larger message. *)
Lemma Recreate_larger w ch ws rs o x size :
  segs_ok w ch ws -> attached w ws o x -> current w ch o x -> reader_at w rs o x ->
  ceiling_msg_size_ (conf_ ws) < size <= MESSAGE_SIZE_MORE ->
  exists w' ws' o' x', Recreate no_faults w ws size = Some (true, w', ws') /\ segs_ok w' ch ws' /\ attached w' ws' o' x' /\
    current w' ch o' x' /\ reader_at w' rs o' x' /\ conf_ ws' = Update size /\ evolves w w' /\ init_ ws' = true.
Proof.
  intros [Hok Hch Hseg] Hat Hcu Hrd Hsz. destruct (Recreate no_faults w ws size) as [[[ok w'] ws']|] eqn:Hre.
  2:{ unfold Recreate in Hre. cbn in Hre. by rewrite (at_state _ _ _ _ Hat) in Hre. }
  destruct (Recreate_good _ _ _ _ _ _ _ Hok Hseg Hre) as [(Hok' & Hs' & Hev) Hi'].
  unfold Recreate in Hre. cbn [set_init state_] in Hre. rewrite (at_state _ _ _ _ Hat) in Hre. cbn [mbind option_bind] in Hre. injection Hre as Hre.
  set (w1 := with_object w o _) in Hre. set (s1 := Reset (set_init ws false)) in Hre.
  assert (Hn1 : names w1 !! ShmSegment.channel_id_ s1 = Some o) by (cbn; rewrite Hch; apply Hcu).
  unfold Remove in Hre. rewrite Hn1 in Hre. cbn [snd] in Hre. set (w2 := mkOS _ _) in Hre.
  destruct (with_object_ok w o (with_state (fun st => set_need_remap st true)) Hok) as [Hok1 _]; [by intros; apply same_shape_state|]. fold w1 in Hok1.
  assert (Hok2 : os_ok w2).
  { pose proof (Remove_ok w1 s1 Hok1) as [H _]. unfold Remove in H. by rewrite Hn1 in H. }
  destruct (OpenOrCreate_create w2 (set_conf s1 (Update size)) size Hok2 eq_refl) as (w3 & s3 & y & E3 & Ho3 & Hcy & Hc3 & Hi3 & Hat3 & Hcu3).
  { cbn. rewrite Hch. apply lookup_delete_eq. } { done. }
  rewrite E3 in Hre. simplify_eq. destruct (Hi' eq_refl) as [_ Hconf]. cbn [set_conf set_init Reset ShmSegment.channel_id_ s1] in *.
  exists w', ws', (length (objects w2)), y. split; [done|]. split; [split; [done|congruence|done]|]. split; [done|].
  split; [exact Hcu3|]. split; [|done]. intros Hir. destruct (Hrd Hir) as (o' & x' & Har & Hst).
  assert (Hlt : (o' < length (objects w2))%nat) by (cbn; rewrite length_alter; by eapply lookup_lt_Some, Har).
  assert (Hnum : block_num_ (Update size) <= block_num_ (conf_of x)).
  { rewrite (at_conf _ _ _ _ Hat) in Hsz. destruct (conf_of_num x) as [-> Hce]. change (block_num_ (Update size)) with (GetBlockNum (ceiling_msg_size_ (Update size))).
    apply block_num_mono; [done|apply ceiling_cases|]. pose proof (ceiling_enough size). lia. }
  destruct (decide (o' = o)) as [->|Hne].
  - pose proof (at_object _ _ _ _ Har) as Hx'. rewrite (at_object _ _ _ _ Hat) in Hx'. simplify_eq.
    exists o, (with_state (fun st => set_need_remap st true) x'). split; [eapply attached_shape; [exact Har| |by apply same_shape_state]|].
    + rewrite Ho3, lookup_app_l by done. cbn. rewrite list_lookup_alter_eq. by rewrite (at_object _ _ _ _ Hat).
    + right. split; [done|]. rewrite Hcy. exact Hnum.
  - destruct Hst as [?|[Hnr Hb]]; [done|]. exists o', x'. split; [eapply attached_shape; [exact Har| |apply same_shape_refl]|].
    + rewrite Ho3, lookup_app_l by done. cbn. rewrite list_lookup_alter_ne by done. apply Har.
    + right. split; [done|]. rewrite Hcy. lia.
Qed.

Lemma state_of_attached w s o x : attached w s o x -> state_of w s = Some (sh_state x).
Proof. intros Hat. unfold state_of. rewrite (at_state _ _ _ _ Hat). cbn. by rewrite (at_object _ _ _ _ Hat). Qed.

(** Before it takes a block, [AcquireBlockToWrite] has the current segment with room for the message. *)
Lemma acquire_prepared w ch ws rs size :
  channel_ok w ch ws rs -> 0 < size <= MESSAGE_SIZE_MORE ->
  exists w1 s1 o x, AcquireBlockToWrite no_faults w ws size = take_block w1 s1 /\ segs_ok w1 ch s1 /\ attached w1 s1 o x /\
    current w1 ch o x /\ reader_at w1 rs o x /\ init_ s1 = true /\ size <= ceiling_msg_size_ (conf_ s1) /\ evolves w w1.
Proof.
  intros (Hws & Hrs & Hst) Hsz.
  assert (Hopen : exists w0 s0 o x, OpenOrCreate no_faults w ws = (true, w0, s0) /\ segs_ok w0 ch s0 /\ attached w0 s0 o x /\
    current w0 ch o x /\ reader_at w0 rs o x /\ init_ s0 = true /\ evolves w w0).
  { destruct Hst as [(Hi & Hir & Hn)|(Hi & o & x & Hat & Hcu & Hrd)].
    - destruct Hws as [Hok Hch Hseg]. destruct (Hseg) as [[real Hr] _].
      destruct (OpenOrCreate_create w ws real Hok Hi) as (w0 & s0 & x & E & Ho & _ & Hc & Hin & Hat & Hcu); [by rewrite Hch|done|].
      pose proof (OpenOrCreate_good no_faults w ws Hok Hseg) as Hg. rewrite E in Hg. destruct Hg as [(Hok0 & Hs0 & Hev) _].
      exists w0, s0, (length (objects w)), x. split; [done|]. split; [split; [done|congruence|done]|]. split; [done|]. rewrite Hch in Hcu.
      split; [done|]. split; [|done]. intros Hx. congruence.
    - exists w, ws, o, x. unfold OpenOrCreate. rewrite Hi. by repeat (split; [done|]). }
  clear Hst. destruct Hopen as (w0 & s0 & o & x & E & Hs0 & Hat & Hcu & Hrd & Hin & Hev). unfold AcquireBlockToWrite. rewrite E. cbn [negb].
  rewrite (state_of_attached _ _ _ _ Hat). rewrite (cu_fresh _ _ _ _ Hcu). destruct (Z.ltb_spec (ceiling_msg_size_ (conf_ s0)) size).
  - destruct (Recreate_larger w0 ch s0 rs o x size) as (w1 & s1 & o1 & x1 & E1 & Hs1 & Hat1 & Hcu1 & Hrd1 & Hcf & Hev1 & Hin1); try done.
    { lia. }
    exists w1, s1, o1, x1. rewrite E1. cbn [negb]. do 6 (split; [done|]). split; [|by etrans].
    rewrite Hcf. apply ceiling_enough. lia.
  - exists w0, s0, o, x. cbn [negb]. by repeat (split; [done|]).
Qed.

(** ** One block on its way *)

(** Block [i] of the channel's object is held with lock [k]; the others are free. *)
Record held (w : OS) (ch : Z) (o : nat) (x : Shm) (i : nat) (b : Block) : Prop := {
  he_name : names w !! ch = Some o;
  he_object : objects w !! o = Some x;
  he_size : sh_size x <> 0;
  he_fresh : need_remap_ (sh_state x) = false;
  he_block : sh_blocks x !! i = Some b;
  he_free : forall j c, j <> i -> sh_blocks x !! j = Some c -> lock_num_ c = 0;
  he_bufs : forall j c, sh_bufs x !! j = Some c -> Z.of_nat (length c) = block_buf_size_ (conf_of x)
}.

(** Objects other than [o] are as they were, and [o] keeps its shape. *)
Definition touches (o : nat) (w w' : OS) : Prop :=
  (forall p, p <> o -> objects w' !! p = objects w !! p) /\
  (forall x, objects w !! o = Some x -> exists x', objects w' !! o = Some x' /\ same_shape x x' /\ need_remap_ (sh_state x') = need_remap_ (sh_state x)) /\
  names w' = names w /\ length (objects w') = length (objects w).

#[export] Instance touches_preorder o : PreOrder (touches o).
Proof.
  split.
  - intros w. split; [done|]. split; [|done]. intros x Hx. exists x. split; [done|]. split; [apply same_shape_refl|done].
  - intros w1 w2 w3 (A1 & A2 & A3 & A4) (B1 & B2 & B3 & B4). split; [intros p Hp; rewrite B1, A1; done|]. split; [|split; congruence].
    intros x Hx. destruct (A2 x Hx) as (x2 & Hx2 & (S1 & S2 & S3) & R2). destruct (B2 x2 Hx2) as (x3 & Hx3 & (T1 & T2 & T3) & R3).
    exists x3. split; [done|]. split; [|congruence]. split; [congruence|]. split; congruence.
Qed.

Lemma touches_with_object w o f :
  (forall x, objects w !! o = Some x -> same_shape x (f x) /\ need_remap_ (sh_state (f x)) = need_remap_ (sh_state x)) ->
  touches o w (with_object w o f).
Proof.
  intros Hf. split; [intros p Hp; cbn; by rewrite list_lookup_alter_ne|]. split; [|split; [done|apply length_alter]].
  intros x Hx. exists (f x). cbn. rewrite list_lookup_alter_eq, Hx. destruct (Hf x Hx) as [? ?]. done.
Qed.

Lemma touches_ok o w w' : touches o w w' -> os_ok w -> os_ok w' /\ evolves w w'.
Proof.
  intros (H1 & H2 & H3 & H4) Hok.
  assert (Hev : evolves w w').
  { intros p x Hx. destruct (decide (p = o)) as [->|Hne]; [destruct (H2 x Hx) as (x' & ? & ? & _); by exists x'|].
    exists x. rewrite H1 by done. split; [done|apply same_shape_refl]. }
  split; [|done]. destruct Hok as [Ho Hn]. split.
  - intros p x Hx. destruct (decide (p = o)) as [->|Hne]; [|rewrite H1 in Hx by done; by eapply Ho].
    destruct (objects w !! o) as [y|] eqn:Hy.
    + destruct (H2 y eq_refl) as (x' & Hx' & Hs & _). simplify_eq. eapply same_shape_ok; [done|by eapply Ho].
    + apply lookup_ge_None in Hy. apply lookup_lt_Some in Hx. lia.
  - intros n p Hp. rewrite H3 in Hp. destruct (Hn n p Hp) as [x Hx]. destruct (Hev p x Hx) as (x' & Hx' & _). by rewrite Hx'.
Qed.

Lemma touches_attached o w w' s p x :
  touches o w w' -> attached w s p x -> exists x', attached w' s p x' /\ same_shape x x' /\ need_remap_ (sh_state x') = need_remap_ (sh_state x).
Proof.
  intros (H1 & H2 & _) Hat. pose proof (at_object _ _ _ _ Hat) as Hx. destruct (decide (p = o)) as [->|Hne].
  - destruct (H2 x Hx) as (x' & Hx' & Hs & Hr). exists x'. split; [by eapply attached_shape|done].
  - exists x. split; [|split; [apply same_shape_refl|done]]. eapply attached_shape; [done| |apply same_shape_refl]. by rewrite H1.
Qed.

Lemma touches_reader o w w' s x x' :
  touches o w w' -> same_shape x x' -> reader_at w s o x -> reader_at w' s o x'.
Proof.
  intros Ht Hsh Hrd Hi. destruct (Hrd Hi) as (p & y & Hat & Hst). destruct (touches_attached _ _ _ _ _ _ Ht Hat) as (y' & Hat' & Hs' & Hr').
  exists p, y'. split; [done|]. destruct Hst as [->|[Hn Hb]]; [by left|right].
  rewrite Hr', (same_shape_conf _ _ Hsh), (same_shape_conf _ _ Hs'). done.
Qed.

Lemma touches_segs o w w' ch s : touches o w w' -> segs_ok w ch s -> segs_ok w' ch s.
Proof.
  intros Ht [Hok Hch Hs]. destruct (touches_ok _ _ _ Ht Hok) as [Hok' Hev]. split; [done|done|by eapply seg_ok_evolves].
Qed.

Lemma take_current w ch s o x :
  segs_ok w ch s -> attached w s o x -> current w ch o x ->
  exists i w' x' b, take_block w s = (Ok i, w', s) /\ touches o w w' /\ attached w' s o x' /\ held w' ch o x' i b /\
    lock_num_ b = -1 /\ same_shape x x'.
Proof.
  intros [Hok Hch Hs] Hat Hcu. destruct (attached_conf w s o x Hok Hat) as (Hp & Hl & Hlen & Hpos).
  pose proof (GetNext_spec (Z.to_nat (block_num_ (conf_ s))) (block_num_ (conf_ s)) x Hp Hl Hlen) as Hg.
  unfold take_block. rewrite (at_state _ _ _ _ Hat), (at_object _ _ _ _ Hat). destruct (GetNextWritableBlockIndex _ _ x) as [[i x']|].
  - destruct Hg as (b & Hb & H0 & Q1 & Q2 & Q3 & Q4 & _). exists i, (with_object w o (fun _ => x')), x', (with_lock b (-1)).
    assert (Ht : touches o w (with_object w o (fun _ => x'))).
    { apply touches_with_object. intros y Hy. rewrite (at_object _ _ _ _ Hat) in Hy. by simplify_eq. }
    assert (Hx' : objects (with_object w o (fun _ => x')) !! o = Some x').
    { cbn. by rewrite list_lookup_alter_eq, (at_object _ _ _ _ Hat). }
    split; [done|]. split; [done|]. split; [by eapply attached_shape|]. split; [|done]. destruct Hcu. split; try done.
    + by rewrite (proj1 Q3).
    + congruence.
    + rewrite Q1. apply list_lookup_insert_eq. by eapply lookup_lt_Some.
    + intros j c Hj. rewrite Q1, list_lookup_insert_ne by done. intros Hc. by apply (Forall_lookup_1 _ _ _ _ cu_free0 Hc).
    + intros j c. rewrite Q2, (same_shape_conf _ _ Q3). apply cu_bufs0.
  - exfalso. destruct (attempt_covers (sh_state x) (block_num_ (conf_ s)) 0 Hpos ltac:(lia)) as (k & Hk & Ha).
    destruct (lookup_lt_is_Some_2 (sh_blocks x) 0) as [b Hb]; [lia|]. apply (Hg k b); [lia|by rewrite Ha|].
    apply (Forall_lookup_1 _ _ _ _ (cu_free _ _ _ _ Hcu) Hb).
Qed.

(** Writing to the held block. *)
Lemma held_update w ch s o x i b f :
  attached w s o x -> held w ch o x i b ->
  exists w' x', on_block w s i f = (Ok tt, w') /\ touches o w w' /\ attached w' s o x' /\ held w' ch o x' i (f b) /\
    same_shape x x' /\ sh_bufs x' = sh_bufs x.
Proof.
  intros Hat Hh. unfold on_block. rewrite (at_blocks _ _ _ _ Hat), (at_object _ _ _ _ Hat).
  rewrite decide_True by (eapply lookup_lt_Some, Hh). exists (with_object w o (with_block i f)), (with_block i f x).
  assert (Hx' : objects (with_object w o (with_block i f)) !! o = Some (with_block i f x)).
  { cbn. by rewrite list_lookup_alter_eq, (at_object _ _ _ _ Hat). }
  split; [done|]. split; [apply touches_with_object; intros y _; split; [apply same_shape_block|done]|].
  split; [eapply attached_shape; [done|done|apply same_shape_block]|]. split; [|split; [apply same_shape_block|done]].
  destruct Hh. split; try done.
  - cbn. by rewrite list_lookup_alter_eq, he_block0.
  - intros j c Hj. cbn. rewrite list_lookup_alter_ne by done. by apply he_free0.
Qed.

Lemma held_put w ch s o x i b buf :
  attached w s o x -> held w ch o x i b -> Z.of_nat i < block_num_ (conf_ s) -> Z.of_nat (length buf) = block_buf_size_ (conf_of x) ->
  exists x', touches o w (put_buffer w s i buf) /\ attached (put_buffer w s i buf) s o x' /\
    held (put_buffer w s i buf) ch o x' i b /\ same_shape x x' /\ sh_bufs x' !! i = Some buf.
Proof.
  intros Hat Hh Hi Hl. unfold put_buffer. rewrite (at_bufs _ _ _ _ Hat i Hi). exists (with_buf i buf x).
  assert (Hx' : objects (with_object w o (with_buf i buf)) !! o = Some (with_buf i buf x)).
  { cbn. by rewrite list_lookup_alter_eq, (at_object _ _ _ _ Hat). }
  assert (Hs : same_shape x (with_buf i buf x)) by (by repeat split).
  split; [apply touches_with_object; intros y _; split; [by repeat split|done]|]. split; [by eapply attached_shape|].
  split; [|split; [done|apply lookup_insert_eq]]. destruct Hh. split; try done.
  intros j c. rewrite (same_shape_conf _ _ Hs). cbn [with_buf sh_bufs]. destruct (decide (j = i)) as [->|Hne]; [rewrite lookup_insert_eq; congruence|].
  rewrite lookup_insert_ne by done. apply he_bufs0.
Qed.

Lemma held_buffer w ch s o x i b :
  attached w s o x -> held w ch o x i b -> Z.of_nat i < block_num_ (conf_ s) ->
  exists buf, buffer w s i = Some buf /\ Z.of_nat (length buf) = block_buf_size_ (conf_of x) /\ (forall c, sh_bufs x !! i = Some c -> buf = c).
Proof.
  intros Hat Hh Hi. unfold buffer. rewrite (at_bufs _ _ _ _ Hat i Hi). cbn [mbind option_bind]. rewrite (at_object _ _ _ _ Hat). cbn [mbind option_bind].
  destruct (sh_bufs x !! i) as [c|] eqn:Hc; cbn [default from_option id]; eexists; (split; [done|]).
  - split; [by eapply he_bufs|]. congruence.
  - split; [|done]. rewrite length_replicate. destruct (Update_cases (state_ceiling_ (sh_state x))) as (k & _ & _ & _ & Hb & _ & Hc0).
    unfold conf_of. lia.
Qed.

Lemma held_current w ch o x i b : held w ch o x i b -> lock_num_ b = 0 -> current w ch o x.
Proof.
  intros [] Hb. split; try done. apply Forall_lookup_2. intros j c Hj. destruct (decide (j = i)) as [->|]; [congruence|by eapply he_free0].
Qed.

Section Delivery.
Context {T N : Type} `{!Message T, !LawfulMessage T, !Notifier N, !LawfulNotifier N} (Hash : bytes -> Z) (T_new : T).

(** The messages a channel carries. *)
Definition sendable (m : T) (i : MessageInfo) : Prop := sized m /\ 0 < ByteSize m <= MESSAGE_SIZE_MORE /\ info_valid i.

(** Block [b] and buffer [buf] hold the message and its info. *)
Definition carries (b : Block) (buf : bytes) (m : T) (i : MessageInfo) : Prop :=
  msg_size_ b = ByteSize m /\ msg_info_size_ b = Z.of_nat MessageInfo_kSize /\
  exists rest, buf = content m ++ Info_SerializeTo i ++ rest.

Lemma buf_fits w s o x m : attached w s o x -> ByteSize m <= ceiling_msg_size_ (conf_ s) -> ByteSize m + 1024 <= block_buf_size_ (conf_of x).
Proof.
  intros Hat. rewrite (at_conf _ _ _ _ Hat). destruct (Update_cases (state_ceiling_ (sh_state x))) as (k & _ & _ & _ & Hb & _ & _).
  unfold conf_of. lia.
Qed.

Lemma Info_length inf : info_valid inf -> length (Info_SerializeTo inf) = MessageInfo_kSize.
Proof. exact (@wf_encode_size _ (MessageInfo_wire Hash) inf). Qed.

Lemma write_block_held w ch s o x i b m inf :
  attached w s o x -> held w ch o x i b -> Z.of_nat i < block_num_ (conf_ s) -> sendable m inf -> ByteSize m <= ceiling_msg_size_ (conf_ s) ->
  exists w' x' b' buf, write_block w s i m inf = (Ok true, w') /\ touches o w w' /\ attached w' s o x' /\ held w' ch o x' i b' /\
    same_shape x x' /\ lock_num_ b' = lock_num_ b /\ sh_bufs x' !! i = Some buf /\ carries b' buf m inf.
Proof.
  intros Hat Hh Hi (Hsz & Hpos & Hinf) Hce. pose proof (buf_fits w s o x m Hat Hce) as Hfit. unfold MESSAGE_SIZE_MORE in Hpos.
  destruct (held_buffer w ch s o x i b Hat Hh Hi) as (buf0 & Hb0 & Hl0 & _). unfold write_block. cbv zeta.
  rewrite u64_small, i32_small by word_lia. rewrite Hb0. destruct (Z.ltb_spec (Z.of_nat (length buf0)) (ByteSize m)) as [?|_]; [lia|].
  pose proof Hsz as Hsz'. unfold sized in Hsz'. rewrite serialize_fits, memcpy_0 by (done || lia).
  set (buf1 := content m ++ drop (length (content m)) buf0). assert (Hl1 : length buf1 = length buf0) by (unfold buf1; rewrite length_app, length_drop; lia).
  destruct (held_put w ch s o x i b buf1 Hat Hh Hi ltac:(lia)) as (x1 & T1 & A1 & H1 & S1 & _). set (w1 := put_buffer w s i buf1) in *.
  destruct (held_update w1 ch s o x1 i b (fun b => mkBlk (lock_num_ b) (ByteSize m) (msg_info_size_ b)) A1 H1) as (w2 & x2 & E2 & T2 & A2 & H2 & S2 & _).
  rewrite E2. cbn [rbind]. unfold MessageInfo_kSize, ID_SIZE in *. destruct (Z.ltb_spec (Z.of_nat (length buf1)) (ByteSize m + Z.of_nat (2 * 8 + 8))) as [?|_]; [lia|].
  assert (Hd : drop (Z.to_nat (ByteSize m)) buf1 = drop (length (content m)) buf0).
  { unfold buf1. rewrite drop_app_length'; [done|lia]. }
  rewrite Hd. rewrite Info_buffer_eq by (try done; unfold MessageInfo_kSize, ID_SIZE; rewrite length_drop; lia).
  set (buf2 := take (Z.to_nat (ByteSize m)) buf1 ++ _).
  assert (Hbuf2 : buf2 = content m ++ Info_SerializeTo inf ++ drop MessageInfo_kSize (drop (length (content m)) buf0)).
  { unfold buf2, buf1. rewrite take_app_length' by lia. done. }
  assert (Hl2 : length buf2 = length buf0).
  { rewrite Hbuf2, !length_app, !length_drop, Info_length by done. unfold MessageInfo_kSize, ID_SIZE. lia. }
  assert (Hi2 : Z.of_nat i < block_num_ (conf_ s)) by done.
  destruct (held_put w2 ch s o x2 i _ buf2 A2 H2 Hi2) as (x3 & T3 & A3 & H3 & S3 & B3).
  { rewrite (same_shape_conf _ _ S2), (same_shape_conf _ _ S1). lia. }
  set (w3 := put_buffer w2 s i buf2) in *.
  destruct (held_update w3 ch s o x3 i _ (fun b => mkBlk (lock_num_ b) (msg_size_ b) (Z.of_nat MessageInfo_kSize)) A3 H3) as (w4 & x4 & E4 & T4 & A4 & H4 & S4 & B4).
  change (Z.of_nat (2 * 8 + 8)) with (Z.of_nat MessageInfo_kSize). rewrite E4. cbn [rbind]. exists w4, x4. eexists. exists buf2. split; [done|]. split; [by repeat (etrans; [eassumption|])|].
  split; [done|]. split; [exact H4|]. split; [|split; [done|]; split; [congruence|]; split; [done|]; split; [done|]; by eexists].
  destruct S1 as (? & ? & ?), S2 as (? & ? & ?), S3 as (? & ? & ?), S4 as (? & ? & ?). repeat split; congruence.
Qed.

(** The channel with a message in block [i] that is not read yet. *)
Definition ready (w : OS) (ch : Z) (ws rs : Segment) (i : nat) (m : T) (inf : MessageInfo) : Prop :=
  segs_ok w ch ws /\ segs_ok w ch rs /\ init_ ws = true /\
  exists o x b buf, attached w ws o x /\ held w ch o x i b /\ lock_num_ b = 0 /\ sh_bufs x !! i = Some buf /\ carries b buf m inf /\
    reader_at w rs o x /\ Z.of_nat i < block_num_ (conf_of x) /\ ByteSize m + 1024 <= block_buf_size_ (conf_of x).

Lemma Transmit_ok w ch ws rs host m inf k :
  channel_ok (os w) ch ws rs -> sendable m inf -> nt_ok (notifier w) -> nt_budget (notifier w) (S k) -> nt_pending (notifier w) = [] ->
  exists w' ws' i, Transmit no_faults w (mkTransmitter true (Some ws) ch host) m inf = (Ok true, w', mkTransmitter true (Some ws') ch host) /\
    ready (os w') ch ws' rs i m inf /\ nt_ok (notifier w') /\
    nt_pending (notifier w') = [mkReadable host (Z.of_nat i) ch] /\ nt_budget (notifier w') k.
Proof.
  intros Hch Hs Hn Hr Hpe. pose proof Hs as (_ & Hpos & _). unfold MESSAGE_SIZE_MORE in Hpos. unfold Transmit. cbn [enabled_ negb segment_ tx_channel_id_ tx_host_id_].
  rewrite u64_small by word_lia. destruct (acquire_prepared (os w) ch ws rs (ByteSize m) Hch) as (w1 & s1 & o & x & E1 & G1 & A1 & C1 & R1 & Hin & Hce & Hev); [done|].
  destruct (take_current w1 ch s1 o x G1 A1 C1) as (i & w2 & x2 & b & E2 & T2 & A2 & H2 & Hlk & S2). rewrite E1, E2. clear E1 E2.
  pose proof (touches_segs _ _ _ _ _ T2 G1) as G2. destruct (attached_conf w2 s1 o x2 (sg_os _ _ _ G2) A2) as (_ & _ & Hlen & _).
  assert (Hi : Z.of_nat i < block_num_ (conf_ s1)) by (rewrite <- Hlen; apply Nat2Z.inj_lt; eapply lookup_lt_Some, H2).
  destruct (write_block_held w2 ch s1 o x2 i b m inf A2 H2 Hi Hs Hce) as (w3 & x3 & b3 & buf & E3 & T3 & A3 & H3 & S3 & Hl3 & B3 & Hc3).
  destruct (held_update w3 ch s1 o x3 i b3 ReleaseWriteLock A3 H3) as (w4 & x4 & E4 & T4 & A4 & H4 & S4 & B4).
  rewrite E3. cbn [rbind]. unfold ReleaseWrittenBlock. destruct (Z.leb_spec (block_num_ (conf_ s1)) (Z.of_nat i)) as [?|_]; [lia|].
  rewrite E4. cbn [rbind]. destruct (nt_notify (notifier w) (mkReadable host (Z.of_nat i) ch) k Hn Hr) as (N1 & N2 & N3 & N4); [rewrite Hpe; apply nt_capacity_pos|]. rewrite Hpe in N3.
  destruct (Notify (notifier w) _) as [nb n']. cbn [fst snd] in *. subst nb. exists (mkWorld w4 n'), s1, i. split; [done|]. split; [|done].
  assert (T34 : touches o w1 w4) by (by repeat (etrans; [eassumption|])). pose proof (touches_segs _ _ _ _ _ T34 G1) as G4.
  split; [done|]. split.
  { destruct Hch as (_ & [_ Hc2 Hs2] & _). split; [apply G4|done|]. eapply seg_ok_evolves; [|exact Hs2].
    etrans; [exact Hev|]. eapply touches_ok; [exact T34|apply G1]. }
  split; [done|]. exists o, x4, (ReleaseWriteLock b3), buf. split; [done|]. split; [done|].
  split; [cbn; by rewrite Hl3, Hlk|]. split; [congruence|]. split; [done|].
  split; [|split].
  - eapply touches_reader; [exact T34| |exact R1]. destruct S2 as (? & ? & ?), S3 as (? & ? & ?), S4 as (? & ? & ?). repeat split; congruence.
  - by rewrite <- (at_conf _ _ _ _ A4).
  - by apply (buf_fits w4 s1 o x4 m A4).
Qed.

(** ** Reading it *)
Lemma held_state w ch o x i b f :
  held w ch o x i b -> (forall st, state_ceiling_ (f st) = state_ceiling_ st /\ need_remap_ (f st) = need_remap_ st) ->
  touches o w (with_object w o (with_state f)) /\ held (with_object w o (with_state f)) ch o (with_state f x) i b /\ same_shape x (with_state f x).
Proof.
  intros Hh Hf. split; [apply touches_with_object; intros y _; split; [apply same_shape_state, Hf|apply Hf]|].
  assert (Hs : same_shape x (with_state f x)) by (apply same_shape_state, Hf). split; [|done]. destruct Hh. split; try done.
  - cbn. by rewrite list_lookup_alter_eq, he_object0.
  - cbn. rewrite (proj2 (Hf _)). done.
  - by rewrite (same_shape_conf _ _ Hs).
Qed.

Lemma OpenOnly_held w ch s o x i b :
  segs_ok w ch s -> held w ch o x i b -> init_ s = false ->
  exists w' s' x', OpenOnly no_faults w s = (true, w', s') /\ touches o w w' /\ attached w' s' o x' /\ held w' ch o x' i b /\
    same_shape x x' /\ sh_bufs x' = sh_bufs x /\ ShmSegment.channel_id_ s' = ch /\ init_ s' = true.
Proof.
  intros [Hok Hch Hs] Hh Hi. unfold OpenOnly. rewrite Hi, Hch, (he_name _ _ _ _ _ _ Hh), (he_object _ _ _ _ _ _ Hh). cbn [f_open f_stat f_map no_faults orb].
  destruct (Z.eqb_spec (sh_size x) 0) as [Hz|_]; [by apply (he_size _ _ _ _ _ _ Hh) in Hz|].
  destruct (held_state w ch o x i b IncreaseReferenceCounts Hh) as (T1 & H1 & S1); [done|].
  eexists _, _, (with_state IncreaseReferenceCounts x). split; [done|]. split; [done|]. split; [|done].
  pose proof (touches_ok _ _ _ T1 Hok) as [Hok' _].
  destruct (attach_ok _ s o _ Hok' (he_object _ _ _ _ _ _ H1) (he_size _ _ _ _ _ _ H1)) as [_ Ha]. destruct (Ha eq_refl) as (p & y & Hat).
  rewrite (same_shape_conf _ _ S1) in Hat. pose proof (at_state _ _ _ _ Hat) as Hp. cbn in Hp. simplify_eq.
  pose proof (at_object _ _ _ _ Hat) as Hy. rewrite (he_object _ _ _ _ _ _ H1) in Hy. by simplify_eq.
Qed.

(** The reader gets to the channel's object, opening or remapping its segment if it must. *)
Lemma AcquireBlockToRead_held w ch rs o x i b :
  segs_ok w ch rs -> held w ch o x i b -> lock_num_ b = 0 -> reader_at w rs o x -> Z.of_nat i < block_num_ (conf_of x) ->
  exists w' rs' x', AcquireBlockToRead no_faults w rs i = (Ok tt, w', rs') /\ touches o w w' /\ attached w' rs' o x' /\
    held w' ch o x' i (with_lock b 1) /\ same_shape x x' /\ sh_bufs x' = sh_bufs x /\ ShmSegment.channel_id_ rs' = ch /\ init_ rs' = true.
Proof.
  intros Hg Hh Hlk Hrd Hi. pose proof Hg as [Hok Hch Hs].
  assert (Hready : exists w1 s1 x1, touches o w w1 /\ attached w1 s1 o x1 /\ held w1 ch o x1 i b /\ same_shape x x1 /\ sh_bufs x1 = sh_bufs x /\
    ShmSegment.channel_id_ s1 = ch /\ init_ s1 = true /\
    AcquireBlockToRead no_faults w rs i =
      match lock_to_read w1 s1 i with (Ok true, w) => (Ok tt, w, s1) | (Ok false, w) => (Refused, w, s1) | (_, w) => (Fault, w, s1) end).
  { unfold AcquireBlockToRead. destruct (init_ rs) eqn:Hin.
    - assert (OpenOnly no_faults w rs = (true, w, rs)) as -> by (unfold OpenOnly; by rewrite Hin). cbn [negb].
      destruct (Hrd Hin) as (p & y & Hat & Hst). rewrite (at_conf _ _ _ _ Hat). pose proof (at_object _ _ _ _ Hat) as Hy.
      assert (Z.of_nat i < block_num_ (conf_of y)).
      { destruct Hst as [->|[_ ?]]; [|lia]. rewrite (he_object _ _ _ _ _ _ Hh) in Hy. by simplify_eq. }
      destruct (Z.leb_spec (block_num_ (conf_of y)) (Z.of_nat i)) as [?|_]; [lia|]. rewrite (state_of_attached _ _ _ _ Hat).
      destruct Hst as [->|[Hn _]].
      + rewrite (he_object _ _ _ _ _ _ Hh) in Hy. simplify_eq. rewrite (he_fresh _ _ _ _ _ _ Hh). cbn [negb].
        exists w, rs, y. split; [reflexivity|]. do 2 (split; [done|]). split; [apply same_shape_refl|done].
      + rewrite Hn. unfold Remap. set (s0 := Reset (set_init rs false)). assert (Hg0 : segs_ok w ch s0) by (split; [done|done|by apply detach_ok]).
        destruct (OpenOnly_held w ch s0 o x i b Hg0 Hh eq_refl) as (w1 & s1 & x1 & -> & T1 & A1 & H1 & S1 & B1 & C1 & I1). cbn [negb].
        exists w1, s1, x1. by repeat (split; [done|]).
    - destruct (OpenOnly_held w ch rs o x i b Hg Hh Hin) as (w1 & s1 & x1 & -> & T1 & A1 & H1 & S1 & B1 & C1 & I1). cbn [negb].
      rewrite (at_conf _ _ _ _ A1), (same_shape_conf _ _ S1). destruct (Z.leb_spec (block_num_ (conf_of x)) (Z.of_nat i)) as [?|_]; [lia|].
      rewrite (state_of_attached _ _ _ _ A1), (he_fresh _ _ _ _ _ _ H1). cbn [negb]. exists w1, s1, x1. by repeat (split; [done|]). }
  destruct Hready as (w1 & s1 & x1 & T1 & A1 & H1 & S1 & B1 & C1 & I1 & ->).
  destruct (held_update w1 ch s1 o x1 i b (fun b => (TryLockForRead b).2) A1 H1) as (w2 & x2 & E2 & T2 & A2 & H2 & S2 & B2).
  unfold lock_to_read. unfold on_block in E2. rewrite (at_blocks _ _ _ _ A1), (at_object _ _ _ _ A1) in *.
  rewrite decide_True in E2 by (eapply lookup_lt_Some, H1). injection E2 as E2. cbn [mbind option_bind]. rewrite (he_block _ _ _ _ _ _ H1).
  unfold TryLockForRead at 1. rewrite Hlk. cbn [fst Z.ltb Z.compare]. rewrite E2. exists w2, s1, x2. split; [done|]. split; [by etrans|]. split; [done|].
  unfold TryLockForRead in H2. rewrite Hlk in H2. split; [exact H2|]. split; [|split; [congruence|done]].
  destruct S1 as (? & ? & ?), S2 as (? & ? & ?). repeat split; congruence.
Qed.

(** A dispatcher whose listeners on channel [ch] are those of registry [r]. *)
Definition listens (d : ShmDispatcher) (ch : Z) (r : registry) : Prop := registered (base d) ch r.

Lemma listens_message d ch r rb inf :
  listens d ch r ->
  let '(called, b) := OnMessage (base d) ch rb inf in
  called = subscribers r (HashValue (sender_id_ inf)) /\ listens (with_base d b) ch r.
Proof. apply OnMessage_registered. Qed.

Lemma omap_adapter m' rb inf (l : list nat) :
  ParseFromArray rb.1 (i32 rb.2) T_new = Some m' -> omap (adapter T_new rb inf) l = (fun cb => mkDelivery cb m' inf) <$> l.
Proof. intros Hp. induction l as [|cb l IH]; [done|]. cbn. unfold adapter at 1. rewrite Hp. cbn. by rewrite IH. Qed.

Lemma read_info_carries buf b m inf :
  sendable m inf -> carries b buf m inf ->
  read_info Hash buf b = Ok (Some (received Hash (MessageInfo_default Hash) inf)) /\ (exists m', ParseFromArray buf (i32 (msg_size_ b)) T_new = Some m' /\ same_message m' m).
Proof.
  intros (Hsz & Hpos & Hinf) (H1 & H2 & rest & ->). pose proof (Info_length inf Hinf) as Hil. unfold sized in Hsz. unfold MESSAGE_SIZE_MORE in Hpos.
  unfold read_info. rewrite H1, H2, Z.eqb_refl. cbn [negb]. rewrite !length_app, Hil.
  destruct (Z.ltb_spec (Z.of_nat (length (content m) + (MessageInfo_kSize + length rest))) (ByteSize m + Z.of_nat MessageInfo_kSize)) as [?|_]; [lia|].
  assert (read_at (content m ++ Info_SerializeTo inf ++ rest) (Z.to_nat (ByteSize m)) MessageInfo_kSize = Info_SerializeTo inf) as ->.
  { unfold read_at. rewrite drop_app_length' by lia. by apply take_app_length'. }
  assert (Hv : info_valid (MessageInfo_default Hash)) by done.
  destruct (@wf_round_trip _ (MessageInfo_wire Hash) inf (MessageInfo_default Hash) Hinf Hv) as (z & Hz & _ & Hsame).
  cbn [wf_decode wf_encode MessageInfo_wire wf_same] in Hz, Hsame. rewrite Hz. split.
  { do 2 f_equal. rewrite Hsame. unfold received. f_equal. unfold Info_DeserializeFrom in Hz. by case_decide; [|injection Hz as <-]. }
  rewrite i32_small by word_lia. destruct (parse_content m T_new (Info_SerializeTo inf ++ rest) Hsz) as (m' & Hp & Hm); [lia|]. by exists m'.
Qed.

(** Reading the block delivers the message and leaves the channel as it was. *)
Lemma ReadMessage_ready w ch ws rs i m inf d r :
  ready w ch ws rs i m inf -> sendable m inf -> listens d ch r -> segments_ d !! ch = Some rs ->
  exists out w' d' rs', ReadMessage Hash T_new no_faults w d ch i = (Ok out, w', d') /\ delivered Hash r m inf out /\
    channel_ok w' ch ws rs' /\ listens d' ch r /\ segments_ d' !! ch = Some rs' /\ disp_host_id_ d' = disp_host_id_ d.
Proof.
  intros (Gw & Gr & Hin & o & x & b & buf & Aw & Hh & Hlk & Hbuf & Hca & Hrd & Hi & Hfit) Hs Hlis Hseg.
  destruct (AcquireBlockToRead_held w ch rs o x i b Gr Hh Hlk Hrd Hi) as (w1 & rs1 & x1 & E1 & T1 & A1 & H1 & S1 & B1 & C1 & I1).
  unfold ReadMessage. cbv zeta. rewrite Hseg, E1. set (d1 := mkShmDispatcher _ _ _ _).
  assert (block_at w1 rs1 i = Some (with_lock b 1)) as ->.
  { unfold block_at. rewrite (at_blocks _ _ _ _ A1). cbn [mbind option_bind]. rewrite (at_object _ _ _ _ A1). cbn [mbind option_bind]. apply H1. }
  assert (Hi1 : Z.of_nat i < block_num_ (conf_ rs1)) by (by rewrite (at_conf _ _ _ _ A1), (same_shape_conf _ _ S1)).
  destruct (held_buffer w1 ch rs1 o x1 i _ A1 H1 Hi1) as (buf1 & -> & _ & Hb1). rewrite <- B1 in Hbuf. rewrite (Hb1 buf Hbuf).
  destruct (read_info_carries buf (with_lock b 1) m inf Hs Hca) as (-> & m' & Hp & Hm). set (inf' := received _ _ _).
  pose proof (listens_message d1 ch r (buf, msg_size_ (with_lock b 1)) inf' Hlis) as Hon. destruct (OnMessage (base d1) ch _ inf') as [called base'].
  destruct Hon as [-> Hlis']. rewrite (omap_adapter m') by exact Hp.
  unfold ReleaseReadBlock. destruct (Z.leb_spec (block_num_ (conf_ rs1)) (Z.of_nat i)) as [?|_]; [lia|].
  destruct (held_update w1 ch rs1 o x1 i _ ReleaseReadLock A1 H1) as (w2 & x2 & -> & T2 & A2 & H2 & S2 & B2).
  eexists _, w2, (with_base d1 base'), rs1. split; [done|]. split.
  { by exists m'. }
  assert (T12 : touches o w w2) by (by etrans). split; [|split; [done|]; split; [cbn; apply lookup_insert_eq|done]].
  destruct (touches_attached _ _ _ _ _ _ T12 Aw) as (x3 & Aw2 & _). assert (x3 = x2) as ->.
  { pose proof (at_object _ _ _ _ Aw2) as E. rewrite (at_object _ _ _ _ A2) in E. by simplify_eq. }
  assert (Hg : segs_ok w2 ch rs1).
  { pose proof (AcquireBlockToRead_good no_faults w rs i (sg_os _ _ _ Gr) (sg_ok _ _ _ Gr)) as Hg. rewrite E1 in Hg. destruct Hg as (Hok1 & Hs1 & _).
    eapply touches_segs; [exact T2|]. by split. }
  split; [by eapply touches_segs|]. split; [done|]. right. split; [done|]. exists o, x2. split; [done|].
  split; [by eapply held_current|]. intros _. exists o, x2. by split; [|left].
Qed.

(** One message from the transmitter to the listeners. *)
Definition send (w : world (N := N)) (t : ShmTransmitter) (d : ShmDispatcher) (m : T) (inf : MessageInfo)
  : result bool * result (list (delivery T)) * world * ShmTransmitter * ShmDispatcher :=
  let '(sent, w, t) := Transmit no_faults w t m inf in
  let '(out, w, d) := ThreadFunc_turn Hash T_new no_faults w d in
  (sent, out, w, t, d).

(** What the listeners receive while the messages are sent one by one; [None] when a message was not
    sent or not read. *)
Fixpoint send_all (w : world (N := N)) (t : ShmTransmitter) (d : ShmDispatcher) (ms : list (T * MessageInfo)) : option (list (list (delivery T))) :=
  match ms with
  | [] => Some []
  | (m, inf) :: ms =>
      match send w t d m inf with
      | (Ok true, Ok out, w, t, d) => (out ::.) <$> send_all w t d ms
      | _ => None
      end
  end.

Lemma send_ok w ch ws rs host m inf k d r :
  channel_ok (os w) ch ws rs -> sendable m inf -> nt_ok (notifier w) -> nt_budget (notifier w) (S k) -> nt_pending (notifier w) = [] ->
  listens d ch r -> segments_ d !! ch = Some rs -> disp_host_id_ d = host ->
  exists out w' ws' rs' d', send w (mkTransmitter true (Some ws) ch host) d m inf = (Ok true, Ok out, w', mkTransmitter true (Some ws') ch host, d') /\
    delivered Hash r m inf out /\ channel_ok (os w') ch ws' rs' /\ nt_ok (notifier w') /\ nt_budget (notifier w') k /\ nt_pending (notifier w') = [] /\
    listens d' ch r /\ segments_ d' !! ch = Some rs' /\ disp_host_id_ d' = host.
Proof.
  intros Hch Hs Hn Hb Hp Hlis Hseg Hhost. unfold send.
  destruct (Transmit_ok w ch ws rs host m inf k Hch Hs Hn Hb Hp) as (w1 & ws1 & i & -> & Hr & N1 & N2 & N3).
  unfold ThreadFunc_turn. assert (is_shutdown_ (base d) = false) as ->.
  { destruct Hlis as (c & ty & [Hc _] & Hcl & _). congruence. }
  destruct (nt_listen (notifier w1) k N1 N3) as (L1 & L2 & L3 & L4); [rewrite N2; apply nt_capacity_pos|]. rewrite N2 in L2, L3. cbn [head tail] in L2, L3.
  destruct (Listen (notifier w1)) as [heard n']. cbn [fst snd] in *. subst heard. cbn [host_id_ readable_channel_id_ block_index_]. rewrite Hhost, Z.eqb_refl. cbn [negb].
  rewrite Hseg, Nat2Z.id. set (d1 := mkShmDispatcher _ _ _ _).
  destruct (ReadMessage_ready (os w1) ch ws1 rs i m inf d1 r Hr Hs Hlis Hseg) as (out & w2 & d2 & rs2 & -> & Hd & Hch2 & Hlis2 & Hseg2 & Hh2).
  exists out, (mkWorld w2 n'), ws1, rs2, d2. split; [done|]. repeat (split; [done|]). by rewrite Hh2.
Qed.

(** C4: a channel over shared memory delivers: an enabled transmitter and a dispatcher on the same
    host, with consistent segments of the channel ([channel_ok]: not opened yet, or attached to the current
    object with all its blocks free), over any notifier that keeps its contract and has room for them, carry any
    sequence of messages that are not empty and have up to 32 MiB, each read before the next is sent, while
    no call of the operating system fails: every message is sent, the segment being recreated and remapped
    as needed, and every listener of the channel, in the order of the registry, receives the
    message that was sent, once and in order, with its info: sender and spare id, the hashes computed
    anew, and sequence number; [channel_id_] is not transported and arrives as 0, so that the info is equal
    for the infos the transport makes ([received_plain]); no access leaves the shared memory. *)
Theorem shm_channel_delivers w ch ws rs host d r ms :
  channel_ok (os w) ch ws rs -> Forall (fun e => sendable e.1 e.2) ms ->
  nt_ok (notifier w) -> nt_budget (notifier w) (length ms) -> nt_pending (notifier w) = [] ->
  listens d ch r -> segments_ d !! ch = Some rs -> disp_host_id_ d = host ->
  exists outs, send_all w (mkTransmitter true (Some ws) ch host) d ms = Some outs /\
    Forall2 (fun e out => delivered Hash r e.1 e.2 out) ms outs.
Proof.
  intros Hch Hs. revert w ws rs d Hch. induction Hs as [|[m inf] ms Hm _ IH]; intros w ws rs d Hch Hn Hb Hp Hlis Hseg Hhost.
  { exists []. by split. }
  destruct (send_ok w ch ws rs host m inf (length ms) d r Hch Hm Hn Hb Hp Hlis Hseg Hhost)
    as (out & w' & ws' & rs' & d' & E & Hd & Hch' & Hn' & Hb' & Hp' & Hlis' & Hseg' & Hhost').
  cbn [send_all]. rewrite E. destruct (IH w' ws' rs' d' Hch' Hn' Hb' Hp' Hlis' Hseg' Hhost') as (outs & -> & Ho).
  exists (out :: outs). split; [done|]. by constructor.
Qed.
End Delivery.

(** ** From the start *)
Lemma channel_ok_new ch : channel_ok (mkOS ∅ []) ch (Segment_new ch) (Segment_new ch).
Proof.
  assert (Hs : segs_ok (mkOS ∅ []) ch (Segment_new ch)).
  { split; [|done|]; [by split|]. split; [by exists MESSAGE_SIZE_16K|done]. }
  split; [done|]. split; [done|]. by left.
Qed.

(** A dispatcher with a first listener on the channel. *)
Definition one_listener (host ch self : Z) (cb : nat) : ShmDispatcher := AddListener (ShmDispatcher_new host) ch self None cb.

Lemma one_listener_listens host ch self cb : listens (one_listener host ch self cb) ch ([(self, cb)], ∅).
Proof.
  assert (Hr : dispatcher_rel (M := ReadableBlock) Dispatcher_new channels_new).
  { split; [done|]. intros c. cbn. rewrite !lookup_empty. constructor. }
  destruct (dispatch_step_rel Dispatcher_new channels_new (DAdd 0 ch self None cb) Hr) as [_ H]; [cbn; set_solver|].
  cbn [dispatch_step snd] in H. eexists _, 0%nat. unfold one_listener, AddListener, AddSegment. cbn [ShmDispatcher_new segments_ base]. rewrite lookup_empty. cbn [base].
  split; [exact H|]. unfold channels_step. cbn [channels_new closed regs]. rewrite lookup_empty. cbn. split; [done|apply lookup_insert_eq].
Qed.

Definition demo_hash (b : bytes) : Z := le_value (take 8 b).
Definition demo_message (n : nat) : RawMessage := mkRaw (replicate n Byte.x41) 0.
Definition demo_msg_info (seq_num : Z) : MessageInfo := MessageInfo_new (Identity_new demo_hash true (replicate 8 Byte.x07)) seq_num (Identity_new demo_hash false []).

(** A message of 5 bytes, one of 20 000 bytes for which the segment is recreated, and one of 100 bytes. *)
Lemma shm_channel_delivers_witness :
  exists outs, send_all demo_hash (demo_message 0)
      (mkWorld (mkOS ∅ []) (ring_joined ReadableInfo_default)) (Enable (Transmitter_new 7 1)) (one_listener 1 7 50 3)
      [(demo_message 5, demo_msg_info 1); (demo_message (Z.to_nat 20000), demo_msg_info 2); (demo_message 100, demo_msg_info 3)] = Some outs /\
    Forall2 (fun e out => delivered demo_hash ([(50, 3%nat)], ∅) e.1 e.2 out)
      [(demo_message 5, demo_msg_info 1); (demo_message (Z.to_nat 20000), demo_msg_info 2); (demo_message 100, demo_msg_info 3)] outs.
Proof.
  assert (Hsend : forall n q, (0 < n)%nat -> Z.of_nat n <= MESSAGE_SIZE_MORE -> 0 <= q < two64 -> sendable (demo_message n) (demo_msg_info q)).
  { intros n q Hn Hl Hq. unfold sendable, sized. cbn [ByteSize RawMessage_message content]. unfold Raw_ByteSize, demo_message. cbn [message].
    rewrite length_replicate. unfold MESSAGE_SIZE_MORE in *. rewrite i32_small by word_lia. split; [done|]. split; [lia|]. exact (conj eq_refl (conj Hq eq_refl)). }
  apply (shm_channel_delivers demo_hash (demo_message 0) (mkWorld (mkOS ∅ []) (ring_joined ReadableInfo_default)) 7 (Segment_new 7) (Segment_new 7) 1).
  - apply channel_ok_new.
  - unfold MESSAGE_SIZE_MORE in *. do 3 (constructor; [apply Hsend; cbn [fst snd]; word_lia|]). constructor.
  - apply ring_joined_ok.
  - cbn. word_lia.
  - apply ring_joined_ok.
  - apply one_listener_listens.
  - cbn. apply lookup_insert_eq.
  - done.
Defined.
