(* ===== verification/Rtps.v ===== *)
(** * Transport over RTPS: transport/rtps/attributes_filler.cc, participant.cc, sub_listener.cc,
    transport/transmitter/rtps_transmitter.h, transport/dispatcher/rtps_dispatcher.h and .cc

    Messages to other hosts travel as strings in samples of Fast-RTPS; sender, spare id and sequence
    number ride in the sample identity.  The results of Fast-RTPS calls are arguments; a sample
    written to a topic reaches the subscribers of that topic as it was written.  [Hash] is
    [std::hash]; [HashName] is [common::Hash] of a topic name. *)

From Stdlib Require Import ZArith Lia Strings.Byte.
From stdpp Require Import base gmap sets strings numbers list.
From S2P Require Import Prelude Role Bytes MessageHeader MessageInfo ListenerHandler.

(** ** Attributes of publishers and subscribers *)
Inductive HistoryQosKind := KEEP_LAST_HISTORY_QOS | KEEP_ALL_HISTORY_QOS.
Inductive DurabilityQosKind := VOLATILE_DURABILITY_QOS | TRANSIENT_LOCAL_DURABILITY_QOS | TRANSIENT_DURABILITY_QOS | PERSISTENT_DURABILITY_QOS.
Inductive ReliabilityQosKind := BEST_EFFORT_RELIABILITY_QOS | RELIABLE_RELIABILITY_QOS.

(** The members of [PublisherAttributes] and [SubscriberAttributes] that are filled in. *)
Record EndpointAttributes := mkEndpoint {
  topicName : string; topicDataType : string; topic_key : bool;
  historyQos_kind : HistoryQosKind; historyQos_depth : Z;
  m_durability : DurabilityQosKind; m_reliability : ReliabilityQosKind;
  heartbeat_seconds : Z; heartbeat_fraction : Z;
  asynchronous : bool; dynamic_memory : bool; max_samples : Z
}.

(** Getters of the profile, with the defaults of the message. *)
Definition q_history (q : QosProfile) : QosHistoryPolicy := default HISTORY_KEEP_LAST (history q).
Definition q_durability (q : QosProfile) : QosDurabilityPolicy := default DURABILITY_VOLATILE (durability q).
Definition q_reliability (q : QosProfile) : QosReliabilityPolicy := default RELIABILITY_RELIABLE (reliability q).
Definition q_depth (q : QosProfile) : Z := default 1 (depth q).
Definition q_mps (q : QosProfile) : Z := default 0 (mps q).

Definition QOS_HISTORY_DEPTH_SYSTEM_DEFAULT : Z := 0.

(** The two functions agree up to the depth. *)
Definition fill_topic (channel_name : string) (qos : QosProfile) (a : EndpointAttributes) : EndpointAttributes :=
  mkEndpoint channel_name "UnderlayMessage" false
    (match q_history qos with HISTORY_KEEP_LAST => KEEP_LAST_HISTORY_QOS | HISTORY_KEEP_ALL => KEEP_ALL_HISTORY_QOS | _ => historyQos_kind a end)
    (if q_depth qos =? QOS_HISTORY_DEPTH_SYSTEM_DEFAULT then historyQos_depth a else i32 (q_depth qos))
    (match q_durability qos with DURABILITY_TRANSIENT_LOCAL => TRANSIENT_LOCAL_DURABILITY_QOS | DURABILITY_VOLATILE => VOLATILE_DURABILITY_QOS | _ => m_durability a end)
    (match q_reliability qos with RELIABILITY_BEST_EFFORT => BEST_EFFORT_RELIABILITY_QOS | RELIABILITY_RELIABLE => RELIABLE_RELIABILITY_QOS | _ => m_reliability a end)
    (heartbeat_seconds a) (heartbeat_fraction a) (asynchronous a) (dynamic_memory a) (max_samples a).

Definition with_heartbeat (a : EndpointAttributes) (s f : Z) : EndpointAttributes :=
  mkEndpoint (topicName a) (topicDataType a) (topic_key a) (historyQos_kind a) (historyQos_depth a) (m_durability a) (m_reliability a)
    s f (asynchronous a) (dynamic_memory a) (max_samples a).
Definition with_memory (a : EndpointAttributes) (async : bool) : EndpointAttributes :=
  mkEndpoint (topicName a) (topicDataType a) (topic_key a) (historyQos_kind a) (historyQos_depth a) (m_durability a) (m_reliability a)
    (heartbeat_seconds a) (heartbeat_fraction a) async true 10000.

(** The heartbeat period of a number of messages per second, in seconds and fractions of 2^-32. *)
Definition heartbeat (mps : Z) : Z * Z :=
  if mps =? 0 then (1, 0)
  else
    let mps := if 1024 <? mps then 1024 else if mps <? 64 then 64 else mps in
    let fractions := u64 (Z.shiftl 256 32) / mps in
    (i32 (Z.shiftr fractions 32), u32 (Z.land fractions (Z.ones 32))).

(** [FillInPubAttr]: the attributes afterwards, [None] for [false]; [pub_attr] is what it points to. *)
Definition FillInPubAttr (channel_name : string) (qos : QosProfile) (pub_attr : option EndpointAttributes) : option EndpointAttributes :=
  a ← pub_attr;
  let a := fill_topic channel_name qos a in
  if historyQos_depth a <? 0 then None
  else let '(s, f) := heartbeat (q_mps qos) in Some (with_memory (with_heartbeat a s f) true).

Definition FillInSubAttr (channel_name : string) (qos : QosProfile) (sub_attr : option EndpointAttributes) : option EndpointAttributes :=
  a ← sub_attr;
  let a := fill_topic channel_name qos a in
  if historyQos_depth a <? 0 then None else Some (with_memory a (asynchronous a)).

(** ** Participants *)
Record Participant := mkParticipant { shutdown_ : bool; fastrtps_participant_ : bool }.

Definition Participant_new : Participant := mkParticipant false false.

Definition Participant_Shutdown (p : Participant) : Participant :=
  if shutdown_ p then p else mkParticipant true false.

(** [fastrtps_participant()]: whether the pointer returned is there, and the participant; [created]
    says whether [CreateFastRtpsParticipant] makes one. *)
Definition fastrtps_participant (p : Participant) (created : bool) : bool * Participant :=
  if shutdown_ p then (false, p)
  else if fastrtps_participant_ p then (true, p)
  else (created, mkParticipant (shutdown_ p) created).

(** ** Sample identities *)

(** [WriteParams::related_sample_identity]: 16 bytes of GUID and a sequence number of a signed high
    and an unsigned low half. *)
Record SampleIdentity := mkSample { writer_guid : bytes; high : Z; low : Z }.

Definition GUID_SIZE : nat := 16.

(** The identity [Transmit] writes; [None] when a copy would leave the GUID. *)
Definition fill_identity (w : SampleIdentity) (msg_info : MessageInfo) : option SampleIdentity :=
  g ← memcpy (writer_guid w) 0 (id_data (sender_id_ msg_info));
  g ← memcpy g ID_SIZE (id_data (spare_id_ msg_info));
  Some (mkSample g (i32 (Z.shiftr (Z.land (seq_num_ msg_info) (Z.shiftl (Z.ones 32) 32)) 32))
                   (u32 (i32 (Z.land (seq_num_ msg_info) (Z.ones 32))))).

Section Identities.
Context (Hash : bytes -> Z).

(** The info [onNewDataMessage] reads into [msg_info_]. *)
Definition read_identity (msg_info : MessageInfo) (w : SampleIdentity) : MessageInfo :=
  let sender_id := set_data Hash (Identity_new Hash false []) (Some (writer_guid w)) in
  let spare_id := set_data Hash (Identity_new Hash false []) (Some (drop ID_SIZE (writer_guid w))) in
  let seq_num := u64 (Z.lor (i64 (Z.shiftl (high w) 32)) (low w)) in
  mkInfo sender_id (channel_id_ msg_info) seq_num spare_id.
End Identities.

(** ** Transmitters *)
Record RtpsTransmitter := mkRT { enabled_ : bool; publisher_ : bool; tx_attr : RoleAttributes; participant_ : bool }.

Definition RtpsTransmitter_new (attr : RoleAttributes) (participant : bool) : RtpsTransmitter := mkRT false false attr participant.

(** [Enable]: [attr0] are the attributes of Fast-RTPS before they are filled in, [created] and
    [published] say what [CreateFastRtpsParticipant] and [createPublisher] give. *)
Definition Enable (t : RtpsTransmitter) (p : Participant) (attr0 : EndpointAttributes) (created published : bool) : RtpsTransmitter * Participant :=
  if enabled_ t then (t, p)
  else if negb (participant_ t) then (t, p)
  else
    match FillInPubAttr (channel_name (tx_attr t)) (default (mkQos None None None None None) (qos_profile_ (tx_attr t))) (Some attr0) with
    | None => (t, p)
    | Some _ =>
        let '(fp, p) := fastrtps_participant p created in
        let publisher := fp && published in
        (if publisher then mkRT true true (tx_attr t) (participant_ t) else mkRT false false (tx_attr t) (participant_ t), p)
    end.

Definition Disable (t : RtpsTransmitter) : RtpsTransmitter :=
  if enabled_ t then mkRT false false (tx_attr t) (participant_ t) else t.

(** What [publisher_->write] is given. *)
Record Sample := mkWritten { topic : string; sample_data : bytes; identity : SampleIdentity }.

Section Rtps.
Context {T : Type} `{!Message T, !StringMessage T} (Hash : bytes -> Z) (HashName : string -> Z) (T_new : T).

(** [Transmit(msg, msg_info)]: the result, and the sample written; [w0] is a new identity, [written]
    what [write] returns. *)
Definition Transmit (t : RtpsTransmitter) (p : Participant) (w0 : SampleIdentity) (written : bool) (msg : T) (msg_info : MessageInfo) : bool * option Sample :=
  if negb (enabled_ t) then (false, None)
  else
    match SerializeToString msg with
    | None => (false, None)
    | Some data =>
        match fill_identity w0 msg_info with
        | None => (false, None)
        | Some wparams =>
            if shutdown_ p then (false, None)
            else (written, if written then Some (mkWritten (channel_name (tx_attr t)) data wparams) else None)
        end
    end.

(** ** Dispatcher *)

(** [subs_] holds the topic of each subscriber, [None] for a null pointer. *)
Record RtpsDispatcher := mkRD { base : @Dispatcher bytes; subs_ : gmap Z (option string); disp_participant_ : bool }.

Definition RtpsDispatcher_new : RtpsDispatcher := mkRD Dispatcher_new ∅ false.
Definition set_participant (d : RtpsDispatcher) : RtpsDispatcher := mkRD (base d) (subs_ d) true.

Definition Shutdown (d : RtpsDispatcher) : RtpsDispatcher :=
  if is_shutdown_ (base d) then d else mkRD (ListenerHandler.Shutdown (base d)) ((fun _ => None) <$> subs_ d) false.

Definition AddSubscriber (d : RtpsDispatcher) (p : Participant) (attr : RoleAttributes) (attr0 : EndpointAttributes) (created subscribed : bool)
  : RtpsDispatcher * Participant :=
  if negb (disp_participant_ d) then (d, p)
  else if decide (is_Some (subs_ d !! channel_id attr)) then (d, p)
  else
    match FillInSubAttr (channel_name attr) (default (mkQos None None None None None) (qos_profile_ attr)) (Some attr0) with
    | None => (d, p)
    | Some _ =>
        let '(fp, p) := fastrtps_participant p created in
        (if fp && subscribed then mkRD (base d) (<[channel_id attr := Some (channel_name attr)]> (subs_ d)) (disp_participant_ d) else d, p)
    end.

(** [AddListener<MessageT>], without and with an opposite. *)
Definition AddListener (d : RtpsDispatcher) (p : Participant) (attr : RoleAttributes) (oppo_id : option Z) (listener : nat)
    (attr0 : EndpointAttributes) (created subscribed : bool) : RtpsDispatcher * Participant :=
  let b := ListenerHandler.AddListener (base d) 0 (channel_id attr) (id attr) oppo_id listener in
  AddSubscriber (mkRD b (subs_ d) (disp_participant_ d)) p attr attr0 created subscribed.

(** The adapter [AddListener] puts around a listener. *)
Definition adapter (msg_str : bytes) (msg_info : MessageInfo) (listener : nat) : option (delivery T) :=
  msg ← ParseFromString msg_str T_new; Some (mkDelivery listener msg msg_info).

(** [OnMessage]. *)
Definition OnMessage (d : RtpsDispatcher) (channel_id : Z) (msg_str : bytes) (msg_info : MessageInfo) : list (delivery T) * RtpsDispatcher :=
  let '(called, b) := ListenerHandler.OnMessage (base d) channel_id msg_str msg_info in
  (omap (adapter msg_str msg_info) called, mkRD b (subs_ d) (disp_participant_ d)).

(** [SubListener::onNewDataMessage] of the subscriber of a topic; [taken] is what [takeNextData] gives,
    [None] when there is nothing or the sample is not alive. *)
Definition onNewDataMessage (d : RtpsDispatcher) (name : string) (taken : option (bytes * SampleIdentity)) : list (delivery T) * RtpsDispatcher :=
  match taken with
  | None => ([], d)
  | Some (data, w) => OnMessage d (HashName name) data (read_identity Hash (MessageInfo_default Hash) w)
  end.

(** A sample arrives at the subscribers of its topic. *)
Definition arrive (d : RtpsDispatcher) (s : Sample) : list (delivery T) * RtpsDispatcher :=
  foldl (fun '(out, d) _ => let '(o, d) := onNewDataMessage d (topic s) (Some (sample_data s, identity s)) in (out ++ o, d)) ([], d)
    (filter (fun e => e.2 = Some (topic s)) (map_to_list (subs_ d))).
End Rtps.

(** ** Heartbeats *)
Lemma heartbeat_eq mps :
  0 < mps -> heartbeat mps = ((2 ^ 40 / Z.max 64 (Z.min 1024 mps)) / two32, (2 ^ 40 / Z.max 64 (Z.min 1024 mps)) mod two32) /\
    2 ^ 30 <= 2 ^ 40 / Z.max 64 (Z.min 1024 mps) <= 2 ^ 34.
Proof.
  intros Hm. unfold heartbeat. destruct (Z.eqb_spec mps 0); [lia|].
  assert ((if 1024 <? mps then 1024 else if mps <? 64 then 64 else mps) = Z.max 64 (Z.min 1024 mps)) as ->.
  { destruct (Z.ltb_spec 1024 mps), (Z.ltb_spec mps 64); lia. }
  set (m := Z.max 64 (Z.min 1024 mps)). assert (64 <= m <= 1024) by lia.
  change (u64 (Z.shiftl 256 32)) with (2 ^ 40).
  assert (2 ^ 30 <= 2 ^ 40 / m <= 2 ^ 34).
  { split; [apply Z.div_le_lower_bound; nia|]. apply Z.div_le_upper_bound; nia. }
  split; [|done]. rewrite Z.shiftr_div_pow2, Z.land_ones by lia. change (2 ^ 32) with two32.
  rewrite i32_small.
  - f_equal. unfold u32. apply Z.mod_mod. word_lia.
  - unfold two32. split; [transitivity 0; [word_lia|apply Z.div_pos; lia]|apply Z.div_lt_upper_bound; word_lia].
Qed.

(** Attributes of a publisher: filling in fails exactly when the depth of the profile does not
    fit a signed 32-bit integer; otherwise topic, history, reliability and durability are those of
    the profile and the heartbeat period is 256 seconds divided by the messages per second, these
    taken between 64 and 1024, rounded down to 2^-32 seconds, hence between a quarter of a
    second and four seconds; without a rate it is one second. *)
Theorem FillInPubAttr_heartbeat channel_name qos a :
  0 <= q_depth qos < two32 -> 0 <= q_mps qos -> 0 <= historyQos_depth a ->
  if two31 <=? q_depth qos then FillInPubAttr channel_name qos (Some a) = None /\ FillInSubAttr channel_name qos (Some a) = None
  else
    exists b, FillInPubAttr channel_name qos (Some a) = Some b /\ topicName b = channel_name /\
      historyQos_depth b = (if q_depth qos =? 0 then historyQos_depth a else q_depth qos) /\
      (q_reliability qos = RELIABILITY_RELIABLE -> m_reliability b = RELIABLE_RELIABILITY_QOS) /\
      (q_durability qos = DURABILITY_TRANSIENT_LOCAL -> m_durability b = TRANSIENT_LOCAL_DURABILITY_QOS) /\
      let period := heartbeat_seconds b * two32 + heartbeat_fraction b in
      0 <= heartbeat_fraction b < two32 /\
      (q_mps qos = 0 -> period = two32) /\
      (0 < q_mps qos -> period = 2 ^ 40 / Z.max 64 (Z.min 1024 (q_mps qos)) /\ two32 / 4 <= period <= 4 * two32).
Proof.
  intros Hd Hm Ha. unfold FillInPubAttr, FillInSubAttr. cbn [mbind option_bind historyQos_depth fill_topic].
  destruct (Z.leb_spec two31 (q_depth qos)) as [Hb|Hb].
  { destruct (Z.eqb_spec (q_depth qos) QOS_HISTORY_DEPTH_SYSTEM_DEFAULT) as [E|_]; [unfold QOS_HISTORY_DEPTH_SYSTEM_DEFAULT in E; word_lia|].
    assert (i32 (q_depth qos) < 0) as Hn.
    { unfold i32. rewrite <- (Z.mod_add _ (-1)) by word_lia. rewrite Z.mod_small; word_lia. }
    by destruct (Z.ltb_spec (i32 (q_depth qos)) 0); [|lia]. }
  assert (Hdep : (if q_depth qos =? QOS_HISTORY_DEPTH_SYSTEM_DEFAULT then historyQos_depth a else i32 (q_depth qos)) =
                 if q_depth qos =? 0 then historyQos_depth a else q_depth qos).
  { unfold QOS_HISTORY_DEPTH_SYSTEM_DEFAULT. destruct (_ =? 0); [done|]. apply i32_small. word_lia. }
  rewrite Hdep. destruct (Z.ltb_spec (if q_depth qos =? 0 then historyQos_depth a else q_depth qos) 0) as [Hn|_].
  { destruct (q_depth qos =? 0); lia. }
  destruct (Z.eq_dec (q_mps qos) 0) as [Hz|Hz].
  - rewrite Hz. cbn [heartbeat Z.eqb]. eexists. split; [reflexivity|]. cbn. rewrite Hdep. do 2 (split; [done|]).
    split; [by intros ->|]. split; [by intros ->|]. split; [word_lia|]. split; [word_lia|lia].
  - destruct (heartbeat_eq (q_mps qos)) as [Hh Hr]; [lia|]. destruct (heartbeat (q_mps qos)) as [sec f]. simplify_eq.
    eexists. split; [reflexivity|]. cbn [topicName historyQos_depth m_reliability m_durability heartbeat_seconds heartbeat_fraction with_memory with_heartbeat fill_topic].
    rewrite Hdep. do 2 (split; [done|]). split; [by intros ->|]. split; [by intros ->|].
    set (q := 2 ^ 40 / _) in *. pose proof (Z.div_mod q two32 ltac:(word_lia)) as Hq. pose proof (Z.mod_pos_bound q two32 ltac:(word_lia)).
    split; [done|]. split; [lia|]. intros _. rewrite (Z.mul_comm _ two32), <- Hq. split; [done|].
    change (two32 / 4) with (2 ^ 30). change (4 * two32) with (2 ^ 34). done.
Qed.

Definition demo_endpoint : EndpointAttributes :=
  mkEndpoint "" "" true KEEP_LAST_HISTORY_QOS 1 VOLATILE_DURABILITY_QOS BEST_EFFORT_RELIABILITY_QOS 3 0 false false 5000.

Lemma FillInPubAttr_heartbeat_witness :
  exists b, FillInPubAttr "channel/image" (mkQos None (Some 10) (Some 100) None None) (Some demo_endpoint) = Some b /\
    heartbeat_seconds b * two32 + heartbeat_fraction b = 2 ^ 40 / 100.
Proof.
  destruct (FillInPubAttr_heartbeat "channel/image" (mkQos None (Some 10) (Some 100) None None) demo_endpoint) as (b & H1 & _ & _ & _ & _ & _ & _ & H2);
    [cbn; word_lia|cbn; lia|cbn; lia|]. exists b. split; [exact H1|]. apply H2. cbn. lia.
Defined.

(** ** Sample identities *)

(** The two halves of a sequence number put together again. *)
Lemma seq_halves seq :
  0 <= seq < two64 ->
  u64 (Z.lor (i64 (Z.shiftl (i32 (Z.shiftr (Z.land seq (Z.shiftl (Z.ones 32) 32)) 32)) 32)) (u32 (i32 (Z.land seq (Z.ones 32))))) = seq.
Proof.
  intros Hs. set (h := seq / two32). set (l := seq mod two32).
  assert (Hh : 0 <= h < two32) by (unfold h; split; [apply Z.div_pos; word_lia|apply Z.div_lt_upper_bound; word_lia]).
  pose proof (Z.mod_pos_bound seq two32 ltac:(word_lia)) as Hl. fold l in Hl.
  pose proof (Z.div_mod seq two32 ltac:(word_lia)) as Hd. fold h l in Hd.
  assert (Z.shiftr (Z.land seq (Z.shiftl (Z.ones 32) 32)) 32 = h) as ->.
  { rewrite Z.shiftr_land, Z.shiftr_shiftl_l by lia. cbn [Z.sub]. rewrite Z.shiftl_0_r, Z.shiftr_div_pow2, Z.land_ones by lia. by apply Z.mod_small. }
  rewrite Z.land_ones by lia. change (seq mod 2 ^ 32) with l.
  assert (u32 (i32 l) = l) as ->.
  { unfold u32, i32. rewrite Zminus_mod_idemp_l. replace (l + two31 - two31) with l by lia. by apply Z.mod_small. }
  rewrite Z.shiftl_mul_pow2 by lia. change (2 ^ 32) with two32.
  assert (exists k, i64 (i32 h * two32) = (h + k * two32) * two32) as [k ->].
  { destruct (Z.lt_ge_cases h two31).
    - exists 0. rewrite i32_small, i64_small by (unfold two31, two32 in *; lia). lia.
    - exists (-1). assert (i32 h = h - two32) as ->.
      { unfold i32. rewrite <- (Z.mod_add _ (-1)) by word_lia. rewrite Z.mod_small; word_lia. }
      rewrite i64_small by (unfold two31, two32 in *; lia). lia. }
  set (a := h + k * two32).
  assert (Hand : Z.land (a * two32) l = 0).
  { apply Z.bits_inj'. intros n Hn. rewrite Z.land_spec, Z.bits_0. change two32 with (2 ^ 32).
    destruct (Z.lt_ge_cases n 32); [by rewrite Z.mul_pow2_bits_low|].
    unfold l. change two32 with (2 ^ 32). rewrite (Z.mod_pow2_bits_high seq 32 n) by lia. apply andb_false_r. }
  rewrite <- (Z.lxor_lor _ _ Hand), <- (Z.add_nocarry_lxor _ _ Hand). unfold a, u64.
  replace ((h + k * two32) * two32 + l) with (seq + k * two64) by (unfold two64, two32 in *; lia).
  rewrite Z.mod_add by word_lia. by apply Z.mod_small.
Qed.

(** What is written into the identity of a sample is read back. *)
Lemma identity_round_trip Hash w i j :
  info_valid i -> length (writer_guid w) = GUID_SIZE ->
  exists w', fill_identity w i = Some w' /\ read_identity Hash j w' = received Hash j i.
Proof.
  intros (H1 & Hs & H2) Hg. unfold fill_identity.
  rewrite (memcpy_append [] (writer_guid w)) by (cbn; rewrite ?H1, ?Hg; unfold ID_SIZE, GUID_SIZE; lia). cbn [mbind option_bind app].
  rewrite memcpy_append by (rewrite ?length_drop, ?H1, ?H2, ?Hg; unfold ID_SIZE, GUID_SIZE; lia). cbn [mbind option_bind].
  eexists. split; [reflexivity|]. unfold received, read_identity, Update. cbn [sender_id_ seq_num_ spare_id_ writer_guid high low set_data Update id_data hash_value_ HashValue].
  rewrite seq_halves by done. rewrite <- !app_assoc.
  rewrite take_app_length' by done. rewrite drop_app_length' by done. by rewrite take_app_length'.
Qed.

(** ** Dispatching

    The writers and the one dispatcher of a process: listeners come and go, messages are sent on
    channels by writers anywhere. *)
Inductive rtps_op {T : Type} :=
| RAdd (attr : RoleAttributes) (oppo_id : option Z) (listener : nat)
| RRemove (attr : RoleAttributes) (oppo_id : option Z)
| RSend (t : RtpsTransmitter) (msg : T) (msg_info : MessageInfo)
| RShutdown.
Arguments rtps_op : clear implicits.

Section Delivery.
Context {T : Type} `{!Message T, !StringMessage T, !LawfulStringMessage T}.
Context (Hash : bytes -> Z) (HashName : string -> Z) (T_new : T) (p : Participant) (attr0 : EndpointAttributes) (w0 : SampleIdentity).

(** What the dispatcher gives for each operation, every call of Fast-RTPS succeeding; [None] when a
    message is not sent. *)
Fixpoint rtps_run (d : RtpsDispatcher) (ops : list (rtps_op T)) : list (option (list (delivery T))) :=
  match ops with
  | [] => []
  | RAdd attr oppo cb :: ops => Some [] :: rtps_run (AddListener d p attr oppo cb attr0 true true).1 ops
  | RRemove attr oppo :: ops =>
      Some [] :: rtps_run (mkRD (ListenerHandler.RemoveListener (base d) (channel_id attr) (id attr) oppo) (subs_ d) (disp_participant_ d)) ops
  | RSend t m inf :: ops =>
      match (Transmit t p w0 true m inf).2 with
      | None => None :: rtps_run d ops
      | Some s => let '(out, d) := arrive Hash HashName T_new d s in Some out :: rtps_run d ops
      end
  | RShutdown :: ops => Some [] :: rtps_run (Shutdown d) ops
  end.

(** The same operations on a registry per channel. *)
Definition registry_op (o : rtps_op T) : option (dispatch_op (M := bytes)) :=
  match o with
  | RAdd attr oppo cb => Some (DAdd 0 (channel_id attr) (id attr) oppo cb)
  | RRemove attr oppo => Some (DRemove (channel_id attr) (id attr) oppo)
  | RSend _ _ _ => None
  | RShutdown => Some DShutdown
  end.

Definition registry_after (c : channels) (o : rtps_op T) : channels :=
  if registry_op o is Some o then (channels_step c o).2 else c.

(** What an operation should give. *)
Definition gives (c : channels) (o : rtps_op T) (got : option (list (delivery T))) : Prop :=
  match o with
  | RSend t m inf =>
      exists out, got = Some out /\
        match regs c !! HashName (channel_name (tx_attr t)) with
        | Some (ty, r) => if closed c then out = [] else delivered Hash r m inf out
        | None => out = []
        end
  | _ => got = Some []
  end.

Fixpoint all_given (c : channels) (ops : list (rtps_op T)) (gots : list (option (list (delivery T)))) : Prop :=
  match ops, gots with
  | [], [] => True
  | o :: ops, got :: gots => gives c o got /\ all_given (registry_after c o) ops gots
  | _, _ => False
  end.

(** The operations: an id is connected once at a time on its channel, channels go by the hash of
    their name, their names are in [names], writers are enabled and their messages can be serialized. *)
Definition rtps_op_ok (names : list string) (c : channels) (o : rtps_op T) : Prop :=
  (if registry_op o is Some o then dispatch_ok c o else True) /\
  match o with
  | RAdd attr _ _ => channel_name attr ∈ names /\ channel_id attr = HashName (channel_name attr) /\
      FillInSubAttr (channel_name attr) (default (mkQos None None None None None) (qos_profile_ attr)) (Some attr0) <> None
  | RSend t m inf => enabled_ t = true /\ channel_name (tx_attr t) ∈ names /\ is_Some (SerializeToString m) /\ info_valid inf
  | _ => True
  end.

Fixpoint rtps_ops_ok (names : list string) (c : channels) (ops : list (rtps_op T)) : Prop :=
  match ops with [] => True | o :: ops => rtps_op_ok names c o /\ rtps_ops_ok names (registry_after c o) ops end.

(** The dispatcher has one subscriber, on its topic, for every channel with listeners. *)
Record rtps_inv (names : list string) (d : RtpsDispatcher) (c : channels) : Prop := {
  ri_rel : dispatcher_rel (base d) c;
  ri_open : disp_participant_ d = negb (closed c);
  ri_sub : closed c = false -> forall ch, is_Some (regs c !! ch) -> is_Some (subs_ d !! ch);
  ri_topic : forall ch o, subs_ d !! ch = Some o ->
    match o with Some name => name ∈ names /\ ch = HashName name /\ is_Some (regs c !! ch) /\ closed c = false | None => closed c = true end
}.
Hypothesis alive : shutdown_ p = false /\ fastrtps_participant_ p = true.
Hypothesis guid0 : length (writer_guid w0) = GUID_SIZE.
Context (names : list string).
Hypothesis no_collision : forall a b, a ∈ names -> b ∈ names -> HashName a = HashName b -> a = b.

Lemma channels_message c ch (m : bytes) inf : (channels_step c (DMessage ch m inf)).2 = c.
Proof.
  unfold channels_step. destruct c as [[] rs]; cbn; [done|]. destruct (rs !! ch) as [[ty [all per]]|] eqn:E; [|done]. cbn. by rewrite insert_id.
Qed.

(** Which channels have listeners after an operation. *)
Lemma channels_dom c o ch :
  closed c = false ->
  is_Some (regs (channels_step (M := bytes) c o).2 !! ch) <->
  is_Some (regs c !! ch) \/ match o with DAdd _ ch' _ _ _ => ch' = ch | _ => False end.
Proof.
  intros Hc. unfold channels_step, channel_op. rewrite Hc.
  destruct o as [ty ch' self oppo cb|ch' self oppo|ch' m inf|]; cbn [snd regs]; [| | |tauto].
  - destruct (regs c !! ch') as [[ty' r]|] eqn:E; cbn [default from_option Datatypes.id].
    + case_decide; cbn [snd regs]; [rewrite lookup_insert_is_Some'; tauto|].
      split; [auto|]. intros [?| <-]; [done|]. by rewrite E.
    + rewrite decide_True by done. cbn [snd regs]. rewrite lookup_insert_is_Some'. tauto.
  - destruct (regs c !! ch') as [[ty' r]|] eqn:E; cbn [snd regs]; [|tauto].
    rewrite lookup_insert_is_Some'. split; [intros [->|?]; [left; by rewrite E|auto]|intros [?|[]]; auto].
  - destruct (regs c !! ch') as [[ty' r]|] eqn:E; cbn [snd regs]; [|tauto].
    rewrite lookup_insert_is_Some'. split; [intros [->|?]; [left; by rewrite E|auto]|intros [?|[]]; auto].
Qed.

Lemma channels_closed c o : o <> DShutdown -> closed (channels_step (M := bytes) c o).2 = closed c.
Proof. intros Ho. unfold channels_step, channel_op. destruct (closed c) eqn:E; [done|]. destruct o; cbn; repeat case_match; cbn; done. Qed.

(** A change of the dispatcher below that keeps the subscribers. *)
Lemma rtps_inv_step d c (o : dispatch_op (M := bytes)) :
  rtps_inv names d c -> dispatch_ok c o -> o <> DShutdown -> (forall ty ch self oppo cb, o = DAdd ty ch self oppo cb -> is_Some (subs_ d !! ch) \/ closed c = true) ->
  rtps_inv names (mkRD (dispatch_step (base d) o).2 (subs_ d) (disp_participant_ d)) (channels_step c o).2.
Proof.
  intros [Hrel Hop Hsub Htop] Hok Hns Hadd. destruct (dispatch_step_rel _ _ _ Hrel Hok) as [_ Hrel'].
  split; [exact Hrel'|rewrite channels_closed by done; exact Hop| |].
  - rewrite channels_closed by done. intros Hc ch. rewrite channels_dom by done. intros [Hs|Hd]; [by apply Hsub|].
    destruct o as [ty ch' self oppo cb| | |]; try done. subst ch'. destruct (Hadd _ _ _ _ _ eq_refl); [done|congruence].
  - intros ch o' Ho. specialize (Htop ch o' Ho). cbn [subs_]. rewrite channels_closed by done. destruct o'; [|done].
    destruct Htop as (? & ? & Hs & Hc). split_and!; try done. apply channels_dom; auto.
Qed.

Lemma rtps_inv_add d c attr oppo cb :
  rtps_inv names d c -> rtps_op_ok names c (RAdd attr oppo cb) ->
  rtps_inv names (AddListener d p attr oppo cb attr0 true true).1 (registry_after c (RAdd attr oppo cb)).
Proof.
  intros Hinv [Hok (Hn & Hch & Hfill)]. pose proof Hinv as [Hrel Hop Hsub Htop]. cbn [registry_op] in Hok. unfold AddListener, AddSubscriber, registry_after. cbn [registry_op].
  set (o := DAdd 0 (channel_id attr) (id attr) oppo cb) in *. cbn [disp_participant_ subs_ base].
  change (ListenerHandler.AddListener (base d) 0 (channel_id attr) (id attr) oppo cb) with (dispatch_step (base d) o).2.
  destruct (closed c) eqn:Hc.
  { assert (negb (disp_participant_ d) = true) as -> by (by rewrite Hop). cbn [fst]. apply rtps_inv_step; auto. }
  assert (negb (disp_participant_ d) = false) as -> by (by rewrite Hop). case_decide as Hs; cbn [fst].
  - apply rtps_inv_step; [done..|]. intros. left. by simplify_eq.
  - destruct (FillInSubAttr _ _ _) as [a|]; [|done]. destruct alive as [Ha Hb]. unfold fastrtps_participant. rewrite Ha, Hb. cbn [andb fst].
    destruct (dispatch_step_rel _ _ _ Hrel Hok) as [_ Hrel']. split; cbn [base subs_ disp_participant_]; [exact Hrel'|by rewrite channels_closed, Hc| |].
    + intros _ ch. rewrite channels_dom by done. intros [Hx| ->]; [|by rewrite lookup_insert_eq].
      destruct (Hsub eq_refl ch Hx) as [o' Ho']. destruct (decide (ch = channel_id attr)) as [->|Hne]; [by rewrite lookup_insert_eq|by rewrite lookup_insert_ne, Ho'].
    + intros ch o'. rewrite lookup_insert_Some, channels_closed by done. intros [[<- <-]|[Hne Ho']].
      * split_and!; [done..| |done]. apply channels_dom; [done|]. by right.
      * specialize (Htop ch o' Ho'). destruct o'; [|done]. destruct Htop as (? & ? & ? & ?). split_and!; [done..| |done]. apply channels_dom; [done|]. by left.
Qed.

(** A sample reaches the one subscriber of its topic, if the channel has listeners. *)
Lemma arrive_eq d c s :
  rtps_inv names d c -> topic s ∈ names ->
  arrive Hash HashName T_new d s =
    if closed c then ([], d)
    else match regs c !! HashName (topic s) with
         | Some _ => onNewDataMessage Hash HashName T_new d (topic s) (Some (sample_data s, identity s))
         | None => ([], d)
         end.
Proof.
  intros [Hrel Hop Hsub Htop] Hn. unfold arrive. set (l := filter _ _).
  assert (Hl : forall e, e ∈ l -> e = (HashName (topic s), Some (topic s)) /\ closed c = false /\ is_Some (regs c !! HashName (topic s))).
  { intros [ch o] He. apply list_elem_of_filter in He as [Ho He]. cbn in Ho. subst o. apply elem_of_map_to_list in He.
    destruct (Htop _ _ He) as (? & -> & ? & ?). done. }
  assert (Hnd : NoDup l) by apply NoDup_filter, NoDup_map_to_list.
  destruct l as [|e l'] eqn:E.
  { cbn. destruct (closed c) eqn:Hc; [done|]. destruct (regs c !! HashName (topic s)) eqn:Hr; [|done].
    destruct (Hsub eq_refl (HashName (topic s))) as [o Ho]; [by rewrite Hr|]. pose proof (Htop _ _ Ho) as Ht. destruct o as [name|]; [|congruence].
    destruct Ht as (Hin & Hh & _). apply no_collision in Hh; [|done..]. subst name.
    assert ((HashName (topic s), Some (topic s)) ∈ @nil (Z * option string)) as []%not_elem_of_nil.
    rewrite <- E. unfold l. apply list_elem_of_filter. split; [done|]. by apply elem_of_map_to_list. }
  assert (l' = []) as ->.
  { destruct l' as [|e' l']; [done|]. apply NoDup_cons_1_1 in Hnd as Hx. destruct (Hl e) as [-> _]; [set_solver|]. destruct (Hl e') as [-> _]; [set_solver|]. set_solver. }
  destruct (Hl e) as (-> & -> & [x ->]); [set_solver|]. cbn [foldl]. by destruct (onNewDataMessage Hash HashName T_new d (topic s) (Some (sample_data s, identity s))).
Qed.

Lemma omap_parse data inf' (m' : T) (l : list nat) : ParseFromString data T_new = Some m' ->
  omap (adapter T_new data inf') l = (fun cb => mkDelivery cb m' inf') <$> l.
Proof. intros Hp. induction l as [|cb l IH]; [done|]. cbn. unfold adapter at 1. rewrite Hp. cbn. by rewrite IH. Qed.

Lemma rtps_inv_send d c t m inf :
  rtps_inv names d c -> rtps_op_ok names c (RSend t m inf) ->
  exists s out d', (Transmit t p w0 true m inf).2 = Some s /\ arrive Hash HashName T_new d s = (out, d') /\
    gives c (RSend t m inf) (Some out) /\ rtps_inv names d' c.
Proof.
  intros Hinv (_ & He & Hn & [data Hd] & Hi). unfold Transmit. rewrite He, Hd. cbn [negb].
  destruct (identity_round_trip Hash w0 inf (MessageInfo_default Hash) Hi guid0) as (w & -> & Hw). destruct alive as [-> _]. cbn [snd].
  eexists _. set (s := mkWritten _ _ _). rewrite (arrive_eq d c s Hinv) by done. cbn [topic sample_data identity s gives].
  set (ch := HashName (channel_name (tx_attr t))). destruct (closed c) eqn:Hc.
  { exists [], d. do 2 (split; [done|]). split; [|done]. exists []. split; [done|]. by destruct (regs c !! ch) as [[]|]. }
  destruct (regs c !! ch) as [[ty r]|] eqn:Hr; [|exists [], d; do 2 (split; [done|]); split; [by exists []|done]].
  unfold onNewDataMessage, OnMessage. fold ch. set (inf' := read_identity _ _ _) in *.
  pose proof (OnMessage_registered (base d) ch r data inf') as Hreg.
  assert (registered (base d) ch r) as Hr0 by (exists c, ty; split; [apply Hinv|done]). specialize (Hreg Hr0).
  assert (rtps_inv names (mkRD (ListenerHandler.OnMessage (base d) ch data inf').2 (subs_ d) (disp_participant_ d)) c) as Hinv'.
  { rewrite <- (channels_message c ch data inf'). by apply (rtps_inv_step d c (DMessage ch data inf')). }
  destruct (ListenerHandler.OnMessage (base d) ch data inf') as [called b]. destruct Hreg as [-> _].
  destruct (string_round_trip m T_new data Hd) as (m' & Hp & Hm).
  eexists _, _. do 2 (split; [reflexivity|]). split; [|exact Hinv']. eexists. split; [reflexivity|].
  exists m'. split; [done|]. rewrite (omap_parse data inf' m') by done.
  assert (inf' = received Hash (MessageInfo_default Hash) inf) as -> by exact Hw. done.
Qed.

Lemma rtps_inv_new : rtps_inv names (set_participant RtpsDispatcher_new) channels_new.
Proof.
  split; cbn; [|done|intros _ ch; rewrite lookup_empty; by intros []|intros ch o; by rewrite lookup_empty].
  split; [done|]. intros ch. cbn. rewrite !lookup_empty. constructor.
Qed.

(** C20: channels over RTPS deliver: a dispatcher of a running participant whose channel names have different hashes,
    over any sequence of added and removed listeners in which an id is connected to a channel once at a time,
    messages of enabled writers and a shutdown, all calls of Fast-RTPS succeeding and carrying samples
    unchanged, hands every message that a writer sends
    on a channel to the listeners of that channel, those for all senders first and then those for
    its sender, each once, with the message and the info that were sent although both travelled
    as strings and in the identity of a sample ([channel_id_] is not transported and arrives as 0, the hashes
    are computed anew); to no other, and to none after shutdown. *)
Theorem rtps_delivers ops :
  rtps_ops_ok names channels_new ops ->
  all_given channels_new ops (rtps_run (set_participant RtpsDispatcher_new) ops).
Proof.
  generalize rtps_inv_new. generalize (set_participant RtpsDispatcher_new) channels_new.
  induction ops as [|o ops IH]; intros d c Hinv Hok; [done|]. destruct Hok as [Ho Hok]. destruct o as [attr oppo cb|attr oppo|t m inf|].
  - split; [done|]. apply IH; [by apply rtps_inv_add|done].
  - split; [done|]. apply IH; [|done]. apply (rtps_inv_step d c (DRemove (channel_id attr) (id attr) oppo)); done.
  - destruct (rtps_inv_send d c t m inf Hinv Ho) as (s & out & d' & H1 & H2 & H3 & H4). cbn [rtps_run]. rewrite H1, H2. split; [done|]. by apply IH.
  - split; [done|]. apply IH; [|done]. destruct Hinv as [Hrel Hop Hsub Htop]. unfold Shutdown.
    destruct (is_shutdown_ (base d)) eqn:Hs.
    { assert (closed c = true) as Hc by (rewrite <- Hs; symmetry; apply Hrel). unfold registry_after, channels_step. cbn [registry_op]. by rewrite Hc. }
    assert (closed c = false) as Hc by (rewrite <- Hs; symmetry; apply Hrel). unfold registry_after, channels_step. cbn [registry_op]. rewrite Hc. cbn [snd].
    split; cbn; [split; [done|apply Hrel]|done|done|]. intros ch o'. rewrite lookup_fmap. destruct (subs_ d !! ch); cbn; [|done]. intros. by simplify_eq.
Qed.
End Delivery.

(** Two channels and three listeners, one of them for a single sender; a writer of the second channel
    sends before and after a listener leaves. *)
Definition demo_rtps_hash (b : bytes) : Z := le_value (take 8 b).
Definition demo_name_hash (n : string) : Z := if decide (n = "image"%string) then 11 else 12.
Definition demo_role (name : string) (i : Z) : RoleAttributes :=
  mkAttr None None None None None (Some name) (Some (demo_name_hash name)) None None (Some i) None None None None.
Definition demo_writer (name : string) : RtpsTransmitter := mkRT true true (demo_role name 0) true.
Definition demo_rtps_info (seq : Z) : MessageInfo :=
  MessageInfo_new (Identity_new demo_rtps_hash true (replicate 8 Byte.x07)) seq (Identity_new demo_rtps_hash true (replicate 8 Byte.x09)).
Definition demo_sample : SampleIdentity := mkSample (replicate 16 Byte.x00) 0 0.
Definition demo_raw : RawMessage := mkRaw (replicate 5 Byte.x41) 0.
Definition demo_rtps_ops : list (rtps_op RawMessage) :=
  [RAdd (demo_role "image" 1) None 1; RAdd (demo_role "lidar" 2) None 2; RAdd (demo_role "lidar" 3) (Some 506381209866536711) 3;
   RSend (demo_writer "lidar") demo_raw (demo_rtps_info (two64 - 1)); RRemove (demo_role "lidar" 2) None;
   RSend (demo_writer "lidar") demo_raw (demo_rtps_info 5); RShutdown; RSend (demo_writer "lidar") demo_raw (demo_rtps_info 6)].

Lemma rtps_delivers_witness :
  let run := rtps_run demo_rtps_hash demo_name_hash (mkRaw [] 0) (mkParticipant false true) demo_endpoint demo_sample
               (set_participant RtpsDispatcher_new) demo_rtps_ops in
  all_given demo_rtps_hash demo_name_hash channels_new demo_rtps_ops run /\
  ((fun o : option (list (delivery RawMessage)) => to <$> default [] o) <$> run) = [[]; []; []; [2; 3]; []; [3]; []; []]%nat.
Proof.
  split; [|by vm_compute].
  apply (rtps_delivers demo_rtps_hash demo_name_hash (mkRaw [] 0) (mkParticipant false true) demo_endpoint demo_sample (conj eq_refl eq_refl) eq_refl ["image"; "lidar"]%string).
  - intros a b Ha Hb. unfold demo_name_hash. repeat case_decide; simplify_eq; try done. set_solver.
  - cbn. repeat (split || done || (right; left) || left || (unfold info_valid; cbn; word_lia)). all: vm_compute; set_solver.
Defined.

(** A listener of a subscriber looks its channel up by the bare hash of the topic, the dispatcher
    files listeners under the id the channel was registered with: when the name of a channel collides
    with an earlier one and gets the next id, its messages go to the listeners of the earlier channel. *)
Theorem rtps_misroutes_collided :
  let role name i := mkAttr None None None None None (Some name) (Some i) None None (Some i) None None None None in
  let p := mkParticipant false true in
  let d := (AddListener (set_participant RtpsDispatcher_new) p (role "image"%string 11) None 1 demo_endpoint true true).1 in
  let d := (AddListener d p (role "lidar"%string 12) None 2 demo_endpoint true true).1 in
  exists s, (Transmit (mkRT true true (role "lidar"%string 0) true) p demo_sample true demo_raw (demo_rtps_info 1)).2 = Some s /\
    (to <$> (arrive demo_rtps_hash (fun _ => 11) (mkRaw [] 0) d s).1) = [1%nat].
Proof. eexists. split; [reflexivity|]. by vm_compute. Qed.
