(* ===== verification/Client.v ===== *)
(** * Clients of a service: service/client.h

    A client sends numbered requests on the request channel of its service and keeps a promise and a
    callback for each until a response with its own id and the number comes back.  A request is split
    where the transport sees it: under [pending_requests_mutex_] it is first transmitted and then
    entered as pending.  Requests and responses are values, promises positions in a list of shared
    states; the results of creating the transmitter and the receiver are arguments. *)

From Stdlib Require Import ZArith Lia.
From stdpp Require Import base gmap strings list.
From S2P Require Import Prelude MessageInfo ServiceManager.

Definition SRV_CHANNEL_REQ_SUFFIX : string := "__SRV__REQUEST".
Definition SRV_CHANNEL_RES_SUFFIX : string := "__SRV__RESPONSE".

Section Client.
Context {Req Res : Type}.

(** A callback: one that does not touch its client, or one that sends another request on it. *)
Inductive CallbackType := Quiet | SendAgain (q : Req).

(** [promises] holds the shared states of the futures handed out, [None] while not set; [fault] says
    that the client terminated the process: a promise set twice, or a null transmitter used.  [sent]
    and [called] are for the theorems: the requests in the order of their numbers, the promises whose
    callback was called. *)
Record Client := mkClient {
  node_name_ : string;
  request_channel_ : string;
  response_channel_ : string;
  request_transmitter_ : option Identity;
  response_receiver_ : bool;
  writer_id_ : Identity;
  sequence_number_ : Z;
  pending_requests_ : gmap Z (nat * CallbackType);
  pending_requests_mutex_ : bool;
  promises : list (option Res);
  fault : bool;
  sent : list Req;
  called : list nat
}.

Definition with_transport (c : Client) tx rx wid := mkClient (node_name_ c) (request_channel_ c) (response_channel_ c) tx rx wid
  (sequence_number_ c) (pending_requests_ c) (pending_requests_mutex_ c) (promises c) (fault c) (sent c) (called c).
Definition with_mutex (c : Client) b := mkClient (node_name_ c) (request_channel_ c) (response_channel_ c) (request_transmitter_ c) (response_receiver_ c) (writer_id_ c)
  (sequence_number_ c) (pending_requests_ c) b (promises c) (fault c) (sent c) (called c).
Definition with_pending (c : Client) n m := mkClient (node_name_ c) (request_channel_ c) (response_channel_ c) (request_transmitter_ c) (response_receiver_ c) (writer_id_ c)
  n m (pending_requests_mutex_ c) (promises c) (fault c) (sent c) (called c).
Definition with_promises (c : Client) l := mkClient (node_name_ c) (request_channel_ c) (response_channel_ c) (request_transmitter_ c) (response_receiver_ c) (writer_id_ c)
  (sequence_number_ c) (pending_requests_ c) (pending_requests_mutex_ c) l (fault c) (sent c) (called c).
Definition with_fault (c : Client) := mkClient (node_name_ c) (request_channel_ c) (response_channel_ c) (request_transmitter_ c) (response_receiver_ c) (writer_id_ c)
  (sequence_number_ c) (pending_requests_ c) (pending_requests_mutex_ c) (promises c) true (sent c) (called c).
Definition with_log (c : Client) l k := mkClient (node_name_ c) (request_channel_ c) (response_channel_ c) (request_transmitter_ c) (response_receiver_ c) (writer_id_ c)
  (sequence_number_ c) (pending_requests_ c) (pending_requests_mutex_ c) (promises c) (fault c) l k.

(** [Client(node_name, service_name)]; [id0] is a default [Identity]. *)
Definition Client_new (node_name service_name : string) (id0 : Identity) : Client :=
  mkClient node_name (service_name ++ SRV_CHANNEL_REQ_SUFFIX) (service_name ++ SRV_CHANNEL_RES_SUFFIX) None false id0 0 ∅ false [] false [] [].

Definition IsInit (c : Client) : bool := response_receiver_ c.

(** [Init]: [tx] is the id of the transmitter created on a channel, [rx] whether the receiver is. *)
Definition Init (c : Client) (tx : string -> option Identity) (rx : string -> bool) : bool * Client :=
  match tx (request_channel_ c) with
  | None => (false, with_transport c None (response_receiver_ c) (writer_id_ c))
  | Some wid =>
      if rx (response_channel_ c) then (true, with_transport c (Some wid) true wid)
      else (false, with_transport c None false wid)
  end.

Definition ServiceIsReady (c : Client) : bool := true.
Definition Destroy (c : Client) : Client := c.

(** [AsyncSendRequest] with the mutex held, up to [Transmit]: the number and what is transmitted. *)
Definition AsyncSendRequest_transmit (c : Client) (request : Req) : Client * option (MessageInfo * Req) :=
  let n := sequence_number_ c +u 1 in
  let c := with_log (with_pending c n (pending_requests_ c)) (sent c ++ [request]) (called c) in
  match request_transmitter_ c with
  | None => (with_fault c, None)
  | Some _ => (c, Some (MessageInfo_new (writer_id_ c) n (writer_id_ c), request))
  end.

(** The rest: a new promise entered under [info.seq_num()]; the future. *)
Definition AsyncSendRequest_insert (c : Client) (info : MessageInfo) (cb : CallbackType) : Client * nat :=
  let f := length (promises c) in
  let c := with_promises c (promises c ++ [None]) in
  (with_pending c (sequence_number_ c) (<[seq_num_ info := (f, cb)]> (pending_requests_ c)), f).

(** [promise::set_value], which throws when the value is set already. *)
Definition set_value (c : Client) (f : nat) (v : Res) : Client :=
  match promises c !! f with
  | Some None => with_promises c (<[f := Some v]> (promises c))
  | _ => with_fault c
  end.

(** [HandleResponse] with the mutex held, up to the call of the callback: the future and the callback
    to call, [None] when the response is dropped. *)
Definition HandleResponse (c : Client) (response : Res) (request_header : MessageInfo) : Client * option (nat * CallbackType) :=
  if negb (Identity_eqb (spare_id_ request_header) (writer_id_ c)) then (c, None)
  else
    let sequence_number := seq_num_ request_header in
    match pending_requests_ c !! sequence_number with
    | None => (c, None)
    | Some (f, cb) =>
        let c := with_pending c (sequence_number_ c) (delete sequence_number (pending_requests_ c)) in
        (set_value c f response, Some (f, cb))
    end.

(** The callback is called with the future. *)
Definition call (c : Client) (f : nat) : Client := with_log c (sent c) (called c ++ [f]).

(** [future.wait_for] and [future.get]: the value when it is ready. *)
Definition ready (c : Client) (f : nat) : option Res := promises c !! f ≫= id.

(** ** The invariant of a client

    [busy] is the number of a request that is transmitted but not yet pending, [calling] a promise
    that is set and whose callback is not called yet; both exist only while the mutex is held.
    [answer] says which responses answer a request. *)
Record client_ok (answer : Req -> Res -> Prop) (c : Client) (busy : option Z) (calling : option nat) : Prop := {
  co_tx : IsInit c = true -> request_transmitter_ c = Some (writer_id_ c);
  co_seq : sequence_number_ c = Z.of_nat (length (sent c));
  co_len : length (sent c) = (length (promises c) + if busy then 1 else 0)%nat;
  co_busy : forall n, busy = Some n -> n = sequence_number_ c;
  co_pending : forall n f cb, pending_requests_ c !! n = Some (f, cb) -> n = Z.of_nat f + 1 /\ promises c !! f = Some None;
  co_unset : forall f, promises c !! f = Some None -> is_Some (pending_requests_ c !! (Z.of_nat f + 1));
  co_answer : forall f v, promises c !! f = Some (Some v) -> exists q, sent c !! f = Some q /\ answer q v;
  co_called : NoDup (called c);
  co_set : forall f, f ∈ called c \/ calling = Some f <-> exists v, promises c !! f = Some (Some v);
  co_calling : forall f, calling = Some f -> f ∉ called c;
  co_fault : fault c = false
}.
End Client.

Section Proofs.
Context {Req Res : Type} (answer : Req -> Res -> Prop).
Implicit Types (c : @Client Req Res).

Lemma client_ok_new node service id0 : client_ok answer (Client_new node service id0) None None.
Proof.
  split; cbn; try done; try (intros *; rewrite ?lookup_empty, ?lookup_nil; done); [constructor|].
  intros f. rewrite lookup_nil. split; [intros [?|?]; [set_solver|done]|intros [v ?]; done].
Qed.

(** What the mutex does not matter for. *)
Lemma client_ok_mutex c b busy calling : client_ok answer (with_mutex c b) busy calling <-> client_ok answer c busy calling.
Proof. split; intros []; by split. Qed.

Lemma Init_ok c tx rx :
  client_ok answer c None None -> IsInit c = false -> client_ok answer (Init c tx rx).2 None None.
Proof.
  intros [] Hi. unfold Init. destruct (tx _) as [wid|]; [destruct (rx _)|]; split; cbn; try done. unfold IsInit in Hi. congruence.
Qed.

Lemma AsyncSendRequest_transmit_ok c request :
  client_ok answer c None None -> IsInit c = true -> sequence_number_ c < two64 - 1 ->
  client_ok answer (AsyncSendRequest_transmit c request).1 (Some (sequence_number_ c + 1)) None /\
  (AsyncSendRequest_transmit c request).2 = Some (MessageInfo_new (writer_id_ c) (sequence_number_ c + 1) (writer_id_ c), request) /\
  sent (AsyncSendRequest_transmit c request).1 = sent c ++ [request].
Proof.
  intros [] Hi Hn. unfold AsyncSendRequest_transmit. assert (sequence_number_ c +u 1 = sequence_number_ c + 1) as ->.
  { unfold u64. apply Z.mod_small. lia. }
  cbn [request_transmitter_ with_log with_pending]. rewrite (co_tx0 Hi). split; [|done]. split; cbn; try done.
  - rewrite length_app. cbn. lia.
  - rewrite length_app. cbn. lia.
  - by intros n [= <-].
  - intros f v Hf. destruct (co_answer0 f v Hf) as (q & Hq & ?). exists q. split; [|done]. by apply lookup_app_l_Some.
Qed.

Lemma AsyncSendRequest_insert_ok c info cb :
  client_ok answer c (Some (seq_num_ info)) None ->
  client_ok answer (AsyncSendRequest_insert c info cb).1 None None /\
  seq_num_ info = Z.of_nat (AsyncSendRequest_insert c info cb).2 + 1 /\
  promises (AsyncSendRequest_insert c info cb).1 !! (AsyncSendRequest_insert c info cb).2 = Some None.
Proof.
  intros []. unfold AsyncSendRequest_insert. cbn [fst snd with_pending with_promises promises].
  assert (Hn : seq_num_ info = Z.of_nat (length (promises c)) + 1).
  { rewrite (co_busy0 _ eq_refl), co_seq0, co_len0. lia. }
  assert (Hnew : (promises c ++ [None]) !! length (promises c) = Some None) by apply list_lookup_middle, eq_refl.
  split; [|done]. split; cbn; try done.
  - rewrite length_app. cbn. lia.
  - intros n f cb'. rewrite lookup_insert_Some. intros [[<- [= <- <-]]|[Hne Hp]]; [done|].
    destruct (co_pending0 n f cb' Hp) as [-> Hf]. split; [done|]. by apply lookup_app_l_Some.
  - intros f Hf. rewrite Hn. destruct (decide (f = length (promises c))) as [->|Hne]; [by rewrite lookup_insert_eq|].
    rewrite lookup_insert_ne by lia. apply co_unset0. apply lookup_app_Some in Hf as [?|[? Hf]]; [done|].
    apply list_lookup_singleton_Some in Hf as [Hf _]. lia.
  - intros f v Hf. apply co_answer0. apply lookup_app_Some in Hf as [?|[? Hf]]; [done|]. by apply list_lookup_singleton_Some in Hf as [_ ?].
  - intros f. rewrite co_set0. split; intros [v Hv]; exists v; [by apply lookup_app_l_Some|].
    apply lookup_app_Some in Hv as [?|[? Hv]]; [done|]. by apply list_lookup_singleton_Some in Hv as [_ ?].
Qed.

(** A response that answers a request of this client. *)
Definition answers c (v : Res) (header : MessageInfo) : Prop :=
  exists f q, seq_num_ header = Z.of_nat f + 1 /\ sent c !! f = Some q /\ answer q v.

(** A response is dropped when it is for another client or its promise is set already; otherwise it
    is for the promise of its own request, which it sets. *)
Lemma HandleResponse_ok c v header :
  client_ok answer c None None ->
  (Identity_eqb (spare_id_ header) (writer_id_ c) = true -> answers c v header) ->
  match HandleResponse c v header with
  | (c', None) => c' = c /\ (Identity_eqb (spare_id_ header) (writer_id_ c) = true ->
      exists f w, seq_num_ header = Z.of_nat f + 1 /\ promises c !! f = Some (Some w))
  | (c', Some (f, cb)) => client_ok answer c' None (Some f) /\ seq_num_ header = Z.of_nat f + 1 /\
      sent c' = sent c /\ promises c' = <[f := Some v]> (promises c) /\ promises c !! f = Some None
  end.
Proof.
  intros Hc Ha. pose proof Hc as []. unfold HandleResponse. destruct (Identity_eqb _ _) eqn:Hid; cbn [negb]; [|done].
  destruct (Ha eq_refl) as (f & q & Hs & Hq & Hqv). destruct (pending_requests_ c !! seq_num_ header) as [[f' cb]|] eqn:Hp.
  - destruct (co_pending0 _ _ _ Hp) as [Hn Hf]. assert (f' = f) as -> by lia. unfold set_value. cbn [promises with_pending]. rewrite Hf.
    pose proof (lookup_lt_Some _ _ _ Hf) as Hlt. split; [|done]. split; cbn; try done.
    + by rewrite length_insert.
    + intros n g cb' Hg. apply lookup_delete_Some in Hg as [Hne Hg]. destruct (co_pending0 _ _ _ Hg) as [-> Hg']. split; [done|].
      rewrite list_lookup_insert_ne by (intros ->; lia). done.
    + intros g Hg. apply list_lookup_insert_Some in Hg as [(_ & ? & _)|[Hne Hg]]; [done|]. rewrite lookup_delete_ne by lia. by apply co_unset0.
    + intros g w Hg. apply list_lookup_insert_Some in Hg as [(<- & [= <-] & _)|[Hne Hg]]; [by exists q|by apply co_answer0].
    + intros g. destruct (decide (g = f)) as [->|Hne].
      * rewrite list_lookup_insert_eq by done. split; [by eexists|by right].
      * rewrite list_lookup_insert_ne by done. rewrite <- co_set0. split; (intros [?|?]; [by left|]); congruence.
    + intros g [= <-] Hin. destruct (proj1 (co_set0 f) (or_introl Hin)) as [w Hw]. congruence.
  - split; [done|]. intros _. exists f. destruct (promises c !! f) as [[w|]|] eqn:Hf; [by exists w| |].
    + destruct (co_unset0 f Hf). congruence.
    + apply lookup_ge_None in Hf. apply lookup_lt_Some in Hq. lia.
Qed.

Lemma call_ok c f : client_ok answer c None (Some f) -> client_ok answer (call c f) None None.
Proof.
  intros []. split; cbn; try done.
  - apply NoDup_app. split; [done|]. split; [|apply NoDup_singleton]. intros g Hg ->%list_elem_of_singleton. by apply (co_calling0 f).
  - intros g. rewrite <- co_set0, elem_of_app, list_elem_of_singleton. split; [intros [[?| ->]|?]|intros [?|[= <-]]]; auto. done.
Qed.
End Proofs.

(** ** Waiting for the service

    [WaitForServiceNanoseconds] of service/client_base.h: [sm k] is the service manager when it is asked
    for the k-th time.  The result and the number of polls. *)
Section WaitForService.
Context (Hash : string -> Z) (sm : nat -> ServiceManager) (service_name : string).

Definition step_duration : Z := 5 * 1000 * 1000.

Fixpoint wait_polls (fuel : nat) (time_out : Z) (polls : nat) : option (bool * nat) :=
  match fuel with
  | O => None
  | S fuel =>
      if time_out <=? 0 then Some (false, polls)
      else if HasService Hash (sm polls) service_name then Some (true, S polls)
      else wait_polls fuel (time_out - step_duration) (S polls)
  end.

(** One poll per step that fits, and one more. *)
Definition polls_of (time_out : Z) : nat := Z.to_nat ((time_out + step_duration - 1) / step_duration).
Definition WaitForServiceNanoseconds (time_out : Z) : option (bool * nat) := wait_polls (S (polls_of time_out)) time_out 0.

(** [WaitForService] with a timeout in milliseconds, the default unit; its default value is -1. *)
Definition WaitForService (timeout : Z) : option (bool * nat) := WaitForServiceNanoseconds (i64 (timeout * 1000000)).

Lemma polls_of_step t : 0 < t -> polls_of t = S (polls_of (t - step_duration)).
Proof.
  intros Ht. unfold polls_of, step_duration.
  replace (t + _ - 1) with (t - 5 * 1000 * 1000 + 5 * 1000 * 1000 - 1 + 1 * (5 * 1000 * 1000)) by lia.
  rewrite Z.div_add by lia. pose proof (Z.div_pos (t - 5 * 1000 * 1000 + 5 * 1000 * 1000 - 1) (5 * 1000 * 1000)). lia.
Qed.
Lemma polls_of_none t : t <= 0 -> polls_of t = O.
Proof. intros Ht. unfold polls_of. pose proof (Z.div_lt_upper_bound (t + step_duration - 1) step_duration 1). unfold step_duration in *. lia. Qed.

Lemma wait_polls_S fuel t k :
  wait_polls (S fuel) t k = if t <=? 0 then Some (false, k) else if HasService Hash (sm k) service_name then Some (true, S k) else wait_polls fuel (t - step_duration) (S k).
Proof. reflexivity. Qed.

Lemma wait_polls_ok n : forall t k, polls_of t = n ->
  exists r p, wait_polls (S n) t k = Some (r, p) /\
    if r then (k < p <= k + n)%nat /\ HasService Hash (sm (p - 1)%nat) service_name = true /\
              forall j, (k <= j < p - 1)%nat -> HasService Hash (sm j) service_name = false
    else p = (k + n)%nat /\ forall j, (k <= j < p)%nat -> HasService Hash (sm j) service_name = false.
Proof.
  induction n as [|n IH]; intros t k Hn; rewrite wait_polls_S; (destruct (Z.leb_spec t 0); [rewrite polls_of_none in Hn by done|rewrite polls_of_step in Hn by done]); try done.
  - exists false, k. split; [done|]. split; lia.
  - injection Hn as Hn. destruct (HasService Hash (sm k) service_name) eqn:Hk.
    + exists true, (S k). replace (S k - 1)%nat with k by lia. repeat split; try lia. done.
    + destruct (IH (t - step_duration) (S k) Hn) as (r & p & -> & Hr). exists r, p. split; [done|].
      destruct r; destruct Hr as [Hp Hr]; [destruct Hr as [? Hr]; repeat split; try lia; try done|split; [lia|]]; intros j Hj; (destruct (decide (j = k)) as [->|]; [done|apply Hr; lia]).
Qed.

(** Waiting for a service ends after at most one poll every 5 ms: it returns true with the first poll
    that finds the service and false when none of them does. *)
Theorem WaitForService_polls time_out :
  exists r p, WaitForServiceNanoseconds time_out = Some (r, p) /\
    if r then (0 < p <= polls_of time_out)%nat /\ HasService Hash (sm (p - 1)%nat) service_name = true /\
              forall j, (j < p - 1)%nat -> HasService Hash (sm j) service_name = false
    else p = polls_of time_out /\ forall j, (j < p)%nat -> HasService Hash (sm j) service_name = false.
Proof.
  destruct (wait_polls_ok (polls_of time_out) time_out 0 eq_refl) as (r & p & Hr & H). exists r, p. split; [done|].
  destruct r; destruct H as [Hp H]; [destruct H as [? H]; split; [done|]; split; [done|]|split; [done|]]; intros j Hj; apply H; lia.
Qed.

(** The default timeout does not wait: the service manager is not even asked. *)
Theorem WaitForService_default : WaitForService (-1) = Some (false, O).
Proof. reflexivity. Qed.
End WaitForService.
