(* ===== verification/Service.v ===== *)
(** * Services and their clients: service/service.h, with service/client.h over a network

    A service queues the requests it receives and handles them one after another on a thread of its
    own; the response carries the number and the spare id of the request, by which the client it is
    for finds its promise.  Here any number of threads use any number of clients of one service while
    the transport delivers requests and responses in any order, any number of times or not at all.

    Steps are the critical sections; [HandleResponse] is split at the callback, which it calls with the
    mutex held, [AsyncSendRequest] between [Transmit] and the insertion.  Infos travel in sample
    identities (Rtps).  [service_callback_] is a function of a state of the user and the request. *)

From Stdlib Require Import ZArith Lia Strings.Byte.
From stdpp Require Import base gmap functions strings list.
From S2P Require Import Prelude Bytes MessageInfo Rtps Client.

Section Definitions.
Context {Req Res U : Type} (service_callback_ : U -> Req -> Res * U).
Context (Hash : bytes -> Z) (w0 : SampleIdentity).

(** ** The service

    [thread_] says that the thread object is joinable, [thread_done] that the thread has ended,
    [waiting] that it is blocked in [condition_.wait]; [user] is the state of the callback. *)
Record Service := mkService {
  svc_request_channel_ : string;
  svc_response_channel_ : string;
  response_transmitter_ : option Identity;
  request_receiver_ : bool;
  inited_ : bool;
  thread_ : bool;
  thread_done : bool;
  waiting : bool;
  tasks_ : list (Req * MessageInfo);
  service_handle_request_mutex_ : bool;
  user : U
}.

Definition svc_transport (s : Service) tx rx ini th dn := mkService (svc_request_channel_ s) (svc_response_channel_ s) tx rx ini th dn (waiting s) (tasks_ s) (service_handle_request_mutex_ s) (user s).
Definition svc_tasks (s : Service) w l := mkService (svc_request_channel_ s) (svc_response_channel_ s) (response_transmitter_ s) (request_receiver_ s) (inited_ s) (thread_ s) (thread_done s) w l (service_handle_request_mutex_ s) (user s).
Definition svc_user (s : Service) b u := mkService (svc_request_channel_ s) (svc_response_channel_ s) (response_transmitter_ s) (request_receiver_ s) (inited_ s) (thread_ s) (thread_done s) (waiting s) (tasks_ s) b u.

Definition Service_new (service_name : string) (u : U) : Service :=
  mkService (service_name ++ SRV_CHANNEL_REQ_SUFFIX) (service_name ++ SRV_CHANNEL_RES_SUFFIX) None false false false false false [] false u.

Definition svc_IsInit (s : Service) : bool := request_receiver_ s.

(** [Init]: [tx] and [rx] as for a client; [None] when a running thread is assigned to, which
    terminates the process. *)
Definition svc_Init (s : Service) (tx : string -> option Identity) (rx : string -> bool) : option (bool * Service) :=
  if svc_IsInit s then Some (true, s)
  else
    match tx (svc_response_channel_ s) with
    | None => Some (false, svc_transport s None (request_receiver_ s) (inited_ s) (thread_ s) (thread_done s))
    | Some sid =>
        let received := rx (svc_request_channel_ s) in
        if thread_ s then None
        else if received then Some (true, svc_transport s (Some sid) true true true false)
        else Some (false, svc_transport s None false true true false)
    end.

(** [Enqueue], with [notify_one]. *)
Definition Enqueue (s : Service) (task : Req * MessageInfo) : Service := svc_tasks s false (tasks_ s ++ [task]).

(** [destroy] up to [join], in three steps. *)
Definition destroy_flag (s : Service) : Service := svc_transport s (response_transmitter_ s) (request_receiver_ s) false (thread_ s) (thread_done s).
Definition destroy_clear (s : Service) : Service := svc_tasks s (waiting s) [].
Definition destroy_notify (s : Service) : Service := svc_tasks s false (tasks_ s).

(** [HandleRequest]: the callback, with [service_handle_request_mutex_] held. *)
Definition HandleRequest (s : Service) (request : Req) : Res * Service :=
  let r := service_callback_ (user s) request in (r.1, svc_user s true r.2).

(** The info of the response, [Transmit] in [SendResponse] and the end of [HandleRequest]. *)
Definition SendResponse (s : Service) (message_info : MessageInfo) (response : Res) : Service * option (MessageInfo * Res) :=
  (svc_user s false (user s),
   match response_transmitter_ s with
   | Some sid => if svc_IsInit s then Some (mkInfo sid (channel_id_ message_info) (seq_num_ message_info) (spare_id_ message_info), response) else None
   | None => None
   end).

(** ** The system *)

(** What has been given to the transport on the two channels; [is_shutdown] is [cyber::IsShutdown]. *)
Record net := mkNet {
  clients : nat -> @Client Req Res;
  service : Service;
  requests : list (MessageInfo * Req);
  responses : list (MessageInfo * Res);
  is_shutdown : bool
}.

Definition upd_client (s : net) (k : nat) (c : Client) : net := mkNet (<[k := c]> (clients s)) (service s) (requests s) (responses s) (is_shutdown s).
Definition upd_service (s : net) (v : Service) : net := mkNet (clients s) v (requests s) (responses s) (is_shutdown s).
Definition put_request (s : net) (o : option (MessageInfo * Req)) : net := mkNet (clients s) (service s) (requests s ++ option_list o) (responses s) (is_shutdown s).
Definition put_response (s : net) (o : option (MessageInfo * Res)) : net := mkNet (clients s) (service s) (requests s) (responses s ++ option_list o) (is_shutdown s).

(** An info as it arrives. *)
Definition wire (i : MessageInfo) : MessageInfo := read_identity Hash (MessageInfo_default Hash) (default w0 (fill_identity w0 i)).

(** Where a thread stands: at rest, with the future or the value its call returned; in
    [AsyncSendRequest] or [SendRequest]; in [HandleResponse]; in [Enqueue]; in [Process]; in [destroy]. *)
Inductive pc :=
| Idle
| Future (k : nat) (f : option nat)
| Value (v : option Res)
| ALock (k : nat) (q : Req) (cb : CallbackType (Req := Req)) (sync : bool)
| AInsert (k : nat) (info : MessageInfo) (cb : CallbackType (Req := Req)) (sync : bool)
| GWait (k : nat) (f : nat)
| RLock (k : nat) (info : MessageInfo) (v : Res)
| RCallback (k : nat) (f : nat) (cb : CallbackType (Req := Req))
| RNested (k : nat) (q : Req)
| RUnlock (k : nat)
| QEnqueue (info : MessageInfo) (q : Req)
| STop
| SLock
| SBlocked
| SRun (q : Req) (info : MessageInfo)
| SSend (info : MessageInfo) (v : Res)
| SEnd
| DClear
| DNotify
| DJoin.

(** What a thread starts: a call of [AsyncSendRequest] or [SendRequest]; the delivery of a response
    to a client, of a request to the service; [destroy]; the shutdown of the process. *)
Inductive op :=
| Call (k : nat) (q : Req) (cb : CallbackType (Req := Req)) (sync : bool)
| DeliverResponse (k i : nat)
| DeliverRequest (i : nat)
| Destroy
| Stop.

Inductive ev := Start (o : op) | Step (timeout : bool).

(** The beginning of a call or delivery; there are [n] clients. *)
Definition start (n : nat) (s : net) (o : op) : net * pc :=
  match o with
  | Call k q cb sync =>
      (s, if decide (k < n)%nat then
            if IsInit (clients s k) then ALock k q cb sync else if sync then Value None else Future k None
          else Idle)
  | DeliverResponse k i =>
      (s, if decide (k < n)%nat then
            match responses s !! i with
            | Some (info, v) => if IsInit (clients s k) then RLock k (wire info) v else Idle
            | None => Idle
            end
          else Idle)
  | DeliverRequest i =>
      (s, match requests s !! i with Some (info, q) => if svc_IsInit (service s) then QEnqueue (wire info) q else Idle | None => Idle end)
  | Destroy => (upd_service s (destroy_flag (service s)), DClear)
  | Stop => (mkNet (clients s) (service s) (requests s) (responses s) true, Idle)
  end.

(** [Client::AsyncSendRequest] and [SendRequest]. *)
Definition SendRequest_step (s : net) (p : pc) (timeout : bool) : net * pc :=
  match p with
  | ALock k q cb sync =>
      let c := clients s k in
      if pending_requests_mutex_ c then (s, p)
      else
        let '(c, o) := AsyncSendRequest_transmit (with_mutex c true) q in
        (put_request (upd_client s k c) o, AInsert k (from_option fst (MessageInfo_default Hash) o) cb sync)
  | AInsert k info cb sync =>
      let '(c, f) := AsyncSendRequest_insert (clients s k) info cb in
      (upd_client s k (with_mutex c false), if sync then GWait k f else Future k (Some f))
  | GWait k f =>
      match ready (clients s k) f with
      | Some v => (s, Value (Some v))
      | None => if timeout then (s, Value None) else (s, p)
      end
  | _ => (s, p)
  end.

(** [Client::HandleResponse]; a callback that sends again waits for the mutex its thread holds. *)
Definition HandleResponse_step (s : net) (p : pc) : net * pc :=
  match p with
  | RLock k info v =>
      let c := clients s k in
      if pending_requests_mutex_ c then (s, p)
      else
        let '(c, r) := HandleResponse (with_mutex c true) v info in
        (upd_client s k c, match r with Some (f, cb) => RCallback k f cb | None => RUnlock k end)
  | RCallback k f cb =>
      (upd_client s k (call (clients s k) f), match cb with Quiet => RUnlock k | SendAgain q => RNested k q end)
  | RNested k q => if pending_requests_mutex_ (clients s k) then (s, p) else (s, RUnlock k)
  | RUnlock k => (upd_client s k (with_mutex (clients s k) false), Idle)
  | _ => (s, p)
  end.

(** [Service::Process] with [HandleRequest]; a wait may end without a notification. *)
Definition Process_step (s : net) (p : pc) (spurious : bool) : net * pc :=
  let v := service s in
  let ended := upd_service s (svc_transport v (response_transmitter_ v) (request_receiver_ v) (inited_ v) (thread_ v) true) in
  match p with
  | STop => if is_shutdown s then (ended, SEnd) else (s, SLock)
  | SLock =>
      if negb (inited_ v) then (ended, SEnd)
      else
        match tasks_ v with
        | [] => (upd_service s (svc_tasks v true []), SBlocked)
        | (q, info) :: l => (upd_service s (svc_tasks v (waiting v) l), SRun q info)
        end
  | SBlocked => if waiting v && negb spurious then (s, p) else (upd_service s (svc_tasks v false (tasks_ v)), SLock)
  | SRun q info =>
      if negb (svc_IsInit v) then (s, STop)
      else if service_handle_request_mutex_ v then (s, p)
      else let '(r, v) := HandleRequest v q in (upd_service s v, SSend info r)
  | SSend info r => let '(v, o) := SendResponse v info r in (put_response (upd_service s v) o, STop)
  | _ => (s, p)
  end.

(** [Service::destroy] after its first statement. *)
Definition destroy_step (s : net) (p : pc) : net * pc :=
  match p with
  | DClear => (upd_service s (destroy_clear (service s)), DNotify)
  | DNotify => (upd_service s (destroy_notify (service s)), DJoin)
  | DJoin =>
      let v := service s in
      if thread_ v then
        if thread_done v then (upd_service s (svc_transport v (response_transmitter_ v) (request_receiver_ v) (inited_ v) false true), Idle) else (s, p)
      else (s, Idle)
  | _ => (s, p)
  end.

Definition tstep (n : nat) (s : net) (p : pc) (e : ev) : net * pc :=
  match e, p with
  | Start o, (Idle | Future _ _ | Value _) => start n s o
  | Start _, _ => (s, p)
  | Step b, (ALock _ _ _ _ | AInsert _ _ _ _ | GWait _ _) => SendRequest_step s p b
  | Step _, (RLock _ _ _ | RCallback _ _ _ | RNested _ _ | RUnlock _) => HandleResponse_step s p
  | Step _, QEnqueue info q => (upd_service s (Enqueue (service s) (q, info)), Idle)
  | Step b, (STop | SLock | SBlocked | SRun _ _ | SSend _ _) => Process_step s p b
  | Step _, (DClear | DNotify | DJoin) => destroy_step s p
  | Step _, _ => (s, p)
  end.

(** The start: clients as they are, a service just initialised whose thread is thread 0. *)
Definition sys_init (cs : nat -> @Client Req Res) (v : Service) : conf :=
  Conf (mkNet cs v [] [] false) (<[0%nat := STop]> (fun _ => Idle)).

(** An answer to a request is what the callback makes of it in some state. *)
Definition answer (q : Req) (v : Res) : Prop := exists u, v = (service_callback_ u q).1.
End Definitions.

Arguments pc : clear implicits.
Arguments op : clear implicits.
Arguments ev : clear implicits.
Arguments net : clear implicits.

(** ** Requests and their answers *)

(** The client whose mutex a thread holds. *)
Definition holder {Req Res} (p : pc Req Res) : option nat :=
  match p with AInsert k _ _ _ | RCallback k _ _ | RNested k _ | RUnlock k => Some k | _ => None end.
Definition holds {Req Res} (k : nat) (p : pc Req Res) : bool := bool_decide (holder p = Some k).

Section Rpc.
Context {Req Res U : Type} (service_callback_ : U -> Req -> Res * U).
Context (Hash : bytes -> Z) (w0 : SampleIdentity) (n : nat) (cs : nat -> @Client Req Res).
Implicit Types (s : net Req Res U) (p : pc Req Res) (g : nat -> pc Req Res).

Abbreviation answer := (answer service_callback_).
Abbreviation client_ok := (client_ok answer).
Abbreviation tstep := (tstep service_callback_ Hash w0 n).

(** A client as its constructor and [Init] leave it. *)
Definition fresh_client (c : @Client Req Res) : Prop :=
  (exists node name id0 tx rx, c = (Init (Client_new node name id0) tx rx).2) /\
  (IsInit c = true -> length (id_data (writer_id_ c)) = ID_SIZE).

Hypothesis guid0 : length (writer_guid w0) = GUID_SIZE.
Hypothesis fresh_clients : forall k, (k < n)%nat -> fresh_client (cs k).
Hypothesis distinct_ids : forall j k, (j < n)%nat -> (k < n)%nat -> IsInit (cs j) = true -> IsInit (cs k) = true ->
  id_data (writer_id_ (cs j)) = id_data (writer_id_ (cs k)) -> j = k.

Definition member (k : nat) : Prop := (k < n)%nat /\ IsInit (cs k) = true.

(** The info is that of request [q] of client [k]. *)
Definition asked s (info : MessageInfo) (q : Req) : Prop :=
  info_valid info /\ exists k i, member k /\ id_data (spare_id_ info) = id_data (writer_id_ (cs k)) /\
    seq_num_ info = Z.of_nat i + 1 /\ sent (clients s k) !! i = Some q.

Definition answered s (info : MessageInfo) (v : Res) : Prop := exists q, asked s info q /\ answer q v.

Definition pc_ok s p : Prop :=
  match p with
  | ALock k _ _ _ => member k
  | AInsert k info _ _ => member k /\ client_ok (clients s k) (Some (seq_num_ info)) None
  | RLock k info v => member k /\ answered s info v
  | RCallback k f _ => member k /\ client_ok (clients s k) None (Some f)
  | RNested k _ | RUnlock k => member k /\ client_ok (clients s k) None None
  | QEnqueue info q | SRun q info => asked s info q
  | SSend info v => answered s info v
  | _ => True
  end.

(** What never changes of a client. *)
Definition same_client (c c' : @Client Req Res) : Prop := writer_id_ c' = writer_id_ c /\ IsInit c' = IsInit c.

Record rpc_inv (m : nat) s g : Prop := {
  ri_same : forall k, same_client (cs k) (clients s k);
  ri_seq : forall k, member k -> sequence_number_ (clients s k) <= Z.of_nat m;
  ri_mutex : forall k, member k -> mutex_inv (holds k) g (pending_requests_mutex_ (clients s k));
  ri_client : forall k, member k -> pending_requests_mutex_ (clients s k) = false -> client_ok (clients s k) None None;
  ri_any : forall k, member k -> exists busy calling, client_ok (clients s k) busy calling;
  ri_pc : forall t, pc_ok s (g t);
  ri_sid : forall sid, response_transmitter_ (service s) = Some sid -> length (id_data sid) = ID_SIZE;
  ri_req : Forall (fun e => asked s e.1 e.2) (requests s);
  ri_res : Forall (fun e => answered s e.1 e.2) (responses s);
  ri_tasks : Forall (fun e => asked s e.2 e.1) (tasks_ (service s))
}.

Definition grows s s' : Prop := forall k, sent (clients s k) `prefix_of` sent (clients s' k).

Lemma asked_grows s s' info q : grows s s' -> asked s info q -> asked s' info q.
Proof.
  intros Hg (Hv & k & i & Hm & Hid & Hs & Hq). split; [done|]. exists k, i. split_and!; try done. by eapply prefix_lookup_Some.
Qed.

Lemma answered_grows s s' info v : grows s s' -> answered s info v -> answered s' info v.
Proof. intros Hg (q & Ha & ?). exists q. split; [by eapply asked_grows|done]. Qed.

(** A thread that is not in the mutex of [k] does not mind a change of client [k]. *)
Lemma pc_ok_grows s s' p :
  grows s s' -> (forall k, holder p = Some k -> clients s' k = clients s k) -> pc_ok s p -> pc_ok s' p.
Proof.
  intros Hg Hk. destruct p; cbn in *; try done; rewrite ?(Hk _ eq_refl); try done; try (by apply asked_grows); try (by apply answered_grows).
  intros [? ?]. split; [done|]. by eapply answered_grows.
Qed.

Lemma pc_ok_client s p k : holder p = Some k -> pc_ok s p -> exists busy calling, client_ok (clients s k) busy calling.
Proof. intros Hp Hok. destruct p; cbn in Hp, Hok; simplify_eq; destruct Hok as [_ Hc]; eauto. Qed.

(** A thread acts on client [k], whose mutex it holds or finds free. *)
Lemma client_step m s g t p' s' k c' :
  rpc_inv m s g -> member k -> holder (g t) = Some k \/ (holder (g t) = None /\ pending_requests_mutex_ (clients s k) = false) ->
  holder p' = Some k \/ holder p' = None ->
  clients s' = <[k := c']> (clients s) -> service s' = service s ->
  same_client (clients s k) c' -> sequence_number_ c' <= Z.of_nat (m + 1) -> sent (clients s k) `prefix_of` sent c' ->
  pending_requests_mutex_ c' = bool_decide (holder p' = Some k) -> (holder p' = None -> client_ok c' None None) ->
  pc_ok s' p' -> Forall (fun e => asked s' e.1 e.2) (requests s') -> Forall (fun e => answered s' e.1 e.2) (responses s') ->
  rpc_inv (m + 1) s' (<[t := p']> g).
Proof.
  intros [] Hk Hp Hp' Hcl Hsv Hsame Hseq Hpre Hmx Hok Hpc Hreq Hres.
  assert (Hg : grows s s').
  { intros j. rewrite Hcl. destruct (decide (j = k)) as [->|]; [by rewrite fn_lookup_insert|by rewrite fn_lookup_insert_ne]. }
  assert (Hother : forall u, u <> t -> holder (g u) <> Some k).
  { intros u Hu Hh. destruct (ri_mutex0 k Hk) as [Huniq Hfree]. destruct Hp as [Hp|[_ Hp]].
    - apply Hu, Huniq; by apply bool_decide_eq_true_2.
    - specialize (Hfree Hp u). by apply bool_decide_eq_false_1 in Hfree. }
  split; rewrite ?Hsv; try done.
  - intros j. rewrite Hcl. destruct (decide (j = k)) as [->|]; [rewrite fn_lookup_insert|by rewrite fn_lookup_insert_ne].
    destruct (ri_same0 k), Hsame. split; congruence.
  - intros j Hj. rewrite Hcl. destruct (decide (j = k)) as [->|]; [by rewrite fn_lookup_insert|rewrite fn_lookup_insert_ne by done].
    specialize (ri_seq0 j Hj). lia.
  - intros j Hj. rewrite Hcl. destruct (decide (j = k)) as [->|Hne].
    + rewrite fn_lookup_insert, Hmx. destruct Hp as [Hp|[Hp Hf]].
      * assert (holds k (g t) = true) as Ht by (by apply bool_decide_eq_true_2).
        destruct Hp' as [Hp'|Hp']; rewrite Hp'; [rewrite bool_decide_eq_true_2 by done|rewrite bool_decide_eq_false_2 by done].
        -- rewrite <- (mutex_held _ _ t _ (ri_mutex0 k Hj) Ht). apply mutex_keep; [by apply ri_mutex0|]. unfold holds. by rewrite Hp, Hp'.
        -- eapply mutex_release; [by apply ri_mutex0|done|]. unfold holds. by rewrite Hp'.
      * pose proof (ri_mutex0 k Hj) as Hm. rewrite Hf in Hm. destruct Hp' as [Hp'|Hp']; rewrite Hp'; [rewrite bool_decide_eq_true_2 by done|rewrite bool_decide_eq_false_2 by done].
        -- by apply mutex_acquire.
        -- apply mutex_keep; [done|]. unfold holds. by rewrite Hp, Hp'.
    + rewrite fn_lookup_insert_ne by done. apply mutex_keep; [by apply ri_mutex0|]. unfold holds.
      rewrite !bool_decide_eq_false_2; [done|destruct Hp as [->|[-> _]]; congruence|destruct Hp' as [->| ->]; congruence].
  - intros j Hj. rewrite Hcl. destruct (decide (j = k)) as [->|]; [rewrite fn_lookup_insert|rewrite fn_lookup_insert_ne by done; auto].
    rewrite Hmx. intros Hn%bool_decide_eq_false_1. destruct Hp' as [?|?]; [done|auto].
  - intros j Hj. rewrite Hcl. destruct (decide (j = k)) as [->|]; [rewrite fn_lookup_insert|rewrite fn_lookup_insert_ne by done; auto].
    destruct Hp' as [Hp'|Hp']; [|by exists None, None; apply Hok].
    pose proof (pc_ok_client s' p' k Hp' Hpc) as Hx. by rewrite Hcl, fn_lookup_insert in Hx.
  - intros u. thread_cases u t; [done|]. apply (pc_ok_grows s); [done| |apply ri_pc0].
    intros j Hj. rewrite Hcl. rewrite fn_lookup_insert_ne; [done|]. intros ->. by apply (Hother u).
  - eapply Forall_impl; [done|]. intros e. by apply asked_grows.
Qed.

(** A thread acts on the service or on itself. *)
Lemma service_step m s g t p' s' :
  rpc_inv m s g -> holder p' = holder (g t) -> clients s' = clients s ->
  response_transmitter_ (service s') = response_transmitter_ (service s) -> requests s' = requests s ->
  Forall (fun e => answered s e.1 e.2) (responses s') -> Forall (fun e => asked s e.2 e.1) (tasks_ (service s')) -> pc_ok s p' ->
  rpc_inv (m + 1) s' (<[t := p']> g).
Proof.
  intros [] Hh Hcl Htx Hrq Hres Htasks Hpc.
  assert (Hg : grows s s') by (intros k; by rewrite Hcl).
  split; rewrite ?Htx; try done.
  - intros k. by rewrite Hcl.
  - intros k Hk. rewrite Hcl. specialize (ri_seq0 k Hk). lia.
  - intros k Hk. rewrite Hcl. apply mutex_keep; [by apply ri_mutex0|]. unfold holds. by rewrite Hh.
  - intros k Hk. rewrite Hcl. auto.
  - intros k Hk. rewrite Hcl. auto.
  - intros u. thread_cases u t; (apply (pc_ok_grows s); [done|intros; by rewrite Hcl|]); [done|apply ri_pc0].
  - rewrite Hrq. eapply Forall_impl; [done|]. intros e. by apply asked_grows.
  - eapply Forall_impl; [done|]. intros e. by apply answered_grows.
  - eapply Forall_impl; [done|]. intros e. by apply asked_grows.
Qed.

Lemma wire_same i : info_valid i -> wire Hash w0 i = received Hash (MessageInfo_default Hash) i.
Proof.
  intros Hi. destruct (identity_round_trip Hash w0 i (MessageInfo_default Hash) Hi guid0) as (w & Hw & Hs). unfold wire. by rewrite Hw.
Qed.

Lemma asked_wire s info q : asked s info q -> asked s (wire Hash w0 info) q.
Proof.
  intros (Hv & k & i & Hm & Hid & Hs & Hq). rewrite (wire_same info Hv).
  split; [exact Hv|]. by exists k, i.
Qed.

(** A step that changes nothing but the place of a thread outside the clients' mutexes. *)
Lemma idle_step m s g t p' : rpc_inv m s g -> holder p' = holder (g t) -> pc_ok s p' -> rpc_inv (m + 1) s (<[t := p']> g).
Proof. intros Hi Hh Hp. pose proof Hi as []. by apply (service_step m s g t). Qed.

Lemma start_inv m s g t o :
  rpc_inv m s g -> holder (g t) = None -> rpc_inv (m + 1) (start Hash w0 n s o).1 (<[t := (start Hash w0 n s o).2]> g).
Proof.
  intros Hi Hh. pose proof Hi as [Hsame _ _ _ _ _ _ Hreq Hres Htasks].
  assert (Hm : forall k, (k < n)%nat -> IsInit (clients s k) = true -> member k).
  { intros k Hk Hin. split; [done|]. destruct (Hsame k). congruence. }
  destruct o as [k q cb sync|k i|i| |]; cbn [start fst snd].
  - apply idle_step; [done| |]; case_decide; [|done| |done]; (destruct (IsInit (clients s k)) eqn:E; [|by destruct sync]); cbn; auto.
  - apply idle_step; [done| |]; case_decide; try done; destruct (responses s !! i) as [[info v]|] eqn:Hr; try done; destruct (IsInit (clients s k)) eqn:E; try done.
    split; [by apply Hm|]. destruct (proj1 (Forall_lookup _ _) Hres _ _ Hr) as (q & Ha & ?). exists q. split; [by apply asked_wire|done].
  - apply idle_step; [done| |]; destruct (requests s !! i) as [[info q]|] eqn:Hr; try done; destruct (svc_IsInit (service s)); try done.
    apply asked_wire. exact (proj1 (Forall_lookup _ _) Hreq _ _ Hr).
  - by apply (service_step m s g t).
  - by apply (service_step m s g t).
Qed.

Lemma fresh_writer k : member k -> length (id_data (writer_id_ (cs k))) = ID_SIZE.
Proof. intros [Hk Hi]. by apply fresh_clients. Qed.

Lemma SendRequest_inv m s g t b :
  rpc_inv m s g -> Z.of_nat m < two64 - 1 ->
  rpc_inv (m + 1) (SendRequest_step Hash s (g t) b).1 (<[t := (SendRequest_step Hash s (g t) b).2]> g).
Proof.
  intros Hi Hm. pose proof Hi as [Hsame Hseq Hmx Hcl _ Hpc _ Hreq Hres _]. specialize (Hpc t). destruct (g t) as [| | |k q cb sync|k info cb sync|k f| | | | | | | | | | | | | |] eqn:Ht;
    try (by apply idle_step; rewrite ?Ht); cbn [SendRequest_step].
  - destruct (pending_requests_mutex_ (clients s k)) eqn:Hf; [by apply idle_step; rewrite ?Ht|].
    cbn in Hpc. pose proof (Hseq k Hpc) as Hs. destruct (Hsame k) as [Hw Hin].
    destruct (AsyncSendRequest_transmit_ok answer (with_mutex (clients s k) true) q) as (H1 & H2 & H3);
      [apply client_ok_mutex; by apply Hcl|change (IsInit (clients s k) = true); destruct Hpc; congruence|cbn; lia|].
    destruct (AsyncSendRequest_transmit (with_mutex (clients s k) true) q) as [c o] eqn:Hc. cbn [fst snd] in *. subst o. cbn [from_option fst].
    assert (Hc1 : same_client (clients s k) c /\ sequence_number_ c = sequence_number_ (clients s k) + 1 /\ pending_requests_mutex_ c = true).
    { unfold AsyncSendRequest_transmit in Hc. cbn in Hc. rewrite u64_small in Hc by (pose proof (co_seq _ _ _ _ (Hcl k Hpc Hf)); lia).
      destruct (request_transmitter_ (clients s k)); injection Hc as <-; by unfold same_client, IsInit. }
    destruct Hc1 as (Hc1 & Hc2 & Hc3). cbn in H3.
    set (info := MessageInfo_new _ _ _).
    assert (Hnew : asked (put_request (upd_client s k c) (Some (info, q))) info q).
    { split.
      - unfold info_valid, info, MessageInfo_new; cbn. rewrite Hw. split; [by apply fresh_writer|]. split; [|by apply fresh_writer].
        pose proof (co_seq _ _ _ _ (Hcl k Hpc Hf)). lia.
      - exists k, (length (sent (clients s k))). split; [done|]. cbn. rewrite Hw, fn_lookup_insert, H3. split; [done|].
        split; [by rewrite (co_seq _ _ _ _ (Hcl k Hpc Hf))|]. by apply list_lookup_middle. }
    assert (Hg : grows s (put_request (upd_client s k c) (Some (info, q)))).
    { intros j. cbn. destruct (decide (j = k)) as [->|]; [rewrite fn_lookup_insert, H3; by apply prefix_app_r|by rewrite fn_lookup_insert_ne]. }
    apply (client_step m s g t _ _ k c); try done.
    + rewrite Ht. by right.
    + by left.
    + lia.
    + rewrite H3. by apply prefix_app_r.
    + cbn. by rewrite bool_decide_eq_true_2.
    + cbn. rewrite fn_lookup_insert. split; [done|exact H1].
    + cbn [put_request upd_client requests option_list]. apply Forall_app. split; [|by constructor].
      eapply Forall_impl; [exact Hreq|]. intros e. by apply asked_grows.
    + eapply Forall_impl; [exact Hres|]. intros e. by apply answered_grows.
  - destruct Hpc as [Hk Hc]. destruct (AsyncSendRequest_insert_ok answer _ info cb Hc) as (H1 & _ & _).
    destruct (AsyncSendRequest_insert (clients s k) info cb) as [c f] eqn:E. unfold AsyncSendRequest_insert in E. injection E as <- <-. cbn [fst snd] in *.
    assert (Hg : forall c', sent c' = sent (clients s k) -> grows s (upd_client s k c')).
    { intros c' Hs j. cbn. destruct (decide (j = k)) as [->|]; [by rewrite fn_lookup_insert, Hs|by rewrite fn_lookup_insert_ne]. }
    eapply (client_step m s g t _ _ k); [done|done| | |reflexivity|done|..].
    + rewrite Ht. by left.
    + right. by destruct sync.
    + done.
    + cbn. specialize (Hseq k Hk). lia.
    + done.
    + cbn. rewrite bool_decide_eq_false_2; [done|by destruct sync].
    + intros _. apply client_ok_mutex, H1.
    + by destruct sync.
    + eapply Forall_impl; [exact Hreq|]. intros e. by apply asked_grows, Hg.
    + eapply Forall_impl; [exact Hres|]. intros e. by apply answered_grows, Hg.
  - destruct (ready _ _); [|destruct b]; by apply idle_step; rewrite ?Ht.
Qed.

(** A response that carries the id of a client answers one of its requests. *)
Lemma answered_own m s g k info v b :
  rpc_inv m s g -> member k -> answered s info v ->
  Identity_eqb (spare_id_ info) (writer_id_ (clients s k)) = true -> answers answer (with_mutex (clients s k) b) v info.
Proof.
  intros [Hsame _ _ _ _ _ _ _ _ _] [Hk Hi] (q & (_ & j & i & [Hj Hij] & Hid & Hs & Hq) & Ha) He%bool_decide_eq_true_1.
  destruct (Hsame k) as [Hw _]. rewrite Hw in He. assert (j = k) as -> by (apply distinct_ids; congruence). by exists i, q.
Qed.

Lemma HandleResponse_inv m s g t :
  rpc_inv m s g -> rpc_inv (m + 1) (HandleResponse_step s (g t)).1 (<[t := (HandleResponse_step s (g t)).2]> g).
Proof.
  intros Hi. pose proof Hi as [Hsame Hseq Hmx Hcl _ Hpc _ Hreq Hres _]. specialize (Hpc t).
  assert (Hlift : forall k c' p', member k -> holder (g t) = Some k \/ (holder (g t) = None /\ pending_requests_mutex_ (clients s k) = false) ->
    holder p' = Some k \/ holder p' = None -> same_client (clients s k) c' -> sequence_number_ c' = sequence_number_ (clients s k) -> sent c' = sent (clients s k) ->
    pending_requests_mutex_ c' = bool_decide (holder p' = Some k) -> (holder p' = None -> client_ok c' None None) -> pc_ok (upd_client s k c') p' ->
    rpc_inv (m + 1) (upd_client s k c') (<[t := p']> g)).
  { intros k c' p' Hk Hp Hp' Hc Hsq Hst Hb Hn Hok.
    assert (Hg : grows s (upd_client s k c')).
    { intros j. cbn. destruct (decide (j = k)) as [->|]; [by rewrite fn_lookup_insert, Hst|by rewrite fn_lookup_insert_ne]. }
    apply (client_step m s g t _ _ k c'); try done.
    - rewrite Hsq. specialize (Hseq k Hk). lia.
    - by rewrite Hst.
    - eapply Forall_impl; [exact Hreq|]. intros e. by apply asked_grows.
    - eapply Forall_impl; [exact Hres|]. intros e. by apply answered_grows. }
  destruct (g t) as [| | | | | |k info v|k f cb|k q|k| | | | | | | | | |] eqn:Ht; try (by apply idle_step; rewrite ?Ht); cbn [HandleResponse_step].
  - destruct (pending_requests_mutex_ (clients s k)) eqn:Hf; [by apply idle_step; rewrite ?Ht|].
    destruct Hpc as [Hk Ha]. pose proof (Hcl k Hk Hf) as Hok.
    pose proof (HandleResponse_ok answer (with_mutex (clients s k) true) v info (proj2 (client_ok_mutex _ _ _ _ _) Hok) (answered_own m s g k info v true Hi Hk Ha)) as Hr.
    destruct (HandleResponse (with_mutex (clients s k) true) v info) as [c r] eqn:E.
    assert (Hc1 : same_client (clients s k) c /\ sequence_number_ c = sequence_number_ (clients s k) /\ sent c = sent (clients s k) /\ pending_requests_mutex_ c = true).
    { unfold HandleResponse, set_value in E. repeat case_match; simplify_eq; by unfold same_client, IsInit. }
    destruct Hc1 as (Hc1 & Hc2 & Hc3 & Hc4). cbn [fst snd].
    destruct r as [[f cb]|]; (apply Hlift; [done|by right|by left|done..|by rewrite Hc4; cbn; rewrite bool_decide_eq_true_2|done|]); cbn; rewrite fn_lookup_insert.
    + by destruct Hr.
    + destruct Hr as [-> _]. split; [done|]. by apply client_ok_mutex.
  - destruct Hpc as [Hk Hc]. pose proof (call_ok answer _ f Hc) as Hc'.
    assert (pending_requests_mutex_ (clients s k) = true) as Hb.
    { apply (mutex_held (holds k) g t (pending_requests_mutex_ (clients s k)) (Hmx k Hk)). rewrite Ht. by apply bool_decide_eq_true_2. }
    apply Hlift; [done|by left|destruct cb; by left|done..|cbn; rewrite Hb; destruct cb; cbn; by rewrite bool_decide_eq_true_2|by destruct cb|].
    destruct cb; cbn; rewrite fn_lookup_insert; done.
  - assert (pending_requests_mutex_ (clients s k) = true) as ->.
    { destruct Hpc as [Hk _]. apply (mutex_held (holds k) g t (pending_requests_mutex_ (clients s k)) (Hmx k Hk)). rewrite Ht. by apply bool_decide_eq_true_2. }
    by apply idle_step; rewrite ?Ht.
  - destruct Hpc as [Hk Hc]. apply Hlift; [done|by left|by right|done..| |done]. intros _. by apply client_ok_mutex.
Qed.

Lemma Process_inv m s g t b :
  rpc_inv m s g -> rpc_inv (m + 1) (Process_step service_callback_ s (g t) b).1 (<[t := (Process_step service_callback_ s (g t) b).2]> g).
Proof.
  intros Hi. pose proof Hi as [Hsame Hseq Hmx Hcl _ Hpc Hsid Hreq Hres Htasks]. specialize (Hpc t).
  destruct (g t) as [| | | | | | | | | | | | | |q info|info v| | | |] eqn:Ht; try (by apply idle_step; rewrite ?Ht); cbn [Process_step].
  - destruct (is_shutdown s); [apply (service_step m s g t); rewrite ?Ht; done|by apply idle_step; rewrite ?Ht].
  - destruct (negb (inited_ (service s))); [apply (service_step m s g t); rewrite ?Ht; done|].
    destruct (tasks_ (service s)) as [|[q info] l] eqn:Hl; [apply (service_step m s g t); rewrite ?Ht; done|].
    apply Forall_cons in Htasks as [Ha Hl']. apply (service_step m s g t); rewrite ?Ht; done.
  - destruct (_ && _); [by apply idle_step; rewrite ?Ht|]. apply (service_step m s g t); rewrite ?Ht; done.
  - destruct (negb (svc_IsInit (service s))); [by apply idle_step; rewrite ?Ht|].
    destruct (service_handle_request_mutex_ (service s)); [by apply idle_step; rewrite ?Ht|].
    unfold HandleRequest. apply (service_step m s g t); rewrite ?Ht; try done. exists q. split; [exact Hpc|]. by exists (user (service s)).
  - unfold SendResponse. cbn [fst snd]. apply (service_step m s g t); rewrite ?Ht; try done.
    cbn [put_response responses upd_service]. apply Forall_app. split; [exact Hres|].
    destruct (response_transmitter_ (service s)) as [sid|] eqn:Hs; [|by constructor]. destruct (svc_IsInit (service s)); [|by constructor].
    cbn. constructor; [|by constructor]. destruct Hpc as (q & ((V1 & V2 & V3) & Ha) & Hv). exists q. split; [|done]. split; [|done].
    split; [by apply Hsid|]. by split.
Qed.

Lemma destroy_inv m s g t :
  rpc_inv m s g -> rpc_inv (m + 1) (destroy_step s (g t)).1 (<[t := (destroy_step s (g t)).2]> g).
Proof.
  intros Hi. pose proof Hi as [Hsame Hseq Hmx Hcl _ Hpc Hsid Hreq Hres Htasks]. specialize (Hpc t).
  destruct (g t) eqn:Ht; try (by apply idle_step; rewrite ?Ht); cbn [destroy_step].
  - apply (service_step m s g t); rewrite ?Ht; done.
  - apply (service_step m s g t); rewrite ?Ht; done.
  - destruct (thread_ (service s)); [destruct (thread_done (service s))|]; [|by apply idle_step; rewrite ?Ht..].
    apply (service_step m s g t); rewrite ?Ht; done.
Qed.

Lemma tstep_inv m s g t e :
  rpc_inv m s g -> Z.of_nat m < two64 - 1 -> rpc_inv (m + 1) (tstep s (g t) e).1 (<[t := (tstep s (g t) e).2]> g).
Proof.
  intros Hi Hm. pose proof (ri_pc _ _ _ Hi t) as Hpc. destruct e as [o|b].
  - destruct (g t) eqn:Ht; cbn [Service.tstep]; try (apply idle_step; rewrite ?Ht; done); apply start_inv; rewrite ?Ht; done.
  - pose proof (SendRequest_inv m s g t b Hi Hm). pose proof (HandleResponse_inv m s g t Hi). pose proof (Process_inv m s g t b Hi). pose proof (destroy_inv m s g t Hi).
    destruct (g t) eqn:Ht; cbn [Service.tstep]; try done; try (apply idle_step; rewrite ?Ht; done).
    apply (service_step m s g t); rewrite ?Ht; try done; [apply Hi|]. cbn. apply Forall_app. split; [apply Hi|]. by constructor.
Qed.

(** The service has been initialised. *)
Definition ready_service (v : @Service Req U) : Prop :=
  exists name u tx rx, svc_Init (Service_new name u) tx rx = Some (true, v) /\ forall sid, response_transmitter_ v = Some sid -> length (id_data sid) = ID_SIZE.

Lemma fresh_ok k : (k < n)%nat -> client_ok (cs k) None None /\ pending_requests_mutex_ (cs k) = false /\ sent (cs k) = [].
Proof.
  intros Hk. destruct (fresh_clients k Hk) as [(node & name & id0 & tx & rx & ->) _].
  split; [apply Init_ok; [apply client_ok_new|done]|]. unfold Init. by repeat case_match.
Qed.

Lemma init_inv v : ready_service v -> rpc_inv 0 (mkNet cs v [] [] false) (<[0%nat := STop]> (fun _ => Idle)).
Proof.
  intros (name & u & tx & rx & Hv & Hsid).
  assert (Hpc : forall t, (<[0%nat := STop]> (fun _ => Idle) : nat -> pc Req Res) t = STop \/ (<[0%nat := STop]> (fun _ => Idle) : nat -> pc Req Res) t = Idle).
  { intros t. thread_cases t 0%nat; auto. }
  split; cbn; try done.
  - intros k [Hk _]. destruct (fresh_ok k Hk) as (Hc & _ & Hs). rewrite (co_seq _ _ _ _ Hc), Hs. done.
  - intros k [Hk _]. destruct (fresh_ok k Hk) as (_ & -> & _). apply mutex_fresh. intros t. by destruct (Hpc t) as [-> | ->].
  - intros k [Hk _] _. by apply fresh_ok.
  - intros k [Hk _]. exists None, None. by apply fresh_ok.
  - intros t. by destruct (Hpc t) as [-> | ->].
  - cbn in Hv. repeat case_match; simplify_eq; constructor.
Qed.

Lemma reachable_inv v sched :
  ready_service v -> Z.of_nat (length sched) < two64 ->
  let c := exec tstep (sys_init cs v) sched in rpc_inv (length sched) (shared c) (pcs c).
Proof.
  intros Hv Hl. apply (exec_invariant tstep (fun m c => rpc_inv m (shared c) (pcs c)) (Z.to_nat (two64 - 1))); [|by apply init_inv|lia].
  intros m c [t e] Hm Hi. apply tstep_inv; [done|lia].
Qed.

(** C17: whatever the interleaving of calls, deliveries of requests and responses in any order and any
    number of times, timeouts, shutdown and destruction of the service: every future of a client
    gets at most one value, which is what the service's callback made of that very request; its
    callback is called at most once and only with the value there; no promise is set twice. *)
Theorem rpc_own_answers v sched k :
  ready_service v -> Z.of_nat (length sched) < two64 -> (k < n)%nat -> IsInit (cs k) = true ->
  let c := clients (shared (exec tstep (sys_init cs v) sched)) k in
  fault c = false /\
  (forall f w, promises c !! f = Some (Some w) -> exists q, sent c !! f = Some q /\ answer q w) /\
  NoDup (called c) /\ (forall f, f ∈ called c -> exists w, promises c !! f = Some (Some w)).
Proof.
  intros Hv Hl Hk Hi. pose proof (reachable_inv v sched Hv Hl) as Hinv. cbv zeta in Hinv.
  destruct (ri_any _ _ _ Hinv k (conj Hk Hi)) as (busy & calling & Hc).
  split; [apply Hc|]. split; [apply Hc|]. split; [apply Hc|]. intros f Hf. apply (co_set _ _ _ _ Hc). by left.
Qed.

(** No response is lost: when a thread that delivers a response with the id of the client gets the
    client's mutex, the promise of the request with that number exists and has a value after that
    one step; the value is this response if there was none before, and the callback is called next. *)
Theorem rpc_response_completes v sched t k info w b :
  ready_service v -> Z.of_nat (length sched) < two64 ->
  let c := exec tstep (sys_init cs v) sched in
  pcs c t = RLock k info w -> pending_requests_mutex_ (clients (shared c) k) = false ->
  Identity_eqb (spare_id_ info) (writer_id_ (clients (shared c) k)) = true ->
  let c' := exec1 tstep c (t, Step b) in
  exists f x, seq_num_ info = Z.of_nat f + 1 /\ promises (clients (shared c') k) !! f = Some (Some x) /\
    match promises (clients (shared c) k) !! f with
    | Some None => x = w /\ exists cb, pcs c' t = RCallback k f cb
    | y => y = Some (Some x)
    end.
Proof.
  intros Hv Hl c Hpc Hmx Hid. pose proof (reachable_inv v sched Hv Hl) as Hinv. fold c in Hinv. cbv zeta in Hinv.
  pose proof (ri_pc _ _ _ Hinv t) as Hok. rewrite Hpc in Hok. destruct Hok as [Hk Ha]. pose proof (ri_client _ _ _ Hinv k Hk Hmx) as Hc.
  pose proof (HandleResponse_ok answer (with_mutex (clients (shared c) k) true) w info (proj2 (client_ok_mutex _ _ _ _ _) Hc)
    (answered_own _ _ _ k info w true Hinv Hk Ha)) as Hr.
  cbv zeta. unfold exec1. cbn [fst snd]. rewrite Hpc. cbn [Service.tstep HandleResponse_step]. rewrite Hmx.
  destruct (HandleResponse _ w info) as [c' [[f cb]|]]; cbn [shared pcs fst snd upd_client clients]; rewrite !fn_lookup_insert.
  - destruct Hr as (_ & Hs & _ & Hp & Hn). cbn [promises with_mutex] in Hp, Hn. exists f, w. rewrite Hp, Hn. split; [done|].
    split; [apply list_lookup_insert_eq; by eapply lookup_lt_Some|]. split; [done|by exists cb].
  - destruct Hr as [-> Hr]. destruct (Hr Hid) as (f & x & Hs & Hx). cbn [promises with_mutex] in *. exists f, x. by rewrite Hx.
Qed.
End Rpc.

(** ** The thread of the service *)

(** The places of [Process]. *)
Definition processing {Req Res} (p : pc Req Res) : bool :=
  match p with STop | SLock | SBlocked | SRun _ _ | SSend _ _ | SEnd => true | _ => false end.
Definition sending {Req Res} (p : pc Req Res) : bool := if p is SSend _ _ then true else false.
Definition ended {Req Res} (p : pc Req Res) : bool := if p is SEnd then true else false.
Definition destroying {Req Res} (p : pc Req Res) : bool := match p with DClear | DNotify | DJoin => true | _ => false end.
Definition unnotified {Req Res} (p : pc Req Res) : bool := match p with DClear | DNotify => true | _ => false end.

Section Thread.
Context {Req Res U : Type} (service_callback_ : U -> Req -> Res * U).
Context (Hash : bytes -> Z) (w0 : SampleIdentity) (n : nat) (cs : nat -> @Client Req Res).
Implicit Types (s : net Req Res U) (p : pc Req Res) (g : nat -> pc Req Res).

Abbreviation answer := (answer service_callback_).
Abbreviation tstep := (tstep service_callback_ Hash w0 n).

Record thread_inv s g : Prop := {
  ti_init : svc_IsInit (service s) = true;
  ti_tx : is_Some (response_transmitter_ (service s));
  ti_mutex : service_handle_request_mutex_ (service s) = sending (g 0%nat);
  ti_done : thread_done (service s) = ended (g 0%nat);
  ti_self : processing (g 0%nat) = true;
  ti_other : forall t, t <> 0%nat -> processing (g t) = false;
  ti_wait : waiting (service s) = true -> tasks_ (service s) = [] /\ (inited_ (service s) = true \/ exists t, unnotified (g t) = true);
  ti_destroy : forall t, destroying (g t) = true -> inited_ (service s) = false;
  ti_join : forall t, g t = DJoin -> waiting (service s) = false;
  ti_end : ended (g 0%nat) = true -> inited_ (service s) = false \/ is_shutdown s = true
}.

Lemma thread_inv_init v : ready_service v -> thread_inv (mkNet cs v [] [] false) (<[0%nat := STop]> (fun _ => Idle)).
Proof.
  intros (name & u & tx & rx & Hv & _). unfold svc_Init in Hv. cbn in Hv. repeat case_match; simplify_eq.
  split; cbn; rewrite ?fn_lookup_insert; try done.
  - intros t Ht. by rewrite fn_lookup_insert_ne.
  - intros t. thread_cases t 0%nat; done.
Qed.

Lemma thread_inv_ext s g g' : (forall t, g' t = g t) -> thread_inv s g -> thread_inv s g'.
Proof.
  intros He []. split; rewrite ?He; try done.
  - intros t. rewrite He. auto.
  - intros Hw. destruct (ti_wait0 Hw) as [? [?|[u ?]]]; (split; [done|]); [by left|right; exists u; by rewrite He].
  - intros t. rewrite He. apply ti_destroy0.
  - intros t. rewrite He. apply ti_join0.
Qed.

(** A step of a thread other than the service's, which leaves the service alone. *)
Lemma thread_inv_aside s g t p' s' :
  thread_inv s g -> t <> 0%nat -> processing p' = false -> unnotified p' = unnotified (g t) -> (destroying p' = true -> destroying (g t) = true) -> (p' = DJoin -> g t = DJoin) ->
  service s' = service s -> (is_shutdown s = true -> is_shutdown s' = true) -> thread_inv s' (<[t := p']> g).
Proof.
  intros [] Ht Hp Hu Hd Hj Hs Hsh. split; rewrite ?Hs, ?fn_lookup_insert_ne by done; try done.
  - intros u Hu0. thread_cases u t; auto.
  - intros Hw. destruct (ti_wait0 Hw) as [? [?|[u Hu0]]]; [by split; [|left]|]. split; [done|right]. exists u. thread_cases u t; [congruence|done].
  - intros u. thread_cases u t; [intros Hx; by apply (ti_destroy0 t), Hd|apply ti_destroy0].
  - intros u. thread_cases u t; [intros ->; by eapply ti_join0, Hj|apply ti_join0].
  - intros He. destruct (ti_end0 He); auto.
Qed.

Lemma thread_inv_process s g b :
  thread_inv s g -> let r := Process_step service_callback_ s (g 0%nat) b in thread_inv r.1 (<[0%nat := r.2]> g).
Proof.
  intros Hi. pose proof Hi as []. cbv zeta.
  assert (Hlift : forall s' p', processing p' = true -> is_shutdown s' = is_shutdown s ->
    let v' := service s' in svc_IsInit v' = true -> is_Some (response_transmitter_ v') -> inited_ v' = inited_ (service s) ->
    service_handle_request_mutex_ v' = sending p' -> thread_done v' = ended p' ->
    (waiting v' = true -> (waiting (service s) = true /\ tasks_ v' = tasks_ (service s)) \/ (tasks_ v' = [] /\ inited_ v' = true)) ->
    (ended p' = true -> inited_ v' = false \/ is_shutdown s' = true) -> thread_inv s' (<[0%nat := p']> g)).
  { intros s' p' Hp Hsh v' H1 H2 H3 H4 H5 H6 H7. split; rewrite ?fn_lookup_insert; try done.
    - intros t Ht. rewrite fn_lookup_insert_ne by done. auto.
    - intros Hw. destruct (H6 Hw) as [[Hw' Ht]|[Ht Hin]]; [|by split; [|left]]. fold v'. rewrite Ht, H3. destruct (ti_wait0 Hw') as [? [?|[u Hu]]]; [by split; [|left]|].
      split; [done|right]. exists u. rewrite fn_lookup_insert_ne; [done|]. intros <-. by destruct (g 0%nat).
    - intros t. fold v'. rewrite H3. thread_cases t 0%nat; [by destruct p'|apply ti_destroy0].
    - intros t. thread_cases t 0%nat; [intros ->; done|]. intros Hj. destruct (waiting (service s')) eqn:Hw; [|done].
      destruct (H6 Hw) as [[Hw' _]|[_ Hin]]; [by rewrite (ti_join0 t Hj) in Hw'|]. rewrite H3, (ti_destroy0 t) in Hin; [done|by rewrite Hj]. }
  destruct (g 0%nat) as [| | | | | | | | | | | | | |q info|info w| | | |] eqn:Hg; try done; cbn [Process_step].
  - destruct (is_shutdown s) eqn:Hs; apply Hlift; try done; auto.
  - destruct (inited_ (service s)) eqn:Hin; cbn [negb]; [|apply Hlift; cbn; auto].
    destruct (tasks_ (service s)) as [|[q info] l] eqn:Hl; apply Hlift; cbn; try done; auto.
    intros Hw. destruct (ti_wait0 Hw). done.
  - destruct (_ && _); apply Hlift; cbn; try done; auto.
  - rewrite ti_init0, ti_mutex0. cbn [negb]. unfold HandleRequest. apply Hlift; cbn; try done; auto.
  - unfold SendResponse. apply Hlift; cbn; try done; auto.
  - apply Hlift; try done; auto.
Qed.

Lemma thread_inv_step s g t e :
  thread_inv s g -> thread_inv (tstep s (g t) e).1 (<[t := (tstep s (g t) e).2]> g).
Proof.
  intros Hi. destruct (decide (t = 0%nat)) as [->|Ht].
  { pose proof (ti_self _ _ Hi) as Hp. destruct e as [o|b].
    - assert (tstep s (g 0%nat) (Start o) = (s, g 0%nat)) as -> by (by destruct (g 0%nat)).
      apply (thread_inv_ext s g); [|done]. intros t. cbn. thread_cases t 0%nat; done.
    - pose proof (thread_inv_process s g b Hi) as Hx. by destruct (g 0%nat) eqn:Hg. }
  pose proof (ti_other _ _ Hi t Ht) as Hp.
  assert (Hsv : forall v' p', processing p' = false -> (p' = DJoin -> waiting v' = false) ->
    svc_IsInit v' = svc_IsInit (service s) -> response_transmitter_ v' = response_transmitter_ (service s) ->
    service_handle_request_mutex_ v' = service_handle_request_mutex_ (service s) -> thread_done v' = thread_done (service s) ->
    (inited_ v' = inited_ (service s) \/ inited_ v' = false) -> (destroying p' = true -> inited_ v' = false) ->
    (waiting v' = true -> waiting (service s) = true /\ (tasks_ v' = tasks_ (service s) \/ tasks_ v' = []) /\
       (unnotified p' = true \/ (inited_ v' = inited_ (service s) /\ unnotified (g t) = false))) ->
    thread_inv (upd_service s v') (<[t := p']> g)).
  { intros v' p' H0 Hj H1 H2 H3 H4 H5 H6 H7. pose proof Hi as []. split; cbn; rewrite ?H1, ?H2, ?H3, ?H4, ?fn_lookup_insert_ne by done; try done.
    - intros u Hu. thread_cases u t; auto.
    - intros Hw. destruct (H7 Hw) as (Hw' & Htk & Hc). destruct (ti_wait0 Hw') as [Hnil Hor]. split; [destruct Htk; congruence|].
      destruct Hc as [Hu|[Heq Hu]]; [right; exists t; by rewrite fn_lookup_insert|]. destruct Hor as [?|[u Huu]]; [left; congruence|].
      right. exists u. thread_cases u t; [congruence|done].
    - intros u. thread_cases u t; [done|]. intros Hd. destruct H5 as [->|?]; [by apply (ti_destroy0 u)|done].
    - intros u. thread_cases u t; [done|]. intros Hju. destruct (waiting v') eqn:Hw; [|done]. destruct (H7 eq_refl) as [Hw' _]. by rewrite (ti_join0 u Hju) in Hw'.
    - intros He. destruct (ti_end0 He) as [?|?]; [left; destruct H5; congruence|by right]. }
  assert (Hsame : forall p', processing p' = false -> unnotified p' = unnotified (g t) -> (destroying p' = true -> destroying (g t) = true) -> (p' = DJoin -> g t = DJoin) ->
    thread_inv s (<[t := p']> g)) by (intros; by apply (thread_inv_aside s g t)).
  destruct (g t) as [| | |k q cb sync|k info cb sync|k f|k info v|k f cb|k q|k|info q| | | | | | | | |] eqn:Hg; try done; destruct e as [o|b]; cbn [Service.tstep]; try (by apply Hsame).
  1-3: destruct o as [k' q' cb' sync'|k' i'|i'| |]; cbn [start fst snd]; repeat case_match; try (by apply Hsame);
    first [by apply (thread_inv_aside s g t); rewrite ?Hg | apply Hsv; cbn; try done; auto; intros; split_and!; auto].
  all: cbn [SendRequest_step HandleResponse_step destroy_step].
  - destruct (pending_requests_mutex_ _); [by apply Hsame|]. destruct (AsyncSendRequest_transmit _ _). by apply (thread_inv_aside s g t); rewrite ?Hg.
  - destruct (AsyncSendRequest_insert _ _ _). by apply (thread_inv_aside s g t); rewrite ?Hg; destruct sync.
  - destruct (ready _ _); [|destruct b]; by apply Hsame.
  - destruct (pending_requests_mutex_ _); [by apply Hsame|]. destruct (HandleResponse _ _ _) as [c [[f cb]|]]; by apply (thread_inv_aside s g t); rewrite ?Hg.
  - apply (thread_inv_aside s g t); rewrite ?Hg; destruct cb; done.
  - destruct (pending_requests_mutex_ _); by apply Hsame.
  - by apply (thread_inv_aside s g t); rewrite ?Hg.
  - apply Hsv; cbn; try done; auto.
  - apply Hsv; cbn; try done; auto. intros _. apply (ti_destroy _ _ Hi t). by rewrite Hg.
  - apply Hsv; cbn; try done; auto. intros _. apply (ti_destroy _ _ Hi t). by rewrite Hg.
  - destruct (thread_ (service s)); [|by apply Hsame]. destruct (thread_done (service s)) eqn:Hd; [|by apply Hsame].
    apply Hsv; cbn; try done; auto.
Qed.

Lemma thread_reachable v sched :
  ready_service v -> let c := exec tstep (sys_init cs v) sched in thread_inv (shared c) (pcs c).
Proof.
  intros Hv. apply (exec_invariant tstep (fun _ c => thread_inv (shared c) (pcs c)) (length sched)); [|by apply thread_inv_init|done].
  intros m c [t e] _ Hi. by apply thread_inv_step.
Qed.
End Thread.

Section Progress.
Context {Req Res U : Type} (service_callback_ : U -> Req -> Res * U).
Context (Hash : bytes -> Z) (w0 : SampleIdentity) (n : nat) (cs : nat -> @Client Req Res).
Implicit Types (s : net Req Res U) (p : pc Req Res).

Abbreviation answer := (answer service_callback_).
Abbreviation tstep := (tstep service_callback_ Hash w0 n).
Abbreviation Process_step := (Process_step service_callback_).

(** The thread of the service alone, without spurious wake-ups. *)
Fixpoint alone (m : nat) (x : net Req Res U * pc Req Res) : net Req Res U * pc Req Res :=
  match m with O => x | S m => alone m (Process_step x.1 x.2 false) end.

Definition solo (m : nat) : list (nat * ev Req) := replicate m (0%nat, Step false).

Lemma alone_exec m c :
  processing (pcs c 0%nat) = true ->
  let c' := exec tstep c (solo m) in
  (shared c', pcs c' 0%nat) = alone m (shared c, pcs c 0%nat) /\ forall t, t <> 0%nat -> pcs c' t = pcs c t.
Proof.
  revert c. induction m as [|m IH]; intros c Hp; [done|]. cbn [solo replicate alone fst snd].
  assert (Hs : tstep (shared c) (pcs c 0%nat) (Step false) = Process_step (shared c) (pcs c 0%nat) false) by (by destruct (pcs c 0%nat)).
  change (exec tstep c ((0%nat, Step false) :: replicate m (0%nat, Step false))) with (exec tstep (exec1 tstep c (0%nat, Step false)) (solo m)).
  destruct (IH (exec1 tstep c (0%nat, Step false))) as [H1 H2].
  { unfold exec1. cbn [fst snd pcs]. rewrite fn_lookup_insert, Hs. destruct (pcs c 0%nat); try done; cbn [Service.Process_step]; repeat case_match; done. }
  split.
  - cbv zeta. rewrite H1. cbn [exec1 shared pcs fst snd]. rewrite fn_lookup_insert, Hs. by destruct (Process_step _ _ _).
  - intros t Ht. rewrite H2 by done. unfold exec1. cbn [fst snd pcs]. by rewrite fn_lookup_insert_ne.
Qed.

(** The service is up and its thread at the top of the loop. *)
Record up s : Prop := {
  up_live : is_shutdown s = false;
  up_init : svc_IsInit (service s) = true;
  up_inited : inited_ (service s) = true;
  up_tx : is_Some (response_transmitter_ (service s));
  up_mutex : service_handle_request_mutex_ (service s) = false
}.

(** A response to a queued request: its number and spare id, and an answer. *)
Definition reply (task : Req * MessageInfo) (r : MessageInfo * Res) : Prop :=
  seq_num_ r.1 = seq_num_ task.2 /\ spare_id_ r.1 = spare_id_ task.2 /\ answer task.1 r.2.

Lemma serve s q info l :
  up s -> tasks_ (service s) = (q, info) :: l ->
  exists s' r, alone 3 (s, SLock) = (s', STop) /\ up s' /\ tasks_ (service s') = l /\ responses s' = responses s ++ [r] /\ reply (q, info) r.
Proof.
  intros [] Hl. destruct up_tx0 as [sid Hs]. unfold svc_IsInit in up_init0.
  assert (Process_step s SLock false = (upd_service s (svc_tasks (service s) (waiting (service s)) l), SRun q info)) as E1.
  { cbn. by rewrite up_inited0, Hl. }
  set (s1 := upd_service s _) in E1. set (r := service_callback_ (user (service s)) q).
  assert (Process_step s1 (SRun q info) false = (upd_service s1 (svc_user (service s1) true r.2), SSend info r.1)) as E2.
  { cbn. unfold svc_IsInit. cbn. by rewrite up_init0, up_mutex0. }
  set (s2 := upd_service s1 _) in E2.
  assert (Process_step s2 (SSend info r.1) false =
    (put_response (upd_service s2 (svc_user (service s2) false r.2)) (Some (mkInfo sid (channel_id_ info) (seq_num_ info) (spare_id_ info), r.1)), STop)) as E3.
  { cbn. unfold SendResponse, svc_IsInit. cbn. by rewrite up_init0, Hs. }
  cbn [alone fst snd]. rewrite E1. cbn [fst snd]. rewrite E2. cbn [fst snd]. rewrite E3.
  eexists _, _. split; [reflexivity|]. split; [split; cbn; try done; by rewrite Hs|]. do 2 (split; [done|]). split; [done|]. split; [done|]. by exists (user (service s)).
Qed.

Lemma serve_all l s :
  up s -> tasks_ (service s) = l ->
  exists s' rs, alone (4 * length l) (s, STop) = (s', STop) /\ tasks_ (service s') = [] /\ responses s' = responses s ++ rs /\ Forall2 reply l rs.
Proof.
  revert s. induction l as [|[q info] l IH]; intros s Hup Hl; [exists s, []; by rewrite app_nil_r|].
  destruct (serve s q info l Hup Hl) as (s1 & r & Ha & Hup1 & Hl1 & Hr1 & Hre).
  destruct (IH s1 Hup1 Hl1) as (s' & rs & Hb & Ht & Hr & Hf).
  exists s', (r :: rs). split.
  - replace (4 * length ((q, info) :: l))%nat with (S (3 + 4 * length l))%nat by (cbn [length]; lia).
    cbn [alone fst snd]. assert (Process_step s STop false = (s, SLock)) as ->. { cbn. by rewrite (up_live _ Hup). }
    rewrite <- Hb, <- Ha. reflexivity.
  - split; [done|]. split; [by rewrite Hr, Hr1, <- app_assoc|]. by constructor.
Qed.

Lemma alone_add i j x : alone (i + j) x = alone j (alone i x).
Proof. revert x. induction i as [|i IH]; intros x; [done|]. apply IH. Qed.

(** From anywhere in the loop, through the request in hand. *)
Lemma serve_from s p :
  is_shutdown s = false -> svc_IsInit (service s) = true -> inited_ (service s) = true -> is_Some (response_transmitter_ (service s)) ->
  service_handle_request_mutex_ (service s) = sending p -> processing p = true -> ended p = false -> (waiting (service s) = true -> tasks_ (service s) = []) ->
  exists m s' first rs, (m <= 4 * length (tasks_ (service s)) + 2)%nat /\ (alone m (s, p)).1 = s' /\ tasks_ (service s') = [] /\
    responses s' = responses s ++ first ++ rs /\ Forall2 reply (tasks_ (service s)) rs /\
    match p with SRun q info => Forall2 reply [(q, info)] first | SSend info v => exists i, first = [(i, v)] /\ seq_num_ i = seq_num_ info /\ spare_id_ i = spare_id_ info | _ => first = [] end.
Proof.
  intros H1 H2 H3 [sid H4] H5 Hp He Hw. set (l := tasks_ (service s)) in *.
  assert (Hrest : forall i s1 first, alone i (s, p) = (s1, STop) -> (i <= 2)%nat -> up s1 -> tasks_ (service s1) = l -> responses s1 = responses s ++ first ->
    exists m s' rs, (m <= 4 * length l + 2)%nat /\ (alone m (s, p)).1 = s' /\ tasks_ (service s') = [] /\ responses s' = responses s ++ first ++ rs /\ Forall2 reply l rs).
  { intros i s1 first Ha Hi Hup Hl Hr. destruct (serve_all l s1 Hup Hl) as (s' & rs & Hb & Ht & Hr' & Hf).
    exists (i + 4 * length l)%nat, s', rs. split; [lia|]. rewrite alone_add, Ha, Hb. split; [done|]. split; [done|]. split; [by rewrite Hr', Hr, app_assoc|done]. }
  assert (Hidle : l = [] -> match p with SRun _ _ | SSend _ _ => False | _ => True end -> exists m s' first rs, (m <= 4 * length l + 2)%nat /\ (alone m (s, p)).1 = s' /\ tasks_ (service s') = [] /\
    responses s' = responses s ++ first ++ rs /\ Forall2 reply l rs /\ match p with SRun q info => Forall2 reply [(q, info)] first | SSend info v => exists i, first = [(i, v)] /\ seq_num_ i = seq_num_ info /\ spare_id_ i = spare_id_ info | _ => first = [] end).
  { intros Hl Hpc. exists 0%nat, s, [], []. rewrite Hl. cbn. rewrite app_nil_r. split; [lia|]. do 2 (split; [done|]). split; [done|]. split; [constructor|]. by destruct p. }
  assert (Hlock : forall i s1, l <> [] -> alone i (s, p) = (s1, SLock) -> (i <= 1)%nat -> up s1 -> tasks_ (service s1) = l -> responses s1 = responses s ->
    exists m s' rs, (m <= 4 * length l + 2)%nat /\ (alone m (s, p)).1 = s' /\ tasks_ (service s') = [] /\ responses s' = responses s ++ [] ++ rs /\ Forall2 reply l rs).
  { intros i s1 Hne Ha Hi Hup Hl Hr. destruct l as [|[q info] l']; [done|]. destruct (serve s1 q info l' Hup Hl) as (s2 & r & Hb & Hup2 & Hl2 & Hr2 & Hre).
    destruct (serve_all l' s2 Hup2 Hl2) as (s' & rs & Hc & Ht & Hr' & Hf). exists (i + (3 + 4 * length l'))%nat, s', (r :: rs).
    split; [cbn [length]; lia|]. rewrite alone_add, Ha, alone_add, Hb, Hc. split; [done|]. split; [done|]. split; [by rewrite Hr', Hr2, Hr, <- app_assoc|]. by constructor. }
  destruct p as [| | | | | | | | | | | | | |q info|info v| | | |] eqn:Hpe; try done; cbn in H5.
  - destruct (Hrest 0%nat s []) as (m & s' & rs & M1 & M2 & M3 & M4 & M5); [done|lia|by split; rewrite ?H4|done|by rewrite app_nil_r|]. exists m, s', [], rs; by split_and!.
  - destruct (decide (l = [])) as [Hl|Hl]; [by apply Hidle|]. destruct (Hlock 0%nat s) as (m & s' & rs & M1 & M2 & M3 & M4 & M5); [done..|lia|by split; rewrite ?H4|done|done|]. exists m, s', [], rs; by split_and!.
  - destruct (decide (l = [])) as [Hl|Hl]; [by apply Hidle|].
    assert (waiting (service s) = false) as Hwt by (destruct (waiting (service s)); [by destruct Hl; apply Hw|done]).
    destruct (Hlock 1%nat (upd_service s (svc_tasks (service s) false l))) as (m & s' & rs & M1 & M2 & M3 & M4 & M5); [done| |lia|by split; cbn; rewrite ?H4|done|done|exists m, s', [], rs; by split_and!].
    cbn [alone fst snd Service.Process_step]. by rewrite Hwt.
  - set (r := service_callback_ (user (service s)) q). set (resp := (mkInfo sid (channel_id_ info) (seq_num_ info) (spare_id_ info), r.1)). unfold svc_IsInit in H2.
    set (s2 := put_response (upd_service s (svc_user (service s) false r.2)) (Some resp)).
    destruct (Hrest 2%nat s2 [resp]) as (m & s' & rs & M1 & M2 & M3 & M4 & M5); [|lia|by split; cbn; rewrite ?H4|done|done|].
    + cbn. unfold svc_IsInit. cbn. rewrite H2, H5. cbn. unfold SendResponse, svc_IsInit. cbn. by rewrite H2, H4.
    + exists m, s', [resp], rs. split_and!; try done. constructor; [|constructor]. do 2 (split; [done|]). by exists (user (service s)).
  - set (resp := (mkInfo sid (channel_id_ info) (seq_num_ info) (spare_id_ info), v)). unfold svc_IsInit in H2.
    set (s2 := put_response (upd_service s (svc_user (service s) false (user (service s)))) (Some resp)).
    destruct (Hrest 1%nat s2 [resp]) as (m & s' & rs & M1 & M2 & M3 & M4 & M5); [|lia|by split; cbn; rewrite ?H4|done|done|].
    + cbn. unfold SendResponse, svc_IsInit. cbn. by rewrite H2, H4.
    + exists m, s', [resp], rs. split_and!; try done. by eexists.
Qed.
End Progress.

Section Service_theorems.
Context {Req Res U : Type} (service_callback_ : U -> Req -> Res * U).
Context (Hash : bytes -> Z) (w0 : SampleIdentity) (n : nat) (cs : nat -> @Client Req Res).
Abbreviation tstep := (tstep service_callback_ Hash w0 n).

(** C18: no queued request waits for ever: in every reachable state of a service that is up, its thread,
    given four steps per queued request and two more, has emptied the queue and sent, after the
    response in hand, one response per queued request in order, each with the number and the spare id
    of its request and the callback's answer to it, whatever notifications went before. *)
Theorem service_answers_all v sched :
  ready_service v ->
  let c := exec tstep (sys_init cs v) sched in
  let queued := tasks_ (service (shared c)) in
  inited_ (service (shared c)) = true -> is_shutdown (shared c) = false ->
  exists m first rs, (m <= 4 * length queued + 2)%nat /\
    let c' := exec tstep c (solo m) in
    tasks_ (service (shared c')) = [] /\ responses (shared c') = responses (shared c) ++ first ++ rs /\
    Forall2 (reply service_callback_) queued rs /\
    match pcs c 0%nat with
    | SRun q info => Forall2 (reply service_callback_) [(q, info)] first
    | SSend info r => exists i, first = [(i, r)] /\ seq_num_ i = seq_num_ info /\ spare_id_ i = spare_id_ info
    | _ => first = []
    end.
Proof.
  intros Hv c queued Hin Hsh. pose proof (thread_reachable service_callback_ Hash w0 n cs v sched Hv) as Hti. cbv zeta in Hti. fold c in Hti.
  destruct Hti as [T1 T2 T3 T4 T5 T6 T7 T8 T9 T10].
  assert (He : ended (pcs c 0%nat) = false).
  { destruct (ended (pcs c 0%nat)) eqn:He; [|done]. destruct (T10 eq_refl); congruence. }
  destruct (serve_from service_callback_ (shared c) (pcs c 0%nat) Hsh T1 Hin T2 T3 T5 He) as (m & s' & first & rs & M1 & M2 & M3 & M4 & M5 & M6).
  { intros Hw. by apply T7. }
  exists m, first, rs. split; [done|]. destruct (alone_exec service_callback_ Hash w0 n m c T5) as [Ha _].
  cbv zeta. assert (shared (exec tstep c (solo m)) = s') as ->; [|done]. rewrite <- M2, <- Ha. done.
Qed.

(** C19: [destroy] returns: in every reachable state in which a thread has come to the join of
    [destroy], at most five steps of the service's thread (its callback returning) end that thread and
    the next step of the joining thread completes [destroy]. *)
Theorem service_destroy_joins v sched t :
  ready_service v ->
  let c := exec tstep (sys_init cs v) sched in
  pcs c t = DJoin ->
  exists m, (m <= 5)%nat /\
    let c' := exec tstep c (solo m ++ [(t, Step false)]) in
    pcs c' 0%nat = SEnd /\ pcs c' t = Idle /\ thread_ (service (shared c')) = false.
Proof.
  intros Hv c Ht. pose proof (thread_reachable service_callback_ Hash w0 n cs v sched Hv) as Hti. cbv zeta in Hti. fold c in Hti.
  destruct Hti as [T1 T2 T3 T4 T5 T6 T7 T8 T9 T10].
  assert (Hin : inited_ (service (shared c)) = false) by (apply (T8 t); by rewrite Ht).
  assert (Hw : waiting (service (shared c)) = false) by by apply (T9 t).
  assert (Hne : t <> 0%nat) by (intros ->; by rewrite Ht in T5).
  assert (Halone : exists m, (m <= 5)%nat /\ (alone service_callback_ m (shared c, pcs c 0%nat)).2 = SEnd).
  { assert (Htop : forall s, inited_ (service s) = false -> exists m, (m <= 2)%nat /\ (alone service_callback_ m (s, STop)).2 = SEnd).
    { intros s Hs. exists 2%nat. split; [lia|]. cbn. destruct (is_shutdown s); cbn; [done|]. by rewrite Hs. }
    assert (Hvia : forall i s', alone service_callback_ i (shared c, pcs c 0%nat) = (s', STop) -> (i <= 3)%nat -> inited_ (service s') = false ->
      exists m, (m <= 5)%nat /\ (alone service_callback_ m (shared c, pcs c 0%nat)).2 = SEnd).
    { intros i s' Ha Hi Hs. destruct (Htop s' Hs) as (m & Hm & He). exists (i + m)%nat. split; [lia|]. by rewrite alone_add, Ha. }
    unfold svc_IsInit in T1. destruct (pcs c 0%nat) as [| | | | | | | | | | | | | |q info|info r| | | |] eqn:Hp; try done; cbn in T3.
    - by apply (Hvia 0%nat (shared c)); [|lia|].
    - exists 1%nat. split; [lia|]. cbn. by rewrite Hin.
    - exists 2%nat. split; [lia|]. cbn. rewrite Hw. cbn. by rewrite Hin.
    - eapply (Hvia 2%nat); [|lia|]; cbn; unfold svc_IsInit; rewrite ?T1, ?T3; [reflexivity|]. cbn. unfold SendResponse. by destruct (response_transmitter_ _).
    - by eapply (Hvia 1%nat); [reflexivity|lia|].
    - by exists 0%nat; split; [lia|]. }
  destruct Halone as (m & Hm & He). exists m. split; [done|]. cbv zeta. rewrite exec_app.
  destruct (alone_exec service_callback_ Hash w0 n m c T5) as [Ha Hother]. set (c1 := exec tstep c (solo m)) in *.
  rewrite <- Ha in He. cbn [snd] in He. assert (Hd : thread_done (service (shared c1)) = true).
  { assert (Hti : thread_inv (shared c1) (pcs c1)).
    { unfold c1, c. rewrite <- exec_app. by apply thread_reachable. }
    by rewrite (ti_done _ _ Hti), He. }
  assert (Ht1 : pcs c1 t = DJoin) by (by rewrite Hother).
  cbn [exec foldl]. unfold exec1. cbn [fst snd]. rewrite Ht1. cbn [Service.tstep destroy_step]. rewrite Hd.
  destruct (thread_ (service (shared c1))) eqn:Hth; cbn [shared pcs fst snd]; rewrite fn_lookup_insert, fn_lookup_insert_ne by done; done.
Qed.
End Service_theorems.

Section Deadlock.
Context {Req Res U : Type} (service_callback_ : U -> Req -> Res * U).
Context (Hash : bytes -> Z) (w0 : SampleIdentity) (n : nat) (cs : nat -> @Client Req Res).
Abbreviation tstep := (tstep service_callback_ Hash w0 n).
Hypothesis guid0 : length (writer_guid w0) = GUID_SIZE.
Hypothesis fresh_clients : forall k, (k < n)%nat -> fresh_client (cs k).
Hypothesis distinct_ids : forall j k, (j < n)%nat -> (k < n)%nat -> IsInit (cs j) = true -> IsInit (cs k) = true ->
  id_data (writer_id_ (cs j)) = id_data (writer_id_ (cs k)) -> j = k.

(** [HandleResponse] calls the callback with [pending_requests_mutex_] held: a callback that sends
    another request on its client waits for that mutex for ever, and the mutex stays taken. *)
Theorem callback_sending_again_deadlocks v sched sched' t k q :
  ready_service v -> Z.of_nat (length (sched ++ sched')) < two64 ->
  pcs (exec tstep (sys_init cs v) sched) t = RNested k q ->
  let c := exec tstep (sys_init cs v) (sched ++ sched') in
  pcs c t = RNested k q /\ pending_requests_mutex_ (clients (shared c) k) = true.
Proof.
  intros Hv Hl Hp.
  assert (Hheld : forall l, Z.of_nat (length l) < two64 -> pcs (exec tstep (sys_init cs v) l) t = RNested k q ->
    pending_requests_mutex_ (clients (shared (exec tstep (sys_init cs v) l)) k) = true).
  { intros l Hll Hpl. pose proof (reachable_inv service_callback_ Hash w0 n cs guid0 fresh_clients distinct_ids v l Hv Hll) as Hi. cbv zeta in Hi.
    pose proof (ri_pc _ _ _ _ _ _ Hi t) as Hok. rewrite Hpl in Hok. destruct Hok as [Hk _].
    eapply (mutex_held (holds k)); [apply (ri_mutex _ _ _ _ _ _ Hi k Hk)|]. rewrite Hpl. by apply bool_decide_eq_true_2. }
  assert (Hstay : pcs (exec tstep (sys_init cs v) (sched ++ sched')) t = RNested k q).
  { induction sched' as [|e l IH] using rev_ind; [by rewrite app_nil_r|]. rewrite !length_app in Hl. rewrite app_assoc, exec_app. specialize (IH ltac:(rewrite length_app; cbn in Hl; lia)).
    pose proof (Hheld (sched ++ l) ltac:(rewrite length_app; cbn in Hl; lia) IH) as Hm. cbn [exec foldl]. unfold exec1. destruct e as [u e]. cbn [fst snd pcs].
    destruct (decide (u = t)) as [->|Hne]; [rewrite fn_lookup_insert, IH|by rewrite fn_lookup_insert_ne].
    destruct e as [o|b]; [done|]. cbn [Service.tstep HandleResponse_step]. by rewrite Hm. }
  split; [done|by apply Hheld].
Qed.
End Deadlock.

(** After [destroy] the receiver is still there: [Init] returns true and starts nothing, requests are
    queued and never handled.  After an [Init] whose receiver could not be created the thread runs on,
    and the next [Init] assigns to a joinable thread, which terminates the process. *)
Theorem Init_after_destroy {Req U} (s : @Service Req U) tx rx :
  svc_IsInit s = true ->
  let d := destroy_notify (destroy_clear (destroy_flag s)) in svc_Init d tx rx = Some (true, d) /\ inited_ d = false.
Proof. intros Hi. cbv zeta. unfold svc_Init. change (svc_IsInit _) with (svc_IsInit s). by rewrite Hi. Qed.

Theorem Init_twice_terminates {Req U} name (u : U) tx rx sid :
  tx ((name ++ SRV_CHANNEL_RES_SUFFIX)%string) = Some sid ->
  exists s : @Service Req U, svc_Init (Service_new name u) tx (fun _ => false) = Some (false, s) /\ svc_Init s tx rx = None.
Proof. intros Ht. cbn. rewrite Ht. eexists. split; [reflexivity|]. cbn. by rewrite Ht. Qed.

(** ** Two clients of a service that adds a running count to its requests *)
Definition demo_id (b : Byte.byte) : Identity := mkId (replicate 8 b) 0.
Definition demo_svc_hash (b : bytes) : Z := le_value (take 8 b).
Definition demo_w0 : SampleIdentity := mkSample (replicate 16 Byte.x00) 0 0.
Definition demo_client (k : nat) : @Client Z Z :=
  (Init (Client_new "node" "adder" (demo_id Byte.x00)) (fun _ => Some (demo_id (if decide (k = 0%nat) then Byte.x01 else Byte.x02))) (fun _ => true)).2.
Definition demo_callback (u q : Z) : Z * Z := (q + u, u + 1).
Definition demo_service : @Service Z Z := default (Service_new "adder" 0) (snd <$> svc_Init (Service_new "adder" 100) (fun _ => Some (demo_id Byte.x07)) (fun _ => true)).

Lemma demo_ready : ready_service demo_service.
Proof. eexists _, _, (fun _ => Some (demo_id Byte.x07)), (fun _ => true). split; [reflexivity|]. by intros sid [= <-]. Qed.

Lemma demo_fresh k : (k < 2)%nat -> fresh_client (demo_client k).
Proof. intros _. split; [by eexists _, _, _, _, _|]. intros _. cbn. by destruct (decide (k = 0%nat)). Qed.

Lemma demo_distinct j k : (j < 2)%nat -> (k < 2)%nat -> IsInit (demo_client j) = true -> IsInit (demo_client k) = true ->
  id_data (writer_id_ (demo_client j)) = id_data (writer_id_ (demo_client k)) -> j = k.
Proof. intros Hj Hk _ _. cbn. repeat case_decide; cbn; intros; simplify_eq; lia. Qed.

(** Threads 1 and 2 call, on clients 0 and 1; thread 3 delivers both requests; the service answers;
    threads 3 and 4 deliver both responses to client 0, one of them twice. *)
Definition demo_calls : list (nat * ev Z) :=
  [(1, Start (Call 0 5%Z Quiet false)); (2, Start (Call 1 6%Z Quiet true)); (1, Step false); (2, Step false); (1, Step false); (2, Step false);
   (3, Start (DeliverRequest 1)); (3, Step false); (3, Start (DeliverRequest 0)); (3, Step false)]%nat.
Definition demo_serving : list (nat * ev Z) := replicate 9 (0%nat, Step false).
Definition demo_replies : list (nat * ev Z) :=
  [(3, Start (DeliverResponse 0 1)); (4, Start (DeliverResponse 0 1)); (3, Step false); (4, Step false); (3, Step false); (3, Step false);
   (4, Step false); (4, Step false); (3, Start (DeliverResponse 0 0)); (3, Step false); (3, Step false)]%nat.

Abbreviation demo_run := (exec (tstep demo_callback demo_svc_hash demo_w0 2) (sys_init demo_client demo_service)).

Lemma rpc_own_answers_witness :
  let c := clients (shared (demo_run (demo_calls ++ demo_serving ++ demo_replies))) 0%nat in
  promises c = [Some 106] /\ called c = [0%nat] /\ fault c = false /\
  (forall f w, promises c !! f = Some (Some w) -> exists q, sent c !! f = Some q /\ answer demo_callback q w).
Proof.
  pose proof (rpc_own_answers demo_callback demo_svc_hash demo_w0 2 demo_client eq_refl demo_fresh demo_distinct demo_service
    (demo_calls ++ demo_serving ++ demo_replies) 0%nat demo_ready) as H.
  destruct H as (H1 & H2 & _ & _); [vm_compute; reflexivity|lia|reflexivity|].
  split; [vm_compute; reflexivity|]. split; [vm_compute; reflexivity|]. split; [exact H1|exact H2].
Defined.

Lemma rpc_response_completes_witness :
  let c := exec1 (tstep demo_callback demo_svc_hash demo_w0 2) (demo_run (demo_calls ++ demo_serving ++ take 1 demo_replies)) (3%nat, Step false) in
  exists f x, Z.of_nat f + 1 = 1 /\ promises (clients (shared c) 0%nat) !! f = Some (Some x).
Proof.
  pose proof (rpc_response_completes demo_callback demo_svc_hash demo_w0 2 demo_client eq_refl demo_fresh demo_distinct demo_service
    (demo_calls ++ demo_serving ++ take 1 demo_replies) 3%nat 0%nat) as H.
  destruct (H _ _ false demo_ready ltac:(vm_compute; reflexivity) ltac:(vm_compute; reflexivity) ltac:(vm_compute; reflexivity) ltac:(vm_compute; reflexivity)) as (f & x & H1 & H2 & _).
  exists f, x. split; [rewrite <- H1; vm_compute; reflexivity|exact H2].
Defined.

Lemma service_answers_all_witness :
  exists m, tasks_ (service (shared (exec (tstep demo_callback demo_svc_hash demo_w0 2) (demo_run demo_calls) (solo m)))) = [] /\
    length (tasks_ (service (shared (demo_run demo_calls)))) = 2%nat.
Proof.
  destruct (service_answers_all demo_callback demo_svc_hash demo_w0 2 demo_client demo_service demo_calls demo_ready) as (m & first & rs & _ & H & _);
    [vm_compute; reflexivity|vm_compute; reflexivity|].
  exists m. split; [exact H|vm_compute; reflexivity].
Defined.

(** The service blocks in its wait before thread 5 destroys it. *)
Lemma service_destroy_joins_witness :
  exists m, pcs (exec (tstep demo_callback demo_svc_hash demo_w0 2)
      (demo_run [(0, Step false); (0, Step false); (5, Start Destroy); (5, Step false); (5, Step false)]%nat) (solo m ++ [(5%nat, Step false)])) 5%nat = Idle.
Proof.
  destruct (service_destroy_joins demo_callback demo_svc_hash demo_w0 2 demo_client demo_service
    [(0, Step false); (0, Step false); (5, Start Destroy); (5, Step false); (5, Step false)]%nat 5%nat demo_ready) as (m & _ & _ & H & _);
    [vm_compute; reflexivity|]. by exists m.
Defined.
