(* ===== verification/Node.v ===== *)
(** * Nodes, writers and readers: node/writer.h, node/reader.h, node/reader_base.h,
    node/node_channel_impl.h, node/node.h

    A writer owns a hybrid transmitter, the readers of a channel in a process share a hybrid
    receiver.  Both come up in steps: they connect to the changes of the channel manager, take the
    peers the topology has, enable them one after the other and join; from the connection on they
    hear of peers that join and leave.  A message of the topology changes the roles, copies the slots
    that are connected and looks at and calls each of these, in steps of their own, while all the other ends go on: one that is shut down in between is skipped, or called in
    the middle of its shutdown, or after it, through a null pointer ([signal.h]).  The channel managers
    of the processes run, their [Check] passes, and they change together: a message that is published
    arrives at once.  An end is shut down after its [Init] has returned; one that is started again is
    another end.  The topology is the list of roles of the channel managers (ChannelManager), both
    ends are those of Hybrid. *)

From Stdlib Require Import ZArith Lia.
From stdpp Require Import base gmap sets strings functions list.
From S2P Require Import Prelude Role MessageInfo History ListenerHandler Manager ChannelManager Hybrid.

(** A process of the system: its host and number. *)
Definition proc : Type := string * Z.
Definition proc_of (a : RoleAttributes) : proc := (host_ip a, process_id a).

Definition set_attr_id (a : RoleAttributes) (i : Z) : RoleAttributes :=
  mkAttr (host_name_ a) (host_ip_ a) (process_id_ a) (node_name_ a) (node_id_ a) (channel_name_ a) (Role.channel_id_ a) (message_type_ a)
    (proto_desc_ a) (Some i) (qos_profile_ a) (socket_addr_ a) (service_name_ a) (service_id_ a).

(** [Endpoint::Endpoint] on attributes that name host and process. *)
Definition Endpoint_attr (a : RoleAttributes) (i : Z) : RoleAttributes := if id_ a is Some _ then a else set_attr_id a i.

Section Node.
Context {M D : Type} `{!DispatcherOps (M := M) D}.

(** The configuration of the transport, the limit of histories, the identities that are generated,
    and which transports are shut down. *)
Context (config : option CommunicationMode) (limit : option Z) (ident : nat -> Identity) (is_shutdown : proc -> bool).
(** The message type of the system and the listener of a receiver. *)
Context (ty listener : nat).

(** The slot of an end, [true] for writers. *)
Abbreviation slot := (bool * nat)%type.

(** How far the start of an end is, with the peers still to enable; when it has joined or left the roles, which
    slot was found connected and is being called, and which are still to be looked at; how far its end. *)
Inductive phase :=
  | Off | Listening | Got (peers : list RoleAttributes) | Joined | Telling (called : option slot) (slots : list slot)
  | On | Leaving | Parted | Parting (called : option slot) (slots : list slot) | Down.

Record Writer := mkWriter { w_attr : RoleAttributes; w_phase : phase; transmitter_ : option (HybridTransmitter (M := M)) }.

(** [receiver_] points into the map of the process. *)
Record Reader := mkReader { r_attr : RoleAttributes; r_phase : phase; croutine_name_ : string; receiver_ : option (proc * string) }.

(** [conns]: the connections to the change signals, in their order. *)
Record world := mkWorld {
  writers : nat -> Writer;
  readers : nat -> Reader;
  receiver_map_ : gmap (proc * string) (Z * HybridReceiver);
  dispatchers : proc -> OptionalMode -> D;
  routines : gset (proc * string);
  topo_writers : list Role;
  topo_readers : list Role;
  conns : list slot;
  generated : nat
}.

Definition with_writer (w : world) i x := mkWorld (<[i := x]> (writers w)) (readers w) (receiver_map_ w) (dispatchers w) (routines w) (topo_writers w) (topo_readers w) (conns w) (generated w).
Definition with_reader (w : world) j x := mkWorld (writers w) (<[j := x]> (readers w)) (receiver_map_ w) (dispatchers w) (routines w) (topo_writers w) (topo_readers w) (conns w) (generated w).
Definition with_receiver (w : world) k x d := mkWorld (writers w) (readers w) (<[k := x]> (receiver_map_ w)) (<[k.1 := d]> (dispatchers w)) (routines w) (topo_writers w) (topo_readers w) (conns w) (generated w).
Definition with_routines (w : world) r := mkWorld (writers w) (readers w) (receiver_map_ w) (dispatchers w) r (topo_writers w) (topo_readers w) (conns w) (generated w).
Definition with_topo (w : world) a b := mkWorld (writers w) (readers w) (receiver_map_ w) (dispatchers w) (routines w) a b (conns w) (generated w).
Definition with_conns (w : world) c := mkWorld (writers w) (readers w) (receiver_map_ w) (dispatchers w) (routines w) (topo_writers w) (topo_readers w) c (generated w).
Definition generate (w : world) := mkWorld (writers w) (readers w) (receiver_map_ w) (dispatchers w) (routines w) (topo_writers w) (topo_readers w) (conns w) (S (generated w)).

Definition w_set (x : Writer) p t := mkWriter (w_attr x) p t.
Definition r_set (x : Reader) p := mkReader (r_attr x) p (croutine_name_ x) (receiver_ x).

(** ** Peers come and go *)

(** [transmitter_->Enable] and [Disable]; [None] is a call through a null pointer. *)
Definition writer_apply (f : HybridTransmitter -> option HybridTransmitter) (w : world) (i : nat) : option world :=
  t ← transmitter_ (writers w i); t' ← f t; Some (with_writer w i (w_set (writers w i) (w_phase (writers w i)) (Some t'))).

(** [receiver_->Enable] and [Disable], on the dispatchers of the process. *)
Definition reader_apply (f : HybridReceiver -> (OptionalMode -> D) -> HybridReceiver * (OptionalMode -> D)) (w : world) (j : nat) : option world :=
  k ← receiver_ (readers w j); x ← receiver_map_ w !! k; let r := f x.2 (dispatchers w k.1) in Some (with_receiver w k (x.1, r.1) r.2).

(** [OnChannelChange] of a writer or a reader. *)
Definition OnChannelChange (msg : ChangeMsg) (w : world) (e : slot) : option world :=
  let a := role_attr msg in
  if e.1 then
    if decide (role_type msg <> ROLE_READER) then Some w
    else if decide (channel_name a <> channel_name (w_attr (writers w e.2))) then Some w
    else writer_apply (match operate_type msg with OPT_JOIN => fun t => Enable (fun _ => true) t a | OPT_LEAVE => fun t => Disable t a end) w e.2
  else
    if decide (role_type msg <> ROLE_WRITER) then Some w
    else if decide (channel_name a <> channel_name (r_attr (readers w e.2))) then Some w
    else reader_apply (match operate_type msg with OPT_JOIN => fun r d => REnable r d a | OPT_LEAVE => fun r d => RDisable r d a end) w e.2.

(** [DisposeJoin] and [DisposeLeave] of the channel manager. *)
Definition dispose (op : OperateType) (kind : RoleType) (a : RoleAttributes) (w : world) : world :=
  let msg := role_msg op kind 0 a in with_topo w (spec_msg true (topo_writers w) msg) (spec_msg false (topo_readers w) msg).

(** [Signal::operator()] on the copied slots: a slot that was found connected is called, the next one is looked
    at, or the call returns. *)
Definition notify (msg : ChangeMsg) (w : world) (called : option slot) (slots : list slot) : option (world * option (option slot * list slot)) :=
  match called, slots with
  | Some e, _ => w' ← OnChannelChange msg w e; Some (w', Some (None, slots))
  | None, e :: l => Some (w, Some (if bool_decide (e ∈ conns w) then Some e else None, l))
  | None, [] => Some (w, None)
  end.

(** [GetReadersOfChannel] and [GetWritersOfChannel]. *)
Definition of_channel (name : string) (l : list Role) : list RoleAttributes := filter (fun a => channel_name a = name) (attributes <$> l).

(** ** Writers *)
Definition Writer_Init (w : world) (i : nat) : option world :=
  let x := writers w i in
  match w_phase x with
  | Off =>
      if is_shutdown (proc_of (w_attr x)) then Some w
      else
        let v := ident (generated w) in
        let t := HybridTransmitter_new config limit (Endpoint_attr (w_attr x) (HashValue v)) v in
        Some (with_conns (generate (with_writer w i (mkWriter (set_attr_id (w_attr x) (HashValue v)) Listening (Some t)))) (conns w ++ [(true, i)]))
  | _ => Some w
  end.

(** The rest of [Init], and of [Shutdown], whose last step lets the transmitter go. *)
Definition Writer_step (w : world) (i : nat) : option world :=
  let x := writers w i in
  match w_phase x with
  | Listening => Some (with_writer w i (w_set x (Got (of_channel (channel_name (w_attr x)) (topo_readers w))) (transmitter_ x)))
  | Got (a :: l) => w' ← writer_apply (fun t => Enable (fun _ => true) t a) w i; Some (with_writer w' i (w_set (writers w' i) (Got l) (transmitter_ (writers w' i))))
  | Got [] => Some (with_writer (dispose OPT_JOIN ROLE_WRITER (w_attr x) w) i (w_set x Joined (transmitter_ x)))
  | Joined => Some (with_writer w i (w_set x (Telling None (conns w)) (transmitter_ x)))
  | Telling c l =>
      r ← notify (role_msg OPT_JOIN ROLE_WRITER 0 (w_attr x)) w c l;
      let x := writers r.1 i in Some (with_writer r.1 i (w_set x (if r.2 is Some (c, l) then Telling c l else On) (transmitter_ x)))
  | Leaving => Some (with_writer (dispose OPT_LEAVE ROLE_WRITER (w_attr x) w) i (w_set x Parted (transmitter_ x)))
  | Parted => Some (with_writer w i (w_set x (Parting None (conns w)) (transmitter_ x)))
  | Parting c l =>
      r ← notify (role_msg OPT_LEAVE ROLE_WRITER 0 (w_attr x)) w c l;
      let x := writers r.1 i in Some (with_writer r.1 i (if r.2 is Some (c, l) then w_set x (Parting c l) (transmitter_ x) else w_set x Down None))
  | _ => Some w
  end.

Definition Writer_Shutdown (w : world) (i : nat) : option world :=
  let x := writers w i in
  match w_phase x with
  | On => Some (with_conns (with_writer w i (w_set x Leaving (transmitter_ x))) (filter (fun e => e <> (true, i)) (conns w)))
  | _ => Some w
  end.

(** ** Readers *)

(** [ReceiverManager::GetReceiver]; the map keeps a null pointer when the transport is shut down,
    which [Init] goes through. *)
Definition GetReceiver (w : world) (a : RoleAttributes) : option (Z * world) :=
  let k := (proc_of a, channel_name a) in
  match receiver_map_ w !! k with
  | Some x => Some (x.1, w)
  | None =>
      if is_shutdown (proc_of a) then None
      else
        let h := HashValue (ident (generated w)) in
        Some (h, generate (with_receiver w k (h, HybridReceiver_new config (Endpoint_attr a h) ty listener) (dispatchers w k.1)))
  end.

Definition Reader_Init (w : world) (j : nat) : option world :=
  let x := readers w j in
  match r_phase x with
  | Off =>
      let name := (node_name (r_attr x) +:+ "_" +:+ channel_name (r_attr x))%string in
      let p := proc_of (r_attr x) in
      if decide ((p, name) ∈ routines w) then Some (with_reader w j (mkReader (r_attr x) Off name (receiver_ x)))
      else
        r ← GetReceiver (with_routines w ({[(p, name)]} ∪ routines w)) (r_attr x);
        Some (with_conns (with_reader r.2 j (mkReader (set_attr_id (r_attr x) r.1) Listening name (Some (p, channel_name (r_attr x))))) (conns w ++ [(false, j)]))
  | _ => Some w
  end.

Definition Reader_step (w : world) (j : nat) : option world :=
  let x := readers w j in
  match r_phase x with
  | Listening => Some (with_reader w j (r_set x (Got (of_channel (channel_name (r_attr x)) (topo_writers w)))))
  | Got (a :: l) => w' ← reader_apply (fun r d => REnable r d a) w j; Some (with_reader w' j (r_set (readers w' j) (Got l)))
  | Got [] => Some (with_reader (dispose OPT_JOIN ROLE_READER (r_attr x) w) j (r_set x Joined))
  | Joined => Some (with_reader w j (r_set x (Telling None (conns w))))
  | Telling c l =>
      r ← notify (role_msg OPT_JOIN ROLE_READER 0 (r_attr x)) w c l;
      Some (with_reader r.1 j (r_set (readers r.1 j) (if r.2 is Some (c, l) then Telling c l else On)))
  | Leaving => Some (with_reader (dispose OPT_LEAVE ROLE_READER (r_attr x) w) j (r_set x Parted))
  | Parted => Some (with_reader w j (r_set x (Parting None (conns w))))
  | Parting c l =>
      r ← notify (role_msg OPT_LEAVE ROLE_READER 0 (r_attr x)) w c l;
      let x := readers r.1 j in
      Some (if r.2 is Some (c, l) then with_reader r.1 j (r_set x (Parting c l))
            else with_routines (with_reader r.1 j (mkReader (r_attr x) Down (croutine_name_ x) None)) (routines r.1 ∖ {[(proc_of (r_attr x), croutine_name_ x)]}))
  | _ => Some w
  end.

Definition Reader_Shutdown (w : world) (j : nat) : option world :=
  let x := readers w j in
  match r_phase x with
  | On => Some (with_conns (with_reader w j (r_set x Leaving)) (filter (fun e => e <> (false, j)) (conns w)))
  | _ => Some w
  end.

Inductive node_event := WInit (i : nat) | WStep (i : nat) | WShutdown (i : nat) | RInit (j : nat) | RStep (j : nat) | RShutdown (j : nat).

Definition node_step (w : world) (e : node_event) : option world :=
  match e with
  | WInit i => Writer_Init w i | WStep i => Writer_step w i | WShutdown i => Writer_Shutdown w i
  | RInit j => Reader_Init w j | RStep j => Reader_step w j | RShutdown j => Reader_Shutdown w j
  end.

Definition node_run (w : world) (evs : list node_event) : option world := foldl (fun ow e => ow ≫= fun w => node_step w e) (Some w) evs.

Definition world_new (wa ra : nat -> RoleAttributes) (disp : proc -> OptionalMode -> D) : world :=
  mkWorld (fun i => mkWriter (wa i) Off None) (fun j => mkReader (ra j) Off "" None) ∅ disp ∅ [] [] [] 0.

(** ** What an end knows of its peers *)
Abbreviation mode := (obtain_mode config).

Definition same_place (a b : RoleAttributes) : Prop := channel_name a = channel_name b /\ proc_of a = proc_of b.

Lemma peer_place a b c : same_place a b -> peer mode a c = peer mode b c.
Proof. intros [Hc [= Hh Hp]]. unfold peer, GetRelation. by rewrite Hc, Hh, Hp. Qed.

Definition told (op : OperateType) (p : option (OptionalMode * Z)) (s : gset (OptionalMode * Z)) : gset (OptionalMode * Z) :=
  match op with OPT_JOIN => joined p s | OPT_LEAVE => left_by p s end.

Lemma told_twice op p s : told op p (told op p s) = told op p s.
Proof. destruct op, p; cbn; set_solver. Qed.

Definition w_view (w : world) (i : nat) (s : gset (OptionalMode * Z)) : Prop :=
  exists t, transmitter_ (writers w i) = Some t /\ ht_mode t = mode /\ same_place (ht_attr t) (w_attr (writers w i)) /\ tx_ok t s.

Definition r_view (w : world) (j : nat) (s : gset (OptionalMode * Z)) : Prop :=
  exists k x, receiver_ (readers w j) = Some k /\ receiver_map_ w !! k = Some x /\ hr_mode x.2 = mode /\
    same_place (hr_attr x.2) (r_attr (readers w j)) /\ rx_knows x.2 s.

(** [w'] is [w] but for what the transmitters and receivers know; [keep] says what may happen to the
    knowledge of each end. *)
Record upd (w w' : world) : Prop := {
  up_w : forall i, w_attr (writers w' i) = w_attr (writers w i) /\ w_phase (writers w' i) = w_phase (writers w i);
  up_r : forall j, r_attr (readers w' j) = r_attr (readers w j) /\ r_phase (readers w' j) = r_phase (readers w j) /\
    croutine_name_ (readers w' j) = croutine_name_ (readers w j) /\ receiver_ (readers w' j) = receiver_ (readers w j);
  up_map : forall k x, receiver_map_ w' !! k = Some x -> exists y, receiver_map_ w !! k = Some y /\ hr_attr x.2 = hr_attr y.2 /\ hr_mode x.2 = hr_mode y.2;
  up_rest : routines w' = routines w /\ topo_writers w' = topo_writers w /\ topo_readers w' = topo_readers w /\ conns w' = conns w /\ generated w' = generated w
}.

Lemma upd_refl w : upd w w.
Proof. split; eauto 10. Qed.

Lemma upd_trans w1 w2 w3 : upd w1 w2 -> upd w2 w3 -> upd w1 w3.
Proof.
  intros [A1 A2 A3 (A4 & A5 & A6 & A7 & A8)] [B1 B2 B3 (B4 & B5 & B6 & B7 & B8)]. split.
  - intros i. destruct (A1 i), (B1 i). split; congruence.
  - intros j. destruct (A2 j) as (?&?&?&?), (B2 j) as (?&?&?&?). split_and!; congruence.
  - intros k x Hx. destruct (B3 k x Hx) as (y & Hy & ? & ?). destruct (A3 k y Hy) as (z & ? & ? & ?). exists z. split_and!; congruence.
  - split_and!; congruence.
Qed.

Lemma writer_apply_view w i f g s :
  w_view w i s ->
  (forall t, tx_ok t s -> same_place (ht_attr t) (w_attr (writers w i)) -> ht_mode t = mode ->
     exists t', f t = Some t' /\ tx_ok t' (g s) /\ ht_attr t' = ht_attr t /\ ht_mode t' = ht_mode t) ->
  exists w', writer_apply f w i = Some w' /\ upd w w' /\ w_view w' i (g s) /\
    (forall u s', u <> i -> w_view w u s' -> w_view w' u s') /\ forall j s', r_view w j s' -> r_view w' j s'.
Proof.
  intros (t & Ht & Hm & Hp & Hok) Hf. destruct (Hf t Hok Hp Hm) as (t' & Hft & Hok' & Ha & Hm'). unfold writer_apply. rewrite Ht. cbn. rewrite Hft. cbn.
  eexists. split; [done|]. split; [|split; [|split]].
  - split; cbn; [|eauto|eauto|done]. intros u. thread_cases u i; done.
  - exists t'. cbn. rewrite fn_lookup_insert. cbn. split_and!; congruence || done.
  - intros u s' Hu. unfold w_view. cbn. by rewrite fn_lookup_insert_ne.
  - by intros.
Qed.

(** Several readers may share the receiver: they then know the same. *)
Lemma reader_apply_view w j f g s :
  r_view w j s ->
  (forall r d s', rx_knows r s' -> same_place (hr_attr r) (r_attr (readers w j)) -> hr_mode r = mode ->
     rx_knows (f r d).1 (g s') /\ hr_attr (f r d).1 = hr_attr r /\ hr_mode (f r d).1 = hr_mode r) ->
  exists w', reader_apply f w j = Some w' /\ upd w w' /\ r_view w' j (g s) /\
    (forall u s', r_view w u s' -> r_view w' u s' \/ r_view w' u (g s') /\ same_place (r_attr (readers w j)) (r_attr (readers w u))) /\
    forall i s', w_view w i s' -> w_view w' i s'.
Proof.
  intros (k & x & Hk & Hx & Hm & Hp & Hkn) Hf. unfold reader_apply. rewrite Hk. cbn. rewrite Hx. cbn. eexists. split; [done|].
  pose proof (fun s' H => Hf x.2 (dispatchers w k.1) s' H Hp Hm) as Hf'. destruct (Hf' s Hkn) as (Hg & Ha & Hm').
  split; [|split; [|split]].
  - split; cbn; [eauto|eauto| |done]. intros k' y. destruct (decide (k' = k)) as [->|]; [rewrite lookup_insert_eq|rewrite lookup_insert_ne by done; eauto].
    intros [= <-]. exists x. split_and!; done.
  - exists k. eexists. cbn. split; [done|]. rewrite lookup_insert_eq. split; [done|]. cbn. by rewrite Ha, Hm'.
  - intros u s' (k' & y & Hk' & Hy & Hmy & Hpy & Hkny). destruct (decide (k' = k)) as [->|].
    + right. simplify_eq. destruct (Hf' s' Hkny) as (Hg' & _ & _). split; [|destruct Hp, Hpy; split; congruence].
      exists k. eexists. cbn. split; [done|]. rewrite lookup_insert_eq. split; [done|]. cbn. by rewrite Ha, Hm'.
    + left. exists k', y. cbn. by rewrite lookup_insert_ne.
  - by intros.
Qed.

(** ** Messages of the topology *)
Definition wtold (msg : ChangeMsg) (self : RoleAttributes) (s : gset (OptionalMode * Z)) : gset (OptionalMode * Z) :=
  if decide (role_type msg = ROLE_READER) then told (operate_type msg) (peer mode self (role_attr msg)) s else s.
Definition rtold (msg : ChangeMsg) (self : RoleAttributes) (s : gset (OptionalMode * Z)) : gset (OptionalMode * Z) :=
  if decide (role_type msg = ROLE_WRITER) then told (operate_type msg) (peer mode self (role_attr msg)) s else s.

Lemma wtold_twice msg self s : wtold msg self (wtold msg self s) = wtold msg self s.
Proof. unfold wtold. case_decide; [apply told_twice|done]. Qed.
Lemma rtold_twice msg self s : rtold msg self (rtold msg self s) = rtold msg self s.
Proof. unfold rtold. case_decide; [apply told_twice|done]. Qed.

(** Every end in [l] has been told, the others may have been, through a shared receiver. *)
Definition spread (msg : ChangeMsg) (l : list (bool * nat)) (w w' : world) : Prop :=
  (forall i s, w_view w i s -> exists s', w_view w' i s' /\ (s' = s \/ s' = wtold msg (w_attr (writers w i)) s) /\
     ((true, i) ∈ l -> s' = wtold msg (w_attr (writers w i)) s)) /\
  (forall j s, r_view w j s -> exists s', r_view w' j s' /\ (s' = s \/ s' = rtold msg (r_attr (readers w j)) s) /\
     ((false, j) ∈ l -> s' = rtold msg (r_attr (readers w j)) s)).

Definition seen (w : world) (e : bool * nat) : Prop := if e.1 then exists s, w_view w e.2 s else exists s, r_view w e.2 s.

Lemma spread_none msg w (e : bool * nat) :
  (forall s : gset (OptionalMode * Z), if e.1 then wtold msg (w_attr (writers w e.2)) s = s else rtold msg (r_attr (readers w e.2)) s = s) -> spread msg [e] w w.
Proof.
  intros Hn. split; [intros i s Hv|intros j s Hv]; exists s; (split; [done|]); (split; [by left|]); intros <-%list_elem_of_singleton; symmetry; apply Hn.
Qed.

Lemma told_elsewhere self a op s : channel_name a <> channel_name self -> told op (peer mode self a) s = s.
Proof. intros Hne. unfold peer, GetRelation. rewrite (decide_True (P := channel_name a <> channel_name self)) by done. rewrite decide_True by done. by destruct op. Qed.

Lemma writer_told msg w i : seen w (true, i) -> role_type msg = ROLE_READER ->
  exists w', writer_apply (match operate_type msg with OPT_JOIN => fun t => Enable (fun _ => true) t (role_attr msg) | OPT_LEAVE => fun t => Disable t (role_attr msg) end) w i = Some w' /\
    upd w w' /\ spread msg [(true, i)] w w'.
Proof.
  intros [s Hs] Hr. cbn [snd] in Hs. destruct (writer_apply_view w i (match operate_type msg with OPT_JOIN => fun t => Enable (fun _ => true) t (role_attr msg) | OPT_LEAVE => fun t => Disable t (role_attr msg) end)
    (wtold msg (w_attr (writers w i))) s Hs) as (w' & He & Hu & Hv & Ho & Hro).
  - intros t Hok Hp Hm. unfold wtold. rewrite decide_True by done. rewrite <- (peer_place _ _ (role_attr msg) Hp), <- Hm.
    destruct (operate_type msg); [destruct (tx_enable_ok t s (role_attr msg) Hok) as (h & ? & ? & ? & ?)|destruct (tx_disable_ok t s (role_attr msg) Hok) as (h & ? & ? & ? & ?)]; by exists h.
  - exists w'. split; [done|]. split; [done|]. split.
    + intros u s' Hs'. destruct (decide (u = i)) as [->|Hne].
      * assert (Hg : forall q, w_view w i q -> w_view w' i (wtold msg (w_attr (writers w i)) q)).
        { intros q (t & Ht & ? & ? & Hq). destruct Hs as (t' & Ht' & _ & _ & Hq'). rewrite Ht in Ht'. injection Ht' as <-.
          assert (q = s) as -> by (apply set_eq; intros [m k]; rewrite <- (tx_ids _ _ Hq), <- (tx_ids _ _ Hq'); done). done. }
        exists (wtold msg (w_attr (writers w i)) s'). split; [by apply Hg|]. auto.
      * exists s'. split; [by apply Ho|]. split; [by left|]. intros ?%list_elem_of_singleton. congruence.
    + intros j s' Hs'. exists s'. split; [by apply Hro|]. split; [by left|]. by intros ?%list_elem_of_singleton.
Qed.

Lemma reader_told msg w j : seen w (false, j) -> role_type msg = ROLE_WRITER ->
  exists w', reader_apply (match operate_type msg with OPT_JOIN => fun r d => REnable r d (role_attr msg) | OPT_LEAVE => fun r d => RDisable r d (role_attr msg) end) w j = Some w' /\
    upd w w' /\ spread msg [(false, j)] w w'.
Proof.
  intros [s Hs] Hr. cbn [snd] in Hs. destruct (reader_apply_view w j (match operate_type msg with OPT_JOIN => fun r d => REnable r d (role_attr msg) | OPT_LEAVE => fun r d => RDisable r d (role_attr msg) end)
    (rtold msg (r_attr (readers w j))) s Hs) as (w' & He & Hu & Hv & Ho & Hw).
  - intros r d s' Hkn Hp Hm. unfold rtold. rewrite decide_True by done. rewrite <- (peer_place _ _ (role_attr msg) Hp), <- Hm.
    destruct (operate_type msg); [split; [by apply REnable_knows|apply REnable_same]|split; [by apply RDisable_knows|apply RDisable_same]].
  - exists w'. split; [done|]. split; [done|]. split.
    + intros i s' Hs'. exists s'. split; [by apply Hw|]. split; [by left|]. by intros ?%list_elem_of_singleton.
    + intros u s' Hs'. destruct (decide (u = j)) as [->|Hne].
      * exists (rtold msg (r_attr (readers w j)) s'). split; [|by auto].
        destruct Hs as (k & x & Hk & Hx & _ & _ & Hq). destruct Hs' as (k' & x' & Hk' & Hx' & _ & _ & Hq').
        rewrite Hk in Hk'. injection Hk' as <-. rewrite Hx in Hx'. injection Hx' as <-.
        assert (s' = s) as -> by (apply set_eq; intros [m i]; by rewrite <- (Hq m i), <- (Hq' m i)). done.
      * destruct (Ho u s' Hs') as [?|[? Hp]]; [exists s'|exists (rtold msg (r_attr (readers w j)) s')]; (split; [done|]); (split; [|by intros [= ?]%list_elem_of_singleton]); [by left|right].
        unfold rtold. by rewrite (peer_place _ _ _ Hp).
Qed.

Lemma OnChannelChange_ok msg w e : seen w e -> exists w', OnChannelChange msg w e = Some w' /\ upd w w' /\ spread msg [e] w w'.
Proof.
  intros Hs. unfold OnChannelChange. destruct e as [[] n]; cbn [fst snd].
  - case_decide as Hk; [exists w; split; [done|]; split; [apply upd_refl|]; apply spread_none; intros s; cbn; unfold wtold; by rewrite decide_False|].
    case_decide as Hc; [exists w; split; [done|]; split; [apply upd_refl|]; apply spread_none; intros s; cbn; unfold wtold; case_decide; [by apply told_elsewhere|done]|].
    apply writer_told; [done|]. by destruct (decide (role_type msg = ROLE_READER)).
  - case_decide as Hk; [exists w; split; [done|]; split; [apply upd_refl|]; apply spread_none; intros s; cbn; unfold rtold; by rewrite decide_False|].
    case_decide as Hc; [exists w; split; [done|]; split; [apply upd_refl|]; apply spread_none; intros s; cbn; unfold rtold; case_decide; [by apply told_elsewhere|done]|].
    apply reader_told; [done|]. by destruct (decide (role_type msg = ROLE_WRITER)).
Qed.

Lemma w_view_fun w i s s' : w_view w i s -> w_view w i s' -> s = s'.
Proof. intros (t & Ht & _ & _ & H) (t' & Ht' & _ & _ & H'). rewrite Ht in Ht'. injection Ht' as <-. apply set_eq. intros [m k]. by rewrite <- (tx_ids _ _ H), <- (tx_ids _ _ H'). Qed.
Lemma r_view_fun w j s s' : r_view w j s -> r_view w j s' -> s = s'.
Proof.
  intros (k & x & Hk & Hx & _ & _ & H) (k' & x' & Hk' & Hx' & _ & _ & H'). rewrite Hk in Hk'. injection Hk' as <-. rewrite Hx in Hx'. injection Hx' as <-.
  apply set_eq. intros [m i]. by rewrite <- (H m i), <- (H' m i).
Qed.

(** ** The invariant *)
Definition up (p : phase) : bool := match p with Off | Down => false | _ => true end.
Definition live (p : phase) : bool := match p with Listening | Got _ | Joined | Telling _ _ | On => true | _ => false end.
Definition in_topo (p : phase) : bool := match p with Joined | Telling _ _ | On | Leaving => true | _ => false end.
Definition parts (p : phase) : bool := match p with Parted | Parting _ _ => true | _ => false end.

(** The slot that is being called, and those that have still to hear from an end. *)
Definition calling (p : phase) : option slot := match p with Telling c _ | Parting c _ => c | _ => None end.
Definition awaits (e : slot) (p : phase) : Prop := match p with Joined | Parted => True | Telling c l | Parting c l => e ∈ option_list c ++ l | _ => False end.

(** Slot [e] must know an end in phase [p]; it may know it. *)
Definition sure (e : slot) (p : phase) : Prop := in_topo p = true /\ ~ awaits e p.
Definition may (e : slot) (p : phase) : Prop := in_topo p = true \/ parts p = true /\ awaits e p.

(** The attributes in the topology, and the peers an end files for those it must know and for those it may. *)
Definition rjoined (w : world) (a : RoleAttributes) : Prop := exists j, in_topo (r_phase (readers w j)) = true /\ r_attr (readers w j) = a.
Definition wjoined (w : world) (a : RoleAttributes) : Prop := exists i, in_topo (w_phase (writers w i)) = true /\ w_attr (writers w i) = a.
Definition rp_sure (w : world) (i : nat) (p : OptionalMode * Z) : Prop :=
  exists j, sure (true, i) (r_phase (readers w j)) /\ peer mode (w_attr (writers w i)) (r_attr (readers w j)) = Some p.
Definition rp_may (w : world) (i : nat) (p : OptionalMode * Z) : Prop :=
  exists j, may (true, i) (r_phase (readers w j)) /\ peer mode (w_attr (writers w i)) (r_attr (readers w j)) = Some p.
Definition wp_sure (w : world) (j : nat) (p : OptionalMode * Z) : Prop :=
  exists i, sure (false, j) (w_phase (writers w i)) /\ peer mode (r_attr (readers w j)) (w_attr (writers w i)) = Some p.

Definition pending (self : RoleAttributes) (l : list RoleAttributes) (p : OptionalMode * Z) : Prop := exists a, a ∈ l /\ peer mode self a = Some p.

(** A writer knows the readers that joined, but for those it has still to enable or to hear of, and no others
    but those whose leaving it has still to hear of. *)
Definition w_knows (w : world) (i : nat) (s : gset (OptionalMode * Z)) : Prop :=
  match w_phase (writers w i) with
  | Listening => forall p, p ∈ s -> rp_may w i p
  | Got l => (forall p, p ∈ s \/ pending (w_attr (writers w i)) l p -> rp_may w i p) /\ forall p, rp_sure w i p -> p ∈ s \/ pending (w_attr (writers w i)) l p
  | Joined | Telling _ _ | On => (forall p, p ∈ s -> rp_may w i p) /\ forall p, rp_sure w i p -> p ∈ s
  | _ => True
  end.

(** A reader knows at least the writers that joined: its receiver outlives it. *)
Definition r_knows (w : world) (j : nat) (s : gset (OptionalMode * Z)) : Prop :=
  match r_phase (readers w j) with
  | Got l => forall p, wp_sure w j p -> p ∈ s \/ pending (r_attr (readers w j)) l p
  | Joined | Telling _ _ | On => forall p, wp_sure w j p -> p ∈ s
  | _ => True
  end.

Definition topo_ok (l : list Role) (there : RoleAttributes -> Prop) : Prop :=
  (forall x, x ∈ l -> role_class x = RoleWriter /\ there (attributes x)) /\ forall a, there a -> exists x, x ∈ l /\ attributes x = a.

Definition phase_at (w : world) (e : slot) : phase := if e.1 then w_phase (writers w e.2) else r_phase (readers w e.2).
Definition unchecked (w : world) (e : slot) : Prop :=
  (forall k, calling (w_phase (writers w k)) <> Some e) /\ forall k, calling (r_phase (readers w k)) <> Some e.

Record frame_inv (w : world) : Prop := {
  fi_conns : forall e, e ∈ conns w <-> live (phase_at w e) = true;
  fi_calls : forall e, up (phase_at w e) = false -> unchecked w e;
  fi_map : forall k x, receiver_map_ w !! k = Some x -> hr_mode x.2 = mode /\ k = (proc_of (hr_attr x.2), channel_name (hr_attr x.2));
  fi_writers : topo_ok (topo_writers w) (wjoined w);
  fi_readers : topo_ok (topo_readers w) (rjoined w);
  fi_ids : forall i, w_phase (writers w i) <> Off -> exists n, (n < generated w)%nat /\ id_ (w_attr (writers w i)) = Some (HashValue (ident n));
  fi_distinct : forall i k, w_phase (writers w i) <> Off -> w_phase (writers w k) <> Off -> id (w_attr (writers w i)) = id (w_attr (writers w k)) -> i = k;
  fi_rid : forall j, up (r_phase (readers w j)) = true -> is_Some (id_ (r_attr (readers w j)));
  fi_parting : forall j k, in_topo (r_phase (readers w j)) = true -> parts (r_phase (readers w k)) = true -> id (r_attr (readers w j)) <> id (r_attr (readers w k));
  fi_pend : forall i l a k, w_phase (writers w i) = Got l -> a ∈ l -> parts (r_phase (readers w k)) = true -> id a <> id (r_attr (readers w k))
}.

Record node_inv (w : world) : Prop := {
  ni_frame : frame_inv w;
  ni_w : forall i, up (w_phase (writers w i)) = true -> exists s, w_view w i s /\ w_knows w i s;
  ni_r : forall j, up (r_phase (readers w j)) = true -> exists s, r_view w j s /\ r_knows w j s
}.

Lemma rx_knows_some (r : HybridReceiver) : exists s, rx_knows r s.
Proof.
  exists (list_to_set (concat ((fun x => (fun i => (x.1, i)) <$> (map_to_list x.2).*1) <$> map_to_list (hr_transmitters r)))).
  intros m i. rewrite elem_of_list_to_set, list_elem_of_In, in_concat. setoid_rewrite <- list_elem_of_In. split.
  - intros [v Hv]. destruct (hr_transmitters r !! m) as [g|] eqn:Hg; [|done]. eexists. split.
    + apply list_elem_of_fmap. exists (m, g). split; [done|by apply elem_of_map_to_list].
    + apply list_elem_of_fmap. exists i. split; [done|]. apply list_elem_of_fmap. exists (i, v). split; [done|by apply elem_of_map_to_list].
  - intros (l & ([m' g] & -> & Hg%elem_of_map_to_list)%list_elem_of_fmap & (i' & [= -> ->] & ([i'' v] & -> & Hv%elem_of_map_to_list)%list_elem_of_fmap)%list_elem_of_fmap).
    rewrite Hg. cbn in *. eauto.
Qed.

Lemma peer_channel self a p : peer mode self a = Some p -> channel_name a = channel_name self /\ p.2 = id a.
Proof.
  unfold peer. case_decide as Hn; [done|]. intros [= <-]. split; [|done]. unfold GetRelation in Hn. by destruct (decide (channel_name a <> channel_name self)) as [|Hc%dec_stable].
Qed.
Lemma peer_id self self' a b p : peer mode self a = Some p -> peer mode self' b = Some p -> id a = id b.
Proof. intros [_ H1]%peer_channel [_ H2]%peer_channel. congruence. Qed.

Lemma sure_may e p : sure e p -> may e p.
Proof. intros []. by left. Qed.
Lemma live_up p : live p = true -> up p = true.
Proof. by destruct p. Qed.

Lemma topo_iff l (there there' : RoleAttributes -> Prop) : topo_ok l there -> (forall a, there a <-> there' a) -> topo_ok l there'.
Proof. intros [H1 H2] He. split; [intros x Hx; rewrite <- He; by apply H1|intros a Ha; by apply H2, He]. Qed.

(** Only the ends in the topology matter. *)
Lemma wjoined_ext w w' : (forall i, in_topo (w_phase (writers w' i)) = in_topo (w_phase (writers w i)) /\
    (in_topo (w_phase (writers w i)) = true -> w_attr (writers w' i) = w_attr (writers w i))) -> forall a, wjoined w a <-> wjoined w' a.
Proof. intros H a. split; intros (i & Hi & <-); exists i; destruct (H i) as [E1 E2]; rewrite ?E1 in *; rewrite ?E2; done. Qed.
Lemma rjoined_ext w w' : (forall i, in_topo (r_phase (readers w' i)) = in_topo (r_phase (readers w i)) /\
    (in_topo (r_phase (readers w i)) = true -> r_attr (readers w' i) = r_attr (readers w i))) -> forall a, rjoined w a <-> rjoined w' a.
Proof. intros H a. split; intros (i & Hi & <-); exists i; destruct (H i) as [E1 E2]; rewrite ?E1 in *; rewrite ?E2; done. Qed.

(** What an end knows, in another world in which it must know less and may know more. *)
Lemma w_knows_mono w w' i s : w_attr (writers w' i) = w_attr (writers w i) -> w_phase (writers w' i) = w_phase (writers w i) ->
  (live (w_phase (writers w i)) = true -> forall p,
    (rp_may w i p -> rp_may w' i p \/ p ∉ s /\ forall l, w_phase (writers w i) = Got l -> ~ pending (w_attr (writers w i)) l p) /\ (rp_sure w' i p -> rp_sure w i p \/ p ∈ s)) ->
  w_knows w i s -> w_knows w' i s.
Proof.
  intros Ha Hp He. unfold w_knows. rewrite Ha, Hp. destruct (w_phase (writers w i)) as [| |l| | | | | | |]; try done; specialize (He eq_refl).
  - intros H p Hin. destruct (He p) as [[?|[? _]] _]; auto; done.
  - intros [H1 H2]. split; intros p Hin; destruct (He p) as [E1 E2].
    + destruct E1 as [?|[? Hn]]; [auto|done|]. specialize (Hn l eq_refl). tauto.
    + destruct E2 as [?|?]; [done|auto|auto].
  - intros [H1 H2]. split; intros p Hin; destruct (He p) as [E1 E2]; [destruct E1 as [?|[? _]]|destruct E2 as [?|?]]; auto; done.
  - intros [H1 H2]. split; intros p Hin; destruct (He p) as [E1 E2]; [destruct E1 as [?|[? _]]|destruct E2 as [?|?]]; auto; done.
  - intros [H1 H2]. split; intros p Hin; destruct (He p) as [E1 E2]; [destruct E1 as [?|[? _]]|destruct E2 as [?|?]]; auto; done.
Qed.
Lemma r_knows_mono w w' j s s' : r_attr (readers w' j) = r_attr (readers w j) -> r_phase (readers w' j) = r_phase (readers w j) ->
  (live (r_phase (readers w j)) = true -> forall p, wp_sure w' j p -> p ∈ s' \/ wp_sure w j p /\ (p ∈ s -> p ∈ s')) -> r_knows w j s -> r_knows w' j s'.
Proof. intros Ha Hp He. unfold r_knows. rewrite Ha, Hp. destruct (r_phase (readers w j)); try done; specialize (He eq_refl); intros H p Hin; destruct (He p Hin) as [?|[? ?]]; naive_solver. Qed.

Lemma upd_phase w w' e : upd w w' -> phase_at w' e = phase_at w e.
Proof. intros Hu. unfold phase_at. destruct e as [[] n]; [apply (up_w _ _ Hu)|apply (up_r _ _ Hu)]. Qed.

Lemma upd_frame w w' : upd w w' -> frame_inv w -> frame_inv w'.
Proof.
  intros Hu []. pose proof Hu as [Uw Ur Um (U1 & U2 & U3 & U4 & U5)]. split.
  - intros e. by rewrite U4, fi_conns0, (upd_phase _ _ _ Hu).
  - intros e. rewrite (upd_phase _ _ _ Hu). intros [H1 H2]%fi_calls0. split; intros k; [by rewrite (proj2 (Uw k))|by rewrite (proj1 (proj2 (Ur k)))].
  - intros k x Hx. destruct (Um k x Hx) as (y & Hy & -> & ->). by apply fi_map0.
  - rewrite U2. eapply topo_iff; [done|]. apply wjoined_ext. intros i. by destruct (Uw i) as [-> ->].
  - rewrite U3. eapply topo_iff; [done|]. apply rjoined_ext. intros i. by destruct (Ur i) as (-> & -> & _).
  - intros i. destruct (Uw i) as [-> ->]. rewrite U5. apply fi_ids0.
  - intros i k. destruct (Uw i) as [-> ->], (Uw k) as [-> ->]. apply fi_distinct0.
  - intros j. destruct (Ur j) as (-> & -> & _). apply fi_rid0.
  - intros j k. destruct (Ur j) as (-> & -> & _), (Ur k) as (-> & -> & _). apply fi_parting0.
  - intros i l a k. destruct (Uw i) as [_ ->], (Ur k) as (-> & -> & _). apply fi_pend0.
Qed.

Lemma upd_rp w w' i p : upd w w' -> (rp_may w i p <-> rp_may w' i p) /\ (rp_sure w i p <-> rp_sure w' i p).
Proof.
  intros Hu. pose proof (up_w _ _ Hu i) as [Ha _]. assert (Hr : forall j, r_attr (readers w' j) = r_attr (readers w j) /\ r_phase (readers w' j) = r_phase (readers w j)) by (intros j; destruct (up_r _ _ Hu j) as (? & ? & _); done).
  unfold rp_may, rp_sure. rewrite Ha. split; (split; intros (j & H1 & H2); exists j; destruct (Hr j) as [E1 E2]; rewrite ?E1, ?E2 in *; done).
Qed.
Lemma upd_wp w w' j p : upd w w' -> wp_sure w j p <-> wp_sure w' j p.
Proof.
  intros Hu. destruct (up_r _ _ Hu j) as (Ha & _). unfold wp_sure. rewrite Ha.
  split; intros (i & H1 & H2); exists i; destruct (up_w _ _ Hu i) as [E1 E2]; rewrite ?E1, ?E2 in *; done.
Qed.
Lemma upd_w_knows w w' i s : upd w w' -> w_knows w i s -> w_knows w' i s.
Proof. intros Hu. apply w_knows_mono; [apply (up_w _ _ Hu)..|]. intros _ p. destruct (upd_rp w w' i p Hu). tauto. Qed.
Lemma upd_r_knows w w' j s : upd w w' -> r_knows w j s -> r_knows w' j s.
Proof. intros Hu. apply r_knows_mono; [apply (up_r _ _ Hu)..|]. intros _ p ?%(upd_wp w w' j p Hu). by right. Qed.

(** ** Roles join and leave *)
Lemma topo_join l there a ts : topo_ok l there -> topo_ok (mkRole RoleWriter a ts :: l) (fun b => b = a \/ there b).
Proof.
  intros [H1 H2]. split.
  - intros x [->|Hx]%elem_of_cons; [by split; [|left]|]. destruct (H1 x Hx). by split; [|right].
  - intros b [->|Hb]; [by eexists; split; [by left|]|]. destruct (H2 b Hb) as (x & ? & ?). exists x. split; [by right|done].
Qed.

Lemma Match_id_ne x a v : role_class x = RoleWriter -> id_ a = Some v -> id (attributes x) <> v -> Match x a = false.
Proof.
  intros Hc Ha Hne. unfold Match, RoleWriter_Match. rewrite Hc, Ha. destruct (negb _); [done|]. unfold field_ok. rewrite bool_decide_false; [done|]. unfold id in Hne. congruence.
Qed.

Lemma topo_leave l there a v : topo_ok l there -> id_ a = Some v -> (forall b, there b -> id b = v -> b = a) -> topo_ok (without a l) (fun b => there b /\ id b <> v).
Proof.
  intros [H1 H2] Ha Hd. split.
  - intros x [Hm Hx]%list_elem_of_filter. destruct (H1 x Hx) as [Hc Hup]. split; [done|]. split; [done|]. intros Hid.
    rewrite <- (Hd _ Hup Hid), Match_refl in Hm. done.
  - intros b [Hb Hne]. destruct (H2 b Hb) as (x & Hx & <-). exists x. split; [|done]. apply list_elem_of_filter. split; [|done].
    apply (Match_id_ne x a v); [by apply H1|done|done].
Qed.

Lemma of_channel_in name l there a : topo_ok l there -> a ∈ of_channel name l <-> channel_name a = name /\ there a.
Proof.
  intros [H1 H2]. unfold of_channel. rewrite list_elem_of_filter, list_elem_of_fmap. split.
  - intros [? (x & -> & Hx)]. split; [done|by apply H1].
  - intros [? (x & ? & <-)%H2]. eauto.
Qed.

Lemma in_joined p q s : q ∈ joined p s <-> p = Some q \/ q ∈ s.
Proof. destruct p as [x|]; cbn; [|naive_solver]. rewrite elem_of_union, elem_of_singleton. naive_solver. Qed.
Lemma in_left p q s : q ∈ left_by p s <-> p <> Some q /\ q ∈ s.
Proof. destruct p as [x|]; cbn; [|naive_solver]. rewrite elem_of_difference, elem_of_singleton. naive_solver. Qed.
Lemma in_told op p q s : q ∈ told op p s <-> match op with OPT_JOIN => p = Some q \/ q ∈ s | OPT_LEAVE => p <> Some q /\ q ∈ s end.
Proof. destruct op; [apply in_joined|apply in_left]. Qed.
Lemma pending_cons self a l p : pending self (a :: l) p <-> peer mode self a = Some p \/ pending self l p.
Proof.
  unfold pending. split.
  - intros (b & [->|Hb]%elem_of_cons & Hp); [by left|right; eauto].
  - intros [Hp|(b & ? & ?)]; [exists a; split; [by left|done]|exists b; split; [by right|done]].
Qed.

(** ** One slot is called *)

(** A message that tells the truth: who joins may be known to every writer; who leaves has an id that
    no one in the topology and no pending peer has. *)
Definition truthful (msg : ChangeMsg) (w : world) : Prop :=
  match operate_type msg with
  | OPT_JOIN => role_type msg = ROLE_READER -> forall i p, peer mode (w_attr (writers w i)) (role_attr msg) = Some p -> rp_may w i p
  | OPT_LEAVE => (role_type msg = ROLE_READER -> forall a, rjoined w a -> id a <> id (role_attr msg)) /\
      (role_type msg = ROLE_WRITER -> forall a, wjoined w a -> id a <> id (role_attr msg))
  end.

Lemma w_knows_told w w1 msg i s s' : upd w w1 -> truthful msg w -> w_knows w i s -> s' = s \/ s' = wtold msg (w_attr (writers w i)) s -> w_knows w1 i s'.
Proof.
  intros Hu Ht Hk [->| ->]; [by apply (upd_w_knows w)|]. unfold wtold. case_decide as Hr; [|by apply (upd_w_knows w)]. apply (upd_w_knows w); [done|].
  unfold truthful in Ht. destruct (operate_type msg) eqn:Ho.
  - specialize (Ht Hr i). unfold w_knows in *. destruct (w_phase (writers w i)); try done; cbn [told]; setoid_rewrite in_joined; naive_solver.
  - destruct Ht as [Ht _]. specialize (Ht Hr). assert (Hs : forall p, rp_sure w i p -> peer mode (w_attr (writers w i)) (role_attr msg) <> Some p).
    { intros p (j & [Hj _] & Hp) Hpa. apply (Ht (r_attr (readers w j))); [by exists j|]. by eapply peer_id. }
    unfold w_knows in *. destruct (w_phase (writers w i)); try done; cbn [told]; setoid_rewrite in_left; naive_solver.
Qed.

Lemma r_knows_told w w1 msg j s s' : upd w w1 -> truthful msg w -> r_knows w j s -> s' = s \/ s' = rtold msg (r_attr (readers w j)) s -> r_knows w1 j s'.
Proof.
  intros Hu Ht Hk Hs. apply (upd_r_knows w); [done|]. revert Hk. apply r_knows_mono; [done|done|]. intros _ p Hp. right. split; [done|]. destruct Hs as [->| ->]; [done|].
  unfold rtold. case_decide as Hr; [|done]. rewrite in_told. unfold truthful in Ht. destruct (operate_type msg); [by right|]. split; [|done].
  destruct Ht as [_ Ht]. intros Hpa. destruct Hp as (i & [Hi _] & Hp). apply (Ht Hr (w_attr (writers w i))); [by exists i|]. by eapply peer_id.
Qed.

(** What the end of the slot knows after the call. *)
Definition hears (msg : ChangeMsg) (w : world) (e : slot) : Prop :=
  if e.1 then role_type msg = ROLE_READER -> forall s, w_view w e.2 s -> exists s0, s = told (operate_type msg) (peer mode (w_attr (writers w e.2)) (role_attr msg)) s0
  else role_type msg = ROLE_WRITER -> forall s, r_view w e.2 s -> exists s0, s = told (operate_type msg) (peer mode (r_attr (readers w e.2)) (role_attr msg)) s0.

Lemma call_inv msg w e : node_inv w -> up (phase_at w e) = true -> truthful msg w ->
  exists w1, OnChannelChange msg w e = Some w1 /\ upd w w1 /\ node_inv w1 /\ hears msg w1 e.
Proof.
  intros [Hf Hw Hr] Hup Ht. assert (Hseen : seen w e).
  { destruct e as [[] n]; [destruct (Hw n Hup) as (s & ? & _)|destruct (Hr n Hup) as (s & ? & _)]; by exists s. }
  destruct (OnChannelChange_ok msg w e Hseen) as (w1 & He & Hu & [Sw Sr]). exists w1. split; [done|]. split; [done|]. split; [split; [by eapply upd_frame|..]|].
  - intros i. rewrite (proj2 (up_w _ _ Hu i)). intros Hp. destruct (Hw i Hp) as (s & Hs & Hk). destruct (Sw i s Hs) as (s' & Hs' & Hor & _).
    exists s'. split; [done|]. by apply (w_knows_told w w1 msg i s).
  - intros j. rewrite (proj1 (proj2 (up_r _ _ Hu j))). intros Hp. destruct (Hr j Hp) as (s & Hs & Hk). destruct (Sr j s Hs) as (s' & Hs' & Hor & _).
    exists s'. split; [done|]. by apply (r_knows_told w w1 msg j s).
  - unfold hears. destruct e as [[] n]; cbn [fst snd]; intros Hrole s Hs.
    + destruct Hseen as [s0 H0]. destruct (Sw n s0 H0) as (s' & Hs' & _ & Hin). rewrite (w_view_fun _ _ _ _ Hs Hs'), (proj1 (up_w _ _ Hu n)).
      rewrite Hin by by left. unfold wtold. rewrite decide_True by done. by eexists.
    + destruct Hseen as [s0 H0]. destruct (Sr n s0 H0) as (s' & Hs' & _ & Hin). rewrite (r_view_fun _ _ _ _ Hs Hs'), (proj1 (up_r _ _ Hu n)).
      rewrite Hin by by left. unfold rtold. rewrite decide_True by done. by eexists.
Qed.

(** ** Writers *)
Context (ident_inj : forall n m, HashValue (ident n) = HashValue (ident m) -> n = m).

Lemma own_id w i : frame_inv w -> w_phase (writers w i) <> Off ->
  exists n, (n < generated w)%nat /\ id_ (w_attr (writers w i)) = Some (HashValue (ident n)) /\
    forall k, k <> i -> w_phase (writers w k) <> Off -> id (w_attr (writers w k)) <> HashValue (ident n).
Proof.
  intros [] Hp. destruct (fi_ids0 i Hp) as (n & Hn & Hid). exists n. split; [done|]. split; [done|]. intros k Hk Hkp He. apply Hk, (fi_distinct0 k i Hkp Hp).
  unfold id at 2. by rewrite Hid, He.
Qed.

(** The frame after a step of writer [i]. *)
Lemma writer_frame w w' i : frame_inv w ->
  readers w' = readers w -> receiver_map_ w' = receiver_map_ w -> (forall k, k <> i -> writers w' k = writers w k) ->
  (forall e, e ∈ conns w' <-> if decide (e = (true, i)) then live (w_phase (writers w' i)) = true else e ∈ conns w) ->
  topo_ok (topo_writers w') (wjoined w') -> topo_readers w' = topo_readers w -> (generated w <= generated w')%nat ->
  (w_phase (writers w' i) <> Off -> exists n, (n < generated w')%nat /\ id_ (w_attr (writers w' i)) = Some (HashValue (ident n)) /\
    forall k, k <> i -> w_phase (writers w k) <> Off -> id (w_attr (writers w k)) <> HashValue (ident n)) ->
  (forall e, calling (w_phase (writers w' i)) = Some e -> up (phase_at w e) = true /\ e <> (true, i) \/ up (phase_at w' e) = true) ->
  (up (w_phase (writers w' i)) = false -> up (w_phase (writers w i)) = false \/ unchecked w (true, i)) ->
  (forall l a k, w_phase (writers w' i) = Got l -> a ∈ l -> parts (r_phase (readers w k)) = true -> id a <> id (r_attr (readers w k))) ->
  frame_inv w'.
Proof.
  intros [] Hre Hma Hwr Hco Htw Htr Hge Hid Hca Hdn Hpe.
  assert (Hat : forall e, e <> (true, i) -> phase_at w' e = phase_at w e).
  { intros [[] n] He; unfold phase_at; cbn; [rewrite Hwr; [done|congruence]|by rewrite Hre]. }
  split; try (by rewrite ?Hre, ?Hma, ?Htr).
  - intros e. rewrite Hco. case_decide as He; [by subst e|]. by rewrite Hat.
  - intros e He. split; intros k; [|rewrite Hre].
    + destruct (decide (k = i)) as [->|Hk].
      * intros Hc. destruct (Hca e Hc) as [[Hu Hne]|Hu]; [rewrite Hat in He by done|]; congruence.
      * rewrite Hwr by done. destruct (decide (e = (true, i))) as [->|Hne]; [|rewrite Hat in He by done; by apply fi_calls0].
        destruct (Hdn He) as [Hu|Hu]; [by apply (fi_calls0 (true, i) Hu)|by apply Hu].
    + destruct (decide (e = (true, i))) as [->|Hne]; [|rewrite Hat in He by done; by apply fi_calls0].
      destruct (Hdn He) as [Hu|Hu]; [by apply (fi_calls0 (true, i) Hu)|by apply Hu].
  - rewrite Htr. eapply topo_iff; [done|]. apply rjoined_ext. intros j. by rewrite Hre.
  - intros k. destruct (decide (k = i)) as [->|Hk]; [intros (n & ? & ? & _)%Hid; by exists n|]. rewrite Hwr by done. intros (n & ? & ?)%fi_ids0. exists n. split; [lia|done].
  - intros k k'. assert (Hd : forall u, u <> i -> w_phase (writers w' i) <> Off -> w_phase (writers w' u) <> Off -> id (w_attr (writers w' i)) = id (w_attr (writers w' u)) -> False).
    { intros u Hu Hi Hup He. rewrite (Hwr u Hu) in *. destruct (Hid Hi) as (n & _ & Hn & Ho). apply (Ho u Hu Hup). rewrite <- He. unfold id. by rewrite Hn. }
    destruct (decide (k = i)) as [->|Hk], (decide (k' = i)) as [->|Hk']; [done|intros H1 H2 H3; by destruct (Hd k' Hk' H1 H2)|intros H1 H2 H3; by destruct (Hd k Hk H2 H1)|].
    rewrite !Hwr by done. apply fi_distinct0.
  - intros k. rewrite Hre. destruct (decide (k = i)) as [->|Hk]; [intros; by eapply Hpe|rewrite Hwr by done; apply fi_pend0].
Qed.

(** What a writer's step does to what readers must know. *)
Lemma wp_sure_step w w' i j p : readers w' = readers w -> (forall k, k <> i -> writers w' k = writers w k) ->
  (sure (false, j) (w_phase (writers w' i)) -> sure (false, j) (w_phase (writers w i)) /\ w_attr (writers w' i) = w_attr (writers w i)) ->
  wp_sure w' j p -> wp_sure w j p.
Proof.
  intros Hre Hwr Hs (k & Hk & Hp). rewrite Hre in Hp. destruct (decide (k = i)) as [->|Hne].
  - destruct (Hs Hk) as [Hk' Ha]. exists i. by rewrite <- Ha.
  - exists k. by rewrite <- (Hwr k Hne).
Qed.

Lemma writer_node w w' i : node_inv w -> frame_inv w' -> readers w' = readers w -> receiver_map_ w' = receiver_map_ w -> (forall k, k <> i -> writers w' k = writers w k) ->
  (up (w_phase (writers w' i)) = true -> exists s, w_view w' i s /\ w_knows w' i s) ->
  (forall j s, up (r_phase (readers w j)) = true -> r_view w j s -> r_knows w j s -> r_knows w' j s) -> node_inv w'.
Proof.
  intros [_ Hw Hr] Hf Hre Hma Hwr Hi Hk. split; [done|..].
  - intros k. destruct (decide (k = i)) as [->|Hne]; [done|]. rewrite (Hwr k Hne). intros Hp. destruct (Hw k Hp) as (s & Hs & Hkn). exists s. split.
    + unfold w_view in *. by rewrite (Hwr k Hne).
    + revert Hkn. apply w_knows_mono; [by rewrite (Hwr k Hne)..|]. intros _ p. unfold rp_may, rp_sure. rewrite (Hwr k Hne), Hre. tauto.
  - intros j. rewrite Hre. intros Hp. destruct (Hr j Hp) as (s & Hs & Hkn). exists s. split; [unfold r_view in *; by rewrite Hre, Hma|by apply Hk].
Qed.

(** A writer goes on, neither connected nor in the topology otherwise than before. *)
Lemma writer_goes_on w i p t :
  let x := writers w i in
  let w' := with_writer w i (w_set x p t) in
  node_inv w -> up (w_phase x) = true -> p <> Off -> live p = live (w_phase x) -> in_topo p = in_topo (w_phase x) ->
  (forall e, calling p = Some e -> up (phase_at w e) = true) -> (up p = true \/ unchecked w (true, i)) ->
  (forall l a k, p = Got l -> a ∈ l -> parts (r_phase (readers w k)) = true -> id a <> id (r_attr (readers w k))) ->
  (up p = true -> exists s, w_view w' i s /\ w_knows w' i s) ->
  (forall j s, up (r_phase (readers w j)) = true -> r_view w j s -> r_knows w j s -> r_knows w' j s) -> node_inv w'.
Proof.
  intros x w' Hi Hx Hp Hl Ht Hc Hdn Hpe Hk Hr. pose proof (ni_frame _ Hi) as Hf. assert (Hxo : w_phase (writers w i) <> Off) by (intros E; unfold x in Hx; by rewrite E in Hx).
  assert (Hat : writers w' i = w_set x p t) by apply fn_lookup_insert. assert (Hother : forall k, k <> i -> writers w' k = writers w k) by (intros; by apply fn_lookup_insert_ne).
  apply (writer_node w w' i); [done| |done|done|done|by rewrite Hat|done].
  apply (writer_frame w w' i); [done|done|done|done| | |done|done|..]; rewrite ?Hat; cbn [w_set w_phase w_attr].
  - intros e. change (conns w') with (conns w). case_decide as He; [subst e; rewrite Hl; apply (fi_conns _ Hf (true, i))|done].
  - eapply topo_iff; [exact (fi_writers _ Hf)|]. apply wjoined_ext. intros k. cbn. thread_cases k i; done.
  - intros _. exact (own_id w i Hf Hxo).
  - intros e He. destruct (decide (e = (true, i))) as [->|Hne]; [right|left; split; [by apply Hc|done]]. unfold phase_at. cbn [fst snd]. rewrite Hat. by destruct p.
  - intros Hu. destruct Hdn as [Hdn|]; [congruence|by right].
  - exact Hpe.
Qed.

(** Readers that must know no more than before. *)
Lemma r_knows_less w w' i j s : readers w' = readers w -> (forall k, k <> i -> writers w' k = writers w k) ->
  (live (r_phase (readers w j)) = true -> sure (false, j) (w_phase (writers w' i)) -> sure (false, j) (w_phase (writers w i)) /\ w_attr (writers w' i) = w_attr (writers w i)) ->
  r_knows w j s -> r_knows w' j s.
Proof. intros Hre Hwr Hs. apply r_knows_mono; [by rewrite Hre..|]. intros Hl p Hp. right. split; [|done]. by apply (wp_sure_step w w' i); [| |apply Hs|]. Qed.

Lemma Writer_Init_inv w i : node_inv w -> exists w', Writer_Init w i = Some w' /\ node_inv w'.
Proof.
  intros Hi. pose proof (ni_frame _ Hi) as Hf. unfold Writer_Init. destruct (w_phase (writers w i)) eqn:Hp; try (by exists w). destruct (is_shutdown _); [by exists w|].
  set (v := ident (generated w)). set (w' := with_conns _ _). exists w'. split; [done|].
  assert (Hat : writers w' i = mkWriter (set_attr_id (w_attr (writers w i)) (HashValue v)) Listening
    (Some (HybridTransmitter_new config limit (Endpoint_attr (w_attr (writers w i)) (HashValue v)) v))) by apply fn_lookup_insert.
  assert (Hother : forall k, k <> i -> writers w' k = writers w k) by (intros; by apply fn_lookup_insert_ne).
  apply (writer_node w w' i); try done.
  - apply (writer_frame w w' i); try done; rewrite ?Hat; cbn [w_phase w_attr]; try done.
    + intros e. cbn [w' with_conns conns generate with_writer]. rewrite elem_of_app, list_elem_of_singleton. case_decide; naive_solver.
    + eapply topo_iff; [exact (fi_writers _ Hf)|]. apply wjoined_ext. intros k. cbn. thread_cases k i; [by rewrite Hp|done].
    + cbn. lia.
    + intros _. exists (generated w). split; [cbn; lia|]. split; [done|]. intros k Hk Hkp He. destruct (fi_ids _ Hf k Hkp) as (n & Hn & Hid).
      unfold id in He. rewrite Hid in He. apply ident_inj in He. lia.
  - intros _. exists ∅. split; [|unfold w_knows; rewrite Hat; cbn; set_solver]. eexists. rewrite Hat. split; [done|]. split; [done|]. split; [|apply tx_new].
    cbn. unfold Endpoint_attr, same_place. by destruct (id_ _).
  - intros j s _ _. apply (r_knows_less w w' i); [done|done|]. rewrite Hat. by intros _ [].
Qed.

Lemma writer_shuts w i : node_inv w -> exists w', Writer_Shutdown w i = Some w' /\ node_inv w'.
Proof.
  intros Hi. pose proof (ni_frame _ Hi) as Hf. unfold Writer_Shutdown. destruct (w_phase (writers w i)) eqn:Hp; try (by exists w).
  set (w' := with_conns _ _). exists w'. split; [done|].
  assert (Hat : writers w' i = w_set (writers w i) Leaving (transmitter_ (writers w i))) by apply fn_lookup_insert.
  assert (Hother : forall k, k <> i -> writers w' k = writers w k) by (intros; by apply fn_lookup_insert_ne).
  apply (writer_node w w' i); try done.
  - apply (writer_frame w w' i); try done; rewrite ?Hat; cbn [w_set w_phase w_attr]; try done.
    + intros e. cbn [w' with_conns conns]. rewrite list_elem_of_filter. case_decide; naive_solver.
    + eapply topo_iff; [exact (fi_writers _ Hf)|]. apply wjoined_ext. intros k. cbn. thread_cases k i; [by rewrite Hp|done].
    + intros _. refine (own_id w i Hf _). by rewrite Hp.
  - intros _. destruct (ni_w _ Hi i) as (s & Hs & _); [by rewrite Hp|]. exists s. split; [|unfold w_knows; by rewrite Hat]. unfold w_view in *. by rewrite Hat.
  - intros j s _ _. apply (r_knows_less w w' i); [done|done|]. rewrite Hat, Hp. by intros _ [_ ?].
Qed.

(** [Init] takes the readers of the channel. *)
Lemma writer_takes w i : node_inv w -> w_phase (writers w i) = Listening -> exists w', Writer_step w i = Some w' /\ node_inv w'.
Proof.
  intros Hi Hp. unfold Writer_step. rewrite Hp. eexists. split; [done|]. pose proof (ni_frame _ Hi) as Hf. set (l := of_channel _ _).
  assert (Hl : forall a, a ∈ l -> rjoined w a) by (intros a [_ Ha]%(of_channel_in _ _ _ a (fi_readers _ Hf)); done).
  apply writer_goes_on; rewrite ?Hp; try done; [by left|..].
  - intros l' a k [= <-] (j & Hj & <-)%Hl Hk. by apply (fi_parting _ Hf).
  - intros _. destruct (ni_w _ Hi i) as (s & Hs & Hk); [by rewrite Hp|]. exists s. unfold w_view, w_knows in *. cbn. rewrite fn_lookup_insert. cbn. rewrite Hp in Hk. split; [done|]. split.
    + intros p Hin. assert (rp_may w i p) as (j & H1 & H2).
      { destruct Hin as [Hin|(a & (j & Hj & <-)%Hl & Hpa)]; [by apply Hk|]. exists j. by split; [left|]. }
      exists j. cbn. by rewrite fn_lookup_insert.
    + intros p (j & [Hj _] & Hpj). cbn in Hj, Hpj. rewrite fn_lookup_insert in Hpj. cbn in Hpj. right. exists (r_attr (readers w j)). split; [|done]. apply (of_channel_in _ _ _ _ (fi_readers _ Hf)).
      split; [by apply (peer_channel _ _ _ Hpj)|by exists j].
  - intros j s _ _. apply (r_knows_less w _ i); [done|intros; by apply fn_lookup_insert_ne|]. cbn. rewrite fn_lookup_insert. by intros _ [].
Qed.

Lemma writer_enables w i a l : node_inv w -> w_phase (writers w i) = Got (a :: l) -> exists w', Writer_step w i = Some w' /\ node_inv w'.
Proof.
  intros Hi Hp. unfold Writer_step. rewrite Hp. pose proof Hi as [Hf Hw Hr]. destruct (Hw i) as (s & Hs & Hk); [by rewrite Hp|].
  destruct (writer_apply_view w i (fun t => Enable (fun _ => true) t a) (joined (peer mode (w_attr (writers w i)) a)) s Hs) as (w1 & He & Hu & Hv & Ho & Hro).
  { intros t Hok Hpl Hm. rewrite <- (peer_place _ _ a Hpl), <- Hm. by destruct (tx_enable_ok t s a Hok) as (h & ? & ? & ? & ?); exists h. }
  rewrite He. cbn. eexists. split; [done|]. destruct (up_w _ _ Hu i) as [Ea Ep].
  assert (Hk1 : w_knows w1 i (joined (peer mode (w_attr (writers w i)) a) s)).
  { apply (upd_w_knows w); [done|]. unfold w_knows in *. rewrite Hp in *. setoid_rewrite in_joined. setoid_rewrite pending_cons. setoid_rewrite pending_cons in Hk. naive_solver. }
  assert (Hi1 : node_inv w1).
  { split; [by eapply upd_frame|..].
    - intros k. rewrite (proj2 (up_w _ _ Hu k)). intros Hk'. destruct (decide (k = i)) as [->|Hne]; [by eexists|].
      destruct (Hw k Hk') as (s' & ? & ?). exists s'. split; [by apply Ho|by apply (upd_w_knows w)].
    - intros j. rewrite (proj1 (proj2 (up_r _ _ Hu j))). intros Hj. destruct (Hr j Hj) as (s' & ? & ?). exists s'. split; [by apply Hro|by apply (upd_r_knows w)]. }
  apply writer_goes_on; rewrite ?Ep, ?Hp; try done; [by left|..].
  - intros l' b k [= <-] Hb Hpk. apply (fi_pend _ (ni_frame _ Hi1) i (a :: l)); [by rewrite Ep|by right|done].
  - intros _. exists (joined (peer mode (w_attr (writers w i)) a) s). split.
    + unfold w_view in *. cbn. by rewrite fn_lookup_insert.
    + unfold w_knows, rp_may, rp_sure in *. cbn. rewrite fn_lookup_insert. cbn. rewrite Ea in *. rewrite Ep, Hp in Hk1. setoid_rewrite in_joined. setoid_rewrite pending_cons in Hk1. setoid_rewrite in_joined in Hk1. naive_solver.
  - intros j s' _ _. apply (r_knows_less w1 _ i); [done|intros; by apply fn_lookup_insert_ne|]. cbn. rewrite fn_lookup_insert. by intros _ [].
Qed.

(** [Join] and [Leave] of a writer change the roles. *)
Lemma writer_joins w i : node_inv w -> w_phase (writers w i) = Got [] -> exists w', Writer_step w i = Some w' /\ node_inv w'.
Proof.
  intros Hi Hp. unfold Writer_step. rewrite Hp. eexists. split; [done|]. pose proof (ni_frame _ Hi) as Hf. set (x := writers w i) in *. set (w' := with_writer _ _ _).
  assert (Hat : writers w' i = w_set x Joined (transmitter_ x)) by apply fn_lookup_insert.
  assert (Hother : forall k, k <> i -> writers w' k = writers w k) by (intros; by apply fn_lookup_insert_ne).
  assert (Hwj : forall a, wjoined w' a <-> a = w_attr x \/ wjoined w a).
  { intros a. unfold wjoined. split.
    - intros (k & Hk & Ha). destruct (decide (k = i)) as [->|Hne]; [left; by rewrite Hat in Ha|right; exists k; by rewrite <- (Hother k Hne)].
    - intros [->|(k & Hk & Ha)]; [exists i; by rewrite Hat|]. exists k. destruct (decide (k = i)) as [->|Hne]; [fold x in Hk; by rewrite Hp in Hk|by rewrite (Hother k Hne)]. }
  apply (writer_node w w' i); try done.
  - apply (writer_frame w w' i); try done; rewrite ?Hat; cbn [w_set w_phase w_attr]; try done.
    + intros e. change (conns w') with (conns w). case_decide as He; [subst e|done]. rewrite (fi_conns _ Hf (true, i)). unfold phase_at. cbn [fst snd]. fold x. by rewrite Hp.
    + eapply topo_iff; [apply (topo_join _ (wjoined w)), Hf|]. intros a. by rewrite (Hwj a).
    + intros _. refine (own_id w i Hf _). fold x. by rewrite Hp.
  - intros _. destruct (ni_w _ Hi i) as (s & Hs & Hk); [fold x; by rewrite Hp|]. exists s. split; [unfold w_view in *; by rewrite Hat|].
    unfold w_knows, rp_may, rp_sure in *. rewrite Hat. cbn. fold x in Hk. rewrite Hp in Hk. destruct Hk as [H1 H2]. split; [by intros p ?; apply H1; left|].
    intros p Hs'. destruct (H2 p Hs') as [?|(a & Ha & _)]; [done|]. by apply not_elem_of_nil in Ha.
  - intros j s _ _. apply (r_knows_less w w' i); [done|done|]. rewrite Hat. intros _ [_ Hn]. by destruct Hn.
Qed.

Lemma writer_quits w i : node_inv w -> w_phase (writers w i) = Leaving -> exists w', Writer_step w i = Some w' /\ node_inv w'.
Proof.
  intros Hi Hp. unfold Writer_step. rewrite Hp. eexists. split; [done|]. pose proof (ni_frame _ Hi) as Hf. set (x := writers w i) in *. set (w' := with_writer _ _ _).
  assert (Hat : writers w' i = w_set x Parted (transmitter_ x)) by apply fn_lookup_insert.
  assert (Hother : forall k, k <> i -> writers w' k = writers w k) by (intros; by apply fn_lookup_insert_ne).
  destruct (own_id w i Hf) as (n & Hn & Hid & Hd); [fold x; by rewrite Hp|]. fold x in Hid. set (v := HashValue (ident n)) in *.
  assert (Hidv : id (w_attr x) = v) by (unfold id; by rewrite Hid).
  assert (Hoff : forall k, in_topo (w_phase (writers w k)) = true -> w_phase (writers w k) <> Off) by (intros k Hk E; by rewrite E in Hk).
  assert (Hwj : forall a, wjoined w' a <-> wjoined w a /\ id a <> v).
  { intros a. unfold wjoined. split.
    - intros (k & Hk & <-). destruct (decide (k = i)) as [->|Hne]; [by rewrite Hat in Hk|]. rewrite (Hother k Hne) in *. split; [by exists k|]. apply Hd; [done|by apply Hoff].
    - intros [(k & Hk & <-) Hne]. exists k. destruct (decide (k = i)) as [->|Hki]; [done|by rewrite (Hother k Hki)]. }
  apply (writer_node w w' i); try done.
  - apply (writer_frame w w' i); try done; rewrite ?Hat; cbn [w_set w_phase w_attr]; try done.
    + intros e. change (conns w') with (conns w). case_decide as He; [subst e|done]. rewrite (fi_conns _ Hf (true, i)). unfold phase_at. cbn [fst snd]. fold x. by rewrite Hp.
    + eapply topo_iff; [eapply (topo_leave _ (wjoined w)); [apply Hf|exact Hid|]|intros a; symmetry; apply Hwj].
      intros b (k & Hk & <-) Hb. destruct (decide (k = i)) as [->|Hne]; [done|]. by destruct (Hd k Hne (Hoff k Hk)).
    + intros _. by exists n.
  - intros _. destruct (ni_w _ Hi i) as (s & Hs & Hk); [fold x; by rewrite Hp|]. exists s. split; [unfold w_view in *; by rewrite Hat|]. unfold w_knows. by rewrite Hat.
  - intros j s _ _. apply (r_knows_less w w' i); [done|done|]. rewrite Hat. by intros _ [].
Qed.


(** [Signal::operator()] from an end that joins or leaves: the slots are copied, looked at and called. *)
Definition disposed (op : OperateType) : phase := match op with OPT_JOIN => Joined | OPT_LEAVE => Parted end.
Definition fly (op : OperateType) (c : option slot) (l : list slot) : phase := match op with OPT_JOIN => Telling c l | OPT_LEAVE => Parting c l end.
Definition landed (op : OperateType) : phase := match op with OPT_JOIN => On | OPT_LEAVE => Down end.

Lemma fly_up op c l : up (fly op c l) = true.
Proof. by destruct op. Qed.
Lemma fly_calling op c l : calling (fly op c l) = c.
Proof. by destruct op. Qed.
Lemma sure_fly e op c l : sure e (fly op c l) <-> op = OPT_JOIN /\ e ∉ option_list c ++ l.
Proof. by destruct op; split; intros []. Qed.

Lemma Writer_step_fly w i op c l : w_phase (writers w i) = fly op c l ->
  Writer_step w i = (r ← notify (role_msg op ROLE_WRITER 0 (w_attr (writers w i))) w c l;
    let x := writers r.1 i in Some (with_writer r.1 i (if r.2 is Some (c, l) then w_set x (fly op c l) (transmitter_ x) else
      w_set x (landed op) (if op is OPT_JOIN then transmitter_ x else None)))).
Proof.
  intros Hp. unfold Writer_step. rewrite Hp. destruct op; cbn [fly landed]; [|done].
  destruct (notify _ _ _ _) as [[w1 [[c' l']|]]|]; done.
Qed.

Lemma writer_truthful w i op c l : frame_inv w -> w_phase (writers w i) = fly op c l -> truthful (role_msg op ROLE_WRITER 0 (w_attr (writers w i))) w.
Proof.
  intros Hf Hp. destruct op; [done|]. split; [done|]. intros _ a (k & Hk & <-) Hid. assert (k = i) as ->; [|by rewrite Hp in Hk].
  apply (fi_distinct _ Hf); [by intros E; rewrite E in Hk|by rewrite Hp|done].
Qed.

Lemma called_up w i e : frame_inv w -> calling (w_phase (writers w i)) = Some e \/ calling (r_phase (readers w i)) = Some e -> up (phase_at w e) = true.
Proof. intros Hf Hc. destruct (up (phase_at w e)) eqn:He; [done|]. destruct (fi_calls _ Hf e He) as [H1 H2]. by destruct Hc as [?%H1|?%H2]. Qed.

Lemma writer_same w w' i p t s : w' = with_writer w i (w_set (writers w i) p t) -> t = transmitter_ (writers w i) -> w_view w i s -> w_view w' i s.
Proof. intros -> ->. unfold w_view. cbn. by rewrite fn_lookup_insert. Qed.

(** What a joining or leaving writer knows does not depend on how far the slots are called. *)
Lemma fly_w_knows w i op c l p t s : w_phase (writers w i) = fly op c l -> p = landed op \/ (exists c' l', p = fly op c' l') ->
  w_knows w i s -> w_knows (with_writer w i (w_set (writers w i) p t)) i s.
Proof.
  intros Hp Hq. unfold w_knows, rp_may, rp_sure. cbn. rewrite fn_lookup_insert. cbn. rewrite Hp. destruct op; [by destruct Hq as [->|(? & ? & ->)]|].
  by destruct Hq as [->|(? & ? & ->)].
Qed.

Lemma writer_copies w i op : node_inv w -> w_phase (writers w i) = disposed op -> exists w', Writer_step w i = Some w' /\ node_inv w'.
Proof.
  intros Hi Hp. pose proof (ni_frame _ Hi) as Hf.
  assert (Writer_step w i = Some (with_writer w i (w_set (writers w i) (fly op None (conns w)) (transmitter_ (writers w i))))) as -> by (unfold Writer_step; rewrite Hp; by destruct op).
  eexists. split; [done|]. apply writer_goes_on; rewrite ?Hp; try (by destruct op); [by left; destruct op|..].
  - intros _. destruct (ni_w _ Hi i) as (s & Hs & Hk); [by rewrite Hp; destruct op|]. exists s. split; [by eapply writer_same|].
    unfold w_knows, rp_may, rp_sure in *. cbn. rewrite fn_lookup_insert. cbn. rewrite Hp in Hk. by destruct op.
  - intros j s _ _. apply (r_knows_less w _ i); [done|intros; by apply fn_lookup_insert_ne|]. cbn. rewrite fn_lookup_insert. cbn. rewrite sure_fly.
    intros Hl [_ Hn]. destruct Hn. cbn. by apply (fi_conns _ Hf (false, j)).
Qed.

Lemma writer_calls w i op e l : node_inv w -> w_phase (writers w i) = fly op (Some e) l -> exists w', Writer_step w i = Some w' /\ node_inv w'.
Proof.
  intros Hi Hp. pose proof (ni_frame _ Hi) as Hf. rewrite (Writer_step_fly w i op _ _ Hp). cbn [notify].
  destruct (call_inv (role_msg op ROLE_WRITER 0 (w_attr (writers w i))) w e Hi) as (w1 & He & Hu & Hi1 & Hh).
  { apply (called_up w i); [done|left]. by rewrite Hp, fly_calling. }
  { by eapply writer_truthful. }
  rewrite He. cbn [mbind option_bind fst snd]. eexists. split; [done|]. destruct (up_w _ _ Hu i) as [Ea Ep]. assert (Hp1 : w_phase (writers w1 i) = fly op (Some e) l) by congruence.
  apply writer_goes_on; rewrite ?Hp1; try (by destruct op); [by left; destruct op|..].
  - intros _. destruct (ni_w _ Hi1 i) as (s & Hs & Hk); [by rewrite Hp1; destruct op|]. exists s. split; [by eapply writer_same|]. eapply fly_w_knows; eauto.
  - intros j s _ Hs. apply r_knows_mono; [done|done|]. intros _ p (k & Hk & Hpe). cbn in Hk, Hpe. destruct (decide (k = i)) as [->|Hne].
    + rewrite fn_lookup_insert in Hk, Hpe. cbn in Hk, Hpe. apply sure_fly in Hk as [-> Hk]. destruct (decide (e = (false, j))) as [->|Hej].
      * left. destruct (Hh eq_refl s Hs) as [s0 ->]. apply in_joined. left. cbn [role_attr role_msg]. by rewrite <- Ea.
      * right. split; [|done]. exists i. split; [|done]. rewrite Hp1. apply sure_fly. split; [done|]. cbn. by intros [?|?]%elem_of_cons.
    + rewrite fn_lookup_insert_ne in Hk, Hpe by done. right. split; [by exists k|done].
Qed.

Lemma writer_looks w i op e l : node_inv w -> w_phase (writers w i) = fly op None (e :: l) -> exists w', Writer_step w i = Some w' /\ node_inv w'.
Proof.
  intros Hi Hp. pose proof (ni_frame _ Hi) as Hf. rewrite (Writer_step_fly w i op _ _ Hp). cbn [notify mbind option_bind fst snd]. eexists. split; [done|].
  apply writer_goes_on; rewrite ?Hp; try (by destruct op); [|by left; destruct op|..].
  - intros e'. rewrite fly_calling. case_bool_decide as Hin; [|done]. intros [= <-]. by apply live_up, (fi_conns _ Hf).
  - intros _. destruct (ni_w _ Hi i) as (s & Hs & Hk); [by rewrite Hp; destruct op|]. exists s. split; [by eapply writer_same|]. eapply fly_w_knows; eauto.
  - intros j s _ _. apply (r_knows_less w _ i); [done|intros; by apply fn_lookup_insert_ne|]. cbn. rewrite fn_lookup_insert. cbn. rewrite Hp, !sure_fly.
    intros Hl [-> Hn]. split; [|done]. split; [done|]. case_bool_decide as Hin; [done|]. intros [<-|?]%elem_of_cons; [|done]. by apply Hin, (fi_conns _ Hf (false, j)).
Qed.

Lemma writer_lands w i op : node_inv w -> w_phase (writers w i) = fly op None [] -> (op = OPT_LEAVE -> unchecked w (true, i)) -> exists w', Writer_step w i = Some w' /\ node_inv w'.
Proof.
  intros Hi Hp Hun. pose proof (ni_frame _ Hi) as Hf. rewrite (Writer_step_fly w i op _ _ Hp). cbn [notify mbind option_bind fst snd]. eexists. split; [done|].
  apply writer_goes_on; rewrite ?Hp; try (by destruct op).
  - destruct op; [by left|right; by apply Hun].
  - intros Hup. destruct op; [|done]. destruct (ni_w _ Hi i) as (s & Hs & Hk); [by rewrite Hp|]. exists s. split; [by eapply writer_same|]. eapply fly_w_knows; eauto.
  - intros j s _ _. apply (r_knows_less w _ i); [done|intros; by apply fn_lookup_insert_ne|]. cbn. rewrite fn_lookup_insert. cbn. rewrite Hp, sure_fly. intros _ [Ht Hn]. destruct op; [split; [split; [done|apply not_elem_of_nil]|done]|done].
Qed.

Lemma Writer_step_inv w i : node_inv w -> (w_phase (writers w i) = Parting None [] -> unchecked w (true, i)) -> exists w', Writer_step w i = Some w' /\ node_inv w'.
Proof.
  intros Hi Hun. destruct (w_phase (writers w i)) as [| |[|a l]| |[e|] [|e' l]| | | |[e|] [|e' l]|] eqn:Hp; try (by exists w; unfold Writer_step; rewrite Hp).
  - by apply writer_takes.
  - by apply writer_joins.
  - by eapply writer_enables.
  - by apply (writer_copies w i OPT_JOIN).
  - by apply (writer_calls w i OPT_JOIN e []).
  - by apply (writer_calls w i OPT_JOIN e (e' :: l)).
  - by apply (writer_lands w i OPT_JOIN).
  - by apply (writer_looks w i OPT_JOIN e' l).
  - by apply writer_quits.
  - by apply (writer_copies w i OPT_LEAVE).
  - by apply (writer_calls w i OPT_LEAVE e []).
  - by apply (writer_calls w i OPT_LEAVE e (e' :: l)).
  - apply (writer_lands w i OPT_LEAVE); [done|done|]. intros _. by apply Hun.
  - by apply (writer_looks w i OPT_LEAVE e' l).
Qed.


(** ** Readers *)

(** The frame after a step of reader [j]. *)
Lemma reader_frame w w' j : frame_inv w ->
  writers w' = writers w -> (forall k, k <> j -> readers w' k = readers w k) ->
  (forall k x, receiver_map_ w' !! k = Some x -> hr_mode x.2 = mode /\ k = (proc_of (hr_attr x.2), channel_name (hr_attr x.2))) ->
  (forall e, e ∈ conns w' <-> if decide (e = (false, j)) then live (r_phase (readers w' j)) = true else e ∈ conns w) ->
  topo_ok (topo_readers w') (rjoined w') -> topo_writers w' = topo_writers w -> (generated w <= generated w')%nat ->
  (up (r_phase (readers w' j)) = true -> is_Some (id_ (r_attr (readers w' j)))) ->
  (forall e, calling (r_phase (readers w' j)) = Some e -> up (phase_at w e) = true /\ e <> (false, j) \/ up (phase_at w' e) = true) ->
  (up (r_phase (readers w' j)) = false -> up (r_phase (readers w j)) = false \/ unchecked w (false, j)) ->
  (in_topo (r_phase (readers w' j)) = true -> forall k, k <> j -> parts (r_phase (readers w k)) = true -> id (r_attr (readers w' j)) <> id (r_attr (readers w k))) ->
  (parts (r_phase (readers w' j)) = true -> forall k, k <> j -> in_topo (r_phase (readers w k)) = true -> id (r_attr (readers w k)) <> id (r_attr (readers w' j))) ->
  (parts (r_phase (readers w' j)) = true -> forall i l a, w_phase (writers w i) = Got l -> a ∈ l -> id a <> id (r_attr (readers w' j))) ->
  frame_inv w'.
Proof.
  intros [] Hwr Hre Hma Hco Htr Htw Hge Hid Hca Hdn Hpj Hpl Hpe.
  assert (Hat : forall e, e <> (false, j) -> phase_at w' e = phase_at w e).
  { intros [[] n] He; unfold phase_at; cbn; [by rewrite Hwr|rewrite Hre; [done|congruence]]. }
  split; try done.
  - intros e. rewrite Hco. case_decide as He; [by subst e|]. by rewrite Hat.
  - intros e He. split; intros k; [rewrite Hwr|].
    + destruct (decide (e = (false, j))) as [->|Hne]; [|rewrite Hat in He by done; by apply fi_calls0].
      destruct (Hdn He) as [Hu|Hu]; [by apply (fi_calls0 (false, j) Hu)|by apply Hu].
    + destruct (decide (k = j)) as [->|Hk].
      * intros Hc. destruct (Hca e Hc) as [[Hu Hne]|Hu]; [rewrite Hat in He by done|]; congruence.
      * rewrite Hre by done. destruct (decide (e = (false, j))) as [->|Hne]; [|rewrite Hat in He by done; by apply fi_calls0].
        destruct (Hdn He) as [Hu|Hu]; [by apply (fi_calls0 (false, j) Hu)|by apply Hu].
  - rewrite Htw. eapply topo_iff; [done|]. apply wjoined_ext. intros i. by rewrite Hwr.
  - rewrite Hwr. intros i (n & ? & ?)%fi_ids0. exists n. split; [lia|done].
  - by rewrite Hwr.
  - intros k. destruct (decide (k = j)) as [->|Hk]; [done|]. rewrite (Hre k Hk). apply fi_rid0.
  - intros k k'. destruct (decide (k = j)) as [->|Hk], (decide (k' = j)) as [->|Hk']; rewrite ?(Hre k), ?(Hre k') by done.
    + by destruct (r_phase (readers w' j)).
    + intros H1 H2. by apply Hpj.
    + intros H1 H2. by apply Hpl.
    + apply fi_parting0.
  - intros i l a k. rewrite Hwr. destruct (decide (k = j)) as [->|Hk]; [intros; by eapply Hpe|rewrite (Hre k Hk); apply fi_pend0].
Qed.

Lemma reader_node w w' j : node_inv w -> frame_inv w' -> writers w' = writers w -> (forall k, k <> j -> readers w' k = readers w k) ->
  (forall k s, k <> j -> r_view w k s -> r_view w' k s) ->
  (up (r_phase (readers w' j)) = true -> exists s, r_view w' j s /\ r_knows w' j s) ->
  (forall i s, up (w_phase (writers w i)) = true -> w_view w i s -> w_knows w i s -> w_knows w' i s) -> node_inv w'.
Proof.
  intros [_ Hw Hr] Hf Hwr Hre Hv Hj Hk. split; [done|..].
  - intros i. rewrite Hwr. intros Hp. destruct (Hw i Hp) as (s & Hs & Hkn). exists s. split; [unfold w_view in *; by rewrite Hwr|by apply Hk].
  - intros k. destruct (decide (k = j)) as [->|Hne]; [done|]. rewrite (Hre k Hne). intros Hp. destruct (Hr k Hp) as (s & Hs & Hkn). exists s. split; [by apply Hv|].
    revert Hkn. apply r_knows_mono; [by rewrite (Hre k Hne)..|]. intros _ p. unfold wp_sure. rewrite (Hre k Hne), Hwr. auto.
Qed.

(** What a reader's step does to what a writer must know and may know. *)
Lemma w_knows_step w w' j i s : writers w' = writers w -> (forall k, k <> j -> readers w' k = readers w k) ->
  (live (w_phase (writers w i)) = true -> forall p, peer mode (w_attr (writers w i)) (r_attr (readers w j)) = Some p -> may (true, i) (r_phase (readers w j)) ->
    may (true, i) (r_phase (readers w' j)) /\ r_attr (readers w' j) = r_attr (readers w j) \/
    p ∉ s /\ forall l, w_phase (writers w i) = Got l -> ~ pending (w_attr (writers w i)) l p) ->
  (live (w_phase (writers w i)) = true -> forall p, peer mode (w_attr (writers w i)) (r_attr (readers w' j)) = Some p -> sure (true, i) (r_phase (readers w' j)) ->
    sure (true, i) (r_phase (readers w j)) /\ r_attr (readers w' j) = r_attr (readers w j) \/ p ∈ s) ->
  w_knows w i s -> w_knows w' i s.
Proof.
  intros Hwr Hre Hm Hs. apply w_knows_mono; [by rewrite Hwr..|]. intros Hl p. split.
  - intros (k & Hk & Hp). destruct (decide (k = j)) as [->|Hne].
    + destruct (Hm Hl p Hp Hk) as [[H1 H2]|?]; [|by right]. left. exists j. by rewrite Hwr, H2.
    + left. exists k. by rewrite Hwr, (Hre k Hne).
  - intros (k & Hk & Hp). rewrite Hwr in Hp. destruct (decide (k = j)) as [->|Hne].
    + destruct (Hs Hl p Hp Hk) as [[H1 H2]|?]; [|by right]. left. exists j. by rewrite <- H2.
    + left. exists k. by rewrite <- (Hre k Hne).
Qed.

(** A reader goes on, neither connected nor in the topology otherwise than before. *)
Lemma reader_goes_on w j x' r :
  let x := readers w j in
  let w' := with_routines (with_reader w j x') r in
  node_inv w -> up (r_phase x) = true -> r_attr x' = r_attr x -> live (r_phase x') = live (r_phase x) -> in_topo (r_phase x') = in_topo (r_phase x) ->
  (parts (r_phase x') = true -> parts (r_phase x) = true) ->
  (forall e, calling (r_phase x') = Some e -> up (phase_at w e) = true) -> (up (r_phase x') = true \/ unchecked w (false, j)) ->
  (up (r_phase x') = true -> exists s, r_view w' j s /\ r_knows w' j s) ->
  (forall i s, up (w_phase (writers w i)) = true -> w_view w i s -> w_knows w i s -> w_knows w' i s) -> node_inv w'.
Proof.
  intros x w' Hi Hx Ha Hl Ht Hpa Hc Hdn Hk Hw. pose proof (ni_frame _ Hi) as Hf.
  assert (Hat : readers w' j = x') by apply fn_lookup_insert. assert (Hother : forall k, k <> j -> readers w' k = readers w k) by (intros; by apply fn_lookup_insert_ne).
  apply (reader_node w w' j); [done| |done|done| |by rewrite Hat|done].
  - apply (reader_frame w w' j); [done|done|done|exact (fi_map _ Hf)| | |done|done|..]; rewrite ?Hat, ?Ha.
    + intros e. change (conns w') with (conns w). case_decide as He; [subst e; rewrite Hl; apply (fi_conns _ Hf (false, j))|done].
    + eapply topo_iff; [exact (fi_readers _ Hf)|]. apply rjoined_ext. intros k. cbn. thread_cases k j; done.
    + intros _. by apply (fi_rid _ Hf).
    + intros e He. destruct (decide (e = (false, j))) as [->|Hne]; [right|left; split; [by apply Hc|done]]. unfold phase_at. cbn [fst snd]. rewrite Hat. by destruct (r_phase x').
    + intros Hu. destruct Hdn as [Hdn|]; [congruence|by right].
    + rewrite Ht. intros H1 k _ H2. by apply (fi_parting _ Hf).
    + intros H1 k _ H2. apply (fi_parting _ Hf); [done|by apply Hpa].
    + intros H1 i l a H2 H3. eapply (fi_pend _ Hf); [done|done|by apply Hpa].
  - intros k s Hne (k' & y & H1 & H2). exists k', y. by rewrite (Hother k Hne).
Qed.

Lemma reader_same w j x' r s : r_attr x' = r_attr (readers w j) -> receiver_ x' = receiver_ (readers w j) -> r_view w j s -> r_view (with_routines (with_reader w j x') r) j s.
Proof. intros H1 H2. unfold r_view. cbn. by rewrite fn_lookup_insert, H1, H2. Qed.

Lemma reader_shuts w j : node_inv w -> exists w', Reader_Shutdown w j = Some w' /\ node_inv w'.
Proof.
  intros Hi. pose proof (ni_frame _ Hi) as Hf. unfold Reader_Shutdown. destruct (r_phase (readers w j)) eqn:Hp; try (by exists w).
  set (w' := with_conns _ _). exists w'. split; [done|].
  assert (Hat : readers w' j = r_set (readers w j) Leaving) by apply fn_lookup_insert.
  assert (Hother : forall k, k <> j -> readers w' k = readers w k) by (intros; by apply fn_lookup_insert_ne).
  apply (reader_node w w' j); try done.
  - apply (reader_frame w w' j); try done; rewrite ?Hat; cbn [r_set r_phase r_attr]; try done.
    + exact (fi_map _ Hf).
    + intros e. cbn [w' with_conns conns]. rewrite list_elem_of_filter. case_decide; naive_solver.
    + eapply topo_iff; [exact (fi_readers _ Hf)|]. apply rjoined_ext. intros k. cbn. thread_cases k j; [by rewrite Hp|done].
    + intros _. apply (fi_rid _ Hf). by rewrite Hp.
    + intros _ k _ Hk. apply (fi_parting _ Hf); [by rewrite Hp|done].
  - intros k s Hne (k' & y & H1 & H2). exists k', y. by rewrite (Hother k Hne).
  - intros _. destruct (ni_r _ Hi j) as (s & Hs & _); [by rewrite Hp|]. exists s. split; [|unfold r_knows; by rewrite Hat]. unfold r_view in *. by rewrite Hat.
  - intros i s _ _. apply (w_knows_step w w' j); [done|done|..]; rewrite Hat, Hp; cbn; intros _ p _.
    + intros _. left. split; [by left|done].
    + intros [_ ?]. left. split; [by split|done].
Qed.

Lemma GetReceiver_ok w a : (forall k x, receiver_map_ w !! k = Some x -> hr_mode x.2 = mode /\ k = (proc_of (hr_attr x.2), channel_name (hr_attr x.2))) ->
  is_shutdown (proc_of a) = false ->
  exists h w', GetReceiver w a = Some (h, w') /\
    writers w' = writers w /\ readers w' = readers w /\ conns w' = conns w /\ topo_writers w' = topo_writers w /\ topo_readers w' = topo_readers w /\ (generated w <= generated w')%nat /\
    (forall k x, receiver_map_ w !! k = Some x -> receiver_map_ w' !! k = Some x) /\
    (forall k x, receiver_map_ w' !! k = Some x -> hr_mode x.2 = mode /\ k = (proc_of (hr_attr x.2), channel_name (hr_attr x.2))) /\
    is_Some (receiver_map_ w' !! (proc_of a, channel_name a)).
Proof.
  intros Hm Hd. unfold GetReceiver. destruct (receiver_map_ w !! (proc_of a, channel_name a)) as [x|] eqn:Hx.
  - exists x.1, w. split_and!; try done.
  - rewrite Hd. eexists _, _. split; [done|]. cbn. split_and!; try done; [lia|..].
    + intros k x Hk. rewrite lookup_insert_ne; [done|]. congruence.
    + intros k x. destruct (decide (k = (proc_of a, channel_name a))) as [->|]; [rewrite lookup_insert_eq|rewrite lookup_insert_ne by done; apply Hm].
      intros [= <-]. cbn. split; [done|]. unfold Endpoint_attr. by destruct (id_ a).
    + rewrite lookup_insert_eq. eauto.
Qed.

Lemma Reader_Init_inv w j : node_inv w -> is_shutdown (proc_of (r_attr (readers w j))) = false -> exists w', Reader_Init w j = Some w' /\ node_inv w'.
Proof.
  intros Hi Hd. pose proof (ni_frame _ Hi) as Hf. unfold Reader_Init. destruct (r_phase (readers w j)) eqn:Hp; try (by exists w). cbv zeta.
  set (name := (node_name _ +:+ _)%string). set (a := r_attr (readers w j)) in *. case_decide.
  { set (w' := with_reader _ _ _). exists w'. split; [done|]. assert (Hat : readers w' j = mkReader a Off name (receiver_ (readers w j))) by apply fn_lookup_insert.
    assert (Hother : forall k, k <> j -> readers w' k = readers w k) by (intros; by apply fn_lookup_insert_ne).
    apply (reader_node w w' j); rewrite ?Hat; try done.
    - apply (reader_frame w w' j); try done; rewrite ?Hat; cbn [r_phase r_attr]; try done; [apply (fi_map _ Hf)|..].
      + intros e. change (conns w') with (conns w). case_decide as He; [subst e|done]. rewrite (fi_conns _ Hf (false, j)). unfold phase_at. cbn [fst snd]. by rewrite Hp.
      + eapply topo_iff; [exact (fi_readers _ Hf)|]. apply rjoined_ext. intros k. cbn. thread_cases k j; [by rewrite Hp|done].
      + left. by rewrite Hp.
    - intros k s Hne (k' & y & H1 & H2). exists k', y. by rewrite (Hother k Hne).
    - intros i s _ _. apply (w_knows_step w w' j); [done|done|..]; rewrite Hat, Hp; [intros _ p _ [?|[? _]]; done|intros _ p _ []; done]. }
  destruct (GetReceiver_ok (with_routines w ({[(proc_of a, name)]} ∪ routines w)) a) as (h & w1 & He & E1 & E2 & E3 & E4 & E5 & E6 & Hm1 & Hm2 & [x Hx]); [apply Hf|done|].
  rewrite He. cbn [mbind option_bind fst snd]. cbn in E1, E2, E3, E4, E5, E6, Hm1. set (w' := with_conns _ _). exists w'. split; [done|].
  assert (Hat : readers w' j = mkReader (set_attr_id a h) Listening name (Some (proc_of a, channel_name a))) by apply fn_lookup_insert.
  assert (Hother : forall k, k <> j -> readers w' k = readers w k) by (intros k ?; cbn; by rewrite fn_lookup_insert_ne, E2 by done).
  apply (reader_node w w' j); try done.
  - apply (reader_frame w w' j); try done; rewrite ?Hat; cbn [r_phase r_attr]; try done.
    + intros e. cbn [w' with_conns conns]. rewrite elem_of_app, list_elem_of_singleton. case_decide; naive_solver.
    + change (topo_readers w') with (topo_readers w1). rewrite E5. eapply topo_iff; [exact (fi_readers _ Hf)|]. apply rjoined_ext. intros k. destruct (decide (k = j)) as [->|Hne]; [by rewrite Hat, Hp|by rewrite (Hother k Hne)].
  - intros k s Hne (k' & y & H1 & H2 & H3). exists k', y. rewrite (Hother k Hne). split; [done|]. split; [by apply Hm1|done].
  - intros _. destruct (rx_knows_some x.2) as [s Hs]. exists s. split; [|unfold r_knows; by rewrite Hat].
    exists (proc_of a, channel_name a), x. rewrite Hat. split; [done|]. split; [done|]. destruct (Hm2 _ _ Hx) as [Hmm [Hpp Hcc]%pair_equal_spec]. split; [done|]. by split.
  - intros i s _ _. apply (w_knows_step w w' j); [done|done|..]; rewrite Hat, Hp; [intros _ p _ [?|[? _]]; done|intros _ p _ []; done].
Qed.

Lemma reader_takes w j : node_inv w -> r_phase (readers w j) = Listening -> exists w', Reader_step w j = Some w' /\ node_inv w'.
Proof.
  intros Hi Hp. unfold Reader_step. rewrite Hp. eexists. split; [done|]. pose proof (ni_frame _ Hi) as Hf. set (x' := r_set _ _).
  apply (reader_goes_on w j x' (routines w)); rewrite ?Hp; try done; [by left|..].
  - intros _. destruct (ni_r _ Hi j) as (s & Hs & _); [by rewrite Hp|]. exists s. split; [by apply reader_same|]. unfold r_knows, wp_sure. cbn. rewrite fn_lookup_insert. cbn.
    intros p (i & [Hi' _] & Hpi). right. exists (w_attr (writers w i)). split; [|done]. apply (of_channel_in _ _ _ _ (fi_writers _ Hf)). split; [by apply (peer_channel _ _ _ Hpi)|by exists i].
  - intros i s _ _. apply (w_knows_step w _ j); [done|intros; by apply fn_lookup_insert_ne|..]; cbn; rewrite fn_lookup_insert, Hp; [intros _ p _ [?|[? _]]; done|intros _ p _ []; done].
Qed.

(** Readers that share the receiver only learn of more writers. *)
Lemma reader_enables w j a l : node_inv w -> r_phase (readers w j) = Got (a :: l) -> exists w', Reader_step w j = Some w' /\ node_inv w'.
Proof.
  intros Hi Hp. unfold Reader_step. rewrite Hp. pose proof Hi as [Hf Hw Hr]. destruct (Hr j) as (s & Hs & Hk); [by rewrite Hp|].
  set (g := joined (peer mode (r_attr (readers w j)) a)).
  destruct (reader_apply_view w j (fun r d => REnable r d a) g s Hs) as (w1 & He & Hu & Hv & Ho & Hwo).
  { intros r d s' Hkn Hpl Hm. unfold g. rewrite <- (peer_place _ _ a Hpl), <- Hm. split; [by apply REnable_knows|apply REnable_same]. }
  rewrite He. cbn [mbind option_bind]. eexists. split; [done|]. destruct (up_r _ _ Hu j) as (Ea & Ep & _). set (x' := r_set _ _).
  assert (Hi1 : node_inv w1).
  { split; [by eapply upd_frame|..].
    - intros i. rewrite (proj2 (up_w _ _ Hu i)). intros Hi'. destruct (Hw i Hi') as (s' & ? & ?). exists s'. split; [by apply Hwo|by apply (upd_w_knows w)].
    - intros k. rewrite (proj1 (proj2 (up_r _ _ Hu k))). intros Hk'. destruct (Hr k Hk') as (s' & Hs' & Hkn).
      destruct (Ho k s' Hs') as [?|[? _]]; [exists s'|exists (g s')]; (split; [done|]); [by apply (upd_r_knows w)|].
      apply (upd_r_knows w); [done|]. revert Hkn. apply r_knows_mono; [done|done|]. intros _ p Hpp. right. split; [done|]. unfold g. rewrite in_joined. by right. }
  apply (reader_goes_on w1 j x' (routines w1)); rewrite ?Ep, ?Hp; try done; [by left|..].
  - intros _. exists (g s). split; [by apply reader_same|]. unfold r_knows in *. cbn. rewrite fn_lookup_insert. cbn. rewrite Ea. rewrite Hp in Hk. intros p Hpp.
    assert (wp_sure w j p) as Hx%Hk.
    { apply (upd_wp w w1 j p Hu). destruct Hpp as (i & H1 & H2). exists i. split; [done|]. cbn in H2. by rewrite fn_lookup_insert in H2. }
    rewrite pending_cons in Hx. unfold g. rewrite in_joined. tauto.
  - intros i s' _ _. apply (w_knows_step w1 _ j); [done|intros; by apply fn_lookup_insert_ne|..]; cbn; rewrite fn_lookup_insert, Ep, Hp; [intros _ p _ [?|[? _]]; done|intros _ p _ []; done].
Qed.

(** No reader that joins has the id of one that is leaving. *)
Definition may_join (w : world) (j : nat) : Prop :=
  forall k, parts (r_phase (readers w k)) = true -> id (r_attr (readers w k)) <> id (r_attr (readers w j)).

(** A reader may leave when no other has its id and no writer is about to enable it. *)
Definition may_leave (w : world) (j : nat) : Prop :=
  (forall k, k <> j -> in_topo (r_phase (readers w k)) = true -> id (r_attr (readers w k)) <> id (r_attr (readers w j))) /\
  forall i l a, w_phase (writers w i) = Got l -> a ∈ l -> id a <> id (r_attr (readers w j)).

Lemma reader_joins w j : node_inv w -> r_phase (readers w j) = Got [] -> may_join w j -> exists w', Reader_step w j = Some w' /\ node_inv w'.
Proof.
  intros Hi Hp Hmay. unfold Reader_step. rewrite Hp. eexists. split; [done|]. pose proof (ni_frame _ Hi) as Hf. set (x := readers w j) in *. set (w' := with_reader _ _ _).
  assert (Hat : readers w' j = r_set x Joined) by apply fn_lookup_insert.
  assert (Hother : forall k, k <> j -> readers w' k = readers w k) by (intros; by apply fn_lookup_insert_ne).
  assert (Hrj : forall a, rjoined w' a <-> a = r_attr x \/ rjoined w a).
  { intros a. unfold rjoined. split.
    - intros (k & Hk & Ha). destruct (decide (k = j)) as [->|Hne]; [left; by rewrite Hat in Ha|right; exists k; by rewrite <- (Hother k Hne)].
    - intros [->|(k & Hk & Ha)]; [exists j; by rewrite Hat|]. exists k. destruct (decide (k = j)) as [->|Hne]; [fold x in Hk; by rewrite Hp in Hk|by rewrite (Hother k Hne)]. }
  apply (reader_node w w' j); try done.
  - apply (reader_frame w w' j); try done; rewrite ?Hat; cbn [r_set r_phase r_attr]; try done; [apply (fi_map _ Hf)|..].
    + intros e. change (conns w') with (conns w). case_decide as He; [subst e|done]. rewrite (fi_conns _ Hf (false, j)). unfold phase_at. cbn [fst snd]. fold x. by rewrite Hp.
    + eapply topo_iff; [apply (topo_join _ (rjoined w)), Hf|]. intros a. by rewrite (Hrj a).
    + intros _. apply (fi_rid _ Hf). fold x. by rewrite Hp.
    + intros _ k _ Hk He. by apply (Hmay k Hk).
  - intros k s Hne (k' & y & H1 & H2). exists k', y. by rewrite (Hother k Hne).
  - intros _. destruct (ni_r _ Hi j) as (s & Hs & Hk); [fold x; by rewrite Hp|]. exists s. split; [unfold r_view in *; by rewrite Hat|].
    unfold r_knows, wp_sure in *. rewrite Hat. cbn. fold x in Hk. rewrite Hp in Hk. intros p Hs'. destruct (Hk p Hs') as [?|(a & Ha & _)]; [done|]. by apply not_elem_of_nil in Ha.
  - intros i s _ _. apply (w_knows_step w w' j); [done|done|..]; rewrite Hat; fold x; rewrite Hp; [intros _ p _ [?|[? _]]; done|].
    intros Hl p _ [_ Hn]. by destruct Hn.
Qed.

Lemma reader_quits w j : node_inv w -> r_phase (readers w j) = Leaving -> may_leave w j -> exists w', Reader_step w j = Some w' /\ node_inv w'.
Proof.
  intros Hi Hp [Hone Hnone]. unfold Reader_step. rewrite Hp. eexists. split; [done|]. pose proof (ni_frame _ Hi) as Hf. set (x := readers w j) in *. set (w' := with_reader _ _ _).
  assert (Hat : readers w' j = r_set x Parted) by apply fn_lookup_insert.
  assert (Hother : forall k, k <> j -> readers w' k = readers w k) by (intros; by apply fn_lookup_insert_ne).
  destruct (fi_rid _ Hf j) as [v Hid]; [fold x; by rewrite Hp|]. fold x in Hid. assert (Hidv : id (r_attr x) = v) by (unfold id; by rewrite Hid).
  assert (Hrj : forall a, rjoined w' a <-> rjoined w a /\ id a <> v).
  { intros a. unfold rjoined. split.
    - intros (k & Hk & <-). destruct (decide (k = j)) as [->|Hne]; [by rewrite Hat in Hk|]. rewrite (Hother k Hne) in *. split; [by exists k|]. rewrite <- Hidv. by apply Hone.
    - intros [(k & Hk & <-) Hne]. exists k. destruct (decide (k = j)) as [->|Hki]; [done|by rewrite (Hother k Hki)]. }
  apply (reader_node w w' j); try done.
  - apply (reader_frame w w' j); try done; rewrite ?Hat; cbn [r_set r_phase r_attr]; try done; [apply (fi_map _ Hf)|..].
    + intros e. change (conns w') with (conns w). case_decide as He; [subst e|done]. rewrite (fi_conns _ Hf (false, j)). unfold phase_at. cbn [fst snd]. fold x. by rewrite Hp.
    + eapply topo_iff; [eapply (topo_leave _ (rjoined w)); [apply Hf|exact Hid|]|intros a; symmetry; apply Hrj].
      intros b (k & Hk & <-) Hb. destruct (decide (k = j)) as [->|Hne]; [done|]. destruct (Hone k Hne Hk). congruence.
  - intros k s Hne (k' & y & H1 & H2). exists k', y. by rewrite (Hother k Hne).
  - intros _. destruct (ni_r _ Hi j) as (s & Hs & Hk); [fold x; by rewrite Hp|]. exists s. split; [unfold r_view in *; by rewrite Hat|]. unfold r_knows. by rewrite Hat.
  - intros i s _ _. apply (w_knows_step w w' j); [done|done|..]; rewrite Hat; [|intros _ p _ []; done].
    intros Hl p _ _. left. split; [|done]. by right.
Qed.


(** [Signal::operator()] from a reader that joins or leaves. *)
Definition fly_to (op : OperateType) (x : Reader) (r : option (option slot * list slot)) : Reader :=
  match r, op with
  | Some (c, l), _ => r_set x (fly op c l)
  | None, OPT_JOIN => r_set x On
  | None, OPT_LEAVE => mkReader (r_attr x) Down (croutine_name_ x) None
  end.

Lemma Reader_step_fly w j op c l : r_phase (readers w j) = fly op c l ->
  exists rs, Reader_step w j = (r ← notify (role_msg op ROLE_READER 0 (r_attr (readers w j))) w c l;
    Some (with_routines (with_reader r.1 j (fly_to op (readers r.1 j) r.2)) (rs r))).
Proof.
  intros Hp. unfold Reader_step. rewrite Hp. destruct op; cbn [fly].
  - exists (fun r => routines r.1). by destruct (notify _ _ _ _) as [[w1 [[c' l']|]]|].
  - exists (fun r => if r.2 is Some _ then routines r.1 else routines r.1 ∖ {[(proc_of (r_attr (readers r.1 j)), croutine_name_ (readers r.1 j))]}).
    by destruct (notify _ _ _ _) as [[w1 [[c' l']|]]|].
Qed.

Lemma reader_truthful w j op c l : frame_inv w -> r_phase (readers w j) = fly op c l -> truthful (role_msg op ROLE_READER 0 (r_attr (readers w j))) w.
Proof.
  intros Hf Hp. destruct op.
  - intros _ i p Hpe. exists j. split; [left; by rewrite Hp|done].
  - split; [|done]. intros _ a (k & Hk & <-). apply (fi_parting _ Hf); [done|by rewrite Hp].
Qed.

Lemma fly_r_knows w j op c l x' rs s : r_phase (readers w j) = fly op c l -> r_attr x' = r_attr (readers w j) -> r_phase x' = On /\ op = OPT_JOIN \/ (exists c' l', r_phase x' = fly op c' l') ->
  r_knows w j s -> r_knows (with_routines (with_reader w j x') rs) j s.
Proof.
  intros Hp Ha Hq. unfold r_knows, wp_sure. cbn. rewrite fn_lookup_insert, Ha, Hp. destruct op; [by destruct Hq as [[-> _]|(? & ? & ->)]|].
  by destruct Hq as [[_ ?]|(? & ? & ->)].
Qed.

Lemma may_fly e op c l : may e (fly op c l) <-> op = OPT_JOIN \/ e ∈ option_list c ++ l.
Proof. unfold may. destruct op; cbn; naive_solver. Qed.

Lemma reader_copies w j op : node_inv w -> r_phase (readers w j) = disposed op -> exists w', Reader_step w j = Some w' /\ node_inv w'.
Proof.
  intros Hi Hp. pose proof (ni_frame _ Hi) as Hf.
  assert (Reader_step w j = Some (with_routines (with_reader w j (r_set (readers w j) (fly op None (conns w)))) (routines w))) as -> by (unfold Reader_step; rewrite Hp; by destruct op).
  eexists. split; [done|]. apply reader_goes_on; cbn [r_set r_phase r_attr]; rewrite ?Hp; try (by destruct op); [by left; destruct op|..].
  - intros _. destruct (ni_r _ Hi j) as (s & Hs & Hk); [by rewrite Hp; destruct op|]. exists s. split; [by apply reader_same|].
    unfold r_knows, wp_sure in *. cbn. rewrite fn_lookup_insert. cbn. rewrite Hp in Hk. by destruct op.
  - intros i s _ _. apply (w_knows_step w _ j); [done|intros; by apply fn_lookup_insert_ne|..]; cbn; rewrite fn_lookup_insert; cbn [r_set r_phase r_attr].
    + intros Hl p _ _. left. split; [|done]. apply may_fly. right. by apply (fi_conns _ Hf (true, i)).
    + intros Hl p _ [_ Hn]%sure_fly. destruct Hn. by apply (fi_conns _ Hf (true, i)).
Qed.

Lemma reader_calls w j op e l : node_inv w -> r_phase (readers w j) = fly op (Some e) l -> exists w', Reader_step w j = Some w' /\ node_inv w'.
Proof.
  intros Hi Hp. pose proof (ni_frame _ Hi) as Hf. destruct (Reader_step_fly w j op _ _ Hp) as [rs ->]. cbn [notify].
  destruct (call_inv (role_msg op ROLE_READER 0 (r_attr (readers w j))) w e Hi) as (w1 & He & Hu & Hi1 & Hh).
  { apply (called_up w j); [done|right]. by rewrite Hp, fly_calling. }
  { by eapply reader_truthful. }
  rewrite He. cbn [mbind option_bind fst snd fly_to]. eexists. split; [done|]. destruct (up_r _ _ Hu j) as (Ea & Ep & _). assert (Hp1 : r_phase (readers w1 j) = fly op (Some e) l) by congruence.
  apply reader_goes_on; cbn [r_set r_phase r_attr]; rewrite ?Hp1; try (by destruct op); [by left; destruct op|..].
  - intros _. destruct (ni_r _ Hi1 j) as (s & Hs & Hk); [by rewrite Hp1; destruct op|]. exists s. split; [by apply reader_same|]. eapply fly_r_knows; eauto.
  - intros i s _ Hs. apply (w_knows_step w1 _ j); [done|intros; by apply fn_lookup_insert_ne|..]; cbn; rewrite fn_lookup_insert; cbn [r_set r_phase r_attr]; rewrite Hp1.
    + intros Hl p Hpe Hmay%may_fly. destruct (decide (op = OPT_JOIN \/ (true, i) ∈ l)) as [|Hno]; [left; split; [by apply may_fly|done]|right].
      assert (op = OPT_LEAVE) as -> by (destruct op; naive_solver). assert (e = (true, i)) as -> by (destruct Hmay as [?|[?|?]%elem_of_cons]; [tauto|done|tauto]).
      split.
      * destruct (Hh eq_refl s Hs) as [s0 ->]. rewrite in_told. cbn [operate_type role_attr role_msg]. intros [Hn _]. apply Hn. by rewrite <- Ea.
      * intros l' Hgot (a & Hin & Hpa). apply (fi_pend _ (ni_frame _ Hi1) i l' a j Hgot Hin); [by rewrite Hp1|]. by eapply peer_id.
    + intros Hl p Hpe [-> Hn]%sure_fly. destruct (decide (e = (true, i))) as [->|Hei].
      * right. destruct (Hh eq_refl s Hs) as [s0 ->]. apply in_joined. left. cbn [role_attr role_msg]. by rewrite <- Ea.
      * left. split; [|done]. apply sure_fly. split; [done|]. by intros [?|?]%elem_of_cons.
Qed.

Lemma reader_looks w j op e l : node_inv w -> r_phase (readers w j) = fly op None (e :: l) -> exists w', Reader_step w j = Some w' /\ node_inv w'.
Proof.
  intros Hi Hp. pose proof (ni_frame _ Hi) as Hf. destruct (Reader_step_fly w j op _ _ Hp) as [rs ->]. cbn [notify mbind option_bind fst snd fly_to]. eexists. split; [done|].
  assert (Hlive : forall i, live (w_phase (writers w i)) = true -> (true, i) ∈ e :: l -> (true, i) ∈ option_list (if bool_decide (e ∈ conns w) then Some e else None) ++ l).
  { intros i Hl. case_bool_decide as Hin; [done|]. intros [<-|?]%elem_of_cons; [|done]. by destruct Hin; apply (fi_conns _ Hf (true, i)). }
  assert (Hback : forall e', e' ∈ option_list (if bool_decide (e ∈ conns w) then Some e else None) ++ l -> e' ∈ e :: l).
  { intros e'. case_bool_decide; [done|]. by right. }
  apply reader_goes_on; cbn [r_set r_phase r_attr]; rewrite ?Hp; try (by destruct op); [|by left; destruct op|..].
  - intros e'. rewrite fly_calling. case_bool_decide as Hin; [|done]. intros [= <-]. by apply live_up, (fi_conns _ Hf).
  - intros _. destruct (ni_r _ Hi j) as (s & Hs & Hk); [by rewrite Hp; destruct op|]. exists s. split; [by apply reader_same|]. eapply fly_r_knows; eauto.
  - intros i s _ _. apply (w_knows_step w _ j); [done|intros; by apply fn_lookup_insert_ne|..]; cbn; rewrite fn_lookup_insert; cbn [r_set r_phase r_attr]; rewrite Hp.
    + intros Hl p _ [?|?]%may_fly; left; (split; [|done]); apply may_fly; [by left|right; by apply Hlive].
    + intros Hl p _ [-> Hn]%sure_fly. left. split; [|done]. apply sure_fly. split; [done|]. intros ?. by apply Hn, Hlive.
Qed.

Lemma reader_lands w j op : node_inv w -> r_phase (readers w j) = fly op None [] -> (op = OPT_LEAVE -> unchecked w (false, j)) -> exists w', Reader_step w j = Some w' /\ node_inv w'.
Proof.
  intros Hi Hp Hun. pose proof (ni_frame _ Hi) as Hf. destruct (Reader_step_fly w j op _ _ Hp) as [rs ->]. cbn [notify mbind option_bind fst snd]. eexists. split; [done|].
  apply reader_goes_on; rewrite ?Hp; try (by destruct op).
  - destruct op; [by left|right; by apply Hun].
  - intros Hup. destruct op; [|done]. destruct (ni_r _ Hi j) as (s & Hs & Hk); [by rewrite Hp|]. exists s. split; [by apply reader_same|]. eapply fly_r_knows; eauto.
  - intros i s _ _. apply (w_knows_step w _ j); [done|intros; by apply fn_lookup_insert_ne|..]; cbn; rewrite fn_lookup_insert, Hp.
    + intros Hl p _ [->|Hn]%may_fly; [left; split; [by left|done]|]. by apply not_elem_of_nil in Hn.
    + intros Hl p _ [Ht Hn]. left. rewrite sure_fly. destruct op; [|done]. split; [split; [done|apply not_elem_of_nil]|done].
Qed.

Lemma Reader_step_inv w j : node_inv w -> (r_phase (readers w j) = Got [] -> may_join w j) -> (r_phase (readers w j) = Leaving -> may_leave w j) ->
  (r_phase (readers w j) = Parting None [] -> unchecked w (false, j)) -> exists w', Reader_step w j = Some w' /\ node_inv w'.
Proof.
  intros Hi Hj Hl Hun. destruct (r_phase (readers w j)) as [| |[|a l]| |[e|] [|e' l]| | | |[e|] [|e' l]|] eqn:Hp; try (by exists w; unfold Reader_step; rewrite Hp).
  - by apply reader_takes.
  - by apply reader_joins; [..|apply Hj].
  - by eapply reader_enables.
  - by apply (reader_copies w j OPT_JOIN).
  - by apply (reader_calls w j OPT_JOIN e []).
  - by apply (reader_calls w j OPT_JOIN e (e' :: l)).
  - by apply (reader_lands w j OPT_JOIN).
  - by apply (reader_looks w j OPT_JOIN e' l).
  - by apply reader_quits; [..|apply Hl].
  - by apply (reader_copies w j OPT_LEAVE).
  - by apply (reader_calls w j OPT_LEAVE e []).
  - by apply (reader_calls w j OPT_LEAVE e (e' :: l)).
  - apply (reader_lands w j OPT_LEAVE); [done|done|]. intros _. by apply Hun.
  - by apply (reader_looks w j OPT_LEAVE e' l).
Qed.

(** What is asked of a history: readers come up while their transport runs, join and leave when they may, and
    no end is let go while it is about to be called. *)
Definition allowed (w : world) (e : node_event) : Prop :=
  match e with
  | WStep i => w_phase (writers w i) = Parting None [] -> unchecked w (true, i)
  | RInit j => is_shutdown (proc_of (r_attr (readers w j))) = false
  | RStep j => match r_phase (readers w j) with Got [] => may_join w j | Leaving => may_leave w j | Parting None [] => unchecked w (false, j) | _ => True end
  | _ => True
  end.
Fixpoint allowed_run (w : world) (evs : list node_event) : Prop :=
  match evs with
  | [] => True
  | e :: evs => allowed w e /\ forall w', node_step w e = Some w' -> allowed_run w' evs
  end.

Lemma node_step_inv w e : node_inv w -> allowed w e -> exists w', node_step w e = Some w' /\ node_inv w'.
Proof.
  intros Hi Ha. destruct e; cbn in *; [by apply Writer_Init_inv|by apply Writer_step_inv|by apply writer_shuts|by apply Reader_Init_inv| |by apply reader_shuts].
  apply Reader_step_inv; [done|intros Hp; by rewrite Hp in Ha..].
Qed.

Lemma node_run_inv w evs : node_inv w -> allowed_run w evs -> exists w', node_run w evs = Some w' /\ node_inv w'.
Proof.
  revert w. induction evs as [|e evs IH]; intros w Hi Ha; [by exists w|]. destruct Ha as [Ha Hall].
  destruct (node_step_inv w e Hi Ha) as (w1 & He & Hi1). destruct (IH w1 Hi1 (Hall w1 He)) as (w2 & Hr & Hi2). exists w2. split; [|done].
  unfold node_run in *. cbn [foldl mbind option_bind]. by rewrite He.
Qed.

Lemma world_new_inv wa ra disp : node_inv (world_new wa ra disp).
Proof.
  split; [split; cbn; try done|done|done].
  - intros [[] n]; unfold phase_at; cbn; split; (done || by intros ?%not_elem_of_nil).
  - split; [by intros x ?%not_elem_of_nil|by intros a (? & ? & _)].
  - split; [by intros x ?%not_elem_of_nil|by intros a (? & ? & _)].
Qed.

(** C21: The starts and ends of any writers and readers interleave on any processes; a message of the topology
    copies the slots that are connected and then looks at each and calls it, between the steps of
    the others.  No call goes through a null pointer; a running writer sends a message on the
    modes of every reader that has joined and of whose joining it has not still to hear, and on no mode but
    those of readers that have joined or of whose leaving it has still to hear; the receiver of a
    running reader is enabled for every writer of its channel that has joined and of whose joining
    it has not still to hear, under the mode that writer sends on.  This is shown for histories
    ([allowed]) in which a reader starts while the transport of its process runs, joins with an id that
    no reader that is leaving has and leaves with an id that no other reader in the topology has
    and that no writer has still to enable from what it took from the topology, and in which no end
    completes its shutdown while a notification has found its slot connected and has not
    called it yet.  Without the first and the last of these calls do go through a null pointer
    ([null_receiver], [null_transmitter]).  Ends are started once; the channel managers of the processes
    change together; an id is the hash of an identity, and no two identities have the same. *)
Theorem node_ends_meet wa ra disp evs :
  allowed_run (world_new wa ra disp) evs ->
  exists w, node_run (world_new wa ra disp) evs = Some w /\
    (forall i, w_phase (writers w i) = On -> exists t, transmitter_ (writers w i) = Some t /\ forall msg m,
       (m ∈ (Transmit t msg).1 ->
          exists j, may (true, i) (r_phase (readers w j)) /\ peer mode (w_attr (writers w i)) (r_attr (readers w j)) = Some (m, id (r_attr (readers w j)))) /\
       forall j, sure (true, i) (r_phase (readers w j)) -> peer mode (w_attr (writers w i)) (r_attr (readers w j)) = Some (m, id (r_attr (readers w j))) ->
          m ∈ (Transmit t msg).1) /\
    (forall i j m, r_phase (readers w j) = On -> sure (false, j) (w_phase (writers w i)) ->
       peer mode (w_attr (writers w i)) (r_attr (readers w j)) = Some (m, id (r_attr (readers w j))) ->
       exists k x, receiver_ (readers w j) = Some k /\ receiver_map_ w !! k = Some x /\ is_Some (default ∅ (hr_transmitters x.2 !! m) !! id (w_attr (writers w i)))).
Proof.
  intros Ha. destruct (node_run_inv _ _ (world_new_inv wa ra disp) Ha) as (w & Hrun & [Hf Hw Hr]). exists w. split; [done|]. split.
  - intros i Hp. destruct (Hw i) as (s & (t & Ht & Hm & _ & Hok) & Hk); [by rewrite Hp|]. unfold w_knows in Hk. rewrite Hp in Hk. exists t. split; [done|].
    intros msg m. pose proof (proj2 (sent_modes t s msg Hok) m) as Hsent. rewrite Hm in Hsent. destruct Hk as [H1 H2]. split.
    + intros [_ [n (j & Hj & Hpe)%H1]]%Hsent. exists j. split; [done|]. pose proof (peer_channel _ _ _ Hpe) as [_ Hn]. cbn in Hn. by rewrite <- Hn.
    + intros j Hj Hpe. apply Hsent. split; [by apply (mapping_modes _ _ _ _ Hpe)|]. exists (id (r_attr (readers w j))). apply H2. by exists j.
  - intros i j m Hp Hi Hpe. destruct (Hr j) as (s & (k & x & Hk & Hx & Hm & _ & Hkn) & Hkk); [by rewrite Hp|]. exists k, x. split; [done|]. split; [done|].
    unfold r_knows in Hkk. rewrite Hp in Hkk. apply (Hkn m). apply Hkk. exists i. split; [done|].
    unfold peer in *. rewrite (GetRelation_sym (r_attr (readers w j))). case_decide; [done|]. by injection Hpe as <-.
Qed.

End Node.

(** ** Nodes *)
Definition QOS_PROFILE_DEFAULT : QosProfile :=
  mkQos (Some HISTORY_KEEP_LAST) (Some 1) (Some 0) (Some RELIABILITY_RELIABLE) (Some DURABILITY_VOLATILE).

(** [RegisterChannel], the name of the message type and the descriptor of a type are arguments. *)
Section NodeImpl.
Context (RegisterChannel : string -> Z) (MessageType : string) (GetDescriptorString : string -> string).

(** The attributes of a node, as its constructor makes them. *)
Definition node_attr (host ip : string) (pid : Z) (name : string) (node_id : Z) : RoleAttributes :=
  mkAttr (Some host) (Some ip) (Some pid) (Some name) (Some node_id) None None None None None None None None None.

Definition FillInAttr (n a : RoleAttributes) : RoleAttributes :=
  let mt := default MessageType (message_type_ a) in
  mkAttr (Some (host_name n)) (Some (host_ip n)) (Some (process_id n)) (Some (node_name n)) (Some (node_id n)) (channel_name_ a)
    (Some (RegisterChannel (channel_name a))) (Some mt) (Some (default (GetDescriptorString mt) (proto_desc_ a))) (id_ a)
    (Some (default QOS_PROFILE_DEFAULT (qos_profile_ a))) (socket_addr_ a) (service_name_ a) (service_id_ a).

(** [NodeChannelImpl::CreateWriter] and [CreateReader] up to [Init]: the attributes of the new end. *)
Definition new_end (n a : RoleAttributes) : option RoleAttributes :=
  match channel_name_ a with None | Some EmptyString => None | Some _ => Some (FillInAttr n a) end.

(** The overloads that take a name, or a configuration. *)
Definition named_attr (channel : string) : RoleAttributes := mkAttr None None None None None (Some channel) None None None None None None None None.
Record ReaderConfig := mkConfig { config_channel : string; config_qos : QosProfile; pending_queue_size : Z }.
Definition ReaderConfig_new : ReaderConfig := mkConfig "" QOS_PROFILE_DEFAULT 1.
Definition config_attr (c : ReaderConfig) : RoleAttributes :=
  mkAttr None None None None None (Some (config_channel c)) None None None None (Some (config_qos c)) None None None.

(** [Node::CreateReader]: a node has one reader per channel; [init] is what the reader's [Init] returns. *)
Definition Node_CreateReader (readers_ : gmap string RoleAttributes) (n a : RoleAttributes) (init : RoleAttributes -> bool) : option RoleAttributes * gmap string RoleAttributes :=
  match readers_ !! channel_name a with
  | Some _ => (None, readers_)
  | None =>
      match new_end n a with
      | Some r => if init r then (Some r, <[channel_name a := r]> readers_) else (None, readers_)
      | None => (None, readers_)
      end
  end.

Definition DeleteReader (readers_ : gmap string RoleAttributes) (channel : string) : bool * gmap string RoleAttributes :=
  (bool_decide (is_Some (readers_ !! channel)), delete channel readers_).

Definition GetReader (readers_ : gmap string RoleAttributes) (channel : string) : option RoleAttributes := readers_ !! channel.

(** The ends of a node are of its process and have no id of their own but the one asked for. *)
Lemma new_end_place n a r : new_end n a = Some r -> proc_of r = proc_of n /\ channel_name r = channel_name a /\ id_ r = id_ a /\ is_Some (qos_profile_ r).
Proof. unfold new_end. destruct (channel_name_ a) as [[|c l]|]; [done|intros [= <-]|done]. by eexists. Qed.

(** The readers of a node are filed by their channels. *)
Lemma Node_CreateReader_filed readers_ n a init :
  (forall c r, readers_ !! c = Some r -> channel_name r = c /\ proc_of r = proc_of n) ->
  forall c r, (Node_CreateReader readers_ n a init).2 !! c = Some r -> channel_name r = c /\ proc_of r = proc_of n.
Proof.
  intros H c r. unfold Node_CreateReader. destruct (readers_ !! channel_name a); [apply H|]. destruct (new_end n a) as [x|] eqn:Hx; [|apply H].
  destruct (init x); [|apply H]. cbn. apply new_end_place in Hx as (Hp & Hc & _).
  destruct (decide (c = channel_name a)) as [->|]; [rewrite lookup_insert_eq; by intros [= <-]|rewrite lookup_insert_ne by done; apply H].
Qed.
End NodeImpl.

(** ** Examples *)
Definition node_end (host : string) (pid : Z) (node channel : string) : RoleAttributes :=
  mkAttr (Some host) (Some host) (Some pid) (Some node) None (Some channel) (Some 77) None None None None None None None.

Definition demo_ident (n : nat) : Identity := mkId [] (1000 + Z.of_nat n).

Lemma demo_ident_inj n m : HashValue (demo_ident n) = HashValue (demo_ident m) -> n = m.
Proof. cbn. lia. Qed.

Abbreviation demo_run := (node_run (M := Z) (D := Dispatcher (M := Z)) None None demo_ident (fun _ => false) 0 0).
Abbreviation rsteps j n := (replicate n (RStep j)).
Abbreviation wsteps i n := (replicate n (WStep i)).

(** Writers in process 100; readers in process 200, of nodes "a" and "b". *)
Definition demo_world (ch0 : string) (node1 ch1 : string) : world (M := Z) (D := Dispatcher (M := Z)) :=
  world_new (fun _ => node_end "h" 100 "w" "c")
    (fun j => match j with 0%nat => node_end "h" 200 "a" ch0 | _ => node_end "h" 200 node1 ch1 end) (fun _ _ => Dispatcher_new).

(** The same with the second reader in a process of its own. *)
Definition apart_world : world (M := Z) (D := Dispatcher (M := Z)) :=
  world_new (fun _ => node_end "h" 100 "w" "c") (fun j => node_end "h" (200 + Z.of_nat j) "a" "c") (fun _ _ => Dispatcher_new).

(** What writer [i] sends on, and the phases of the first two readers. *)
Definition observe (ow : option (world (M := Z) (D := Dispatcher (M := Z)))) (i : nat) : option (list OptionalMode * phase * phase) :=
  w ← ow; t ← transmitter_ (writers w i); Some ((Transmit t 7).1, r_phase (readers w 0), r_phase (readers w 1)).

(** Two readers and two writers come up.  The first reader leaves: its message finds the second writer
    connected, that writer begins its shutdown, is called, and completes it. *)
Definition demo_events : list node_event :=
  [RInit 0] ++ rsteps 0 6 ++ [RInit 1] ++ rsteps 1 8 ++ [WInit 0] ++ wsteps 0 12 ++ [WInit 1] ++ wsteps 1 14 ++
  [RShutdown 0] ++ rsteps 0 7 ++ [WShutdown 1; WStep 1] ++ [RStep 0] ++ wsteps 1 6 ++ [RStep 0].

(** [allowed_run] by what the prefixes of the history lead to. *)
Section Prefixes.
Context (w0 : world (M := Z) (D := Dispatcher (M := Z))).

Fixpoint allowed_from (pre evs : list node_event) : Prop :=
  match evs with
  | [] => True
  | e :: evs => (forall w, demo_run w0 pre = Some w -> allowed (fun _ => false) w e) /\ allowed_from (pre ++ [e]) evs
  end.

Lemma allowed_from_run pre evs w : demo_run w0 pre = Some w -> allowed_from pre evs -> allowed_run None None demo_ident (fun _ => false) 0 0 w evs.
Proof.
  revert pre w. induction evs as [|e evs IH]; intros pre w Hw; [done|]. intros [Ha Hf]. split; [by apply Ha|].
  intros w' He. apply (IH (pre ++ [e])); [|done]. unfold node_run in *. rewrite foldl_app, Hw. done.
Qed.

Lemma then_is {A} (f : world -> A) pre w v : demo_run w0 pre = Some w -> f <$> demo_run w0 pre = Some v -> f w = v.
Proof. intros ->. by intros [= ?]. Qed.
End Prefixes.

(** Computes what [H : demo_run w0 pre = Some w] gives for [f w]. *)
Ltac then_is H f :=
  lazymatch type of H with
  | node_run _ _ _ _ _ _ ?w0 ?pre = Some ?w =>
    let r := eval vm_compute in (f <$> demo_run w0 pre) in
    lazymatch r with Some ?v => let E := fresh in assert (E : f w = v) by (apply (then_is w0 f pre w v H); vm_cast_no_check (eq_refl (Some v))); cbv beta in E; rewrite E; clear E end
  end.
Ltac phase_then H :=
  match goal with
  | |- context [r_phase (readers ?w ?j)] => then_is H (fun w : world (M := Z) (D := Dispatcher (M := Z)) => r_phase (readers w j))
  | |- context [w_phase (writers ?w ?i)] => then_is H (fun w : world (M := Z) (D := Dispatcher (M := Z)) => w_phase (writers w i))
  end.

(** One event of the history after the other. *)
Ltac walk :=
  lazymatch goal with
  | |- True => exact I
  | |- _ /\ _ =>
    split; [let w := fresh "w" in let Hw := fresh "Hw" in intros w Hw; cbn [allowed];
      lazymatch goal with |- True => exact I | |- _ = false => reflexivity
      | |- _ => phase_then Hw; lazymatch goal with |- True => exact I | |- _ = _ -> _ => let Hx := fresh in intros Hx; first [discriminate Hx|clear Hx] | |- _ => idtac end end|walk]
  end.

Lemma node_ends_meet_witness :
  allowed_run (M := Z) (D := Dispatcher (M := Z)) None None demo_ident (fun _ => false) 0 0 apart_world demo_events /\
  observe (demo_run apart_world demo_events) 0 = Some ([SHM], Down, On) /\
  exists w, demo_run apart_world demo_events = Some w.
Proof.
  assert (Ha : allowed_run (M := Z) (D := Dispatcher (M := Z)) None None demo_ident (fun _ => false) 0 0 apart_world demo_events).
  { apply (allowed_from_run apart_world []); [reflexivity|]. cbn [demo_events app replicate allowed_from].
    walk.
    - intros [|[|k]]; phase_then Hw; intros Hx; discriminate Hx.
    - intros [|[|k]]; phase_then Hw; intros Hx; discriminate Hx.
    - split.
      + intros [|[|k]] Hk; [by destruct Hk| |phase_then Hw; intros Hx; discriminate Hx]. intros _.
        then_is Hw (fun w : world (M := Z) (D := Dispatcher (M := Z)) => id (r_attr (readers w 1))). then_is Hw (fun w : world (M := Z) (D := Dispatcher (M := Z)) => id (r_attr (readers w 0))). discriminate.
      + intros [|[|i]] l a; phase_then Hw; intros Hx; discriminate Hx.
    - split; intros [|[|k]]; phase_then Hw; discriminate.
    - split; intros [|[|k]]; phase_then Hw; discriminate. }
  split; [exact Ha|]. split; [vm_compute; reflexivity|].
  destruct (node_ends_meet None None demo_ident (fun _ => false) 0 0 demo_ident_inj _ _ _ demo_events Ha) as (w & Hw & _). by exists w.
Defined.

(** Two nodes of a process read a channel through one receiver and so with one id: the end of one
    reader cuts the other off from a writer of another process. *)
Theorem shared_receiver_cut_off :
  let evs := [RInit 0] ++ rsteps 0 6 ++ [RInit 1] ++ rsteps 1 9 ++ [WInit 0] ++ wsteps 0 12 in
  observe (demo_run (demo_world "c" "b" "c") evs) 0 = Some ([SHM], On, On) /\
  observe (demo_run (demo_world "c" "b" "c") (evs ++ [RShutdown 0] ++ rsteps 0 7)) 0 = Some ([], Down, On).
Proof. split; vm_compute; reflexivity. Qed.

(** A reader that leaves between the look at the topology and the loop over it stays enabled. *)
Theorem stale_reader_enabled :
  observe (demo_run (demo_world "c" "b" "c") ([RInit 0] ++ rsteps 0 6 ++ [WInit 0; WStep 0; RShutdown 0] ++ rsteps 0 5 ++ wsteps 0 6)) 0 = Some ([SHM], Down, Off).
Proof. vm_compute. reflexivity. Qed.

(** Node and channel are joined by "_" into the name of the routine: the second of two readers of
    different channels does not come up. *)
Theorem reader_name_collides :
  observe (demo_run (world_new (fun _ => node_end "h" 100 "w" "c")
    (fun j => match j with 0%nat => node_end "h" 200 "a_b" "c" | _ => node_end "h" 200 "a" "b_c" end) (fun _ _ => Dispatcher_new))
    ([WInit 0] ++ wsteps 0 6 ++ [RInit 0] ++ rsteps 0 9 ++ [RInit 1] ++ rsteps 1 2)) 0 = Some ([SHM], On, Off).
Proof. vm_compute. reflexivity. Qed.

(** The slots are called outside of the lock of the signal: a reader that leaves has found the
    writer's slot connected, the writer shuts down to the end, then the slot is called and the transmitter is a null pointer. *)
Theorem null_transmitter :
  let evs := [RInit 0] ++ rsteps 0 6 ++ [WInit 0] ++ wsteps 0 9 ++ [RShutdown 0] ++ rsteps 0 3 ++ [WShutdown 0] ++ wsteps 0 3 in
  (fun w => (r_phase (readers w 0), w_phase (writers w 0))) <$> demo_run (demo_world "c" "b" "c") evs = Some (Parting (Some (true, 0%nat)) [], Down) /\
  demo_run (demo_world "c" "b" "c") (evs ++ [RStep 0]) = None.
Proof. split; vm_compute; reflexivity. Qed.

(** The receiver that is made after the transport was shut down is a null pointer. *)
Theorem null_receiver :
  node_run (M := Z) (D := Dispatcher (M := Z)) None None demo_ident (fun _ => true) 0 0 (demo_world "c" "b" "c") [RInit 0] = None.
Proof. vm_compute. reflexivity. Qed.
