(* ===== verification/CRoutine.v ===== *)
(** * Coroutines

    croutine/croutine.h and croutine.cc: the record of a coroutine, its lock [lock_], its update
    flag [updated_] and the transitions of its state.  The context switch is assembly; running a
    coroutine until it gives control back is an argument of [Resume].  [updated_] is an atomic
    flag: [true] is set, [SetUpdateFlag] clears it. *)

From stdpp Require Import base strings.
From S2P Require Import Prelude.

Inductive RoutineState := READY | FINISHED | SLEEP | IO_WAIT | DATA_WAIT.

#[global] Instance RoutineState_eq_dec : EqDecision RoutineState.
Proof. solve_decision. Defined.

(** Times of the steady clock are integers. *)
Record CRoutine := mkCR {
  cr_name : string;
  wake_time_ : Z;
  state_ : RoutineState;
  lock_ : bool;
  updated_ : bool;
  force_stop_ : bool;
  processor_id_ : Z;
  priority_ : Z;
  cr_id : Z;
  group_name_ : string
}.

Definition set_state (c : CRoutine) s := mkCR (cr_name c) (wake_time_ c) s (lock_ c) (updated_ c) (force_stop_ c) (processor_id_ c) (priority_ c) (cr_id c) (group_name_ c).
Definition set_lock (c : CRoutine) b := mkCR (cr_name c) (wake_time_ c) (state_ c) b (updated_ c) (force_stop_ c) (processor_id_ c) (priority_ c) (cr_id c) (group_name_ c).
Definition set_updated (c : CRoutine) b := mkCR (cr_name c) (wake_time_ c) (state_ c) (lock_ c) b (force_stop_ c) (processor_id_ c) (priority_ c) (cr_id c) (group_name_ c).
Definition set_wake_time (c : CRoutine) t := mkCR (cr_name c) t (state_ c) (lock_ c) (updated_ c) (force_stop_ c) (processor_id_ c) (priority_ c) (cr_id c) (group_name_ c).
Definition Stop (c : CRoutine) := mkCR (cr_name c) (wake_time_ c) (state_ c) (lock_ c) (updated_ c) true (processor_id_ c) (priority_ c) (cr_id c) (group_name_ c).
Definition set_id (c : CRoutine) i := mkCR (cr_name c) (wake_time_ c) (state_ c) (lock_ c) (updated_ c) (force_stop_ c) (processor_id_ c) (priority_ c) i (group_name_ c).
Definition set_name (c : CRoutine) n := mkCR n (wake_time_ c) (state_ c) (lock_ c) (updated_ c) (force_stop_ c) (processor_id_ c) (priority_ c) (cr_id c) (group_name_ c).
Definition set_processor_id (c : CRoutine) p := mkCR (cr_name c) (wake_time_ c) (state_ c) (lock_ c) (updated_ c) (force_stop_ c) p (priority_ c) (cr_id c) (group_name_ c).
Definition set_priority (c : CRoutine) p := mkCR (cr_name c) (wake_time_ c) (state_ c) (lock_ c) (updated_ c) (force_stop_ c) (processor_id_ c) p (cr_id c) (group_name_ c).
Definition set_group_name (c : CRoutine) g := mkCR (cr_name c) (wake_time_ c) (state_ c) (lock_ c) (updated_ c) (force_stop_ c) (processor_id_ c) (priority_ c) (cr_id c) g.

(** The constructor, at the time [now] of the initialiser of [wake_time_]. *)
Definition CRoutine_new (now : Z) : CRoutine :=
  mkCR EmptyString now READY false true false (-1) 0 0 EmptyString.

(** [test_and_set] of the two flags: the old value and the routine with the flag set. *)
Definition Acquire (c : CRoutine) : bool * CRoutine := (negb (lock_ c), set_lock c true).
Definition Release (c : CRoutine) : CRoutine := set_lock c false.
Definition test_and_set_updated (c : CRoutine) : bool * CRoutine := (updated_ c, set_updated c true).
Definition SetUpdateFlag (c : CRoutine) : CRoutine := set_updated c false.

Definition Wake (c : CRoutine) : CRoutine := set_state c READY.

(** What the static [Yield]s do to the current routine before the switch. *)
Definition Yield_to (c : CRoutine) (s : RoutineState) : CRoutine := set_state c s.
Definition HangUp (c : CRoutine) : CRoutine := Yield_to c DATA_WAIT.
Definition Sleep (c : CRoutine) (now duration : Z) : CRoutine := Yield_to (set_wake_time c (now + duration)) SLEEP.

(** The two conditions of [UpdateState]. *)
Definition sleep_over (now : Z) (c : CRoutine) : bool :=
  bool_decide (state_ c = SLEEP) && (wake_time_ c <? now).
Definition waiting (c : CRoutine) : bool :=
  bool_decide (state_ c = DATA_WAIT) || bool_decide (state_ c = IO_WAIT).

Definition wake_waiting (c : CRoutine) : CRoutine :=
  if waiting c then set_state c READY else c.

Definition UpdateState (now : Z) (c : CRoutine) : RoutineState * CRoutine :=
  if sleep_over now c then (READY, set_state c READY)
  else
    let r := test_and_set_updated c in
    let c' := if r.1 then r.2 else wake_waiting r.2 in
    (state_ c', c').

(** [Resume]: [swap] runs the coroutine, which may change itself and the world, until it gives
    control back. *)
Definition Resume {W} (swap : W -> CRoutine -> W * CRoutine) (w : W) (c : CRoutine) : RoutineState * W * CRoutine :=
  if force_stop_ c then (FINISHED, w, set_state c FINISHED)
  else if negb (bool_decide (state_ c = READY)) then (state_ c, w, c)
  else let r := swap w c in (state_ r.2, r.1, r.2).

(** *** Priorities of the classic policy (scheduler/policy/classic_context.h) *)
Definition MAX_PRIO : nat := 20.
Definition DEFAULT_GROUP_NAME : string := "default_grp"%string.

(** The check of [DispatchTask]. *)
Definition clamp_prio (p : Z) : Z := if Z.of_nat MAX_PRIO <=? p then Z.of_nat MAX_PRIO - 1 else p.

Lemma clamp_prio_range p : 0 <= p -> 0 <= clamp_prio p < Z.of_nat MAX_PRIO.
Proof. unfold clamp_prio, MAX_PRIO. zcase; lia. Qed.

(** When [UpdateState] answers [READY]. *)
Definition ready_at (now : Z) (c : CRoutine) : bool :=
  bool_decide (state_ c = READY) || sleep_over now c || negb (updated_ c) && waiting c.

Lemma UpdateState_ready now c : bool_decide ((UpdateState now c).1 = READY) = ready_at now c.
Proof.
  unfold UpdateState, ready_at, sleep_over, waiting, wake_waiting, waiting.
  destruct c as [n w st l u f p pr i g]; cbn. destruct st, u; cbn; try done;
  destruct (w <? now); done.
Qed.

(** [UpdateState] touches nothing but the state and the flag. *)
Lemma UpdateState_frame now c :
  let c' := (UpdateState now c).2 in
  cr_id c' = cr_id c /\ lock_ c' = lock_ c /\ force_stop_ c' = force_stop_ c /\
  priority_ c' = priority_ c /\ group_name_ c' = group_name_ c /\ cr_name c' = cr_name c /\
  processor_id_ c' = processor_id_ c /\ wake_time_ c' = wake_time_ c.
Proof.
  unfold UpdateState, wake_waiting. destruct (sleep_over now c); [done|]. cbn.
  destruct (updated_ c); [done|]. by case_match.
Qed.
