(* ===== verification/TaskPools.v ===== *)
(** * Task pools: base/thread_pool.h, base/thread_safe_queue.h, task/task_manager.h and .cc

    Threads that take tasks from a bounded queue.  A [ThreadPool] runs them on threads that wait on
    a condition variable, the [TaskManager] in coroutines that hang up; a [ThreadSafeQueue] is the
    blocking queue on its own.  A bounded queue is taken at its contract (BoundedQueue): one step per
    operation, a full queue refuses.  Tasks are numbered in the order the queue takes them.

    A condition variable is a number of waiting threads and a number of signals not yet consumed:
    [notify_one] with nobody waiting does nothing. *)

From Stdlib Require Import ZArith Lia.
From stdpp Require Import base gmap functions list.
From S2P Require Import Prelude CRoutine.

(** ** Tasks in a bounded queue *)

(** [accepted] counts the tasks the queue took, [taken] those dequeued; [ran] lists those run. *)
Record tasks := mkTasks { queue : list nat; accepted : nat; taken : nat; ran : list nat }.

Definition no_tasks : tasks := mkTasks [] 0 0 [].

(** [BoundedQueue::Enqueue] and [Dequeue]. *)
Definition push (cap : nat) (k : tasks) : bool * tasks :=
  if decide (length (queue k) < cap)%nat then (true, mkTasks (queue k ++ [accepted k]) (S (accepted k)) (taken k) (ran k)) else (false, k).
Definition pop (k : tasks) : option nat * tasks :=
  match queue k with [] => (None, k) | x :: q => (Some x, mkTasks q (accepted k) (S (taken k)) (ran k)) end.
(** [task()]. *)
Definition run (k : tasks) (i : nat) : tasks := mkTasks (queue k) (accepted k) (taken k) (ran k ++ [i]).

Section Log.
Context {L : Type} (hand : L -> option nat).

(** [hand p] is the task a thread at [p] has taken and not yet run. *)
Record log_inv (cap : nat) (k : tasks) (g : nat -> L) : Prop := {
  lo_queue : queue k = seq (taken k) (accepted k - taken k) /\ (taken k <= accepted k)%nat /\ (length (queue k) <= cap)%nat;
  lo_ran : NoDup (ran k);
  lo_once : forall t i, hand (g t) = Some i -> i ∉ ran k;
  lo_one : forall t u i, hand (g t) = Some i -> hand (g u) = Some i -> t = u;
  lo_all : forall i, (i < taken k)%nat <-> i ∈ ran k \/ exists t, hand (g t) = Some i
}.

Lemma log_init cap (g : nat -> L) : (forall t, hand (g t) = None) -> log_inv cap no_tasks g.
Proof.
  intros Hn. split; cbn; [split; [done|lia]|constructor|intros t i Hi; by rewrite Hn in Hi|intros t u i Hi; by rewrite Hn in Hi|].
  intros i. split; [lia|]. intros [?%not_elem_of_nil|[t Ht]]; [done|by rewrite Hn in Ht].
Qed.

Context (cap : nat) (k : tasks) (g : nat -> L) (t : nat) (p : L).

Lemma log_keep : log_inv cap k g -> hand p = hand (g t) -> log_inv cap k (<[t := p]> g).
Proof.
  intros [] Hp. assert (He : forall u, hand ((<[t := p]> g) u) = hand (g u)) by (intros u; by thread_cases u t).
  split; try done.
  - intros u i. rewrite He. apply lo_once0.
  - intros u v i. rewrite !He. apply lo_one0.
  - intros i. rewrite lo_all0. by setoid_rewrite He.
Qed.

Lemma log_push : log_inv cap k g -> hand p = hand (g t) -> log_inv cap (push cap k).2 (<[t := p]> g).
Proof.
  intros Hi Hp. apply log_keep in Hi; [|done]. destruct Hi. unfold push. case_decide; [|by split].
  split; cbn; try done. destruct lo_queue0 as (Hq & Hle & Hc). rewrite length_app, Hq. cbn. rewrite Hq in *. rewrite length_seq in *.
  split; [|lia]. replace (S (accepted k) - taken k)%nat with (S (accepted k - taken k)) by lia. rewrite seq_S. do 2 f_equal. lia.
Qed.

Lemma log_pop i : log_inv cap k g -> hand (g t) = None -> (pop k).1 = Some i -> hand p = Some i -> log_inv cap (pop k).2 (<[t := p]> g).
Proof.
  intros [] Hg Hpop Hp. unfold pop in *. destruct lo_queue0 as (Hq & Hle & Hc).
  destruct (accepted k - taken k)%nat as [|n] eqn:En; rewrite Hq in Hpop, Hc |- *; [done|]. cbn in Hpop, Hc. injection Hpop as <-. cbn [seq snd].
  assert (Hr : taken k ∉ ran k /\ forall u, hand (g u) <> Some (taken k)).
  { split; [intros Hin|intros u Hu]; assert (taken k < taken k)%nat; try lia; apply lo_all0; [by left|right; by exists u]. }
  destruct Hr as [Hr1 Hr2]. split; cbn; try done.
  - replace (accepted k - S (taken k))%nat with n by lia. split; [done|lia].
  - intros u i. thread_cases u t; [rewrite Hp; by intros [= <-]|apply lo_once0].
  - intros u v i. thread_cases u t; thread_cases v t; rewrite ?Hp; try done; [intros [= <-] Hv; by destruct (Hr2 v)|intros Hv [= <-]; by destruct (Hr2 u)|apply lo_one0].
  - intros i. destruct (decide (i = taken k)) as [->|Hne].
    + split; [intros _; right; exists t; by rewrite fn_lookup_insert|lia].
    + assert ((i < S (taken k))%nat <-> (i < taken k)%nat) as -> by lia. rewrite lo_all0. split; (intros [?|[u Hu]]; [by left|right; exists u]).
      * thread_cases u t; [congruence|done].
      * thread_cases u t; [congruence|done].
Qed.

Lemma log_run i : log_inv cap k g -> hand (g t) = Some i -> hand p = None -> log_inv cap (run k i) (<[t := p]> g).
Proof.
  intros [] Hg Hp. split; cbn; try done.
  - apply NoDup_app. split; [done|]. split; [|apply NoDup_singleton]. intros j Hj ->%list_elem_of_singleton. by apply (lo_once0 t i).
  - intros u j. thread_cases u t; [by rewrite Hp|]. intros Hu [Hin|Hin%list_elem_of_singleton]%elem_of_app; [by apply (lo_once0 u j)|]. subst j. by apply n, (lo_one0 u t i).
  - intros u v j. thread_cases u t; thread_cases v t; rewrite ?Hp; try done. apply lo_one0.
  - intros j. rewrite lo_all0, elem_of_app, list_elem_of_singleton. split.
    + intros [?|[u Hu]]; [auto|]. destruct (decide (u = t)) as [->|]; [left; right; congruence|]. right. exists u. by rewrite fn_lookup_insert_ne.
    + intros [[?| ->]|[u Hu]]; [auto|right; by exists t|]. destruct (decide (u = t)) as [->|]; [rewrite fn_lookup_insert in Hu; congruence|]. rewrite fn_lookup_insert_ne in Hu by done. right. by exists u.
Qed.
End Log.

(** ** Condition variables *)
Record condvar := mkCv { waiters : nat; signals : nat }.
Definition cv_new : condvar := mkCv 0 0.
Definition cv_wait (c : condvar) : condvar := mkCv (S (waiters c)) (signals c).
Definition notify_one (c : condvar) : condvar := mkCv (waiters c) (Nat.min (waiters c) (S (signals c))).
Definition notify_all (c : condvar) : condvar := mkCv (waiters c) (waiters c).
(** A waiting thread goes on when there is a signal, or spuriously. *)
Definition cv_wake (c : condvar) (spurious : bool) : option condvar :=
  match signals c with
  | S n => Some (mkCv (waiters c - 1) n)
  | O => if spurious then Some (mkCv (waiters c - 1) (Nat.min (waiters c - 1) (signals c))) else None
  end.

(** ** ThreadPool *)
Section ThreadPool.
Context (max_task_num : nat).

Record pool := mkPool { stop_ : bool; break_all_wait_ : bool; task_queue_ : tasks; cv_ : condvar; workers_ : nat }.

Definition with_tasks (s : pool) k := mkPool (stop_ s) (break_all_wait_ s) k (cv_ s) (workers_ s).
Definition with_cv (s : pool) c := mkPool (stop_ s) (break_all_wait_ s) (task_queue_ s) c (workers_ s).

(** Where a thread stands: a worker in its loop, in [WaitDequeue], with a task in hand, at its end; a
    caller of [Enqueue], with what it returned; the destructor.  [workers_] counts the running workers. *)
Inductive ppc :=
| PIdle
| KTop | KCheck | KDeq | KWait | KBlocked | KRun (i : nat) | KEnd
| EStop | EQueue | ENotify (i : nat) | EFuture (i : option nat)
| XStop | XBreak | XNotify | XJoin.

Inductive pop_ := Worker | Enqueue | Destruct.
Inductive pev := PStart (o : pop_) | PStep (spurious : bool).

Definition worker_step (s : pool) (p : ppc) (spurious : bool) : pool * ppc :=
  match p with
  | KTop => if stop_ s then (mkPool (stop_ s) (break_all_wait_ s) (task_queue_ s) (cv_ s) (workers_ s - 1), KEnd) else (s, KCheck)
  | KCheck => (s, if break_all_wait_ s then KTop else KDeq)
  | KDeq => (with_tasks s (pop (task_queue_ s)).2, match (pop (task_queue_ s)).1 with Some i => KRun i | None => KWait end)
  | KWait => (with_cv s (cv_wait (cv_ s)), KBlocked)
  | KBlocked => match cv_wake (cv_ s) spurious with Some c => (with_cv s c, KCheck) | None => (s, p) end
  | KRun i => (with_tasks s (run (task_queue_ s) i), KTop)
  | _ => (s, p)
  end.

(** [Enqueue]: the result of the queue is not looked at; a future without a task has no number. *)
Definition Enqueue_step (s : pool) (p : ppc) : pool * ppc :=
  match p with
  | EStop => if stop_ s then (s, PIdle) else (s, EQueue)
  | EQueue =>
      let r := push max_task_num (task_queue_ s) in
      (with_tasks s r.2, if r.1 then ENotify (accepted (task_queue_ s)) else EFuture None)
  | ENotify i => (with_cv s (notify_one (cv_ s)), EFuture (Some i))
  | _ => (s, p)
  end.

Definition Destruct_step (s : pool) (p : ppc) : pool * ppc :=
  match p with
  | XStop => if stop_ s then (s, PIdle) else (mkPool true (break_all_wait_ s) (task_queue_ s) (cv_ s) (workers_ s), XBreak)
  | XBreak => (mkPool (stop_ s) true (task_queue_ s) (cv_ s) (workers_ s), XNotify)
  | XNotify => (with_cv s (notify_all (cv_ s)), XJoin)
  | XJoin => (s, match workers_ s with O => PIdle | _ => XJoin end)
  | _ => (s, p)
  end.

Definition pstep (s : pool) (p : ppc) (e : pev) : pool * ppc :=
  match e, p with
  | PStart Worker, PIdle => (mkPool (stop_ s) (break_all_wait_ s) (task_queue_ s) (cv_ s) (S (workers_ s)), KTop)
  | PStart Enqueue, (PIdle | EFuture _) => (s, EStop)
  | PStart Destruct, (PIdle | EFuture _) => (s, XStop)
  | PStart _, _ => (s, p)
  | PStep b, (KTop | KCheck | KDeq | KWait | KBlocked | KRun _) => worker_step s p b
  | PStep _, (EStop | EQueue | ENotify _) => Enqueue_step s p
  | PStep _, (XStop | XBreak | XNotify | XJoin) => Destruct_step s p
  | PStep _, _ => (s, p)
  end.

Definition pool_init : conf := Conf (mkPool false false no_tasks cv_new 0) (fun _ => PIdle).

Definition phand (p : ppc) : option nat := if p is KRun i then Some i else None.

Lemma pstep_log s g t e : log_inv phand max_task_num (task_queue_ s) g -> log_inv phand max_task_num (task_queue_ (pstep s (g t) e).1) (<[t := (pstep s (g t) e).2]> g).
Proof.
  intros Hi. assert (Hk : forall p, phand p = phand (g t) -> log_inv phand max_task_num (task_queue_ s) (<[t := p]> g)) by (intros p; by apply log_keep).
  destruct e as [[]|b]; destruct (g t) eqn:Hg; cbn [pstep fst snd task_queue_]; try (by apply Hk);
    cbn [worker_step Enqueue_step Destruct_step].
  - destruct (stop_ s); by apply Hk.
  - apply Hk. by destruct (break_all_wait_ s).
  - destruct (pop (task_queue_ s)).1 as [i|] eqn:Hp; cbn [fst snd with_tasks task_queue_].
    + by apply (log_pop _ _ _ _ _ _ i); rewrite ?Hg.
    + unfold pop in *. destruct (queue (task_queue_ s)); [|done]. by apply Hk.
  - destruct (cv_wake _ _); by apply Hk.
  - by apply log_run; rewrite ?Hg.
  - destruct (stop_ s); by apply Hk.
  - cbn [fst snd with_tasks task_queue_]. apply log_push; [done|]. rewrite Hg. by destruct (push _ _).1.
  - destruct (stop_ s); by apply Hk.
  - apply Hk. by destruct (workers_ s).
Qed.

(** Under every interleaving of any number of workers, callers of [Enqueue] and the destructor,
    the workers take the tasks in the order the queue accepted them, at most [max_task_num] are
    queued, no task is run twice, and every task that was taken was run or is in the hand of the
    one worker that will run it. *)
Theorem pool_runs_in_order sched :
  let c := exec pstep pool_init sched in
  let k := task_queue_ (shared c) in
  queue k = seq (taken k) (accepted k - taken k) /\ (length (queue k) <= max_task_num)%nat /\
  NoDup (ran k) /\
  (forall t i, phand (pcs c t) = Some i -> i ∉ ran k /\ forall u, phand (pcs c u) = Some i -> u = t) /\
  (forall i, (i < taken k)%nat <-> i ∈ ran k \/ exists t, phand (pcs c t) = Some i).
Proof.
  cbn zeta. destruct (exec_invariant pstep (fun _ c => log_inv phand max_task_num (task_queue_ (shared c)) (pcs c)) (length sched) pool_init sched)
    as [(? & ? & ?) ? ? ? ?]; [|by apply log_init|done|]; [intros m c [t e] _ Hi; by apply pstep_log|].
  split_and!; eauto.
Qed.
End ThreadPool.

(** The events of one thread. *)
Definition steps {E} (t : nat) (l : list E) : list (nat * E) := (fun e => (t, e)) <$> l.
Abbreviation psteps t n := (steps t (replicate n (PStep false))).

(** Events that change nothing where they happen change nothing in any number. *)
Lemma exec_stuck {S L E} (tstep : S -> L -> E -> S * L) (c : conf) (l : list (nat * E)) :
  (forall ev, ev ∈ l -> tstep (shared c) (pcs c ev.1) ev.2 = (shared c, pcs c ev.1)) ->
  shared (exec tstep c l) = shared c /\ forall u, pcs (exec tstep c l) u = pcs c u.
Proof.
  induction l as [|ev l IH] using rev_ind; intros Hl; [done|].
  destruct IH as [H1 H2]; [intros ev' Hin; apply Hl, elem_of_app; by left|].
  assert (He : tstep (shared c) (pcs c ev.1) ev.2 = (shared c, pcs c ev.1)) by (apply Hl, elem_of_app; right; by apply list_elem_of_singleton).
  rewrite exec_app. cbn [exec foldl]. unfold exec1. cbn [shared pcs]. unfold exec in *. rewrite H1, H2, He. split; [done|].
  intros u. cbn. thread_cases u ev.1; by rewrite ?H2.
Qed.

(** A worker that found the queue empty goes to sleep without looking again: the task that was
    queued and notified in between stays there, however long it waits. *)
Theorem pool_sleeps_on_task :
  let c := exec (pstep 2) pool_init ([(0%nat, PStart Worker)] ++ psteps 0 3 ++ [(1%nat, PStart Enqueue)] ++ psteps 1 3 ++ psteps 0 1) in
  pcs c 0%nat = KBlocked /\ pcs c 1%nat = EFuture (Some 0%nat) /\ queue (task_queue_ (shared c)) = [0%nat] /\
  forall n, shared (exec (pstep 2) c (psteps 0 n)) = shared c.
Proof.
  cbn zeta. split_and!; [vm_compute; reflexivity..|]. intros n. apply exec_stuck.
  intros ev (e & -> & Hin)%list_elem_of_fmap. apply elem_of_replicate in Hin as [-> _]. vm_compute. reflexivity.
Qed.

(** The destructor notifies once; a worker that read [break_all_wait_] before and sleeps after it
    is never joined. *)
Theorem pool_destructor_hangs :
  let c := exec (pstep 2) pool_init ([(0%nat, PStart Worker)] ++ psteps 0 3 ++ [(1%nat, PStart Destruct)] ++ psteps 1 3 ++ psteps 0 1) in
  pcs c 1%nat = XJoin /\
  forall l, (forall ev, ev ∈ l -> ev = (0%nat, PStep false) \/ ev = (1%nat, PStep false)) -> pcs (exec (pstep 2) c l) 1%nat = XJoin.
Proof.
  cbn zeta. split; [vm_compute; reflexivity|]. intros l Hl. edestruct (exec_stuck (pstep 2)) as [_ ->]; [|vm_compute; reflexivity].
  intros ev [-> | ->]%Hl; vm_compute; reflexivity.
Qed.

(** A full queue: [Enqueue] returns a future of a task that nobody has. *)
Theorem pool_drops_task :
  let c := exec (pstep 1) pool_init ([(1%nat, PStart Enqueue)] ++ psteps 1 3 ++ [(1%nat, PStart Enqueue)] ++ psteps 1 3) in
  pcs c 1%nat = EFuture None /\ accepted (task_queue_ (shared c)) = 1%nat.
Proof. vm_compute. auto. Qed.

(** ** ThreadSafeQueue

    Every operation but [BreakAllWait] runs under [mutex_]; [WaitDequeue] gives it up while it waits.
    [ins] and [outs] record what was put in and taken out. *)
Section ThreadSafeQueue.
Context {T : Type}.

Record tsq := mkQ { break_all : bool; mutex : bool; items : list T; cond : condvar; ins : list T; outs : list T }.

Definition q_new : tsq := mkQ false false [] cv_new [] [].
Definition with_mutex (s : tsq) b := mkQ (break_all s) b (items s) (cond s) (ins s) (outs s).
Definition with_cond (s : tsq) c := mkQ (break_all s) (mutex s) (items s) c (ins s) (outs s).
Definition with_break (s : tsq) := mkQ true (mutex s) (items s) (cond s) (ins s) (outs s).
Definition put (s : tsq) x := mkQ (break_all s) (mutex s) (items s ++ [x]) (cond s) (ins s ++ [x]) (outs s).
Definition take (s : tsq) : option T * tsq :=
  match items s with [] => (None, s) | x :: q => (Some x, mkQ (break_all s) (mutex s) q (cond s) (ins s) (outs s ++ [x])) end.

Inductive qpc :=
| QIdle (r : option T)
| QPutLock (x : T) | QPut (x : T) | QNotify
| QTakeLock | QTake
| QWaitLock | QPred | QSleep | QBlocked | QWoken | QTest
| QUnlock (r : option T)
| QBreak | QBreakNotify.

Inductive qop := QEnqueue (x : T) | QDequeue | QWaitDequeue | QBreakAllWait.
Inductive qev := QStart (o : qop) | QStep (spurious : bool).

Definition acquire (s : tsq) (p p' : qpc) : tsq * qpc := if mutex s then (s, p) else (with_mutex s true, p').

Definition TSQ_Enqueue (s : tsq) (p : qpc) : tsq * qpc :=
  match p with
  | QPutLock x => acquire s p (QPut x)
  | QPut x => (put s x, QNotify)
  | QNotify => (with_cond s (notify_one (cond s)), QUnlock None)
  | _ => (s, p)
  end.

Definition TSQ_Dequeue (s : tsq) (p : qpc) : tsq * qpc :=
  match p with
  | QTakeLock => acquire s p QTake
  | QTake => ((take s).2, QUnlock (take s).1)
  | _ => (s, p)
  end.

Definition TSQ_WaitDequeue (s : tsq) (p : qpc) (spurious : bool) : tsq * qpc :=
  match p with
  | QWaitLock | QWoken => acquire s p QPred
  | QPred => (s, if break_all s || negb (bool_decide (items s = [])) then QTest else QSleep)
  | QSleep => (with_mutex (with_cond s (cv_wait (cond s))) false, QBlocked)
  | QBlocked => match cv_wake (cond s) spurious with Some c => (with_cond s c, QWoken) | None => (s, p) end
  | QTest => if break_all s then (s, QUnlock None) else ((take s).2, QUnlock (take s).1)
  | _ => (s, p)
  end.

Definition TSQ_BreakAllWait (s : tsq) (p : qpc) : tsq * qpc :=
  match p with
  | QBreak => (with_break s, QBreakNotify)
  | QBreakNotify => (with_cond s (notify_all (cond s)), QIdle None)
  | _ => (s, p)
  end.

Definition qstep (s : tsq) (p : qpc) (e : qev) : tsq * qpc :=
  match e, p with
  | QStart o, QIdle _ => (s, match o with QEnqueue x => QPutLock x | QDequeue => QTakeLock | QWaitDequeue => QWaitLock | QBreakAllWait => QBreak end)
  | QStart _, _ => (s, p)
  | QStep _, QIdle _ => (s, p)
  | QStep _, QUnlock r => (with_mutex s false, QIdle r)
  | QStep _, (QPutLock _ | QPut _ | QNotify) => TSQ_Enqueue s p
  | QStep _, (QTakeLock | QTake) => TSQ_Dequeue s p
  | QStep b, (QWaitLock | QPred | QSleep | QBlocked | QWoken | QTest) => TSQ_WaitDequeue s p b
  | QStep _, (QBreak | QBreakNotify) => TSQ_BreakAllWait s p
  end.

Definition q_conf : conf := Conf q_new (fun _ => QIdle None).

(** Who holds the mutex, who waits, and who is on its way to an element or to a notification. *)
Definition q_locked (p : qpc) : bool :=
  match p with QPut _ | QNotify | QTake | QPred | QSleep | QTest | QUnlock _ => true | _ => false end.
Definition q_waits (p : qpc) : bool := match p with QBlocked => true | _ => false end.
Definition q_awake (p : qpc) : bool := match p with QNotify | QPred | QWoken | QTest => true | _ => false end.

Lemma tracks_step {L} (f : L -> bool) (g : nat -> L) t p S :
  tracks f g S -> exists S', tracks f (<[t := p]> g) S' /\ (size S' + Nat.b2n (f (g t)) = size S + Nat.b2n (f p))%nat.
Proof.
  intros Hs. destruct (f (g t)) eqn:Hg, (f p) eqn:Hp; cbn.
  - exists S. split; [apply tracks_same; [done|congruence]|lia].
  - destruct (tracks_del f g t p S) as [? ?]; [done..|]. eexists. split; [done|lia].
  - destruct (tracks_add f g t p S) as [? ?]; [done..|]. eexists. split; [done|lia].
  - exists S. split; [apply tracks_same; [done|congruence]|lia].
Qed.

Record q_inv (s : tsq) (g : nat -> qpc) : Prop := {
  qi_mutex : mutex_inv q_locked g (mutex s);
  qi_fifo : ins s = outs s ++ items s;
  qi_sleep : forall t, g t = QSleep -> items s = [];
  qi_test : forall t, g t = QTest -> break_all s = true \/ items s <> [];
  qi_break : forall t, g t = QBreakNotify -> break_all s = true;
  qi_signals : (signals (cond s) <= waiters (cond s))%nat;
  qi_waits : exists B, tracks q_waits g B /\ size B = waiters (cond s);
  qi_awake : exists W, tracks q_awake g W /\
    (break_all s = false -> (signals (cond s) < waiters (cond s))%nat -> (length (items s) <= signals (cond s) + size W)%nat)
}.

(** A step of [t] from [s] to [s'], by what it has to show. *)
Lemma tsq_inv_step s g t s' p :
  q_inv s g ->
  mutex_inv q_locked (<[t := p]> g) (mutex s') ->
  ins s' = outs s' ++ items s' ->
  (items s' = items s \/ q_locked (g t) = true /\ p <> QSleep /\ p <> QTest) ->
  (break_all s = true -> break_all s' = true) ->
  (p = QSleep -> items s' = []) -> (p = QTest -> break_all s' = true \/ items s' <> []) ->
  (p = QBreakNotify -> break_all s' = true) ->
  (signals (cond s') <= waiters (cond s'))%nat ->
  (waiters (cond s') + Nat.b2n (q_waits (g t)) = waiters (cond s) + Nat.b2n (q_waits p))%nat ->
  (break_all s' = false -> (signals (cond s') < waiters (cond s'))%nat ->
   length (items s') = 0%nat \/ (signals (cond s) < waiters (cond s))%nat /\
   (length (items s') + signals (cond s) + Nat.b2n (q_awake (g t)) <= length (items s) + signals (cond s') + Nat.b2n (q_awake p))%nat) ->
  q_inv s' (<[t := p]> g).
Proof.
  intros [Hm Hf Hsl Ht Hb Hsg (B & HB & HBs) (W & HW & HWs)] Hm' Hf' Hit Hbr Hps Hpt Hpb Hsg' Hw Ha.
  assert (Hoth : forall u, u <> t -> q_locked (g u) = true -> items s' = items s).
  { intros u Hu Hl. destruct Hit as [?|[Hl' _]]; [done|]. destruct Hu. by apply (proj1 Hm). }
  split; try done.
  - intros u. thread_cases u t; [by intros ->; auto|]. intros Hg. rewrite (Hoth u); [by apply (Hsl u)|done|by rewrite Hg].
  - intros u. thread_cases u t; [by intros ->; auto|]. intros Hg. rewrite (Hoth u); [|done|by rewrite Hg]. destruct (Ht u Hg); auto.
  - intros u. thread_cases u t; [by intros ->; auto|]. intros Hg. eauto.
  - destruct (tracks_step q_waits g t p B HB) as (B' & ? & ?). exists B'. split; [done|lia].
  - destruct (tracks_step q_awake g t p W HW) as (W' & ? & ?). exists W'. split; [done|]. intros Hb' Hlt.
    assert (break_all s = false) by (destruct (break_all s); [by rewrite Hbr in Hb'|done]).
    destruct (Ha Hb' Hlt) as [?|[? ?]]; [lia|]. specialize (HWs ltac:(done) ltac:(done)). lia.
Qed.
(** The state stays, or only the mutex changes, and [t] goes where nothing is asserted. *)
Definition q_plain (p : qpc) : bool := match p with QSleep | QTest | QBreakNotify | QBlocked => false | _ => true end.

Lemma q_inv_keep s g t p b :
  q_inv s g -> mutex_inv q_locked (<[t := p]> g) b -> q_plain p = true -> q_waits (g t) = false -> (q_awake (g t) = true -> q_awake p = true) ->
  q_inv (with_mutex s b) (<[t := p]> g).
Proof.
  intros Hi Hm Hp Hw Ha. pose proof Hi as []. apply (tsq_inv_step s); cbn; try done; try (by intros ->); [by left|rewrite Hw; by destruct p; cbn in *; try done; lia|].
  intros _ ?. right. split; [done|]. destruct (q_awake (g t)); [rewrite Ha by done|]; cbn; lia.
Qed.

Lemma q_inv_stay s g t p :
  q_inv s g -> q_locked p = q_locked (g t) -> q_plain p = true -> q_waits (g t) = false -> (q_awake (g t) = true -> q_awake p = true) ->
  q_inv s (<[t := p]> g).
Proof. intros Hi Hl Hp Hw Ha. destruct s. apply (q_inv_keep _ _ _ _ mutex0 Hi); try done. apply mutex_keep; [by apply Hi|done]. Qed.

Lemma q_inv_self s g t : q_inv s g -> q_inv s (<[t := g t]> g).
Proof.
  intros Hi. pose proof Hi as []. apply (tsq_inv_step s); try done; [by apply mutex_keep|by left|eauto..|].
  intros _ ?. right. split; [done|lia].
Qed.

Lemma q_inv_acquire s g t p' :
  q_inv s g -> q_waits (g t) = false -> (q_awake (g t) = true -> q_awake p' = true) -> q_plain p' = true ->
  q_inv (acquire s (g t) p').1 (<[t := (acquire s (g t) p').2]> g).
Proof.
  intros Hi Hw Ha Hp. unfold acquire. destruct (mutex s) eqn:Hm; cbn [fst snd]; [by apply q_inv_self|].
  apply q_inv_keep; try done. apply mutex_acquire. rewrite <- Hm. apply Hi.
Qed.

Lemma take_inv s g t : q_inv s g -> q_locked (g t) = true -> q_waits (g t) = false -> (g t = QTest -> items s <> []) ->
  (q_awake (g t) = true -> g t = QTest) ->
  q_inv (take s).2 (<[t := QUnlock (take s).1]> g).
Proof.
  intros Hi Hl Hw Ht Ha. pose proof Hi as [Hm Hf _ _ _ Hsg _ _]. unfold take. destruct (items s) as [|x q] eqn:Hit; cbn [fst snd].
  - apply q_inv_stay; try done. intros Hx%Ha. by destruct (Ht Hx).
  - apply (tsq_inv_step s); cbn; try done; rewrite ?Hit, ?Hw; try done; [by apply mutex_keep|by rewrite <- (assoc (++))|auto|].
    intros _ ?. right. split; [done|]. destruct (q_awake (g t)); cbn; lia.
Qed.

Lemma q_woken s g t b c : q_inv s g -> g t = QBlocked -> cv_wake (cond s) b = Some c -> q_inv (with_cond s c) (<[t := QWoken]> g).
Proof.
  intros Hi Hg Hc. pose proof Hi as [Hm Hf _ _ _ Hsg (B & HB & HBs) _].
  assert (0 < waiters (cond s))%nat.
  { rewrite <- HBs. assert (t ∈ B) by (apply HB; by rewrite Hg). destruct (size B) eqn:Es; [|lia]. apply tracks_empty_size in Es. set_solver. }
  assert (waiters c = waiters (cond s) - 1 /\ (signals (cond s) <= S (signals c)) /\ signals c <= waiters c /\ (signals (cond s) = 0 -> signals c = 0) /\ (signals (cond s) <> 0 -> S (signals c) = signals (cond s)))%nat as (? & ? & ? & ? & ?).
  { unfold cv_wake in Hc. destruct (signals (cond s)); [destruct b|]; simplify_eq/=; lia. }
  apply (tsq_inv_step s); rewrite ?Hg; cbn; try done; [by apply mutex_keep; rewrite ?Hg|by left|lia|]. intros _ ?. right. lia.
Qed.

Lemma qstep_inv s g t e : q_inv s g -> q_inv (qstep s (g t) e).1 (<[t := (qstep s (g t) e).2]> g).
Proof.
  intros Hi. pose proof Hi as [Hm Hf Hsl Ht Hb Hsg _ _].
  assert (Hk : forall p, q_locked p = q_locked (g t) -> mutex_inv q_locked (<[t := p]> g) (mutex s)) by (intros p; by apply mutex_keep).
  pose proof (q_inv_self s g t Hi) as Hself. pose proof (q_inv_acquire s g t) as Hacq.
  destruct e as [o|b]; destruct (g t) eqn:Hg; cbn [qstep]; try exact Hself;
    cbn [TSQ_Enqueue TSQ_Dequeue TSQ_WaitDequeue TSQ_BreakAllWait]; try (by apply Hacq).
  - cbn. apply q_inv_stay; rewrite ?Hg; try done; by destruct o.
  - (* QPut *) apply (tsq_inv_step s); rewrite ?Hg; cbn; try done; [by apply Hk|by rewrite Hf, <- (assoc (++))|auto|].
    intros _ ?. right. rewrite length_app. cbn. lia.
  - (* QNotify *) apply (tsq_inv_step s); rewrite ?Hg; cbn; try done; [by apply Hk|by left|lia|]. intros _ ?. right. lia.
  - apply take_inv; rewrite ?Hg; done.
  - (* QPred *) destruct (break_all s) eqn:Hbk; cbn [orb fst snd].
    + apply (tsq_inv_step s); rewrite ?Hg; cbn; try done; [by apply Hk|by left|auto|lia].
    + case_bool_decide as Hit; cbn [negb]; apply (tsq_inv_step s); rewrite ?Hg; cbn; try done; [by apply Hk|by left| |by apply Hk|by left|auto|lia].
      intros _ _. left. by rewrite Hit.
  - (* QSleep *) apply (tsq_inv_step s); rewrite ?Hg; cbn; try done; [eapply mutex_release; [done|by rewrite Hg|done]|by left|lia..|].
    intros _ _. left. by rewrite (Hsl t).
  - destruct (cv_wake (cond s) b) eqn:Hc; [by eapply q_woken|exact Hself].
  - (* QTest *) destruct (break_all s) eqn:Hbk.
    + apply (tsq_inv_step s); rewrite ?Hg; cbn; try done; [by apply Hk|by left|congruence].
    + apply take_inv; rewrite ?Hg; try done. intros _. by destruct (Ht t Hg).
  - apply q_inv_keep; rewrite ?Hg; try done. eapply mutex_release; [done|by rewrite Hg|done].
  - apply (tsq_inv_step s); rewrite ?Hg; cbn; try done; [by apply Hk|by left].
  - apply (tsq_inv_step s); rewrite ?Hg; cbn; try done; [by apply Hk|by left|]. rewrite (Hb t) by done. done.
Qed.

(** C22: Under every interleaving of any number of threads a [ThreadSafeQueue] delivers its elements
    in order, each to one caller, and no wake-up is lost: while [BreakAllWait] has not been called,
    a thread asleep in [WaitDequeue] beside a queued element has a notification on its way, or
    another thread is about to look for an element. *)
Theorem safe_queue_no_lost_wakeup sched :
  let c := exec qstep q_conf sched in
  let s := shared c in
  ins s = outs s ++ items s /\
  (break_all s = false -> (exists t, pcs c t = QBlocked) -> items s <> [] ->
   (0 < signals (cond s))%nat \/ exists u, q_awake (pcs c u) = true).
Proof.
  cbn zeta. destruct (exec_invariant qstep (fun _ c => q_inv (shared c) (pcs c)) (length sched) q_conf sched)
    as [_ Hf _ _ _ _ (B & HB & HBs) (W & HW & HWs)]; [intros m c [t e] _; apply qstep_inv| |done|].
  - split; cbn; try done; [exists ∅; split; [|done]; intros u; cbn; set_solver|exists ∅; split; [intros u; cbn; set_solver|lia]].
  - split; [done|]. intros Hb [t Ht] Hit. destruct (signals _) as [|n] eqn:Hs; [|lia]. right.
    assert (0 < waiters (cond (shared (exec qstep q_conf sched))))%nat.
    { rewrite <- HBs. assert (t ∈ B) by (apply HB; by rewrite Ht). destruct (size B) eqn:Es; [|lia]. apply tracks_empty_size in Es. set_solver. }
    specialize (HWs Hb ltac:(lia)). destruct (items _); [done|]. cbn in HWs.
    destruct (set_choose_L W) as [u Hu]; [intros ->; rewrite size_empty in HWs; lia|]. exists u. by apply HW.
Qed.
End ThreadSafeQueue.

Abbreviation qsteps t n := (steps t (replicate n (QStep false))).

Lemma safe_queue_no_lost_wakeup_witness :
  let sched := [(0%nat, QStart QWaitDequeue)] ++ qsteps 0 3 ++ [(1%nat, QStart (QEnqueue 7%nat))] ++ qsteps 1 3 in
  let s := shared (exec qstep q_conf sched) in
  ins s = outs s ++ items s /\ ((0 < signals (cond s))%nat \/ exists u, q_awake (pcs (exec qstep q_conf sched) u) = true).
Proof.
  cbn zeta. destruct (safe_queue_no_lost_wakeup (T := nat) ([(0%nat, QStart QWaitDequeue)] ++ qsteps 0 3 ++ [(1%nat, QStart (QEnqueue 7%nat))] ++ qsteps 1 3)) as [H1 H2].
  split; [exact H1|]. apply H2; [vm_compute; reflexivity|exists 0%nat; vm_compute; reflexivity|vm_compute; discriminate].
Defined.

(** [BreakAllWait] does not take the mutex: a thread that evaluated its predicate before the flag
    is set and waits after the notification is not woken by it. *)
Theorem break_all_wait_lost :
  let c := exec (qstep (T := nat)) q_conf ([(0%nat, QStart QWaitDequeue)] ++ qsteps 0 2 ++ [(1%nat, QStart QBreakAllWait)] ++ qsteps 1 2 ++ qsteps 0 1) in
  pcs c 0%nat = QBlocked /\ pcs c 1%nat = QIdle None /\ break_all (shared c) = true /\
  forall n, pcs (exec qstep c (qsteps 0 n)) 0%nat = QBlocked.
Proof.
  cbn zeta. split_and!; [vm_compute; reflexivity..|]. intros n. edestruct (exec_stuck (qstep (T := nat))) as [_ ->]; [|vm_compute; reflexivity].
  intros ev (e & -> & Hin)%list_elem_of_fmap. apply elem_of_replicate in Hin as [-> _]. vm_compute. reflexivity.
Qed.

(** ** TaskManager

    Threads [t < num_threads_] are the routines "/internal/task<t>", each with the processor that
    holds it; the others call [Enqueue] and [Shutdown].  [NotifyTask] is [NotifyProcessor] of the
    classic policy: the flag of a routine is cleared when it waits. *)
Section TaskManager.
Context (num_threads_ task_queue_size_ : nat).

(** [crs] are the coroutines, [in_queue] says which of them the scheduler has. *)
Record manager := mkTM { tm_stop : bool; tm_queue : tasks; crs : nat -> CRoutine; in_queue : nat -> bool }.

Definition upd_routine (s : manager) t f := mkTM (tm_stop s) (tm_queue s) (<[t := f (crs s t)]> (crs s)) (in_queue s).
Definition with_queue (s : manager) k := mkTM (tm_stop s) k (crs s) (in_queue s).
Definition erase (s : manager) t := mkTM (tm_stop s) (tm_queue s) (crs s) (<[t := false]> (in_queue s)).

Inductive mpc :=
| MSuspended | MTop | MDequeue | MHangUp | MTask (i : nat) | MSwap
| MIdle | MStop | MPush | MNotify (fut : option nat) (t : nat) | MFlag (fut : option nat) (t : nat) | MFuture (fut : option nat)
| MExchange | MRemove (t : nat) | MErase (t : nat) | MShut.

Inductive mop := MEnqueue | MShutdown.
Inductive mev := MStart (o : mop) | MStep (now : Z).

(** The body of a routine, and its processor: suspended, a routine of the queue is taken when
    [UpdateState] says [READY], and finished by [Resume] when it was stopped. *)
Definition routine_step (s : manager) (t : nat) (p : mpc) (now : Z) : manager * mpc :=
  match p with
  | MSuspended =>
      if negb (in_queue s t) || lock_ (crs s t) then (s, p)
      else
        let r := UpdateState now (crs s t) in
        if decide (r.1 = READY) then
          if force_stop_ r.2 then (upd_routine s t (fun c => set_state (UpdateState now c).2 FINISHED), p)
          else (upd_routine s t (fun c => (Acquire (UpdateState now c).2).2), MTop)
        else (upd_routine s t (fun c => (UpdateState now c).2), p)
  | MTop => if tm_stop s then (upd_routine s t (fun c => Yield_to c FINISHED), MSwap) else (s, MDequeue)
  | MDequeue => (with_queue s (pop (tm_queue s)).2, match (pop (tm_queue s)).1 with Some i => MTask i | None => MHangUp end)
  | MHangUp => (upd_routine s t HangUp, MSwap)
  | MTask i => (with_queue s (run (tm_queue s) i), MTop)
  | MSwap => (upd_routine s t Release, MSuspended)
  | _ => (s, p)
  end.

(** The next routine to notify, or the return of [Enqueue]. *)
Definition next_notify (fut : option nat) (t : nat) : mpc := if decide (t < num_threads_)%nat then MNotify fut t else MFuture fut.

Definition TM_Enqueue (s : manager) (p : mpc) : manager * mpc :=
  match p with
  | MStop => (s, if tm_stop s then MFuture None else MPush)
  | MPush =>
      let r := push task_queue_size_ (tm_queue s) in
      (with_queue s r.2, next_notify (if r.1 then Some (accepted (tm_queue s)) else None) 0)
  | MNotify fut t => (s, if in_queue s t && waiting (crs s t) then MFlag fut t else next_notify fut (S t))
  | MFlag fut t => (upd_routine s t SetUpdateFlag, next_notify fut (S t))
  | _ => (s, p)
  end.

Definition next_remove (t : nat) : mpc := if decide (t < num_threads_)%nat then MRemove t else MShut.

(** [Shutdown]: [RemoveTask] stops a routine, waits until no processor holds it and takes it out of
    its queue. *)
Definition TM_Shutdown (s : manager) (p : mpc) : manager * mpc :=
  match p with
  | MExchange => if tm_stop s then (s, MIdle) else (mkTM true (tm_queue s) (crs s) (in_queue s), next_remove 0)
  | MRemove t => (upd_routine s t Stop, MErase t)
  | MErase t => if lock_ (crs s t) then (s, p) else (erase s t, next_remove (S t))
  | _ => (s, p)
  end.

Definition mstep (t : nat) (s : manager) (p : mpc) (e : mev) : manager * mpc :=
  match e, p with
  | MStart MEnqueue, (MIdle | MFuture _) => (s, MStop)
  | MStart MShutdown, (MIdle | MFuture _) => (s, MExchange)
  | MStart _, _ => (s, p)
  | MStep now, (MSuspended | MTop | MDequeue | MHangUp | MTask _ | MSwap) => routine_step s t p now
  | MStep _, (MStop | MPush | MNotify _ _ | MFlag _ _) => TM_Enqueue s p
  | MStep _, (MExchange | MRemove _ | MErase _) => TM_Shutdown s p
  | MStep _, _ => (s, p)
  end.

(** The events carry their thread, which the routines need to know. *)
Definition mtstep (s : manager) (p : mpc) (e : nat * mev) : manager * mpc := mstep e.1 s p e.2.
Definition own (l : list (nat * mev)) : list (nat * (nat * mev)) := (fun e => (e.1, e)) <$> l.

Definition TaskManager_new : conf :=
  Conf (mkTM false no_tasks (fun _ => CRoutine_new 0) (fun t => bool_decide (t < num_threads_)%nat))
       (fun t => if decide (t < num_threads_)%nat then MSuspended else MIdle).
Definition mexec (c : conf) (l : list (nat * mev)) : conf := exec mtstep c (own l).

Definition mhand (p : mpc) : option nat := if p is MTask i then Some i else None.

(** A routine that a processor holds. *)
Definition mactive (p : mpc) : bool := match p with MTop | MDequeue | MHangUp | MTask _ | MSwap => true | _ => false end.

Lemma mstep_log s g t e : log_inv mhand task_queue_size_ (tm_queue s) g -> log_inv mhand task_queue_size_ (tm_queue (mstep t s (g t) e).1) (<[t := (mstep t s (g t) e).2]> g).
Proof.
  intros Hi. assert (Hk : forall p, mhand p = mhand (g t) -> log_inv mhand task_queue_size_ (tm_queue s) (<[t := p]> g)) by (intros p; by apply log_keep).
  destruct e as [[]|now]; destruct (g t) eqn:Hg; cbn [mstep fst snd tm_queue]; try (by apply Hk);
    cbn [routine_step TM_Enqueue TM_Shutdown].
  - destruct (_ || _); [by apply Hk|]. cbn zeta. case_decide; [|by apply Hk]. by destruct (force_stop_ _); apply Hk.
  - destruct (tm_stop s); by apply Hk.
  - destruct (pop (tm_queue s)).1 as [i|] eqn:Hp; cbn [fst snd with_queue tm_queue].
    + by apply (log_pop _ _ _ _ _ _ i); rewrite ?Hg.
    + unfold pop in *. destruct (queue (tm_queue s)); [|done]. by apply Hk.
  - by apply log_run; rewrite ?Hg.
  - destruct (tm_stop s); by apply Hk.
  - cbn [fst snd with_queue tm_queue]. apply log_push; [done|]. rewrite Hg. unfold next_notify. by case_decide.
  - apply Hk. unfold next_notify. destruct (_ && _); [done|]. by case_decide.
  - apply Hk. unfold next_notify. by case_decide.
  - destruct (tm_stop s); [by apply Hk|]. apply Hk. unfold next_remove. by case_decide.
  - destruct (lock_ (crs s t0)); [by apply Hk|]. apply Hk. unfold next_remove. by case_decide.
Qed.
Record tm_inv (s : manager) (g : nat -> mpc) : Prop := {
  ti_active : forall t, mactive (g t) = true -> in_queue s t = true /\ lock_ (crs s t) = true;
  ti_removed : forall u n j, (g u = MRemove n \/ g u = MErase n \/ g u = MShut /\ n = num_threads_) -> (j < n)%nat -> in_queue s j = false;
  ti_range : forall j, in_queue s j = true -> (j < num_threads_)%nat
}.

(** A change of one routine that keeps its lock. *)
Lemma upd_lock s t f j : (forall c, lock_ (f c) = lock_ c) -> lock_ (crs (upd_routine s t f) j) = lock_ (crs s j).
Proof. intros Hf. unfold upd_routine. cbn. by thread_cases j t. Qed.

Lemma UpdateState_lock now c : lock_ (UpdateState now c).2 = lock_ c.
Proof. apply UpdateState_frame. Qed.

(** A step of [t] enters no routine in the queue; an active routine stays in the queue and locked
    while it is active. *)
Lemma mstep_queue t s p e j : in_queue (mstep t s p e).1 j = true -> in_queue s j = true.
Proof.
  destruct e as [[]|now]; destruct p; try done; cbn [mstep routine_step TM_Enqueue TM_Shutdown]; try done;
    try (repeat case_match; done).
  destruct (lock_ (crs s t0)); [done|]. cbn. thread_cases j t0; [done|auto].
Qed.

Lemma mstep_others t s p e j :
  j <> t \/ mactive p = true /\ mactive (mstep t s p e).2 = true ->
  in_queue s j = true -> lock_ (crs s j) = true ->
  in_queue (mstep t s p e).1 j = true /\ lock_ (crs (mstep t s p e).1 j) = true.
Proof.
  intros Hj Hq Hl. destruct e as [[]|now]; destruct p; try done; cbn [mstep routine_step TM_Enqueue TM_Shutdown] in *; try done.
  all: try (split; [done|]; cbn [fst]; rewrite upd_lock; [done|by intros []]).
  - destruct (_ || _); [done|]. cbn zeta in *. destruct Hj as [Hj|[? _]]; [|done].
    case_decide; [destruct (force_stop_ _)|]; (split; [done|]); cbn; by rewrite fn_lookup_insert_ne.
  - destruct (tm_stop s); [|done]. split; [done|]. cbn [fst]. by rewrite upd_lock.
  - destruct Hj as [Hj|[_ ?]]; [|done]. split; [done|]. cbn. by rewrite fn_lookup_insert_ne.
  - by destruct (tm_stop s).
  - destruct (lock_ (crs s t0)) eqn:Hl0; [done|]. cbn. split; [|done]. thread_cases j t0; congruence.
Qed.

Lemma mstep_takes t s p e : mactive p = false -> mactive (mstep t s p e).2 = true ->
  in_queue (mstep t s p e).1 t = true /\ lock_ (crs (mstep t s p e).1 t) = true.
Proof.
  intros Hp. destruct e as [[]|now]; destruct p; try done; cbn [mstep routine_step TM_Enqueue TM_Shutdown]; try done.
  - destruct (in_queue s t) eqn:Hq, (lock_ (crs s t)); cbn [negb orb]; try done. cbn zeta.
    case_decide; [destruct (force_stop_ _)|]; try done. intros _. cbn. by rewrite fn_lookup_insert.
  - by destruct (tm_stop s).
  - cbn. unfold next_notify. by case_decide.
  - unfold next_notify. cbn. repeat case_match; done.
  - unfold next_notify. cbn. by case_decide.
  - destruct (tm_stop s); [done|]. unfold next_remove. cbn. by case_decide.
  - destruct (lock_ (crs s t0)); [done|]. unfold next_remove. cbn. by case_decide.
Qed.

(** Where a thread that removes goes on. *)
Lemma mstep_removes t s p e n :
  (mstep t s p e).2 = MRemove n \/ (mstep t s p e).2 = MErase n \/ (mstep t s p e).2 = MShut /\ n = num_threads_ ->
  n = 0%nat \/ (p = MRemove n \/ p = MErase n \/ p = MShut /\ n = num_threads_) \/
  exists m, p = MErase m /\ (n <= S m)%nat /\ in_queue (mstep t s p e).1 m = false.
Proof.
  intros Hn. destruct e as [[]|now]; destruct p; cbn [mstep fst snd] in Hn |- *; auto;
    cbn [routine_step TM_Enqueue TM_Shutdown] in Hn |- *; unfold next_notify, next_remove in *; cbn zeta in Hn;
    repeat case_match; cbn [fst snd] in *; auto; destruct Hn as [Hn|[Hn|[Hn ->]]]; simplify_eq; auto.
  - left. lia.
  - right. right. exists t0. cbn. by rewrite fn_lookup_insert.
  - right. right. exists t0. cbn. rewrite fn_lookup_insert. split_and!; [done|lia|done].
Qed.

Lemma mstep_inv s g t e : tm_inv s g -> tm_inv (mstep t s (g t) e).1 (<[t := (mstep t s (g t) e).2]> g).
Proof.
  intros [Ha Hr Hg]. split.
  - intros u. thread_cases u t.
    + intros Hu. destruct (mactive (g t)) eqn:Ho; [|by apply mstep_takes]. apply mstep_others; [by right|by apply Ha..].
    + intros Hu. apply mstep_others; [by left|by apply Ha..].
  - intros u n j Hu Hj. enough (in_queue s j = false \/ in_queue (mstep t s (g t) e).1 j = false) as [Hf|?]; [|done|].
    { destruct (in_queue (mstep t s (g t) e).1 j) eqn:E; [|done]. by rewrite (mstep_queue _ _ _ _ _ E) in Hf. }
    revert Hu. thread_cases u t; [|intros Hu; left; by apply (Hr u n)].
    intros [-> |[Hu|(m & Hm & Hn & Hf)]]%mstep_removes; [lia|left; by apply (Hr t n)|].
    destruct (decide (j = m)) as [->|]; [auto|]. left. apply (Hr t m); [auto|lia].
  - intros j Hj. apply Hg. by eapply mstep_queue.
Qed.

Lemma TaskManager_new_inv : tm_inv (shared TaskManager_new) (pcs TaskManager_new).
Proof.
  split; cbn.
  - intros t. by case_decide.
  - intros u n j. case_decide; intros [?|[?|[? _]]]; done.
  - intros j Hj%bool_decide_eq_true. done.
Qed.

Lemma mexec_app c l1 l2 : mexec c (l1 ++ l2) = mexec (mexec c l1) l2.
Proof. unfold mexec, own. by rewrite fmap_app, exec_app. Qed.

Lemma mexec_ind (I : conf -> Prop) c l :
  (forall c t e, I c -> I (Conf (mstep t (shared c) (pcs c t) e).1 (<[t := (mstep t (shared c) (pcs c t) e).2]> (pcs c)))) ->
  I c -> I (mexec c l).
Proof.
  intros Hs H0. induction l as [|[t e] l IH] using rev_ind; [done|]. rewrite mexec_app. by apply (Hs (mexec c l) t e) in IH.
Qed.

(** Under every interleaving of the routines of a [TaskManager] with callers of [Enqueue] and
    [Shutdown], the routines run the accepted tasks in order, each once; and once [Shutdown] has
    returned no task is in the hand of a routine and none is run any more, whatever happens then. *)
Theorem task_manager_shutdown_final l l' u :
  let c := mexec TaskManager_new l in
  let k := tm_queue (shared c) in
  (queue k = seq (taken k) (accepted k - taken k) /\ NoDup (ran k) /\
   forall i, (i < taken k)%nat <-> i ∈ ran k \/ exists t, mhand (pcs c t) = Some i) /\
  (pcs c u = MShut -> (forall t, mhand (pcs c t) = None) /\ ran (tm_queue (shared (mexec c l'))) = ran k).
Proof.
  cbn zeta.
  assert (Hi : tm_inv (shared (mexec TaskManager_new l)) (pcs (mexec TaskManager_new l)))
    by (apply (mexec_ind (fun c => tm_inv (shared c) (pcs c))); [intros; by apply mstep_inv|apply TaskManager_new_inv]).
  assert (Hl : log_inv mhand task_queue_size_ (tm_queue (shared (mexec TaskManager_new l))) (pcs (mexec TaskManager_new l))).
  { apply (mexec_ind (fun c => log_inv mhand task_queue_size_ (tm_queue (shared c)) (pcs c))); [intros; by apply mstep_log|].
    apply log_init. intros t. cbn. by case_decide. }
  split; [destruct Hl as [(? & ? & ?) ? ? ? ?]; done|]. intros Hu. set (c := mexec _ l) in *.
  assert (Hq : forall j, in_queue (shared c) j = false).
  { intros j. destruct (in_queue (shared c) j) eqn:E; [|done]. pose proof (ti_range _ _ Hi j E). by rewrite (ti_removed _ _ Hi u num_threads_ j) in E by auto. }
  assert (Hn : forall c, tm_inv (shared c) (pcs c) -> (forall j, in_queue (shared c) j = false) -> forall t, mhand (pcs c t) = None).
  { intros c' Hi' Hq' t. pose proof (ti_active _ _ Hi' t). destruct (pcs c' t); try done. cbn in *. rewrite Hq' in *. naive_solver. }
  split; [by apply Hn|].
  apply (mexec_ind (fun c' => tm_inv (shared c') (pcs c') /\ (forall j, in_queue (shared c') j = false) /\ ran (tm_queue (shared c')) = ran (tm_queue (shared c)))); [|done].
  intros c' t e (Hi' & Hq' & Hr). cbn [shared pcs]. split; [by apply mstep_inv|]. split.
  - intros j. destruct (in_queue _ j) eqn:E; [|done]. apply mstep_queue in E. by rewrite Hq' in E.
  - specialize (Hn c' Hi' Hq' t). rewrite <- Hr. destruct e as [[]|now], (pcs c' t); try done; cbn; repeat (case_match; cbn); try done.
    all: unfold pop, push; by repeat case_match.
Qed.
End TaskManager.

Abbreviation msteps t n := (steps t (replicate n (MStep 0))).
Abbreviation mstart t o := [(t%nat, MStart o)].

Lemma task_manager_shutdown_final_witness :
  let l := mstart 2 MEnqueue ++ msteps 2 2 ++ msteps 0 4 ++ msteps 2 2 ++ msteps 0 4 ++ mstart 3 MShutdown ++ msteps 3 5 in
  pcs (mexec 2 5 (TaskManager_new 2) l) 3%nat = MShut /\
  ran (tm_queue (shared (mexec 2 5 (mexec 2 5 (TaskManager_new 2) l) (msteps 1 1)))) = [0%nat].
Proof.
  cbn zeta. split; [vm_compute; reflexivity|].
  etransitivity; [apply (task_manager_shutdown_final 2 5 _ (msteps 1 1) 3%nat); vm_compute; reflexivity|vm_compute; reflexivity].
Defined.

(** A waiting routine whose flag nobody cleared stays where it is. *)
Definition asleep (c : CRoutine) : Prop := state_ c = DATA_WAIT /\ updated_ c = true.

Lemma routine_stays n m s t now : asleep (crs s t) ->
  let r := mstep n m t s MSuspended (MStep now) in r.2 = MSuspended /\ asleep (crs r.1 t) /\ tm_queue r.1 = tm_queue s.
Proof.
  intros [Hs Hu]. cbn [mstep routine_step]. destruct (_ || _); [done|]. cbn zeta.
  assert (asleep (UpdateState now (crs s t)).2 /\ (UpdateState now (crs s t)).1 = DATA_WAIT) as [Ha Hd].
  { unfold UpdateState, asleep, sleep_over. rewrite Hs. cbn. rewrite Hu. cbn. by rewrite Hs. }
  rewrite Hd. case_decide; [done|]. cbn. unfold upd_routine. cbn. by rewrite fn_lookup_insert.
Qed.

(** A routine looks for a task first and hangs up then: a task queued in between finds it [READY],
    so [NotifyTask] does nothing, and the routine sleeps beside the task. *)
Theorem task_manager_sleeps_on_task l :
  let c := mexec 1 5 (TaskManager_new 1) (msteps 0 3 ++ mstart 1 MEnqueue ++ msteps 1 3 ++ msteps 0 3) in
  let c' := mexec 1 5 c (steps 0 (MStep <$> l)) in
  pcs c 1%nat = MFuture (Some 0%nat) /\ queue (tm_queue (shared c')) = [0%nat] /\ pcs c' 0%nat = MSuspended.
Proof.
  cbn zeta. set (c := mexec 1 5 (TaskManager_new 1) _). split; [vm_compute; reflexivity|].
  enough (H : pcs (mexec 1 5 c (steps 0 (MStep <$> l))) 0%nat = MSuspended /\ asleep (crs (shared (mexec 1 5 c (steps 0 (MStep <$> l)))) 0) /\
    queue (tm_queue (shared (mexec 1 5 c (steps 0 (MStep <$> l))))) = [0%nat]) by tauto.
  induction l as [|now l (H1 & H2 & H3)] using rev_ind; [vm_compute; auto|].
  unfold steps in *. rewrite !fmap_app, mexec_app. set (d := mexec 1 5 c _) in *. cbn -[mstep]. unfold mtstep. cbn [fst snd]. rewrite H1.
  destruct (routine_stays 1 5 (shared d) 0 now H2) as (-> & ? & ->). rewrite fn_lookup_insert. auto.
Qed.
