(* ===== verification/UnboundedQueue.v ===== *)
(** * Unbounded queue: base/unbounded_queue.h

    A linked list with a node in front that holds no element.  [Enqueue] swings [tail_] to its node and
    then links it behind the old tail; [Dequeue] swings [head_] to the next node and takes its element.
    Each node is released by the [Enqueue] that replaced it as tail and by the [Dequeue] that left
    it behind; the second release deletes it.  Both operations are cut at their accesses.

    Nodes are numbered in the order of their allocation, so that memory is not used again: an access to
    a deleted node finds what was there, and is recorded in [bad]. *)

From Stdlib Require Import ZArith Lia.
From stdpp Require Import base functions list.
From S2P Require Import Prelude.

Section Queue.
Context {T : Type} (dflt : T).

Record Node := mkNode { data : T; ref_count : Z; next : option nat; deleted : bool }.

Definition Node_new (x : T) : Node := mkNode x 2 None false.

(** [bad]: a deleted node was accessed or deleted again.  For the theorems: [chain] are the nodes in the
    order in which they became the tail, [enqs] their elements, [deqs] how often [head_] moved,
    [results] what the calls of [Dequeue] took, with the position. *)
Record UnboundedQueue := mkUQ {
  nodes : list Node; head_ : nat; tail_ : nat; size_ : Z;
  bad : bool; chain : list nat; enqs : list T; deqs : nat; results : list (nat * T) }.

Definition with_nodes (s : UnboundedQueue) l b := mkUQ l (head_ s) (tail_ s) (size_ s) b (chain s) (enqs s) (deqs s) (results s).
Definition with_size (s : UnboundedQueue) n := mkUQ (nodes s) (head_ s) (tail_ s) n (bad s) (chain s) (enqs s) (deqs s) (results s).

(** An access to node [n]. *)
Definition is_deleted (s : UnboundedQueue) (n : nat) : bool := match nodes s !! n with Some d => deleted d | None => true end.
Definition access (s : UnboundedQueue) (n : nat) (f : Node -> Node) : UnboundedQueue :=
  with_nodes s (alter f n (nodes s)) (bad s || is_deleted s n).
Definition next_of (s : UnboundedQueue) (n : nat) : option nat := nodes s !! n ≫= next.

Definition set_next (m : nat) (d : Node) : Node := mkNode (data d) (ref_count d) (Some m) (deleted d).
Definition sub_ref (d : Node) : Node := mkNode (data d) (u32 (ref_count d - 1)) (next d) (deleted d).
Definition free (d : Node) : Node := mkNode (data d) (ref_count d) (next d) true.

(** [Reset]; [UnboundedQueue()]. *)
Definition Reset (s : UnboundedQueue) : UnboundedQueue :=
  let n := length (nodes s) in mkUQ (nodes s ++ [Node_new dflt]) n n 0 (bad s) [n] [] 0 [].
Definition UnboundedQueue_new : UnboundedQueue := Reset (mkUQ [] 0 0 0 false [] [] 0 []).

Definition Size (s : UnboundedQueue) : Z := size_ s.
Definition Empty (s : UnboundedQueue) : bool := size_ s =? 0.

(** [release] is shared: [r] is the element its [Dequeue] returns, [None] in [Enqueue]. *)
Inductive upc :=
| UIdle (r : option T)
| UNew (x : T) | ULoad (x : T) (n : nat) | UCas (x : T) (n old : nat) | ULink (n old : nat)
| DLoad | DNext (old : nat) | DCas (old nx : nat) | DData (old nx k : nat) | DSize (old : nat) (x : T)
| RSub (o : nat) (r : option T) | RLast (o : nat) (r : option T) | RDelete (o : nat) (r : option T)
| USize.

Definition Enqueue_step (s : UnboundedQueue) (p : upc) : UnboundedQueue * upc :=
  match p with
  | UNew x => (with_nodes s (nodes s ++ [Node_new x]) (bad s), ULoad x (length (nodes s)))
  | ULoad x n => (s, UCas x n (tail_ s))
  | UCas x n old =>
      if decide (tail_ s = old)
      then (mkUQ (nodes s) (head_ s) n (size_ s) (bad s) (chain s ++ [n]) (enqs s ++ [x]) (deqs s) (results s), ULink n old)
      else (s, UCas x n (tail_ s))
  | ULink n old => (access s old (set_next n), RSub old None)
  | USize => (with_size s (size_ s +u 1), UIdle None)
  | _ => (s, p)
  end.

Definition Dequeue_step (s : UnboundedQueue) (p : upc) : UnboundedQueue * upc :=
  match p with
  | DLoad => (s, DNext (head_ s))
  | DNext old => (access s old (fun d => d), match next_of s old with None => UIdle None | Some nx => DCas old nx end)
  | DCas old nx =>
      if decide (head_ s = old)
      then (mkUQ (nodes s) nx (tail_ s) (size_ s) (bad s) (chain s) (enqs s) (S (deqs s)) (results s), DData old nx (deqs s))
      else (s, DNext (head_ s))
  | DData old nx k =>
      let x := default dflt (data <$> nodes s !! nx) in
      let s := access s nx (fun d => d) in
      (mkUQ (nodes s) (head_ s) (tail_ s) (size_ s) (bad s) (chain s) (enqs s) (deqs s) (results s ++ [(k, x)]), DSize old x)
  | DSize old x => (with_size s (size_ s -u 1), RSub old (Some x))
  | _ => (s, p)
  end.

(** [Node::release]. *)
Definition release_step (s : UnboundedQueue) (p : upc) : UnboundedQueue * upc :=
  let after r := match r with Some x => UIdle (Some x) | None => USize end in
  match p with
  | RSub o r => (access s o sub_ref, RLast o r)
  | RLast o r => (access s o (fun d => d), if decide (ref_count <$> nodes s !! o = Some 0) then RDelete o r else after r)
  | RDelete o r => (access s o free, after r)
  | _ => (s, p)
  end.

Inductive uop := Enqueue (x : T) | Dequeue.
Inductive uev := Start (o : uop) | Step.

Definition u_step (s : UnboundedQueue) (p : upc) (e : uev) : UnboundedQueue * upc :=
  match e, p with
  | Start (Enqueue x), UIdle _ => (s, UNew x)
  | Start Dequeue, UIdle _ => (s, DLoad)
  | Start _, _ => (s, p)
  | Step, (UNew _ | ULoad _ _ | UCas _ _ _ | ULink _ _ | USize) => Enqueue_step s p
  | Step, (DLoad | DNext _ | DCas _ _ | DData _ _ _ | DSize _ _) => Dequeue_step s p
  | Step, (RSub _ _ | RLast _ _ | RDelete _ _) => release_step s p
  | Step, UIdle _ => (s, p)
  end.

(** [Destroy] walks the list from [head_]; each turn deletes a node. *)
Fixpoint Destroy (fuel : nat) (s : UnboundedQueue) (ite : option nat) : UnboundedQueue :=
  match fuel, ite with
  | S fuel, Some n => let tmp := next_of s n in Destroy fuel (access (access s n (fun d => d)) n free) tmp
  | _, _ => s
  end.
Definition Clear (s : UnboundedQueue) : UnboundedQueue := Reset (Destroy (length (nodes s)) s (Some (head_ s))).
End Queue.
Arguments Node : clear implicits.
Arguments UnboundedQueue : clear implicits.
Arguments upc : clear implicits.
Arguments uop : clear implicits.
Arguments uev : clear implicits.

(** ** First in, first out *)
Section Fifo.
Context {T : Type} (dflt : T).
Implicit Types (s : UnboundedQueue T) (g : nat -> upc T) (p : upc T).

(** What no release changes in a node. *)
Definition view (d : Node T) : T * option nat := (data d, next d).
Definition views s : list (T * option nat) := view <$> nodes s.
#[local] Arguments views : simpl never.
Definition link (m : nat) (v : T * option nat) : T * option nat := (v.1, Some m).

Lemma views_access s n f : (forall d, view (f d) = view d) -> views (access s n f) = views s.
Proof.
  intros Hf. unfold views. apply list_eq. intros i. rewrite !list_lookup_fmap. cbn.
  destruct (decide (i = n)) as [->|Hne]; [rewrite list_lookup_alter_eq|by rewrite list_lookup_alter_ne].
  destruct (nodes s !! n) as [d|]; [|done]. cbn. by rewrite Hf.
Qed.
Lemma views_link s n m : views (access s n (set_next m)) = alter (link m) n (views s).
Proof. unfold views. cbn. apply list_fmap_alter. by apply Forall_true. Qed.

Lemma next_of_views s n : next_of s n = (views s !! n) ≫= snd.
Proof. unfold next_of, views. rewrite list_lookup_fmap. by destruct (nodes s !! n). Qed.

(** The node an [Enqueue] has made and not yet put in, the position a [Dequeue] has taken and not
    yet read. *)
Definition fresh p : option nat := match p with ULoad _ n | UCas _ n _ => Some n | _ => None end.
Definition hand p : option nat := match p with DData _ _ k => Some k | _ => None end.

Record shared_ok s : Prop := {
  so_nodup : NoDup (chain s);
  so_len : length (chain s) = S (length (enqs s));
  so_lt : forall n, n ∈ chain s -> (n < length (views s))%nat;
  so_tail : chain s !! length (enqs s) = Some (tail_ s);
  so_head : chain s !! deqs s = Some (head_ s);
  so_data : forall i n, chain s !! S i = Some n -> fst <$> views s !! n = enqs s !! i;
  so_next : forall i n x m, chain s !! i = Some n -> views s !! n = Some (x, Some m) -> chain s !! S i = Some m;
  so_linked : forall i n, (i < deqs s)%nat -> chain s !! i = Some n -> exists x m, views s !! n = Some (x, Some m);
  so_once : NoDup (results s).*1;
  so_results : forall k x, (k, x) ∈ results s -> (k < deqs s)%nat /\ enqs s !! k = Some x
}.

Definition pc_ok s p : Prop :=
  match p with
  | ULoad x n | UCas x n _ => n ∉ chain s /\ views s !! n = Some (x, None)
  | ULink n old => exists i, chain s !! i = Some old /\ chain s !! S i = Some n
  | DNext old => exists i, (i <= deqs s)%nat /\ chain s !! i = Some old
  | DCas old nx => exists i x, chain s !! i = Some old /\ views s !! old = Some (x, Some nx)
  | DData old nx k => chain s !! S k = Some nx /\ (k < deqs s)%nat /\ k ∉ (results s).*1
  | _ => True
  end.

Record fifo_inv s g : Prop := {
  fi_shared : shared_ok s;
  fi_pcs : forall t, pc_ok s (g t);
  fi_fresh : forall t u n, fresh (g t) = Some n -> fresh (g u) = Some n -> t = u;
  fi_hand : forall t u k, hand (g t) = Some k -> hand (g u) = Some k -> t = u;
  fi_all : forall k, (k < deqs s)%nat -> k ∈ (results s).*1 \/ exists t, hand (g t) = Some k
}.

(** What the invariant depends on. *)
Definition core s := (views s, (head_ s, tail_ s), (chain s, enqs s), (deqs s, results s)).

Lemma shared_ok_core s s' : core s' = core s -> shared_ok s -> shared_ok s'.
Proof. intros [= Hv Hh Ht Hc He Hd Hr] []. split; rewrite ?Hv, ?Hh, ?Ht, ?Hc, ?He, ?Hd, ?Hr; done. Qed.
Lemma pc_ok_core s s' p : core s' = core s -> pc_ok s p -> pc_ok s' p.
Proof. intros [= Hv Hh Ht Hc He Hd Hr]. unfold pc_ok. by rewrite Hv, Hc, Hd, Hr. Qed.

Lemma hand_step g t p k : hand p = hand (g t) -> (exists u, hand (g u) = Some k) -> exists u, hand ((<[t := p]> g) u) = Some k.
Proof. intros Hp [u Hu]. exists u. thread_cases u t; [congruence|done]. Qed.

(** A step of thread [t] that changes nothing the invariant depends on. *)
Lemma fifo_quiet s g s' t p :
  fifo_inv s g -> core s' = core s -> pc_ok s p -> hand p = hand (g t) -> fresh p = None \/ fresh p = fresh (g t) ->
  fifo_inv s' (<[t := p]> g).
Proof.
  intros [] He Hp Hh Hf. split.
  - by eapply shared_ok_core.
  - intros u. apply (pc_ok_core s); [done|]. thread_cases u t; [done|apply fi_pcs0].
  - intros u v n. thread_cases u t; thread_cases v t; try done; intros H1 H2.
    + destruct Hf as [Hf|Hf]; [congruence|]. apply (fi_fresh0 _ _ n); congruence.
    + destruct Hf as [Hf|Hf]; [congruence|]. apply (fi_fresh0 _ _ n); congruence.
    + by apply (fi_fresh0 _ _ n).
  - intros u v n. thread_cases u t; thread_cases v t; try done; rewrite ?Hh; apply fi_hand0.
  - intros k. pose proof He as [= _ _ _ _ _ Hd Hr]. rewrite Hd, Hr. intros [?|?]%fi_all0; [by left|right]. by apply hand_step.
Qed.

(** Memory for a new node. *)
Lemma fifo_new s g t x :
  fifo_inv s g -> g t = UNew x ->
  fifo_inv (with_nodes s (nodes s ++ [Node_new x]) (bad s)) (<[t := ULoad x (length (nodes s))]> g).
Proof.
  intros [] Ht. set (s' := with_nodes _ _ _). assert (Hv : views s' = views s ++ [(x, None)]) by (unfold s', views; cbn; by rewrite fmap_app).
  assert (Hlen : length (views s) = length (nodes s)) by apply length_fmap.
  assert (Hold : forall n v, views s !! n = Some v -> views s' !! n = Some v) by (intros n v Hn; rewrite Hv; by apply lookup_app_l_Some).
  assert (Hin : forall n, n ∈ chain s -> views s' !! n = views s !! n)
    by (intros n Hn%(so_lt _ fi_shared0); rewrite Hv; by apply lookup_app_l).
  assert (Hnew : forall n, n ∈ chain s \/ is_Some (views s !! n) -> n <> length (nodes s)).
  { intros n [Hn%(so_lt _ fi_shared0)|Hn%lookup_lt_is_Some]; lia. }
  split.
  - destruct fi_shared0. split; cbn; try done.
    + intros n Hn. rewrite Hv, length_app. apply so_lt0 in Hn. lia.
    + intros i n Hn. rewrite Hin by (by apply list_elem_of_lookup_2 in Hn). by apply so_data0.
    + intros i n y m Hn. rewrite Hin by (by apply list_elem_of_lookup_2 in Hn). by apply so_next0.
    + intros i n Hi Hn. rewrite Hin by (by apply list_elem_of_lookup_2 in Hn). by eapply so_linked0.
  - intros u. thread_cases u t.
    + cbn. split; [intros Hn; by apply (Hnew _ (or_introl Hn))|]. rewrite Hv, lookup_app_r by lia. by rewrite Hlen, Nat.sub_diag.
    + specialize (fi_pcs0 u). destruct (g u); cbn in *; try done.
      * destruct fi_pcs0. auto.
      * destruct fi_pcs0. auto.
      * destruct fi_pcs0 as (i & y & ? & ?). exists i, y. auto.
  - assert (Hf : forall u n, fresh (g u) = Some n -> is_Some (views s !! n)).
    { intros u n Hu. specialize (fi_pcs0 u). destruct (g u); try done; destruct fi_pcs0; injection Hu as <-; by eexists. }
    intros u v n. thread_cases u t; thread_cases v t; try done; cbn.
    + intros [= <-] Hu%Hf. by destruct (Hnew _ (or_intror Hu)).
    + intros Hu%Hf [= <-]. by destruct (Hnew _ (or_intror Hu)).
    + by apply (fi_fresh0 _ _ n).
  - intros u v k. thread_cases u t; thread_cases v t; try done. apply fi_hand0.
  - intros k [?|?]%fi_all0; [by left|right]. apply hand_step; [by rewrite Ht|done].
Qed.

(** [tail_] swings to the new node. *)
Lemma fifo_put s g t x n :
  fifo_inv s g -> g t = UCas x n (tail_ s) ->
  fifo_inv (mkUQ (nodes s) (head_ s) n (size_ s) (bad s) (chain s ++ [n]) (enqs s ++ [x]) (deqs s) (results s)) (<[t := ULink n (tail_ s)]> g).
Proof.
  intros [] Ht. pose proof (fi_pcs0 t) as Hp. rewrite Ht in Hp. destruct Hp as [Hn Hx]. pose proof fi_shared0 as [].
  assert (Hl : forall i m, chain s !! i = Some m -> (chain s ++ [n]) !! i = Some m) by (intros; by apply lookup_app_l_Some).
  assert (Hd : (deqs s <= length (enqs s))%nat) by (apply lookup_lt_Some in so_head0; lia).
  split.
  - split; cbn.
    + apply NoDup_app. split; [done|]. split; [|apply NoDup_singleton]. intros m Hm ->%list_elem_of_singleton. done.
    + rewrite !length_app. cbn. lia.
    + intros m [Hm| ->%list_elem_of_singleton]%elem_of_app; [by apply so_lt0|by apply lookup_lt_Some in Hx].
    + rewrite length_app, lookup_app_r by (cbn; lia). rewrite so_len0. cbn. by replace (_ - _)%nat with 0%nat by lia.
    + by apply Hl.
    + intros i m [Hm|[Hi ->]]%lookup_snoc_Some.
      * destruct Hm as [Hi Hm]. change (views _) with (views s). rewrite (so_data0 _ _ Hm), lookup_app_l by lia. done.
      * change (views _) with (views s). rewrite Hx, lookup_app_r by lia. cbn. by replace (i - _)%nat with 0%nat by lia.
    + intros i m y m' [[Hi Hm]|[Hi ->]]%lookup_snoc_Some Hy; [by eapply Hl, so_next0|]. change (views _) with (views s) in Hy. congruence.
    + intros i m Hi Hm. rewrite lookup_app_l in Hm by lia. by apply (so_linked0 i).
    + done.
    + intros k y [? Hk]%so_results0. split; [done|]. by apply lookup_app_l_Some.
  - intros u. thread_cases u t.
    + exists (length (enqs s)). cbn. split; [by apply Hl|]. rewrite lookup_app_r by lia. by rewrite so_len0, Nat.sub_diag.
    + specialize (fi_pcs0 u). assert (Hfu : fresh (g u) <> Some n) by (intros Hu; apply n0, (fi_fresh0 u t n); [done|by rewrite Ht]).
      destruct (g u); cbn in *; try done.
      * destruct fi_pcs0. split; [|done]. intros [?|?%list_elem_of_singleton]%elem_of_app; [done|congruence].
      * destruct fi_pcs0. split; [|done]. intros [?|?%list_elem_of_singleton]%elem_of_app; [done|congruence].
      * destruct fi_pcs0 as (i & ? & ?). exists i. auto.
      * destruct fi_pcs0 as (i & ? & ?). exists i. auto.
      * destruct fi_pcs0 as (i & y & ? & ?). exists i, y. auto.
      * destruct fi_pcs0 as (? & ? & ?). auto.
  - intros u v m. thread_cases u t; thread_cases v t; try done. by apply (fi_fresh0 _ _ m).
  - intros u v k. thread_cases u t; thread_cases v t; try done. apply fi_hand0.
  - intros k [?|?]%fi_all0; [by left|right]. apply hand_step; [by rewrite Ht|done].
Qed.

(** The new node is linked behind the old tail. *)
Lemma fifo_link s g t n old :
  fifo_inv s g -> g t = ULink n old -> fifo_inv (access s old (set_next n)) (<[t := RSub old None]> g).
Proof.
  intros [] Ht. pose proof (fi_pcs0 t) as Hp. rewrite Ht in Hp. destruct Hp as (j & Hj & Hn). pose proof fi_shared0 as [].
  pose proof (views_link s old n) as Hv. set (s' := access _ _ _) in *.
  assert (Hother : forall m, m <> old -> views s' !! m = views s !! m) by (intros m Hm; rewrite Hv; by apply list_lookup_alter_ne).
  assert (Hold : views s' !! old = link n <$> views s !! old) by (rewrite Hv; apply list_lookup_alter_eq).
  assert (Hi : forall i, chain s !! i = Some old -> i = j) by (intros i Hi; by apply (NoDup_lookup (chain s) i j old)).
  split.
  - split; cbn; try done.
    + intros m Hm. rewrite Hv, length_alter. by apply so_lt0.
    + intros i m Hm. destruct (decide (m = old)) as [->|]; [|rewrite Hother by done; by apply so_data0].
      rewrite Hold, <- (so_data0 _ _ Hm). by destruct (views s !! old).
    + intros i m y m' Hm. destruct (decide (m = old)) as [->|]; [|rewrite Hother by done; by apply so_next0].
      rewrite Hold. destruct (views s !! old); [|done]. intros [= _ <-]. by rewrite (Hi _ Hm).
    + intros i m Hlt Hm. destruct (decide (m = old)) as [->|]; [|rewrite Hother by done; by apply (so_linked0 i)].
      destruct (so_linked0 _ _ Hlt Hm) as (y & m' & Hy). rewrite Hold, Hy. by exists y, n.
  - intros u. thread_cases u t; [done|]. specialize (fi_pcs0 u). destruct (g u); cbn in *; try done.
    + destruct fi_pcs0. split; [done|]. rewrite Hother; [done|]. intros ->. apply list_elem_of_lookup_2 in Hj. done.
    + destruct fi_pcs0. split; [done|]. rewrite Hother; [done|]. intros ->. apply list_elem_of_lookup_2 in Hj. done.
    + destruct fi_pcs0 as (i & y & Hoi & Hy). destruct (decide (old0 = old)) as [->|]; [|exists i, y; rewrite Hother; auto].
      exists i, y. split; [done|]. rewrite Hold, Hy. cbn. unfold link. cbn. do 2 f_equal.
      pose proof (so_next0 _ _ _ _ Hoi Hy) as Hs. rewrite (Hi _ Hoi) in Hs. congruence.
  - intros u v m. thread_cases u t; thread_cases v t; try done. by apply (fi_fresh0 _ _ m).
  - intros u v k. thread_cases u t; thread_cases v t; try done. apply fi_hand0.
  - intros k [?|?]%fi_all0; [by left|right]. apply hand_step; [by rewrite Ht|done].
Qed.

(** [head_] swings to the next node. *)
Lemma fifo_take s g t nx :
  fifo_inv s g -> g t = DCas (head_ s) nx ->
  fifo_inv (mkUQ (nodes s) nx (tail_ s) (size_ s) (bad s) (chain s) (enqs s) (S (deqs s)) (results s)) (<[t := DData (head_ s) nx (deqs s)]> g).
Proof.
  intros [] Ht. pose proof (fi_pcs0 t) as Hp. rewrite Ht in Hp. destruct Hp as (i & x & Hi & Hx). pose proof fi_shared0 as [].
  assert (i = deqs s) as -> by (by apply (NoDup_lookup (chain s) i (deqs s) (head_ s))).
  pose proof (so_next0 _ _ _ _ Hi Hx) as Hn.
  assert (Hh : forall u k, hand (g u) = Some k -> (k < deqs s)%nat).
  { intros u k Hu. specialize (fi_pcs0 u). destruct (g u); try done. injection Hu as <-. apply fi_pcs0. }
  split.
  - split; cbn; try done.
    + intros i m Hlt Hm. destruct (decide (i = deqs s)) as [->|]; [|apply (so_linked0 i); [lia|done]].
      exists x, nx. assert (m = head_ s) as -> by congruence. done.
    + intros k y [? ?]%so_results0. split; [lia|done].
  - intros u. thread_cases u t.
    + cbn. split; [done|]. split; [lia|]. intros ([k y] & Hk & Hin)%list_elem_of_fmap. cbn in Hk. subst k. apply so_results0 in Hin. lia.
    + specialize (fi_pcs0 u). destruct (g u); cbn in *; try done.
      * destruct fi_pcs0 as (j & ? & ?). exists j. split; [lia|done].
      * destruct fi_pcs0 as (? & ? & ?). split; [done|]. split; [lia|done].
  - intros u v m. thread_cases u t; thread_cases v t; try done. by apply (fi_fresh0 _ _ m).
  - intros u v k. thread_cases u t; thread_cases v t; try done; cbn.
    + intros [= <-] Hv%Hh. lia.
    + intros Hv%Hh [= <-]. lia.
    + apply fi_hand0.
  - intros k Hk. destruct (decide (k = deqs s)) as [->|]; [right; exists t; by rewrite fn_lookup_insert|].
    destruct (fi_all0 k ltac:(cbn in Hk; lia)) as [?|?]; [by left|right]. destruct H as [u Hu]. exists u. thread_cases u t; [by rewrite Ht in Hu|done].
Qed.

(** The element is read. *)
Lemma fifo_read s g t old nx k x size l b :
  fifo_inv s g -> g t = DData old nx k -> fst <$> views s !! nx = Some x -> view <$> l = views s ->
  fifo_inv (mkUQ l (head_ s) (tail_ s) size b (chain s) (enqs s) (deqs s) (results s ++ [(k, x)])) (<[t := DSize old x]> g).
Proof.
  intros [] Ht Hx Hl. pose proof (fi_pcs0 t) as Hp. rewrite Ht in Hp. destruct Hp as (Hn & Hk & Hnot).
  assert (Hv : forall s', nodes s' = l -> views s' = views s) by (intros s' Hs'; unfold views at 1; by rewrite Hs').
  split.
  - pose proof fi_shared0 as []. split; cbn; rewrite ?Hv by done; try done.
    + rewrite fmap_app. apply NoDup_app. split; [done|]. split; [|apply NoDup_singleton]. intros j Hj ->%list_elem_of_singleton. done.
    + intros j y [?%so_results0|[= -> ->]%list_elem_of_singleton]%elem_of_app; [done|]. by rewrite <- (so_data0 _ _ Hn).
  - intros u. thread_cases u t; [done|]. specialize (fi_pcs0 u).
    assert (Hu : hand (g u) <> Some k) by (intros Hu; apply n, (fi_hand0 u t k); [done|by rewrite Ht]).
    destruct (g u); cbn in *; rewrite ?Hv by done; try done.
    destruct fi_pcs0 as (? & ? & ?). split; [done|]. split; [done|]. rewrite fmap_app. intros [?|Hj%list_elem_of_singleton]%elem_of_app; [done|]. cbn in Hj. congruence.
  - intros u v m. thread_cases u t; thread_cases v t; try done. by apply (fi_fresh0 _ _ m).
  - intros u v j. thread_cases u t; thread_cases v t; try done. apply fi_hand0.
  - intros j Hj. cbn. rewrite fmap_app. destruct (fi_all0 j Hj) as [?|[u Hu]]; [left; apply elem_of_app; by left|].
    destruct (decide (u = t)) as [->|]; [left; rewrite Ht in Hu; injection Hu as <-; apply elem_of_app; right; by apply list_elem_of_singleton|].
    right. exists u. by rewrite fn_lookup_insert_ne.
Qed.

Lemma core_access s n f : (forall d, view (f d) = view d) -> core (access s n f) = core s.
Proof. intros Hf. unfold core. rewrite views_access by done. done. Qed.

Lemma fifo_step s g t e : fifo_inv s g -> fifo_inv (u_step dflt s (g t) e).1 (<[t := (u_step dflt s (g t) e).2]> g).
Proof.
  intros Hinv. pose proof (fi_pcs _ _ Hinv t) as Hp. pose proof (fi_shared _ _ Hinv) as Hs.
  assert (Hq : forall s' p, core s' = core s -> pc_ok s p -> hand p = hand (g t) -> fresh p = None \/ fresh p = fresh (g t) -> fifo_inv s' (<[t := p]> g))
    by (intros; by eapply fifo_quiet).
  destruct e as [[y|]|]; destruct (g t) eqn:Ht; cbn in Hp |- *; try (apply Hq; [done|done|by rewrite ?Ht|by auto]).
  - by apply fifo_new.
  - destruct (decide (tail_ s = old)) as [<-|]; cbn; [by apply fifo_put|]. apply Hq; rewrite ?Ht; try done; auto.
  - by apply fifo_link.
  - apply Hq; rewrite ?Ht; try done; [|by left]. exists (deqs s). split; [lia|]. apply (so_head _ Hs).
  - apply Hq; [by apply core_access|..]; destruct (next_of s old) as [nx|] eqn:Hnx; rewrite ?Ht; try done; auto.
    rewrite next_of_views in Hnx. destruct Hp as (i & _ & Hi). exists i. destruct (views s !! old) as [[x nx']|]; [|done].
    exists x. cbn in Hnx. by subst nx'.
  - destruct (decide (head_ s = old)) as [<-|]; cbn; [by apply fifo_take|]. apply Hq; rewrite ?Ht; try done; [|by left].
    exists (deqs s). split; [lia|]. apply (so_head _ Hs).
  - destruct Hp as (Hn & _). assert (Hx : fst <$> views s !! nx = data <$> nodes s !! nx) by (unfold views; rewrite list_lookup_fmap; by destruct (nodes s !! nx)).
    destruct (nodes s !! nx) as [d|] eqn:Hd; [|pose proof (so_lt _ Hs nx (list_elem_of_lookup_2 _ _ _ Hn)) as [v Hv]%lookup_lt_is_Some; by rewrite Hv in Hx].
    eapply fifo_read; [done|done|by rewrite Hx|]. exact (views_access s nx (fun d => d) (fun d => eq_refl)).
  - apply Hq; [by apply core_access|done|by rewrite ?Ht|by left].
  - apply Hq; [by apply core_access|..]; destruct (decide _), r; rewrite ?Ht; try done; auto.
  - apply Hq; [by apply core_access|..]; destruct r; rewrite ?Ht; try done; auto.
Qed.

Definition queue_start : conf := Conf (UnboundedQueue_new dflt) (fun _ : nat => UIdle (T := T) None).

Lemma fifo_start : fifo_inv (shared queue_start) (pcs queue_start).
Proof.
  split; [|done|done|done|intros k Hk; cbn in Hk; lia]. split; try done; cbn.
  - apply NoDup_singleton.
  - intros n ->%list_elem_of_singleton. vm_compute. lia.
  - intros i n x m Hi Hn. destruct i; [injection Hi as <-|]; done.
  - intros i n Hi. lia.
  - constructor.
  - by intros k x ?%not_elem_of_nil.
Qed.

Lemma fifo_exec sched : fifo_inv (shared (exec (u_step dflt) queue_start sched)) (pcs (exec (u_step dflt) queue_start sched)).
Proof.
  apply (exec_invariant _ (fun _ c => fifo_inv (shared c) (pcs c)) (length sched)); [|apply fifo_start|done].
  intros n c [t e] _ Hc. by apply fifo_step.
Qed.

(** Under every interleaving of [Enqueue] and [Dequeue] by any number of threads the queue is first
    in, first out: [head_] has moved past the first elements put in, no more than were put in; every
    call of [Dequeue] that read an element took one of these, at a position of its own, unaltered;
    those not read yet are in the hand of a caller; and a call finds the queue empty only when the
    element after [head_] is not linked yet. *)
Theorem unbounded_queue_fifo sched :
  let c := exec (u_step dflt) queue_start sched in let s := shared c in
  (deqs s <= length (enqs s))%nat /\ NoDup (results s).*1 /\
  (forall k x, (k, x) ∈ results s -> (k < deqs s)%nat /\ enqs s !! k = Some x) /\
  (forall k, (k < deqs s)%nat -> k ∈ (results s).*1 \/ exists t old nx, pcs c t = DData old nx k) /\
  (forall t old, pcs c t = DNext old -> next_of s old = None -> old = head_ s).
Proof.
  intros c s. destruct (fifo_exec sched) as [[] Hp _ _ Hall]. fold c s in so_nodup0, so_len0, so_lt0, so_tail0, so_head0, so_data0, so_next0, so_linked0, so_once0, so_results0, Hp, Hall.
  split; [apply lookup_lt_Some in so_head0; lia|]. split; [done|]. split; [done|]. split.
  - intros k Hk. destruct (Hall k Hk) as [?|[t Ht]]; [by left|right]. exists t. destruct (pcs c t); try done. injection Ht as <-. by eexists _, _.
  - intros t old Ht Hn. specialize (Hp t). rewrite Ht in Hp. destruct Hp as (i & Hi & Hold). rewrite next_of_views in Hn.
    destruct (decide (i = deqs s)) as [->|]; [congruence|]. destruct (so_linked0 i old ltac:(lia) Hold) as (x & m & Hv). by rewrite Hv in Hn.
Qed.
End Fifo.

(** Both releases of a node can find the count at zero: a [Dequeue] that comes between the two halves of
    the release of an [Enqueue] deletes the node first, the [Enqueue] reads the count of a deleted
    node and deletes it again. *)
Theorem node_deleted_twice :
  let put := [(0%nat, Start (Enqueue 1)); (0%nat, Step); (0%nat, Step); (0%nat, Step); (0%nat, Step); (0%nat, Step)] in
  let get := (1%nat, Start Dequeue) :: replicate 6 (1%nat, Step) in
  let c := exec (u_step 0) (queue_start 0) (put ++ get ++ [(0%nat, Step); (1%nat, Step); (1%nat, Step)]) in
  pcs c 0%nat = RDelete 0 None /\ is_deleted (shared c) 0 = true /\ bad (shared c) = false /\
  bad (shared (exec1 (u_step 0) c (0%nat, Step))) = true.
Proof. vm_compute. auto. Qed.

(** An element is counted after it is there to be taken: [Size] can be 2^64 - 1. *)
Theorem size_below_zero :
  let put := (0%nat, Start (Enqueue 1)) :: replicate 4 (0%nat, Step) in
  let get := (1%nat, Start Dequeue) :: replicate 5 (1%nat, Step) in
  Size (shared (exec (u_step 0) (queue_start 0) (put ++ get))) = two64 - 1.
Proof. vm_compute. reflexivity. Qed.

(** ** One caller at a time *)
Section Solo.
Context {T : Type} (dflt : T).
Implicit Types (s : UnboundedQueue T) (l : list T).

Fixpoint alone (n : nat) (s : UnboundedQueue T) (p : upc T) : UnboundedQueue T * upc T :=
  match n with O => (s, p) | S n => match u_step dflt s p Step with (s, p) => alone n s p end end.

Inductive solo_op := SEnqueue (x : T) | SDequeue | SClear.

(** A call run to its end: eight steps are enough.  What [Dequeue] returns. *)
Definition solo_call s (o : solo_op) : option T * UnboundedQueue T :=
  let run p := let r := alone 8 s p in (match r.2 with UIdle v => v | _ => None end, r.1) in
  match o with SEnqueue x => run (UNew x) | SDequeue => run DLoad | SClear => (None, Clear dflt s) end.

Definition list_call l (o : solo_op) : option T * list T :=
  match o with SEnqueue x => (None, l ++ [x]) | SDequeue => (head l, tail l) | SClear => (None, []) end.

(** The nodes of a queue with the elements [l], the first numbered [h] and holding [d]. *)
Fixpoint live (h : nat) (d : T) l : list (Node T) :=
  match l with [] => [Node_new d] | x :: l => mkNode d 1 (Some (S h)) false :: live (S h) x l end.

(** Every node that is not in use has been deleted, once. *)
Definition solo_ok s l : Prop :=
  exists dead d, nodes s = dead ++ live (length dead) d l /\ Forall (fun n => deleted n = true) dead /\
    head_ s = length dead /\ tail_ s = (length dead + length l)%nat /\ size_ s = u64 (Z.of_nat (length l)) /\ bad s = false.

Lemma length_live h d l : length (live h d l) = S (length l).
Proof. revert h d. induction l as [|x l IH]; intros h d; [done|]. cbn. by rewrite IH. Qed.

(** The second node linked behind the last, which is then released once. *)
Lemma live_snoc h d l x :
  alter sub_ref (length l) (alter (set_next (h + S (length l))) (length l) (live h d l ++ [Node_new x])) = live h d (l ++ [x]).
Proof.
  revert h d. induction l as [|y l IH]; intros h d.
  - cbn. unfold set_next, sub_ref. cbn. by rewrite Nat.add_1_r.
  - cbn [live length app alter list_alter]. rewrite <- (IH (S h) y). by rewrite <- Nat.add_succ_comm.
Qed.
Lemma live_last h d l : exists y, live h d l !! length l = Some (Node_new y).
Proof. revert h d. induction l as [|y l IH]; intros h d; [by exists d|apply IH]. Qed.
Lemma live_alive h d l i n : live h d l !! i = Some n -> deleted n = false.
Proof. revert h d i. induction l as [|y l IH]; intros h d [|i]; cbn; [by intros [= <-]|done|by intros [= <-]|apply IH]. Qed.

(** Accesses to a node in use. *)
Lemma access_live s dead k f L : nodes s = dead ++ L -> (exists n, L !! k = Some n /\ deleted n = false) ->
  access s (length dead + k) f = with_nodes s (dead ++ alter f k L) (bad s).
Proof.
  intros Hs (n & Hn & Hd). unfold access, is_deleted. rewrite Hs, alter_app_r. rewrite lookup_app_r by lia.
  replace (_ + k - _)%nat with k by lia. rewrite Hn, Hd. by rewrite orb_false_r.
Qed.

Lemma alive_last h d l L f : exists n, alter f (length l) (live h d l ++ L) !! length l = Some (f n) /\ deleted n = false /\ ref_count n = 2.
Proof.
  destruct (live_last h d l) as [y Hy]. exists (Node_new y). split; [|done]. rewrite list_lookup_alter_eq.
  by rewrite (lookup_app_l_Some _ _ _ _ Hy).
Qed.

Ltac go := cbn -[u64 u32 lookup alter decide length app live sub_ref set_next free access].

Lemma solo_enqueue s l x : solo_ok s l -> (solo_call s (SEnqueue x)).1 = None /\ solo_ok (solo_call s (SEnqueue x)).2 (l ++ [x]).
Proof.
  intros (dead & d & Hn & Hdead & Hh & Ht & Hsz & Hb). destruct s as [ns h t sz b ch en dq rs]. cbn in Hn, Hh, Ht, Hsz, Hb. subst.
  unfold solo_call. go. rewrite decide_True by done. go. rewrite length_app, length_live.
  assert (Hx : (dead ++ live (length dead) d l) ++ [Node_new x] = dead ++ (live (length dead) d l ++ [Node_new x])) by by rewrite <- app_assoc.
  destruct (alive_last (length dead) d l [Node_new x] (fun n => n)) as (n0 & Hn0 & Hd0 & _). rewrite list_alter_id in Hn0 by done.
  rewrite (access_live _ dead (length l) (set_next _) (live (length dead) d l ++ [Node_new x])); [|done|by exists n0]. go.
  set (L1 := alter (set_next _) _ _).
  destruct (alive_last (length dead) d l [Node_new x] (set_next (length dead + S (length l)))) as (n1 & Hn1 & Hd1 & Hr1).
  rewrite (access_live _ dead (length l) sub_ref L1); [|done|by exists (set_next (length dead + S (length l)) n1)]. go.
  assert (Hn2 : alter sub_ref (length l) L1 !! length l = Some (sub_ref (set_next (length dead + S (length l)) n1)))
    by (rewrite list_lookup_alter_eq; unfold L1; by rewrite Hn1).
  rewrite decide_False.
  2: { rewrite lookup_app_r by lia. replace (_ - _)%nat with (length l) by lia. rewrite Hn2. cbn. rewrite Hr1. done. }
  rewrite (access_live _ dead (length l) (fun n => n) (alter sub_ref (length l) L1)); [|done|eexists; split; [exact Hn2|done]]. go.
  split; [done|]. exists dead, d. cbn -[u64 u32 alter length app live]. rewrite list_alter_id by done.
  split; [f_equal; apply live_snoc|]. rewrite length_app. cbn [length].
  repeat split; try done; [lia|]. unfold u64. rewrite Zplus_mod_idemp_l. f_equal. lia.
Qed.

Lemma access_head s dead n L f : nodes s = dead ++ n :: L -> deleted n = false ->
  access s (length dead) f = with_nodes s (dead ++ f n :: L) (bad s).
Proof. intros Hs Hd. rewrite <- (Nat.add_0_r (length dead)). rewrite (access_live s dead 0 f (n :: L)); [done|done|by exists n]. Qed.
Lemma lookup_head (dead : list (Node T)) n L : (dead ++ n :: L) !! length dead = Some n.
Proof. by apply list_lookup_middle. Qed.

Lemma live_cons h d l : exists n L, live h d l = n :: L /\ data n = d /\ deleted n = false.
Proof. destruct l; by eexists _, _. Qed.

Lemma solo_dequeue s l : solo_ok s l -> (solo_call s SDequeue).1 = head l /\ solo_ok (solo_call s SDequeue).2 (tail l).
Proof.
  intros (dead & d & Hn & Hdead & Hh & Ht & Hsz & Hb). destruct s as [ns h t sz b ch en dq rs]. cbn in Hn, Hh, Ht, Hsz, Hb. subst.
  unfold solo_call. go. destruct l as [|x l]; cbn [live].
  - rewrite (access_head _ dead (Node_new d) []) by done. unfold next_of. go. rewrite lookup_head. go. split; [done|]. by exists dead, d.
  - destruct (live_cons (S (length dead)) x l) as (m & L & Hm & Hx & Hdm). rewrite Hm. set (n := mkNode d 1 (Some (S (length dead))) false).
    rewrite (access_head _ dead n (m :: L)) by done. unfold next_of. go. rewrite lookup_head. go. rewrite decide_True by done. go.
    assert (HS : (dead ++ n :: m :: L) !! S (length dead) = Some m) by (rewrite lookup_app_r by lia; by replace (S _ - _)%nat with 1%nat by lia).
    rewrite HS. assert (Hlen : length (dead ++ [n]) = S (length dead)) by (rewrite length_app; cbn; lia). rewrite <- Hlen.
    rewrite (access_head _ (dead ++ [n]) m L); [|cbn; by rewrite <- app_assoc|done]. go. rewrite <- app_assoc. cbn [app].
    rewrite (access_head _ dead n (m :: L)) by done. go. rewrite (access_head _ dead (sub_ref n) (m :: L)) by done. go.
    rewrite lookup_head, decide_True by done. go. rewrite (access_head _ dead (sub_ref n) (m :: L)) by done. go.
    split; [by rewrite Hx|]. set (n' := free (sub_ref n)). exists (dead ++ [n']), x.
    assert (Hlen' : length (dead ++ [n']) = S (length dead)) by (rewrite length_app; cbn; lia).
    cbn [nodes head_ tail_ size_ bad]. rewrite Hlen', Hm, <- app_assoc. split; [done|]. split; [by apply Forall_app_2; [|constructor]|].
    split; [done|]. split; [cbn; lia|]. split; [|done]. go. unfold u64. rewrite Zminus_mod_idemp_l. f_equal. cbn [length]. lia.
Qed.

(** [Destroy] deletes what is in use. *)
Lemma Destroy_ok l : forall fuel dead d s, nodes s = dead ++ live (length dead) d l -> (length l < fuel)%nat ->
  exists dead', Destroy fuel s (Some (length dead)) = with_nodes s dead' (bad s) /\ length dead' = (length dead + S (length l))%nat /\
    (Forall (fun n => deleted n = true) dead -> Forall (fun n => deleted n = true) dead').
Proof.
  induction l as [|x l IH]; intros [|fuel] dead d s Hs Hf; try (cbn in Hf; lia); cbn [Destroy live] in *; unfold next_of.
  - rewrite Hs, lookup_head. cbn [mbind option_bind next]. rewrite (access_head s dead (Node_new d) []) by done.
    rewrite (access_head _ dead (Node_new d) []) by done. exists (dead ++ [free (Node_new d)]). split; [by destruct fuel|].
    split; [by rewrite length_app|]. intros Hd. by apply Forall_app_2; [|constructor].
  - set (n := mkNode d 1 _ _) in *. rewrite Hs, lookup_head. cbn [mbind option_bind next n].
    rewrite (access_head s dead n (live (S (length dead)) x l)) by done. rewrite (access_head _ dead n (live (S (length dead)) x l)) by done.
    set (s1 := with_nodes _ _ _). assert (Hlen : length (dead ++ [free n]) = S (length dead)) by (rewrite length_app; cbn; lia).
    destruct (IH fuel (dead ++ [free n]) x s1) as (dead' & HD & Hl & Hall); [by rewrite Hlen, <- app_assoc|cbn in Hf; lia|].
    rewrite Hlen in HD, Hl. rewrite HD. exists dead'. split; [done|]. split; [cbn; lia|]. intros Hd. apply Hall. by apply Forall_app_2; [|constructor].
Qed.

Lemma solo_clear s l : solo_ok s l -> solo_ok (Clear dflt s) [].
Proof.
  intros (dead & d & Hn & Hdead & Hh & Ht & Hsz & Hb). unfold Clear. rewrite Hh.
  destruct (Destroy_ok l (length (nodes s)) dead d s Hn) as (dead' & -> & Hl & Hall); [rewrite Hn, length_app, length_live; lia|].
  exists dead', dflt. cbn. split; [done|]. split; [by apply Hall|]. repeat split; try done; lia.
Qed.

Lemma solo_call_ok s l o : solo_ok s l -> (solo_call s o).1 = (list_call l o).1 /\ solo_ok (solo_call s o).2 (list_call l o).2.
Proof. intros H. destruct o; [by apply solo_enqueue|by apply solo_dequeue|]. split; [done|]. by eapply solo_clear. Qed.

Fixpoint solo_run s (ops : list solo_op) : list (option T) * UnboundedQueue T :=
  match ops with [] => ([], s) | o :: ops => let r := solo_call s o in let q := solo_run r.2 ops in (r.1 :: q.1, q.2) end.
Fixpoint list_run l (ops : list solo_op) : list (option T) * list T :=
  match ops with [] => ([], l) | o :: ops => let r := list_call l o in let q := list_run r.2 ops in (r.1 :: q.1, q.2) end.

Lemma solo_run_ok ops : forall s l, solo_ok s l -> (solo_run s ops).1 = (list_run l ops).1 /\ solo_ok (solo_run s ops).2 (list_run l ops).2.
Proof.
  induction ops as [|o ops IH]; intros s l H; [done|]. cbn. destruct (solo_call_ok s l o H) as [-> Ho].
  destruct (IH _ _ Ho) as [-> ?]. done.
Qed.

(** A queue used by one thread is a list: whatever the sequence of calls, each returns what it would of a
    list, [Size] is the length (modulo 2^64), no deleted node is accessed or deleted again, and all nodes
    but one per element and one in front have been deleted. *)
Theorem unbounded_queue_refines_list ops :
  let r := solo_run (UnboundedQueue_new dflt) ops in let r' := list_run [] ops in
  r.1 = r'.1 /\ Size r.2 = u64 (Z.of_nat (length r'.2)) /\ bad r.2 = false /\
  length (filter (fun n => deleted n = false) (nodes r.2)) = S (length r'.2).
Proof.
  destruct (solo_run_ok ops (UnboundedQueue_new dflt) []) as [He (dead & d & Hn & Hdead & _ & _ & Hs & Hb)].
  { by exists [], dflt. }
  intros r r'. fold r r' in He, Hn, Hs, Hb. split; [done|]. split; [done|]. split; [done|]. rewrite Hn, filter_app.
  rewrite (filter_none_elem _ dead), (filter_id_elem _ (live _ _ _)); [by rewrite app_nil_l, length_live| |].
  - intros n [i Hi]%list_elem_of_lookup. by eapply live_alive.
  - intros n Hin Hd. rewrite Forall_forall in Hdead. by rewrite Hdead in Hd.
Qed.
End Solo.
