(* ===== verification/ClassicPolicy.v ===== *)
(** * The classic policy under concurrency

    The processors of one group of the classic policy, the threads that write messages and notify
    the tasks, and the threads that create and remove tasks, interleaved at their atomic accesses.

    - Processors: scheduler/processor.cc [Run], classic_context.cc [NextRoutine] and [Wait],
      croutine.h [Acquire], [UpdateState], [Resume], [Release], and the body of a task that
      croutine/routine_factory.h makes from a visitor of one channel.
    - Writers: data/data_dispatcher.h [Dispatch] and data_notifier.h [Notify] down to
      scheduler_classic.cc [NotifyProcessor] and classic_context.cc [Notify].
    - Creators and removers: scheduler.cc [CreateTask], scheduler_classic.cc [DispatchTask] and
      [RemoveCRoutine], classic_context.cc [RemoveCRoutine].

    The read-write lock of a run queue is taken at its contract (RwLock): the number of readers, or
    -1 for a writer.  The lock on [id_cr_] is left out of [NotifyProcessor], which allows more
    interleavings than the code has.  [Shutdown] is in Scheduler. *)

From stdpp Require Import base gmap functions list.
From S2P Require Import Prelude CacheBuffer CRoutine.

Section Definitions.
Context {M : Type} (dflt : M).

(** Where the body of a task made by [CreateRoutineFactory] stands: at the head of its loop,
    before [TryFetch], before the call of the user function, before [Yield(READY)], before the
    switch back. *)
Inductive rpos := RTop | RFetch | RCall (m : M) | RReady | RSwap.

(** A task: its coroutine with the place where it is suspended, its visitor, the messages its
    function was called with, and the notify callback of the visitor.  [missed] is for the
    theorems: since the last fetch a notification found no callback. *)
Record task := mkTask {
  cr : CRoutine;
  pos : rpos;
  tvis : @visitor M;
  handled : list M;
  callback : bool;
  missed : bool
}.

Definition with_cr (k : task) c := mkTask c (pos k) (tvis k) (handled k) (callback k) (missed k).
Definition with_pos (k : task) p := mkTask (cr k) p (tvis k) (handled k) (callback k) (missed k).
Definition with_vis (k : task) v := mkTask (cr k) (pos k) v (handled k) (callback k) (missed k).
Definition with_handled (k : task) h := mkTask (cr k) (pos k) (tvis k) h (callback k) (missed k).
Definition with_callback (k : task) b := mkTask (cr k) (pos k) (tvis k) (handled k) b (missed k).
Definition with_missed (k : task) b := mkTask (cr k) (pos k) (tvis k) (handled k) (callback k) b.

(** The shared state: the heap of tasks, the run queues of the group by priority with their locks,
    the registry of ids, the mutex of each id, and the notifications the group has not taken. *)
Record sched := mkS {
  tasks : nat -> task;
  fresh : nat;
  cr_group : nat -> list nat;
  rq_locks : nat -> Z;
  id_cr_ : gmap Z nat;
  id_map_mutex : Z -> bool;
  notify_grp : Z
}.

Definition with_tasks (s : sched) v := mkS v (fresh s) (cr_group s) (rq_locks s) (id_cr_ s) (id_map_mutex s) (notify_grp s).
Definition with_group (s : sched) v := mkS (tasks s) (fresh s) v (rq_locks s) (id_cr_ s) (id_map_mutex s) (notify_grp s).
Definition with_locks (s : sched) v := mkS (tasks s) (fresh s) (cr_group s) v (id_cr_ s) (id_map_mutex s) (notify_grp s).
Definition with_ids (s : sched) v := mkS (tasks s) (fresh s) (cr_group s) (rq_locks s) v (id_map_mutex s) (notify_grp s).
Definition with_mutex (s : sched) v := mkS (tasks s) (fresh s) (cr_group s) (rq_locks s) (id_cr_ s) v (notify_grp s).
Definition with_notify (s : sched) v := mkS (tasks s) (fresh s) (cr_group s) (rq_locks s) (id_cr_ s) (id_map_mutex s) v.

Definition upd_task (s : sched) (j : nat) (f : task -> task) : sched :=
  with_tasks s (<[j := f (tasks s j)]> (tasks s)).
Definition upd_cr (s : sched) (j : nat) (f : CRoutine -> CRoutine) : sched :=
  upd_task s j (fun k => with_cr k (f (cr k))).
Definition add_lock (s : sched) (i : nat) (d : Z) : sched :=
  with_locks s (<[i := rq_locks s i + d]> (rq_locks s)).
Definition set_lock_of (s : sched) (i : nat) (z : Z) : sched :=
  with_locks s (<[i := z]> (rq_locks s)).

(** What a thread that acts on a task knows of it: the object, its id and its priority. *)
Record tref := mkRef { obj : nat; crid : Z; prio : nat }.

Definition prio_of (c : CRoutine) : nat := Z.to_nat (priority_ c).

Inductive pc :=
  | Idle
  (* a processor *)
  | PTop
  | PLock (i : nat)
  | PScan (i k : nat)
  | PUpdate (i k j : nat)
  | PTest (i k j : nat)
  | PWake (i k j : nat)
  | PGot (i k j : nat)
  | PPut (i k j : nat)
  | PRet (i j : nat)
  | PResume (j : nat)
  | PRun (j : nat)
  | PRelease (j : nat)
  | PWait
  (* a writer *)
  | WNotify (j : nat)
  | WFind (j : nat) (c : Z)
  | WFlag (j : nat)
  | WCv
  (* a creator *)
  | CMutex (r : tref)
  | CReg (r : tref)
  | CLock (r : tref)
  | CPush (r : tref)
  | CUnlock (r : tref)
  | CCv (r : tref)
  | CDone (r : tref) (ok : bool)
  | CCallback (r : tref)
  (* a remover *)
  | XMutex (c : Z)
  | XFind (c : Z)
  | XLock (r : tref)
  | XSearch (r : tref)
  | XSpin (r : tref) (k j : nat)
  | XErase (r : tref) (k j : nat)
  | XRelease (r : tref) (j : nat)
  | XUnlock (r : tref) (found : bool)
  | XDone (c : Z) (found : bool).

#[global] Instance tref_eq_dec : EqDecision tref.
Proof. solve_decision. Defined.
#[global] Instance pc_eq_dec : EqDecision pc.
Proof. solve_decision. Defined.

(** What a thread starts: run a processor, write a message for a task, create a task with an id,
    a configured priority and a queue size, remove a task by its id. *)
Inductive op := Run | Write (j : nat) (m : M) | Create (c p size : Z) | Remove (c : Z).
Inductive ev := Start (o : op) | Step (now : Z) (timeout : bool).

(** [CreateTask] up to [DispatchTask], with the priority the configuration gives. *)
Definition new_task (c p size : Z) : task :=
  mkTask (set_priority (set_id (CRoutine_new 0) c) (clamp_prio (u32 p))) RTop
    (mkVisitor (CacheBuffer_new dflt size) 0) [] false false.

Definition start (s : sched) (o : op) : sched * pc :=
  match o with
  | Run => (s, PTop)
  | Write j m =>
      if decide (j < fresh s)%nat then
        (upd_task s j (fun k => with_vis k (mkVisitor (Fill (buffer_v (tvis k)) m).1 (next_msg_index_ (tvis k)))),
         WNotify j)
      else (s, Idle)
  | Create c p size =>
      let k := new_task c p size in
      (mkS (<[fresh s := k]> (tasks s)) (S (fresh s)) (cr_group s) (rq_locks s) (id_cr_ s) (id_map_mutex s) (notify_grp s),
       CMutex (mkRef (fresh s) c (prio_of (cr k))))
  | Remove c => (s, XMutex c)
  end.

(** One step of the body of a task, on the processor that runs it. *)
Definition body_step (k : task) : task * bool :=
  match pos k with
  | RTop => (with_pos (with_cr k (set_state (cr k) DATA_WAIT)) RFetch, false)
  | RFetch =>
      let r := TryFetch (tvis k) in
      (with_missed (with_vis (with_pos k (match r.1 with Some m => RCall m | None => RSwap end)) r.2) false, false)
  | RCall m => (with_handled (with_pos k RReady) (handled k ++ [m]), false)
  | RReady => (with_pos (with_cr k (Yield_to (cr k) READY)) RSwap, false)
  | RSwap => (with_pos k RTop, true)
  end.

(** The loop of [NextRoutine] over the priorities: the end of one queue. *)
Definition next_prio (i : nat) : pc := match i with 0%nat => PWait | S i' => PLock i' end.

(** [ClassicContext::NextRoutine], the three parts of [UpdateState] included. *)
Definition NextRoutine_step (s : sched) (p : pc) (now : Z) : sched * pc :=
  match p with
  | PTop => (s, PLock (MAX_PRIO - 1))
  | PLock i => if 0 <=? rq_locks s i then (add_lock s i 1, PScan i 0) else (s, p)
  | PScan i k =>
      match cr_group s i !! k with
      | None => (add_lock s i (-1), next_prio i)
      | Some j =>
          if (Acquire (cr (tasks s j))).1
          then (upd_cr s j (fun c => (Acquire c).2), PUpdate i k j)
          else (s, PScan i (S k))
      end
  | PUpdate i k j =>
      if sleep_over now (cr (tasks s j))
      then (upd_cr s j (fun c => set_state c READY), PGot i k j)
      else (s, PTest i k j)
  | PTest i k j =>
      (upd_cr s j (fun c => (test_and_set_updated c).2),
       if (test_and_set_updated (cr (tasks s j))).1 then PGot i k j else PWake i k j)
  | PWake i k j => (upd_cr s j wake_waiting, PGot i k j)
  | PGot i k j => (s, if decide (state_ (cr (tasks s j)) = READY) then PRet i j else PPut i k j)
  | PPut i k j => (upd_cr s j Release, PScan i (S k))
  | PRet i j => (add_lock s i (-1), PResume j)
  | _ => (s, p)
  end.

(** [ClassicContext::Wait]: a notification ends it, or the timeout. *)
Definition Wait_step (s : sched) (p : pc) (timeout : bool) : sched * pc :=
  if 0 <? notify_grp s then (with_notify s (notify_grp s - 1), PTop)
  else if timeout then (s, PTop) else (s, p).

(** [Processor::Run] with a routine in hand: [Resume], the body, [Release]. *)
Definition Run_step (s : sched) (p : pc) : sched * pc :=
  match p with
  | PResume j =>
      let c := cr (tasks s j) in
      if force_stop_ c then (upd_cr s j (fun c => set_state c FINISHED), PRelease j)
      else if decide (state_ c = READY) then (s, PRun j) else (s, PRelease j)
  | PRun j =>
      let r := body_step (tasks s j) in
      (upd_task s j (fun k => (body_step k).1), if r.2 then PRelease j else PRun j)
  | PRelease j => (upd_cr s j Release, PTop)
  | _ => (s, p)
  end.

Definition processor_step (s : sched) (p : pc) (now : Z) (timeout : bool) : sched * pc :=
  match p with
  | PWait => Wait_step s p timeout
  | PResume _ | PRun _ | PRelease _ => Run_step s p
  | _ => NextRoutine_step s p now
  end.

(** [DataNotifier::Notify] on the notifier of a visitor: its callback, when it has one. *)
Definition DataNotifier_step (s : sched) (j : nat) : sched * pc :=
  if callback (tasks s j) then (s, WFind j (cr_id (cr (tasks s j))))
  else (upd_task s j (fun k => with_missed k true), Idle).

(** [SchedulerClassic::NotifyProcessor] with [ClassicContext::Notify]. *)
Definition NotifyProcessor_step (s : sched) (p : pc) : sched * pc :=
  match p with
  | WFind _ c =>
      match id_cr_ s !! c with
      | None => (s, Idle)
      | Some j => (s, if waiting (cr (tasks s j)) then WFlag j else WCv)
      end
  | WFlag j => (upd_cr s j SetUpdateFlag, WCv)
  | WCv => (with_notify s (notify_grp s + 1), Idle)
  | _ => (s, p)
  end.

Definition writer_step (s : sched) (p : pc) : sched * pc :=
  match p with WNotify j => DataNotifier_step s j | _ => NotifyProcessor_step s p end.

(** [SchedulerClassic::DispatchTask]. *)
Definition DispatchTask_step (s : sched) (p : pc) : sched * pc :=
  match p with
  | CMutex r => if id_map_mutex s (crid r) then (s, p)
                else (with_mutex s (<[crid r := true]> (id_map_mutex s)), CReg r)
  | CReg r =>
      match id_cr_ s !! crid r with
      | Some _ => (s, CDone r false)
      | None => (with_ids s (<[crid r := obj r]> (id_cr_ s)), CLock r)
      end
  | CLock r => if rq_locks s (prio r) =? 0 then (set_lock_of s (prio r) (-1), CPush r) else (s, p)
  | CPush r => (with_group s (<[prio r := cr_group s (prio r) ++ [obj r]]> (cr_group s)), CUnlock r)
  | CUnlock r => (set_lock_of s (prio r) 0, CCv r)
  | CCv r => (with_notify s (notify_grp s + 1), CDone r true)
  | CDone r ok => (with_mutex s (<[crid r := false]> (id_map_mutex s)), if ok then CCallback r else Idle)
  | _ => (s, p)
  end.

(** The end of [Scheduler::CreateTask]: the notify callback of the visitor. *)
Definition RegisterNotifyCallback_step (s : sched) (r : tref) : sched * pc :=
  (upd_task s (obj r) (fun k => with_callback k true), Idle).

Definition creator_step (s : sched) (p : pc) : sched * pc :=
  match p with CCallback r => RegisterNotifyCallback_step s r | _ => DispatchTask_step s p end.

(** The first routine of a queue with the given id and its place. *)
Definition find_id (s : sched) (c : Z) (q : list nat) : option (nat * nat) :=
  list_find (fun j => cr_id (cr (tasks s j)) = c) q.

(** [SchedulerClassic::RemoveCRoutine], around the call of the next function. *)
Definition RemoveCRoutine_outer_step (s : sched) (p : pc) : sched * pc :=
  match p with
  | XMutex c => if id_map_mutex s c then (s, p) else (with_mutex s (<[c := true]> (id_map_mutex s)), XFind c)
  | XFind c =>
      match id_cr_ s !! c with
      | None => (s, XDone c false)
      | Some j => (with_ids (upd_cr s j Stop) (delete c (id_cr_ s)), XLock (mkRef j c (prio_of (cr (tasks s j)))))
      end
  | XDone c _ => (with_mutex s (<[c := false]> (id_map_mutex s)), Idle)
  | _ => (s, p)
  end.

(** [ClassicContext::RemoveCRoutine]. *)
Definition RemoveCRoutine_step (s : sched) (p : pc) : sched * pc :=
  match p with
  | XLock r => if rq_locks s (prio r) =? 0 then (set_lock_of s (prio r) (-1), XSearch r) else (s, p)
  | XSearch r =>
      match find_id s (cr_id (cr (tasks s (obj r)))) (cr_group s (prio r)) with
      | None => (s, XUnlock r false)
      | Some (k, j) => (upd_cr s j Stop, XSpin r k j)
      end
  | XSpin r k j =>
      if (Acquire (cr (tasks s j))).1 then (upd_cr s j (fun c => (Acquire c).2), XErase r k j) else (s, p)
  | XErase r k j => (with_group s (<[prio r := delete k (cr_group s (prio r))]> (cr_group s)), XRelease r j)
  | XRelease r j => (upd_cr s j Release, XUnlock r true)
  | XUnlock r found => (set_lock_of s (prio r) 0, XDone (crid r) found)
  | _ => (s, p)
  end.

Definition remover_step (s : sched) (p : pc) : sched * pc :=
  match p with XMutex _ | XFind _ | XDone _ _ => RemoveCRoutine_outer_step s p | _ => RemoveCRoutine_step s p end.

Definition tstep (s : sched) (p : pc) (e : ev) : sched * pc :=
  match e, p with
  | Start o, Idle => start s o
  | Start _, _ => (s, p)
  | Step _ _, Idle => (s, p)
  | Step now timeout, (PTop | PLock _ | PScan _ _ | PUpdate _ _ _ | PTest _ _ _ | PWake _ _ _ | PGot _ _ _
      | PPut _ _ _ | PRet _ _ | PResume _ | PRun _ | PRelease _ | PWait) => processor_step s p now timeout
  | Step _ _, (WNotify _ | WFind _ _ | WFlag _ | WCv) => writer_step s p
  | Step _ _, (CMutex _ | CReg _ | CLock _ | CPush _ | CUnlock _ | CCv _ | CDone _ _ | CCallback _) => creator_step s p
  | Step _ _, _ => remover_step s p
  end.

(** The scheduler before any task: nothing queued, nothing locked. *)
Definition sched_init : sched :=
  mkS (fun _ => new_task 0 0 0) 0 (fun _ => []) (fun _ => 0) ∅ (fun _ => false) 0.

Definition sys_init : conf := Conf sched_init (fun _ => Idle).
End Definitions.

(** ** Who holds what *)

Definition owned (p : pc) : option nat :=
  match p with
  | PUpdate _ _ j | PTest _ _ j | PWake _ _ j | PGot _ _ j | PPut _ _ j | PRet _ j
  | PResume j | PRun j | PRelease j | XErase _ _ j | XRelease _ j => Some j
  | _ => None
  end.

Definition reading (p : pc) : option nat :=
  match p with
  | PScan i _ | PUpdate i _ _ | PTest i _ _ | PWake i _ _ | PGot i _ _ | PPut i _ _ | PRet i _ => Some i
  | _ => None
  end.

Definition writing (p : pc) : option nat :=
  match p with
  | CPush r | CUnlock r | XSearch r | XSpin r _ _ | XErase r _ _ | XRelease r _ | XUnlock r _ => Some (prio r)
  | _ => None
  end.

Definition holding (p : pc) : option Z :=
  match p with
  | CReg r | CLock r | CPush r | CUnlock r | CCv r | CDone r _
  | XLock r | XSearch r | XSpin r _ _ | XErase r _ _ | XRelease r _ | XUnlock r _ => Some (crid r)
  | XFind c | XDone c _ => Some c
  | _ => None
  end.

(** A creator before its task is in the queue. *)
Definition unborn (p : pc) : option nat :=
  match p with CMutex r | CReg r | CLock r | CPush r => Some (obj r) | _ => None end.

(** A creator that has registered its task but not yet queued it. *)
Definition pushing (p : pc) : option nat :=
  match p with CLock r | CPush r => Some (obj r) | _ => None end.

(** A remover that has unregistered a task and not yet taken it out of its queue. *)
Definition removing (p : pc) : option nat :=
  match p with XLock r | XSearch r | XSpin r _ _ | XErase r _ _ => Some (obj r) | _ => None end.

(** A writer whose notification of a task is under way. *)
Definition notifying (p : pc) : option nat :=
  match p with WNotify j | WFind j _ | WFlag j => Some j | _ => None end.

Definition at_ {A} `{EqDecision A} (f : pc -> option A) (x : A) (p : pc) : bool := bool_decide (f p = Some x).

(** ** Identity of the tasks

    Ids and priorities never change, and everybody refers to tasks that exist. *)
Section Static.
Context {M : Type} (dflt : M).
Implicit Types (s : @sched M).

Definition ref_ok s (r : tref) : Prop :=
  (obj r < fresh s)%nat /\ cr_id (cr (tasks s (obj r))) = crid r /\ prio_of (cr (tasks s (obj r))) = prio r.

Definition pc_ok s (p : pc) : Prop :=
  match p with
  | PUpdate _ _ j | PTest _ _ j | PWake _ _ j | PGot _ _ j | PPut _ _ j | PRet _ j
  | PResume j | PRun j | PRelease j | WNotify j | WFlag j => (j < fresh s)%nat
  | WFind j c => (j < fresh s)%nat /\ cr_id (cr (tasks s j)) = c
  | CMutex r | CReg r | CLock r | CPush r | CUnlock r | CCv r | CDone r _ | CCallback r
  | XLock r | XSearch r | XUnlock r _ => ref_ok s r
  | XSpin r _ j | XErase r _ j | XRelease r j => ref_ok s r /\ (j < fresh s)%nat
  | _ => True
  end.

Record static_inv s (g : nat -> pc) : Prop := {
  st_queue : forall i j, j ∈ cr_group s i -> (j < fresh s)%nat /\ prio_of (cr (tasks s j)) = i;
  st_ids : forall c j, id_cr_ s !! c = Some j -> (j < fresh s)%nat /\ cr_id (cr (tasks s j)) = c;
  st_pc : forall t, pc_ok s (g t)
}.

(** The state changes only in ways that keep the identity of the tasks. *)
Definition extends s s' : Prop :=
  (fresh s <= fresh s')%nat /\
  forall j, (j < fresh s)%nat ->
    cr_id (cr (tasks s' j)) = cr_id (cr (tasks s j)) /\ priority_ (cr (tasks s' j)) = priority_ (cr (tasks s j)).
End Static.

(** Case analysis on the step of a thread. *)
Ltac step_cases e p :=
  destruct e as [[| | |]|]; destruct p; cbn [tstep start processor_step writer_step creator_step remover_step
    NextRoutine_step Wait_step Run_step DataNotifier_step NotifyProcessor_step DispatchTask_step RegisterNotifyCallback_step RemoveCRoutine_outer_step RemoveCRoutine_step fst snd];
  unfold Wait_step, DataNotifier_step, RegisterNotifyCallback_step; repeat case_match; cbn [fst snd].

(** Chooses the disjunct that holds. *)
Ltac pick := first [solve [split_and!; first [done | lia]] | left; pick | right; pick].

(** Two tasks: the one a step changes or another. *)
Ltac task_cases :=
  repeat match goal with
  | |- context [(<[?a := _]> _) ?b] =>
      destruct (decide (b = a)) as [->|]; [rewrite ?fn_lookup_insert | rewrite ?(fn_lookup_insert_ne _ a b) by done]
  end.

Section StaticProofs.
Context {M : Type} (dflt : M).
Implicit Types (s : @sched M).

Lemma body_step_id (k : @task M) :
  cr_id (cr (body_step k).1) = cr_id (cr k) /\ priority_ (cr (body_step k).1) = priority_ (cr k).
Proof. unfold body_step. by case_match. Qed.

Lemma wake_waiting_id c : cr_id (wake_waiting c) = cr_id c /\ priority_ (wake_waiting c) = priority_ c.
Proof. unfold wake_waiting. by case_match. Qed.

Lemma tstep_extends s p e : extends s (tstep dflt s p e).1.
Proof.
  step_cases e p; split; cbn; try lia; intros x Hx; task_cases;
    cbn [with_cr cr]; eauto using body_step_id, wake_waiting_id; lia.
Qed.

Lemma pc_ok_extends s s' p : extends s s' -> pc_ok s p -> pc_ok s' p.
Proof.
  intros [Hf He]. assert (forall r, ref_ok s r -> ref_ok s' r).
  { intros r (? & ? & ?). destruct (He (obj r)) as [??]; [done|].
    unfold ref_ok, prio_of in *. split_and!; [lia|congruence|congruence]. }
  destruct p; cbn [pc_ok]; try done; try solve [auto | intros; lia | intros []; split; [auto | lia]].
  intros [Hj Hc]. destruct (He j Hj). split; [lia|congruence].
Qed.
End StaticProofs.

Section StaticInv.
Context {M : Type} (dflt : M).
Implicit Types (s : @sched M).

Lemma find_id_spec s c q k j :
  find_id s c q = Some (k, j) -> q !! k = Some j /\ cr_id (cr (tasks s j)) = c.
Proof. unfold find_id. rewrite list_find_Some. tauto. Qed.

Lemma find_id_elem s c q k j : find_id s c q = Some (k, j) -> j ∈ q.
Proof. intros [? _]%find_id_spec. by eapply list_elem_of_lookup_2. Qed.

(** The acting thread refers to existing tasks afterwards. *)
Lemma static_own s g p e :
  static_inv s g -> pc_ok s p -> pc_ok (tstep dflt s p e).1 (tstep dflt s p e).2.
Proof.
  intros [Hq Hi _] Hp. pose proof (tstep_extends dflt s p e) as Hext.
  eapply pc_ok_extends in Hp; [|exact Hext]. revert Hp Hext.
  step_cases e p; intros Hp Hext; try done; cbn in *; try lia; try tauto.
  - unfold ref_ok; cbn. rewrite fn_lookup_insert. split_and!; [lia|done|done].
  - by eapply (Hq i), list_elem_of_lookup_2.
  - by destruct i.
  - by eapply (Hi c).
  - destruct (Hi c n) as [Hlt Hid]; [done|]. unfold ref_ok, prio_of; cbn.
    by rewrite fn_lookup_insert.
  - split; [done|]. eapply (Hq (prio r)), find_id_elem. eauto.
Qed.

(** Who changes the queues and the registry. *)
Lemma cr_group_step s p e i :
  let s' := (tstep dflt s p e).1 in
  cr_group s' i = cr_group s i \/
  (exists r, p = CPush r /\ (tstep dflt s p e).2 = CUnlock r /\ i = prio r /\ cr_group s' i = cr_group s i ++ [obj r]) \/
  (exists r k j, p = XErase r k j /\ (tstep dflt s p e).2 = XRelease r j /\ i = prio r /\ cr_group s' i = delete k (cr_group s i)).
Proof. cbv zeta. step_cases e p; eauto; cbn; task_cases; eauto 12. Qed.

Lemma id_cr_step s p e :
  let s' := (tstep dflt s p e).1 in
  id_cr_ s' = id_cr_ s \/
  (exists r, p = CReg r /\ (tstep dflt s p e).2 = CLock r /\ id_cr_ s !! crid r = None /\ id_cr_ s' = <[crid r := obj r]> (id_cr_ s)) \/
  (exists c j r, p = XFind c /\ (tstep dflt s p e).2 = XLock r /\ obj r = j /\ crid r = c /\ id_cr_ s !! c = Some j /\ id_cr_ s' = delete c (id_cr_ s)).
Proof. cbv zeta. step_cases e p; eauto; cbn; right; [left|right]; eauto 12. Qed.

Lemma extends_keep s s' j : extends s s' -> (j < fresh s)%nat ->
  (j < fresh s')%nat /\ cr_id (cr (tasks s' j)) = cr_id (cr (tasks s j)) /\
  prio_of (cr (tasks s' j)) = prio_of (cr (tasks s j)).
Proof. intros [Hf Hx] Hj. destruct (Hx j Hj) as [? He]. unfold prio_of. rewrite He. split_and!; [lia|done..]. Qed.

Lemma static_step c ev :
  static_inv (shared c) (pcs c) -> static_inv (shared (exec1 (tstep dflt) c ev)) (pcs (exec1 (tstep dflt) c ev)).
Proof.
  intros Hs. pose proof Hs as [Hq Hi Hp].
  pose proof (static_own _ _ _ ev.2 Hs (Hp ev.1)) as Hown.
  pose proof (tstep_extends dflt (shared c) (pcs c ev.1) ev.2) as Hext.
  pose proof (pc_ok_extends _ _ _ Hext (Hp ev.1)) as Hold.
  pose proof (fun j => extends_keep _ _ j Hext) as Hk.
  constructor; cbn.
  - intros i j. assert (j ∈ cr_group (shared c) i -> (j < fresh (tstep dflt (shared c) (pcs c ev.1) ev.2).1)%nat /\
      prio_of (cr (tasks (tstep dflt (shared c) (pcs c ev.1) ev.2).1 j)) = i) as Hq'.
    { intros [Hl <-]%Hq. by destruct (Hk j Hl) as (? & _ & ->). }
    destruct (cr_group_step (shared c) (pcs c ev.1) ev.2 i) as [->|[(r & He & _ & -> & ->)|(r & k & j' & _ & _ & _ & ->)]]; [done|..].
    + rewrite elem_of_app, list_elem_of_singleton. intros [?| ->]; [auto|].
      rewrite He in Hold |- *. by destruct Hold as (? & ? & ?).
    + intros Hj. apply Hq'. by eapply elem_of_sublist, sublist_delete.
  - intros d j. assert (id_cr_ (shared c) !! d = Some j -> (j < fresh (tstep dflt (shared c) (pcs c ev.1) ev.2).1)%nat /\
      cr_id (cr (tasks (tstep dflt (shared c) (pcs c ev.1) ev.2).1 j)) = d) as Hi'.
    { intros [Hl <-]%Hi. by destruct (Hk j Hl) as (? & -> & _). }
    destruct (id_cr_step (shared c) (pcs c ev.1) ev.2) as [->|[(r & He & _ & _ & ->)|(d' & j' & r & _ & _ & _ & _ & _ & ->)]]; [done|..].
    + rewrite lookup_insert_Some. intros [[<- <-]|[_ ?]]; [|auto].
      rewrite He in Hold |- *. by destruct Hold as (? & ? & ?).
    + rewrite lookup_delete_Some. intros [_ ?]. auto.
  - intros u. thread_cases u ev.1; [done|]. by eapply pc_ok_extends.
Qed.
End StaticInv.

(** ** Locks *)

Record locks_inv {M} (s : @sched M) (g : nat -> pc) : Prop := {
  lk_own : forall j, mutex_inv (at_ owned j) g (lock_ (cr (tasks s j)));
  lk_rq : forall i, rw_inv (at_ reading i) (at_ writing i) g (rq_locks s i);
  lk_id : forall c, mutex_inv (at_ holding c) g (id_map_mutex s c)
}.

Section Locks.
Context {M : Type} (dflt : M).
Implicit Types (s : @sched M).

Lemma body_step_lock (k : @task M) :
  lock_ (cr (body_step k).1) = lock_ (cr k) /\ force_stop_ (cr (body_step k).1) = force_stop_ (cr k) /\
  callback (body_step k).1 = callback k.
Proof. unfold body_step. by case_match. Qed.

Lemma wake_waiting_lock c : lock_ (wake_waiting c) = lock_ c /\ force_stop_ (wake_waiting c) = force_stop_ c.
Proof. unfold wake_waiting. by case_match. Qed.

(** How a step moves the lock of a routine. *)
Lemma own_step s p e j :
  let s' := (tstep dflt s p e).1 in let p' := (tstep dflt s p e).2 in
  pc_ok s p ->
  lock_ (cr (tasks s' j)) = lock_ (cr (tasks s j)) /\ at_ owned j p' = at_ owned j p \/
  lock_ (cr (tasks s j)) = false /\ lock_ (cr (tasks s' j)) = true \/
  at_ owned j p = true /\ at_ owned j p' = false /\ lock_ (cr (tasks s' j)) = false \/
  j = fresh s /\ at_ owned j p' = at_ owned j p.
Proof.
  cbv zeta. unfold at_. step_cases e p; intros Hok; cbn [pc_ok] in Hok; try by left.
  all: try by destruct i; left.
  all: cbn in *; task_cases; cbn; repeat case_bool_decide; simplify_eq; try done;
    try solve [left; split; [apply body_step_lock || apply wake_waiting_lock || done | done] | tauto].
  all: right; left; split; [by apply negb_true_iff|done].
Qed.

(** How a step moves the lock of a run queue, and the mutex of an id. *)
Lemma rq_step s p e i :
  let z := rq_locks s i in let z' := rq_locks (tstep dflt s p e).1 i in let p' := (tstep dflt s p e).2 in
  z' = z /\ at_ reading i p' = at_ reading i p /\ at_ writing i p' = at_ writing i p \/
  0 <= z /\ z' = z + 1 /\ at_ reading i p' = true /\ at_ reading i p = false /\ at_ writing i p' = false \/
  z' = z - 1 /\ at_ reading i p = true /\ at_ reading i p' = false /\ at_ writing i p' = false \/
  z = 0 /\ z' = -1 /\ at_ reading i p' = false \/
  z' = 0 /\ at_ writing i p = true /\ at_ writing i p' = false /\ at_ reading i p' = false.
Proof.
  cbv zeta. unfold at_. step_cases e p; try by left.
  all: cbn; try destruct i0; cbn; task_cases; cbn; repeat case_bool_decide; simplify_eq; pick.
Qed.

Lemma mutex_step s p e c :
  let b := id_map_mutex s c in let b' := id_map_mutex (tstep dflt s p e).1 c in let p' := (tstep dflt s p e).2 in
  b' = b /\ at_ holding c p' = at_ holding c p \/
  b = false /\ b' = true \/
  at_ holding c p = true /\ at_ holding c p' = false /\ b' = false.
Proof.
  cbv zeta. unfold at_. step_cases e p; try by left.
  all: cbn; try destruct i; cbn; task_cases; cbn; repeat case_bool_decide; simplify_eq; pick.
Qed.

Lemma locks_step c ev :
  static_inv (shared c) (pcs c) -> locks_inv (shared c) (pcs c) ->
  locks_inv (shared (exec1 (tstep dflt) c ev)) (pcs (exec1 (tstep dflt) c ev)).
Proof.
  intros Hs [Ho Hr Hm]. constructor; cbn.
  - intros j. specialize (Ho j).
    destruct (own_step (shared c) (pcs c ev.1) ev.2 j (st_pc _ _ Hs ev.1))
      as [[-> ?]|[[He ->]|[(? & ? & ->)|[-> He]]]].
    + by apply mutex_keep.
    + rewrite He in Ho. by apply mutex_acquire.
    + by eapply mutex_release.
    + apply mutex_keep; [|done]. apply mutex_fresh. intros t.
      pose proof (st_pc _ _ Hs t) as Hp. unfold at_. case_bool_decide as How; [|done].
      destruct (pcs c t); cbn in *; simplify_eq; try lia; destruct Hp; lia.
  - intros i. specialize (Hr i).
    destruct (rq_step (shared c) (pcs c ev.1) ev.2 i)
      as [(-> & ? & ?)|[(? & -> & ? & ? & ?)|[(-> & ? & ? & ?)|[(Hz & -> & ?)|(-> & ? & ? & ?)]]]].
    + by apply rw_keep.
    + by apply rw_rlock.
    + by apply rw_runlock.
    + rewrite Hz in Hr. by apply rw_wlock.
    + by eapply rw_wunlock.
  - intros d. specialize (Hm d).
    destruct (mutex_step (shared c) (pcs c ev.1) ev.2 d) as [[-> ?]|[[He ->]|(? & ? & ->)]].
    + by apply mutex_keep.
    + rewrite He in Hm. by apply mutex_acquire.
    + by eapply mutex_release.
Qed.
End Locks.

(** ** Queues and registry *)
Section Queues.
Context {M : Type} (dflt : M).
Implicit Types (s : @sched M).

(** No queue holds the task and nobody will put it there. *)
Definition out s (g : nat -> pc) (j : nat) : Prop :=
  (j < fresh s)%nat /\ (forall i, j ∉ cr_group s i) /\ forall t, unborn (g t) <> Some j.

(** Moreover nobody works on it. *)
Definition gone s (g : nat -> pc) (j : nat) : Prop :=
  out s g j /\ forall t, owned (g t) <> Some j.

Definition pc_queue s (g : nat -> pc) (p : pc) : Prop :=
  match p with
  | CLock r | CPush r => id_cr_ s !! crid r = Some (obj r)
  | XLock r | XSearch r => id_cr_ s !! crid r = None /\ obj r ∈ cr_group s (prio r)
  | XSpin r k j | XErase r k j =>
      id_cr_ s !! crid r = None /\ j = obj r /\ cr_group s (prio r) !! k = Some j
  | XRelease r j => j = obj r /\ out s g j
  | XUnlock r found => found = true /\ gone s g (obj r)
  | _ => True
  end.

Record queue_inv s (g : nat -> pc) : Prop := {
  q_nodup : forall i, NoDup (cr_group s i);
  q_unborn : forall t j, unborn (g t) = Some j -> forall i, j ∉ cr_group s i;
  q_one : forall j, mutex_inv (at_ unborn j) g true;
  q_reg : forall c j, id_cr_ s !! c = Some j ->
    j ∈ cr_group s (prio_of (cr (tasks s j))) \/ exists t, pushing (g t) = Some j;
  q_in : forall i j, j ∈ cr_group s i ->
    id_cr_ s !! cr_id (cr (tasks s j)) = Some j \/ exists t, removing (g t) = Some j;
  q_pc : forall t, pc_queue s g (g t)
}.

Lemma elem_of_delete (l : list nat) k y x : l !! k = Some y -> x <> y -> x ∈ l -> x ∈ delete k l.
Proof.
  intros Hk Hne. rewrite <- (take_drop_middle l k y Hk) at 1. rewrite delete_take_drop.
  rewrite !elem_of_app, elem_of_cons. naive_solver.
Qed.

Lemma not_elem_of_delete (l : list nat) k y : NoDup l -> l !! k = Some y -> y ∉ delete k l.
Proof.
  intros Hn Hk. rewrite <- (take_drop_middle l k y Hk) in Hn. rewrite delete_take_drop, elem_of_app.
  apply NoDup_app in Hn as (_ & Hd & Hc). apply NoDup_cons in Hc as [Hc _]. set_solver.
Qed.

Lemma holder_unique s g t u c :
  locks_inv s g -> holding (g t) = Some c -> holding (g u) = Some c -> t = u.
Proof.
  intros [_ _ Hm] Ht Hu. apply (proj1 (Hm c)); unfold at_; by apply bool_decide_eq_true.
Qed.

Lemma writer_unique s g t u i :
  locks_inv s g -> writing (g t) = Some i -> writing (g u) = Some i -> t = u.
Proof.
  intros [_ Hr _] Ht Hu. destruct (Hr i) as (R & _ & [[_ Hn]|(_ & _ & Hm)]).
  - specialize (Hn t). apply bool_decide_eq_false in Hn. done.
  - apply (proj1 Hm); unfold at_; by apply bool_decide_eq_true.
Qed.

(** The new program counter of a creator that has not queued its task yet. *)
Lemma unborn_step s p e :
  let p' := (tstep dflt s p e).2 in
  unborn p' = unborn p \/ unborn p' = None \/ unborn p' = Some (fresh s).
Proof. cbv zeta. step_cases e p; eauto. destruct i; eauto. Qed.

Lemma out_step c ev j :
  static_inv (shared c) (pcs c) -> out (shared c) (pcs c) j ->
  out (shared (exec1 (tstep dflt) c ev)) (pcs (exec1 (tstep dflt) c ev)) j.
Proof.
  intros Hs (Hl & Hq & Hu). split_and!; cbn.
  - by destruct (extends_keep _ _ j (tstep_extends dflt (shared c) (pcs c ev.1) ev.2) Hl).
  - intros i. destruct (cr_group_step dflt (shared c) (pcs c ev.1) ev.2 i)
      as [->|[(r & He & _ & -> & ->)|(r & k & j' & _ & _ & _ & ->)]]; [done|..].
    + rewrite elem_of_app, list_elem_of_singleton. intros [?| ->]; [by eapply Hq|].
      apply (Hu ev.1). by rewrite He.
    + intros Hin. eapply Hq, elem_of_sublist; [done|apply sublist_delete].
  - intros u. thread_cases u ev.1; [|done].
    destruct (unborn_step (shared c) (pcs c ev.1) ev.2) as [->|[->| ->]]; [done..|].
    intros [= He]. lia.
Qed.

(** A routine is acquired from a queue, or by a remover that found it there. *)
Lemma owned_step s p e j :
  let p' := (tstep dflt s p e).2 in
  owned p' = Some j -> owned p = Some j \/ (exists i k, p = PScan i k /\ j ∈ cr_group s i) \/ (exists r k, p = XSpin r k j).
Proof.
  cbv zeta. step_cases e p; cbn; intros; simplify_eq; try done; eauto.
  - right; left. eauto using list_elem_of_lookup_2.
  - by destruct i.
Qed.

Lemma gone_step c ev j :
  static_inv (shared c) (pcs c) -> queue_inv (shared c) (pcs c) -> gone (shared c) (pcs c) j ->
  gone (shared (exec1 (tstep dflt) c ev)) (pcs (exec1 (tstep dflt) c ev)) j.
Proof.
  intros Hs Hq [Hout Hown]. split; [by apply out_step|]. pose proof Hout as (_ & Hnq & _). cbn. intros u. thread_cases u ev.1; [|done].
  intros [?|[(i & k & _ & Hin)|(r & k & He)]]%owned_step; [by eapply Hown|by eapply Hnq|].
  pose proof (q_pc _ _ Hq ev.1) as Hp. rewrite He in Hp. destruct Hp as (_ & -> & Hk).
  by eapply Hnq, list_elem_of_lookup_2.
Qed.

(** The assertion of a thread that does not act. *)
Lemma pc_queue_stable c ev u :
  static_inv (shared c) (pcs c) -> locks_inv (shared c) (pcs c) -> queue_inv (shared c) (pcs c) -> u <> ev.1 ->
  pc_queue (shared (exec1 (tstep dflt) c ev)) (pcs (exec1 (tstep dflt) c ev)) (pcs c u).
Proof.
  intros Hs Hl Hq Hne. pose proof (q_pc _ _ Hq u) as Hu.
  set (s' := shared (exec1 (tstep dflt) c ev)).
  assert (forall d, holding (pcs c u) = Some d -> id_cr_ s' !! d = id_cr_ (shared c) !! d) as Hid.
  { intros d Hd. destruct (id_cr_step dflt (shared c) (pcs c ev.1) ev.2) as [He|[(r & Hp & _ & _ & He)|(d' & j' & r & Hp & _ & _ & _ & _ & He)]];
      subst s'; cbn; rewrite He; [done|apply lookup_insert_ne|apply lookup_delete_ne].
    all: intros Heq; apply Hne; eapply holder_unique; [done..|]; rewrite Hp; cbn; congruence. }
  assert (forall i, writing (pcs c u) = Some i -> cr_group s' i = cr_group (shared c) i) as Hw.
  { intros i Hd. destruct (cr_group_step dflt (shared c) (pcs c ev.1) ev.2 i) as [He|[(r & Hp & _ & -> & _)|(r & k & j & Hp & _ & -> & _)]];
      [exact He|..].
    all: destruct Hne; eapply writer_unique; [done..|]; by rewrite Hp. }
  assert (forall r, removing (pcs c u) = Some (obj r) -> holding (pcs c u) = Some (crid r) -> ref_ok (shared c) r ->
    obj r ∈ cr_group (shared c) (prio r) -> obj r ∈ cr_group s' (prio r)) as Hin.
  { intros r _ Hh (_ & Hc & _) Hj. destruct (cr_group_step dflt (shared c) (pcs c ev.1) ev.2 (prio r)) as [He|[(r' & Hp & _ & _ & He)|(r' & k & j & Hp & _ & Hpr & He)]];
      subst s'; cbn; rewrite He; [done|set_solver|].
    pose proof (q_pc _ _ Hq ev.1) as Hx. pose proof (st_pc _ _ Hs ev.1) as Hr. rewrite Hp in Hx, Hr.
    destruct Hx as (_ & -> & Hk). destruct Hr as [(_ & Hc' & _) _].
    rewrite Hpr. eapply elem_of_delete; [done| |congruence]. intros He'.
    apply Hne. eapply holder_unique; [done..|]. rewrite Hp. cbn. congruence. }
  pose proof (st_pc _ _ Hs u) as Hr. revert Hu Hr Hid Hw Hin.
  destruct (pcs c u); cbn [pc_queue pc_ok holding writing removing]; try done; intros Hu Hr Hid Hw Hin.
  - by rewrite Hid.
  - by rewrite Hid.
  - destruct Hu as [Hu ?]. rewrite Hid by done. eauto.
  - destruct Hu as [Hu ?]. rewrite Hid by done. eauto.
  - by rewrite Hid, Hw.
  - by rewrite Hid, Hw.
  - destruct Hu as [-> ?]. by eauto using out_step.
  - destruct Hu as [-> ?]. by eauto using gone_step.
Qed.

Lemma pushing_holds s p j : pc_ok s p -> pushing p = Some j -> holding p = Some (cr_id (cr (tasks s j))).
Proof. destruct p; cbn; try done; intros (_ & He & _) [= <-]; by rewrite He. Qed.

Lemma removing_holds s p j : pc_ok s p -> removing p = Some j -> holding p = Some (cr_id (cr (tasks s j))).
Proof. destruct p; cbn; try done; [intros (_ & He & _)|intros (_ & He & _)|intros [(_ & He & _) _]..]; intros [= <-]; by rewrite He. Qed.

Lemma find_id_None s d q : find_id s d q = None -> forall j, j ∈ q -> cr_id (cr (tasks s j)) = d -> False.
Proof. unfold find_id. rewrite list_find_None, Forall_forall. naive_solver. Qed.

(** The assertion the acting thread establishes. *)
Lemma pc_queue_own c ev :
  static_inv (shared c) (pcs c) -> locks_inv (shared c) (pcs c) -> queue_inv (shared c) (pcs c) ->
  pc_queue (shared (exec1 (tstep dflt) c ev)) (pcs (exec1 (tstep dflt) c ev)) (tstep dflt (shared c) (pcs c ev.1) ev.2).2.
Proof.
  intros Hs Hl Hq. pose proof (q_pc _ _ Hq ev.1) as Hu. pose proof (st_pc _ _ Hs ev.1) as Hr.
  pose proof (fun j => out_step c ev j Hs) as Hout. pose proof (fun j => gone_step c ev j Hs Hq) as Hgone.
  unfold exec1 in *. cbn [shared pcs] in *. destruct ev as [t e]. cbn [fst snd] in *. revert Hu Hr Hout Hgone.
  destruct (pcs c t) eqn:Ep; destruct e as [[| | |]|];
    cbn [tstep start processor_step writer_step creator_step remover_step
    NextRoutine_step Wait_step Run_step DataNotifier_step NotifyProcessor_step DispatchTask_step RegisterNotifyCallback_step RemoveCRoutine_outer_step RemoveCRoutine_step fst snd pc_queue pc_ok];
    unfold Wait_step, DataNotifier_step, RegisterNotifyCallback_step; repeat case_match; intros Hu Hr Hout Hgone; try done; cbn [fst snd pc_queue];
    try solve [destruct Hu; split; auto].
  - by destruct i.
  - cbn. by rewrite lookup_insert_eq.
  - cbn. rewrite lookup_delete_eq. split; [done|].
    destruct (q_reg _ _ Hq c0 n) as [?|[u Hu']]; [done..|]. exfalso.
    destruct (st_ids _ _ Hs c0 n) as [_ Hid]; [done|].
    apply (pushing_holds _ _ _ (st_pc _ _ Hs u)) in Hu' as Hh. rewrite Hid in Hh.
    assert (u = t) as -> by (eapply holder_unique; [done..|by rewrite Ep]). by rewrite Ep in Hu'.
  - apply find_id_spec in H as [Hk Hid]. destruct Hu as [Hu _]. cbn. split_and!; [done| |done].
    destruct Hr as (_ & Hr & _). rewrite Hr in Hid.
    destruct (q_in _ _ Hq (prio r) n0) as [Hreg|[u Hu']]; [by eapply list_elem_of_lookup_2|congruence|].
    apply (removing_holds _ _ _ (st_pc _ _ Hs u)) in Hu' as Hh. rewrite Hid in Hh.
    assert (u = t) as -> by (eapply holder_unique; [done..|by rewrite Ep]). rewrite Ep in Hu'. by injection Hu'.
  - exfalso. destruct Hu as [_ Hu]. eapply (find_id_None _ _ _ H (obj r)); done.
  - destruct Hu as (_ & -> & Hk). split; [done|]. destruct Hr as [(Hlt & _ & Hpr) _].
    split_and!; [done| |].
    + intros i Hin. cbn in Hin. destruct (decide (i = prio r)) as [->|Hne].
      * rewrite fn_lookup_insert in Hin. by eapply not_elem_of_delete; [apply Hq|..].
      * rewrite fn_lookup_insert_ne in Hin by done. apply (st_queue _ _ Hs) in Hin as [_ <-]. done.
    + intros u. thread_cases u t; [done|]. intros Hub.
      eapply (q_unborn _ _ Hq u (obj r) Hub). by eapply list_elem_of_lookup_2.
  - destruct Hu as [-> Hu]. split; [done|]. split; [by apply Hout|]. intros u. thread_cases u t; [done|]. intros Ho.
    cut (u = t); [done|]. apply (proj1 (lk_own _ _ Hl (obj r))); unfold at_; apply bool_decide_eq_true; by rewrite ?Ep.
Qed.

Lemma pushing_step s p e j : pushing p = Some j ->
  pushing (tstep dflt s p e).2 = Some j \/ exists r, p = CPush r /\ obj r = j /\ (tstep dflt s p e).1 = with_group s (<[prio r := cr_group s (prio r) ++ [obj r]]> (cr_group s)).
Proof. step_cases e p; cbn; intros; simplify_eq; eauto. Qed.

Lemma removing_step s p e j : removing p = Some j ->
  removing (tstep dflt s p e).2 = Some j \/ (exists r k x, p = XErase r k x /\ obj r = j /\ (tstep dflt s p e).1 = with_group s (<[prio r := delete k (cr_group s (prio r))]> (cr_group s))) \/
  exists r, (tstep dflt s p e).2 = XUnlock r false.
Proof. step_cases e p; cbn; intros; simplify_eq; eauto 8. Qed.

Lemma elem_before s p e i j : j ∈ cr_group (tstep dflt s p e).1 i ->
  j ∈ cr_group s i \/ exists r, p = CPush r /\ (tstep dflt s p e).2 = CUnlock r /\ j = obj r /\ id_cr_ (tstep dflt s p e).1 = id_cr_ s.
Proof.
  destruct (cr_group_step dflt s p e i) as [->|[(r & -> & Hp' & -> & ->)|(r & k & x & _ & _ & _ & ->)]]; [by left|..].
  - rewrite elem_of_app, list_elem_of_singleton. intros [?| ->]; [by left|right].
    exists r. split_and!; [done..|]. by destruct e as [[]|].
  - intros Hin. left. by eapply elem_of_sublist, sublist_delete.
Qed.

Lemma elem_after s p e i j : j ∈ cr_group s i ->
  j ∈ cr_group (tstep dflt s p e).1 i \/ exists r k x, p = XErase r k x /\ i = prio r /\ cr_group s i !! k = Some j.
Proof.
  intros Hin. destruct (cr_group_step dflt s p e i) as [->|[(r & _ & _ & _ & ->)|(r & k & x & -> & _ & -> & ->)]];
    [by left|left; set_solver|].
  destruct (decide (cr_group s (prio r) !! k = Some j)) as [?|Hne]; [eauto 8|left].
  destruct (cr_group s (prio r) !! k) as [y|] eqn:E.
  - eapply elem_of_delete; [done| |done]. congruence.
  - apply lookup_ge_None in E. rewrite delete_take_drop, take_ge, drop_ge, app_nil_r by lia. done.
Qed.

Lemma unborn_lt s p j : pc_ok s p -> unborn p = Some j -> (j < fresh s)%nat.
Proof. destruct p; cbn; try done; intros (? & _) [= <-]; done. Qed.

Lemma queue_one c ev j :
  static_inv (shared c) (pcs c) -> mutex_inv (at_ unborn j) (pcs c) true ->
  mutex_inv (at_ unborn j) (pcs (exec1 (tstep dflt) c ev)) true.
Proof.
  intros Hs Hm. cbn. destruct (unborn_step (shared c) (pcs c ev.1) ev.2) as [He|[He|He]].
  - apply mutex_keep; [done|]. unfold at_. by rewrite He.
  - apply mutex_drop; [done|]. unfold at_. by rewrite He.
  - destruct (decide (j = fresh (shared c))) as [->|Hne].
    + apply mutex_acquire, mutex_fresh. intros u. apply bool_decide_eq_false. intros Hu.
      apply (unborn_lt _ _ _ (st_pc _ _ Hs u)) in Hu. lia.
    + apply mutex_drop; [done|]. unfold at_. rewrite He. apply bool_decide_eq_false. congruence.
Qed.

Lemma queue_reg c ev d j :
  static_inv (shared c) (pcs c) -> queue_inv (shared c) (pcs c) ->
  id_cr_ (shared (exec1 (tstep dflt) c ev)) !! d = Some j ->
  j ∈ cr_group (shared (exec1 (tstep dflt) c ev)) (prio_of (cr (tasks (shared (exec1 (tstep dflt) c ev)) j))) \/
  exists t, pushing (pcs (exec1 (tstep dflt) c ev) t) = Some j.
Proof.
  intros Hs Hq Hd. cbn in *.
  assert (id_cr_ (shared c) !! d = Some j \/ pushing (tstep dflt (shared c) (pcs c ev.1) ev.2).2 = Some j) as [Hd'|Hp].
  { destruct (id_cr_step dflt (shared c) (pcs c ev.1) ev.2) as [He|[(r & _ & Hp & _ & He)|(d' & j' & r & _ & _ & _ & _ & _ & He)]];
      rewrite He in Hd; [by left|..].
    - apply lookup_insert_Some in Hd as [[_ <-]|[_ ?]]; [right; by rewrite Hp|by left].
    - apply lookup_delete_Some in Hd as [_ ?]. by left. }
  2: { right. exists ev.1. by rewrite fn_lookup_insert. }
  destruct (st_ids _ _ Hs d j Hd') as [Hlt Hid].
  destruct (extends_keep _ _ j (tstep_extends dflt (shared c) (pcs c ev.1) ev.2) Hlt) as (_ & _ & ->).
  destruct (q_reg _ _ Hq d j Hd') as [Hin|[u Hu]].
  - left. destruct (elem_after (shared c) (pcs c ev.1) ev.2 _ _ Hin) as [?|(r & k & x & Hp & Hpr & Hk)]; [done|].
    exfalso. pose proof (q_pc _ _ Hq ev.1) as Hx. pose proof (st_pc _ _ Hs ev.1) as Hr. rewrite Hp in Hx, Hr.
    destruct Hx as (Hn & -> & Hk'), Hr as [(_ & Hc & _) _]. rewrite Hpr in Hk. simplify_eq. congruence.
  - destruct (decide (u = ev.1)) as [->|Hne]; [|right; exists u; by rewrite fn_lookup_insert_ne].
    destruct (pushing_step (shared c) (pcs c ev.1) ev.2 j Hu) as [?|(r & Hp & <- & He)].
    + right. exists ev.1. by rewrite fn_lookup_insert.
    + left. rewrite He. cbn. pose proof (st_pc _ _ Hs ev.1) as Hr. rewrite Hp in Hr. destruct Hr as (_ & _ & ->).
      rewrite fn_lookup_insert. set_solver.
Qed.

Lemma queue_in c ev i j :
  static_inv (shared c) (pcs c) -> locks_inv (shared c) (pcs c) -> queue_inv (shared c) (pcs c) ->
  j ∈ cr_group (shared (exec1 (tstep dflt) c ev)) i ->
  id_cr_ (shared (exec1 (tstep dflt) c ev)) !! cr_id (cr (tasks (shared (exec1 (tstep dflt) c ev)) j)) = Some j \/
  exists t, removing (pcs (exec1 (tstep dflt) c ev) t) = Some j.
Proof.
  intros Hs Hl Hq Hin. pose proof (pc_queue_own c ev Hs Hl Hq) as Hown. cbn in *.
  assert (j < fresh (shared c))%nat as Hlt.
  { apply elem_before in Hin as [Hin|(r & Hp & _ & -> & _)]; [by apply (st_queue _ _ Hs) in Hin as [? _]|].
    pose proof (st_pc _ _ Hs ev.1) as Hr. rewrite Hp in Hr. by destruct Hr. }
  destruct (extends_keep _ _ j (tstep_extends dflt (shared c) (pcs c ev.1) ev.2) Hlt) as (_ & -> & _).
  destruct (elem_before _ _ _ _ _ Hin) as [Hold|(r & Hp & _ & -> & He)].
  2: { left. pose proof (q_pc _ _ Hq ev.1) as Hx. pose proof (st_pc _ _ Hs ev.1) as Hr. rewrite He. rewrite Hp in Hx, Hr.
       destruct Hr as (_ & -> & _). done. }
  destruct (q_in _ _ Hq i j Hold) as [Hreg|[u Hu]].
  - destruct (id_cr_step dflt (shared c) (pcs c ev.1) ev.2) as [He|[(r & _ & _ & Hn & He)|(d & j' & r & _ & Hp & Ho & _ & Hd & He)]];
      rewrite He; [by left|left..|].
    + rewrite lookup_insert_ne; [done|]. congruence.
    + destruct (decide (d = cr_id (cr (tasks (shared c) j)))) as [->|Hne]; [|left; by rewrite lookup_delete_ne].
      right. exists ev.1. rewrite fn_lookup_insert, Hp. cbn. congruence.
  - right. destruct (decide (u = ev.1)) as [->|Hne]; [|exists u; by rewrite fn_lookup_insert_ne].
    exists ev.1. rewrite fn_lookup_insert.
    destruct (removing_step (shared c) (pcs c ev.1) ev.2 j Hu) as [?|[(r & k & x & Hp & Hr & He)|(r & He)]]; [done|..]; exfalso.
    + pose proof (q_pc _ _ Hq ev.1) as Hx. rewrite Hp in Hx. destruct Hx as (_ & -> & Hk). subst j.
      rewrite He in Hin. cbn in Hin. destruct (decide (i = prio r)) as [->|Hi].
      * rewrite fn_lookup_insert in Hin. by eapply not_elem_of_delete; [apply Hq|..].
      * apply (st_queue _ _ Hs) in Hold as [_ <-]. apply Hi.
        pose proof (st_pc _ _ Hs ev.1) as Hr. rewrite Hp in Hr. by destruct Hr as [(_ & _ & ?) _].
    + rewrite He in Hown. by destruct Hown.
Qed.

Lemma queue_step c ev :
  static_inv (shared c) (pcs c) -> locks_inv (shared c) (pcs c) -> queue_inv (shared c) (pcs c) ->
  queue_inv (shared (exec1 (tstep dflt) c ev)) (pcs (exec1 (tstep dflt) c ev)).
Proof.
  intros Hs Hl Hq. constructor.
  - intros i. cbn. destruct (cr_group_step dflt (shared c) (pcs c ev.1) ev.2 i)
      as [->|[(r & He & _ & -> & ->)|(r & k & j & _ & _ & _ & ->)]]; [apply Hq|..].
    + apply NoDup_app. split_and!; [apply Hq| |apply NoDup_singleton].
      intros x Hx ->%list_elem_of_singleton. eapply (q_unborn _ _ Hq ev.1); [by rewrite He|done].
    + eapply sublist_NoDup; [apply Hq|apply sublist_delete].
  - intros u j Hu i Hin. cbn in Hin. apply elem_before in Hin as [Hin|(r & Hp & Hp' & -> & _)].
    + revert Hu. cbn. thread_cases u ev.1; [|intros Hu; by eapply q_unborn].
      destruct (unborn_step (shared c) (pcs c ev.1) ev.2) as [->|[->| ->]]; [|done|].
      * intros Hu. by eapply q_unborn.
      * intros [= <-]. apply (st_queue _ _ Hs) in Hin as [? _]. lia.
    + revert Hu. cbn. thread_cases u ev.1; [by rewrite Hp'|]. intros Hu.
      cut (u = ev.1); [done|]. apply (proj1 (q_one _ _ Hq (obj r))); unfold at_; apply bool_decide_eq_true; by rewrite ?Hp.
  - intros j. by apply queue_one; [|apply Hq].
  - intros d j. by apply queue_reg.
  - intros i j. by apply queue_in.
  - intros u. cbn. thread_cases u ev.1; [by apply pc_queue_own|by apply pc_queue_stable].
Qed.
End Queues.

(** ** Wake-ups *)
Section Wakeups.
Context {M : Type} (dflt : M).
Implicit Types (s : @sched M).

Definition unread (k : @task M) : Prop := is_Some (TryFetch (tvis k)).1.

(** A live task that hangs up although there is a message for it. *)
Record sleepy (k : @task M) : Prop := {
  sl_state : state_ (cr k) = DATA_WAIT;
  sl_pos : pos k = RTop \/ pos k = RSwap;
  sl_unread : unread k;
  sl_missed : missed k = false;
  sl_live : force_stop_ (cr k) = false
}.

(** Stopped, or found by its id. *)
Definition reg_ok s (j : nat) : Prop :=
  force_stop_ (cr (tasks s j)) = true \/ id_cr_ s !! cr_id (cr (tasks s j)) = Some j.

Definition pc_reg s (p : pc) : Prop :=
  match p with
  | WFind j _ => reg_ok s j
  | CLock r | CPush r | CUnlock r | CCv r | CDone r true | CCallback r => reg_ok s (obj r)
  | _ => True
  end.

Record wake_inv s (g : nat -> pc) : Prop := {
  w_shape : forall j, state_ (cr (tasks s j)) = READY \/ state_ (cr (tasks s j)) = DATA_WAIT \/ force_stop_ (cr (tasks s j)) = true;
  w_pos : forall j, pos (tasks s j) = RTop \/ exists t, g t = PRun j;
  w_callback : forall j, callback (tasks s j) = true -> (j < fresh s)%nat /\ reg_ok s j;
  w_pc : forall t, pc_reg s (g t);
  w_wake : forall j, sleepy (tasks s j) ->
    updated_ (cr (tasks s j)) = false \/ (exists t, notifying (g t) = Some j) \/ exists t i k, g t = PWake i k j
}.

Lemma stop_step s p e j : (j < fresh s)%nat -> force_stop_ (cr (tasks s j)) = true ->
  force_stop_ (cr (tasks (tstep dflt s p e).1 j)) = true.
Proof.
  intros Hlt Hf. step_cases e p; cbn; task_cases; cbn; try done; try lia;
    [rewrite (proj2 (wake_waiting_lock _))|rewrite (proj1 (proj2 (body_step_lock _)))]; done.
Qed.

(** A task leaves the registry only when it is stopped. *)
Lemma id_cr_keep s p e d j : id_cr_ s !! d = Some j ->
  id_cr_ (tstep dflt s p e).1 !! d = Some j \/ force_stop_ (cr (tasks (tstep dflt s p e).1 j)) = true.
Proof.
  intros Hd. step_cases e p; cbn; try by left.
  - left. by rewrite lookup_insert_ne by congruence.
  - destruct (decide (c = d)) as [->|Hne]; [right|left; by rewrite lookup_delete_ne].
    simplify_eq. by rewrite fn_lookup_insert.
Qed.

Lemma reg_ok_step s p e j : (j < fresh s)%nat -> reg_ok s j -> reg_ok (tstep dflt s p e).1 j.
Proof.
  intros Hlt [Hf|Hr]; [left; by apply stop_step|]. unfold reg_ok.
  destruct (extends_keep _ _ j (tstep_extends dflt s p e) Hlt) as (_ & -> & _).
  destruct (id_cr_keep s p e _ _ Hr); auto.
Qed.

Lemma pc_reg_stable s p e q : pc_ok s q -> pc_reg s q -> pc_reg (tstep dflt s p e).1 q.
Proof.
  intros Hok. assert (forall r, ref_ok s r -> reg_ok s (obj r) -> reg_ok (tstep dflt s p e).1 (obj r)).
  { intros r [? _]. by apply reg_ok_step. }
  destruct q; cbn in *; auto.
  - destruct Hok. by apply reg_ok_step.
  - destruct ok; auto.
Qed.

Lemma pc_reg_own s g p e : static_inv s g -> wake_inv s g -> pc_ok s p -> pc_reg s p ->
  pc_reg (tstep dflt s p e).1 (tstep dflt s p e).2.
Proof.
  intros Hs Hw Hok Hr. pose proof (pc_reg_stable s p e p Hok Hr) as Hold. revert Hold.
  step_cases e p; intros Hold; cbn in *; try done.
  - by destruct i.
  - by apply (w_callback _ _ Hw).
  - right. cbn. destruct Hok as (_ & -> & _). by rewrite lookup_insert_eq.
Qed.

Lemma shape_step s p e j :
  (forall j, state_ (cr (tasks s j)) = READY \/ state_ (cr (tasks s j)) = DATA_WAIT \/ force_stop_ (cr (tasks s j)) = true) ->
  let c := cr (tasks (tstep dflt s p e).1 j) in
  state_ c = READY \/ state_ c = DATA_WAIT \/ force_stop_ c = true.
Proof.
  cbv zeta. intros Hs. pose proof (Hs j) as Hj. step_cases e p; try done; cbn; task_cases; cbn; try done; eauto.
  - unfold wake_waiting. case_match; cbn; eauto.
  - unfold body_step. case_match; cbn; eauto.
Qed.

Lemma pos_step c ev j :
  pos (tasks (shared c) j) = RTop \/ (exists t, pcs c t = PRun j) ->
  pos (tasks (shared (exec1 (tstep dflt) c ev)) j) = RTop \/ exists t, pcs (exec1 (tstep dflt) c ev) t = PRun j.
Proof.
  intros Hj. cbn. assert (pcs c ev.1 = PRun j \/ (pcs c ev.1 <> PRun j /\
    (pos (tasks (tstep dflt (shared c) (pcs c ev.1) ev.2).1 j) = pos (tasks (shared c) j) \/
     pos (tasks (tstep dflt (shared c) (pcs c ev.1) ev.2).1 j) = RTop))) as [Hp|[Hp [He|He]]].
  { generalize (pcs c ev.1) ev.2. intros p e. destruct (decide (p = PRun j)) as [->|Hne]; [by left|right; split; [done|]].
    step_cases e p; cbn; task_cases; cbn; auto. congruence. }
  - rewrite Hp. destruct ev as [t [[]|now to]]; cbn in *; try (right; exists t; by rewrite fn_lookup_insert).
    rewrite fn_lookup_insert. unfold body_step. destruct (pos (tasks (shared c) j)) eqn:E; cbn; auto;
      right; exists t; by rewrite fn_lookup_insert.
  - rewrite He. destruct Hj as [?|[t Ht]]; [by left|right]. exists t.
    rewrite fn_lookup_insert_ne; [done|]. congruence.
  - by left.
Qed.

Lemma callback_step s p e j : pc_ok s p ->
  callback (tasks (tstep dflt s p e).1 j) = true ->
  callback (tasks s j) = true \/ exists r, p = CCallback r /\ j = obj r.
Proof.
  intros Hok. step_cases e p; cbn; task_cases; cbn; intros Hc; eauto; [done|].
  rewrite (proj2 (proj2 (body_step_lock _))) in Hc. auto.
Qed.

Lemma wake_waiting_state c : state_ (wake_waiting c) <> DATA_WAIT.
Proof. unfold wake_waiting, waiting. repeat case_bool_decide; cbn; congruence. Qed.

Lemma body_sleepy (k : @task M) : sleepy (body_step k).1 -> sleepy k.
Proof.
  intros [H1 H2 H3 H4 H5]. revert H1 H2 H3 H4 H5. unfold body_step, unread.
  destruct (pos k) eqn:Ep; cbn; try (by intros _ []); try done.
  - unfold TryFetch. destruct (Fetch _ _) as [[]|] eqn:Ef; cbn; [by intros _ []|].
    unfold TryFetch. rewrite Ef. by intros _ _ [].
  - intros. constructor; auto.
Qed.

(** A task that becomes sleepy was, or has a writer that is going to notify it. *)
Lemma sleepy_before s p e j :
  sleepy (tasks (tstep dflt s p e).1 j) -> sleepy (tasks s j) \/ (tstep dflt s p e).2 = WNotify j.
Proof.
  step_cases e p; cbn; task_cases; cbn; auto; intros Hk; try (destruct Hk as [H1 H2 H3 H4 H5]; cbn in *; try done; left; by constructor).
  - exfalso. destruct Hk as [H1 _ _ _ _]. by apply wake_waiting_state in H1.
  - left. by apply body_sleepy.
  - left. by apply body_sleepy.
Qed.

(** The reasons why a sleepy task will be woken are passed on: the flag, *)
Lemma flag_step s p e j : updated_ (cr (tasks s j)) = false ->
  updated_ (cr (tasks (tstep dflt s p e).1 j)) = false \/
  (exists i k, (tstep dflt s p e).2 = PWake i k j) \/ state_ (cr (tasks (tstep dflt s p e).1 j)) = READY.
Proof.
  intros Hu. step_cases e p; cbn; task_cases; cbn; eauto; left.
  - unfold wake_waiting. by case_match.
  - unfold body_step. by case_match.
  - unfold body_step. by case_match.
Qed.

(** and a writer on its way. *)
Lemma notifying_step s p e j :
  pc_ok s p -> pc_reg s p -> sleepy (tasks s j) -> sleepy (tasks (tstep dflt s p e).1 j) -> notifying p = Some j ->
  notifying (tstep dflt s p e).2 = Some j \/ updated_ (cr (tasks (tstep dflt s p e).1 j)) = false.
Proof.
  intros Hok Hr Hold Hnew Hn. revert Hnew.
  destruct p; try done; cbn in Hn; injection Hn as ->; destruct e as [[]|]; cbn; auto.
  - unfold DataNotifier_step. case_match; cbn; auto. rewrite fn_lookup_insert. by intros [_ _ _ ? _].
  - destruct Hok as [_ <-], Hold as [Hst _ _ _ Hlive]. destruct Hr as [?|Hreg]; [congruence|].
    rewrite Hreg. cbn. unfold waiting. rewrite Hst. auto.
  - rewrite fn_lookup_insert. auto.
Qed.

Lemma wake_waiting_step s e i k j : sleepy (tasks (tstep dflt s (PWake i k j) e).1 j) ->
  (tstep dflt s (PWake i k j) e).2 = PWake i k j.
Proof.
  destruct e as [[]|]; cbn; auto. rewrite fn_lookup_insert. intros [H1 _ _ _ _]. by apply wake_waiting_state in H1.
Qed.

Lemma wake_step c ev :
  static_inv (shared c) (pcs c) -> wake_inv (shared c) (pcs c) ->
  wake_inv (shared (exec1 (tstep dflt) c ev)) (pcs (exec1 (tstep dflt) c ev)).
Proof.
  intros Hs Hw. pose proof (st_pc _ _ Hs) as Hok. constructor.
  - intros j. cbn. apply shape_step, Hw.
  - intros j. apply pos_step, Hw.
  - intros j. cbn. intros Hc%callback_step; [|done].
    assert ((j < fresh (shared c))%nat /\ reg_ok (shared c) j) as [Hlt Hr].
    { destruct Hc as [?|(r & Hp & ->)]; [by apply (w_callback _ _ Hw)|].
      pose proof (Hok ev.1) as Hx. pose proof (w_pc _ _ Hw ev.1) as Hy. rewrite Hp in Hx, Hy. by destruct Hx. }
    split; [|by apply reg_ok_step].
    by destruct (extends_keep _ _ j (tstep_extends dflt (shared c) (pcs c ev.1) ev.2) Hlt).
  - intros u. cbn. thread_cases u ev.1; [eapply pc_reg_own; [done..|by apply Hw]|].
    apply pc_reg_stable; [done|by apply Hw].
  - intros j Hnew. cbn in Hnew. destruct (sleepy_before _ _ _ _ Hnew) as [Hold|Hp].
    2: { right; left. exists ev.1. cbn. by rewrite fn_lookup_insert, Hp. }
    cbn. destruct (w_wake _ _ Hw j Hold) as [Hu|[[u Hu]|(u & i & k & Hu)]].
    + destruct (flag_step (shared c) (pcs c ev.1) ev.2 j Hu) as [?|[(i & k & Hp)|Hf]]; [by left|..].
      * right; right. exists ev.1, i, k. by rewrite fn_lookup_insert.
      * exfalso. destruct Hnew as [Hst _ _ _ _]. congruence.
    + destruct (decide (u = ev.1)) as [->|Hne]; [|right; left; exists u; by rewrite fn_lookup_insert_ne].
      destruct (notifying_step _ _ ev.2 _ (Hok ev.1) (w_pc _ _ Hw ev.1) Hold Hnew Hu) as [?|?]; [|by left].
      right; left. exists ev.1. by rewrite fn_lookup_insert.
    + right; right. exists u, i, k. destruct (decide (u = ev.1)) as [->|Hne]; [|by rewrite fn_lookup_insert_ne].
      rewrite fn_lookup_insert. rewrite Hu in Hnew |- *. by apply wake_waiting_step.
Qed.
End Wakeups.

(** ** Reachable states *)
Section Reachable.
Context {M : Type} (dflt : M).

Record sched_inv (c : @conf (@sched M) pc) : Prop := {
  i_static : static_inv (shared c) (pcs c);
  i_locks : locks_inv (shared c) (pcs c);
  i_queue : queue_inv (shared c) (pcs c);
  i_wake : wake_inv (shared c) (pcs c)
}.

Lemma sched_inv_init : sched_inv (sys_init dflt).
Proof.
  split; constructor; cbn; try done; try (intros; by apply mutex_fresh); try set_solver.
  - intros i. exists ∅. split; [intros u; split; [set_solver|done]|left]. by rewrite size_empty.
  - intros i. by apply NoDup_nil.
  - by intros j [].
Qed.

Lemma sched_inv_step c ev : sched_inv c -> sched_inv (exec1 (tstep dflt) c ev).
Proof.
  intros [Hs Hl Hq Hw]. split;
    [by apply static_step|by apply locks_step|by apply queue_step|by apply wake_step].
Qed.

Lemma sched_inv_exec c l : sched_inv c -> sched_inv (exec (tstep dflt) c l).
Proof.
  intros Hc. revert l. induction l as [|ev l IH] using rev_ind; [done|].
  rewrite exec_app. by apply sched_inv_step.
Qed.

Lemma gone_exec c l j : sched_inv c -> gone (shared c) (pcs c) j ->
  gone (shared (exec (tstep dflt) c l)) (pcs (exec (tstep dflt) c l)) j.
Proof.
  intros Hc Hg. revert l. induction l as [|ev l IH] using rev_ind; [done|].
  rewrite exec_app. destruct (sched_inv_exec c l Hc). by apply gone_step.
Qed.

(** Only the owner runs a task. *)
Lemma handled_step (s : @sched M) p e j : (j < fresh s)%nat -> owned p <> Some j ->
  handled (tasks (tstep dflt s p e).1 j) = handled (tasks s j).
Proof.
  intros Hlt Ho. step_cases e p; cbn in *; task_cases; cbn; try done; lia.
Qed.

(** *** A thread that runs alone *)
Fixpoint solo (n : nat) (e : @ev M) (s : @sched M) (p : pc) : @sched M * pc :=
  match n with
  | 0%nat => (s, p)
  | S n' => let r := tstep dflt s p e in solo n' e r.1 r.2
  end.

Lemma exec_solo n c t e :
  let r := solo n e (shared c) (pcs c t) in
  shared (exec (tstep dflt) c (replicate n (t, e))) = r.1 /\ pcs (exec (tstep dflt) c (replicate n (t, e))) t = r.2.
Proof.
  revert c. induction n as [|n IH]; intros c; [done|].
  destruct (IH (exec1 (tstep dflt) c (t, e))) as [H1 H2]. cbn in H1, H2. rewrite fn_lookup_insert in H1, H2.
  split; [exact H1|exact H2].
Qed.

Lemma solo_step n e s p s' p' : tstep dflt s p e = (s', p') -> solo (S n) e s p = solo n e s' p'.
Proof. intros E. cbn. by rewrite E. Qed.

Lemma upd_cr_same (s : @sched M) j f : tasks (upd_cr s j f) j = with_cr (tasks s j) (f (cr (tasks s j))).
Proof. apply fn_lookup_insert. Qed.

(** One step of the body of task [j], as the change of that task. *)
Lemma run_step n now to s j k' :
  body_step (tasks s j) = (k', false) ->
  exists s', tasks s' j = k' /\ solo (S n) (Step now to) s (PRun j) = solo n (Step now to) s' (PRun j).
Proof.
  intros E. exists (upd_task s j (fun k => (body_step k).1)). split; [cbn; by rewrite fn_lookup_insert, E|].
  apply solo_step. cbn. by rewrite E.
Qed.

(** From the moment its state was found [READY], a task with a message gets it. *)
Lemma ready_delivers s i k j m now to :
  state_ (cr (tasks s j)) = READY -> pos (tasks s j) = RTop -> force_stop_ (cr (tasks s j)) = false ->
  (TryFetch (tvis (tasks s j))).1 = Some m ->
  handled (tasks (solo 6 (Step now to) s (PGot i k j)).1 j) = handled (tasks s j) ++ [m].
Proof.
  intros Hst Hpos Hf Hm.
  rewrite (solo_step _ _ s (PGot i k j) s (PRet i j)) by (cbn; by rewrite decide_True).
  rewrite (solo_step _ _ s (PRet i j) (add_lock s i (-1)) (PResume j)) by done.
  rewrite (solo_step _ _ _ (PResume j) (add_lock s i (-1)) (PRun j)) by (cbn; by rewrite Hf, decide_True).
  change (tasks s j) with (tasks (add_lock s i (-1)) j) in *. generalize dependent (add_lock s i (-1)). clear s.
  intros s Hst Hpos Hf Hm. destruct (TryFetch (tvis (tasks s j))) as [o v'] eqn:Ef. cbn in Hm. subst o.
  edestruct (run_step 2 now to s j) as (s1 & E1 & ->); [unfold body_step; by rewrite Hpos|].
  edestruct (run_step 1 now to s1 j) as (s2 & E2 & ->); [rewrite E1; cbn; by rewrite Ef|].
  edestruct (run_step 0 now to s2 j) as (s3 & E3 & ->); [by rewrite E2|]. cbn. by rewrite E3.
Qed.

(** A processor that comes to a free task with a message runs it: [UpdateState] finds it ready,
    or its flag cleared. *)
Lemma scan_delivers s i k j m now to :
  cr_group s i !! k = Some j -> lock_ (cr (tasks s j)) = false -> force_stop_ (cr (tasks s j)) = false ->
  pos (tasks s j) = RTop -> (TryFetch (tvis (tasks s j))).1 = Some m ->
  state_ (cr (tasks s j)) = READY \/ state_ (cr (tasks s j)) = DATA_WAIT /\ updated_ (cr (tasks s j)) = false ->
  exists n, (n <= 10)%nat /\ handled (tasks (solo n (Step now to) s (PScan i k)).1 j) = handled (tasks s j) ++ [m].
Proof.
  intros Hk Hl Hf Hpos Hm Hst. set (e := Step now to : @ev M).
  set (s1 := upd_cr s j (fun c => (Acquire c).2)).
  set (s2 := upd_cr s1 j (fun c => (test_and_set_updated c).2)).
  assert (tasks s1 j = with_cr (tasks s j) (set_lock (cr (tasks s j)) true)) as E1 by apply upd_cr_same.
  assert (tasks s2 j = with_cr (tasks s j) (set_updated (set_lock (cr (tasks s j)) true) true)) as E2
    by (unfold s2; by rewrite upd_cr_same, E1).
  assert (forall n, solo (S (S (S n))) e s (PScan i k) = solo n e s2 (if updated_ (cr (tasks s j)) then PGot i k j else PWake i k j)) as H3.
  { intros n. rewrite (solo_step _ _ s (PScan i k) s1 (PUpdate i k j)) by (cbn; by rewrite Hk; cbn; rewrite Hl).
    rewrite (solo_step _ _ s1 (PUpdate i k j) s1 (PTest i k j)).
    2: { cbn [tstep e processor_step NextRoutine_step]. rewrite E1. unfold sleep_over. cbn.
         destruct Hst as [->|[-> _]]; done. }
    apply solo_step. cbn [tstep e processor_step NextRoutine_step]. by rewrite E1. }
  destruct (updated_ (cr (tasks s j))) eqn:Eu; cbv iota in H3; unfold e in *.
  - exists 9%nat. split; [lia|]. rewrite H3. destruct Hst as [Hst|[_ ?]]; [|done].
    rewrite (ready_delivers s2 i k j m) by (by rewrite E2). by rewrite E2.
  - exists 10%nat. split; [lia|]. rewrite H3.
    rewrite (solo_step _ _ s2 (PWake i k j) (upd_cr s2 j wake_waiting) (PGot i k j)) by done.
    assert (tasks (upd_cr s2 j wake_waiting) j = with_cr (tasks s j) (wake_waiting (cr (tasks s2 j)))) as E3.
    { rewrite upd_cr_same, E2. done. }
    assert (state_ (wake_waiting (cr (tasks s2 j))) = READY /\ force_stop_ (wake_waiting (cr (tasks s2 j))) = false) as [H1 H2].
    { rewrite E2. unfold wake_waiting, waiting. cbn.
      destruct Hst as [Hst|[Hst _]]; rewrite Hst; cbn; by rewrite ?Hst, ?Hf. }
    rewrite (ready_delivers _ i k j m) by (by rewrite E3). by rewrite E3.
Qed.
End Reachable.

(** C14: Under every interleaving of the processors of a group with writers, creators and removers
    of tasks: a coroutine is held by at most one thread at a time and then its lock is set, only
    the thread that holds it runs its body, and a run queue does not change while a processor
    iterates over it. *)
Theorem routine_exclusive {M} (dflt : M) (l : list (nat * @ev M)) :
  let c := exec (tstep dflt) (sys_init dflt) l in
  (forall t u j, owned (pcs c t) = Some j -> owned (pcs c u) = Some j ->
     t = u /\ lock_ (cr (tasks (shared c) j)) = true) /\
  (forall e j, (j < fresh (shared c))%nat ->
     handled (tasks (shared (exec1 (tstep dflt) c e)) j) <> handled (tasks (shared c) j) ->
     owned (pcs c e.1) = Some j) /\
  (forall t i e, reading (pcs c t) = Some i ->
     cr_group (shared (exec1 (tstep dflt) c e)) i = cr_group (shared c) i).
Proof.
  intros c. destruct (sched_inv_exec dflt _ l (sched_inv_init dflt)) as [Hs Hl Hq Hw]. fold c in Hs, Hl, Hq, Hw.
  split_and!.
  - intros t u j Ht Hu. apply (bool_decide_eq_true_2 _) in Ht, Hu.
    split; [by apply (proj1 (lk_own _ _ Hl j))|by eapply (mutex_held (at_ owned j)); [apply Hl|]].
  - intros e j Hlt Hne. destruct (decide (owned (pcs c e.1) = Some j)) as [?|Ho]; [done|].
    destruct Hne. by apply handled_step.
  - intros t i e Ht. cbn. apply (bool_decide_eq_true_2 _) in Ht.
    pose proof (rw_excludes (at_ reading i) (at_ writing i) (pcs c) t _ e.1 (lk_rq _ _ Hl i) Ht) as Hx.
    apply bool_decide_eq_false in Hx.
    destruct (cr_group_step dflt (shared c) (pcs c e.1) e.2 i) as [?|[(r & Hp & _ & -> & _)|(r & k & j & Hp & _ & -> & _)]];
      [done|by rewrite Hp in Hx..].
Qed.

(** C12: A message that was written for a live task and announced is not forgotten: in every
    reachable state, whenever a processor comes to a task that is free, whose visitor has an
    unread message and whose notifications have gone through and found the callback, it calls the
    function of the task with the next message within ten of its own steps.  A task sets its state
    to [DATA_WAIT] before it looks for a message, so a message that comes after the look finds it
    waiting. *)
Theorem no_lost_wakeup {M} (dflt : M) (l : list (nat * @ev M)) t i k j m now to :
  let c := exec (tstep dflt) (sys_init dflt) l in
  pcs c t = PScan i k -> cr_group (shared c) i !! k = Some j ->
  lock_ (cr (tasks (shared c) j)) = false -> force_stop_ (cr (tasks (shared c) j)) = false ->
  missed (tasks (shared c) j) = false -> (forall u, notifying (pcs c u) <> Some j) ->
  (TryFetch (tvis (tasks (shared c) j))).1 = Some m ->
  exists n, (n <= 10)%nat /\
    handled (tasks (shared (exec (tstep dflt) c (replicate n (t, Step now to)))) j) =
    handled (tasks (shared c) j) ++ [m].
Proof.
  intros c Ht Hk Hl Hf Hms Hn Hm. destruct (sched_inv_exec dflt _ l (sched_inv_init dflt)) as [_ Hlk _ Hw]. fold c in Hlk, Hw.
  assert (forall u, owned (pcs c u) <> Some j) as Hfree.
  { intros u Hu. apply (bool_decide_eq_true_2 _) in Hu.
    eapply (mutex_held (at_ owned j)) in Hu; [|apply Hlk]. congruence. }
  assert (pos (tasks (shared c) j) = RTop) as Hpos.
  { destruct (w_pos _ _ Hw j) as [?|[u Hu]]; [done|]. destruct (Hfree u). by rewrite Hu. }
  destruct (scan_delivers dflt (shared c) i k j m now to) as (n & Hle & Hn'); [done..| |].
  - destruct (w_shape _ _ Hw j) as [?|[Hst|?]]; [by left|right; split; [done|]|congruence].
    destruct (w_wake _ _ Hw j) as [?|[[u Hu]|(u & i' & k' & Hu)]]; [|done|by destruct (Hn u)|].
    + constructor; auto. by exists m.
    + destruct (Hfree u). by rewrite Hu.
  - exists n. split; [done|]. destruct (exec_solo dflt n c t (Step now to)) as [-> _]. by rewrite Ht.
Qed.

(** C13: Removal is final: whenever a removal that found its id has gone through, it has also found
    the task in its run queue (it never reports failure), and from then on, under every
    continuation, no queue holds the task, nobody holds it, and its body is never run again. *)
Theorem removal_final {M} (dflt : M) (l l' : list (nat * @ev M)) t r found :
  let c := exec (tstep dflt) (sys_init dflt) l in
  let c' := exec (tstep dflt) c l' in
  pcs c t = XUnlock r found ->
  found = true /\ (forall i, obj r ∉ cr_group (shared c') i) /\ (forall u, owned (pcs c' u) <> Some (obj r)) /\
  handled (tasks (shared c') (obj r)) = handled (tasks (shared c) (obj r)).
Proof.
  intros c c' Ht. pose proof (sched_inv_exec dflt _ l (sched_inv_init dflt)) as Hc. fold c in Hc.
  pose proof (q_pc _ _ (i_queue _ Hc) t) as Hq. rewrite Ht in Hq. destruct Hq as [-> Hg].
  pose proof (gone_exec dflt c l' _ Hc Hg) as [(_ & Hq & _) Ho].
  split_and!; [done..|]. subst c'. clear Hq Ho.
  induction l' as [|ev l' IH] using rev_ind; [done|]. rewrite exec_app. cbn.
  rewrite <- IH. destruct (gone_exec dflt c l' _ Hc Hg) as [(Hlt & _) Ho]. by apply handled_step.
Qed.

(** ** Runs *)

(** [n] steps of thread [t], and a wait of it that times out. *)
Definition steps {M} (t n : nat) : list (nat * @ev M) := replicate n (t, Step 0 false).
Definition times_out {M} (t : nat) : list (nat * @ev M) := [(t, Step 0 true)].

(** Thread 0 creates a task of priority 18, thread 1 runs it until it waits. *)
Definition create_run : list (nat * @ev Z) := (0%nat, Start (Create 7 18 2)) :: steps 0 8.
Definition waiting_run : list (nat * @ev Z) := create_run ++ (1%nat, Start Run) :: steps 1 200.
Definition write_run : list (nat * @ev Z) := (3%nat, Start (Write 0 42)) :: steps 3 4.

Definition excl_run := create_run ++ (1%nat, Start Run) :: steps 1 6.
Definition wake_run := waiting_run ++ write_run ++ times_out 1 ++ steps 1 4.
Definition removal_run := waiting_run ++ (2%nat, Start (Remove 7)) :: steps 2 7.
Definition after_removal := write_run ++ times_out 1 ++ steps 1 100.

Abbreviation demo l := (exec (tstep 0) (sys_init 0) l).

Lemma routine_exclusive_witness :
  owned (pcs (demo excl_run) 1%nat) = Some 0%nat /\
  (1 = 1)%nat /\ lock_ (cr (tasks (shared (demo excl_run)) 0%nat)) = true.
Proof.
  assert (owned (pcs (demo excl_run) 1%nat) = Some 0%nat) as H by (vm_compute; reflexivity).
  split; [exact H|]. pose proof (routine_exclusive 0 excl_run) as [Hx _]. exact (Hx 1%nat 1%nat 0%nat H H).
Defined.

Lemma no_lost_wakeup_witness :
  pcs (demo wake_run) 1%nat = PScan 18 0 /\
  exists n, (n <= 10)%nat /\
    handled (tasks (shared (exec (tstep 0) (demo wake_run) (replicate n (1%nat, Step 0 false)))) 0%nat) =
    handled (tasks (shared (demo wake_run)) 0%nat) ++ [42].
Proof.
  assert (pcs (demo wake_run) 1%nat = PScan 18 0) as H by (vm_compute; reflexivity). split; [exact H|].
  pose proof (no_lost_wakeup 0 wake_run 1 18 0 0 42 0 false) as Hx. apply Hx; [exact H|vm_compute; reflexivity..| |].
  - intros u. do 4 (destruct u as [|u]; [vm_compute; discriminate|]). vm_compute. discriminate.
  - vm_compute. reflexivity.
Defined.

Lemma removal_final_witness :
  pcs (demo removal_run) 2%nat = XUnlock (mkRef 0 7 18) true /\
  handled (tasks (shared (exec (tstep 0) (demo removal_run) after_removal)) 0%nat) =
  handled (tasks (shared (demo removal_run)) 0%nat).
Proof.
  assert (pcs (demo removal_run) 2%nat = XUnlock (mkRef 0 7 18) true) as H by (vm_compute; reflexivity). split; [exact H|].
  pose proof (removal_final 0 removal_run after_removal 2 (mkRef 0 7 18) true H) as (_ & _ & _ & Hx). exact Hx.
Defined.

(** A processor that has read the flag but not yet given the task back makes the notification of
    another one go astray: the second processor takes the notification, finds the task locked and
    waits again, the first one gives it back and waits too.  The message is there, the flag is
    cleared, and nothing happens before a wait times out (after 1 s). *)
Definition vain_run :=
  waiting_run ++ (2%nat, Start Run) :: steps 2 200 ++
  times_out 1 ++ steps 1 7 ++ write_run ++ steps 2 200 ++ steps 1 200.

Lemma wait_without_notification {M} (dflt : M) s now :
  notify_grp s = 0 -> tstep dflt s PWait (Step now false) = (s, PWait).
Proof. intros Hn. cbn [tstep processor_step]. unfold Wait_step. by rewrite Hn. Qed.

Lemma notification_taken_in_vain :
  let c := demo vain_run in
  (forall u, pcs c u = if decide (u = 1 \/ u = 2)%nat then PWait else Idle) /\
  notify_grp (shared c) = 0 /\ (TryFetch (tvis (tasks (shared c) 0%nat))).1 = Some 42 /\
  handled (tasks (shared c) 0%nat) = [] /\
  updated_ (cr (tasks (shared c) 0%nat)) = false /\
  forall now, tstep 0 (shared c) PWait (Step now false) = (shared c, PWait).
Proof.
  cbv zeta. assert (notify_grp (shared (demo vain_run)) = 0) as Hn by (vm_compute; reflexivity).
  split_and!; [|exact Hn|vm_compute; reflexivity..|].
  - intros u. do 4 (destruct u as [|u]; [vm_compute; reflexivity|]). vm_compute. reflexivity.
  - intros now. by apply wait_without_notification.
Qed.

(** [CreateTask] registers the notify callback after [DispatchTask] has made the task runnable.  A
    message that comes in between finds the task waiting and no callback: the task is not woken
    for it, however often the processor comes by. *)
Definition early_run :=
  (0%nat, Start (Create 7 18 2)) :: steps 0 7 ++ (1%nat, Start Run) :: steps 1 200 ++
  (3%nat, Start (Write 0 42)) :: steps 3 1 ++ steps 0 1.

Lemma early_message_missed :
  let c := demo early_run in
  pcs c 0%nat = Idle /\ callback (tasks (shared c) 0%nat) = true /\
  (TryFetch (tvis (tasks (shared c) 0%nat))).1 = Some 42 /\
  handled (tasks (shared (exec (tstep 0) c (replicate 500 (1%nat, Step 0 true)))) 0%nat) = [].
Proof. cbv zeta. split_and!; vm_compute; reflexivity. Qed.
