(* ===== verification/Scheduler.v ===== *)
(** * The scheduler and its two policies

    scheduler/scheduler.cc, processor.cc and policy/: the base class [Scheduler] over the
    interface its policies implement ([Policy]), the classic policy (groups of processors over
    queues by priority) and the choreography policy (a queue per processor, and a pool under the
    classic contexts).  Calls are whole operations here; ClassicPolicy interleaves them at their
    atomic accesses.  An operation that would wait for the holder of a coroutine gives [None].
    Pinning threads to processors and the real-time policies of threads are left to the system. *)

From Stdlib Require Import ZArith Lia.
From stdpp Require Import base gmap sets functions strings numbers sorting list.
From S2P Require Import Prelude AtomicHashMap GlobalData CRoutine.

(** ** Contexts *)

(** A context of a processor: of a group of the classic policy, or with its own queue, a multimap
    by descending priority. *)
Inductive pctx :=
  | ClassicContext (current_grp : string) (stop : bool)
  | ChoreographyContext (cr_queue : list (Z * nat)) (notify : Z) (stop : bool).

(** The state of the scheduler with the static members of the class of classic contexts: the heap
    of coroutines, the registry, the run queues and notifications of the groups, the contexts. *)
Record rt := mkRt {
  heap : nat -> CRoutine;
  next : nat;
  id_cr_ : gmap Z nat;
  cr_group_ : string -> nat -> list nat;
  notify_grp_ : string -> Z;
  pctxs_ : list pctx;
  stop_ : bool
}.

Definition with_heap (s : rt) v := mkRt v (next s) (id_cr_ s) (cr_group_ s) (notify_grp_ s) (pctxs_ s) (stop_ s).
Definition with_ids (s : rt) v := mkRt (heap s) (next s) v (cr_group_ s) (notify_grp_ s) (pctxs_ s) (stop_ s).
Definition with_groups (s : rt) v := mkRt (heap s) (next s) (id_cr_ s) v (notify_grp_ s) (pctxs_ s) (stop_ s).
Definition with_notify (s : rt) v := mkRt (heap s) (next s) (id_cr_ s) (cr_group_ s) v (pctxs_ s) (stop_ s).
Definition with_ctxs (s : rt) v := mkRt (heap s) (next s) (id_cr_ s) (cr_group_ s) (notify_grp_ s) v (stop_ s).

Definition upd (s : rt) (j : nat) (f : CRoutine -> CRoutine) : rt := with_heap s (<[j := f (heap s j)]> (heap s)).
Definition new_routine (s : rt) (c : CRoutine) : rt :=
  mkRt (<[next s := c]> (heap s)) (S (next s)) (id_cr_ s) (cr_group_ s) (notify_grp_ s) (pctxs_ s) (stop_ s).
Definition set_rq (s : rt) (g : string) (i : nat) (q : list nat) : rt :=
  with_groups s (<[g := <[i := q]> (cr_group_ s g)]> (cr_group_ s)).

(** The loop over a run queue that both [NextRoutine]s share; [clk j] is what the clock says when
    the state of routine [j] is updated. *)
Fixpoint scan (clk : nat -> Z) (h : nat -> CRoutine) (q : list nat) : option nat * (nat -> CRoutine) :=
  match q with
  | [] => (None, h)
  | j :: q' =>
      let a := Acquire (h j) in
      if negb a.1 then scan clk h q'
      else let u := UpdateState (clk j) a.2 in
           if bool_decide (u.1 = READY) then (Some j, <[j := u.2]> h)
           else scan clk (<[j := Release u.2]> h) q'
  end.

(** The loop of the classic context over the priorities below [n], the highest first. *)
Fixpoint scan_prios (clk : nat -> Z) (h : nat -> CRoutine) (rq : nat -> list nat) (n : nat) : option nat * (nat -> CRoutine) :=
  match n with
  | 0%nat => (None, h)
  | S i =>
      match scan clk h (rq i) with
      | (Some j, h') => (Some j, h')
      | (None, h') => scan_prios clk h' rq i
      end
  end.

Definition NextRoutine (s : rt) (clk : nat -> Z) (c : pctx) : option nat * rt :=
  match c with
  | ClassicContext g stop =>
      if stop then (None, s)
      else let r := scan_prios clk (heap s) (cr_group_ s g) MAX_PRIO in (r.1, with_heap s r.2)
  | ChoreographyContext q _ stop =>
      if stop then (None, s)
      else let r := scan clk (heap s) q.*2 in (r.1, with_heap s r.2)
  end.

(** [multimap::emplace] with [std::greater]: behind the entries of the same priority. *)
Fixpoint emplace (q : list (Z * nat)) (p : Z) (j : nat) : list (Z * nat) :=
  match q with
  | [] => [(p, j)]
  | (p', j') :: q' => if p' <? p then (p, j) :: q else (p', j') :: emplace q' p j
  end.

Definition Enqueue (s : rt) (pid : nat) (j : nat) : rt :=
  match pctxs_ s !! pid with
  | Some (ChoreographyContext q n st) =>
      with_ctxs s (<[pid := ChoreographyContext (emplace q (priority_ (heap s j)) j) n st]> (pctxs_ s))
  | _ => s
  end.

Definition Notify_choreography (s : rt) (pid : nat) : rt :=
  match pctxs_ s !! pid with
  | Some (ChoreographyContext q n st) => with_ctxs s (<[pid := ChoreographyContext q (i32 (n + 1)) st]> (pctxs_ s))
  | _ => s
  end.

Definition Notify_classic (s : rt) (g : string) : rt :=
  with_notify s (<[g := i32 (notify_grp_ s g + 1)]> (notify_grp_ s)).

(** [Wait]; whether the wait ended by a notification or by the timeout, what is left is the same
    test. *)
Definition Wait (s : rt) (k : nat) : rt :=
  match pctxs_ s !! k with
  | Some (ClassicContext g _) =>
      if 0 <? notify_grp_ s g then with_notify s (<[g := notify_grp_ s g - 1]> (notify_grp_ s)) else s
  | Some (ChoreographyContext q n st) =>
      if 0 <? n then with_ctxs s (<[k := ChoreographyContext q (n - 1) st]> (pctxs_ s)) else s
  | None => s
  end.

Definition Shutdown_ctx (s : rt) (k : nat) : rt :=
  match pctxs_ s !! k with
  | Some (ClassicContext g _) =>
      with_ctxs (with_notify s (<[g := 255]> (notify_grp_ s))) (<[k := ClassicContext g true]> (pctxs_ s))
  | Some (ChoreographyContext q _ _) => with_ctxs s (<[k := ChoreographyContext q 255 true]> (pctxs_ s))
  | None => s
  end.

(** The two [RemoveCRoutine] of the contexts: stop the first routine with the id, wait until it is
    free, take it out.  [None]: it is held. *)
Definition first_id (s : rt) (crid : Z) (q : list nat) : option (nat * nat) :=
  list_find (fun j => cr_id (heap s j) = crid) q.

Definition RemoveCRoutine_classic (s : rt) (j : nat) : option (bool * rt) :=
  let c := heap s j in
  let g := group_name_ c in let i := Z.to_nat (priority_ c) in
  match first_id s (cr_id c) (cr_group_ s g i) with
  | None => Some (false, s)
  | Some (k, x) =>
      if lock_ (heap s x) then None
      else Some (true, set_rq (upd s x Stop) g i (delete k (cr_group_ s g i)))
  end.

Definition RemoveCRoutine_choreography (s : rt) (pid : nat) (crid : Z) : option (bool * rt) :=
  match pctxs_ s !! pid with
  | Some (ChoreographyContext q n st) =>
      match first_id s crid q.*2 with
      | None => Some (false, s)
      | Some (k, x) =>
          if lock_ (heap s x) then None
          else Some (true, with_ctxs (upd s x Stop) (<[pid := ChoreographyContext (delete k q) n st]> (pctxs_ s)))
      end
  | _ => Some (false, s)
  end.

(** ** The interface of a policy

    [place_of] says in which queue the policy keeps a coroutine; the laws say what each operation
    does to the registry and to the queues. *)
Inductive place := Pool (g : string) (i : nat) | Proc (pid : nat).

#[global] Instance place_eq_dec : EqDecision place.
Proof. solve_decision. Defined.

Definition contents (s : rt) (pl : place) : list nat :=
  match pl with
  | Pool g i => cr_group_ s g i
  | Proc p => match pctxs_ s !! p with Some (ChoreographyContext q _ _) => q.*2 | _ => [] end
  end.

(** Fields of a coroutine that identify it. *)
Definition same_routine (c c' : CRoutine) : Prop :=
  cr_id c' = cr_id c /\ cr_name c' = cr_name c /\ lock_ c' = lock_ c /\ state_ c' = state_ c.

(** [s'] differs from [s] at most in routine [j], in the notifications and in what the law that
    mentions it says. *)
Record only (s s' : rt) (j : nat) : Prop := {
  on_heap : forall x, x <> j -> heap s' x = heap s x;
  on_same : same_routine (heap s j) (heap s' j);
  on_next : next s' = next s;
  on_stop : stop_ s' = stop_ s
}.

Class Policy := {
  DispatchTask : rt -> nat -> bool * rt;
  NotifyProcessor : rt -> Z -> bool * rt;
  RemoveCRoutine : rt -> Z -> option (bool * rt);
  place_of : CRoutine -> place;
  shape : rt -> Prop
}.

(** Which contexts have their own queue. *)
Definition own_queue (c : pctx) : bool := match c with ClassicContext _ _ => false | ChoreographyContext _ _ _ => true end.
Definition kinds (s : rt) : list bool := own_queue <$> pctxs_ s.

Class LawfulPolicy `{Policy} : Prop := {
  dispatch_shape : forall s j, shape s -> shape (DispatchTask s j).2;
  dispatch_only : forall s j, shape s -> only s (DispatchTask s j).2 j;
  dispatch_result : forall s j, (DispatchTask s j).1 = bool_decide (id_cr_ s !! cr_id (heap s j) = None);
  dispatch_ids : forall s j, id_cr_ (DispatchTask s j).2 =
    if (DispatchTask s j).1 then <[cr_id (heap s j) := j]> (id_cr_ s) else id_cr_ s;
  dispatch_queue : forall s j pl, shape s ->
    contents (DispatchTask s j).2 pl ≡ₚ
    if (DispatchTask s j).1 && bool_decide (place_of (heap (DispatchTask s j).2 j) = pl) then j :: contents s pl else contents s pl;

  notify_frame : forall s c, let s' := (NotifyProcessor s c).2 in
    (shape s -> shape s') /\ id_cr_ s' = id_cr_ s /\ next s' = next s /\ stop_ s' = stop_ s /\
    (forall pl, contents s' pl = contents s pl) /\
    forall x, heap s' x = heap s x \/
      id_cr_ s !! c = Some x /\ waiting (heap s x) = true /\ heap s' x = SetUpdateFlag (heap s x);
  notify_result : forall s c, (NotifyProcessor s c).1 = (stop_ s || bool_decide (is_Some (id_cr_ s !! c)));

  remove_unknown : forall s c, id_cr_ s !! c = None -> RemoveCRoutine s c = Some (false, s);
  remove_known : forall s c j, shape s -> id_cr_ s !! c = Some j -> cr_id (heap s j) = c ->
    j ∈ contents s (place_of (heap s j)) -> NoDup (contents s (place_of (heap s j))) ->
    (forall x, x ∈ contents s (place_of (heap s j)) -> cr_id (heap s x) = c -> x = j) ->
    if lock_ (heap s j) then RemoveCRoutine s c = None
    else exists s', RemoveCRoutine s c = Some (true, s') /\ shape s' /\ only s s' j /\
         force_stop_ (heap s' j) = true /\ place_of (heap s' j) = place_of (heap s j) /\
         id_cr_ s' = delete c (id_cr_ s) /\
         forall pl, contents s' pl = if decide (pl = place_of (heap s j)) then filter (fun x => x <> j) (contents s pl) else contents s pl;

  shape_kind : forall s s', kinds s' = kinds s -> shape s -> shape s';
  place_stable : forall c c', group_name_ c' = group_name_ c -> priority_ c' = priority_ c ->
    processor_id_ c' = processor_id_ c -> place_of c' = place_of c
}.

(** ** The classic policy *)
Section Classic.
(** The tasks of the configuration with their priority and group; the names of the groups. *)
Context (cr_confs_ : gmap string (Z * string)) (groups : list string).

(** The scheduling attributes [DispatchTask] gives a coroutine. *)
Definition classic_attr (c : CRoutine) : CRoutine :=
  let c1 := match cr_confs_ !! cr_name c with
            | Some (p, g) => set_group_name (set_priority c (u32 p)) g
            | None => set_group_name c (default EmptyString (groups !! 0%nat))
            end in
  set_priority c1 (clamp_prio (priority_ c1)).

Definition DispatchTask_classic (s : rt) (j : nat) : bool * rt :=
  let c := heap s j in
  match id_cr_ s !! cr_id c with
  | Some _ => (false, s)
  | None =>
      let s1 := upd (with_ids s (<[cr_id c := j]> (id_cr_ s))) j classic_attr in
      let g := group_name_ (heap s1 j) in let i := Z.to_nat (priority_ (heap s1 j)) in
      (true, Notify_classic (set_rq s1 g i (cr_group_ s1 g i ++ [j])) g)
  end.

(** The body [NotifyProcessor] of both policies share: the flag of a waiting coroutine. *)
Definition flag_waiting (s : rt) (j : nat) : rt :=
  if waiting (heap s j) then upd s j SetUpdateFlag else s.

Definition NotifyProcessor_classic (s : rt) (crid : Z) : bool * rt :=
  if stop_ s then (true, s)
  else match id_cr_ s !! crid with
       | Some j => (true, Notify_classic (flag_waiting s j) (group_name_ (heap s j)))
       | None => (false, s)
       end.

Definition RemoveCRoutine_SchedulerClassic (s : rt) (crid : Z) : option (bool * rt) :=
  match id_cr_ s !! crid with
  | Some j => RemoveCRoutine_classic (with_ids (upd s j Stop) (delete crid (id_cr_ s))) j
  | None => Some (false, s)
  end.

Definition classic_place (c : CRoutine) : place := Pool (group_name_ c) (Z.to_nat (priority_ c)).
Definition classic_shape (s : rt) : Prop :=
  forall k q n st, pctxs_ s !! k <> Some (ChoreographyContext q n st).

Definition SchedulerClassic : Policy := {|
  DispatchTask := DispatchTask_classic;
  NotifyProcessor := NotifyProcessor_classic;
  RemoveCRoutine := RemoveCRoutine_SchedulerClassic;
  place_of := classic_place;
  shape := classic_shape
|}.

(** [CreateProcessor]: the contexts of a configuration, for each group as many as it has
    processors. *)
Definition CreateProcessor_classic (confs : list (string * nat)) : list pctx :=
  confs ≫= fun gn => replicate gn.2 (ClassicContext gn.1 false).
End Classic.

(** ** The choreography policy *)
Section Choreography.
Context (cr_confs_ : gmap string (Z * option Z)) (proc_num_ : nat).

Definition choreo_attr (c : CRoutine) : CRoutine :=
  match cr_confs_ !! cr_name c with
  | Some (p, o) =>
      let c1 := set_priority c (u32 p) in
      match o with Some pid => set_processor_id c1 (i32 pid) | None => c1 end
  | None => c
  end.

(** [uint32_t pid = cr->processor_id()]. *)
Definition pid_of (c : CRoutine) : Z := u32 (processor_id_ c).
Definition on_processor (c : CRoutine) : bool := pid_of c <? Z.of_nat proc_num_.

Definition DispatchTask_choreography (s : rt) (j : nat) : bool * rt :=
  let s0 := upd s j choreo_attr in
  let c := heap s0 j in
  match id_cr_ s0 !! cr_id c with
  | Some _ => (false, s0)
  | None =>
      let s1 := with_ids s0 (<[cr_id c := j]> (id_cr_ s0)) in
      if on_processor c then (true, Enqueue s1 (Z.to_nat (pid_of c)) j)
      else
        let s2 := upd s1 j (fun c => set_group_name (set_priority c (clamp_prio (priority_ c))) DEFAULT_GROUP_NAME) in
        let i := Z.to_nat (priority_ (heap s2 j)) in
        (true, set_rq s2 DEFAULT_GROUP_NAME i (cr_group_ s2 DEFAULT_GROUP_NAME i ++ [j]))
  end.

Definition NotifyProcessor_choreography (s : rt) (crid : Z) : bool * rt :=
  if stop_ s then (true, s)
  else match id_cr_ s !! crid with
       | None => (false, s)
       | Some j =>
           let s1 := flag_waiting s j in
           if on_processor (heap s j) then (true, Notify_choreography s1 (Z.to_nat (pid_of (heap s j))))
           else (true, Notify_classic s1 (group_name_ (heap s j)))
       end.

Definition RemoveCRoutine_SchedulerChoreography (s : rt) (crid : Z) : option (bool * rt) :=
  match id_cr_ s !! crid with
  | None => Some (false, s)
  | Some j =>
      let s1 := with_ids (upd s j Stop) (delete crid (id_cr_ s)) in
      if on_processor (heap s j) then RemoveCRoutine_choreography s1 (Z.to_nat (pid_of (heap s j))) crid
      else RemoveCRoutine_classic s1 j
  end.

Definition choreo_place (c : CRoutine) : place :=
  if on_processor c then Proc (Z.to_nat (pid_of c)) else Pool (group_name_ c) (Z.to_nat (priority_ c)).

(** The first [proc_num_] contexts have their own queue, the others serve the pool. *)
Definition choreo_shape (s : rt) : Prop :=
  forall k, (k < proc_num_)%nat <-> exists q n st, pctxs_ s !! k = Some (ChoreographyContext q n st).

Definition SchedulerChoreography : Policy := {|
  DispatchTask := DispatchTask_choreography;
  NotifyProcessor := NotifyProcessor_choreography;
  RemoveCRoutine := RemoveCRoutine_SchedulerChoreography;
  place_of := choreo_place;
  shape := choreo_shape
|}.

Definition CreateProcessor_choreography (task_pool_size_ : nat) : list pctx :=
  replicate proc_num_ (ChoreographyContext [] 0 false) ++
  replicate task_pool_size_ (ClassicContext DEFAULT_GROUP_NAME false).
End Choreography.

(** ** The policies keep their laws *)
Lemma upd_same s j f : heap (upd s j f) j = f (heap s j).
Proof. apply fn_lookup_insert. Qed.

Lemma upd_other s j f x : x <> j -> heap (upd s j f) x = heap s x.
Proof. intros. by apply fn_lookup_insert_ne. Qed.

Lemma set_rq_contents s g i q pl :
  contents (set_rq s g i q) pl = if decide (pl = Pool g i) then q else contents s pl.
Proof.
  destruct pl as [g' i'|p]; cbn; [|by rewrite decide_False].
  destruct (decide (g' = g)) as [->|]; [rewrite fn_lookup_insert|by rewrite fn_lookup_insert_ne, decide_False by congruence].
  destruct (decide (i' = i)) as [->|]; [by rewrite fn_lookup_insert, decide_True|].
  by rewrite fn_lookup_insert_ne, decide_False by congruence.
Qed.

Lemma emplace_perm q p j : (emplace q p j).*2 ≡ₚ j :: q.*2.
Proof.
  induction q as [|[p' j'] q IH]; cbn; [done|]. case_match; cbn; [done|]. rewrite IH. constructor.
Qed.

Lemma delete_filter (l : list nat) k j : NoDup l -> l !! k = Some j -> delete k l = filter (fun x => x <> j) l.
Proof.
  intros Hn Hk. rewrite <- (take_drop_middle l k j Hk) in Hn |- *. assert (k < length l)%nat by (by eapply lookup_lt_Some).
  rewrite delete_take_drop, take_app_length', filter_app, filter_cons, decide_False by (rewrite ?length_take; lia || tauto).
  apply NoDup_app in Hn as (_ & Hd & Hc). apply NoDup_cons in Hc as [Hc _].
  rewrite !filter_id_elem by set_solver. f_equal.
  rewrite drop_app, drop_ge by (rewrite length_take; lia). rewrite length_take.
  replace (S k - k `min` length l)%nat with 1%nat by lia. done.
Qed.

Lemma first_id_spec s c q j : NoDup q -> j ∈ q -> cr_id (heap s j) = c ->
  (forall x, x ∈ q -> cr_id (heap s x) = c -> x = j) ->
  exists k, first_id s c q = Some (k, j) /\ q !! k = Some j.
Proof.
  intros Hn Hj Hc Hu. unfold first_id.
  destruct (list_find (fun x => cr_id (heap s x) = c) q) as [[k x]|] eqn:E.
  - apply list_find_Some in E as (Hk & Hx & _). assert (x = j) as -> by (apply Hu; [by eapply list_elem_of_lookup_2|done]). eauto.
  - apply list_find_None in E. rewrite Forall_forall in E. by destruct (E j Hj).
Qed.

Lemma first_id_heap s s' c q : (forall x, cr_id (heap s' x) = cr_id (heap s x)) -> first_id s' c q = first_id s c q.
Proof.
  intros He. unfold first_id. apply list_find_ext. intros x. by rewrite He.
Qed.

Section ClassicLaws.
Context (cr_confs_ : gmap string (Z * string)) (groups : list string).

Lemma classic_attr_same c : same_routine c (classic_attr cr_confs_ groups c).
Proof. unfold classic_attr. by destruct (cr_confs_ !! cr_name c) as [[]|]. Qed.

(** Taking a known coroutine out of the pool. *)
Lemma classic_removes s c j :
  id_cr_ s !! c = Some j -> cr_id (heap s j) = c ->
  j ∈ contents s (classic_place (heap s j)) -> NoDup (contents s (classic_place (heap s j))) ->
  (forall x, x ∈ contents s (classic_place (heap s j)) -> cr_id (heap s x) = c -> x = j) ->
  let s1 := with_ids (upd s j Stop) (delete c (id_cr_ s)) in
  if lock_ (heap s j) then RemoveCRoutine_classic s1 j = None
  else exists s', RemoveCRoutine_classic s1 j = Some (true, s') /\ pctxs_ s' = pctxs_ s /\ only s s' j /\
       force_stop_ (heap s' j) = true /\ heap s' j = Stop (heap s j) /\ id_cr_ s' = delete c (id_cr_ s) /\
       forall pl, contents s' pl = if decide (pl = classic_place (heap s j)) then filter (fun x => x <> j) (contents s pl) else contents s pl.
Proof.
  intros Hreg Hc Hin Hn Hu s1. cbn in Hin, Hn, Hu.
  assert (heap s1 j = Stop (heap s j)) as Hj by apply upd_same.
  assert (forall x, cr_id (heap s1 x) = cr_id (heap s x)) as Hid.
  { intros x. destruct (decide (x = j)) as [->|]; [by rewrite Hj|]. cbn. by rewrite fn_lookup_insert_ne. }
  destruct (first_id_spec s c _ j Hn Hin Hc Hu) as (k & Hk & Hq).
  unfold RemoveCRoutine_classic. rewrite Hj. cbn [cr_id Stop group_name_ priority_]. rewrite Hc.
  change (cr_group_ s1) with (cr_group_ s). rewrite (first_id_heap s s1) by done. rewrite Hk, Hj. cbn [lock_ Stop].
  destruct (lock_ (heap s j)); [done|]. eexists. split; [done|]. split_and!; try done.
  - constructor; try done.
    + intros x Hx. cbn. by rewrite !fn_lookup_insert_ne.
    + cbn. rewrite !fn_lookup_insert. done.
  - cbn. by rewrite fn_lookup_insert.
  - cbn. by rewrite !fn_lookup_insert.
  - intros pl. rewrite set_rq_contents. unfold classic_place. case_decide as Hpl; [subst pl|by destruct pl].
    cbn. by apply delete_filter.
Qed.

Lemma flag_waiting_heap s j x : heap (flag_waiting s j) x = heap s x \/
  x = j /\ waiting (heap s x) = true /\ heap (flag_waiting s j) x = SetUpdateFlag (heap s x).
Proof.
  unfold flag_waiting. destruct (waiting (heap s j)) eqn:E; [|by left].
  destruct (decide (x = j)) as [->|]; [right; by rewrite upd_same|left; by apply upd_other].
Qed.

Lemma flag_waiting_rest s j : next (flag_waiting s j) = next s /\ id_cr_ (flag_waiting s j) = id_cr_ s /\
  stop_ (flag_waiting s j) = stop_ s /\ cr_group_ (flag_waiting s j) = cr_group_ s /\ pctxs_ (flag_waiting s j) = pctxs_ s.
Proof. unfold flag_waiting. by case_match. Qed.

#[global] Instance SchedulerClassic_lawful : @LawfulPolicy (SchedulerClassic cr_confs_ groups).
Proof.
  constructor; cbn.
  - intros s j Hs. unfold DispatchTask_classic. by case_match.
  - intros s j _. unfold DispatchTask_classic. destruct (id_cr_ s !! _); constructor; try done.
    + intros x Hx. cbn. by rewrite fn_lookup_insert_ne.
    + cbn. rewrite fn_lookup_insert. apply classic_attr_same.
  - intros s j. unfold DispatchTask_classic. by destruct (id_cr_ s !! _).
  - intros s j. unfold DispatchTask_classic. by destruct (id_cr_ s !! _).
  - intros s j pl _. unfold DispatchTask_classic. destruct (id_cr_ s !! _); [done|]. cbn [fst snd andb].
    unfold Notify_classic. change (contents (with_notify ?x _) pl) with (contents x pl).
    rewrite set_rq_contents. cbn [heap with_notify set_rq with_groups].
    unfold classic_place. case_decide as Hpl; [rewrite bool_decide_true by done|rewrite bool_decide_false by done]; subst; [|done].
    cbn. by rewrite Permutation_app_comm.
  - intros s c. unfold NotifyProcessor_classic. destruct (stop_ s) eqn:Est; [cbn; by split_and!; auto|].
    destruct (id_cr_ s !! c) as [j|] eqn:E; [|by split_and!; auto]. cbn.
    destruct (flag_waiting_rest s j) as (Hn & Hi & Hst & Hg & Hc). rewrite Hn, Hi, Hst.
    split_and!; try done.
    + unfold classic_shape. cbn. by rewrite Hc.
    + intros [g i|p]; cbn; by rewrite ?Hg, ?Hc.
    + intros x. destruct (flag_waiting_heap s j x) as [?|(-> & ? & ?)]; auto.
  - intros s c. unfold NotifyProcessor_classic. destruct (stop_ s); [done|]. by destruct (id_cr_ s !! c).
  - intros s c Hc. unfold RemoveCRoutine_SchedulerClassic. by rewrite Hc.
  - intros s c j Hs Hreg Hc Hin Hn Hu. unfold RemoveCRoutine_SchedulerClassic. rewrite Hreg.
    pose proof (classic_removes s c j Hreg Hc Hin Hn Hu) as Hr. cbn zeta in Hr.
    destruct (lock_ (heap s j)); [done|]. destruct Hr as (s' & -> & Hp & Ho & Hf & Hh & Hi & Hq).
    exists s'. split_and!; try done; [unfold classic_shape; by rewrite Hp|]. by rewrite Hh.
  - intros s s' Hk Hs k q n st Hl. apply (f_equal (lookup k)) in Hk. unfold kinds in Hk. rewrite !list_lookup_fmap, Hl in Hk.
    destruct (pctxs_ s !! k) as [[]|] eqn:E; try done. by destruct (Hs k cr_queue notify stop).
  - intros c c' Hg Hp _. unfold classic_place. by rewrite Hg, Hp.
Qed.
End ClassicLaws.

Section ChoreographyLaws.
Context (cr_confs_ : gmap string (Z * option Z)) (proc_num_ : nat).

Lemma choreo_attr_same c : same_routine c (choreo_attr cr_confs_ c).
Proof. unfold choreo_attr. by destruct (cr_confs_ !! cr_name c) as [[? []]|]. Qed.

Lemma on_processor_ctx s c : choreo_shape proc_num_ s -> on_processor proc_num_ c = true ->
  exists q n st, pctxs_ s !! Z.to_nat (pid_of c) = Some (ChoreographyContext q n st).
Proof.
  intros Hs Ho. apply Hs. unfold on_processor in Ho. apply Z.ltb_lt in Ho. unfold pid_of in *.
  pose proof (u32_range (processor_id_ c)). lia.
Qed.

(** Replacing the queue of a processor keeps the shape. *)
Lemma choreo_shape_insert s k q n st q' n' st' :
  choreo_shape proc_num_ s -> pctxs_ s !! k = Some (ChoreographyContext q n st) ->
  choreo_shape proc_num_ (with_ctxs s (<[k := ChoreographyContext q' n' st']> (pctxs_ s))).
Proof.
  intros Hs Hk i. rewrite (Hs i). cbn. destruct (decide (i = k)) as [->|Hne].
  - rewrite list_lookup_insert_eq by (by eapply lookup_lt_Some). rewrite Hk. naive_solver.
  - by rewrite list_lookup_insert_ne.
Qed.

Lemma with_ctxs_contents s k q n st q' n' st' pl :
  pctxs_ s !! k = Some (ChoreographyContext q n st) ->
  contents (with_ctxs s (<[k := ChoreographyContext q' n' st']> (pctxs_ s))) pl =
  if decide (pl = Proc k) then q'.*2 else contents s pl.
Proof.
  intros Hk. destruct pl as [g i|p]; cbn; [by rewrite decide_False|].
  destruct (decide (p = k)) as [->|Hne].
  - rewrite list_lookup_insert_eq by (by eapply lookup_lt_Some). by rewrite decide_True.
  - by rewrite list_lookup_insert_ne, decide_False by congruence.
Qed.

Lemma Enqueue_eq s k q n st j : pctxs_ s !! k = Some (ChoreographyContext q n st) ->
  Enqueue s k j = with_ctxs s (<[k := ChoreographyContext (emplace q (priority_ (heap s j)) j) n st]> (pctxs_ s)).
Proof. intros Hk. unfold Enqueue. by rewrite Hk. Qed.

(** The two outcomes of a successful dispatch. *)
Lemma choreo_dispatch s j :
  choreo_shape proc_num_ s -> id_cr_ s !! cr_id (heap s j) = None ->
  let r := DispatchTask_choreography cr_confs_ proc_num_ s j in
  r.1 = true /\ choreo_shape proc_num_ r.2 /\ only s r.2 j /\ id_cr_ r.2 = <[cr_id (heap s j) := j]> (id_cr_ s) /\
  forall pl, contents r.2 pl ≡ₚ if bool_decide (choreo_place proc_num_ (heap r.2 j) = pl) then j :: contents s pl else contents s pl.
Proof.
  intros Hs Hid. cbv zeta. unfold DispatchTask_choreography. rewrite upd_same.
  destruct (choreo_attr_same (heap s j)) as (Hi & Hrest). rewrite Hi. cbn [id_cr_ upd with_heap]. rewrite Hid.
  set (s0 := upd s j (choreo_attr cr_confs_)). set (c := choreo_attr cr_confs_ (heap s j)).
  set (s1 := with_ids s0 _). assert (heap s1 j = c) as Hj by apply upd_same.
  assert (only s s1 j) as Ho1.
  { constructor; try done; [intros x Hx; by apply upd_other|rewrite Hj; apply choreo_attr_same]. }
  destruct (on_processor proc_num_ c) eqn:Ep; cbn [fst snd].
  - destruct (on_processor_ctx s c Hs Ep) as (q & n & st & Hk). rewrite (Enqueue_eq s1 _ q n st) by done.
    split_and!; [done|by eapply choreo_shape_insert|by destruct Ho1|done|].
    intros pl. rewrite (with_ctxs_contents s1 _ q n st) by done. cbn [heap with_ctxs]. rewrite Hj.
    assert (choreo_place proc_num_ c = Proc (Z.to_nat (pid_of c))) as -> by (unfold choreo_place; by rewrite Ep).
    case_decide; [rewrite bool_decide_true by congruence; subst pl|by rewrite bool_decide_false by congruence].
    rewrite emplace_perm. cbn. change (pctxs_ s1) with (pctxs_ s). by rewrite Hk.
  - set (s2 := upd s1 j _). assert (heap s2 j = set_group_name (set_priority c (clamp_prio (priority_ c))) DEFAULT_GROUP_NAME) as Hj2.
    { unfold s2. by rewrite upd_same, Hj. }
    split_and!; [done|done| |done|].
    + destruct Ho1 as [Hh Hsm Hn Hst]. constructor; try done.
      * intros x Hx. cbn. rewrite !fn_lookup_insert_ne by done. done.
      * cbn [heap set_rq with_groups]. rewrite Hj2. apply choreo_attr_same.
    + intros pl. rewrite set_rq_contents. cbn [heap set_rq with_groups]. rewrite Hj2.
      assert (forall p, choreo_place proc_num_ (set_group_name (set_priority c p) DEFAULT_GROUP_NAME) =
        Pool DEFAULT_GROUP_NAME (Z.to_nat p)) as -> by (intros p; unfold choreo_place; by replace (on_processor proc_num_ _) with false).
      cbn [priority_ set_group_name set_priority]. case_decide; [rewrite bool_decide_true by congruence; subst pl|rewrite bool_decide_false by congruence; by destruct pl].
      cbn. by rewrite Permutation_app_comm.
Qed.

Lemma choreo_dispatch_taken s j x : id_cr_ s !! cr_id (heap s j) = Some x ->
  DispatchTask_choreography cr_confs_ proc_num_ s j = (false, upd s j (choreo_attr cr_confs_)).
Proof.
  intros Hid. unfold DispatchTask_choreography. rewrite upd_same.
  destruct (choreo_attr_same (heap s j)) as (Hi & _). rewrite Hi. cbn [id_cr_ upd with_heap]. by rewrite Hid.
Qed.

Lemma choreo_dispatch_free s j : id_cr_ s !! cr_id (heap s j) = None ->
  let r := DispatchTask_choreography cr_confs_ proc_num_ s j in
  r.1 = true /\ id_cr_ r.2 = <[cr_id (heap s j) := j]> (id_cr_ s).
Proof.
  intros Hid. cbv zeta. unfold DispatchTask_choreography. rewrite upd_same.
  destruct (choreo_attr_same (heap s j)) as (Hi & _). rewrite Hi. cbn [id_cr_ upd with_heap]. rewrite Hid.
  destruct (on_processor _ _); [|done]. cbn [fst snd]. split; [done|]. unfold Enqueue. by repeat case_match.
Qed.

(** Taking a known coroutine out of the queue of its processor. *)
Lemma choreo_removes s c j :
  choreo_shape proc_num_ s -> on_processor proc_num_ (heap s j) = true -> cr_id (heap s j) = c ->
  let pl := Proc (Z.to_nat (pid_of (heap s j))) in
  j ∈ contents s pl -> NoDup (contents s pl) -> (forall x, x ∈ contents s pl -> cr_id (heap s x) = c -> x = j) ->
  let s1 := with_ids (upd s j Stop) (delete c (id_cr_ s)) in
  if lock_ (heap s j) then RemoveCRoutine_choreography s1 (Z.to_nat (pid_of (heap s j))) c = None
  else exists s', RemoveCRoutine_choreography s1 (Z.to_nat (pid_of (heap s j))) c = Some (true, s') /\
       choreo_shape proc_num_ s' /\ only s s' j /\
       heap s' j = Stop (heap s j) /\ id_cr_ s' = delete c (id_cr_ s) /\
       forall pl', contents s' pl' = if decide (pl' = pl) then filter (fun x => x <> j) (contents s pl') else contents s pl'.
Proof.
  intros Hs Ho Hc pl Hin Hn Hu s1. destruct (on_processor_ctx s _ Hs Ho) as (q & n & st & Hk).
  unfold pl in *. cbn in Hin, Hn, Hu. rewrite Hk in Hin, Hn, Hu.
  assert (heap s1 j = Stop (heap s j)) as Hj by apply upd_same.
  assert (forall x, cr_id (heap s1 x) = cr_id (heap s x)) as Hid.
  { intros x. destruct (decide (x = j)) as [->|]; [by rewrite Hj|]. cbn. by rewrite fn_lookup_insert_ne. }
  destruct (first_id_spec s c _ j Hn Hin Hc Hu) as (k & Hf & Hq).
  unfold RemoveCRoutine_choreography. change (pctxs_ s1) with (pctxs_ s). rewrite Hk, (first_id_heap s s1) by done.
  rewrite Hf, Hj. cbn [lock_ Stop]. destruct (lock_ (heap s j)); [done|]. eexists. split; [done|]. split_and!; try done.
  - by eapply (choreo_shape_insert (upd s1 j Stop)).
  - constructor; try done.
    + intros x Hx. cbn. by rewrite !fn_lookup_insert_ne.
    + cbn. rewrite !fn_lookup_insert. done.
  - cbn. by rewrite !fn_lookup_insert.
  - intros pl'. rewrite (with_ctxs_contents (upd s1 j Stop) _ q n st) by done.
    case_decide; [subst pl'|by destruct pl']. cbn. rewrite Hk, <- (delete_filter _ k j) by done. apply list_fmap_delete.
Qed.

#[global] Instance SchedulerChoreography_lawful : @LawfulPolicy (SchedulerChoreography cr_confs_ proc_num_).
Proof.
  constructor; cbn.
  - intros s j Hs. destruct (id_cr_ s !! cr_id (heap s j)) as [x|] eqn:E; [by rewrite (choreo_dispatch_taken s j x)|].
    by apply choreo_dispatch.
  - intros s j Hs. destruct (id_cr_ s !! cr_id (heap s j)) as [x|] eqn:E; [|by apply choreo_dispatch].
    rewrite (choreo_dispatch_taken s j x) by done. constructor; try done; [intros; by apply upd_other|].
    cbn [snd]. rewrite upd_same. apply choreo_attr_same.
  - intros s j. destruct (id_cr_ s !! cr_id (heap s j)) as [x|] eqn:E; [by rewrite (choreo_dispatch_taken s j x)|].
    by destruct (choreo_dispatch_free s j E) as [-> _].
  - intros s j. destruct (id_cr_ s !! cr_id (heap s j)) as [x|] eqn:E; [by rewrite (choreo_dispatch_taken s j x)|].
    by destruct (choreo_dispatch_free s j E) as [-> ->].
  - intros s j pl Hs. destruct (id_cr_ s !! cr_id (heap s j)) as [x|] eqn:E.
    + by rewrite (choreo_dispatch_taken s j x).
    + destruct (choreo_dispatch s j Hs E) as (-> & _ & _ & _ & Hq). apply Hq.
  - intros s c. unfold NotifyProcessor_choreography. destruct (stop_ s) eqn:Est; [cbn; by split_and!; auto|].
    destruct (id_cr_ s !! c) as [j|] eqn:E; [|cbn; by split_and!; auto].
    destruct (flag_waiting_rest s j) as (Hn & Hi & Hst & Hg & Hc). rewrite Est in Hst.
    assert (forall x, heap (flag_waiting s j) x = heap s x \/ Some j = Some x /\ waiting (heap s x) = true /\
      heap (flag_waiting s j) x = SetUpdateFlag (heap s x)) as Hh.
    { intros x. destruct (flag_waiting_heap s j x) as [?|(-> & ? & ?)]; auto. }
    destruct (on_processor proc_num_ (heap s j)); cbn [snd].
    + unfold Notify_choreography. rewrite Hc. destruct (pctxs_ s !! _) as [[|q n st]|] eqn:Ek.
      all: split_and!; try done; try (unfold choreo_shape; rewrite Hc; done); try (intros [g i|p]; cbn; by rewrite ?Hg, ?Hc).
      * intros Hs. rewrite <- Hc. eapply (choreo_shape_insert (flag_waiting s j)); [unfold choreo_shape; by rewrite Hc|by rewrite Hc].
      * intros pl. rewrite <- Hc. rewrite (with_ctxs_contents (flag_waiting s j) _ q n st) by (by rewrite Hc).
        case_decide; [subst pl; cbn; by rewrite Ek|]. destruct pl; cbn; by rewrite ?Hg, ?Hc.
    + unfold Notify_classic. split_and!; try done; [unfold choreo_shape; cbn; by rewrite Hc|].
      intros [g i|p]; cbn; by rewrite ?Hg, ?Hc.
  - intros s c. unfold NotifyProcessor_choreography. destruct (stop_ s); [done|]. destruct (id_cr_ s !! c); [|done]. by case_match.
  - intros s c Hc. unfold RemoveCRoutine_SchedulerChoreography. by rewrite Hc.
  - intros s c j Hs Hreg Hc. unfold RemoveCRoutine_SchedulerChoreography, choreo_place. rewrite Hreg.
    destruct (on_processor proc_num_ (heap s j)) eqn:Ep; intros Hin Hn Hu.
    + pose proof (choreo_removes s c j Hs Ep Hc Hin Hn Hu) as Hr. cbn zeta in Hr.
      destruct (lock_ (heap s j)); [done|]. destruct Hr as (s' & -> & Hp & Ho & Hh & Hi & Hq).
      exists s'. rewrite Hh. split_and!; try done. change (on_processor proc_num_ (Stop (heap s j))) with (on_processor proc_num_ (heap s j)). by rewrite Ep.
    + pose proof (classic_removes s c j Hreg Hc Hin Hn Hu) as Hr. cbn zeta in Hr.
      destruct (lock_ (heap s j)); [done|]. destruct Hr as (s' & -> & Hp & Ho & Hf & Hh & Hi & Hq).
      exists s'. rewrite Hh. split_and!; try done; [unfold choreo_shape; by rewrite Hp|].
      change (on_processor proc_num_ (Stop (heap s j))) with (on_processor proc_num_ (heap s j)). by rewrite Ep.
  - intros s s' Hk Hs k. rewrite (Hs k). apply (f_equal (lookup k)) in Hk. unfold kinds in Hk. rewrite !list_lookup_fmap in Hk.
    destruct (pctxs_ s !! k) as [[]|], (pctxs_ s' !! k) as [[]|]; naive_solver.
  - intros c c' Hg Hp Hi. unfold choreo_place, on_processor, pid_of. by rewrite Hg, Hp, Hi.
Qed.
End ChoreographyLaws.

(** ** The base class

    [CreateTask] without the visitor's callback (which ClassicPolicy has), [NotifyTask],
    [RemoveTask] of both policies, [Shutdown], and the two halves of a turn of [Processor::Run]. *)
Section Scheduler.
Context {P : Policy} {M : Type} `{!KeyedStore M string} (Hash : string -> Z) `{!HashOrder}.

Definition CreateTask (s : rt) (g : @GlobalData M) (name : string) (now : Z) : option (bool * rt * @GlobalData M) :=
  if stop_ s then Some (false, s, g)
  else
    '(task_id, g') ← RegisterTaskName Hash g name;
    let s1 := new_routine s (set_name (set_id (CRoutine_new now) task_id) name) in
    let r := DispatchTask s1 (next s) in
    Some (r.1, r.2, g').

Definition NotifyTask (s : rt) (crid : Z) : bool * rt :=
  if stop_ s then (true, s) else NotifyProcessor s crid.

Definition RemoveTask (s : rt) (name : string) : option (bool * rt) :=
  if stop_ s then Some (true, s) else RemoveCRoutine s (Hash name).

(** The ids in the order in which the hash table is walked. *)
Definition cr_list (s : rt) : list Z := rehash ((fun x => cr_id (heap s x.2)) <$> map_to_list (id_cr_ s)).

Fixpoint remove_all (s : rt) (ids : list Z) : option rt :=
  match ids with
  | [] => Some s
  | id :: ids' => '(_, s') ← RemoveCRoutine s id; remove_all s' ids'
  end.

Definition set_stop (s : rt) : rt := mkRt (heap s) (next s) (id_cr_ s) (cr_group_ s) (notify_grp_ s) (pctxs_ s) true.

Definition Shutdown (s : rt) : option rt :=
  if stop_ s then Some s
  else
    let s1 := foldl Shutdown_ctx (set_stop s) (seq 0 (length (pctxs_ s))) in
    s2 ← remove_all s1 (cr_list s1);
    Some (with_ctxs s2 []).

(** A processor takes a coroutine of its context, and later resumes it and gives it back; the
    coroutine leaves its state and its wake time behind. *)
Definition Take (s : rt) (k : nat) (clk : nat -> Z) : option nat * rt :=
  match pctxs_ s !! k with Some c => NextRoutine s clk c | None => (None, s) end.

Definition Finish (s : rt) (j : nat) (st : RoutineState) (wake : Z) : rt :=
  upd s j (fun c => Release (Resume (fun _ c => (tt, set_wake_time (set_state c st) wake)) tt c).2).

(** ** Histories *)
Inductive sop :=
  | OCreate (name : string) (now : Z)
  | ORemove (name : string)
  | ONotify (crid : Z)
  | OTake (k : nat) (clk : nat -> Z)
  | OFinish (j : nat) (st : RoutineState) (wake : Z)
  | OWait (k : nat)
  | OShutdown.

(** A call that has to wait for a coroutine has no effect yet. *)
Definition sstep (x : rt * @GlobalData M) (o : sop) : rt * @GlobalData M :=
  let s := x.1 in let g := x.2 in
  match o with
  | OCreate name now => match CreateTask s g name now with Some (_, s', g') => (s', g') | None => x end
  | ORemove name => (match RemoveTask s name with Some (_, s') => s' | None => s end, g)
  | ONotify crid => ((NotifyTask s crid).2, g)
  | OTake k clk => ((Take s k clk).2, g)
  | OFinish j st wake => (Finish s j st wake, g)
  | OWait k => (Wait s k, g)
  | OShutdown => (default s (Shutdown s), g)
  end.

Definition srun (x : rt * @GlobalData M) (l : list sop) : rt * @GlobalData M := foldl sstep x l.

(** Every registered coroutine is once in the queue of its place and every queued coroutine is
    registered. *)
Record consistent (s : rt) : Prop := {
  c_reg : forall c j, id_cr_ s !! c = Some j ->
    (j < next s)%nat /\ cr_id (heap s j) = c /\ j ∈ contents s (place_of (heap s j));
  c_in : forall pl j, j ∈ contents s pl -> place_of (heap s j) = pl /\ id_cr_ s !! cr_id (heap s j) = Some j;
  c_nodup : forall pl, NoDup (contents s pl)
}.

Definition sched_ok (s : rt) : Prop := consistent s /\ (stop_ s = false -> shape s).
End Scheduler.
Arguments sched_ok {_} _.
Arguments consistent {_} _.

(** ** Consistency *)

(** What no processor changes of a coroutine. *)
Definition keeps (c c' : CRoutine) : Prop :=
  cr_id c' = cr_id c /\ group_name_ c' = group_name_ c /\ priority_ c' = priority_ c /\
  processor_id_ c' = processor_id_ c.

#[global] Instance keeps_preorder : PreOrder keeps.
Proof.
  split; [by intros c; split_and!|]. intros a b c (? & ? & ? & ?) (? & ? & ? & ?).
  unfold keeps. split_and!; congruence.
Qed.

Lemma UpdateState_keeps now c : keeps c (UpdateState now c).2.
Proof. destruct (UpdateState_frame now c) as (? & _ & _ & ? & ? & _ & ? & _). by split_and!. Qed.

Lemma insert_keeps (h : nat -> CRoutine) j c x : keeps (h j) c -> keeps (h x) ((<[j := c]> h) x).
Proof.
  intros Hk. destruct (decide (x = j)) as [->|]; [by rewrite fn_lookup_insert|by rewrite fn_lookup_insert_ne].
Qed.

Lemma scan_keeps clk h q x : keeps (h x) ((scan clk h q).2 x).
Proof.
  revert h. induction q as [|j q IH]; intros h; cbn; [done|].
  destruct (negb (negb (lock_ (h j)))); [apply IH|].
  assert (keeps (h j) (UpdateState (clk j) (set_lock (h j) true)).2) as Hk.
  { etrans; [|apply UpdateState_keeps]. done. }
  case_match; cbn; [by apply insert_keeps|]. etrans; [|apply IH]. apply insert_keeps.
  etrans; [exact Hk|done].
Qed.

Lemma scan_prios_keeps clk h rq n x : keeps (h x) ((scan_prios clk h rq n).2 x).
Proof.
  revert h. induction n as [|i IH]; intros h; cbn; [done|].
  pose proof (scan_keeps clk h (rq i) x) as Hk. destruct (scan clk h (rq i)) as [[j|] h'] eqn:E; cbn in *; [done|].
  etrans; [exact Hk|apply IH].
Qed.

Section Consistency.
Context {P : Policy} {HL : LawfulPolicy} {M : Type} `{!KeyedStore M string} (Hash : string -> Z) `{!HashOrder}.

Lemma frame_consistent s s' :
  next s' = next s -> id_cr_ s' = id_cr_ s -> (forall pl, contents s' pl = contents s pl) ->
  (forall x, keeps (heap s x) (heap s' x)) -> consistent s -> consistent s'.
Proof.
  intros Hn Hi Hq Hk [Hr Hin Hd].
  assert (forall x, place_of (heap s' x) = place_of (heap s x)) as Hpl.
  { intros x. destruct (Hk x) as (_ & ? & ? & ?). by apply place_stable. }
  assert (forall x, cr_id (heap s' x) = cr_id (heap s x)) as Hid by (intros x; apply Hk).
  constructor.
  - intros c j. rewrite Hi, Hn, Hid, Hpl, Hq. apply Hr.
  - intros pl j. rewrite Hq, Hpl, Hi, Hid. apply Hin.
  - intros pl. by rewrite Hq.
Qed.

(** A coroutine number that is not in use. *)
Definition unused (s : rt) (j : nat) : Prop :=
  (forall pl, j ∉ contents s pl) /\ forall c, id_cr_ s !! c <> Some j.

Lemma next_unused s : consistent s -> unused s (next s).
Proof.
  intros [Hr Hin _]. split.
  - intros pl [_ Hreg]%Hin. apply Hr in Hreg as [? _]. lia.
  - intros c Hreg. apply Hr in Hreg as [? _]. lia.
Qed.

Lemma new_routine_consistent s c : consistent s -> consistent (new_routine s c).
Proof.
  intros Hc. destruct (next_unused s Hc) as [Huq Hui]. destruct Hc as [Hr Hin Hd]. constructor; cbn.
  - intros d j Hd'. assert (j <> next s) by (intros ->; by eapply Hui). rewrite fn_lookup_insert_ne by done.
    destruct (Hr d j Hd') as (? & ? & ?). split_and!; [lia|done..].
  - intros pl j Hj. assert (j <> next s) by (intros ->; by eapply Huq). rewrite fn_lookup_insert_ne by done. by apply Hin.
  - done.
Qed.

Lemma dispatch_consistent s j : shape s -> (j < next s)%nat -> unused s j -> consistent s ->
  consistent (DispatchTask s j).2.
Proof.
  intros Hs Hlt [Huq Hui] [Hr Hin Hd]. destruct (dispatch_only s j Hs) as [Hh (Hid & _) Hn _].
  pose proof (dispatch_ids s j) as Hi. pose proof (dispatch_queue s j) as Hq.
  pose proof (dispatch_result s j) as Hres.
  set (s' := (DispatchTask s j).2) in *. set (b := (DispatchTask s j).1) in *. clearbody s' b.
  assert (forall pl x, x ∈ contents s' pl <->
    x ∈ contents s pl \/ b = true /\ place_of (heap s' j) = pl /\ x = j) as Hin'.
  { intros pl x. rewrite (Hq pl Hs). destruct b; cbn [andb].
    - destruct (decide (place_of (heap s' j) = pl)) as [Hp|Hp]; [rewrite bool_decide_true by done|rewrite bool_decide_false by done].
      + rewrite elem_of_cons. subst pl. clear. tauto.
      + split; [auto|]. by intros [?|(_ & ? & _)].
    - split; [auto|]. by intros [?|(? & _)]. }
  constructor.
  - intros c x. rewrite Hi, Hn. intros Hx. assert (id_cr_ s !! c = Some x \/ b = true /\ cr_id (heap s j) = c /\ x = j) as [Hx'|(Hb & <- & ->)].
    { destruct b; [apply lookup_insert_Some in Hx as [[<- <-]|[_ ?]]; auto|by left]. }
    + assert (x <> j) by (intros ->; by eapply Hui). rewrite Hh by done. destruct (Hr c x Hx') as (? & ? & ?).
      split_and!; [done..|]. apply Hin'. by left.
    + split_and!; [done..|]. apply Hin'. by right.
  - intros pl x [Hx|(Hb & <- & ->)]%Hin'.
    + assert (x <> j) by (intros ->; by eapply Huq). rewrite Hh by done. destruct (Hin pl x Hx) as [? Hreg].
      split; [done|]. rewrite Hi. destruct b eqn:Eb; [|done]. rewrite lookup_insert_ne; [done|]. intros He.
      symmetry in Hres. apply bool_decide_eq_true in Hres. congruence.
    + split; [done|]. rewrite Hi, Hb, Hid. by rewrite lookup_insert_eq.
  - intros pl. rewrite (Hq pl Hs). destruct (b && _); [|done]. constructor; [apply Huq|done].
Qed.

Lemma remove_consistent s c r : shape s -> consistent s -> RemoveCRoutine s c = Some r ->
  consistent r.2 /\ shape r.2 /\ stop_ r.2 = stop_ s /\ id_cr_ r.2 = delete c (id_cr_ s).
Proof.
  intros Hs Hc He. pose proof Hc as [Hr Hin Hd].
  destruct (id_cr_ s !! c) as [j|] eqn:Hj; [|rewrite remove_unknown in He by done; injection He as <-; by rewrite delete_id].
  destruct (Hr c j Hj) as (Hlt & Hid & Hq).
  pose proof (remove_known s c j Hs Hj Hid Hq (Hd _)) as Hk.
  assert (forall x, x ∈ contents s (place_of (heap s j)) -> cr_id (heap s x) = c -> x = j) as Hu.
  { intros x Hx Hxc. destruct (Hin _ x Hx) as [_ Hreg]. rewrite Hxc in Hreg. congruence. }
  specialize (Hk Hu). destruct (lock_ (heap s j)); [congruence|].
  destruct Hk as (s' & He' & Hs' & [Hh (Hid' & _) Hn Hst] & Hf & Hpl & Hi & Hcont). rewrite He in He'. injection He' as ->. cbn.
  split_and!; [|done..]. constructor.
  - intros d x. rewrite Hi, lookup_delete_Some, Hn. intros [Hne Hx].
    assert (x <> j) by (intros ->; destruct (Hr d j Hx) as (_ & ? & _); congruence).
    rewrite Hh by done. destruct (Hr d x Hx) as (? & ? & Hxin). split_and!; [done..|]. rewrite Hcont.
    case_decide; [|done]. by apply list_elem_of_filter.
  - intros pl x Hx. rewrite Hcont in Hx. assert (x ∈ contents s pl /\ x <> j) as [Hxin Hne].
    { case_decide as Hp; [by apply list_elem_of_filter in Hx as [??]|]. split; [done|]. intros ->.
      destruct (Hin pl j Hx). congruence. }
    rewrite Hh by done. destruct (Hin pl x Hxin) as [? Hreg]. split; [done|]. rewrite Hi, lookup_delete_ne; [done|]. intros He'. congruence.
  - intros pl. rewrite Hcont. case_decide; [by apply NoDup_filter|done].
Qed.

Lemma remove_all_consistent ids s s' : shape s -> consistent s -> remove_all s ids = Some s' ->
  consistent s' /\ stop_ s' = stop_ s /\ forall c, id_cr_ s' !! c = if decide (c ∈ ids) then None else id_cr_ s !! c.
Proof.
  revert s. induction ids as [|id ids IH]; intros s Hs Hc; cbn.
  - intros [= <-]. split_and!; [done..|]. intros c. by rewrite decide_False by set_solver.
  - intros ([b s1] & Hr & Hall)%bind_Some. destruct (remove_consistent s id _ Hs Hc Hr) as (Hc1 & Hs1 & Hst & Hi).
    destruct (IH s1 Hs1 Hc1 Hall) as (Hc' & Hst' & Hi'). cbn in *. split_and!; [done|congruence|].
    intros c. rewrite Hi', Hi. destruct (decide (c = id)) as [->|Hne].
    + rewrite lookup_delete_eq, (decide_True (P := id ∈ id :: ids)) by set_solver. by case_decide.
    + rewrite lookup_delete_ne by done. by repeat case_decide; set_solver.
Qed.

(** A context that keeps its kind and its queue. *)
Lemma ctx_insert s k c c' : pctxs_ s !! k = Some c -> own_queue c' = own_queue c ->
  (match c' with ChoreographyContext q _ _ => q.*2 | _ => [] end) = (match c with ChoreographyContext q _ _ => q.*2 | _ => [] end) ->
  kinds (with_ctxs s (<[k := c']> (pctxs_ s))) = kinds s /\
  forall pl, contents (with_ctxs s (<[k := c']> (pctxs_ s))) pl = contents s pl.
Proof.
  intros Hk Ho Hq. split.
  - unfold kinds. cbn. rewrite list_fmap_insert, Ho. apply list_insert_id. by rewrite list_lookup_fmap, Hk.
  - intros [g i|p]; [done|]. cbn. destruct (decide (p = k)) as [->|Hne].
    + rewrite list_lookup_insert_eq by (by eapply lookup_lt_Some). by rewrite Hk.
    + by rewrite list_lookup_insert_ne.
Qed.

Lemma Shutdown_ctx_queues s k : kinds (Shutdown_ctx s k) = kinds s /\ forall pl, contents (Shutdown_ctx s k) pl = contents s pl.
Proof.
  unfold Shutdown_ctx. destruct (pctxs_ s !! k) as [[g st|q n st]|] eqn:E; [| |done].
  - by apply (ctx_insert (with_notify s _) k _ (ClassicContext g true) E).
  - by apply (ctx_insert s k _ (ChoreographyContext q 255 true) E).
Qed.

Lemma Wait_queues s k : kinds (Wait s k) = kinds s /\ forall pl, contents (Wait s k) pl = contents s pl.
Proof.
  unfold Wait. destruct (pctxs_ s !! k) as [[g st|q n st]|] eqn:E; [by case_match| |done].
  case_match; [|done]. by apply (ctx_insert s k _ (ChoreographyContext q (n - 1) st) E).
Qed.

Lemma Wait_frame s k :
  next (Wait s k) = next s /\ id_cr_ (Wait s k) = id_cr_ s /\ heap (Wait s k) = heap s /\ stop_ (Wait s k) = stop_ s.
Proof. unfold Wait. by repeat case_match. Qed.

(** Shutting the contexts down changes no queue. *)
Lemma shutdown_ctxs s l : let s1 := foldl Shutdown_ctx s l in
  heap s1 = heap s /\ next s1 = next s /\ id_cr_ s1 = id_cr_ s /\ stop_ s1 = stop_ s /\ kinds s1 = kinds s /\
  forall pl, contents s1 pl = contents s pl.
Proof.
  revert s. induction l as [|k l IH]; intros s; cbn; [done|].
  destruct (IH (Shutdown_ctx s k)) as (-> & -> & -> & -> & -> & Hq).
  split_and!; try (unfold Shutdown_ctx; by repeat case_match).
  - apply Shutdown_ctx_queues.
  - intros pl. rewrite Hq. apply Shutdown_ctx_queues.
Qed.

Lemma consistent_no_ids s : consistent s -> id_cr_ s = ∅ -> forall pl, contents s pl = [].
Proof.
  intros [_ Hin _] He pl. destruct (contents s pl) as [|j q] eqn:E; [done|].
  destruct (Hin pl j) as [_ Hreg]; [rewrite E; set_solver|]. by rewrite He in Hreg.
Qed.

Lemma Shutdown_consistent s s' : shape s -> consistent s -> stop_ s = false -> Shutdown s = Some s' ->
  consistent s' /\ stop_ s' = true /\ id_cr_ s' = ∅ /\ forall pl, contents s' pl = [].
Proof.
  intros Hs Hc Hst. unfold Shutdown. rewrite Hst. intros (s2 & Hall & [= <-])%bind_Some.
  destruct (shutdown_ctxs (set_stop s) (seq 0 (length (pctxs_ s)))) as (Hh & Hn & Hi & Ht & Hk & Hq).
  set (s1 := foldl Shutdown_ctx _ _) in *.
  assert (consistent s1) as Hc1.
  { apply (frame_consistent s s1 Hn Hi Hq); [intros x; by rewrite Hh|done]. }
  destruct (remove_all_consistent (cr_list s1) s1 s2) as (Hc2 & Ht2 & Hi2); [exact (shape_kind s s1 Hk Hs)|done..|].
  assert (id_cr_ s2 = ∅) as He.
  { apply map_eq. intros c. rewrite Hi2, lookup_empty. case_decide as Hni; [done|].
    destruct (id_cr_ s1 !! c) as [j|] eqn:Ej; [|done]. destruct Hni. unfold cr_list. rewrite rehash_perm.
    apply list_elem_of_fmap. exists (c, j). split; [|by apply elem_of_map_to_list].
    apply (c_reg _ Hc1) in Ej as (_ & Hid & _). exact (eq_sym Hid). }
  pose proof (consistent_no_ids s2 Hc2 He) as Hempty.
  assert (forall pl, contents (with_ctxs s2 []) pl = []) as Hcont by (intros [g i|p]; [apply (Hempty (Pool g i))|done]).
  split_and!; [|cbn; by rewrite Ht2, Ht|done|done].
  constructor; cbn.
  - intros c j. by rewrite He.
  - intros pl j. rewrite Hcont. set_solver.
  - intros pl. rewrite Hcont. constructor.
Qed.

Lemma Resume_keeps st wake c :
  keeps c (Release (Resume (fun _ c => (tt, set_wake_time (set_state c st) wake)) tt c).2).
Proof. unfold Resume. by repeat case_match. Qed.

Lemma Take_frame s k clk : let s' := (Take s k clk).2 in
  next s' = next s /\ id_cr_ s' = id_cr_ s /\ pctxs_ s' = pctxs_ s /\ cr_group_ s' = cr_group_ s /\ stop_ s' = stop_ s /\
  forall x, keeps (heap s x) (heap s' x).
Proof.
  unfold Take, NextRoutine. destruct (pctxs_ s !! k) as [[g st|q n st]|]; [| |done]; destruct st; split_and!; try done.
  - intros x. exact (scan_prios_keeps clk (heap s) (cr_group_ s g) MAX_PRIO x).
  - intros x. exact (scan_keeps clk (heap s) q.*2 x).
Qed.

Lemma sstep_ok x o : sched_ok x.1 -> sched_ok (sstep Hash x o).1.
Proof.
  destruct x as [s g]. cbn [fst]. intros Hok. pose proof Hok as [Hc Hs]. unfold sstep. destruct o; cbn [fst snd].
  - unfold CreateTask. destruct (stop_ s) eqn:Est; [exact Hok|].
    destruct (RegisterTaskName Hash g name) as [[id g']|]; cbn; [|exact Hok].
    set (s1 := new_routine s _).
    assert (shape s1) as Hs1 by (eapply shape_kind; [|by apply Hs]; done).
    assert (consistent s1) as Hc1 by (by apply new_routine_consistent).
    split; [|intros _; by apply dispatch_shape].
    apply dispatch_consistent; [done|cbn; lia| |done]. apply next_unused in Hc as [Hq Hi]. by split.
  - unfold RemoveTask. destruct (stop_ s) eqn:Est; [exact Hok|].
    destruct (RemoveCRoutine s (Hash name)) as [r|] eqn:E; [|exact Hok]. destruct r as [b s'].
    destruct (remove_consistent s _ _ (Hs eq_refl) Hc E) as (? & ? & _). by split.
  - unfold NotifyTask. destruct (stop_ s) eqn:Est; [exact Hok|].
    destruct (notify_frame s crid) as (H1 & H2 & H3 & H4 & H5 & H6). split; [|intros _; by apply H1, Hs].
    eapply (frame_consistent s); [done..| |done]. intros x. destruct (H6 x) as [->|(_ & _ & ->)]; done.
  - destruct (Take_frame s k clk) as (H1 & H2 & H3 & H4 & H5 & H6). split.
    + eapply (frame_consistent s); [done..|intros [? ?|?]; cbn; by rewrite ?H3, ?H4|done|done].
    + rewrite H5. intros Hst. eapply shape_kind; [|by apply Hs]. unfold kinds. by rewrite H3.
  - split; [|intros Hst; eapply shape_kind; [|by apply Hs]; done].
    eapply (frame_consistent s); [done..| |done]. intros x. apply insert_keeps, Resume_keeps.
  - destruct (Wait_queues s k) as [Hk Hq], (Wait_frame s k) as (H1 & H2 & H3 & H4).
    split; [apply (frame_consistent s); [done..|intros x; by rewrite H3|done]|].
    rewrite H4. intros Hst. eapply shape_kind; [exact Hk|by apply Hs].
  - destruct (Shutdown s) as [s'|] eqn:E; cbn; [|exact Hok]. destruct (stop_ s) eqn:Est.
    + unfold Shutdown in E. rewrite Est in E. injection E as <-. split; [done|]. by rewrite Est.
    + destruct (Shutdown_consistent s s' (Hs eq_refl) Hc Est E) as (? & Ht & _). split; [done|]. by rewrite Ht.
Qed.

Lemma srun_ok x l : sched_ok x.1 -> sched_ok (srun Hash x l).1.
Proof.
  intros Hx. revert x Hx. induction l as [|o l IH]; intros x Hx; [done|]. cbn. by apply IH, sstep_ok.
Qed.

(** A free coroutine that is registered can be removed. *)
Lemma remove_free s c j : shape s -> consistent s -> id_cr_ s !! c = Some j -> lock_ (heap s j) = false ->
  exists s', RemoveCRoutine s c = Some (true, s') /\ only s s' j /\ force_stop_ (heap s' j) = true /\
    id_cr_ s' = delete c (id_cr_ s) /\
    forall pl, contents s' pl = if decide (pl = place_of (heap s j)) then filter (fun x => x <> j) (contents s pl) else contents s pl.
Proof.
  intros Hs [Hr Hin Hd] Hj Hl. destruct (Hr c j Hj) as (_ & Hid & Hq).
  pose proof (remove_known s c j Hs Hj Hid Hq (Hd _)) as Hk. rewrite Hl in Hk.
  destruct Hk as (s' & ? & _ & ? & ? & _ & ? & ?); [|eauto 10].
  intros x Hx Hxc. destruct (Hin _ x Hx) as [_ Hreg]. congruence.
Qed.

Lemma remove_all_free ids s : shape s -> consistent s -> NoDup ids ->
  (forall c j, id_cr_ s !! c = Some j -> lock_ (heap s j) = false) ->
  exists s', remove_all s ids = Some s' /\
    (forall j, force_stop_ (heap s j) = true -> force_stop_ (heap s' j) = true) /\
    (forall c j, c ∈ ids -> id_cr_ s !! c = Some j -> force_stop_ (heap s' j) = true).
Proof.
  revert s. induction ids as [|c ids IH]; intros s Hs Hc Hnd Hl; cbn; [exists s; set_solver|].
  apply NoDup_cons in Hnd as [Hni Hnd].
  assert (exists b s1, RemoveCRoutine s c = Some (b, s1) /\
    (forall j, force_stop_ (heap s j) = true -> force_stop_ (heap s1 j) = true) /\
    (forall j, id_cr_ s !! c = Some j -> force_stop_ (heap s1 j) = true) /\
    forall j, lock_ (heap s1 j) = lock_ (heap s j)) as (b & s1 & Hr & Hf & Hfc & Hlk).
  { destruct (id_cr_ s !! c) as [j|] eqn:E.
    - destruct (remove_free s c j Hs Hc E (Hl c j E)) as (s1 & Hr & [Hh (_ & _ & Hlj & _) _ _] & Hf & _).
      exists true, s1. split_and!; [done|..].
      + intros x Hx. destruct (decide (x = j)) as [->|]; [done|by rewrite Hh].
      + by intros x [= <-].
      + intros x. destruct (decide (x = j)) as [->|]; [done|by rewrite Hh].
    - exists false, s. by rewrite remove_unknown. }
  rewrite Hr. cbn. destruct (remove_consistent s c _ Hs Hc Hr) as (Hc1 & Hs1 & _ & Hi). cbn in *.
  destruct (IH s1) as (s' & Hall & Hf' & Hfc'); [done..| |].
  { intros d j. rewrite Hi, lookup_delete_Some, Hlk. intros [_ ?]. eauto. }
  exists s'. split_and!; [done|auto|]. intros d j [->|Hd]%elem_of_cons Hj; [auto|].
  apply (Hfc' d); [done|]. rewrite Hi, lookup_delete_ne; [done|]. by intros <-.
Qed.
End Consistency.

(** ** The next routine *)

Definition available (clk : nat -> Z) (h : nat -> CRoutine) (j : nat) : bool :=
  negb (lock_ (h j)) && ready_at (clk j) (h j).

(** The order in which a context looks at its coroutines. *)
Definition order (s : rt) (c : pctx) : list nat :=
  match c with
  | ClassicContext g _ => concat (cr_group_ s g <$> reverse (seq 0 MAX_PRIO))
  | ChoreographyContext q _ _ => q.*2
  end.

Lemma ready_at_lock now c b : ready_at now (set_lock c b) = ready_at now c.
Proof. done. Qed.

(** What a scan leaves of the coroutines it does not return. *)
Definition untouched (c c' : CRoutine) : Prop := lock_ c' = lock_ c /\ state_ c' = state_ c.

Lemma UpdateState_not_ready now c : ready_at now c = false -> state_ (UpdateState now c).2 = state_ c.
Proof.
  unfold ready_at, UpdateState, wake_waiting. destruct (sleep_over now c); [by rewrite orb_true_r|].
  rewrite orb_false_r. cbn. destruct (updated_ c); [done|]. cbn. intros H.
  change (waiting (set_updated c true)) with (waiting c). destruct (waiting c); [by rewrite orb_true_r in H|done].
Qed.

Lemma UpdateState_state now c : state_ (UpdateState now c).2 = (UpdateState now c).1.
Proof. unfold UpdateState. by case_match. Qed.

Lemma list_find_ext_elem {A} (P Q : A -> Prop) `{!forall x, Decision (P x), !forall x, Decision (Q x)} (l : list A) :
  (forall x, x ∈ l -> P x <-> Q x) -> list_find P l = list_find Q l.
Proof.
  induction l as [|x l IH]; [done|]. intros He. cbn. rewrite IH by set_solver.
  specialize (He x ltac:(set_solver)). by repeat case_decide; try tauto.
Qed.

Lemma scan_spec clk h q : NoDup q ->
  (scan clk h q).1 = snd <$> list_find (fun j => available clk h j = true) q /\
  (forall j, (scan clk h q).1 = Some j ->
     lock_ ((scan clk h q).2 j) = true /\ state_ ((scan clk h q).2 j) = READY) /\
  (forall x, (scan clk h q).1 <> Some x -> untouched (h x) ((scan clk h q).2 x)) /\
  (forall x, x ∉ q -> (scan clk h q).2 x = h x).
Proof.
  revert h. induction q as [|j q IH]; intros h Hnd; [by split_and!|].
  apply NoDup_cons in Hnd as [Hni Hnd]. cbn [scan list_find]. cbn [Acquire fst snd]. rewrite negb_involutive.
  assert (bool_decide ((UpdateState (clk j) (set_lock (h j) true)).1 = READY) = ready_at (clk j) (h j)) as Hu
    by (rewrite UpdateState_ready; apply ready_at_lock).
  destruct (lock_ (h j)) eqn:El.
  { rewrite decide_False by (unfold available; by rewrite El). destruct (IH h Hnd) as (H1 & H2 & H3 & H4). split_and!; [|done|done|].
    - rewrite H1. by destruct (list_find _ q) as [[]|].
    - intros x Hx. apply H4. set_solver. }
  rewrite Hu. destruct (ready_at (clk j) (h j)) eqn:Er; cbn [fst snd].
  - rewrite decide_True by (unfold available; by rewrite El, Er). apply bool_decide_eq_true in Hu.
    destruct (UpdateState_frame (clk j) (set_lock (h j) true)) as (_ & Hl & _). split_and!; [done| | |].
    + intros x [= <-]. rewrite fn_lookup_insert. split; [by rewrite Hl|by rewrite UpdateState_state].
    + intros x Hx. rewrite fn_lookup_insert_ne; [done|]. congruence.
    + intros x Hx. rewrite fn_lookup_insert_ne; [done|]. set_solver.
  - rewrite decide_False by (unfold available; by rewrite El, Er). set (h1 := <[j := _]> h). destruct (IH h1 Hnd) as (H1 & H2 & H3 & H4).
    assert (forall x, x ∈ q -> h1 x = h x) as Hq by (intros x Hx; apply fn_lookup_insert_ne; set_solver).
    split_and!; [|done| |].
    + rewrite H1. assert (list_find (fun x => available clk h1 x = true) q = list_find (fun x => available clk h x = true) q) as ->.
      { apply list_find_ext_elem. intros x Hx. unfold available. by rewrite Hq. }
      generalize (list_find (fun x => available clk h x = true) q). by intros [[]|].
    + intros x Hx. specialize (H3 x Hx). destruct (decide (x = j)) as [->|Hne]; [|unfold h1 in H3; by rewrite fn_lookup_insert_ne in H3].
      rewrite H4 by done. unfold h1. rewrite fn_lookup_insert. split; [by rewrite El|].
      change (state_ (Release ?c)) with (state_ c). rewrite UpdateState_not_ready; [done|]. by rewrite ready_at_lock.
    + intros x Hx. rewrite H4 by set_solver. apply fn_lookup_insert_ne. set_solver.
Qed.

(** The queues of the priorities below [n] in the order of the scan. *)
Fixpoint prio_order (rq : nat -> list nat) (n : nat) : list nat :=
  match n with 0%nat => [] | S i => rq i ++ prio_order rq i end.

Lemma prio_order_eq rq n : concat (rq <$> reverse (seq 0 n)) = prio_order rq n.
Proof.
  induction n as [|n IH]; [done|]. rewrite seq_S, reverse_app. cbn. by rewrite IH.
Qed.

(** The loop over the priorities is one scan of the queues in that order. *)
Lemma scan_app clk h q q' :
  scan clk h (q ++ q') =
  match scan clk h q with (Some j, h') => (Some j, h') | (None, h') => scan clk h' q' end.
Proof.
  revert h. induction q as [|j q IH]; intros h; cbn; [done|]. case_match; [apply IH|]. case_match; [done|apply IH].
Qed.

Lemma scan_prios_eq clk h rq n : scan_prios clk h rq n = scan clk h (prio_order rq n).
Proof.
  revert h. induction n as [|i IH]; intros h; cbn; [done|]. rewrite scan_app.
  destruct (scan clk h (rq i)) as [[j|] h']; [done|apply IH].
Qed.

Lemma NextRoutine_scan s clk c : (match c with ClassicContext _ st | ChoreographyContext _ _ st => st end) = false ->
  NextRoutine s clk c = ((scan clk (heap s) (order s c)).1, with_heap s (scan clk (heap s) (order s c)).2).
Proof.
  destruct c as [g st|q n st]; cbn [order]; intros ->; [|done].
  rewrite prio_order_eq, <- scan_prios_eq. done.
Qed.

(** ** Descending priorities, first come first served *)
Definition emplace_all (l : list (Z * nat)) : list (Z * nat) := foldl (fun q x => emplace q x.1 x.2) [] l.

Definition desc (a b : Z * nat) : Prop := b.1 <= a.1.

Lemma emplace_sorted q p j : Sorted desc q -> Sorted desc (emplace q p j).
Proof.
  induction q as [|[p' j'] q IH]; cbn; [by repeat constructor|]. intros Hs. inversion_clear Hs as [|? ? Hq Hh].
  destruct (Z.ltb_spec p' p).
  - repeat constructor; [done..|]. unfold desc. cbn. lia.
  - constructor; [by apply IH|]. destruct q as [|[p'' j''] q]; cbn; [constructor; unfold desc; cbn; lia|].
    inversion_clear Hh. case_match; constructor; unfold desc in *; cbn in *; lia.
Qed.

(** An entry goes behind those of its own priority. *)
Lemma emplace_same q p j p' : Sorted desc q ->
  filter (fun x => x.1 = p') (emplace q p j) = filter (fun x => x.1 = p') q ++ (if decide (p = p') then [(p, j)] else []).
Proof.
  intros Hs%Sorted_StronglySorted; [|intros a b c; unfold desc; lia].
  induction q as [|[a b] q IH]; cbn [emplace].
  - rewrite filter_cons, filter_nil. cbn. by case_decide.
  - apply StronglySorted_inv in Hs as [Hs Hh]. destruct (Z.ltb_spec a p).
    + rewrite (filter_cons _ (p, j)). cbn [fst]. case_decide as Hp; [subst p'|by rewrite app_nil_r].
      rewrite (filter_none_elem (fun x => x.1 = p) ((a, b) :: q)); [done|].
      intros x [->|Hx]%elem_of_cons; cbn; [lia|]. rewrite Forall_forall in Hh. specialize (Hh x Hx). unfold desc in Hh. cbn in Hh. lia.
    + rewrite !(filter_cons _ (a, b)), IH by done. cbn [fst]. by destruct (decide (a = p')).
Qed.

Lemma emplace_all_spec l p :
  Sorted desc (emplace_all l) /\ filter (fun x => x.1 = p) (emplace_all l) = filter (fun x => x.1 = p) l.
Proof.
  unfold emplace_all. induction l as [|x l [IHs IH]] using rev_ind; [done|]. rewrite foldl_app, filter_app. cbn [foldl].
  split; [by apply emplace_sorted|]. rewrite emplace_same, IH by done. f_equal. destruct x. by rewrite filter_cons, filter_nil.
Qed.

(** [NextRoutine] returns the first coroutine, in descending priority and first come first
    served, that nobody holds and that is ready (its state is READY, or it slept long enough, or
    it waits and was flagged); it then holds it in state READY.  If there is none it returns
    nothing.  Every other coroutine keeps its lock and its state.  The order is that of the
    priorities of the group from 19 down to 0 for a classic context; for a context with its own
    queue, filled by any enqueuings, it is descending in the priority and keeps the order of
    arrival within one. *)
Theorem NextRoutine_first_available s clk c (l : list (Z * nat)) :
  (match c with ClassicContext _ st | ChoreographyContext _ _ st => st end) = false -> NoDup (order s c) ->
  let r := NextRoutine s clk c in
  r.1 = snd <$> list_find (fun j => available clk (heap s) j = true) (order s c) /\
  (forall j, r.1 = Some j -> lock_ (heap r.2 j) = true /\ state_ (heap r.2 j) = READY) /\
  (forall x, r.1 <> Some x -> untouched (heap s x) (heap r.2 x)) /\
  Sorted desc (emplace_all l) /\ forall p, filter (fun x => x.1 = p) (emplace_all l) = filter (fun x => x.1 = p) l.
Proof.
  intros Hst Hnd r. unfold r. rewrite (NextRoutine_scan s clk c Hst).
  destruct (scan_spec clk (heap s) (order s c) Hnd) as (H1 & H2 & H3 & _).
  split_and!; [done..|exact (proj1 (emplace_all_spec l 0))|intros p; apply emplace_all_spec].
Qed.

(** ** Whole schedulers *)

(** The scheduler its constructor leaves: contexts, no task. *)
Definition rt_init (ctxs : list pctx) : rt := mkRt (fun _ => CRoutine_new 0) 0 ∅ (fun _ _ => []) (fun _ => 0) ctxs false.

Lemma rt_init_consistent {P : Policy} ctxs : (forall pl, contents (rt_init ctxs) pl = []) -> consistent (rt_init ctxs).
Proof.
  intros He. constructor; [done| |]; intros pl; rewrite He; [set_solver|constructor].
Qed.

Lemma CreateProcessor_classic_kind confs c : c ∈ CreateProcessor_classic confs -> own_queue c = false.
Proof.
  unfold CreateProcessor_classic. intros (gn & Hc & _)%list_elem_of_bind. by apply elem_of_replicate in Hc as [-> _].
Qed.

Lemma CreateProcessor_classic_ok confs groups gs : sched_ok (P := SchedulerClassic confs groups) (rt_init (CreateProcessor_classic gs)).
Proof.
  split; [apply rt_init_consistent|]; cbn.
  - intros [g i|p]; [done|]. cbn. destruct (_ !! p) as [[|q n st]|] eqn:E; [done| |done].
    by apply list_elem_of_lookup_2, CreateProcessor_classic_kind in E.
  - intros _ k q n st Hk. by apply list_elem_of_lookup_2, CreateProcessor_classic_kind in Hk.
Qed.

Lemma CreateProcessor_choreography_ok confs n m :
  sched_ok (P := SchedulerChoreography confs n) (rt_init (CreateProcessor_choreography n m)).
Proof.
  assert (forall k, CreateProcessor_choreography n m !! k =
    if decide (k < n)%nat then Some (ChoreographyContext [] 0 false)
    else if decide (k < n + m)%nat then Some (ClassicContext DEFAULT_GROUP_NAME false) else None) as Hl.
  { intros k. unfold CreateProcessor_choreography. case_decide.
    - rewrite lookup_app_l by (by rewrite length_replicate). by apply lookup_replicate_2.
    - rewrite lookup_app_r, length_replicate by (rewrite length_replicate; lia). case_decide.
      + apply lookup_replicate_2. lia.
      + apply lookup_ge_None. rewrite length_replicate. lia. }
  split; [apply rt_init_consistent|]; cbn.
  - intros [g i|p]; [done|]. cbn. rewrite Hl. by repeat case_decide.
  - intros _ k. cbn. rewrite Hl. repeat case_decide; naive_solver lia.
Qed.

(** C15: Under both policies, whatever the configuration and after any history of task creations,
    removals by name, notifications, processors taking, resuming and giving back routines, waits
    and shutdowns, every registered coroutine is exactly once in the queue its attributes say,
    under its own id, and every queue holds registered coroutines only. *)
Theorem scheduler_consistent {M} `{!KeyedStore M string} `{!HashOrder} (Hash : string -> Z) (g : @GlobalData M) (l : list sop) :
  (forall confs groups gs,
     consistent (P := SchedulerClassic confs groups)
       (srun (P := SchedulerClassic confs groups) Hash (rt_init (CreateProcessor_classic gs), g) l).1) /\
  (forall confs n m,
     consistent (P := SchedulerChoreography confs n)
       (srun (P := SchedulerChoreography confs n) Hash (rt_init (CreateProcessor_choreography n m), g) l).1).
Proof.
  split; intros.
  - apply (srun_ok (P := SchedulerClassic confs groups) Hash). apply CreateProcessor_classic_ok.
  - apply (srun_ok (P := SchedulerChoreography confs n) Hash). apply CreateProcessor_choreography_ok.
Qed.

(** [CreateTask] and [RemoveCRoutine] undo each other under any lawful policy: the task that
    was created is found by [NotifyTask] and can be removed, which stops it and leaves registry
    and queues as they were before; creating it a second time is refused. *)
Theorem task_create_remove {P : Policy} {HL : LawfulPolicy} {M} `{!KeyedStore M string} (Hash : string -> Z)
    (s s' : rt) (g g' : @GlobalData M) name now :
  sched_ok s -> stop_ s = false -> CreateTask Hash s g name now = Some (true, s', g') ->
  let j := next s in let c := cr_id (heap s' j) in
  id_cr_ s !! c = None /\ id_cr_ s' = <[c := j]> (id_cr_ s) /\
  (NotifyTask s' c).1 = true /\
  (forall x, cr_id (heap s' x) = c -> (DispatchTask s' x).1 = false) /\
  exists s'', RemoveCRoutine s' c = Some (true, s'') /\ force_stop_ (heap s'' j) = true /\
    id_cr_ s'' = id_cr_ s /\ forall pl, contents s'' pl ≡ₚ contents s pl.
Proof.
  intros [Hc Hs] Hst. specialize (Hs Hst). unfold CreateTask. rewrite Hst. intros ([id g1] & _ & He)%bind_Some.
  set (s1 := new_routine s _) in He. injection He as Hb Hs' _. cbn zeta.
  pose proof (next_unused s Hc) as [Huq Hui].
  assert (shape s1) as Hs1 by (eapply shape_kind; [|exact Hs]; done).
  assert (heap s1 (next s) = set_name (set_id (CRoutine_new now) id) name) as Hj by apply fn_lookup_insert.
  destruct (dispatch_only s1 (next s) Hs1) as [_ (Hid & _ & Hlk & _) _ Hstop].
  pose proof (dispatch_result s1 (next s)) as Hres. pose proof (dispatch_ids s1 (next s)) as Hi.
  pose proof (fun pl => dispatch_queue s1 (next s) pl Hs1) as Hq. change (contents s1) with (contents s) in Hq. pose proof (dispatch_shape s1 (next s) Hs1) as Hs2.
  assert (consistent s') as Hc'.
  { subst s'. apply dispatch_consistent; [done|cbn; lia|by split|by apply new_routine_consistent]. }
  rewrite Hb in Hres, Hi, Hq. rewrite Hs' in *. cbn [andb] in Hq. rewrite Hj in Hid, Hres, Hi, Hlk. cbn in Hid, Hres, Hi, Hlk.
  symmetry in Hres. apply bool_decide_eq_true in Hres. rewrite Hid. change (id_cr_ s1) with (id_cr_ s) in *.
  assert (id_cr_ s' !! id = Some (next s)) as Hreg by (rewrite Hi; by rewrite lookup_insert_eq).
  split_and!; [done|done| | |].
  - unfold NotifyTask. rewrite Hstop. cbn. rewrite Hst, notify_result, Hreg, bool_decide_true by eauto. apply orb_true_r.
  - intros x Hx. rewrite dispatch_result, Hx, Hreg. by apply bool_decide_false.
  - destruct (remove_free s' id (next s) Hs2 Hc' Hreg Hlk) as (s2 & Hr & _ & Hf & Hi2 & Hcont).
    exists s2. split_and!; [done..| |].
    + rewrite Hi2, Hi. by rewrite delete_insert_id.
    + intros pl. rewrite Hcont. assert (filter (fun x => x <> next s) (contents s pl) = contents s pl) as Hfl.
      { apply filter_id_elem. intros x Hx ->. by eapply Huq. }
      case_decide as Hpl.
      * rewrite (Hq pl), bool_decide_true by done. rewrite filter_cons, decide_False by tauto. by rewrite Hfl.
      * rewrite (Hq pl), bool_decide_false by congruence. done.
Qed.

(** C16: [Shutdown], when no processor holds a coroutine, ends with nothing registered, empty queues
    and every task that was registered stopped, in whatever order the registry is walked; then
    tasks are refused, and a second shutdown changes nothing. *)
Theorem Shutdown_clears {P : Policy} {HL : LawfulPolicy} `{!HashOrder} {M} `{!KeyedStore M string} (Hash : string -> Z)
    (s : rt) (g : @GlobalData M) name now :
  sched_ok s -> stop_ s = false -> (forall c j, id_cr_ s !! c = Some j -> lock_ (heap s j) = false) ->
  exists s', Shutdown s = Some s' /\ id_cr_ s' = ∅ /\ (forall pl, contents s' pl = []) /\
    (forall c j, id_cr_ s !! c = Some j -> force_stop_ (heap s' j) = true) /\
    CreateTask Hash s' g name now = Some (false, s', g) /\ Shutdown s' = Some s'.
Proof.
  intros [Hc Hs] Hst Hl. specialize (Hs Hst).
  destruct (shutdown_ctxs (set_stop s) (seq 0 (length (pctxs_ s)))) as (Hh & Hn & Hi & Ht & Hk & Hq).
  set (s1 := foldl Shutdown_ctx (set_stop s) (seq 0 (length (pctxs_ s)))) in *.
  assert (consistent s1) as Hc1.
  { apply (frame_consistent s s1 Hn Hi Hq); [intros x; by rewrite Hh|done]. }
  assert (NoDup (cr_list s1)) as Hnd.
  { unfold cr_list. rewrite rehash_perm. apply (NoDup_fmap_2_strong _ _); [|apply NoDup_map_to_list].
    intros [c j] [c' j'] H1%elem_of_map_to_list H2%elem_of_map_to_list Heq. cbn in Heq.
    apply (c_reg _ Hc1) in H1 as H1', H2 as H2'. destruct H1' as (_ & He1 & _), H2' as (_ & He2 & _).
    assert (c = c') as <- by congruence. congruence. }
  destruct (remove_all_free (cr_list s1) s1) as (s2 & Hall & _ & Hf); [exact (shape_kind s s1 Hk Hs)|done..| |].
  { intros c j. rewrite Hi, Hh. apply Hl. }
  assert (Shutdown s = Some (with_ctxs s2 [])) as Hsd by (unfold Shutdown; rewrite Hst; fold s1; by rewrite Hall).
  destruct (Shutdown_consistent s _ Hs Hc Hst Hsd) as (_ & Hst2 & He & Hempty).
  exists (with_ctxs s2 []). split_and!; [done..| | |].
  - intros c j Hj. apply (Hf c); [|by rewrite Hi]. unfold cr_list. rewrite rehash_perm. apply list_elem_of_fmap.
    exists (c, j). split; [|apply elem_of_map_to_list; by rewrite Hi]. rewrite Hh. destruct (c_reg _ Hc c j Hj) as (_ & He' & _). exact (eq_sym He').
  - unfold CreateTask. by rewrite Hst2.
  - unfold Shutdown. by rewrite Hst2.
Qed.

(** ** Examples

    A classic policy with two groups and a choreography policy with two processors; names hash to
    their length. *)
Definition ex_confs : gmap string (Z * string) := {[ "camera"%string := (25, "grp_b"%string); "lidar"%string := (7, "grp_b"%string) ]}.
Definition ex_groups : list string := ["grp_a"; "grp_b"]%string.
Definition ex_classic : Policy := SchedulerClassic ex_confs ex_groups.
Definition ex_choreo : Policy := SchedulerChoreography {[ "camera"%string := (3, Some 1) ]} 2.
Definition ex_hash (n : string) : Z := Z.of_nat (String.length n).
Definition ex_global : @GlobalData (AtomicHashMap string) := GlobalData_new.

#[global] Instance ex_choreo_lawful : @LawfulPolicy ex_choreo := SchedulerChoreography_lawful _ 2.
#[global] Instance ex_classic_lawful : @LawfulPolicy ex_classic := SchedulerClassic_lawful _ _.

Definition ex_ops : list sop :=
  [OCreate "camera" 0; OCreate "lidar" 0; OCreate "gps" 0; OTake 0 (fun _ => 1); ONotify 5].
Definition ex_state (P : Policy) (ctxs : list pctx) : rt := (srun (P := P) (H := recent_first) ex_hash (rt_init ctxs, ex_global) ex_ops).1.

Lemma NextRoutine_first_available_witness :
  let s := ex_state ex_classic (CreateProcessor_classic [("grp_a", 1%nat); ("grp_b", 1%nat)]%string) in
  (NextRoutine s (fun _ => 1) (ClassicContext "grp_b" false)).1 = Some 0%nat /\
  snd <$> list_find (fun j => available (fun _ => 1) (heap s) j = true) (order s (ClassicContext "grp_b" false)) = Some 0%nat.
Proof.
  intros s. assert (NoDup (order s (ClassicContext "grp_b" false))) as Hnd.
  { apply (bool_decide_unpack _). vm_compute. reflexivity. }
  pose proof (NextRoutine_first_available s (fun _ => 1) (ClassicContext "grp_b" false) [] eq_refl Hnd) as (H1 & _).
  split; [vm_compute; reflexivity|]. rewrite <- H1. vm_compute. reflexivity.
Defined.

Definition ex_start : rt := rt_init (CreateProcessor_choreography 2 1).

Lemma task_create_remove_witness :
  exists s' g', CreateTask (P := ex_choreo) ex_hash ex_start ex_global "camera" 0 = Some (true, s', g') /\
    contents s' (Proc 1) = [0%nat] /\
    exists s'', RemoveCRoutine (Policy := ex_choreo) s' 6 = Some (true, s'') /\ id_cr_ s'' = ∅.
Proof.
  destruct (CreateTask (P := ex_choreo) ex_hash ex_start ex_global "camera" 0) as [[[b s'] g']|] eqn:E; [|vm_compute in E; discriminate].
  assert (b = true) as Hb.
  { apply (f_equal (fmap (fun x => fst (fst x)))) in E. vm_compute in E. congruence. }
  rewrite Hb in E. exists s', g'. split; [by rewrite Hb|].
  assert (contents s' (Proc 1) = [0%nat] /\ cr_id (heap s' 0%nat) = 6) as [Hq Hid].
  { apply (f_equal (fmap (fun x => (contents x.1.2 (Proc 1), cr_id (heap x.1.2 0%nat))))) in E.
    assert (Some ([0%nat], 6) = (fun x => (contents x.1.2 (Proc 1), cr_id (heap x.1.2 0%nat))) <$> Some (true, s', g')) as E'
      by (rewrite <- E; vm_compute; reflexivity).
    cbn in E'. injection E' as H1 H2. by rewrite H1, H2. }
  split; [exact Hq|].
  pose proof (task_create_remove (P := ex_choreo) ex_hash ex_start s' ex_global g' "camera" 0
    (CreateProcessor_choreography_ok _ 2 1) eq_refl E) as (_ & _ & _ & _ & s'' & Hr & _ & Hi & _).
  change (next ex_start) with 0%nat in Hr. rewrite Hid in Hr. exists s''. split; [exact Hr|exact Hi].
Defined.

(** Three tasks are created, one is taken by a processor and given back, and another removed. *)
Definition busy_ops : list sop := [OCreate "camera" 0; OCreate "lidar" 0; OCreate "gps" 0; OTake 0 (fun _ => 1); OFinish 0 READY 0; ORemove "gps"].
Definition busy : rt := (srun (P := ex_choreo) (H := recent_first) ex_hash (ex_start, ex_global) busy_ops).1.

Lemma Shutdown_clears_witness :
  base.size (id_cr_ busy) = 2%nat /\ contents busy (Proc 1) = [0%nat] /\ contents busy (place_of (Policy := ex_choreo) (heap busy 1%nat)) = [1%nat] /\
  exists s', Shutdown (P := ex_choreo) (H := recent_first) busy = Some s' /\ id_cr_ s' = ∅ /\ contents s' (Proc 1) = [] /\ force_stop_ (heap s' 0%nat) = true.
Proof.
  do 3 (split; [vm_compute; reflexivity|]).
  assert (Hok : sched_ok (P := ex_choreo) busy) by (apply (srun_ok (P := ex_choreo) ex_hash (ex_start, ex_global)); apply (CreateProcessor_choreography_ok _ 2 1)).
  assert (Hst : stop_ busy = false) by (vm_compute; reflexivity).
  assert (Hl : map_Forall (fun (_ : Z) j => lock_ (heap busy j) = false) (id_cr_ busy)) by (apply (bool_decide_unpack _); vm_compute; exact I).
  assert (Hc : id_cr_ busy !! 6 = Some 0%nat) by (vm_compute; reflexivity).
  destruct (Shutdown_clears (P := ex_choreo) (H := recent_first) ex_hash busy ex_global "camera" 0 Hok Hst) as (s' & Hs & Hi & Hq & Hf & _); [intros c j Hj; exact (Hl c j Hj)|].
  exists s'. split; [exact Hs|]. split; [exact Hi|]. split; [apply Hq|exact (Hf 6 0%nat Hc)].
Defined.

(** [CreateTask] gives a task the id [RegisterTaskName] finds for it, [RemoveTask] uses the bare hash
    of the name: of two tasks whose names collide the second cannot be removed by its name, and
    removing it takes the first. *)
Lemma RemoveTask_takes_other :
  let ops := [OCreate "gps" 0; OCreate "imu" 0; ORemove "imu"]%string in
  let s := (srun (P := ex_classic) (H := recent_first) ex_hash (rt_init [], ex_global) ops).1 in
  id_cr_ s !! 3 = None /\ id_cr_ s !! 4 = Some 1%nat /\
  cr_name (heap s 0%nat) = "gps"%string /\ cr_name (heap s 1%nat) = "imu"%string /\
  force_stop_ (heap s 0%nat) = true /\ force_stop_ (heap s 1%nat) = false.
Proof. vm_compute. by split_and!. Qed.
