(* ===== verification/PinThread.v ===== *)
(** * Processor sets: scheduler/common/pin_thread.cc

    The configuration names the processors of a thread as "0-3,8": [ParseCpuset] reads such a list,
    [SetSchedAffinity] chooses the processors of a thread from it.  [std::getline] with a delimiter is
    written out; the calls to the operating system are what is returned. *)

From Stdlib Require Import ZArith Lia Ascii String.
From stdpp Require Import base strings list.
From S2P Require Import Prelude Decimal.

(** [while (getline(ss, l, d))]: [cur] are the characters of the current line.  A line ends at a
    delimiter, or at the end of the stream when it has characters. *)
Fixpoint getlines (d : ascii) (cur : string) (s : string) : list string :=
  match s with
  | EmptyString => if decide (cur = "") then [] else [cur]
  | String c s => if decide (c = d) then cur :: getlines d "" s else getlines d (cur +:+ String c "") s
  end.

(** [Exit] is [exit(0)], [Throw] an exception of [std::stoi]. *)
Inductive outcome := Cpus (l : list Z) | Exit | Throw.

(** One line; [seqZ] is the loop [for (int i = first, e = last; i <= e; i++)], whose counter
    overflows only for the largest [int]. *)
Definition parse_line (line : string) : outcome :=
  match getlines "-" "" line with
  | [a] => match stoi a with Some n => Cpus [n] | None => Throw end
  | [a; b] => match stoi a, stoi b with Some i, Some e => Cpus (seqZ i (e - i + 1)) | _, _ => Throw end
  | _ => Exit
  end.

Fixpoint parse_lines (lines : list string) (cpuset : list Z) : outcome :=
  match lines with
  | [] => Cpus cpuset
  | line :: lines => match parse_line line with Cpus l => parse_lines lines (cpuset ++ l) | o => o end
  end.

Definition ParseCpuset (str : string) (cpuset : list Z) : outcome := parse_lines (getlines "," "" str) cpuset.

(** [SetSchedAffinity]: the set given to [pthread_setaffinity_np], when it is called. *)
Definition SetSchedAffinity (cpus : list Z) (affinity : string) (cpu_id : Z) : option (list Z) :=
  if decide (cpus = []) then None
  else if decide (affinity = "range") then Some cpus
  else if decide (affinity = "1to1") then
    if (cpu_id =? -1) || (Z.of_nat (length cpus) <=? u32 cpu_id) then None else (fun c => [c]) <$> cpus !! Z.to_nat cpu_id
  else None.

(** [SetSchedPolicy]: the policy for the thread with its priority, or the niceness of the thread [tid]. *)
Inductive sched_call := setschedparam (policy : string) (prio : Z) | setpriority (tid prio : Z).
Definition SetSchedPolicy (spolicy : string) (sched_priority tid : Z) : option sched_call :=
  if decide (spolicy = "SCHED_FIFO") then Some (setschedparam spolicy sched_priority)
  else if decide (spolicy = "SCHED_RR") then Some (setschedparam spolicy sched_priority)
  else if decide (spolicy = "SCHED_OTHER") then Some (setpriority tid sched_priority)
  else None.

(** ** Lines *)
Fixpoint free (d : ascii) (s : string) : bool := match s with EmptyString => true | String c s => negb (bool_decide (c = d)) && free d s end.

Lemma free_app d a b : free d (a +:+ b) = free d a && free d b.
Proof. induction a as [|c a IH]; [done|]. rewrite sapp_cons. cbn [free]. by rewrite IH, andb_assoc. Qed.

Lemma getlines_word d cur p s : free d p = true -> getlines d cur (p +:+ s) = getlines d (cur +:+ p) s.
Proof.
  revert cur. induction p as [|c p IH]; intros cur; [by rewrite sapp_nil|]. cbn [free]. intros [Hc Hp]%andb_true_iff. rewrite sapp_cons. cbn [getlines].
  apply negb_true_iff, bool_decide_eq_false in Hc. rewrite decide_False by done. rewrite IH by done. by rewrite sapp_assoc, sapp_cons.
Qed.

(** Lines joined by the delimiter. *)
Fixpoint join (d : ascii) (l : list string) : string :=
  match l with [] => "" | [x] => x | x :: l => x +:+ String d (join d l) end.

Lemma getlines_join d l : Forall (fun x => x <> "" /\ free d x = true) l -> getlines d "" (join d l) = l.
Proof.
  induction l as [|x l IH]; intros Hl; [done|]. apply Forall_cons in Hl as [[Hx Hf] Hl]. cbn [join]. destruct l as [|y l].
  - pose proof (getlines_word d "" x "" Hf) as Hw. rewrite sapp_nil in Hw. rewrite Hw. cbn [getlines]. change ("" +:+ x) with x. by rewrite decide_False.
  - rewrite getlines_word by done. change ("" +:+ x) with x. cbn [getlines]. rewrite decide_True by done. f_equal. by apply IH.
Qed.

(** Decimal numbers contain no delimiter. *)
Lemma decimal_free d fuel n : 0 <= n -> digit_value d = None -> free d (decimal fuel n) = true.
Proof.
  intros Hn Hd. revert n Hn. induction fuel as [|fuel IH]; intros n Hn; [done|].
  assert (Hdig : forall k, 0 <= k < 10 -> free d (String (digit k) "") = true).
  { intros k Hk. cbn. rewrite andb_true_r. apply negb_true_iff, bool_decide_eq_false. intros <-. by rewrite digit_value_digit in Hd. }
  cbn [decimal]. zcase; [by apply Hdig|]. rewrite free_app, IH by (apply Z.div_pos; lia). apply Hdig. apply Z.mod_pos_bound. lia.
Qed.

Lemma to_string_word d n : 0 <= n -> digit_value d = None -> to_string n <> "" /\ free d (to_string n) = true.
Proof.
  intros Hn Hd. unfold to_string. zcase; [lia|]. split; [|by apply decimal_free].
  destruct (decimal_head 20 n) as (k & s & -> & _); [lia|lia|done].
Qed.

(** ** Lists of processors *)
Inductive item := One (n : Z) | Range (first last : Z).
Definition print_item (i : item) : string := match i with One n => to_string n | Range a b => join "-" [to_string a; to_string b] end.
Definition cpus_of (i : item) : list Z := match i with One n => [n] | Range a b => seqZ a (b - a + 1) end.
Definition item_ok (i : item) : Prop := match i with One n => 0 <= n < two31 | Range a b => 0 <= a < two31 /\ 0 <= b < two31 - 1 end.
Definition print_cpuset (l : list item) : string := join "," (print_item <$> l).

Lemma parse_print_item i : item_ok i -> parse_line (print_item i) = Cpus (cpus_of i).
Proof.
  intros Hi. unfold parse_line. assert (Hg : getlines "-" "" (print_item i) = match i with One n => [to_string n] | Range a b => [to_string a; to_string b] end).
  { destruct i as [n|a b]; cbn [print_item item_ok] in *.
    - apply (getlines_join "-" [to_string n]). apply Forall_singleton, to_string_word; [lia|done].
    - apply (getlines_join "-" [to_string a; to_string b]). apply Forall_cons. split; [|apply Forall_singleton]; (apply to_string_word; [lia|done]). }
  rewrite Hg. destruct i as [n|a b]; cbn [item_ok cpus_of] in *; rewrite !stoi_to_string by word_lia; done.
Qed.

Lemma print_item_word i : item_ok i -> print_item i <> "" /\ free "," (print_item i) = true.
Proof.
  destruct i as [n|a b]; cbn [print_item item_ok join]; intros Hi; [apply to_string_word; [lia|done]|].
  destruct (to_string_word "," a) as [Ha Hfa]; [lia|done|]. destruct (to_string_word "," b) as [_ Hfb]; [lia|done|].
  split; [by destruct (to_string a)|]. rewrite free_app, Hfa. cbn [free]. by rewrite Hfb.
Qed.

Lemma parse_lines_items l cpuset : Forall item_ok l -> parse_lines (print_item <$> l) cpuset = Cpus (cpuset ++ concat (cpus_of <$> l)).
Proof.
  revert cpuset. induction l as [|i l IH]; intros cpuset Hl; [by rewrite app_nil_r|]. apply Forall_cons in Hl as [Hi Hl].
  cbn [fmap list_fmap parse_lines concat]. rewrite parse_print_item by done. rewrite IH by done. by rewrite (assoc (++)).
Qed.

(** Writing processors and ranges of processors as a list with "," and "-" and parsing it with
    [ParseCpuset] appends exactly these processors in their order. *)
Theorem cpuset_round_trip l cpuset :
  Forall item_ok l -> ParseCpuset (print_cpuset l) cpuset = Cpus (cpuset ++ concat (cpus_of <$> l)).
Proof.
  intros Hl. unfold ParseCpuset, print_cpuset. rewrite getlines_join; [by apply parse_lines_items|].
  apply Forall_fmap. eapply Forall_impl; [exact Hl|]. intros i. apply print_item_word.
Qed.

Lemma cpuset_round_trip_witness : ParseCpuset (print_cpuset [Range 0 3; One 8]) [] = Cpus [0; 1; 2; 3; 8].
Proof. apply (cpuset_round_trip [Range 0 3; One 8] []). repeat constructor; vm_compute; congruence. Defined.

(** [ParseCpuset] on any string: it gives the processors of all lines when each line is a number
    or a range; otherwise the first bad line decides, and ends the process when it has no part or
    more than two, and throws when a part is not a number of type [int]. *)
Theorem ParseCpuset_outcome str cpuset :
  match ParseCpuset str cpuset with
  | Cpus l => exists ls, l = cpuset ++ concat ls /\ (Cpus <$> ls) = (parse_line <$> getlines "," "" str)
  | o => exists ls line rest, getlines "," "" str = ls ++ line :: rest /\ (forall x, x ∈ ls -> exists c, parse_line x = Cpus c) /\
      parse_line line = o /\
      (o = Exit <-> length (getlines "-" "" line) <> 1%nat /\ length (getlines "-" "" line) <> 2%nat)
  end.
Proof.
  unfold ParseCpuset. generalize (getlines "," "" str). intros lines. revert cpuset. induction lines as [|x lines IH]; intros cpuset.
  - exists []. split; [by rewrite app_nil_r|done].
  - cbn [parse_lines]. destruct (parse_line x) as [c| |] eqn:Hx.
    + specialize (IH (cpuset ++ c)). destruct (parse_lines lines (cpuset ++ c)).
      * destruct IH as (ls & -> & Hls). exists (c :: ls). split; [by rewrite <- (assoc (++))|]. cbn [fmap list_fmap]. rewrite Hx. by f_equal.
      * destruct IH as (ls & line & rest & -> & Hls & H1 & H2). exists (x :: ls), line, rest. split_and!; try done. intros y [->|Hy]%elem_of_cons; [by exists c|by apply Hls].
      * destruct IH as (ls & line & rest & -> & Hls & H1 & H2). exists (x :: ls), line, rest. split_and!; try done. intros y [->|Hy]%elem_of_cons; [by exists c|by apply Hls].
    + exists [], x, lines. split_and!; try done; [by intros y ?%not_elem_of_nil|]. split; [intros _|done]. revert Hx. unfold parse_line.
      destruct (getlines "-" "" x) as [|a [|b [|e g]]]; try done; repeat case_match; done.
    + exists [], x, lines. split_and!; try done; [by intros y ?%not_elem_of_nil|]. split; [done|]. revert Hx. unfold parse_line.
      destruct (getlines "-" "" x) as [|a [|b [|e g]]]; cbn; try done; intros _ [? ?]; done.
Qed.

(** An empty part of the list ends the process, with status 0. *)
Theorem empty_part_exits : ParseCpuset "0-1,,2" [] = Exit /\ ParseCpuset "0-1,2," [] = Cpus [0; 1; 2] /\ ParseCpuset "5-" [] = Cpus [5] /\ ParseCpuset "-5" [] = Throw.
Proof. vm_compute. auto. Qed.

(** With "1to1" a thread whose number is beyond the list is not pinned. *)
Lemma one_to_one cpus cpu_id : cpus <> [] -> 0 <= cpu_id < two31 ->
  SetSchedAffinity cpus "1to1" cpu_id = (fun c => [c]) <$> cpus !! Z.to_nat cpu_id.
Proof.
  intros Hc Hi. unfold SetSchedAffinity. rewrite decide_False by done. cbn [decide]. rewrite (decide_False (P := "1to1" = "range")) by done. rewrite decide_True by done.
  rewrite u32_small by word_lia. destruct (Z.eqb_spec cpu_id (-1)); [lia|]. cbn [orb]. zcase; [|done].
  rewrite lookup_ge_None_2; [done|lia].
Qed.
