(* ===== verification/ClassLoader.v ===== *)
(** * Class loaders: class_loader/, mainboard/module_controller.cc

    Components live in shared libraries.  Loading a library registers a factory for each of its classes;
    a [ClassLoader] attaches itself to the factories of its library, makes objects through them and
    counts the objects; when the last loader of a library detaches, its factories are destroyed and the
    library is closed.  A [ClassLoaderManager] keeps one loader per library, a [ModuleController] loads
    the components of a configuration and clears them away.

    [lib path] are the pairs of base class and class that the static initialisers of the library at
    [path] register, [None] when it cannot be loaded.  Base classes are named as [typeid] names them.
    Loaders and objects are numbered; the operations run one after the other. *)

From Stdlib Require Import ZArith Lia.
From stdpp Require Import base gmap sets strings list sorting.
From S2P Require Import Prelude.

Record AbstractClassFactoryBase := mkFactory { relative_class_loaders_ : list (option nat); relative_library_path_ : string; base_class_name_ : string; class_name_ : string }.

(** Class loaders are pointers; the null pointer stands for registrations outside of any loading. *)
Definition AddOwnedClassLoader (f : AbstractClassFactoryBase) (l : option nat) : AbstractClassFactoryBase :=
  if decide (l ∈ relative_class_loaders_ f) then f
  else mkFactory (relative_class_loaders_ f ++ [l]) (relative_library_path_ f) (base_class_name_ f) (class_name_ f).
Definition RemoveOwnedClassLoader (f : AbstractClassFactoryBase) (l : option nat) : AbstractClassFactoryBase :=
  match list_find (fun x => x = l) (relative_class_loaders_ f) with
  | Some (i, _) => mkFactory (delete i (relative_class_loaders_ f)) (relative_library_path_ f) (base_class_name_ f) (class_name_ f)
  | None => f
  end.
Definition IsOwnedBy (f : AbstractClassFactoryBase) (l : option nat) : bool := bool_decide (l ∈ relative_class_loaders_ f).
Definition IsOwnedByAnybody (f : AbstractClassFactoryBase) : bool := negb (bool_decide (relative_class_loaders_ f = [])).
Definition SetRelativeLibraryPath (f : AbstractClassFactoryBase) (path : string) : AbstractClassFactoryBase :=
  mkFactory (relative_class_loaders_ f) path (base_class_name_ f) (class_name_ f).

Record ClassLoader := mkLoader { library_path_ : string; loadlib_ref_count_ : Z; classobj_ref_count_ : Z }.

(** An object, for the theorems with the library whose code it runs. *)
Record Object := mkObject { o_loader : nat; o_base : string; o_class : string; o_library : string }.

(** [std::map] of base classes, each with a [std::map] of classes. *)
Abbreviation FactoryMapMap := (gmap string (gmap string AbstractClassFactoryBase)).

(** The process: the static variables of class_loader_utility.cc, the heap of loaders and objects.
    [broken]: code of a closed library was run, or a deleted loader used. *)
Record process := mkProcess {
  factory_map_map : FactoryMapMap;
  opened_libraries : list string;
  cur_loader : option nat;
  cur_library : string;
  loaders : gmap nat ClassLoader;
  objects : gmap nat Object;
  next_id : nat;
  broken : bool
}.

Definition with_factories (s : process) m := mkProcess m (opened_libraries s) (cur_loader s) (cur_library s) (loaders s) (objects s) (next_id s) (broken s).
Definition with_opened (s : process) l := mkProcess (factory_map_map s) l (cur_loader s) (cur_library s) (loaders s) (objects s) (next_id s) (broken s).
Definition with_current (s : process) l p := mkProcess (factory_map_map s) (opened_libraries s) l p (loaders s) (objects s) (next_id s) (broken s).
Definition with_loaders (s : process) m := mkProcess (factory_map_map s) (opened_libraries s) (cur_loader s) (cur_library s) m (objects s) (next_id s) (broken s).
Definition with_objects (s : process) m n := mkProcess (factory_map_map s) (opened_libraries s) (cur_loader s) (cur_library s) (loaders s) m n (broken s).
Definition with_broken (s : process) b := mkProcess (factory_map_map s) (opened_libraries s) (cur_loader s) (cur_library s) (loaders s) (objects s) (next_id s) (broken s || b).

Definition process_new : process := mkProcess ∅ [] None "" ∅ ∅ 0 false.

(** A [std::map] is walked in the order of its keys. *)
Definition key_le {A} (x y : string * A) : Prop := String.leb x.1 y.1 = true.
#[export] Instance key_le_dec {A} : RelDecision (key_le (A := A)) := fun x y => decide (String.leb x.1 y.1 = true).
Definition in_order {A} (m : gmap string A) : list (string * A) := merge_sort key_le (map_to_list m).

Section Utility.
Context (lib : string -> option (list (string * string))).

Definition GetClassFactoryMapByBaseClass (s : process) (b : string) : gmap string AbstractClassFactoryBase * process :=
  (default ∅ (factory_map_map s !! b), with_factories s (<[b := default ∅ (factory_map_map s !! b)]> (factory_map_map s))).

Definition GetAllClassFactoryObjects (s : process) : list AbstractClassFactoryBase :=
  mjoin ((fun e => (in_order e.2).*2) <$> in_order (factory_map_map s)).
Definition GetAllClassFactoryObjectsOfLibrary (s : process) (path : string) : list AbstractClassFactoryBase :=
  filter (fun f => relative_library_path_ f = path) (GetAllClassFactoryObjects s).

(** Changing, or erasing, the factories of a library where they are. *)
Definition on_factories (path : string) (f : AbstractClassFactoryBase -> option AbstractClassFactoryBase) (m : FactoryMapMap) : FactoryMapMap :=
  fmap (M := gmap string) (omap (M := gmap string) (fun x => if decide (relative_library_path_ x = path) then f x else Some x)) m.

Definition DestroyClassFactoryObjectsOfLibrary (s : process) (path : string) (l : option nat) : process :=
  with_factories s (on_factories path (fun x =>
    if IsOwnedBy x l then
      let x := RemoveOwnedClassLoader x l in
      if negb (IsOwnedByAnybody x) then None else Some x
    else Some x) (factory_map_map s)).

Definition IsLibraryLoadedByAnybody (s : process) (path : string) : bool := bool_decide (path ∈ opened_libraries s).

Definition utility_IsLibraryLoaded (s : process) (path : string) (l : option nat) : bool :=
  let any := IsLibraryLoadedByAnybody s path in
  let objs := GetAllClassFactoryObjectsOfLibrary s path in
  if any && (length objs =? 0)%nat then true
  else any && (length (filter (fun f => IsOwnedBy f l = true) objs) <=? length objs)%nat.

Definition RegisterClass (s : process) (class_name base_class_name : string) : process :=
  let f := AddOwnedClassLoader (mkFactory [] "" base_class_name class_name) (cur_loader s) in
  let f := SetRelativeLibraryPath f (cur_library s) in
  let '(m, s) := GetClassFactoryMapByBaseClass s base_class_name in
  with_factories s (<[base_class_name := <[class_name := f]> m]> (factory_map_map s)).

Definition utility_LoadLibrary (s : process) (path : string) (l : option nat) : bool * process :=
  if IsLibraryLoadedByAnybody s path then
    (true, with_factories s (on_factories path (fun x => Some (AddOwnedClassLoader x l)) (factory_map_map s)))
  else
    let s := with_current s l path in
    match lib path with
    | None => (false, with_current s None "")
    | Some classes =>
        let s := foldl (fun s e => RegisterClass s e.2 e.1) s classes in
        let s := with_current s None "" in
        (true, with_opened s (opened_libraries s ++ [path]))
    end.

Definition utility_UnloadLibrary (s : process) (path : string) (l : option nat) : process :=
  match list_find (fun x => x = path) (opened_libraries s) with
  | None => s
  | Some (i, _) =>
      let s := DestroyClassFactoryObjectsOfLibrary s path l in
      match GetAllClassFactoryObjectsOfLibrary s path with
      | [] => with_opened s (delete i (opened_libraries s))
      | _ => s
      end
  end.

(** The new object's loader is [l]; [dynamic_cast] succeeds on the factories of a base class. *)
Definition utility_CreateClassObj (s : process) (b c : string) (l : option nat) : option string * process :=
  let '(m, s) := GetClassFactoryMapByBaseClass s b in
  (match m !! c with Some f => if IsOwnedBy f l then Some (relative_library_path_ f) else None | None => None end, s).

Definition utility_GetValidClassNames (s : process) (b : string) (l : option nat) : list string * process :=
  let '(m, s) := GetClassFactoryMapByBaseClass s b in
  ((filter (fun e => IsOwnedBy e.2 l = true) (in_order m)).*1, s).

(** ** ClassLoader *)
Definition loader_of (s : process) (l : nat) : ClassLoader := default (mkLoader "" 0 0) (loaders s !! l).
Definition upd_loader (s : process) (l : nat) (f : ClassLoader -> ClassLoader) : process :=
  with_broken (with_loaders s (alter f l (loaders s))) (bool_decide (loaders s !! l = None)).
Definition set_loadlib (n : Z) (x : ClassLoader) : ClassLoader := mkLoader (library_path_ x) n (classobj_ref_count_ x).
Definition set_classobj (n : Z) (x : ClassLoader) : ClassLoader := mkLoader (library_path_ x) (loadlib_ref_count_ x) n.

Definition IsLibraryLoaded (s : process) (l : nat) : bool := utility_IsLibraryLoaded s (library_path_ (loader_of s l)) (Some l).

Definition LoadLibrary (s : process) (l : nat) : bool * process :=
  let s := upd_loader s l (fun x => set_loadlib (loadlib_ref_count_ x + 1) x) in
  utility_LoadLibrary s (library_path_ (loader_of s l)) (Some l).

Definition UnloadLibrary (s : process) (l : nat) : Z * process :=
  let x := loader_of s l in
  if 0 <? classobj_ref_count_ x then (loadlib_ref_count_ x, upd_loader s l id)
  else
    let n := loadlib_ref_count_ x - 1 in
    let s := upd_loader s l (set_loadlib n) in
    if n =? 0 then (0, utility_UnloadLibrary s (library_path_ x) (Some l))
    else if n <? 0 then (0, upd_loader s l (set_loadlib 0))
    else (n, s).

Definition ClassLoader_new (s : process) (path : string) : nat * process :=
  let l := next_id s in
  let s := with_objects (with_loaders s (<[l := mkLoader path 0 0]> (loaders s))) (objects s) (S l) in
  (l, (LoadLibrary s l).2).
Definition ClassLoader_delete (s : process) (l : nat) : process :=
  let s := (UnloadLibrary s l).2 in with_loaders s (delete l (loaders s)).

Definition GetValidClassNames (s : process) (l : nat) (b : string) : list string * process := utility_GetValidClassNames s b (Some l).
Definition IsClassValid (s : process) (l : nat) (b c : string) : bool * process :=
  let r := GetValidClassNames s l b in (bool_decide (c ∈ r.1), r.2).

Definition CreateClassObj (s : process) (l : nat) (b c : string) : option nat * process :=
  let s := if negb (IsLibraryLoaded s l) then (LoadLibrary s l).2 else s in
  match utility_CreateClassObj s b c (Some l) with
  | (None, s) => (None, s)
  | (Some path, s) =>
      let s := upd_loader s l (fun x => set_classobj (classobj_ref_count_ x + 1) x) in
      let o := next_id s in
      (Some o, with_objects s (<[o := mkObject l b c path]> (objects s)) (S o))
  end.

(** The last pointer to object [o] goes: [OnClassObjDeleter] runs its destructor. *)
Definition OnClassObjDeleter (s : process) (o : nat) : process :=
  match objects s !! o with
  | None => s
  | Some x =>
      let s := with_broken (with_objects s (delete o (objects s)) (next_id s)) (negb (bool_decide (o_library x ∈ opened_libraries s))) in
      upd_loader s (o_loader x) (fun y => set_classobj (classobj_ref_count_ y - 1) y)
  end.
End Utility.

(** ** ClassLoaderManager *)
Section Manager.
Context (lib : string -> option (list (string * string))).

(** [libpath_loader_map_], which keeps a null pointer for a library that was unloaded. *)
Abbreviation LoaderMap := (gmap string (option nat)).

Definition GetClassLoaderByLibPath (m : LoaderMap) (path : string) : option nat * LoaderMap :=
  let x := default None (m !! path) in (x, <[path := x]> m).
Definition GetAllValidClassLoaders (m : LoaderMap) : list (option nat) := (in_order m).*2.
Definition GetAllValidLibPath (m : LoaderMap) : list string := (filter (fun e => e.2 <> None) (in_order m)).*1.
Definition IsLibraryValid (m : LoaderMap) (path : string) : bool := bool_decide (path ∈ GetAllValidLibPath m).

Definition Manager_LoadLibrary (s : process) (m : LoaderMap) (path : string) : bool * process * LoaderMap :=
  let '(s, m) := if negb (IsLibraryValid m path) then let '(l, s) := ClassLoader_new lib s path in (s, <[path := Some l]> m) else (s, m) in
  (IsLibraryValid m path, s, m).

Definition Manager_UnloadLibrary (s : process) (m : LoaderMap) (path : string) : Z * process * LoaderMap :=
  if IsLibraryValid m path then
    match GetClassLoaderByLibPath m path with
    | (Some l, m) =>
        let '(n, s) := UnloadLibrary s l in
        if n =? 0 then (n, ClassLoader_delete s l, <[path := None]> m) else (n, s, m)
    | (None, m) => (0, s, m)
    end
  else (0, s, m).

Definition UnloadAllLibrary (s : process) (m : LoaderMap) : process * LoaderMap :=
  foldl (fun r path => let '(_, s, m) := Manager_UnloadLibrary r.1 r.2 path in (s, m)) (s, m) (GetAllValidLibPath m).

(** [CreateClassObj(class_name)] asks the loaders one after the other, the null pointers too:
    [None] of a loader that is null is a call through it. *)
Fixpoint first_valid (s : process) (l : list (option nat)) (b c : string) : option (option nat) * process :=
  match l with
  | [] => (Some None, s)
  | None :: _ => (None, s)
  | Some x :: l => let '(v, s) := IsClassValid s x b c in if v then (Some (Some x), s) else first_valid s l b c
  end.
Definition Manager_CreateClassObj (s : process) (m : LoaderMap) (b c : string) : option (option nat * process) :=
  match first_valid s (GetAllValidClassLoaders m) b c with
  | (None, _) => None
  | (Some None, s) => Some (None, s)
  | (Some (Some l), s) => Some (CreateClassObj lib s l b c)
  end.
Definition Manager_CreateClassObj_in (s : process) (m : LoaderMap) (b c path : string) : option nat * process * LoaderMap :=
  match GetClassLoaderByLibPath m path with
  | (Some l, m) => (CreateClassObj lib s l b c, m)
  | (None, m) => (None, s, m)
  end.
End Manager.
Arguments in_order : simpl never.

(** ** Invariant *)
Section Proofs.
Context (lib : string -> option (list (string * string))).
Implicit Types (s : process) (f : AbstractClassFactoryBase) (l : nat) (b c path : string).

Definition classes path : list (string * string) := default [] (lib path).
Definition factory s b c : option AbstractClassFactoryBase := factory_map_map s !! b ≫= lookup c.

(** No class is registered by two libraries. *)
Definition own_classes : Prop := forall p q e, e ∈ classes p -> e ∈ classes q -> p = q.

(** A loader that has loaded its library and not unloaded it. *)
Definition holds s l path : Prop := exists x, loaders s !! l = Some x /\ library_path_ x = path /\ 0 < loadlib_ref_count_ x.

Record loaded_ok s : Prop := {
  lo_factory : forall b c f, factory s b c = Some f ->
    (b, c) ∈ classes (relative_library_path_ f) /\ relative_library_path_ f ∈ opened_libraries s /\
    relative_class_loaders_ f <> [] /\ NoDup (relative_class_loaders_ f) /\
    (forall x, x ∈ relative_class_loaders_ f -> exists l, x = Some l /\ holds s l (relative_library_path_ f));
  lo_open : NoDup (opened_libraries s) /\ forall path, path ∈ opened_libraries s -> lib path <> None /\ exists l, holds s l path;
  lo_attached : forall l path b c, holds s l path -> (b, c) ∈ classes path -> lib path <> None -> exists f, factory s b c = Some f /\ Some l ∈ relative_class_loaders_ f;
  lo_objects : forall o x, objects s !! o = Some x -> holds s (o_loader x) (o_library x) /\ (o_base x, o_class x) ∈ classes (o_library x);
  lo_count : forall l x, loaders s !! l = Some x -> 0 <= loadlib_ref_count_ x /\ classobj_ref_count_ x = Z.of_nat (size (filter (fun e => o_loader e.2 = l) (objects s)));
  lo_next : (forall l, is_Some (loaders s !! l) -> (l < next_id s)%nat) /\ (forall o, is_Some (objects s !! o) -> (o < next_id s)%nat);
  lo_current : cur_loader s = None /\ cur_library s = ""%string;
  lo_fine : broken s = false
}.

(** *** Factories *)
Lemma factory_on s path g b c :
  factory (with_factories s (on_factories path g (factory_map_map s))) b c =
    factory s b c ≫= fun x => if decide (relative_library_path_ x = path) then g x else Some x.
Proof.
  unfold factory, on_factories. cbn. rewrite lookup_fmap. destruct (factory_map_map s !! b) as [m|]; [|done]. cbn. by rewrite lookup_omap.
Qed.

Lemma factory_touched s b b' c : factory (GetClassFactoryMapByBaseClass s b').2 b c = factory s b c.
Proof.
  unfold factory. cbn. destruct (decide (b = b')) as [->|]; [rewrite lookup_insert_eq|by rewrite lookup_insert_ne].
  by destruct (factory_map_map s !! b').
Qed.

Lemma factory_registered s b c b' c' :
  factory (RegisterClass s c' b') b c =
    if decide ((b, c) = (b', c')) then Some (SetRelativeLibraryPath (AddOwnedClassLoader (mkFactory [] "" b' c') (cur_loader s)) (cur_library s)) else factory s b c.
Proof.
  unfold RegisterClass, factory. cbn. destruct (decide (b = b')) as [->|Hb].
  - rewrite lookup_insert_eq. cbn. destruct (decide (c = c')) as [->|Hc].
    + rewrite lookup_insert_eq. by rewrite decide_True.
    + rewrite lookup_insert_ne by done. rewrite decide_False by congruence. by destruct (factory_map_map s !! b').
  - rewrite !lookup_insert_ne by done. by rewrite decide_False by congruence.
Qed.

Lemma elem_in_order {A} (m : gmap string A) e : e ∈ in_order m <-> m !! e.1 = Some e.2.
Proof. unfold in_order. rewrite merge_sort_Permutation. destruct e. apply elem_of_map_to_list. Qed.

Lemma all_objects s path f :
  f ∈ GetAllClassFactoryObjectsOfLibrary s path <-> relative_library_path_ f = path /\ exists b c, factory s b c = Some f.
Proof.
  unfold GetAllClassFactoryObjectsOfLibrary, GetAllClassFactoryObjects. rewrite list_elem_of_filter. split.
  - intros [Hp Hf]. split; [done|]. apply list_elem_of_join in Hf as (L & Hf & HL). apply list_elem_of_fmap in HL as ([b m] & -> & Hm%elem_in_order).
    apply list_elem_of_fmap in Hf as ([c f'] & -> & Hc%elem_in_order). exists b, c. unfold factory. cbn in *. by rewrite Hm.
  - intros (Hp & b & c & Hf). split; [done|]. unfold factory in Hf. destruct (factory_map_map s !! b) as [m|] eqn:Hm; [|done]. cbn in Hf.
    apply list_elem_of_join. exists ((in_order m).*2). split.
    + apply list_elem_of_fmap. exists (c, f). split; [done|]. by apply elem_in_order.
    + apply list_elem_of_fmap. exists (b, m). split; [done|]. by apply elem_in_order.
Qed.

Lemma utility_IsLibraryLoaded_eq s path x : utility_IsLibraryLoaded s path x = IsLibraryLoadedByAnybody s path.
Proof.
  unfold utility_IsLibraryLoaded. destruct (IsLibraryLoadedByAnybody s path); [|done]. cbn [andb].
  destruct (Nat.eqb_spec (length (GetAllClassFactoryObjectsOfLibrary s path)) 0); [done|]. apply Nat.leb_le. apply length_filter.
Qed.

(** *** Loaders *)
Lemma upd_loader_eq s l g x : loaders s !! l = Some x -> upd_loader s l g = with_loaders s (<[l := g x]> (loaders s)).
Proof.
  intros Hx. unfold upd_loader, with_broken, with_loaders. cbn. rewrite bool_decide_false by congruence. rewrite orb_false_r. f_equal.
  apply map_eq. intros k. destruct (decide (k = l)) as [->|]; [|by rewrite lookup_alter_ne, lookup_insert_ne].
  by rewrite lookup_alter_eq, lookup_insert_eq, Hx.
Qed.
Lemma loader_of_eq s l x : loaders s !! l = Some x -> loader_of s l = x.
Proof. intros Hx. unfold loader_of. by rewrite Hx. Qed.

Lemma holds_set s l x l' path :
  holds (with_loaders s (<[l := x]> (loaders s))) l' path <->
    if decide (l' = l) then library_path_ x = path /\ 0 < loadlib_ref_count_ x else holds s l' path.
Proof.
  unfold holds. cbn. destruct (decide (l' = l)) as [->|]; [rewrite lookup_insert_eq|by rewrite lookup_insert_ne].
  split; [by intros (y & [= <-] & ?)|intros ?; by exists x].
Qed.

(** The library of a factory is the one that registers the class. *)
Lemma factory_library s b c f path : own_classes -> loaded_ok s -> factory s b c = Some f -> (b, c) ∈ classes path -> relative_library_path_ f = path.
Proof. intros Hu [] Hf Hp. destruct (lo_factory0 _ _ _ Hf) as (Hq & _). by apply (Hu _ _ (b, c)). Qed.

(** An object keeps its library open. *)
Lemma object_library s o x : own_classes -> loaded_ok s -> objects s !! o = Some x -> o_library x ∈ opened_libraries s.
Proof.
  intros Hu Hok Hx. pose proof Hok as []. destruct (lo_objects0 _ _ Hx) as [Hh Hc].
  assert (Hl : lib (o_library x) <> None) by (intros Hl; unfold classes in Hc; rewrite Hl in Hc; by apply not_elem_of_nil in Hc).
  destruct (lo_attached0 _ _ _ _ Hh Hc Hl) as (f & Hf & _). rewrite <- (factory_library _ _ _ _ _ Hu Hok Hf Hc). apply (lo_factory0 _ _ _ Hf).
Qed.

(** What registering the classes of a library does. *)
Lemma registered cs : forall s b c,
  factory (foldl (fun s e => RegisterClass s e.2 e.1) s cs) b c =
    (if decide ((b, c) ∈ cs) then Some (mkFactory [cur_loader s] (cur_library s) b c) else factory s b c) /\
  opened_libraries (foldl (fun s e => RegisterClass s e.2 e.1) s cs) = opened_libraries s /\
  loaders (foldl (fun s e => RegisterClass s e.2 e.1) s cs) = loaders s /\ objects (foldl (fun s e => RegisterClass s e.2 e.1) s cs) = objects s /\
  next_id (foldl (fun s e => RegisterClass s e.2 e.1) s cs) = next_id s /\ broken (foldl (fun s e => RegisterClass s e.2 e.1) s cs) = broken s.
Proof.
  induction cs as [|[b' c'] cs IH]; intros s b c; [done|]. cbn [foldl fst snd].
  destruct (IH (RegisterClass s c' b') b c) as (-> & -> & -> & -> & -> & ->). split; [|done].
  rewrite factory_registered. cbn [cur_loader cur_library RegisterClass GetClassFactoryMapByBaseClass].
  destruct (decide ((b, c) ∈ cs)); [by rewrite decide_True by by right|].
  destruct (decide ((b, c) = (b', c'))) as [[= -> ->]|]; [rewrite decide_True by left|rewrite decide_False by by intros [?|?]%elem_of_cons].
  - done.
  - done.
Qed.

(** Loader [l] of library [p] holds it now: the factories are those of [s] with [l] attached, or
    new ones of the library that was opened. *)
Section Attach.
Context (s s' : process) (l : nat) (x y : ClassLoader) (Hu : own_classes) (Hok : loaded_ok s) (Hx : loaders s !! l = Some x).
Context (Hl : loaders s' = <[l := y]> (loaders s)) (Hpath : library_path_ y = library_path_ x).
Context (Href : loadlib_ref_count_ y = loadlib_ref_count_ x + 1) (Hobj : classobj_ref_count_ y = classobj_ref_count_ x).
Context (Ho : objects s' = objects s) (Hn : next_id s' = next_id s) (Hb : broken s' = broken s) (Hc : cur_loader s' = None /\ cur_library s' = ""%string).
Let p := library_path_ x.

(** The library cannot be loaded, is open already, or is opened now. *)
Definition opens : Prop :=
  (lib p = None /\ opened_libraries s' = opened_libraries s /\ forall b c, factory s' b c = factory s b c) \/
  (lib p <> None /\ p ∈ opened_libraries s /\ opened_libraries s' = opened_libraries s /\
     forall b c, factory s' b c = factory s b c ≫= (fun f => if decide (relative_library_path_ f = p) then Some (AddOwnedClassLoader f (Some l)) else Some f)) \/
  (lib p <> None /\ p ∉ opened_libraries s /\ opened_libraries s' = opened_libraries s ++ [p] /\
     forall b c, factory s' b c = if decide ((b, c) ∈ classes p) then Some (mkFactory [Some l] p b c) else factory s b c).
Context (Hcase : opens).

Lemma attach_holds l' path : holds s' l' path <-> if decide (l' = l) then p = path else holds s l' path.
Proof.
  unfold holds. rewrite Hl. destruct (decide (l' = l)) as [->|]; [rewrite lookup_insert_eq|by rewrite lookup_insert_ne].
  pose proof (proj1 (lo_count _ Hok _ _ Hx)). unfold p.
  split; [intros (z & [= <-] & ? & ?); congruence|intros <-; exists y; split; [done|split; [done|lia]]].
Qed.
Lemma attach_mono l' path : holds s l' path -> holds s' l' path.
Proof. intros Hp. apply attach_holds. destruct (decide (l' = l)) as [->|]; [|done]. destruct Hp as (z & Hz & ? & _). unfold p. congruence. Qed.
Lemma attach_own : holds s' l p.
Proof. apply attach_holds. by rewrite decide_True. Qed.
Lemma attach_split l' path : holds s' l' path -> holds s l' path \/ l' = l /\ path = p.
Proof. intros Hp%attach_holds. destruct (decide (l' = l)) as [->|]; [right; auto|by left]. Qed.

Lemma attach_factory b c f : factory s' b c = Some f ->
  (b, c) ∈ classes (relative_library_path_ f) /\ relative_library_path_ f ∈ opened_libraries s' /\
  relative_class_loaders_ f <> [] /\ NoDup (relative_class_loaders_ f) /\
  (forall z, z ∈ relative_class_loaders_ f -> exists l', z = Some l' /\ holds s' l' (relative_library_path_ f)).
Proof.
  pose proof (lo_factory _ Hok b c) as Hold. pose proof attach_mono as Hmono. pose proof attach_own as Hown. unfold opens in Hcase.
  destruct Hcase as [(_ & -> & ->)|[(_ & Hop & -> & ->)|(_ & Hop & -> & ->)]]; intros Hf.
  - destruct (Hold _ Hf) as (? & ? & ? & ? & Hall). do 4 (split; [done|]). intros z (l' & -> & ?)%Hall. eauto.
  - destruct (factory s b c) as [f0|]; [|done]. cbn in Hf. destruct (Hold _ eq_refl) as (? & ? & ? & ? & Hall).
    destruct (decide (relative_library_path_ f0 = p)) as [Hp|]; injection Hf as <-.
    + unfold AddOwnedClassLoader. destruct (decide (Some l ∈ relative_class_loaders_ f0)).
      * do 4 (split; [done|]). intros z (l' & -> & ?)%Hall. eauto.
      * cbn. do 2 (split; [done|]). split; [by destruct (relative_class_loaders_ f0)|]. split.
        -- apply NoDup_app. split; [done|]. split; [|apply NoDup_singleton]. intros z Hz ->%list_elem_of_singleton. done.
        -- intros z [(l' & -> & ?)%Hall| ->%list_elem_of_singleton]%elem_of_app; [eauto|]. exists l. split; [done|]. by rewrite Hp.
    + do 4 (split; [done|]). intros z (l' & -> & ?)%Hall. eauto.
  - destruct (decide ((b, c) ∈ classes p)); [injection Hf as <-|].
    + cbn. split; [done|]. split; [apply elem_of_app; right; by apply list_elem_of_singleton|]. split; [done|]. split; [apply NoDup_singleton|].
      intros z ->%list_elem_of_singleton. by exists l.
    + destruct (Hold _ Hf) as (? & ? & ? & ? & Hall). split; [done|]. split; [apply elem_of_app; by left|]. do 2 (split; [done|]).
      intros z (l' & -> & ?)%Hall. eauto.
Qed.

Lemma attach_open : NoDup (opened_libraries s') /\ forall path, path ∈ opened_libraries s' -> lib path <> None /\ exists l', holds s' l' path.
Proof.
  destruct (lo_open _ Hok) as [Hnd Hopen]. pose proof attach_own as Hown.
  assert (Hkeep : forall path, path ∈ opened_libraries s -> lib path <> None /\ exists l', holds s' l' path).
  { intros path Hp. destruct (Hopen path Hp) as [? [l' ?%attach_mono]]. eauto. }
  unfold opens in Hcase. destruct Hcase as [(_ & -> & _)|[(_ & _ & -> & _)|(Hlib & Hop & -> & _)]]; [done|done|].
  split; [apply NoDup_app; split; [done|]; split; [|apply NoDup_singleton]; intros z Hz ->%list_elem_of_singleton; done|].
  intros path [Hp| ->%list_elem_of_singleton]%elem_of_app; eauto.
Qed.

Lemma attach_attached l' path b c : holds s' l' path -> (b, c) ∈ classes path -> lib path <> None -> exists f, factory s' b c = Some f /\ Some l' ∈ relative_class_loaders_ f.
Proof.
  intros Hp Hin Hnone. pose proof (lo_attached _ Hok) as Hold. unfold opens in Hcase.
  destruct Hcase as [(Hlib & _ & Hfac)|[(Hlib & Hop & _ & Hfac)|(Hlib & Hop & _ & Hfac)]]; setoid_rewrite Hfac.
  - destruct (attach_split _ _ Hp) as [Hs|[-> ->]]; [|done]. by apply (Hold _ path).
  - destruct (attach_split _ _ Hp) as [Hs|[-> ->]].
    + destruct (Hold _ _ _ _ Hs Hin Hnone) as (f & Hf & Hlf). rewrite Hf. cbn. destruct (decide _); [|by exists f].
      eexists. split; [done|]. unfold AddOwnedClassLoader. destruct (decide _); [done|]. cbn. apply elem_of_app. by left.
    + destruct (proj2 (lo_open _ Hok) _ Hop) as [_ [l0 Hl0]]. destruct (Hold _ _ _ _ Hl0 Hin Hnone) as (f & Hf & _). rewrite Hf. cbn.
      rewrite decide_True by (by apply (factory_library s b c)). eexists. split; [done|].
      unfold AddOwnedClassLoader. destruct (decide _); [done|]. cbn. apply elem_of_app. right. by apply list_elem_of_singleton.
  - destruct (decide ((b, c) ∈ classes p)) as [Hin'|Hin'].
    + assert (path = p) as -> by (by apply (Hu _ _ (b, c))).
      destruct (attach_split _ _ Hp) as [Hs|[-> _]]; [|eexists; split; [done|]; by apply list_elem_of_singleton].
      destruct (Hold _ _ _ _ Hs Hin Hnone) as (f & Hf & _). destruct Hop. rewrite <- (factory_library _ _ _ _ _ Hu Hok Hf Hin'). apply (lo_factory _ Hok _ _ _ Hf).
    + destruct (attach_split _ _ Hp) as [Hs|[-> ->]]; [|done]. by apply (Hold _ path).
Qed.

Lemma attaching_ok : loaded_ok s'.
Proof.
  pose proof Hok as []. split; [exact attach_factory|exact attach_open|exact attach_attached| | | |done|congruence].
  - intros o z. rewrite Ho. intros [?%attach_mono ?]%lo_objects0. done.
  - intros l' z. rewrite Hl, Ho. intros [[<- <-]|[? Hz]]%lookup_insert_Some; [|by apply lo_count0].
    pose proof (lo_count0 _ _ Hx) as [? ?]. rewrite Hobj. split; [lia|done].
  - rewrite Hl, Ho, Hn. split; [|apply (proj2 lo_next0)]. intros l' [<-|[_ ?]]%lookup_insert_is_Some; apply (proj1 lo_next0); [by exists x|done].
Qed.
End Attach.

Lemma LoadLibrary_ok s l x :
  own_classes -> loaded_ok s -> loaders s !! l = Some x ->
  let r := LoadLibrary lib s l in
  loaded_ok r.2 /\ r.1 = bool_decide (lib (library_path_ x) <> None) /\
  loaders r.2 = <[l := set_loadlib (loadlib_ref_count_ x + 1) x]> (loaders s) /\ objects r.2 = objects s /\ next_id r.2 = next_id s /\
  opened_libraries r.2 = opened_libraries s ++ (if decide (lib (library_path_ x) <> None /\ library_path_ x ∉ opened_libraries s) then [library_path_ x] else []).
Proof.
  intros Hu Hok Hx r. set (y := set_loadlib (loadlib_ref_count_ x + 1) x). set (s1 := with_loaders s (<[l := y]> (loaders s))).
  assert (Hr : r = utility_LoadLibrary lib s1 (library_path_ x) (Some l)).
  { unfold r, LoadLibrary. rewrite (upd_loader_eq _ _ _ _ Hx). fold y s1. by rewrite (loader_of_eq s1 l y) by apply lookup_insert_eq. }
  clearbody r. subst r. unfold utility_LoadLibrary, IsLibraryLoadedByAnybody. cbn [opened_libraries s1 with_loaders].
  pose proof (lo_current _ Hok) as [Hcl Hcp].
  destruct (decide (library_path_ x ∈ opened_libraries s)) as [Hop|Hop].
  - rewrite bool_decide_true by done. destruct (proj2 (lo_open _ Hok) _ Hop) as [Hlib _]. cbn [fst snd]. rewrite bool_decide_true by done.
    split; [|repeat split; rewrite decide_False by tauto; by rewrite app_nil_r].
    eapply (attaching_ok s _ l x y); try done. right. left. do 3 (split; [done|]). intros b c. by rewrite factory_on.
  - rewrite bool_decide_false by done. destruct (lib (library_path_ x)) as [cs|] eqn:Hlib; cbn [fst snd].
    + set (s2 := with_current s1 (Some l) (library_path_ x)).
      assert (Hreg := registered cs s2). destruct (Hreg "" "")%string as (_ & Ho & Hl & Hob & Hn & Hb).
      subst s2 s1. cbn in Ho, Hl, Hob, Hn, Hb.
      rewrite bool_decide_true by done. split.
      * eapply (attaching_ok s _ l x y); cbn; rewrite ?Hl, ?Hob, ?Hn, ?Hb; try done.
        right. right. split; [congruence|]. split; [done|]. cbn. rewrite Ho. split; [done|]. intros b c.
        destruct (Hreg b c) as [Hf _]. unfold factory in Hf |- *. cbn in Hf |- *. rewrite Hf. unfold classes. by rewrite Hlib.
      * cbn. rewrite Hl, Hob, Hn, Ho. repeat split. by rewrite decide_True by done.
    + split; [|repeat split; rewrite decide_False by tauto; by rewrite app_nil_r].
      eapply (attaching_ok s _ l x y); try done. by left.
Qed.

(** The objects made through a loader. *)
Definition objects_of s l : nat := size (filter (fun e => o_loader e.2 = l) (objects s)).

Lemma no_objects s l : loaded_ok s -> objects_of s l = 0%nat -> forall o x, objects s !! o = Some x -> o_loader x <> l.
Proof.
  intros _ Hz o x Hx Hl. unfold objects_of in Hz. apply map_size_empty_inv in Hz.
  pose proof (map_lookup_filter_Some_2 (fun e => o_loader e.2 = l) (objects s) o x Hx Hl) as Hf. by rewrite Hz, lookup_empty in Hf.
Qed.

Lemma removed_owner f l : NoDup (relative_class_loaders_ f) ->
  RemoveOwnedClassLoader f (Some l) = mkFactory (filter (fun x => x <> Some l) (relative_class_loaders_ f)) (relative_library_path_ f) (base_class_name_ f) (class_name_ f).
Proof.
  intros Hnd. unfold RemoveOwnedClassLoader. destruct (list_find _ _) as [[i z]|] eqn:Hfind.
  - f_equal. apply list_find_Some in Hfind as (Hi & -> & _). clear -Hnd Hi. revert i Hi. induction (relative_class_loaders_ f) as [|w k IH]; [done|].
    apply NoDup_cons in Hnd as [Hw Hnd]. intros [|i] Hi; cbn in Hi; cbn [delete list_delete].
    + injection Hi as ->. rewrite filter_cons, decide_False by tauto. symmetry. apply filter_id_elem. intros z Hz ->. done.
    + rewrite filter_cons, decide_True by (intros ->; apply Hw; by apply list_elem_of_lookup_2 in Hi). f_equal. by apply IH.
  - destruct f as [k p b c]. cbn [relative_class_loaders_ relative_library_path_ base_class_name_ class_name_] in *. f_equal. symmetry. apply filter_id_elem. intros z Hz ->. apply list_find_None in Hfind.
    rewrite Forall_forall in Hfind. by apply (Hfind _ Hz).
Qed.

(** *** Detaching *)
Definition detach path l f : option AbstractClassFactoryBase :=
  if decide (relative_library_path_ f = path) then
    if IsOwnedBy f (Some l) then let f := RemoveOwnedClassLoader f (Some l) in if negb (IsOwnedByAnybody f) then None else Some f else Some f
  else Some f.

Lemma detach_some path l f : NoDup (relative_class_loaders_ f) -> relative_class_loaders_ f <> [] ->
  (relative_library_path_ f <> path -> Some l ∉ relative_class_loaders_ f) ->
  match detach path l f with
  | Some f' => relative_library_path_ f' = relative_library_path_ f /\ relative_class_loaders_ f' <> [] /\
      relative_class_loaders_ f' = filter (fun x => x <> Some l) (relative_class_loaders_ f)
  | None => filter (fun x => x <> Some l) (relative_class_loaders_ f) = []
  end.
Proof.
  intros Hnd Hne Hno.
  assert (Hid : Some l ∉ relative_class_loaders_ f -> filter (fun x => x <> Some l) (relative_class_loaders_ f) = relative_class_loaders_ f)
    by (intros Hl; apply filter_id_elem; intros z Hz ->; done).
  unfold detach, IsOwnedBy, IsOwnedByAnybody. destruct (decide (relative_library_path_ f = path)) as [Hp|Hp]; [|by rewrite Hid by auto].
  destruct (decide (Some l ∈ relative_class_loaders_ f)) as [Hl|Hl]; [rewrite bool_decide_true by done|rewrite bool_decide_false by done; by rewrite Hid].
  rewrite removed_owner by done. cbn [relative_class_loaders_ relative_library_path_]. by destruct (filter _ _).
Qed.

(** [s'] is [s] after loader [l], which has made no objects that are left, has let its library go. *)
Lemma detaching_ok s s' l x y :
  own_classes -> loaded_ok s -> loaders s !! l = Some x -> objects_of s l = 0%nat -> loaders s' = <[l := y]> (loaders s) ->
  library_path_ y = library_path_ x -> loadlib_ref_count_ y = 0 -> classobj_ref_count_ y = classobj_ref_count_ x ->
  objects s' = objects s -> next_id s' = next_id s -> broken s' = broken s -> cur_loader s' = None /\ cur_library s' = ""%string ->
  (forall b c, factory s' b c = factory s b c ≫= detach (library_path_ x) l) ->
  opened_libraries s' `sublist_of` opened_libraries s ->
  (forall path, path ∈ opened_libraries s' <-> path ∈ opened_libraries s /\ (path = library_path_ x -> exists b c f, factory s' b c = Some f /\ relative_library_path_ f = path)) ->
  loaded_ok s'.
Proof.
  intros Hu Hok Hx Hz Hl Hpath Href Hobj Ho Hn Hb Hc Hfac Hsub Hopen. pose proof Hok as [].
  assert (Hh : forall l' path, holds s' l' path <-> l' <> l /\ holds s l' path).
  { intros l' path. unfold holds. rewrite Hl. destruct (decide (l' = l)) as [->|]; [rewrite lookup_insert_eq|rewrite lookup_insert_ne by done; split; [by intros ?|by intros []]].
    split; [intros (w & [= <-] & ? & ?); lia|by intros []]. }
  assert (Hown : forall b c f, factory s b c = Some f -> relative_library_path_ f <> library_path_ x -> Some l ∉ relative_class_loaders_ f).
  { intros b c f Hf Hne Hin. apply (lo_factory0 _ _ _ Hf) in Hin as (l' & [= <-] & w & Hw & ? & _). congruence. }
  assert (Hsome : forall b c f, factory s b c = Some f -> match detach (library_path_ x) l f with
      | Some f' => relative_library_path_ f' = relative_library_path_ f /\ relative_class_loaders_ f' <> [] /\
          relative_class_loaders_ f' = filter (fun x => x <> Some l) (relative_class_loaders_ f)
      | None => filter (fun x => x <> Some l) (relative_class_loaders_ f) = [] end).
  { intros b c f Hf. destruct (lo_factory0 _ _ _ Hf) as (_ & _ & ? & ? & _). apply detach_some; [done|done|by eapply Hown]. }
  assert (Hkeep : forall b c f l', factory s b c = Some f -> Some l' ∈ relative_class_loaders_ f -> l' <> l ->
      exists f', factory s' b c = Some f' /\ Some l' ∈ relative_class_loaders_ f').
  { intros b c f l' Hf Hin Hne. specialize (Hsome _ _ _ Hf). rewrite Hfac, Hf. cbn.
    assert (Hin' : Some l' ∈ filter (fun x => x <> Some l) (relative_class_loaders_ f)) by (apply list_elem_of_filter; split; [congruence|done]).
    destruct (detach _ _ f) as [f'|]; [|rewrite Hsome in Hin'; by apply not_elem_of_nil in Hin']. exists f'. by destruct Hsome as (_ & _ & ->). }
  split; [| | | | | |done|congruence].
  - intros b c f' Hf'. pose proof Hf' as Hf''. rewrite Hfac in Hf'. destruct (factory s b c) as [f|] eqn:Hf; [|done]. cbn in Hf'.
    specialize (Hsome _ _ _ Hf). rewrite Hf' in Hsome. destruct Hsome as (Hp & Hne & Heq). destruct (lo_factory0 _ _ _ Hf) as (? & ? & _ & ? & Hall).
    rewrite Hp. split; [done|]. split; [apply Hopen; split; [done|]; intros; by exists b, c, f'|]. split; [done|]. rewrite Heq. split; [by apply NoDup_filter|].
    intros z [Hne' (l' & -> & ?)%Hall]%list_elem_of_filter. exists l'. split; [done|]. apply Hh. split; [congruence|done].
  - destruct lo_open0 as [Hnd Hop]. split; [by eapply sublist_NoDup|]. intros path [Hp Hfe]%Hopen. destruct (Hop _ Hp) as [? [l' Hl']]. split; [done|].
    destruct (decide (l' = l)) as [->|]; [|exists l'; by apply Hh]. destruct Hl' as (w & Hw & Hwp & _).
    assert (path = library_path_ x) as -> by congruence. destruct (Hfe eq_refl) as (b & c & f' & Hf' & Hp'). rewrite Hfac in Hf'.
    destruct (factory s b c) as [f|] eqn:Hf; [|done]. cbn in Hf'. specialize (Hsome _ _ _ Hf). rewrite Hf' in Hsome. destruct Hsome as (Hp2 & Hne & Heq).
    destruct (relative_class_loaders_ f') as [|z k] eqn:Hk; [done|]. assert (Hz' : z ∈ filter (fun x => x <> Some l) (relative_class_loaders_ f)) by (rewrite <- Heq; by left).
    apply list_elem_of_filter in Hz' as [Hzl Hzin]. apply (lo_factory0 _ _ _ Hf) in Hzin as (l2 & -> & Hl2). exists l2. apply Hh. split; [congruence|].
    by rewrite <- Hp', Hp2.
  - intros l' path b c [Hne Hp]%Hh Hin Hlib. destruct (lo_attached0 _ _ _ _ Hp Hin Hlib) as (f & Hf & Hlf). by eapply Hkeep.
  - intros o w. rewrite Ho. intros Hw. destruct (lo_objects0 _ _ Hw). split; [|done]. apply Hh. split; [by eapply no_objects|done].
  - intros l' w. rewrite Hl, Ho. intros [[<- <-]|[? Hw]]%lookup_insert_Some; [|by apply lo_count0]. rewrite Hobj, Href. split; [lia|]. apply (lo_count0 _ _ Hx).
  - rewrite Hl, Ho, Hn. split; [|apply (proj2 lo_next0)]. intros l' [<-|[_ ?]]%lookup_insert_is_Some; apply (proj1 lo_next0); [by exists x|done].
Qed.

Lemma erased {A} (l : list A) i x y : NoDup l -> l !! i = Some x -> y ∈ delete i l <-> y ∈ l /\ y <> x.
Proof.
  intros Hnd Hi. pose proof (delete_Permutation l i x Hi) as Hp. rewrite Hp in Hnd. apply NoDup_cons in Hnd as [Hx _].
  split; [intros Hy; split; [rewrite Hp; by right|by intros ->]|]. intros [Hy Hne]. rewrite Hp in Hy. by apply elem_of_cons in Hy as [?|?].
Qed.

Lemma objects_count s l x : loaded_ok s -> loaders s !! l = Some x -> classobj_ref_count_ x = Z.of_nat (objects_of s l).
Proof. intros [] Hx. apply (lo_count0 _ _ Hx). Qed.

Lemma set_loadlib_same x : set_loadlib (loadlib_ref_count_ x) x = x.
Proof. by destruct x. Qed.

Lemma utility_UnloadLibrary_ok s l x :
  own_classes -> loaded_ok s -> loaders s !! l = Some x -> objects_of s l = 0%nat ->
  let s1 := with_loaders s (<[l := set_loadlib 0 x]> (loaders s)) in let r := utility_UnloadLibrary s1 (library_path_ x) (Some l) in
  loaded_ok r /\ loaders r = loaders s1 /\ objects r = objects s /\ next_id r = next_id s.
Proof.
  intros Hu Hok Hx Hz s1 r. pose proof (lo_current _ Hok). pose proof (lo_open _ Hok) as [Hnd Hop]. unfold r, utility_UnloadLibrary. cbn [opened_libraries s1 with_loaders].
  destruct (list_find (fun z => z = library_path_ x) (opened_libraries s)) as [[i z]|] eqn:Hfind.
  - apply list_find_Some in Hfind as (Hi & -> & _). set (s2 := DestroyClassFactoryObjectsOfLibrary s1 (library_path_ x) (Some l)).
    assert (Hf2 : forall b c, factory s2 b c = factory s b c ≫= detach (library_path_ x) l) by (intros b c; unfold s2, DestroyClassFactoryObjectsOfLibrary; by rewrite factory_on).
    destruct (GetAllClassFactoryObjectsOfLibrary s2 (library_path_ x)) as [|f0 fs] eqn:Hall; (split; [|done]).
    + eapply (detaching_ok s _ l x (set_loadlib 0 x)); try done; cbn; [apply sublist_delete|].
      intros path. rewrite (erased _ _ _ _ Hnd Hi). split; [by intros [? ?]|]. intros [Hp Hfe]. split; [done|]. intros ->.
      destruct (Hfe eq_refl) as (b & c & f & Hf & Hp'). assert (Hin : f ∈ GetAllClassFactoryObjectsOfLibrary s2 (library_path_ x)) by (apply all_objects; eauto).
      rewrite Hall in Hin. by apply not_elem_of_nil in Hin.
    + eapply (detaching_ok s _ l x (set_loadlib 0 x)); try done. intros path. split; [|by intros []]. intros Hp. split; [done|]. intros ->.
      assert (Hin : f0 ∈ GetAllClassFactoryObjectsOfLibrary s2 (library_path_ x)) by (rewrite Hall; by left). apply all_objects in Hin as (? & b & c & ?). by exists b, c, f0.
  - apply list_find_None in Hfind. rewrite Forall_forall in Hfind. split; [|done].
    eapply (detaching_ok s _ l x (set_loadlib 0 x)); try done.
    + intros b c. change (factory s1 b c) with (factory s b c). destruct (factory s b c) as [f|] eqn:Hf; [|done]. cbn. unfold detach.
      rewrite decide_False; [done|]. intros Hp. apply (Hfind (relative_library_path_ f)); [by apply (lo_factory _ Hok _ _ _ Hf)|done].
    + intros path. split; [|by intros []]. intros Hp. split; [done|]. intros ->. by destruct (Hfind _ Hp).
Qed.

(** [s'] differs from [s] in the counters of [l], which holds its library as before, and in objects. *)
Lemma counts_ok s s' l x y :
  loaded_ok s -> loaders s !! l = Some x -> loaders s' = <[l := y]> (loaders s) -> library_path_ y = library_path_ x ->
  0 <= loadlib_ref_count_ y -> (0 < loadlib_ref_count_ y <-> 0 < loadlib_ref_count_ x) ->
  (forall b c, factory s' b c = factory s b c) -> opened_libraries s' = opened_libraries s -> cur_loader s' = None /\ cur_library s' = ""%string -> broken s' = false ->
  (forall o z, objects s' !! o = Some z -> holds s (o_loader z) (o_library z) /\ (o_base z, o_class z) ∈ classes (o_library z)) ->
  classobj_ref_count_ y = Z.of_nat (objects_of s' l) -> (forall l', l' <> l -> objects_of s' l' = objects_of s l') ->
  (next_id s <= next_id s')%nat -> (forall o, is_Some (objects s' !! o) -> (o < next_id s')%nat) ->
  loaded_ok s'.
Proof.
  intros [] Hx Hl Hp H0 Hr Hf Hop Hc Hb Hobj Hcnt Hcnt' Hn Hno.
  assert (Hh : forall l' path, holds s' l' path <-> holds s l' path).
  { intros l' path. unfold holds. rewrite Hl. destruct (decide (l' = l)) as [->|]; [rewrite lookup_insert_eq|by rewrite lookup_insert_ne].
    split; intros (w & [= <-] & ? & ?) || intros (w & Hw & ? & ?); [exists x|exists y]; split; try done; [split; [congruence|by apply Hr]|].
    assert (w = x) as -> by congruence. split; [congruence|by apply Hr]. }
  split; try done.
  - intros b c f. rewrite Hf, Hop. intros Hfb. destruct (lo_factory0 _ _ _ Hfb) as (? & ? & ? & ? & Hall). do 4 (split; [done|]).
    intros z (l' & -> & ?)%Hall. exists l'. split; [done|]. by apply Hh.
  - rewrite Hop. split; [apply lo_open0|]. intros path Hpa. destruct (proj2 lo_open0 _ Hpa) as [? [l' ?]]. split; [done|]. exists l'. by apply Hh.
  - intros l' path b c Hh' Hin Hlib. rewrite Hf. apply Hh in Hh'. by apply (lo_attached0 _ path).
  - intros o z Hz. destruct (Hobj _ _ Hz). split; [by apply Hh|done].
  - intros l' z. rewrite Hl. intros [[<- <-]|[Hne Hz]]%lookup_insert_Some; [done|]. destruct (lo_count0 _ _ Hz) as [? ->]. split; [done|].
    f_equal. symmetry. by apply Hcnt'.
  - split; [|done]. rewrite Hl. intros l' [<-|[_ Hl']]%lookup_insert_is_Some; [pose proof (proj1 lo_next0 l (ex_intro _ x Hx)); lia|].
    pose proof (proj1 lo_next0 l' Hl'). lia.
Qed.

Lemma UnloadLibrary_ok s l x :
  own_classes -> loaded_ok s -> loaders s !! l = Some x ->
  let r := UnloadLibrary s l in
  let n := if decide (objects_of s l = 0%nat) then Z.max 0 (loadlib_ref_count_ x - 1) else loadlib_ref_count_ x in
  loaded_ok r.2 /\ r.1 = n /\ loaders r.2 = <[l := set_loadlib n x]> (loaders s) /\ objects r.2 = objects s /\ next_id r.2 = next_id s.
Proof.
  intros Hu Hok Hx r n. pose proof (lo_count _ Hok _ _ Hx) as [H0 _]. pose proof (objects_count _ _ _ Hok Hx) as Hc.
  unfold r, n, UnloadLibrary. rewrite (loader_of_eq _ _ _ Hx), Hc.
  assert (Hsame : with_loaders s (<[l := x]> (loaders s)) = s) by (rewrite insert_id by done; by destruct s).
  destruct (Z.ltb_spec 0 (Z.of_nat (objects_of s l))); [rewrite decide_False by lia|rewrite decide_True by lia].
  - cbn [fst snd]. rewrite (upd_loader_eq _ _ _ _ Hx). unfold id. rewrite Hsame, set_loadlib_same. split; [done|]. split; [done|].
    split; [by rewrite insert_id by done|done].
  - rewrite (upd_loader_eq _ _ _ _ Hx). set (m := loadlib_ref_count_ x - 1). destruct (Z.eqb_spec m 0) as [Hm|].
    + cbn [fst snd]. rewrite Hm. destruct (utility_UnloadLibrary_ok s l x Hu Hok Hx ltac:(lia)) as (? & -> & -> & ->). done.
    + destruct (Z.ltb_spec m 0); cbn [fst snd].
      * assert (Hxz : set_loadlib 0 (set_loadlib m x) = x) by (destruct x; cbn in *; unfold set_loadlib; cbn; f_equal; lia).
        erewrite upd_loader_eq by apply lookup_insert_eq. rewrite Hxz. cbn. rewrite insert_insert_eq. replace (Z.max 0 m) with 0 by lia.
        assert (Hx0 : set_loadlib 0 x = x) by (destruct x; cbn in *; unfold set_loadlib; cbn; f_equal; lia). rewrite Hx0.
        change (loaded_ok (with_loaders s (<[l := x]> (loaders s))) /\ 0 = 0 /\ <[l := x]> (loaders s) = <[l := x]> (loaders s) /\ objects s = objects s /\ next_id s = next_id s).
        rewrite Hsame. done.
      * replace (Z.max 0 m) with m by lia. cbn. split; [|done].
        eapply (counts_ok s _ l x (set_loadlib m x)); try done; cbn; try lia; apply Hok.
Qed.

(** *** Objects *)
Lemma objects_of_insert s o z n l :
  objects s !! o = None -> objects_of (with_objects s (<[o := z]> (objects s)) n) l = ((if decide (o_loader z = l) then 1 else 0) + objects_of s l)%nat.
Proof.
  intros Ho. unfold objects_of. cbn. destruct (decide (o_loader z = l)) as [Hz|Hz].
  - rewrite map_filter_insert_True by done. rewrite map_size_insert_None; [done|]. by rewrite map_lookup_filter, Ho.
  - rewrite map_filter_insert_False by done. by rewrite delete_id.
Qed.

Lemma touched_ok s b : loaded_ok s -> loaded_ok (GetClassFactoryMapByBaseClass s b).2.
Proof.
  intros [].
  assert (Hf : forall b' c', factory (GetClassFactoryMapByBaseClass s b).2 b' c' = factory s b' c') by (intros; apply factory_touched).
  split; try done; [intros b' c' f'; rewrite Hf; apply lo_factory0|]. intros l' path b' c' Hh Hin Hl. setoid_rewrite Hf. by apply (lo_attached0 l' path).
Qed.

(** [CreateClassObj] through a loader whose library is open, or opened first. *)
Lemma CreateClassObj_loaded s l x b c :
  own_classes -> loaded_ok s -> loaders s !! l = Some x ->
  match utility_CreateClassObj s b c (Some l) with
  | (None, s') => loaded_ok s' /\ loaders s' = loaders s /\ objects s' = objects s /\ next_id s' = next_id s /\ opened_libraries s' = opened_libraries s /\
      ~ (0 < loadlib_ref_count_ x /\ lib (library_path_ x) <> None /\ (b, c) ∈ classes (library_path_ x))
  | (Some path, s') => path = library_path_ x /\ 0 < loadlib_ref_count_ x /\ lib path <> None /\ (b, c) ∈ classes path /\
      (forall b' c', factory s' b' c' = factory s b' c') /\ loaded_ok s' /\ loaders s' = loaders s /\ objects s' = objects s /\ next_id s' = next_id s /\ opened_libraries s' = opened_libraries s
  end.
Proof.
  intros Hu Hok Hx. pose proof Hok as []. unfold utility_CreateClassObj. set (r := GetClassFactoryMapByBaseClass s b).
  assert (Hr : r.1 !! c = factory s b c) by (unfold r, factory; cbn; by destruct (factory_map_map s !! b)).
  pose proof (touched_ok s b Hok) as Hok'. fold r in Hok'.
  rewrite (surjective_pairing r), Hr. destruct (factory s b c) as [f|] eqn:Hf.
  - destruct (lo_factory0 _ _ _ Hf) as (Hin & Hop & _ & _ & Hall). unfold IsOwnedBy. destruct (decide (Some l ∈ relative_class_loaders_ f)) as [Ho|Ho].
    + rewrite bool_decide_true by done. destruct (Hall _ Ho) as (l' & [= <-] & w & Hw & Hp & Hr0). assert (w = x) as -> by congruence. rewrite <- Hp in *.
      split; [done|]. split; [done|]. split; [apply (proj2 lo_open0 _ Hop)|]. split; [done|]. split; [intros; apply factory_touched|done].
    + rewrite bool_decide_false by done. do 4 (split; [done|]). split; [done|]. intros (Hr0 & Hl & Hin').
      destruct (lo_attached0 l (library_path_ x) b c) as (f' & Hf' & Hlf); [by exists x|done|done|]. congruence.
  - do 4 (split; [done|]). split; [done|]. intros (Hr0 & Hl & Hin'). destruct (lo_attached0 l (library_path_ x) b c) as (f' & Hf' & Hlf); [by exists x|done|done|]. congruence.
Qed.

Lemma make_object_ok s s' l x b c path n :
  loaded_ok s' -> loaders s' !! l = Some x -> 0 < loadlib_ref_count_ x -> path = library_path_ x -> (b, c) ∈ classes path ->
  s = upd_loader s' l (fun x => set_classobj (classobj_ref_count_ x + 1) x) -> n = next_id s ->
  loaded_ok (with_objects s (<[n := mkObject l b c path]> (objects s)) (S n)).
Proof.
  intros Hok Hx Hr -> Hin -> ->. rewrite (upd_loader_eq _ _ _ _ Hx). set (y := set_classobj _ x). cbn [next_id objects with_loaders].
  assert (Hno : objects s' !! next_id s' = None).
  { destruct (objects s' !! next_id s') eqn:He; [|done]. pose proof (proj2 (lo_next _ Hok) (next_id s') (ex_intro _ _ He)). lia. }
  assert (Hof : forall k, objects_of (with_objects (with_loaders s' (<[l := y]> (loaders s'))) (<[next_id s' := mkObject l b c (library_path_ x)]> (objects s')) (S (next_id s'))) k
      = ((if decide (l = k) then 1 else 0) + objects_of s' k)%nat) by (intros k; apply (objects_of_insert (with_loaders s' (<[l := y]> (loaders s')))); done).
  eapply (counts_ok s' _ l x y); try done; cbn; try lia; try apply Hok.
  - intros o z [[<- <-]|[_ Hz]]%lookup_insert_Some; [cbn; split; [by exists x|done]|]. exact (lo_objects _ Hok _ _ Hz).
  - rewrite (objects_count _ _ _ Hok Hx), Hof, decide_True by done. lia.
  - intros l' Hne. rewrite Hof, decide_False by done. lia.
  - intros o [<-|[_ Ho]]%lookup_insert_is_Some; [lia|]. pose proof (proj2 (lo_next _ Hok) _ Ho). lia.
Qed.

(** What of a loader concerns its library. *)
Definition held_by (m : gmap nat ClassLoader) l : option (string * Z) := (fun x => (library_path_ x, loadlib_ref_count_ x)) <$> m !! l.

(** A loader makes an object of a class exactly when its library loads and registers the class, unless
    it has let the library go while another loader keeps it open. *)
Lemma CreateClassObj_ok s l x b c :
  own_classes -> loaded_ok s -> loaders s !! l = Some x ->
  let path := library_path_ x in let r := CreateClassObj lib s l b c in
  loaded_ok r.2 /\ (forall p, p ∈ opened_libraries s -> p ∈ opened_libraries r.2) /\
  match r.1 with
  | Some o => objects r.2 = <[o := mkObject l b c path]> (objects s) /\ objects s !! o = None
  | None => objects r.2 = objects s
  end /\
  (is_Some r.1 <-> lib path <> None /\ (b, c) ∈ classes path /\ (path ∈ opened_libraries s -> 0 < loadlib_ref_count_ x)) /\
  (forall l', held_by (loaders r.2) l' = if decide (l' = l /\ path ∉ opened_libraries s) then Some (path, loadlib_ref_count_ x + 1) else held_by (loaders s) l').
Proof.
  intros Hu Hok Hx path r. unfold r, CreateClassObj. unfold IsLibraryLoaded. rewrite utility_IsLibraryLoaded_eq, (loader_of_eq _ _ _ Hx). fold path.
  set (s0 := if negb (IsLibraryLoadedByAnybody s path) then (LoadLibrary lib s l).2 else s).
  assert (H0 : loaded_ok s0 /\ objects s0 = objects s /\ (forall p, p ∈ opened_libraries s -> p ∈ opened_libraries s0) /\
      (forall l', held_by (loaders s0) l' = if decide (l' = l /\ path ∉ opened_libraries s) then Some (path, loadlib_ref_count_ x + 1) else held_by (loaders s) l') /\
      exists y, loaders s0 !! l = Some y /\ library_path_ y = path /\ (0 < loadlib_ref_count_ y <-> (path ∈ opened_libraries s -> 0 < loadlib_ref_count_ x))).
  { pose proof (lo_count _ Hok _ _ Hx) as [Hge _]. unfold s0, IsLibraryLoadedByAnybody. destruct (decide (path ∈ opened_libraries s)); [rewrite bool_decide_true by done|rewrite bool_decide_false by done]; cbn [negb].
    - split; [done|]. split; [done|]. split; [done|]. split; [intros l'; by rewrite decide_False by tauto|]. exists x. split; [done|]. split; [done|]. tauto.
    - destruct (LoadLibrary_ok s l x Hu Hok Hx) as (? & _ & Hl & -> & _ & Ho). split; [done|]. split; [done|]. split; [intros p Hp; rewrite Ho; apply elem_of_app; by left|].
      unfold held_by. rewrite Hl. split; [intros l'; destruct (decide (l' = l)) as [->|]; [rewrite lookup_insert_eq, decide_True by done; done|rewrite lookup_insert_ne, decide_False by naive_solver; done]|].
      rewrite lookup_insert_eq. eexists. split; [done|]. split; [done|]. cbn. split; [tauto|lia]. }
  clearbody s0. destruct H0 as (Hok0 & Ho0 & Hop & Hheld & y & Hy & Hyp & Hyr). pose proof (CreateClassObj_loaded s0 l y b c Hu Hok0 Hy) as Hc.
  destruct (utility_CreateClassObj s0 b c (Some l)) as [[p|] s1].
  - destruct Hc as (-> & Hr & Hlib & Hin & _ & Hok1 & Hl1 & Ho1 & Hn1 & Hop1). rewrite Hyp in *. cbn [fst snd]. rewrite <- Hl1 in Hy.
    split; [by eapply (make_object_ok _ s1)|]. rewrite (upd_loader_eq _ _ _ _ Hy). cbn. rewrite Ho1, Ho0, Hop1. split; [done|]. split.
    + split; [done|]. destruct (objects s !! next_id s1) as [z|] eqn:Hz; [|done]. rewrite <- Ho0, <- Ho1 in Hz. pose proof (proj2 (lo_next _ Hok1) (next_id s1) (ex_intro _ _ Hz)). lia.
    + split; [split; [intros _; tauto|by eexists]|]. intros l'. rewrite <- Hheld, <- Hl1. unfold held_by.
      destruct (decide (l' = l)) as [->|]; [rewrite lookup_insert_eq, Hy; done|by rewrite lookup_insert_ne].
  - destruct Hc as (Hok1 & Hl1 & Ho1 & _ & Hop1 & Hno). cbn [fst snd]. rewrite Hop1, Ho1, Hl1. rewrite Hyp in Hno. split; [done|]. split; [done|]. split; [done|].
    split; [|done]. split; [by intros []|]. intros (? & ? & ?). destruct Hno. tauto.
Qed.

Lemma OnClassObjDeleter_ok s o :
  own_classes -> loaded_ok s -> loaded_ok (OnClassObjDeleter s o) /\ objects (OnClassObjDeleter s o) = delete o (objects s) /\
  opened_libraries (OnClassObjDeleter s o) = opened_libraries s /\ next_id (OnClassObjDeleter s o) = next_id s /\
  (forall l, held_by (loaders (OnClassObjDeleter s o)) l = held_by (loaders s) l).
Proof.
  intros Hu Hok. unfold OnClassObjDeleter. destruct (objects s !! o) as [z|] eqn:Hz; [|by rewrite delete_id].
  destruct (lo_objects _ Hok _ _ Hz) as [(x & Hx & Hp & Hr) Hin]. rewrite bool_decide_true by (by eapply object_library).
  set (s1 := with_broken _ _). assert (Hx1 : loaders s1 !! o_loader z = Some x) by done. rewrite (upd_loader_eq _ _ _ _ Hx1). split; [|split; [done|split; [done|split; [done|]]]].
  - assert (Hof : forall k, objects_of s k = ((if decide (o_loader z = k) then 1 else 0) + objects_of s1 k)%nat).
    { intros k. assert (Hs : s = with_objects s1 (<[o := z]> (objects s1)) (next_id s)).
      { unfold s1. cbn. rewrite insert_delete_id by done. destruct s; unfold with_objects; cbn. by rewrite orb_false_r. }
      rewrite Hs at 1. apply objects_of_insert. apply lookup_delete_eq. }
    eapply (counts_ok s _ (o_loader z) x); try done; cbn.
    + apply (lo_count _ Hok _ _ Hx).
    + apply Hok.
    + rewrite orb_false_r. apply Hok.
    + intros o' z' [_ Hz']%lookup_delete_Some. exact (lo_objects _ Hok _ _ Hz').
    + rewrite (objects_count _ _ _ Hok Hx), Hof, decide_True by done. change (objects_of _ (o_loader z)) with (objects_of s1 (o_loader z)). lia.
    + intros l' Hne. rewrite (Hof l'), decide_False by done. done.
    + intros o' [_ Ho']%lookup_delete_is_Some. by apply (proj2 (lo_next _ Hok)).
  - intros l. unfold held_by. cbn. destruct (decide (l = o_loader z)) as [->|]; [rewrite lookup_insert_eq|by rewrite lookup_insert_ne]. by rewrite Hx.
Qed.

(** *** Loaders come and go *)

(** A loader that does not hold its library and has no objects may be there or not. *)
Lemma idle_loader_ok s s' l :
  loaded_ok s -> (forall l', l' <> l -> loaders s' !! l' = loaders s !! l') ->
  (forall x, loaders s !! l = Some x -> loadlib_ref_count_ x = 0) ->
  (forall x, loaders s' !! l = Some x -> loadlib_ref_count_ x = 0 /\ classobj_ref_count_ x = 0) ->
  objects_of s l = 0%nat -> objects s' = objects s -> (next_id s <= next_id s')%nat -> (is_Some (loaders s' !! l) -> (l < next_id s')%nat) ->
  (forall b c, factory s' b c = factory s b c) -> opened_libraries s' = opened_libraries s -> cur_loader s' = None /\ cur_library s' = ""%string -> broken s' = false ->
  loaded_ok s'.
Proof.
  intros Hok Hother Hold Hnew Hz Ho Hn Hl Hf Hop Hc Hb. pose proof Hok as [].
  assert (Hh : forall l' path, holds s' l' path <-> holds s l' path).
  { intros l' path. unfold holds. destruct (decide (l' = l)) as [->|]; [|by rewrite Hother].
    split; intros (w & Hw & ? & ?); [destruct (Hnew _ Hw); lia|]. rewrite (Hold _ Hw) in *. lia. }
  split; try done.
  - intros b c f. rewrite Hf, Hop. intros Hfb. destruct (lo_factory0 _ _ _ Hfb) as (? & ? & ? & ? & Hall). do 4 (split; [done|]).
    intros z (l' & -> & ?)%Hall. exists l'. split; [done|]. by apply Hh.
  - rewrite Hop. split; [apply lo_open0|]. intros path Hpa. destruct (proj2 lo_open0 _ Hpa) as [? [l' ?]]. split; [done|]. exists l'. by apply Hh.
  - intros l' path b c Hh' Hin Hlib. rewrite Hf. apply Hh in Hh'. by apply (lo_attached0 _ path).
  - intros o z. rewrite Ho. intros Hz'. destruct (lo_objects0 _ _ Hz'). split; [by apply Hh|done].
  - intros l' z Hz'. rewrite Ho. destruct (decide (l' = l)) as [->|]; [|rewrite Hother in Hz' by done; by apply lo_count0].
    destruct (Hnew _ Hz') as [-> ->]. change (size _) with (objects_of s l). by rewrite Hz.
  - rewrite Ho. split.
    + intros l' Hl'. destruct (decide (l' = l)) as [->|]; [by apply Hl|]. rewrite Hother in Hl' by done. pose proof (proj1 lo_next0 _ Hl'). lia.
    + intros o Ho'. pose proof (proj2 lo_next0 _ Ho'). lia.
Qed.

Lemma ClassLoader_new_ok s path :
  own_classes -> loaded_ok s ->
  let r := ClassLoader_new lib s path in
  loaded_ok r.2 /\ loaders s !! r.1 = None /\ loaders r.2 = <[r.1 := mkLoader path 1 0]> (loaders s) /\ objects r.2 = objects s /\
  opened_libraries r.2 = opened_libraries s ++ (if decide (lib path <> None /\ path ∉ opened_libraries s) then [path] else []).
Proof.
  intros Hu Hok r. unfold r, ClassLoader_new. set (l := next_id s). set (s1 := with_objects _ _ _).
  assert (Hno : loaders s !! l = None).
  { destruct (loaders s !! l) eqn:He; [|done]. pose proof (proj1 (lo_next _ Hok) l (ex_intro _ _ He)). unfold l in *. lia. }
  assert (Hz : objects_of s l = 0%nat).
  { unfold objects_of. apply map_size_empty_iff, map_empty. intros o. apply map_lookup_filter_None. right. intros x Hx Hxl.
    destruct (lo_objects _ Hok _ _ Hx) as [(w & Hw & _) _]. cbn in Hxl. congruence. }
  assert (Hok1 : loaded_ok s1).
  { eapply (idle_loader_ok s s1 l); try done; cbn; try lia; try apply Hok.
    - intros l' Hne. by rewrite lookup_insert_ne.
    - intros x. rewrite Hno. done.
    - intros x. rewrite lookup_insert_eq. by intros [= <-]. }
  assert (Hl1 : loaders s1 !! l = Some (mkLoader path 0 0)) by apply lookup_insert_eq.
  destruct (LoadLibrary_ok s1 l _ Hu Hok1 Hl1) as (? & _ & Hl & Ho & _ & Hop). cbn [fst snd]. split; [done|]. split; [done|]. split; [|by split].
  rewrite Hl. cbn. by rewrite insert_insert_eq.
Qed.

Lemma ClassLoader_delete_ok s l x :
  own_classes -> loaded_ok s -> loaders s !! l = Some x -> loadlib_ref_count_ x <= 1 -> objects_of s l = 0%nat ->
  let s' := ClassLoader_delete s l in
  loaded_ok s' /\ loaders s' = delete l (loaders s) /\ objects s' = objects s.
Proof.
  intros Hu Hok Hx Hr Hz s'. pose proof (lo_count _ Hok _ _ Hx) as [Hge _]. unfold s', ClassLoader_delete.
  destruct (UnloadLibrary_ok s l x Hu Hok Hx) as (Hok1 & _ & Hl & Ho & Hn). rewrite decide_True in Hl by done. set (s1 := (UnloadLibrary s l).2) in *.
  assert (Hl1 : loaders s1 !! l = Some (set_loadlib (Z.max 0 (loadlib_ref_count_ x - 1)) x)) by (rewrite Hl; apply lookup_insert_eq).
  split; [|cbn; rewrite Hl, Ho; split; [|done]; by rewrite delete_insert_eq].
  eapply (idle_loader_ok s1 _ l); try done; cbn; try apply Hok1.
  - intros l' Hne. by rewrite lookup_delete_ne.
  - intros y. rewrite Hl1. intros [= <-]. cbn. lia.
  - intros y. by rewrite lookup_delete_eq.
  - unfold objects_of. rewrite Ho. exact Hz.
  - rewrite lookup_delete_eq. by intros [].
Qed.

Lemma process_new_ok : loaded_ok process_new.
Proof.
  split; [done| |by intros l path b c (x & Hx & _)|done|done| |done|done].
  - split; [constructor|]. by intros path ?%not_elem_of_nil.
  - by split; intros k [].
Qed.

(** ** Histories *)
Inductive loader_op := New (path : string) | Load (l : nat) | Unload (l : nat) | Create (l : nat) (b c : string) | Release (o : nat) | Delete (l : nat).

Definition loader_step s (o : loader_op) : process :=
  match o with
  | New path => (ClassLoader_new lib s path).2
  | Load l => (LoadLibrary lib s l).2
  | Unload l => (UnloadLibrary s l).2
  | Create l b c => (CreateClassObj lib s l b c).2
  | Release o => OnClassObjDeleter s o
  | Delete l => ClassLoader_delete s l
  end.

(** A loader is used while it is there; it is deleted when it has no objects left and was not
    loaded more than once. *)
Definition allowed s (o : loader_op) : Prop :=
  match o with
  | New _ | Release _ => True
  | Load l | Unload l | Create l _ _ => is_Some (loaders s !! l)
  | Delete l => exists x, loaders s !! l = Some x /\ loadlib_ref_count_ x <= 1 /\ objects_of s l = 0%nat
  end.
Fixpoint allowed_run s (ops : list loader_op) : Prop :=
  match ops with [] => True | o :: ops => allowed s o /\ allowed_run (loader_step s o) ops end.

Lemma loader_step_ok s o : own_classes -> loaded_ok s -> allowed s o -> loaded_ok (loader_step s o).
Proof.
  intros Hu Hok. destruct o as [path|l|l|l b c|o|l]; cbn.
  - intros _. by apply ClassLoader_new_ok.
  - intros [x Hx]. by eapply LoadLibrary_ok.
  - intros [x Hx]. by eapply UnloadLibrary_ok.
  - intros [x Hx]. by eapply CreateClassObj_ok.
  - intros _. by apply OnClassObjDeleter_ok.
  - intros (x & Hx & Hr & Hz). by eapply ClassLoader_delete_ok.
Qed.

Lemma loader_run_ok ops : forall s, own_classes -> loaded_ok s -> allowed_run s ops -> loaded_ok (foldl loader_step s ops).
Proof. induction ops as [|o ops IH]; intros s Hu Hok; [done|]. intros [Ho Hops]. apply IH; [done|by apply loader_step_ok|done]. Qed.

(** C25: Class loaders keep the code of their objects: whatever the sequence of loading, unloading, making
    and dropping objects through any number of loaders of any libraries, when no two libraries
    register the same class, the library of every object in use is open and its loader is there; a
    library is open only for loaders that have loaded and not unloaded it, every factory is one of an
    open library and attached only to such loaders; and a further call makes an object of exactly the
    classes that the library of the loader registers. *)
Theorem class_loaders_safe ops :
  own_classes -> allowed_run process_new ops ->
  let s := foldl loader_step process_new ops in
  broken s = false /\
  (forall o x, objects s !! o = Some x -> o_library x ∈ opened_libraries s /\ holds s (o_loader x) (o_library x)) /\
  (forall path, path ∈ opened_libraries s -> exists l, holds s l path) /\
  (forall b c f, factory s b c = Some f -> relative_library_path_ f ∈ opened_libraries s /\
     forall x, x ∈ relative_class_loaders_ f -> exists l, x = Some l /\ holds s l (relative_library_path_ f)) /\
  (forall l path b c, holds s l path -> is_Some (CreateClassObj lib s l b c).1 <-> lib path <> None /\ (b, c) ∈ classes path).
Proof.
  intros Hu Ha s. pose proof (loader_run_ok ops _ Hu process_new_ok Ha) as Hok. fold s in Hok. pose proof Hok as [].
  split; [done|]. split; [intros o x Hx; split; [by eapply object_library|by apply (lo_objects0 o)]|].
  split; [intros path Hp; by apply (proj2 lo_open0)|]. split; [intros b c f Hf; by destruct (lo_factory0 _ _ _ Hf) as (_ & ? & _ & _ & ?)|].
  intros l path b c (x & Hx & Hp & Hr). destruct (CreateClassObj_ok s l x b c Hu Hok Hx) as (_ & _ & _ & -> & _). rewrite Hp. tauto.
Qed.
End Proofs.

(** ** Example libraries *)
Definition example_lib (path : string) : option (list (string * string)) :=
  if decide (path = "/lib/camera.so"%string) then Some [("Component", "Camera"); ("Component", "Lens")]%string
  else if decide (path = "/lib/lidar.so"%string) then Some [("Component", "Lidar")]%string
  else if decide (path = "/lib/lidar2.so"%string) then Some [("Component", "Lidar")]%string
  else None.
Definition two_libs (path : string) : option (list (string * string)) := if decide (path = "/lib/lidar2.so"%string) then None else example_lib path.

Lemma two_libs_own : own_classes two_libs.
Proof.
  intros p q e. unfold classes, two_libs, example_lib. repeat destruct (decide _); cbn; subst; try done; intros Hp Hq; 
    rewrite ?elem_of_cons in Hp; rewrite ?elem_of_cons in Hq; destruct_or?; subst; try done; by apply not_elem_of_nil in Hp || by apply not_elem_of_nil in Hq.
Defined.

Definition example_history : list loader_op :=
  [New "/lib/camera.so"; New "/lib/camera.so"; Create 1 "Component" "Lens"; New "/lib/lidar.so"; Unload 0; Unload 1; Release 2; Delete 0; Unload 1; New "/lib/none.so"].

Lemma class_loaders_safe_witness :
  own_classes two_libs /\ allowed_run two_libs process_new example_history /\
  opened_libraries (foldl (loader_step two_libs) process_new example_history) = ["/lib/lidar.so"%string] /\
  broken (foldl (loader_step two_libs) process_new example_history) = false.
Proof.
  assert (Ha : allowed_run two_libs process_new example_history).
  { repeat (split; [vm_compute; first [exact I|by eexists|eexists; repeat split; discriminate]|]). exact I. }
  split; [exact two_libs_own|]. split; [exact Ha|]. split; [by vm_compute|].
  exact (proj1 (class_loaders_safe two_libs example_history two_libs_own Ha)).
Defined.

(** ** What the hypotheses exclude *)

(** A class that two libraries register: the second registration replaces the factory without a word,
    the first library is closed while its object is in use, and dropping the object runs closed code. *)
Lemma library_closed_beneath_object :
  let s := foldl (loader_step example_lib) process_new [New "/lib/lidar.so"; Create 0 "Component" "Lidar"; New "/lib/lidar2.so"; New "/lib/lidar.so"; Unload 3; Release 1]%string in
  opened_libraries s = ["/lib/lidar2.so"%string] /\ broken s = true.
Proof. by vm_compute. Qed.

(** A loader that loaded its library twice and is deleted stays attached: its library is never closed. *)
Lemma deleted_loader_keeps_library :
  let s := foldl (loader_step two_libs) process_new [New "/lib/lidar.so"; Load 0; Delete 0]%string in
  loaders s = ∅ /\ opened_libraries s = ["/lib/lidar.so"%string] /\
  relative_class_loaders_ <$> factory s "Component" "Lidar" = Some [Some 0%nat].
Proof. by vm_compute. Qed.

(** [IsLibraryLoaded] of a loader is whether anybody has its library open: [CreateClassObj] through a
    loader that has unloaded does not load again and fails. *)
Lemma unloaded_loader_not_reloaded :
  let s := foldl (loader_step two_libs) process_new [New "/lib/lidar.so"; New "/lib/lidar.so"; Unload 0]%string in
  IsLibraryLoaded s 0 = true /\ (CreateClassObj two_libs s 0 "Component" "Lidar").1 = None /\
  let s := foldl (loader_step two_libs) process_new [New "/lib/lidar.so"; Unload 0]%string in
  (CreateClassObj two_libs s 0 "Component" "Lidar").1 = Some 1%nat.
Proof. by vm_compute. Qed.

(** A manager that has unloaded a library keeps a null pointer for it; making an object of a class by name calls through it. *)
Lemma null_loader_called :
  let '(_, s, m) := Manager_LoadLibrary two_libs process_new ∅ "/lib/camera.so" in
  let '(_, s, m) := Manager_UnloadLibrary s m "/lib/camera.so" in
  let '(_, s, m) := Manager_LoadLibrary two_libs s m "/lib/lidar.so" in
  GetAllValidLibPath m = ["/lib/lidar.so"%string] /\ Manager_CreateClassObj two_libs s m "Component" "Lidar" = None.
Proof. by vm_compute. Qed.
