(* ===== verification/ModuleController.v ===== *)
(** * The module controller and the main board: mainboard/, the paths of common/file.cc

    [ModuleController] resolves the configuration files of the command line, loads the libraries and
    the components they name through a [ClassLoaderManager], and clears them away at the end.

    Parameters: [lib], the classes that a library registers (ClassLoader.v); [path_exists], the file
    system; [dag_file], the message parsed from a file, if it can be; [initialize] and
    [initialize_timer], the virtual functions of the components; [task_pool_size] of the scheduler.
    They do not change while the components are loaded. *)

From Stdlib Require Import ZArith Lia Ascii.
From stdpp Require Import base gmap sets strings list sorting.
From S2P Require Import Prelude ClassLoader.

(** ** Paths *)

(** [front()] and [back()] of an empty string are its terminator. *)
Definition front (s : string) : ascii := default "000"%char (String.get 0 s).
Definition back (s : string) : ascii := default "000"%char (String.get (String.length s - 1) s).

Definition GetAbsolutePath (prefix relative_path : string) : string :=
  if String.eqb relative_path "" then prefix
  else if String.eqb prefix "" || Ascii.eqb (front relative_path) "/" then relative_path
  else if Ascii.eqb (back prefix) "/" then prefix +:+ relative_path
  else prefix +:+ "/" +:+ relative_path.

(** [rfind]: the place of the last [c]. *)
Fixpoint rfind (c : ascii) (s : string) : option nat :=
  match s with
  | EmptyString => None
  | String x s => match rfind c s with Some i => Some (S i) | None => if Ascii.eqb x c then Some 0%nat else None end
  end.

Definition GetFileName (path : string) (remove_extension : bool) : string :=
  let start := match rfind "/" path with None => 0%nat | Some i => S i end in
  let stop := if remove_extension then match rfind "." path with Some e => if (e <? start)%nat then None else Some e | None => None end else None in
  String.substring start (match stop with Some e => e - start | None => String.length path - start end)%nat path.

Definition WorkRoot (cyber_path : string) : string := if String.eqb cyber_path "" then "/apollo/cyber" else cyber_path.

(** ** Configurations *)
Record ModuleConfig {Config TimerConfig : Type} := mkModule {
  module_library : string;
  components : list (string * Config);
  timer_components : list (string * TimerConfig)
}.
Arguments ModuleConfig : clear implicits.

(** [typeid(ComponentBase).name()] *)
Definition ComponentBase_name : string := "N6apollo5cyber13ComponentBaseE".

(** [component_nums] was given to [GlobalData], the objects [shut_down] were shut down, in this order;
    [null_call]: a member function was called through a null loader. *)
Record ModuleController := mkController {
  total_component_nums : Z;
  has_timer_component : bool;
  libpath_loader_map_ : gmap string (option nat);
  component_list_ : list nat;
  the_process : process;
  component_nums : option Z;
  shut_down : list nat;
  null_call : bool
}.

Definition controller_new (s : process) : ModuleController := mkController 0 false ∅ [] s None [] false.
Definition with_nums (c : ModuleController) n t k := mkController n t (libpath_loader_map_ c) (component_list_ c) (the_process c) k (shut_down c) (null_call c).
Definition with_loaded (c : ModuleController) s m := mkController (total_component_nums c) (has_timer_component c) m (component_list_ c) s (component_nums c) (shut_down c) (null_call c).
Definition with_components (c : ModuleController) l := mkController (total_component_nums c) (has_timer_component c) (libpath_loader_map_ c) l (the_process c) (component_nums c) (shut_down c) (null_call c).
Definition with_shut (c : ModuleController) l := mkController (total_component_nums c) (has_timer_component c) (libpath_loader_map_ c) (component_list_ c) (the_process c) (component_nums c) (shut_down c ++ l) (null_call c).
Definition with_null_call (c : ModuleController) := mkController (total_component_nums c) (has_timer_component c) (libpath_loader_map_ c) (component_list_ c) (the_process c) (component_nums c) (shut_down c) true.

(** A loop that returns false from the first element that fails. *)
Fixpoint each {A} (f : A -> ModuleController -> bool * ModuleController) (l : list A) (c : ModuleController) : bool * ModuleController :=
  match l with
  | [] => (true, c)
  | x :: l => let '(ok, c) := f x c in if ok then each f l c else (false, c)
  end.

Section Controller.
Context {Config TimerConfig : Type}.
Context (lib : string -> option (list (string * string))) (path_exists : string -> bool) (dag_file : string -> option (list (ModuleConfig Config TimerConfig))).
Context (initialize : string -> Config -> bool) (initialize_timer : string -> TimerConfig -> bool).
Context (task_pool_size : Z) (cyber_path current_path : string).

(** The object is made, initialised and kept; one that fails is dropped on the way out. *)
Definition load_component {C} (init : string -> C -> bool) (x : string * C) (c : ModuleController) : bool * ModuleController :=
  match Manager_CreateClassObj lib (the_process c) (libpath_loader_map_ c) ComponentBase_name x.1 with
  | None => (false, with_null_call c)
  | Some (None, s) => (false, with_loaded c s (libpath_loader_map_ c))
  | Some (Some o, s) =>
      if init x.1 x.2 then (true, with_components (with_loaded c s (libpath_loader_map_ c)) (component_list_ c ++ [o]))
      else (false, with_loaded c (OnClassObjDeleter s o) (libpath_loader_map_ c))
  end.

Definition load_path (m : ModuleConfig Config TimerConfig) : string :=
  if Ascii.eqb (front (module_library m)) "/" then module_library m else GetAbsolutePath (WorkRoot cyber_path) (module_library m).

Definition load_module_config (m : ModuleConfig Config TimerConfig) (c : ModuleController) : bool * ModuleController :=
  if negb (path_exists (load_path m)) then (false, c)
  else
    let '(_, s, map) := Manager_LoadLibrary lib (the_process c) (libpath_loader_map_ c) (load_path m) in
    let c := with_loaded c s map in
    let '(ok, c) := each (load_component initialize) (components m) c in
    if ok then each (load_component initialize_timer) (timer_components m) c else (false, c).

Definition LoadModule_config (dag : list (ModuleConfig Config TimerConfig)) : ModuleController -> bool * ModuleController := each load_module_config dag.

Definition LoadModule (path : string) (c : ModuleController) : bool * ModuleController :=
  match dag_file path with None => (false, c) | Some dag => LoadModule_config dag c end.

Definition GetComponentNum (path : string) (c : ModuleController) : Z * ModuleController :=
  match dag_file path with
  | None => (0, c)
  | Some dag =>
      foldl (fun r m => (r.1 + Z.of_nat (length (components m)),
        if (0 <? length (timer_components m))%nat then with_nums r.2 (total_component_nums r.2) true (component_nums r.2) else r.2)) (0, c) dag
  end.

Definition module_path (dag_conf : string) : string :=
  let work_root := WorkRoot cyber_path in
  let dag_root_path := GetAbsolutePath work_root "dag" in
  if String.eqb dag_conf (GetFileName dag_conf false) then GetAbsolutePath dag_root_path dag_conf
  else if Ascii.eqb (front dag_conf) "/" then dag_conf
  else
    let p := GetAbsolutePath current_path dag_conf in
    if negb (path_exists p) then GetAbsolutePath work_root dag_conf else p.

Definition LoadAll (dag_conf_list : list string) (c : ModuleController) : bool * ModuleController :=
  let c := foldl (fun c conf =>
    let '(n, c) := GetComponentNum (module_path conf) c in
    with_nums c (total_component_nums c + n) (has_timer_component c) (component_nums c)) c dag_conf_list in
  let c := if has_timer_component c then with_nums c (total_component_nums c + task_pool_size) true (component_nums c) else c in
  let c := with_nums c (total_component_nums c) (has_timer_component c) (Some (total_component_nums c)) in
  each LoadModule (module_path <$> dag_conf_list) c.

Definition Init := LoadAll.

(** [Shutdown] of every component; then the list lets its objects go, one after the other. *)
Definition Clear (c : ModuleController) : ModuleController :=
  let c := with_shut c (component_list_ c) in
  let s := foldl OnClassObjDeleter (the_process c) (component_list_ c) in
  let c := with_components c [] in
  let '(s, m) := UnloadAllLibrary s (libpath_loader_map_ c) in
  with_loaded c s m.

(** The main board, once the end of the process has been asked for. *)
Definition main (dag_conf_list : list string) (s : process) : Z * ModuleController :=
  let '(ok, c) := Init dag_conf_list (controller_new s) in
  if ok then (0, Clear c) else (-1, Clear c).
End Controller.

(** ** The specification of loading

    [st.1] are the libraries that have been asked for, [st.2] the classes made, in order.  A component
    is fine when one of these libraries registers its class and the object can be initialised. *)
Section Spec.
Context {Config TimerConfig : Type}.
Context (lib : string -> option (list (string * string))) (path_exists : string -> bool) (dag_file : string -> option (list (ModuleConfig Config TimerConfig))).
Context (initialize : string -> Config -> bool) (initialize_timer : string -> TimerConfig -> bool) (cyber_path : string).

Abbreviation spec_state := (list string * list string)%type.

Fixpoint all_fine {A} (fine : spec_state -> A -> bool) (next : spec_state -> A -> spec_state) (st : spec_state) (l : list A) : bool :=
  match l with [] => true | x :: l => fine st x && all_fine fine next (next st x) l end.

Definition component_fine {C} (init : string -> C -> bool) (open : list string) (x : string * C) : bool :=
  existsb (fun p => bool_decide ((ComponentBase_name, x.1) ∈ classes lib p)) open && init x.1 x.2.
Definition module_fine (st : spec_state) (m : ModuleConfig Config TimerConfig) : bool :=
  path_exists (load_path cyber_path m) && forallb (component_fine initialize (load_path cyber_path m :: st.1)) (components m) &&
  forallb (component_fine initialize_timer (load_path cyber_path m :: st.1)) (timer_components m).
Definition module_next (st : spec_state) (m : ModuleConfig Config TimerConfig) : spec_state :=
  (load_path cyber_path m :: st.1, (st.2 ++ (components m).*1) ++ (timer_components m).*1).
Definition dag_fine (st : spec_state) (path : string) : bool :=
  match dag_file path with None => false | Some dag => all_fine module_fine module_next st dag end.
Definition dag_next (st : spec_state) (path : string) : spec_state := foldl module_next st (default [] (dag_file path)).
End Spec.

(** ** The manager *)
Section Proofs.
Context (lib : string -> option (list (string * string))).
Implicit Types (s : process) (l : nat) (b c path : string).
Context (Hu : own_classes lib).

(** One loader per library, which has loaded it once, and no other loaders. *)
Record manager_ok s (m : gmap string (option nat)) : Prop := {
  mo_loaded : loaded_ok lib s;
  mo_loader : forall path l, m !! path = Some (Some l) -> held_by (loaders s) l = Some (path, 1);
  mo_owned : forall l, is_Some (loaders s !! l) -> exists path, m !! path = Some (Some l)
}.

Lemma elem_valid m path : path ∈ GetAllValidLibPath m <-> exists l, m !! path = Some (Some l).
Proof.
  unfold GetAllValidLibPath. rewrite list_elem_of_fmap. split.
  - intros ([p [l|]] & -> & [Hne Hin%elem_in_order]%list_elem_of_filter); [by exists l|done].
  - intros [l Hl]. exists (path, Some l). split; [done|]. apply list_elem_of_filter. split; [done|]. by apply elem_in_order.
Qed.
Lemma NoDup_valid m : NoDup (GetAllValidLibPath m).
Proof.
  unfold GetAllValidLibPath. eapply (sublist_NoDup _ (in_order m).*1); [|apply fmap_sublist, sublist_filter].
  unfold in_order. rewrite merge_sort_Permutation. apply NoDup_fst_map_to_list.
Qed.
Lemma IsLibraryValid_eq m path : IsLibraryValid m path = match m !! path with Some (Some _) => true | _ => false end.
Proof.
  unfold IsLibraryValid. destruct (decide (path ∈ GetAllValidLibPath m)) as [Hin|Hin]; [rewrite bool_decide_true by done|rewrite bool_decide_false by done]; rewrite elem_valid in Hin.
  - by destruct Hin as [l ->].
  - destruct (m !! path) as [[l|]|]; [destruct Hin; by exists l|done|done].
Qed.

Lemma manager_ok_held s s' m : manager_ok s m -> loaded_ok lib s' -> (forall l, held_by (loaders s') l = held_by (loaders s) l) -> manager_ok s' m.
Proof.
  intros [] Hok Hh. split; [done|intros path l Hl; rewrite Hh; auto|]. intros l [x Hx]. apply mo_owned0.
  specialize (Hh l). unfold held_by in Hh. rewrite Hx in Hh. cbn in Hh. destruct (loaders s !! l); [by eexists|done].
Qed.

Lemma held_by_some s l path n : held_by (loaders s) l = Some (path, n) -> exists k, loaders s !! l = Some (mkLoader path n k).
Proof. unfold held_by. destruct (loaders s !! l) as [[p r k]|]; [|done]. intros [= <- <-]. by exists k. Qed.

Lemma manager_holds s m path l : manager_ok s m -> m !! path = Some (Some l) -> holds s l path.
Proof. intros [] [k Hk]%mo_loader0%held_by_some. exists (mkLoader path 1 k). cbn. split; [done|]. split; [done|lia]. Qed.

(** *** Asking the loaders *)
Definition same s s' : Prop := loaders s' = loaders s /\ objects s' = objects s /\ next_id s' = next_id s /\ opened_libraries s' = opened_libraries s.

Lemma IsClassValid_ok s l path b c :
  loaded_ok lib s -> holds s l path ->
  let r := IsClassValid s l b c in r.1 = bool_decide ((b, c) ∈ classes lib path) /\ loaded_ok lib r.2 /\ same s r.2.
Proof.
  intros Hok Hh r. split; [|split; [by apply touched_ok|done]]. unfold r, IsClassValid, GetValidClassNames, utility_GetValidClassNames. cbn [GetClassFactoryMapByBaseClass fst].
  apply bool_decide_ext. rewrite list_elem_of_fmap.
  assert (Hf : forall c, default ∅ (factory_map_map s !! b) !! c = factory s b c) by (intros; unfold factory; by destruct (factory_map_map s !! b)).
  split.
  - intros ([c' f] & -> & [Hown Hin%elem_in_order]%list_elem_of_filter). cbn in *. rewrite Hf in Hin. apply bool_decide_eq_true in Hown.
    destruct (lo_factory _ _ Hok _ _ _ Hin) as (Hc & _ & _ & _ & Hall). destruct (Hall _ Hown) as (l' & [= <-] & x & Hx & Hp & _).
    destruct Hh as (y & Hy & <- & _). assert (y = x) as -> by congruence. by rewrite Hp.
  - intros Hin. destruct (lo_attached _ _ Hok l path b c Hh Hin) as (f & Hfc & Hown); [unfold classes in Hin; intros Hno; rewrite Hno in Hin; by apply not_elem_of_nil in Hin|].
    exists (c, f). split; [done|]. apply list_elem_of_filter. split; [by apply bool_decide_eq_true|]. apply elem_in_order. cbn. by rewrite Hf.
Qed.

Lemma first_valid_ok ls b c : forall s, loaded_ok lib s -> (forall x, x ∈ ls -> exists l path, x = Some l /\ holds s l path) ->
  match first_valid s ls b c with
  | (Some (Some l), s') => loaded_ok lib s' /\ same s s' /\ Some l ∈ ls /\ exists path, holds s l path /\ (b, c) ∈ classes lib path
  | (Some None, s') => loaded_ok lib s' /\ same s s' /\ forall l path, Some l ∈ ls -> holds s l path -> (b, c) ∉ classes lib path
  | (None, _) => False
  end.
Proof.
  induction ls as [|x ls IH]; intros s Hok Hls; cbn [first_valid]; [split; [done|]; split; [done|]; by intros l path ?%not_elem_of_nil|].
  destruct (Hls x) as (l & path & -> & Hh); [by left|]. destruct (IsClassValid_ok s l path b c Hok Hh) as (Hv & Hok' & Hs).
  destruct (IsClassValid s l b c) as [v s1]. cbn [fst snd] in *. pose proof Hs as (Hl1 & Ho1 & Hn1 & Hop1).
  assert (Hhs : forall l path, holds s1 l path <-> holds s l path) by (intros; unfold holds; by rewrite Hl1).
  destruct v; [split; [done|]; split; [done|]; split; [by left|]; exists path; split; [done|]; symmetry in Hv; by apply bool_decide_eq_true in Hv|].
  specialize (IH s1 Hok'). destruct (first_valid s1 ls b c) as [[[l'|]|] s2].
  - destruct IH as (? & (? & ? & ? & ?) & ? & p & ? & ?); [intros y Hy; destruct (Hls y) as (l2 & p2 & ? & ?); [by right|]; exists l2, p2; by rewrite Hhs|].
    split; [done|]. split; [repeat split; congruence|]. split; [by right|]. exists p. by rewrite <- Hhs.
  - destruct IH as (? & (? & ? & ? & ?) & Hno); [intros y Hy; destruct (Hls y) as (l2 & p2 & ? & ?); [by right|]; exists l2, p2; by rewrite Hhs|].
    split; [done|]. split; [repeat split; congruence|]. intros l2 p2 [[= ->]|Hin]%elem_of_cons Hh2; [|by eapply Hno; [|apply Hhs]].
    destruct Hh as (? & ? & <- & _), Hh2 as (? & ? & <- & _). symmetry in Hv. apply bool_decide_eq_false in Hv. congruence.
  - apply IH. intros y Hy. destruct (Hls y) as (l2 & p2 & ? & ?); [by right|]. exists l2, p2. by rewrite Hhs.
Qed.

(** *** Loading and unloading *)
Lemma Manager_LoadLibrary_ok s m path :
  manager_ok s m -> m !! path <> Some None ->
  let '(r, s', m') := Manager_LoadLibrary lib s m path in
  r = true /\ manager_ok s' m' /\ objects s' = objects s /\
  exists l, m' = <[path := Some l]> m.
Proof.
  intros Hm Hno. pose proof Hm as [Hok Hl Ho]. unfold Manager_LoadLibrary. rewrite IsLibraryValid_eq. destruct (m !! path) as [[l|]|] eqn:Hp; [|done|]; cbn [negb].
  - rewrite IsLibraryValid_eq, Hp. do 3 (split; [done|]). exists l. symmetry. by apply insert_id.
  - destruct (ClassLoader_new_ok lib s path Hu Hok) as (Hok' & Hfresh & Hls & Hobj & _). destruct (ClassLoader_new lib s path) as [l s']. cbn [fst snd] in *.
    rewrite IsLibraryValid_eq, lookup_insert_eq. split; [done|]. split; [|split; [done|by exists l]]. split; [done| |].
    + intros q l'. unfold held_by. rewrite Hls. intros [[<- [= <-]]|[Hne Hq]]%lookup_insert_Some; [by rewrite lookup_insert_eq|].
      apply Hl, held_by_some in Hq as Hq'. destruct Hq' as [k Hk]. rewrite lookup_insert_ne by congruence. by rewrite Hk.
    + intros l'. rewrite Hls. intros [<-|[Hne Hl']]%lookup_insert_is_Some; [exists path; apply lookup_insert_eq|]. destruct (Ho _ Hl') as [q Hq].
      exists q. rewrite lookup_insert_ne by congruence. done.
Qed.

Lemma no_objects_of s l : objects s = ∅ -> objects_of s l = 0%nat.
Proof. intros Ho. unfold objects_of. by rewrite Ho. Qed.

Lemma Manager_UnloadLibrary_ok s m path l :
  manager_ok s m -> objects s = ∅ -> m !! path = Some (Some l) ->
  let '(r, s', m') := Manager_UnloadLibrary s m path in r = 0 /\ manager_ok s' m' /\ objects s' = ∅ /\ m' = <[path := None]> m.
Proof.
  intros Hm Hobj Hp. pose proof Hm as [Hok Hl Ho]. unfold Manager_UnloadLibrary. rewrite IsLibraryValid_eq, Hp. unfold GetClassLoaderByLibPath. rewrite Hp. cbn.
  destruct (held_by_some _ _ _ _ (Hl _ _ Hp)) as [k Hx]. set (x := mkLoader path 1 k) in *.
  destruct (UnloadLibrary_ok lib s l x Hu Hok Hx) as (Hok1 & Hr & Hl1 & Ho1 & _). rewrite decide_True in Hr, Hl1 by (by apply no_objects_of). change (Z.max 0 (loadlib_ref_count_ x - 1)) with 0 in Hr, Hl1.
  destruct (UnloadLibrary s l) as [n s1]. cbn [fst snd] in *. subst n. change (0 =? 0) with true. cbn iota.
  destruct (ClassLoader_delete_ok lib s1 l (set_loadlib 0 x) Hu Hok1) as (Hok2 & Hl2 & Ho2); [rewrite Hl1; apply lookup_insert_eq|done|apply no_objects_of; congruence|].
  rewrite insert_insert_eq. split; [done|]. split; [|split; [by rewrite Ho2, Ho1|done]]. rewrite Hl1, delete_insert_eq in Hl2. split; [done| |].
  - intros q l' [[_ [=]]|[Hne Hq]]%lookup_insert_Some. pose proof (Hl _ _ Hq) as Hq'. unfold held_by in *. rewrite Hl2.
    rewrite lookup_delete_ne; [done|]. intros <-. rewrite Hx in Hq'. cbn in Hq'. congruence.
  - intros l'. rewrite Hl2. intros [Hne Hl']%lookup_delete_is_Some. destruct (Ho _ Hl') as [q Hq]. exists q. rewrite lookup_insert_ne; [done|]. congruence.
Qed.

Lemma unload_paths_ok ps : forall s m, manager_ok s m -> objects s = ∅ -> NoDup ps -> (forall p, p ∈ ps <-> exists l, m !! p = Some (Some l)) ->
  let r := foldl (fun r path => let '(_, s, m) := Manager_UnloadLibrary r.1 r.2 path in (s, m)) (s, m) ps in
  manager_ok r.1 r.2 /\ objects r.1 = ∅ /\ forall p l, r.2 !! p <> Some (Some l).
Proof.
  induction ps as [|p ps IH]; intros s m Hm Hobj Hnd Hps; cbn.
  - split; [done|]. split; [done|]. intros p l Hp. assert (Hin : p ∈ []) by (apply Hps; eauto). by apply not_elem_of_nil in Hin.
  - apply NoDup_cons in Hnd as [Hp Hnd]. destruct (proj1 (Hps p)) as [l Hl]; [by left|]. pose proof (Manager_UnloadLibrary_ok s m p l Hm Hobj Hl) as Hun.
    destruct (Manager_UnloadLibrary s m p) as [[n s'] m']. destruct Hun as (_ & Hm' & Ho' & ->). apply IH; try done.
    intros q. split.
    + intros Hq. destruct (proj1 (Hps q)) as [l' Hl']; [by right|]. exists l'. rewrite lookup_insert_ne by (by intros <-). done.
    + intros [l' [[_ [=]]|[Hne Hq]]%lookup_insert_Some]. assert (Hin : q ∈ p :: ps) by (apply Hps; eauto). by apply elem_of_cons in Hin as [->|?].
Qed.

(** All libraries are closed when no object is left. *)
Lemma UnloadAllLibrary_ok s m : manager_ok s m -> objects s = ∅ ->
  let r := UnloadAllLibrary s m in
  loaded_ok lib r.1 /\ objects r.1 = ∅ /\ loaders r.1 = ∅ /\ opened_libraries r.1 = [] /\ (forall b c, factory r.1 b c = None) /\ forall p l, r.2 !! p <> Some (Some l).
Proof.
  intros Hm Hobj r. destruct (unload_paths_ok _ s m Hm Hobj (NoDup_valid m) (elem_valid m)) as (Hm' & Ho' & Hno). fold (UnloadAllLibrary s m) in Hm', Ho', Hno. fold r in Hm', Ho', Hno.
  destruct Hm' as [Hok _ Hown]. assert (Hl : loaders r.1 = ∅).
  { apply map_empty. intros l. destruct (loaders r.1 !! l) eqn:Hl; [|done]. destruct (Hown l) as [q Hq]; [by eexists|]. by destruct (Hno q l). }
  assert (Hop : forall p, p ∉ opened_libraries r.1).
  { intros p Hp. destruct (proj2 (lo_open _ _ Hok) p Hp) as (_ & l & x & Hx & _). by rewrite Hl in Hx. }
  do 3 (split; [done|]). split; [|split; [|done]].
  - destruct (opened_libraries r.1) as [|p k]; [done|]. destruct (Hop p). by left.
  - intros b c. destruct (factory r.1 b c) as [f|] eqn:Hf; [|done]. destruct (Hop (relative_library_path_ f)). by apply (lo_factory _ _ Hok _ _ _ Hf).
Qed.

(** *** Dropping objects *)
Lemma drop_ok s m o : manager_ok s m -> manager_ok (OnClassObjDeleter s o) m /\ objects (OnClassObjDeleter s o) = delete o (objects s).
Proof.
  intros Hm. destruct (OnClassObjDeleter_ok lib s o Hu (mo_loaded _ _ Hm)) as (Hok & Ho & _ & _ & Hh). split; [|done]. by apply (manager_ok_held s).
Qed.
Lemma drop_all_ok k : forall s m, manager_ok s m ->
  manager_ok (foldl OnClassObjDeleter s k) m /\ forall o, is_Some (objects (foldl OnClassObjDeleter s k) !! o) <-> is_Some (objects s !! o) /\ o ∉ k.
Proof.
  induction k as [|x k IH]; intros s m Hm; cbn; [split; [done|]; intros o; split; [intros ?; split; [done|apply not_elem_of_nil]|by intros []]|].
  destruct (drop_ok s m x Hm) as [Hm' Ho]. destruct (IH _ m Hm') as [? Hk]. split; [done|]. intros o. rewrite Hk, Ho, lookup_delete_is_Some, not_elem_of_cons.
  split; [intros [[? ?] ?]|intros (? & ? & ?)]; repeat split; congruence || done.
Qed.

(** ** The controller *)
Record controller_ok (c : ModuleController) : Prop := {
  co_manager : manager_ok (the_process c) (libpath_loader_map_ c);
  co_present : forall p, libpath_loader_map_ c !! p <> Some None;
  co_list : NoDup (component_list_ c) /\ forall o, o ∈ component_list_ c <-> is_Some (objects (the_process c) !! o);
  co_call : null_call c = false
}.

(** The classes of the components that are kept. *)
Definition made (c : ModuleController) : list (option string) := (fun o => o_class <$> objects (the_process c) !! o) <$> component_list_ c.

(** [st] is the abstract state of the controller. *)
Definition abstracts (st : list string * list string) (c : ModuleController) : Prop :=
  (forall p, p ∈ st.1 <-> is_Some (libpath_loader_map_ c !! p)) /\ made c = Some <$> st.2.

(** What loading leaves alone. *)
Definition frame (c c' : ModuleController) : Prop := component_nums c' = component_nums c /\ shut_down c' = shut_down c.
#[local] Instance frame_preorder : PreOrder frame.
Proof. split; [by split|]. intros x y z [] []. split; congruence. Qed.

(** [f] does to the controller what [fine] and [next] do to its abstract state. *)
Definition implements {A} (f : A -> ModuleController -> bool * ModuleController) (fine : list string * list string -> A -> bool) next : Prop :=
  forall x st (c : ModuleController), controller_ok c -> abstracts st c ->
    let r := f x c in controller_ok r.2 /\ frame c r.2 /\ r.1 = fine st x /\ (r.1 = true -> abstracts (next st x) r.2).

Lemma each_implements {A} (f : A -> ModuleController -> bool * ModuleController) fine next :
  implements f fine next -> implements (each f) (all_fine fine next) (foldl next).
Proof.
  intros Hf xs. induction xs as [|x xs IH]; intros st c Hok Hst; [by cbn|]. cbn [each all_fine foldl].
  destruct (Hf x st c Hok Hst) as (Hok' & Hfr & Hb & Hnext). destruct (f x c) as [b c']. cbn [fst snd] in *. subst b.
  destruct (fine st x); [|done]. destruct (IH _ c' Hok' (Hnext eq_refl)) as (? & ? & ? & ?). split; [done|]. split; [by trans c'|]. by split.
Qed.

Lemma components_fine {C} (fine : list string -> string * C -> bool) xs : forall st,
  all_fine (fun st x => fine st.1 x) (fun st x => (st.1, st.2 ++ [x.1])) st xs = forallb (fine st.1) xs /\
  foldl (fun st x => (st.1, st.2 ++ [x.1])) st xs = (st.1, st.2 ++ xs.*1).
Proof.
  induction xs as [|x xs IH]; intros [open names]; cbn; [by rewrite app_nil_r|]. destruct (IH (open, names ++ [x.1])) as [-> ->]. cbn. by rewrite <- app_assoc.
Qed.

Lemma holds_path s l p q : holds s l p -> holds s l q -> p = q.
Proof. intros (x & Hx & <- & _) (y & Hy & <- & _). congruence. Qed.

Lemma elem_loaders m x : x ∈ GetAllValidClassLoaders m <-> exists p, m !! p = Some x.
Proof.
  unfold GetAllValidClassLoaders. rewrite list_elem_of_fmap. split; [intros ([p y] & -> & Hin%elem_in_order); by exists p|].
  intros [p Hp]. exists (p, x). split; [done|]. by apply elem_in_order.
Qed.

(** Asking for a class makes an object exactly when a library that was asked for registers it. *)
Lemma Manager_CreateClassObj_ok s m open b c :
  manager_ok s m -> (forall p, m !! p <> Some None) -> (forall p, p ∈ open <-> is_Some (m !! p)) ->
  exists r, Manager_CreateClassObj lib s m b c = Some r /\ manager_ok r.2 m /\
    bool_decide (is_Some r.1) = existsb (fun p => bool_decide ((b, c) ∈ classes lib p)) open /\
    match r.1 with Some o => objects s !! o = None /\ exists x, objects r.2 = <[o := x]> (objects s) /\ o_class x = c | None => objects r.2 = objects s end.
Proof.
  intros Hm Hnull Hopen. pose proof Hm as [Hok Hl Ho].
  assert (Hkey : forall p l, m !! p = Some (Some l) -> holds s l p) by (intros; by eapply manager_holds).
  pose proof (first_valid_ok (GetAllValidClassLoaders m) b c s Hok) as Hfirst. unfold Manager_CreateClassObj.
  destruct (first_valid s (GetAllValidClassLoaders m) b c) as [[[l|]|] s1].
  - destruct Hfirst as (Hok1 & (Hl1 & Ho1 & _ & Hop1) & Hin & path & Hh & Hc).
    { intros x Hx. apply elem_loaders in Hx as [p Hp]. destruct x as [l'|]; [|by destruct (Hnull p)]. exists l', p. split; [done|]. by apply Hkey. }
    apply elem_loaders in Hin as [p Hp]. assert (p = path) as -> by (eapply holds_path; [|done]; by apply Hkey).
    destruct (held_by_some _ _ _ _ (Hl _ _ Hp)) as [k Hx]. rewrite <- Hl1 in Hx. pose proof Hh as (z & Hz & _).
    assert (Hlib : lib path <> None) by (unfold classes in Hc; intros Hno; rewrite Hno in Hc; by apply not_elem_of_nil in Hc).
    assert (Hopn : path ∈ opened_libraries s1).
    { destruct (lo_attached _ _ Hok _ _ _ _ Hh Hc Hlib) as (f & Hf & _). rewrite Hop1, <- (factory_library _ _ _ _ _ _ Hu Hok Hf Hc). apply (lo_factory _ _ Hok _ _ _ Hf). }
    destruct (CreateClassObj_ok lib s1 l _ b c Hu Hok1 Hx) as (Hok2 & _ & Hobj & Hsome & Hheld). cbn [library_path_ loadlib_ref_count_] in *.
    exists (CreateClassObj lib s1 l b c). split; [done|]. split; [|split].
    + apply (manager_ok_held s); [done|done|]. intros l'. rewrite Hheld, decide_False by tauto. by rewrite Hl1.
    + transitivity true; [apply bool_decide_eq_true; apply Hsome; split; [done|]; split; [done|lia]|]. symmetry. apply existsb_exists. exists path.
      split; [|by apply bool_decide_eq_true]. apply list_elem_of_In, Hopen. by eexists.
    + rewrite Ho1 in Hobj. destruct (CreateClassObj lib s1 l b c).1 as [o|]; [|done]. destruct Hobj as [Hobj Hfresh]. split; [done|]. by eexists.
  - destruct Hfirst as (Hok1 & (Hl1 & Ho1 & _) & Hno).
    { intros x Hx. apply elem_loaders in Hx as [p Hp]. destruct x as [l'|]; [|by destruct (Hnull p)]. exists l', p. split; [done|]. by apply Hkey. }
    exists (None, s1). split; [done|]. split; [apply (manager_ok_held s); [done|done|]; intros l'; cbn [snd]; by rewrite Hl1|]. split; [|done].
    symmetry. apply not_true_is_false. intros (p & Hp%list_elem_of_In & Hc%bool_decide_eq_true)%existsb_exists.
    apply Hopen in Hp as [[l|] Hp]; [|by destruct (Hnull p)]. apply (Hno l p); [apply elem_loaders; by exists p|by apply Hkey|done].
  - destruct Hfirst. intros x Hx. apply elem_loaders in Hx as [p Hp]. destruct x as [l'|]; [|by destruct (Hnull p)]. exists l', p. split; [done|]. by apply Hkey.
Qed.

Lemma load_component_implements {C} (init : string -> C -> bool) :
  implements (load_component lib init) (fun st x => component_fine lib init st.1 x) (fun st x => (st.1, st.2 ++ [x.1])).
Proof.
  intros [cls cfg] [open names] c Hok [Hopen Hmade]. pose proof Hok as [Hm Hnull [Hnd Hlist] Hcall]. unfold load_component, component_fine. cbn [fst snd] in *.
  destruct (Manager_CreateClassObj_ok (the_process c) _ open ComponentBase_name cls Hm Hnull Hopen) as ([[o|] s] & -> & Hm' & Hav & Hobj); cbn [fst snd] in *; rewrite <- Hav.
  - destruct Hobj as (Hfresh & x & Hobj & <-). assert (Hnew : o ∉ component_list_ c) by (rewrite Hlist, Hfresh; by intros []).
    assert (Hb : bool_decide (is_Some (Some o)) = true) by (apply bool_decide_eq_true; by eexists). rewrite Hb. cbn [andb]. destruct (init (o_class x) cfg); cbn [fst snd].
    + split; [|split; [done|split; [done|intros _; split; [done|]]]].
      * split; [done|done| |done]. cbn. rewrite Hobj. split; [apply NoDup_app; split; [done|]; split; [|apply NoDup_singleton]; by intros y Hy ->%list_elem_of_singleton|].
        intros y. rewrite elem_of_app, list_elem_of_singleton, lookup_insert_is_Some, Hlist. destruct (decide (o = y)) as [->|]; [tauto|]. split; [intros [?| ->]; tauto|tauto].
      * unfold made in *. cbn. rewrite Hobj, !fmap_app, <- Hmade. f_equal; [|cbn; by rewrite lookup_insert_eq].
        apply list_fmap_ext. intros i y Hy. apply list_elem_of_lookup_2 in Hy. rewrite lookup_insert_ne; [done|]. by intros ->.
    + destruct (drop_ok s _ o Hm') as [Hm2 Ho2]. rewrite Hobj, delete_insert_id in Ho2 by done.
      split; [|done]. split; [done|done| |done]. cbn. by rewrite Ho2.
  - split; [|done]. split; [done|done| |done]. cbn. by rewrite Hobj.
Qed.

Context {Config TimerConfig : Type} (path_exists : string -> bool) (dag_file : string -> option (list (ModuleConfig Config TimerConfig))).
Context (initialize : string -> Config -> bool) (initialize_timer : string -> TimerConfig -> bool).
Context (task_pool_size : Z) (cyber_path current_path : string).

Lemma load_module_implements :
  implements (load_module_config lib path_exists initialize initialize_timer cyber_path)
    (module_fine lib path_exists initialize initialize_timer cyber_path) (module_next cyber_path).
Proof.
  intros m [open names] c Hok [Hopen Hmade]. pose proof Hok as [Hm Hnull Hlist Hcall]. unfold load_module_config, module_fine, module_next. cbn [fst snd].
  destruct (path_exists (load_path cyber_path m)); [|done]. cbn [negb andb]. set (p := load_path cyber_path m).
  pose proof (Manager_LoadLibrary_ok _ _ p Hm (Hnull p)) as Hload. destruct (Manager_LoadLibrary lib _ _ p) as [[b s] map]. destruct Hload as (_ & Hm1 & Ho1 & l & ->).
  set (c1 := with_loaded c s _).
  assert (Hok1 : controller_ok c1).
  { split; [done| | |done]; cbn; [|by rewrite Ho1]. intros q [[_ [=]]|[_ Hq]]%lookup_insert_Some. by apply (Hnull q). }
  assert (Hst1 : abstracts (p :: open, names) c1).
  { split; cbn; [|unfold made; cbn; by rewrite Ho1]. intros q. cbn in Hopen. rewrite elem_of_cons, lookup_insert_is_Some, Hopen.
    destruct (decide (p = q)) as [->|]; [tauto|]. split; [intros [->|?]; tauto|tauto]. }
  destruct (each_implements _ _ _ (load_component_implements initialize) (components m) _ _ Hok1 Hst1) as (Hok2 & Hf2 & Hb2 & Hst2).
  destruct (components_fine (component_fine lib initialize) (components m) (p :: open, names)) as [Hfine Hnext]. rewrite Hfine in Hb2. rewrite Hnext in Hst2. cbn [fst snd] in Hb2, Hst2.
  destruct (each (load_component lib initialize) (components m) c1) as [b2 c2]. cbn [fst snd] in *. subst b2. destruct (forallb _ (components m)); [|done].
  destruct (each_implements _ _ _ (load_component_implements initialize_timer) (timer_components m) _ _ Hok2 (Hst2 eq_refl)) as (Hok3 & Hf3 & Hb3 & Hst3).
  destruct (components_fine (component_fine lib initialize_timer) (timer_components m) (p :: open, names ++ (components m).*1)) as [Hfine3 Hnext3].
  rewrite Hfine3 in Hb3. rewrite Hnext3 in Hst3. split; [done|]. split; [trans c1; [done|by trans c2]|]. by split.
Qed.

Lemma LoadModule_implements :
  implements (LoadModule lib path_exists dag_file initialize initialize_timer cyber_path)
    (dag_fine lib path_exists dag_file initialize initialize_timer cyber_path) (dag_next dag_file cyber_path).
Proof.
  intros p st c Hok Hst. unfold LoadModule, dag_fine, dag_next. destruct (dag_file p) as [dag|]; [|done]. by apply (each_implements _ _ _ load_module_implements).
Qed.

(** *** Counting the components *)
Abbreviation path_of := (module_path path_exists cyber_path current_path).
Abbreviation load_all := (LoadAll lib path_exists dag_file initialize initialize_timer task_pool_size cyber_path current_path).
Abbreviation main_board := (main lib path_exists dag_file initialize initialize_timer task_pool_size cyber_path current_path).

Definition modules_of (confs : list string) : list (ModuleConfig Config TimerConfig) := mjoin ((fun conf => default [] (dag_file (path_of conf))) <$> confs).
Definition count_of (ms : list (ModuleConfig Config TimerConfig)) : Z := Z.of_nat (sum_list ((fun m => length (components m)) <$> ms)).
Definition timers_in (ms : list (ModuleConfig Config TimerConfig)) : bool := existsb (fun m => 0 <? length (timer_components m))%nat ms.

Lemma GetComponentNum_eq path (c : ModuleController) :
  let ms := default [] (dag_file path) in
  GetComponentNum dag_file path c = (count_of ms, with_nums c (total_component_nums c) (has_timer_component c || timers_in ms) (component_nums c)).
Proof.
  unfold GetComponentNum. destruct (dag_file path) as [ms|]; cbn [default from_option id]; [|cbn; rewrite orb_false_r; by destruct c].
  assert (H : forall n (c : ModuleController), foldl (fun r m => (r.1 + Z.of_nat (length (components m)),
      if (0 <? length (timer_components m))%nat then with_nums r.2 (total_component_nums r.2) true (component_nums r.2) else r.2)) (n, c) ms =
    (n + count_of ms, with_nums c (total_component_nums c) (has_timer_component c || timers_in ms) (component_nums c))); [|apply (H 0)].
  unfold count_of, timers_in. clear. induction ms as [|m ms IH]; intros n c; [cbn; rewrite orb_false_r, Z.add_0_r; by destruct c|].
  cbn [foldl fst snd]. rewrite IH. f_equal; [cbn; lia|]. cbn [existsb]. destruct c as [t h]; unfold with_nums. generalize (0 <? length (timer_components m))%nat. intros []; [by destruct h|done].
Qed.

Lemma counted confs : forall c : ModuleController,
  foldl (fun (c : ModuleController) conf => let '(n, c) := GetComponentNum dag_file (path_of conf) c in with_nums c (total_component_nums c + n) (has_timer_component c) (component_nums c)) c confs =
  with_nums c (total_component_nums c + count_of (modules_of confs)) (has_timer_component c || timers_in (modules_of confs)) (component_nums c).
Proof.
  unfold modules_of. induction confs as [|conf confs IH]; intros c; [cbn; rewrite orb_false_r, Z.add_0_r; by destruct c|].
  cbn [foldl fmap list_fmap mjoin list_join]. rewrite GetComponentNum_eq, IH. unfold count_of, timers_in. rewrite existsb_app, fmap_app, sum_list_with_app.
  destruct c; unfold with_nums; cbn. f_equal; [by rewrite Nat2Z.inj_add, Z.add_assoc|by rewrite orb_assoc].
Qed.

Lemma controller_new_ok : controller_ok (controller_new process_new).
Proof.
  split; [|done| |done]; cbn.
  - split; [apply process_new_ok|done|by intros l []].
  - split; [constructor|]. intros o. split; [by intros ?%not_elem_of_nil|by intros []].
Qed.

(** Loading everything into a new controller. *)
Lemma LoadAll_ok confs :
  let r := load_all confs (controller_new process_new) in
  let fine := dag_fine lib path_exists dag_file initialize initialize_timer cyber_path in let next := dag_next dag_file cyber_path in
  controller_ok r.2 /\ r.1 = all_fine fine next ([], []) (path_of <$> confs) /\
  (r.1 = true -> abstracts (foldl next ([], []) (path_of <$> confs)) r.2) /\
  component_nums r.2 = Some (count_of (modules_of confs) + if timers_in (modules_of confs) then task_pool_size else 0) /\ shut_down r.2 = [].
Proof.
  intros r fine next. unfold r, LoadAll. rewrite counted. set (c1 := with_nums _ _ _ (component_nums _)) at 1. set (c := with_nums _ _ _ (Some _)).
  assert (Hok : controller_ok c).
  { unfold c, c1. cbn. pose proof controller_new_ok as []. destruct (timers_in (modules_of confs)); by split. }
  assert (Hst : abstracts ([], []) c).
  { unfold c, c1. cbn. destruct (timers_in (modules_of confs)); (split; [|done]); intros p; cbn; (split; [by intros ?%not_elem_of_nil|by intros []]). }
  assert (Hc : component_nums c = Some (count_of (modules_of confs) + if timers_in (modules_of confs) then task_pool_size else 0) /\ shut_down c = []).
  { unfold c, c1. cbn. destruct (timers_in (modules_of confs)); cbn; (split; [f_equal; lia|done]). }
  clearbody c. destruct (each_implements _ _ _ LoadModule_implements (path_of <$> confs) ([], []) c Hok Hst) as (? & [-> ->] & ? & ?).
  split; [done|]. split; [done|]. split; [done|]. exact Hc.
Qed.

(** C23: Loading the components of a command line does what its configurations say, when no two
    libraries register the same class ([own_classes]): starting from an empty
    process, [LoadAll] succeeds exactly when every file can be parsed, every library path exists,
    every component is of a class that a library asked for so far registers and every component can
    be initialised; then the components are those of the configurations, in their order, the timer
    components of a module after the others.  In any case the number announced first is that of the
    plain components of the files that can be parsed, and the size of the task pool on top when
    there is a timer component among them, and
    neither is code of a closed library run nor a member function called through a null loader. *)
Theorem LoadAll_refines confs :
  let r := load_all confs (controller_new process_new) in let paths := path_of <$> confs in
  r.1 = all_fine (dag_fine lib path_exists dag_file initialize initialize_timer cyber_path) (dag_next dag_file cyber_path) ([], []) paths /\
  (r.1 = true -> made r.2 = Some <$> (foldl (dag_next dag_file cyber_path) ([], []) paths).2) /\
  component_nums r.2 = Some (count_of (modules_of confs) + if timers_in (modules_of confs) then task_pool_size else 0) /\
  broken (the_process r.2) = false /\ null_call r.2 = false.
Proof.
  intros r paths. destruct (LoadAll_ok confs) as (Hok & Hb & Hst & Hn & _). fold r in Hok, Hb, Hst, Hn. split; [done|]. split; [by intros []%Hst|]. split; [done|].
  split; [apply (lo_fine _ _ (mo_loaded _ _ (co_manager _ Hok)))|by apply co_call].
Qed.

Lemma Clear_ok (c : ModuleController) : controller_ok c ->
  let r := Clear c in let s := the_process r in
  loaded_ok lib s /\ objects s = ∅ /\ loaders s = ∅ /\ opened_libraries s = [] /\ (forall b c, factory s b c = None) /\
  component_list_ r = [] /\ shut_down r = shut_down c ++ component_list_ c /\ null_call r = false.
Proof.
  intros [Hm _ [_ Hlist] Hcall] r s. unfold s, r, Clear. cbn [the_process with_shut with_components component_list_ libpath_loader_map_].
  destruct (drop_all_ok (component_list_ c) _ _ Hm) as [Hm' Hobj]. set (s1 := foldl OnClassObjDeleter (the_process c) (component_list_ c)) in *.
  assert (Ho : objects s1 = ∅).
  { apply map_empty. intros o. apply eq_None_not_Some. rewrite Hobj, <- Hlist. tauto. }
  destruct (UnloadAllLibrary_ok s1 _ Hm' Ho) as (? & ? & ? & ? & ? & _). destruct (UnloadAllLibrary s1 (libpath_loader_map_ c)) as [s2 m]. cbn in *. done.
Qed.

(** C24: The main board leaves nothing behind: whatever the command line, the files and libraries, and
    whether loading succeeds or fails half way, when no two libraries register the same class, every
    component that was loaded is shut down exactly once, in the order of loading, before it is
    dropped; at the end no object, loader, factory or open library is left; and on the way no code
    of a closed library was run and no member function called through a null loader. *)
Theorem main_leaves_nothing confs :
  let r := main_board confs process_new in let loaded := load_all confs (controller_new process_new) in let s := the_process r.2 in
  r.1 = (if loaded.1 then 0 else -1) /\
  shut_down r.2 = component_list_ loaded.2 /\ NoDup (shut_down r.2) /\ component_list_ r.2 = [] /\
  objects s = ∅ /\ loaders s = ∅ /\ opened_libraries s = [] /\ (forall b c, factory s b c = None) /\ broken s = false /\ null_call r.2 = false.
Proof.
  intros r loaded s. destruct (LoadAll_ok confs) as (Hok & _ & _ & _ & Hsh). fold loaded in Hok, Hsh.
  assert (Hr : r = (if loaded.1 then 0 else -1, Clear loaded.2)) by (unfold r, main, Init, loaded; by destruct (load_all confs _) as [[] c]).
  destruct (Clear_ok _ Hok) as (Hl & ? & ? & ? & ? & ? & Hs & ?). unfold s. rewrite Hr. cbn [fst snd]. rewrite Hsh in Hs. cbn [app] in Hs.
  split; [done|]. split; [done|]. rewrite Hs. split; [apply (co_list _ Hok)|]. do 5 (split; [done|]). split; [apply (lo_fine _ _ Hl)|done].
Qed.
End Proofs.

(** ** An example: a camera and a lidar, one with a timer; and a module whose second component fails *)
Definition board_lib (path : string) : option (list (string * string)) :=
  if decide (path = "/apollo/cyber/lib/camera.so"%string) then Some [(ComponentBase_name, "Camera"); (ComponentBase_name, "Lens")]%string
  else if decide (path = "/lib/lidar.so"%string) then Some [(ComponentBase_name, "Lidar")]%string
  else None.
Definition board_file (path : string) : option (list (ModuleConfig bool bool)) :=
  if decide (path = "/apollo/cyber/dag/camera.dag"%string) then Some [mkModule _ _ "lib/camera.so" [("Lens", true)] [("Camera", true)]]%string
  else if decide (path = "/dag/lidar.dag"%string) then Some [mkModule _ _ "/lib/lidar.so" [("Lidar", true); ("Lens", false)] []]%string
  else None.
Definition board_load := LoadAll board_lib (fun _ => true) board_file (fun _ ok => ok) (fun _ ok => ok) 100 "" "/home".
Definition board_main := main board_lib (fun _ => true) board_file (fun _ ok => ok) (fun _ ok => ok) 100 "" "/home".

Lemma board_own : own_classes board_lib.
Proof.
  intros p q e. unfold classes, board_lib. repeat destruct (decide _); cbn; subst; try done; intros Hp Hq;
    rewrite ?elem_of_cons in Hp; rewrite ?elem_of_cons in Hq; destruct_or?; subst; try done; by apply not_elem_of_nil in Hp || by apply not_elem_of_nil in Hq.
Defined.

Lemma LoadAll_refines_witness :
  own_classes board_lib /\ (board_load ["camera.dag"%string] (controller_new process_new)).1 = true /\
  made (board_load ["camera.dag"%string] (controller_new process_new)).2 = [Some "Lens"; Some "Camera"]%string /\
  component_nums (board_load ["camera.dag"; "/dag/lidar.dag"]%string (controller_new process_new)).2 = Some 103 /\
  (board_load ["camera.dag"; "/dag/lidar.dag"]%string (controller_new process_new)).1 = false.
Proof.
  assert (Hr : (board_load ["camera.dag"%string] (controller_new process_new)).1 = true) by (vm_compute; reflexivity).
  split; [exact board_own|]. split; [exact Hr|].
  destruct (LoadAll_refines board_lib board_own (fun _ => true) board_file (fun _ ok => ok) (fun _ ok => ok) 100 "" "/home" ["camera.dag"%string]) as (_ & Hmade & _).
  split; [etransitivity; [exact (Hmade Hr)|vm_compute; reflexivity]|]. split; vm_compute; reflexivity.
Defined.

Lemma main_leaves_nothing_witness :
  own_classes board_lib /\ (board_main ["camera.dag"; "/dag/lidar.dag"]%string process_new).1 = -1 /\
  shut_down (board_main ["camera.dag"; "/dag/lidar.dag"]%string process_new).2 = [1; 2; 4]%nat /\
  opened_libraries (the_process (board_main ["camera.dag"; "/dag/lidar.dag"]%string process_new).2) = [].
Proof.
  split; [exact board_own|]. split; [vm_compute; reflexivity|]. split; [vm_compute; reflexivity|].
  destruct (main_leaves_nothing board_lib board_own (fun _ => true) board_file (fun _ ok => ok) (fun _ ok => ok) 100 "" "/home" ["camera.dag"; "/dag/lidar.dag"]%string) as (_ & _ & _ & _ & _ & _ & H & _).
  exact H.
Defined.
