(* ===== verification/Logger.v ===== *)
(** * The asynchronous logger: src/logger/

    Threads put messages into a buffer under a spinning flag; the log thread swaps that buffer for an
    empty one and hands its messages, one after the other, to the file object of the module that
    the message names in brackets; [Stop] ends the log thread and hands over what is left.

    [AsyncLogger], log_thread and callers are interleaved at the accesses to the state, the flag and the
    buffers ([Write_step], [Stop_step], [RunThread_step]); a turn of the loop of [FlushBuffer] is three
    steps: the module name is cut out of the message in front, in the buffer; the file object gets
    what is left; the message is popped.  [Stop] flushes [active_buf_] without the flag: a late [Write]
    may come in between any two of these steps.  Two calls of [Stop] that overlap join the same thread
    and cut the same string without a lock, which is undefined: there the model stops.  A [LogFileObject] is called by one thread at a time (its mutex), its operations are
    functions; what the operating system answers is an argument.  [process_group] is the name that
    [GlobalData] gives for messages without a module. *)

From Stdlib Require Import ZArith Lia Ascii.
From stdpp Require Import base gmap functions strings list.
From S2P Require Import Prelude.

(** ** Module names: logger_util.h *)
Definition LEFT_BRACKET : string := "[".
Definition RIGHT_BRACKET : string := "]".

(** [erase]: without the [n] characters from [pos] on. *)
Definition erase (pos n : nat) (s : string) : string := String.substring 0 pos s +:+ String.substring (pos + n) (String.length s - (pos + n)) s.

Definition FindModuleName (process_group log_message module_name : string) : string * string :=
  let r := match String.index 0 LEFT_BRACKET log_message with
           | None => (log_message, module_name)
           | Some lpos =>
               match String.index lpos RIGHT_BRACKET log_message with
               | None => (log_message, module_name)
               | Some rpos => (erase lpos (rpos - lpos + 1) log_message, String.substring (lpos + 1) (rpos - lpos - 1) log_message)
               end
           end in
  (r.1, if String.eqb r.2 "" then process_group else r.2).

(** ** AsyncLogger *)
Record Msg := mkMsg { ts : Z; message : string; level : Z }.

Definition log_level_map (c : ascii) : option Z :=
  if Ascii.eqb c "F" then Some 3 else if Ascii.eqb c "E" then Some 2 else if Ascii.eqb c "W" then Some 1 else if Ascii.eqb c "I" then Some 0 else None.

(** The calls a file object gets. *)
Inductive file_call := FWrite (force_flush : bool) (timestamp : Z) (text : string) | FFlush.
#[export] Instance file_call_eq : EqDecision file_call. Proof. solve_decision. Defined.

Inductive State := INITTED | RUNNING | STOPPED.

(** [log_thread_]: joinable; [thread_done]: [RunThread] has returned; [aborted]: a check failed, or two
    calls of [Stop] overlap.  For the theorems: [stopping], a thread is in [Stop]; [handing], the message
    in front of the buffer that is being flushed as it was before its module name was cut out, and
    whether the file object has got it; [accepted], the messages in the order in which they were put
    into a buffer, and [written], in the order in which they were handed over, each with its module. *)
Record AsyncLogger := mkLogger {
  state_ : State;
  flag_ : bool;
  active_buf_ : list Msg;
  flushing_buf_ : list Msg;
  module_logger_map_ : gmap string (list file_call);
  log_thread_ : bool;
  thread_done : bool;
  aborted : bool;
  stopping : bool;
  handing : option (Msg * bool);
  accepted : list Msg;
  written : list (string * Msg)
}.

Definition AsyncLogger_new : AsyncLogger := mkLogger INITTED false [] [] ∅ false false false false None [] [].
Definition with_state s x := mkLogger x (flag_ s) (active_buf_ s) (flushing_buf_ s) (module_logger_map_ s) (log_thread_ s) (thread_done s) (aborted s) (stopping s) (handing s) (accepted s) (written s).
Definition with_flag s x := mkLogger (state_ s) x (active_buf_ s) (flushing_buf_ s) (module_logger_map_ s) (log_thread_ s) (thread_done s) (aborted s) (stopping s) (handing s) (accepted s) (written s).
Definition with_buffers s a f := mkLogger (state_ s) (flag_ s) a f (module_logger_map_ s) (log_thread_ s) (thread_done s) (aborted s) (stopping s) (handing s) (accepted s) (written s).
Definition with_map s m w := mkLogger (state_ s) (flag_ s) (active_buf_ s) (flushing_buf_ s) m (log_thread_ s) (thread_done s) (aborted s) (stopping s) (handing s) (accepted s) w.
Definition with_thread s j d := mkLogger (state_ s) (flag_ s) (active_buf_ s) (flushing_buf_ s) (module_logger_map_ s) j d (aborted s) (stopping s) (handing s) (accepted s) (written s).
Definition with_aborted s := mkLogger (state_ s) (flag_ s) (active_buf_ s) (flushing_buf_ s) (module_logger_map_ s) (log_thread_ s) (thread_done s) true (stopping s) (handing s) (accepted s) (written s).
Definition with_stopping s x := mkLogger (state_ s) (flag_ s) (active_buf_ s) (flushing_buf_ s) (module_logger_map_ s) (log_thread_ s) (thread_done s) (aborted s) x (handing s) (accepted s) (written s).
Definition with_handing s h := mkLogger (state_ s) (flag_ s) (active_buf_ s) (flushing_buf_ s) (module_logger_map_ s) (log_thread_ s) (thread_done s) (aborted s) (stopping s) h (accepted s) (written s).
Definition put s m := mkLogger (state_ s) (flag_ s) (active_buf_ s ++ [m]) (flushing_buf_ s) (module_logger_map_ s) (log_thread_ s) (thread_done s) (aborted s) (stopping s) (handing s) (accepted s ++ [m]) (written s).

(** [None]: the check fails. *)
Definition Start (s : AsyncLogger) : option AsyncLogger :=
  match state_ s with INITTED => Some (with_thread (with_state s RUNNING) true false) | _ => None end.

(** The message is a pointer, null or to a string of [message_len] characters. *)
Record write_args := mkArgs { force_flush : bool; timestamp : Z; text : option string }.

(** A turn of the loop of [FlushBuffer]: at its start, with the front cut, with the front written. *)
Inductive turn := Look (module_name : string) | Give (module_name : string) | Pop (module_name : string).

Inductive apc :=
  | Idle
  | WState (a : write_args) | WSpin (a : write_args) | WPut (a : write_args) | WClear (a : write_args) | WCheck (a : write_args) | WThrown
  | SStore | SJoin | SFlush (k : turn) | SCheck
  | RState | RSpin | RSwap | RClear | RFlush (k : turn) | RSleep | RDone.

Section AsyncLog.
Context (process_group : string).

Definition Flush (s : AsyncLogger) : AsyncLogger := with_map s ((fun calls => calls ++ [FFlush]) <$> module_logger_map_ s) (written s).

(** A step of [FlushBuffer] on [buffer]: the state, the buffer and where the loop is; [None]: it returns. *)
Definition FlushBuffer (s : AsyncLogger) (buffer : list Msg) (k : turn) : AsyncLogger * list Msg * option turn :=
  match k, buffer with
  | Look module_name, [] => (Flush s, [], None)
  | Look module_name, m :: l =>
      let '(text, name) := FindModuleName process_group (message m) module_name in
      (with_handing s (Some (m, false)), mkMsg (ts m) text (level m) :: l, Some (Give name))
  | Give name, m :: _ =>
      let calls := default [] (module_logger_map_ s !! name) ++ [FWrite (0 <? level m) (ts m) (message m)] in
      let whole := default m (fst <$> handing s) in
      (with_handing (with_map s (<[name := calls]> (module_logger_map_ s)) (written s ++ [(name, whole)])) (Some (whole, true)), buffer, Some (Pop name))
  | Pop name, _ :: l => (with_handing s None, l, Some (Look name))
  | _, [] => (s, [], Some k)
  end.

Definition Write_step (s : AsyncLogger) (p : apc) : AsyncLogger * apc :=
  match p with
  | WState a => (s, match state_ s with RUNNING => if (0 <? String.length (default "" (text a)))%nat then WSpin a else WCheck a | _ => Idle end)
  | WSpin a => if flag_ s then (s, WSpin a) else (with_flag s true, WPut a)
  | WPut a =>
      match text a with
      | Some (String c _ as m) => match log_level_map c with Some n => (put s (mkMsg (timestamp a) m n), WClear a) | None => (s, WThrown) end
      | _ => (s, WClear a)
      end
  | WClear a => (with_flag s false, WCheck a)
  | WCheck a => (s, match text a with Some EmptyString => if force_flush a && (timestamp a =? 0) then SStore else Idle | _ => Idle end)
  | _ => (s, p)
  end.

Definition Stop_step (s : AsyncLogger) (p : apc) : AsyncLogger * apc :=
  match p with
  | SStore => if stopping s then (with_aborted s, SStore) else (with_stopping (with_state s STOPPED) true, SJoin)
  | SJoin => if log_thread_ s then if thread_done s then (with_thread s false true, SFlush (Look "")) else (s, SJoin) else (s, SFlush (Look ""))
  | SFlush k =>
      let '(s', buffer, r) := FlushBuffer s (active_buf_ s) k in
      (with_buffers s' buffer (flushing_buf_ s), match r with Some k' => SFlush k' | None => SCheck end)
  | SCheck => match active_buf_ s, flushing_buf_ s with [], [] => (with_stopping s false, Idle) | _, _ => (with_aborted s, SCheck) end
  | _ => (s, p)
  end.

(** How long the thread sleeps depends on [active_buf_->size()], read without the flag. *)
Definition RunThread_step (s : AsyncLogger) (p : apc) : AsyncLogger * apc :=
  match p with
  | RState => match state_ s with RUNNING => (s, RSpin) | _ => (with_thread s (log_thread_ s) true, RDone) end
  | RSpin => if flag_ s then (s, RSpin) else (with_flag s true, RSwap)
  | RSwap => (with_buffers s (flushing_buf_ s) (active_buf_ s), RClear)
  | RClear => (with_flag s false, RFlush (Look ""))
  | RFlush k =>
      let '(s', buffer, r) := FlushBuffer s (flushing_buf_ s) k in
      (with_buffers s' (active_buf_ s) buffer, match r with Some k' => RFlush k' | None => RSleep end)
  | RSleep => (s, RState)
  | _ => (s, p)
  end.

Inductive acall := Write (a : write_args) | Stop.
Inductive aev := Call (o : acall) | Step.

Definition a_step (s : AsyncLogger) (p : apc) (e : aev) : AsyncLogger * apc :=
  if aborted s then (s, p)
  else match p, e with
  | Idle, Call (Write a) => (s, WState a)
  | Idle, Call Stop => (s, SStore)
  | Idle, Step | _, Call _ => (s, p)
  | (WState _ | WSpin _ | WPut _ | WClear _ | WCheck _ | WThrown), Step => Write_step s p
  | (SStore | SJoin | SFlush _ | SCheck), Step => Stop_step s p
  | (RState | RSpin | RSwap | RClear | RFlush _ | RSleep | RDone), Step => RunThread_step s p
  end.

(** The synchronous logger: [Logger::Write] of logger.cc gives the message to the file object of its
    module in the thread of the caller. *)
Definition Logger_Write (force : bool) (timestamp : Z) (log_message : string) (moduleLoggerMap : gmap string (list file_call)) : gmap string (list file_call) :=
  let '(text, name) := FindModuleName process_group log_message "" in
  <[name := default [] (moduleLoggerMap !! name) ++ [FWrite force timestamp text]]> moduleLoggerMap.

(** Thread 0 is the log thread of a logger that has just been started. *)
Definition logger_start : conf := Conf (default AsyncLogger_new (Start AsyncLogger_new)) (fun t : nat => if decide (t = 0%nat) then RState else Idle).
End AsyncLog.

(** ** LogFileObject *)
Definition kRolloverAttemptFrequency : Z := 32.

(** The content of a file: the bytes of its header and the messages after it. *)
Record log_file := mkLog { header : Z; lines : list string }.

(** [file_]: the open file; [closed]: the files that were open before. *)
Record LogFileObject := mkFile {
  base_filename_selected_ : bool;
  base_filename_ : string;
  symlink_basename_ : string;
  filename_extension_ : string;
  file_ : option log_file;
  bytes_since_flush_ : Z;
  file_length_ : Z;
  rollover_attempt_ : Z;
  next_flush_time_ : Z;
  closed : list log_file
}.

Definition LogFileObject_new (base_filename : option string) : LogFileObject :=
  let b := default "" base_filename in
  mkFile (bool_decide (is_Some base_filename)) (if String.eqb b "" then "UNKNOWN" else b) "UNKNOWN" "" None 0 0 (kRolloverAttemptFrequency - 1) 0 [].

Definition close_file (f : LogFileObject) : LogFileObject :=
  mkFile (base_filename_selected_ f) (base_filename_ f) (symlink_basename_ f) (filename_extension_ f) None (bytes_since_flush_ f) (file_length_ f) (rollover_attempt_ f) (next_flush_time_ f)
    (closed f ++ match file_ f with Some l => [l] | None => [] end).
Definition with_attempt (f : LogFileObject) n := mkFile (base_filename_selected_ f) (base_filename_ f) (symlink_basename_ f) (filename_extension_ f) (file_ f) (bytes_since_flush_ f) (file_length_ f) n (next_flush_time_ f) (closed f).
Definition with_lengths (f : LogFileObject) b n := mkFile (base_filename_selected_ f) (base_filename_ f) (symlink_basename_ f) (filename_extension_ f) (file_ f) b n (rollover_attempt_ f) (next_flush_time_ f) (closed f).
Definition with_file (f : LogFileObject) l := mkFile (base_filename_selected_ f) (base_filename_ f) (symlink_basename_ f) (filename_extension_ f) l (bytes_since_flush_ f) (file_length_ f) (rollover_attempt_ f) (next_flush_time_ f) (closed f).
Definition with_names (f : LogFileObject) s b l e := mkFile s b l e (file_ f) (bytes_since_flush_ f) (file_length_ f) (rollover_attempt_ f) (next_flush_time_ f) (closed f).
Definition with_flush_time (f : LogFileObject) n := mkFile (base_filename_selected_ f) (base_filename_ f) (symlink_basename_ f) (filename_extension_ f) (file_ f) (bytes_since_flush_ f) (file_length_ f) (rollover_attempt_ f) n (closed f).

(** Get rid of the old file since its name changes. *)
Definition drop_file (f : LogFileObject) : LogFileObject := match file_ f with Some _ => with_attempt (close_file f) (kRolloverAttemptFrequency - 1) | None => f end.
Definition SetBasename (f : LogFileObject) (basename : string) : LogFileObject :=
  let f := with_names f true (base_filename_ f) (symlink_basename_ f) (filename_extension_ f) in
  if String.eqb (base_filename_ f) basename then f else let f := drop_file f in with_names f true basename (symlink_basename_ f) (filename_extension_ f).
Definition SetExtension (f : LogFileObject) (ext : string) : LogFileObject :=
  if String.eqb (filename_extension_ f) ext then f else let f := drop_file f in with_names f (base_filename_selected_ f) (base_filename_ f) (symlink_basename_ f) ext.
Definition SetSymlinkBasename (f : LogFileObject) (s : string) : LogFileObject := with_names f (base_filename_selected_ f) (base_filename_ f) s (filename_extension_ f).

(** The settings of the process: [FLAGS_max_log_size], in megabytes, [FLAGS_logbufsecs] and
    [FLAGS_stop_logging_if_full_disk]. *)
Record flags := mkFlags { max_log_size : Z; logbufsecs : Z; stop_logging_if_full_disk : bool }.
Definition MaxLogSize (g : flags) : Z := if 0 <? max_log_size g then max_log_size g else 1.

(** What a call to [Write] meets: the clock, whether the process has forked, whether the file can be
    created, the length of its header, whether the disk is full. *)
Record world := mkWorld { now : Z; pid_changed : bool; creatable : bool; header_len : Z; disk_full : bool }.

Definition FlushUnlocked (g : flags) (n : Z) (f : LogFileObject) : LogFileObject :=
  let f := match file_ f with Some _ => with_lengths f 0 (file_length_ f) | None => f end in
  with_flush_time f (n + logbufsecs g * 1000000).

(** [CreateLogfile]: the file is new, or there is none. *)
Definition CreateLogfile (w : world) (f : LogFileObject) : bool * LogFileObject := if creatable w then (true, with_file f (Some (mkLog 0 []))) else (false, f).

(** The file is closed when it is long enough. *)
Definition rollover (g : flags) (w : world) (f : LogFileObject) : LogFileObject :=
  if (MaxLogSize g <=? Z.shiftr (file_length_ f) 20) || pid_changed w
  then with_attempt (with_lengths (close_file f) 0 0) (kRolloverAttemptFrequency - 1) else f.

(** The file is made when there is none; [None]: the message is lost. *)
Definition open_file (w : world) (f : LogFileObject) : bool * LogFileObject :=
  match file_ f with
  | Some _ => (true, f)
  | None =>
      let n := u32 (rollover_attempt_ f + 1) in
      let f := with_attempt f n in
      if negb (n =? kRolloverAttemptFrequency) then (false, f)
      else
        let f := with_attempt f 0 in
        let '(ok, f) := if base_filename_selected_ f then CreateLogfile w f else (true, f) in
        match ok, file_ f with
        | true, Some l => (true, with_lengths (with_file f (Some (mkLog (header l + header_len w) (lines l)))) (u32 (bytes_since_flush_ f + header_len w)) (u32 (file_length_ f + header_len w)))
        | _, _ => (false, f)
        end
  end.

(** [stop_writing] is a variable of the process. *)
Definition File_Write (g : flags) (w : world) (force_flush : bool) (text : string) (r : bool * LogFileObject) : bool * LogFileObject :=
  let '(stop_writing, f) := r in
  if base_filename_selected_ f && String.eqb (base_filename_ f) "" then (stop_writing, f)
  else
    let '(ok, f) := open_file w (rollover g w f) in
    if negb ok then (stop_writing, f)
    else if stop_writing then (negb (next_flush_time_ f <=? now w), f)
    else if stop_logging_if_full_disk g && disk_full w then (true, f)
    else
      let n := Z.of_nat (String.length text) in
      let f := with_file f ((fun l => mkLog (header l) (lines l ++ [text])) <$> file_ f) in
      let f := with_lengths f (u32 (bytes_since_flush_ f + n)) (u32 (file_length_ f + n)) in
      (false, if force_flush || (1000000 <=? bytes_since_flush_ f) || (next_flush_time_ f <=? now w) then FlushUnlocked g (now w) f else f).

(** A call of [AsyncLogger] to a file object. *)
Definition run_call (g : flags) (r : bool * LogFileObject) (x : world * file_call) : bool * LogFileObject :=
  match x.2 with FWrite force _ text => File_Write g x.1 force text r | FFlush => (r.1, FlushUnlocked g (now x.1) r.2) end.

(** ** What the log thread and the callers keep *)
Section Proofs.
Context (process_group : string).
Implicit Types (s : AsyncLogger) (g : nat -> apc) (p : apc) (m : Msg) (name : string) (t u : nat).
Abbreviation step := (a_step process_group).

(** The module a message names, and what is left of the message. *)
Definition module_in (text : string) : option string :=
  lpos ← String.index 0 LEFT_BRACKET text; rpos ← String.index lpos RIGHT_BRACKET text; Some (String.substring (lpos + 1) (rpos - lpos - 1) text).
Definition cut (text : string) : string :=
  match String.index 0 LEFT_BRACKET text with
  | Some lpos => match String.index lpos RIGHT_BRACKET text with Some rpos => erase lpos (rpos - lpos + 1) text | None => text end
  | None => text
  end.
Lemma FindModuleName_eq text name :
  FindModuleName process_group text name = (cut text, let r := default name (module_in text) in if String.eqb r "" then process_group else r).
Proof.
  unfold FindModuleName, module_in, cut. destruct (String.index 0 LEFT_BRACKET text) as [l|]; [|done]. cbn [mbind option_bind].
  by destruct (String.index l RIGHT_BRACKET text).
Qed.

(** The messages a file object was given. *)
Definition call_of m : file_call := FWrite (0 <? level m) (ts m) (cut (message m)).
Definition writes (calls : list file_call) : list file_call := filter (fun c => c <> FFlush) calls.
Definition of_module name (w : list (string * Msg)) : list Msg := (filter (fun e => e.1 = name) w).*2.

(** What the file objects get when the messages [w] are written synchronously. *)
Definition sync_write (m : Msg) := Logger_Write process_group (0 <? level m) (ts m) (message m).
Definition sync_logger (w : list Msg) : gmap string (list file_call) := foldl (fun files m => sync_write m files) ∅ w.
Definition named m : Prop := exists n, module_in (message m) = Some n /\ n <> ""%string.

Definition holds p : bool := match p with WPut _ | WClear _ | WThrown | RSwap | RClear => true | _ => false end.
Definition runs p : bool := match p with RState | RSpin | RSwap | RClear | RFlush _ | RSleep | RDone => true | _ => false end.
Definition flushes p : bool := match p with SFlush _ | SCheck => true | _ => false end.
Definition stops p : bool := match p with SJoin | SFlush _ | SCheck => true | _ => false end.
Definition turn_at p : option turn := match p with SFlush k | RFlush k => Some k | _ => None end.

(** The accesses to the two buffers, but for the reading of a size before a sleep. *)
Definition changes_flushing p : bool := match p with RSwap | RFlush _ => true | _ => false end.
Definition uses_flushing p : bool := changes_flushing p || match p with SCheck => true | _ => false end.
Definition changes_active p : bool := match p with WPut _ | RSwap | SFlush _ => true | _ => false end.
Definition flushes_active p : bool := match p with SFlush _ => true | _ => false end.
Definition puts p : bool := match p with WPut _ => true | _ => false end.

(** What is still to be handed over of a buffer that is being flushed. *)
Definition todo (h : option (Msg * bool)) (buffer : list Msg) : list Msg :=
  match h with None => buffer | Some (m, false) => m :: tail buffer | Some (_, true) => tail buffer end.
Definition waiting s : list Msg := if thread_done s then todo (handing s) (active_buf_ s) else todo (handing s) (flushing_buf_ s) ++ active_buf_ s.

(** The front of the buffer that is being flushed is what is left of the message that is handed over. *)
Definition front_ok (h : option (Msg * bool)) (buffer : list Msg) : Prop :=
  match h with None => True | Some (m, false) => exists l, buffer = mkMsg (ts m) (cut (message m)) (level m) :: l | Some (_, true) => buffer <> [] end.
Definition named_as name m : Prop := match module_in (message m) with Some n => n <> ""%string -> name = n | None => True end.
Definition turn_ok (k : turn) (h : option (Msg * bool)) : Prop :=
  match k, h with Look _, None | Pop _, Some (_, true) => True | Give name, Some (m, false) => named_as name m | _, _ => False end.

Record lock_ok s g : Prop := {
  lk_one : forall u v, holds (g u) = true -> holds (g v) = true -> u = v;
  lk_flag : flag_ s = true <-> exists u, holds (g u) = true
}.

(** One thread is in [Stop] at a time. *)
Record stop_ok s g : Prop := {
  sp_one : forall u v, stops (g u) = true -> stops (g v) = true -> u = v;
  sp_flag : stopping s = true <-> exists u, stops (g u) = true
}.

(** Someone flushes a buffer exactly as far as [handing] says. *)
Record turns_ok s g : Prop := {
  tn_at : forall u k, turn_at (g u) = Some k -> turn_ok k (handing s);
  tn_none : (forall u, turn_at (g u) = None) -> handing s = None
}.

Definition files_ok s : Prop :=
  (forall name, writes (default [] (module_logger_map_ s !! name)) = call_of <$> of_module name (written s)) /\
  (forall name m, (name, m) ∈ written s -> named_as name m).

(** What the buffers hold, whoever is at work on them. *)
Record data_ok s : Prop := {
  da_order : accepted s = (written s).*2 ++ waiting s;
  da_front : front_ok (handing s) (if thread_done s then active_buf_ s else flushing_buf_ s);
  da_files : files_ok s
}.

Record log_ok s g : Prop := {
  lo_lock : lock_ok s g;
  lo_stop : stop_ok s g;
  lo_turns : turns_ok s g;
  lo_data : data_ok s;
  lo_threads : forall u, runs (g u) = true <-> u = 0%nat;
  lo_flushing : match g 0%nat with RClear | RFlush _ => True | _ => flushing_buf_ s = [] end;
  lo_done : thread_done s = true <-> g 0%nat = RDone;
  lo_join : log_thread_ s = false -> thread_done s = true;
  lo_flushes : forall u, flushes (g u) = true -> thread_done s = true;
  lo_state : state_ s <> INITTED /\ (thread_done s = true -> state_ s = STOPPED) /\ (forall u, g u = SJoin -> state_ s = STOPPED)
}.

(** *** The flag *)
Lemma lock_same s s' g t p : lock_ok s g -> flag_ s' = flag_ s -> holds p = holds (g t) -> lock_ok s' (<[t := p]> g).
Proof.
  intros [Hone Hflag] Hf Hp.
  assert (Hh : forall u, holds (<[t := p]> g u) = holds (g u)) by (intros u; thread_cases u t; done).
  split; [intros u v; rewrite !Hh; apply Hone|]. rewrite Hf, Hflag. by setoid_rewrite Hh.
Qed.
Lemma lock_take s s' g t p : lock_ok s g -> flag_ s = false -> flag_ s' = true -> holds p = true -> lock_ok s' (<[t := p]> g).
Proof.
  intros [Hone Hflag] Hf Hf' Hp. assert (Hno : forall u, holds (g u) = true -> False) by (intros u Hu; assert (flag_ s = true) by (apply Hflag; by exists u); congruence).
  split; [|rewrite Hf'; split; [intros _; exists t; by rewrite fn_lookup_insert|done]].
  intros u v. thread_cases u t; thread_cases v t; try done; intros Hu Hv; exfalso; eauto.
Qed.
Lemma lock_give s s' g t p : lock_ok s g -> holds (g t) = true -> flag_ s' = false -> holds p = false -> lock_ok s' (<[t := p]> g).
Proof.
  intros [Hone Hflag] Ht Hf' Hp. assert (Hno : forall u, holds (<[t := p]> g u) = true -> False).
  { intros u. thread_cases u t; [congruence|]. intros Hu. pose proof (Hone _ _ Hu Ht). done. }
  split; [intros u v Hu; by destruct (Hno u)|]. rewrite Hf'. split; [done|intros [u Hu]; by destruct (Hno u)].
Qed.

(** *** Who stops, and who flushes *)
Lemma stop_same s s' g t p : stop_ok s g -> stopping s' = stopping s -> stops p = stops (g t) -> stop_ok s' (<[t := p]> g).
Proof.
  intros [Hone Hflag] Hf Hp. assert (Hh : forall u, stops (<[t := p]> g u) = stops (g u)) by (intros u; thread_cases u t; done).
  split; [intros u v; rewrite !Hh; apply Hone|]. rewrite Hf, Hflag. by setoid_rewrite Hh.
Qed.
Lemma stop_enter s s' g t p : stop_ok s g -> stopping s = false -> stopping s' = true -> stops p = true -> stop_ok s' (<[t := p]> g).
Proof.
  intros [Hone Hflag] Hf Hf' Hp. assert (Hno : forall u, stops (g u) = true -> False) by (intros u Hu; assert (stopping s = true) by (apply Hflag; by exists u); congruence).
  split; [|rewrite Hf'; split; [intros _; exists t; by rewrite fn_lookup_insert|done]].
  intros u v. thread_cases u t; thread_cases v t; try done; intros Hu Hv; exfalso; eauto.
Qed.
Lemma stop_leave s s' g t p : stop_ok s g -> stops (g t) = true -> stopping s' = false -> stops p = false -> stop_ok s' (<[t := p]> g).
Proof.
  intros [Hone Hflag] Ht Hf' Hp. assert (Hno : forall u, stops (<[t := p]> g u) = true -> False).
  { intros u. thread_cases u t; [congruence|]. intros Hu. pose proof (Hone _ _ Hu Ht). done. }
  split; [intros u v Hu; by destruct (Hno u)|]. rewrite Hf'. split; [done|intros [u Hu]; by destruct (Hno u)].
Qed.

(** No one else flushes while a thread is in the log loop or past the join. *)
Lemma turn_alone s g t u : log_ok s g -> runs (g t) = true /\ thread_done s = false \/ stops (g t) = true /\ thread_done s = true -> u <> t -> turn_at (g u) = None.
Proof.
  intros [_ [Hone _] _ _ Hth _ Hdone _ Hfl _] Ht Hne. destruct (turn_at (g u)) as [k|] eqn:Hk; [|done].
  destruct (g u) eqn:Hu; try done.
  - assert (Hd : thread_done s = true) by (apply (Hfl u); by rewrite Hu). destruct Ht as [[_ ?]|[Ht _]]; [congruence|]. destruct Hne. apply Hone; [by rewrite Hu|done].
  - assert (u = 0%nat) as -> by (apply Hth; by rewrite Hu). destruct Ht as [[Ht%Hth _]|[_ Ht%Hdone]]; congruence.
Qed.

(** A thread goes on without flushing; or it is the one that flushes, and the others are not. *)
Lemma turns_same s s' g t p : turns_ok s g -> handing s' = handing s -> turn_at p = None -> turn_at (g t) = None -> turns_ok s' (<[t := p]> g).
Proof.
  intros [Hat Hnone] Hh Hp Ht. split; rewrite Hh.
  - intros u k. thread_cases u t; [congruence|apply Hat].
  - intros Hall. apply Hnone. intros u. specialize (Hall u). revert Hall. by thread_cases u t.
Qed.
Lemma turns_alone s' g t p : (forall u, u <> t -> turn_at (g u) = None) -> match turn_at p with Some k => turn_ok k (handing s') | None => handing s' = None end ->
  turns_ok s' (<[t := p]> g).
Proof.
  intros Ho Hp. split.
  - intros u k. thread_cases u t; [intros Hk; by rewrite Hk in Hp|]. intros Hk. by rewrite Ho in Hk.
  - intros Hall. specialize (Hall t). rewrite fn_lookup_insert in Hall. by rewrite Hall in Hp.
Qed.
Lemma turns_none s g t : turns_ok s g -> (forall u, u <> t -> turn_at (g u) = None) -> turn_at (g t) = None -> handing s = None.
Proof. intros [_ Hnone] Ho Ht. apply Hnone. intros u. destruct (decide (u = t)) as [->|]; eauto. Qed.

(** *** The files *)
Lemma of_module_snoc name w n m : of_module name (w ++ [(n, m)]) = of_module name w ++ (if decide (n = name) then [m] else []).
Proof. unfold of_module. rewrite filter_app, fmap_app. f_equal. rewrite filter_cons, filter_nil. cbn. by destruct (decide _). Qed.

(** Messages that name their module get to the same files by the synchronous logger. *)
Lemma sync_logger_files w name : (forall n m, (n, m) ∈ w -> module_in (message m) = Some n /\ n <> ""%string) ->
  default [] (sync_logger w.*2 !! name) = call_of <$> of_module name w.
Proof.
  induction w as [|[n m] w IH] using rev_ind; intros Hw; [done|].
  destruct (Hw n m) as [Hn Hne]; [apply elem_of_app; right; by left|]. unfold sync_logger in *. rewrite fmap_app, foldl_app. cbn [fmap list_fmap foldl snd].
  unfold sync_write at 1, Logger_Write. rewrite FindModuleName_eq, Hn. cbn [default from_option id]. destruct (String.eqb_spec n "") as [|_]; [done|].
  rewrite of_module_snoc, fmap_app, <- IH by (intros n' m' Hin; apply Hw, elem_of_app; by left).
  destruct (decide (n = name)) as [->|Hn']; [by rewrite lookup_insert_eq|by rewrite lookup_insert_ne, app_nil_r by done].
Qed.

Lemma FindModuleName_named text name m : message m = text -> exists n, FindModuleName process_group text name = (cut text, n) /\ named_as n m.
Proof.
  intros <-. rewrite FindModuleName_eq. eexists. split; [done|]. unfold named_as. destruct (module_in (message m)) as [x|]; [|done].
  intros Hx. cbn. destruct (String.eqb_spec x ""); done.
Qed.

Lemma files_give s n m x : files_ok s -> named_as n m -> ts x = ts m -> level x = level m -> message x = cut (message m) ->
  files_ok (with_map s (<[n := default [] (module_logger_map_ s !! n) ++ [FWrite (0 <? level x) (ts x) (message x)]]> (module_logger_map_ s)) (written s ++ [(n, m)])).
Proof.
  intros [Hf Hn] Hm -> -> ->. split; cbn [written module_logger_map_ with_map].
  - intros name. rewrite of_module_snoc, fmap_app, <- Hf. destruct (decide (n = name)) as [->|].
    + rewrite lookup_insert_eq. cbn [default from_option id]. unfold writes. by rewrite filter_app.
    + rewrite lookup_insert_ne by done. by rewrite app_nil_r.
  - intros name y [Hy|[= -> ->]%list_elem_of_singleton]%elem_of_app; [by apply Hn|done].
Qed.
Lemma files_flush s : files_ok s -> files_ok (Flush s).
Proof.
  intros [Hf Hn]. split; [|done]. intros name. rewrite <- Hf. cbn. rewrite lookup_fmap. destruct (module_logger_map_ s !! name) as [l|]; [|done]. cbn.
  unfold writes. rewrite filter_app, filter_cons_False, filter_nil, app_nil_r by naive_solver. done.
Qed.

(** *** A step of the loop of [FlushBuffer] *)
(** What it leaves alone. *)
Definition kept s s' : Prop :=
  state_ s' = state_ s /\ flag_ s' = flag_ s /\ active_buf_ s' = active_buf_ s /\ flushing_buf_ s' = flushing_buf_ s /\ log_thread_ s' = log_thread_ s /\
  thread_done s' = thread_done s /\ aborted s' = aborted s /\ stopping s' = stopping s /\ accepted s' = accepted s.

(** How far it still is to the end of the loop. *)
Definition left_over (k : turn) (buffer : list Msg) : nat :=
  match k with Look _ => 3 * length buffer | Give _ => 3 * length buffer - 1 | Pop _ => 3 * length buffer - 2 end.

Lemma FlushBuffer_ok s buffer k : files_ok s -> front_ok (handing s) buffer -> turn_ok k (handing s) ->
  exists s' buffer' r, FlushBuffer process_group s buffer k = (s', buffer', r) /\ kept s s' /\
    (written s').*2 ++ todo (handing s') buffer' = (written s).*2 ++ todo (handing s) buffer /\ front_ok (handing s') buffer' /\ files_ok s' /\
    match r with
    | Some k' => turn_ok k' (handing s') /\ left_over k buffer = S (left_over k' buffer')
    | None => buffer = [] /\ buffer' = [] /\ handing s' = None /\ left_over k buffer = 0%nat
    end.
Proof.
  intros Hf Hfr Hk. destruct k as [name|name|name]; destruct (handing s) as [[m [|]]|] eqn:Hh; try done; cbn [FlushBuffer].
  - destruct buffer as [|m l].
    + eexists _, _, _. split; [done|]. cbn. rewrite Hh. repeat split; try done; by apply files_flush.
    + destruct (FindModuleName_named (message m) name m eq_refl) as (n & -> & Hn).
      eexists _, _, _. split; [done|]. cbn. repeat split; try done; try apply Hf; [by eexists|lia].
  - destruct Hfr as [l ->]. eexists _, _, _. split; [done|]. rewrite Hh. cbn. repeat split; try done; [by rewrite fmap_app, <- app_assoc| | |lia].
    all: by apply (files_give s name m (mkMsg (ts m) (cut (message m)) (level m)) Hf Hk).
  - destruct buffer as [|x l]; [done|]. eexists _, _, _. split; [done|]. cbn. repeat split; try done; try apply Hf. lia.
Qed.

(** *** Steps of callers and of the log thread *)
(** Nothing of what is handed over changes. *)
Definition data_same s s' : Prop :=
  flushing_buf_ s' = flushing_buf_ s /\ module_logger_map_ s' = module_logger_map_ s /\ handing s' = handing s /\ written s' = written s /\ thread_done s' = thread_done s /\
  active_buf_ s' = active_buf_ s /\ accepted s' = accepted s.
Lemma data_ok_same s s' : data_ok s -> data_same s s' -> data_ok s'.
Proof.
  intros [Ho Hf Hfi] (H1 & H2 & H3 & H4 & H5 & H6 & H7). split; [|by rewrite H3, H5, H6, H1|unfold files_ok; by rewrite H2, H4].
  unfold waiting in *. by rewrite H7, H4, H5, H3, H6, H1.
Qed.
Lemma data_same_refl s : data_same s s. Proof. done. Qed.
Hint Resolve data_same_refl : core.

Lemma todo_app h buffer m : front_ok h buffer -> todo h (buffer ++ [m]) = todo h buffer ++ [m].
Proof. destruct h as [[x [|]]|]; [|intros [l ->]|]; try done. by destruct buffer. Qed.
Lemma front_app h buffer m : front_ok h buffer -> front_ok h (buffer ++ [m]).
Proof. destruct h as [[x [|]]|]; [|intros [l ->]|]; try done; [by destruct buffer|by eexists]. Qed.
Lemma data_put s m : data_ok s -> data_ok (put s m).
Proof.
  intros [Ho Hf Hfi]. unfold waiting in *. split; cbn [put accepted written handing thread_done active_buf_ flushing_buf_]; [|destruct (thread_done s); [by apply front_app|done]|done].
  unfold waiting. cbn [put accepted written handing thread_done active_buf_ flushing_buf_]. rewrite Ho. destruct (thread_done s); [by rewrite todo_app, app_assoc|by rewrite !app_assoc].
Qed.

Lemma caller_ok s s' g t p :
  log_ok s g -> runs (g t) = false -> runs p = false -> lock_ok s' (<[t := p]> g) -> stop_ok s' (<[t := p]> g) -> turns_ok s' (<[t := p]> g) -> data_ok s' ->
  flushing_buf_ s' = flushing_buf_ s -> thread_done s' = thread_done s ->
  (log_thread_ s' = false -> thread_done s = true) -> (flushes p = true -> thread_done s = true) ->
  state_ s' <> INITTED -> (state_ s = STOPPED -> state_ s' = STOPPED) -> (p = SJoin -> state_ s' = STOPPED) ->
  log_ok s' (<[t := p]> g).
Proof.
  intros [] Ht Hp Hlock Hstop Hturn Hdata Hfl Hdone Hj Hflp Hst Hst' Hpj.
  assert (t <> 0%nat) by (intros ->; rewrite (proj2 (lo_threads0 0%nat) eq_refl) in Ht; done).
  split; try done; try rewrite fn_lookup_insert_ne by done; rewrite ?Hfl, ?Hdone; try done.
  - intros u. thread_cases u t; [rewrite Hp; done|apply lo_threads0].
  - intros u. thread_cases u t; [done|apply lo_flushes0].
  - destruct lo_state0 as (_ & ? & ?). split; [done|]. split; [auto|]. intros u. thread_cases u t; [auto|eauto].
Qed.

Lemma runner_ok s s' g p :
  log_ok s g -> runs p = true -> lock_ok s' (<[0%nat := p]> g) -> turns_ok s' (<[0%nat := p]> g) -> data_ok s' ->
  match p with RClear | RFlush _ => True | _ => flushing_buf_ s' = [] end -> (thread_done s' = true <-> p = RDone) -> (thread_done s = true -> thread_done s' = true) ->
  stopping s' = stopping s -> log_thread_ s' = log_thread_ s -> state_ s' = state_ s -> (thread_done s' = true -> state_ s = STOPPED) ->
  log_ok s' (<[0%nat := p]> g).
Proof.
  intros [] Hp Hlock Hturn Hdata Hfl Hdone Hd Hsp Hj Hst Hds. pose proof (proj2 (lo_threads0 0%nat) eq_refl) as Hr.
  split; try done; try rewrite fn_lookup_insert; rewrite ?Hj, ?Hst; try done; auto.
  - apply (stop_same s); [done|done|]. by destruct p, (g 0%nat).
  - intros u. thread_cases u 0%nat; [by rewrite Hp|apply lo_threads0].
  - intros u. thread_cases u 0%nat; [by destruct p|eauto].
  - destruct lo_state0 as (? & ? & ?). split; [done|]. split; [done|]. intros u. thread_cases u 0%nat; [by intros ->|eauto].
Qed.

(** A thread that does nothing. *)
Lemma log_ok_ext s g g' : (forall u, g' u = g u) -> log_ok s g -> log_ok s g'.
Proof.
  intros Hg [[H1 H2] [H3 H4] [H5 H6] ? Hth ? ? ? Hfl (? & ? & ?)]. split; rewrite ?Hg; try done.
  - split; [intros u v; rewrite !Hg; apply H1|rewrite H2; by setoid_rewrite Hg].
  - split; [intros u v; rewrite !Hg; apply H3|rewrite H4; by setoid_rewrite Hg].
  - split; [intros u k; rewrite Hg; apply H5|]. intros Hn. apply H6. intros u. by rewrite <- Hg.
  - intros u. by rewrite Hg.
  - intros u. rewrite Hg. apply Hfl.
  - split; [done|]. split; [done|]. intros u. rewrite Hg. eauto.
Qed.
Lemma log_ok_stay s g t : log_ok s g -> log_ok s (<[t := g t]> g).
Proof. apply log_ok_ext. intros u. by thread_cases u t. Qed.

(** A check fails, or the behaviour is undefined. *)
Lemma log_ok_aborted s g t : log_ok s g -> log_ok (with_aborted s) (<[t := g t]> g).
Proof. intros Hok. apply (log_ok_stay _ _ t) in Hok. destruct Hok as [[] [] [] [? ? []] ? ? ? ? ? ?]. split; try done; by split. Qed.

Lemma Write_step_ok s g t : log_ok s g -> runs (g t) = false -> log_ok (Write_step s (g t)).1 (<[t := (Write_step s (g t)).2]> g).
Proof.
  intros Hok Hr. pose proof Hok as [Hlock Hstop Hturn Hdata _ _ _ Hjoin _ (Hst & _ & _)]. remember (g t) as p eqn:Hp. symmetry in Hp.
  assert (Hsame : forall p', holds p' = holds (g t) -> lock_ok s (<[t := p']> g)) by (intros; by apply (lock_same s)).
  assert (Hcall : forall s' p', runs p' = false -> lock_ok s' (<[t := p']> g) -> data_ok s' -> flushing_buf_ s' = flushing_buf_ s -> handing s' = handing s -> stopping s' = stopping s ->
    thread_done s' = thread_done s -> log_thread_ s' = log_thread_ s -> state_ s' = state_ s -> stops (g t) = false -> turn_at (g t) = None -> flushes p' = false -> stops p' = false -> turn_at p' = None ->
    log_ok s' (<[t := p']> g)).
  { intros s' p' ? ? ? Hfl Hh Hsp ? Hl Hs Ht Htt ? ? ?. apply (caller_ok s); rewrite ?Hp, ?Hl, ?Hs, ?Hfl; try done; [by apply (stop_same s); [|done|rewrite Ht]|by apply (turns_same s)|congruence|by intros ->]. }
  rewrite Hp in Hcall. destruct p; try done; cbn [Write_step fst snd]; try (rewrite <- Hp; by apply log_ok_stay).
  - apply Hcall; try done; try (apply Hsame; rewrite Hp); destruct (state_ s); try done; by destruct (0 <? _)%nat.
  - destruct (flag_ s) eqn:Hf; cbn [fst snd]; [rewrite <- Hp; by apply log_ok_stay|]. apply Hcall; try done; [by apply (lock_take s)|by apply (data_ok_same s)].
  - assert (Hnone : log_ok s (<[t := WClear a]> g)) by (apply Hcall; try done; apply Hsame; by rewrite Hp).
    destruct (text a) as [[|c m]|]; [done| |done]. destruct (log_level_map c) as [n|]; cbn [fst snd].
    + apply Hcall; try done; [apply (lock_same s); [done|done|by rewrite Hp]|by apply data_put].
    + apply Hcall; try done. apply Hsame. by rewrite Hp.
  - apply Hcall; try done; [apply (lock_give s); [done|by rewrite Hp|done|done]|by apply (data_ok_same s)].
  - apply Hcall; try done; try (apply Hsame; rewrite Hp); destruct (text a) as [[|]|]; try done; by destruct (force_flush a && _).
Qed.

(** A step of the loop of [FlushBuffer] on the buffer that is being flushed. *)
Lemma data_flush s s' a f : data_ok s -> kept s s' -> accepted s = (written s').*2 ++ (if thread_done s then todo (handing s') a else todo (handing s') f ++ a) ->
  front_ok (handing s') (if thread_done s then a else f) -> files_ok s' -> data_ok (with_buffers s' a f).
Proof.
  intros _ (_ & _ & _ & _ & _ & Hd & _ & _ & Ha) Ho Hf Hfi.
  split; unfold waiting; cbn [with_buffers accepted written handing thread_done active_buf_ flushing_buf_]; rewrite ?Hd, ?Ha; [exact Ho|exact Hf|exact Hfi].
Qed.

Lemma SFlush_ok s g t k : log_ok s g -> g t = SFlush k -> log_ok (Stop_step process_group s (SFlush k)).1 (<[t := (Stop_step process_group s (SFlush k)).2]> g).
Proof.
  intros Hok Hp. pose proof Hok as [Hlock Hstop [Hat Hnone] Hdata _ Hfl0 Hdone Hjoin Hflu (Hst & Hst' & Hsj)].
  assert (Hd : thread_done s = true) by (apply (Hflu t); by rewrite Hp). pose proof Hdata as [Hord Hfr Hfi]. rewrite Hd in Hfr.
  assert (Hf0 : flushing_buf_ s = []) by (apply Hdone in Hd; by rewrite Hd in Hfl0).
  destruct (FlushBuffer_ok s (active_buf_ s) k Hfi Hfr) as (s' & buffer & r & He & Hk & Ho & Hfr' & Hfi' & Hr); [apply (Hat t); by rewrite Hp|].
  cbn [Stop_step]. rewrite He. cbn [fst snd]. pose proof Hk as (Hs & Hfg & _ & _ & Hl & Hd' & _ & Hsp & _).
  apply (caller_ok s); rewrite ?Hp; cbn [with_buffers flushing_buf_ thread_done log_thread_ state_]; rewrite ?Hs, ?Hl, ?Hd'; try done; auto.
  - by destruct r.
  - apply (lock_same s); [done|done|rewrite Hp; by destruct r].
  - apply (stop_same s); [done|done|rewrite Hp; by destruct r].
  - apply turns_alone; [intros u Hu; apply (turn_alone s g t); [done|right; by rewrite Hp|done]|]. destruct r as [k'|]; cbn; by destruct_and? Hr.
  - apply (data_flush s); [done|done| |by rewrite Hd|done]. unfold waiting in Hord. rewrite Hd in *. by rewrite Ho.
Qed.

Lemma Stop_step_ok s g t : log_ok s g -> runs (g t) = false -> log_ok (Stop_step process_group s (g t)).1 (<[t := (Stop_step process_group s (g t)).2]> g).
Proof.
  intros Hok Hr. pose proof Hok as [Hlock Hstop Hturn Hdata Hth Hfl Hdone Hjoin Hflu (Hst & Hst' & Hsj)]. remember (g t) as p eqn:Hp. symmetry in Hp.
  assert (Hsame : forall s' p', flag_ s' = flag_ s -> holds p' = holds (g t) -> lock_ok s' (<[t := p']> g)) by (intros; by apply (lock_same s)).
  destruct p; try done; try (cbn [Stop_step fst snd]; rewrite <- Hp; by apply log_ok_stay).
  - cbn [Stop_step]. destruct (stopping s) eqn:Hsp; cbn [fst snd]; [rewrite <- Hp; by apply log_ok_aborted|].
    apply (caller_ok s); rewrite ?Hp; try done; [apply Hsame; by rewrite ?Hp|by apply (stop_enter s)|apply (turns_same s); by rewrite ?Hp|by apply (data_ok_same s)].
  - assert (Hgo : forall s', data_same s s' -> flag_ s' = flag_ s -> stopping s' = stopping s -> state_ s' = state_ s -> thread_done s = true ->
      log_ok s' (<[t := SFlush (Look "")]> g)).
    { intros s' Hd Hf Hs Hst2 Hdn. pose proof Hd as (? & ? & Hh & ? & ? & ? & ?). assert (Ho : forall u, u <> t -> turn_at (g u) = None).
      { intros u Hu. apply (turn_alone s g t); [done|right; by rewrite Hp|done]. }
      apply (caller_ok s); rewrite ?Hp, ?Hst2; try done; auto; [apply Hsame; by rewrite ?Hp|by apply (stop_same s); [| |rewrite Hp]| |by apply (data_ok_same s)].
      apply turns_alone; [done|]. cbn. rewrite Hh. by rewrite (turns_none s g t Hturn Ho) by by rewrite Hp. }
    cbn [Stop_step]. destruct (log_thread_ s) eqn:Hj; [destruct (thread_done s) eqn:Hd; cbn [fst snd]; [|rewrite <- Hp; by apply log_ok_stay]|].
    + by apply Hgo.
    + apply Hgo; try done. by apply Hjoin.
  - by apply SFlush_ok.
  - assert (Hab : log_ok (with_aborted s) (<[t := SCheck]> g)) by (rewrite <- Hp; by apply log_ok_aborted).
    assert (Hkeep : log_ok (with_stopping s false) (<[t := Idle]> g)); [|by cbn [Stop_step]; destruct (active_buf_ s), (flushing_buf_ s)].
    apply (caller_ok s); rewrite ?Hp; try done; auto; [apply Hsame; by rewrite ?Hp|by apply (stop_leave s); [|rewrite Hp|..]|by apply (turns_same s); rewrite ?Hp|by apply (data_ok_same s)].
Qed.

Lemma RFlush_ok s g k : log_ok s g -> g 0%nat = RFlush k -> log_ok (RunThread_step process_group s (RFlush k)).1 (<[0%nat := (RunThread_step process_group s (RFlush k)).2]> g).
Proof.
  intros Hok Hp. pose proof Hok as [Hlock Hstop [Hat Hnone] Hdata Hth _ Hdone Hjoin _ (Hst & Hst' & _)].
  assert (Hd : thread_done s = false) by (destruct (thread_done s); [assert (g 0%nat = RDone) by (by apply Hdone); congruence|done]). pose proof Hdata as [Hord Hfr Hfi]. rewrite Hd in Hfr.
  destruct (FlushBuffer_ok s (flushing_buf_ s) k Hfi Hfr) as (s' & buffer & r & He & Hk & Ho & Hfr' & Hfi' & Hr); [apply (Hat 0%nat); by rewrite Hp|].
  cbn [RunThread_step]. rewrite He. cbn [fst snd]. pose proof Hk as (Hs & Hfg & _ & _ & Hl & Hd' & _ & Hsp & _).
  apply (runner_ok s); cbn [with_buffers flushing_buf_ thread_done log_thread_ state_ stopping]; rewrite ?Hs, ?Hl, ?Hd', ?Hd; try done.
  - by destruct r.
  - apply (lock_same s); [done|done|rewrite Hp; by destruct r].
  - apply turns_alone; [intros u Hu; apply (turn_alone s g 0%nat); [done|left; by rewrite Hp|done]|]. destruct r as [k'|]; cbn; by destruct_and? Hr.
  - apply (data_flush s); [done|done| |by rewrite Hd|done]. unfold waiting in Hord. rewrite Hd in *. by rewrite app_assoc, Ho, <- app_assoc.
  - destruct r; [done|]. by destruct_and? Hr.
  - by destruct r.
Qed.

Lemma RunThread_step_ok s g : log_ok s g -> log_ok (RunThread_step process_group s (g 0%nat)).1 (<[0%nat := (RunThread_step process_group s (g 0%nat)).2]> g).
Proof.
  intros Hok. pose proof Hok as [Hlock Hstop Hturn Hdata Hth Hfl Hdone Hjoin _ (Hst & Hst' & _)]. pose proof (proj2 (Hth 0%nat) eq_refl) as Hr.
  remember (g 0%nat) as p eqn:Hp. symmetry in Hp.
  assert (Hnd : p <> RDone -> thread_done s = false) by (intros Hne; destruct (thread_done s); [destruct Hne; by apply Hdone|done]).
  assert (Hsame : forall s' p', flag_ s' = flag_ s -> holds p' = holds p -> lock_ok s' (<[0%nat := p']> g)) by (intros; apply (lock_same s); [done|done|by rewrite Hp]).
  assert (Hrun : forall s' p', runs p' = true -> p' <> RDone -> turn_at (g 0%nat) = None -> lock_ok s' (<[0%nat := p']> g) -> data_ok s' -> turns_ok s' (<[0%nat := p']> g) ->
    match p' with RClear | RFlush _ => True | _ => flushing_buf_ s' = [] end -> thread_done s' = thread_done s -> thread_done s = false -> log_thread_ s' = log_thread_ s ->
    state_ s' = state_ s -> stopping s' = stopping s -> log_ok s' (<[0%nat := p']> g)).
  { intros s' p' ? ? ? ? ? ? ? Hd Hd0 ? ? ?. apply (runner_ok s); rewrite ?Hd, ?Hd0; try done. }
  rewrite Hp in Hrun. destruct p; try done; try (cbn [RunThread_step fst snd]; rewrite <- Hp; by apply log_ok_stay); specialize (Hnd ltac:(done)).
  all: assert (Ho : forall u, u <> 0%nat -> turn_at (g u) = None) by (intros u Hu; apply (turn_alone s g 0%nat); [done|left; by rewrite Hp|done]).
  all: try assert (Hh : handing s = None) by (apply (turns_none s g 0%nat Hturn Ho); by rewrite Hp).
  - cbn [RunThread_step]. destruct (state_ s) eqn:Hs; cbn [fst snd]; [done|apply Hrun; try done; [by apply Hsame|by apply (turns_same s); rewrite ?Hp]|].
    apply (runner_ok s); try done; [by apply Hsame|by apply (turns_same s); rewrite ?Hp|].
    destruct Hdata as [Hord Hfr Hfi]. unfold waiting in Hord. rewrite Hnd, Hh, Hfl in Hord. split; [|by cbn; rewrite Hh|done]. unfold waiting. cbn. by rewrite Hh.
  - cbn [RunThread_step]. destruct (flag_ s) eqn:Hf; cbn [fst snd]; [rewrite <- Hp; by apply log_ok_stay|]. apply Hrun; try done; [by apply (lock_take s)|by apply (data_ok_same s)|by apply (turns_same s); rewrite ?Hp].
  - cbn [RunThread_step fst snd]. apply Hrun; try done; [by apply Hsame| |by apply (turns_same s); rewrite ?Hp].
    destruct Hdata as [Hord Hfr Hfi]. unfold waiting in Hord. rewrite Hnd, Hh, Hfl in Hord. split; [|by cbn; rewrite Hnd, Hh|done]. unfold waiting. cbn. rewrite Hnd, Hh, Hfl. cbn. by rewrite app_nil_r.
  - cbn [RunThread_step fst snd]. apply Hrun; try done; [apply (lock_give s); [done|by rewrite Hp|done|done]|by apply (data_ok_same s)|]. apply turns_alone; [done|]. cbn. by rewrite Hh.
  - by apply RFlush_ok.
  - cbn [RunThread_step fst snd]. apply Hrun; try done; [by apply Hsame|by apply (turns_same s); rewrite ?Hp].
Qed.

Lemma log_step s g t e : log_ok s g -> log_ok (step s (g t) e).1 (<[t := (step s (g t) e).2]> g).
Proof.
  intros Hok. unfold a_step. destruct (aborted s); [by apply log_ok_stay|]. pose proof (lo_threads _ _ Hok t) as Ht.
  assert (Hrun : runs (g t) = true -> log_ok (RunThread_step process_group s (g t)).1 (<[t := (RunThread_step process_group s (g t)).2]> g)).
  { intros ->%Ht. by apply RunThread_step_ok. }
  assert (Hcall : forall p', g t = Idle -> holds p' = false -> runs p' = false -> stops p' = false -> turn_at p' = None -> log_ok s (<[t := p']> g)).
  { intros p' Hp H1 H2 H3 H4. pose proof Hok as [? ? ? ? ? ? ? ? ? (? & ? & ?)].
    apply (caller_ok s); rewrite ?Hp; try done; [apply (lock_same s); [done|done|by rewrite Hp]|apply (stop_same s); [done|done|by rewrite Hp]|apply (turns_same s); by rewrite ?Hp|by destruct p'|by intros ->]. }
  pose proof (Write_step_ok s g t Hok) as Hw. pose proof (Stop_step_ok s g t Hok) as Hs. pose proof (log_ok_stay s g t Hok) as Hid.
  destruct e as [[a|]|]; destruct (g t) eqn:Hp; cbn [fst snd]; first [exact Hid | by apply Hw | by apply Hs | by apply Hrun | by apply Hcall].
Qed.

(** *** All interleavings *)
Abbreviation run := (exec step logger_start).

Lemma logger_start_ok : log_ok (shared logger_start) (pcs logger_start).
Proof.
  assert (Hg : forall u, pcs logger_start u = if decide (u = 0%nat) then RState else Idle) by done.
  split; try done; try (intros u; rewrite Hg; by case_decide).
  - split; [intros u v; rewrite !Hg; by repeat case_decide|]. cbn. split; [done|]. intros [u Hu]. by case_decide.
  - split; [intros u v; rewrite !Hg; by repeat case_decide|]. cbn. split; [done|]. intros [u Hu]. by case_decide.
  - split; [|done]. intros u k. rewrite Hg. by case_decide.
  - split; [done|done|]. split; [done|]. by intros name m ?%not_elem_of_nil.
  - split; [done|]. split; [done|]. intros u. rewrite Hg. by case_decide.
Qed.

Lemma log_exec sched : forall c, log_ok (shared c) (pcs c) -> log_ok (shared (exec step c sched)) (pcs (exec step c sched)).
Proof. induction sched as [|[t e] sched IH]; intros c Hc; [done|]. apply IH. by apply log_step. Qed.

(** Who touches which buffer. *)
Lemma flushing_alone s g u v : log_ok s g -> changes_flushing (g u) = true -> uses_flushing (g v) = true -> u = v.
Proof.
  intros [_ _ _ _ Hth _ Hdone _ Hfl _] Hu Hv. assert (u = 0%nat) as -> by (apply Hth; by destruct (g u)).
  destruct (g v) eqn:Hp; try done; try (symmetry; apply Hth; by rewrite Hp).
  assert (Hd : thread_done s = true) by (apply (Hfl v); by rewrite Hp). apply Hdone in Hd. by rewrite Hd in Hu.
Qed.
Lemma active_alone s g u v : log_ok s g -> changes_active (g u) = true -> changes_active (g v) = true ->
  u = v \/ puts (g u) = true /\ flushes_active (g v) = true \/ flushes_active (g u) = true /\ puts (g v) = true.
Proof.
  intros [[Hlock _] [Hstop _] _ _ Hth _ Hdone _ Hfl _] Hu Hv. assert (Hno : forall x y k, g x = RSwap -> g y <> SFlush k).
  { intros x y k Hx Hy. assert (Hd : thread_done s = true) by (apply (Hfl y); by rewrite Hy). assert (x = 0%nat) as -> by (apply Hth; by rewrite Hx). apply Hdone in Hd. congruence. }
  destruct (g u) eqn:Hgu; try done; destruct (g v) eqn:Hgv; try done; eauto; first [left; apply Hlock; by rewrite ?Hgu, ?Hgv|left; apply Hstop; by rewrite ?Hgu, ?Hgv|exfalso; by eapply Hno].
Qed.


(** *** Stopping *)
Definition rank s p : nat :=
  match p with
  | RState => 1 | RSleep => 2 | RFlush k => 3 + left_over k (flushing_buf_ s) | RClear => 4 + 3 * length (flushing_buf_ s)
  | RSwap => 5 + 3 * length (active_buf_ s) | RSpin => 6 + 3 * length (active_buf_ s) | _ => 0
  end%nat.

(** What the log thread leaves alone. *)
Definition calm s s' : Prop := aborted s' = aborted s /\ state_ s' = state_ s /\ log_thread_ s' = log_thread_ s /\ accepted s' = accepted s.

Lemma calm_trans s1 s2 s3 : calm s1 s2 -> calm s2 s3 -> calm s1 s3.
Proof. intros (? & ? & ? & ?) (? & ? & ? & ?). repeat split; congruence. Qed.

Lemma runner_step s g : log_ok s g -> state_ s = STOPPED -> g 0%nat <> RDone -> (g 0%nat = RSpin -> flag_ s = false) ->
  let r := RunThread_step process_group s (g 0%nat) in rank s (g 0%nat) = S (rank r.1 r.2) /\ calm s r.1.
Proof.
  intros Hok Hst Hr Hf. pose proof (proj2 (lo_threads _ _ Hok 0%nat) eq_refl) as Ht. destruct (g 0%nat) as [| | | | | | | | | | | | | | |k| |] eqn:Hp; try done; cbn [RunThread_step].
  - by rewrite Hst.
  - by rewrite (Hf eq_refl).
  - assert (Hd : thread_done s = false) by (destruct (thread_done s) eqn:Hd; [apply (lo_done _ _ Hok) in Hd; congruence|done]).
    pose proof (da_front _ (lo_data _ _ Hok)) as Hfr. rewrite Hd in Hfr.
    destruct (FlushBuffer_ok s (flushing_buf_ s) k (da_files _ (lo_data _ _ Hok)) Hfr) as (s' & buffer & r & -> & Hk & _ & _ & _ & Hrr); [apply (tn_at _ _ (lo_turns _ _ Hok) 0%nat); by rewrite Hp|].
    destruct Hk as (? & ? & ? & ? & ? & ? & ? & ? & ?). cbn [fst snd]. split; [|by repeat split].
    destruct r as [k'|]; cbn [rank flushing_buf_ with_buffers]; [destruct Hrr as [_ ->]; lia|]. destruct Hrr as (_ & _ & _ & ->). lia.
Qed.

Definition quiet_flag g : Prop := forall u, u <> 0%nat -> holds (g u) = false.

Lemma runner_finishes n : forall c, log_ok (shared c) (pcs c) -> state_ (shared c) = STOPPED -> aborted (shared c) = false -> quiet_flag (pcs c) ->
  rank (shared c) (pcs c 0%nat) = n ->
  let c' := exec step c (replicate n (0%nat, Step)) in
  pcs c' 0%nat = RDone /\ calm (shared c) (shared c') /\ forall u, u <> 0%nat -> pcs c' u = pcs c u.
Proof.
  induction n as [|n IH]; intros c Hok Hst Hab Hq Hn; pose proof (proj2 (lo_threads _ _ Hok 0%nat) eq_refl) as Hr; cbn [replicate].
  - split; [|done]. change (pcs c 0%nat = RDone). by destruct (pcs c 0%nat).
  - assert (Hp : pcs c 0%nat <> RDone) by (intros Hp; by rewrite Hp in Hn).
    assert (Hflag : pcs c 0%nat = RSpin -> flag_ (shared c) = false).
    { intros H0. destruct (flag_ (shared c)) eqn:Hf; [|done]. apply (lk_flag _ _ (lo_lock _ _ Hok)) in Hf as [u Hu].
      destruct (decide (u = 0%nat)) as [->|Hne]; [by rewrite H0 in Hu|]. by rewrite (Hq u Hne) in Hu. }
    destruct (runner_step (shared c) (pcs c) Hok Hst Hp Hflag) as [Hrank (Ha & Hs & Hj & Hac)].
    assert (Hstep : step (shared c) (pcs c 0%nat) Step = RunThread_step process_group (shared c) (pcs c 0%nat)) by (unfold a_step; rewrite Hab; by destruct (pcs c 0%nat)).
    set (c1 := exec1 step c (0%nat, Step)). assert (Hs1 : shared c1 = (RunThread_step process_group (shared c) (pcs c 0%nat)).1) by (unfold c1; cbn; by rewrite Hstep).
    assert (Hp1 : forall u, pcs c1 u = if decide (u = 0%nat) then (RunThread_step process_group (shared c) (pcs c 0%nat)).2 else pcs c u).
    { intros u. unfold c1, exec1. cbn [pcs fst snd]. rewrite Hstep. by thread_cases u 0%nat. }
    destruct (IH c1) as (Hd & Hc & Hu).
    + by apply log_step.
    + by rewrite Hs1, Hs.
    + by rewrite Hs1, Ha.
    + intros u Hu. rewrite Hp1, decide_False by done. by apply Hq.
    + rewrite Hp1, decide_True, Hs1 by done. rewrite Hn in Hrank. by injection Hrank.
    + split; [exact Hd|]. split; [|intros u Hne; etransitivity; [by apply Hu|]; by rewrite Hp1, decide_False].
      apply (calm_trans _ (shared c1)); [by rewrite Hs1|exact Hc].
Qed.

(** A thread in [Stop] that flushes what is left, on its own. *)
Lemma stopper_finishes t n : forall c k, log_ok (shared c) (pcs c) -> aborted (shared c) = false -> t <> 0%nat -> pcs c t = SFlush k -> left_over k (active_buf_ (shared c)) = n ->
  let c' := exec step c (replicate (2 + n) (t, Step)) in
  pcs c' t = Idle /\ aborted (shared c') = false /\ accepted (shared c') = accepted (shared c) /\ (written (shared c')).*2 = accepted (shared c).
Proof.
  induction n as [|n IH]; intros c k Hok Hab Ht Hp Hl; set (s := shared c) in *.
  all: assert (Hd : thread_done s = true) by (apply (lo_flushes _ _ Hok t); by rewrite Hp).
  all: pose proof (lo_data _ _ Hok) as [Hord Hfr Hfi]; fold s in Hord, Hfr, Hfi; rewrite Hd in Hfr.
  all: assert (Hf : flushing_buf_ s = []) by (pose proof (lo_flushing _ _ Hok) as Hf; apply (lo_done _ _ Hok) in Hd; by rewrite Hd in Hf).
  all: destruct (FlushBuffer_ok s (active_buf_ s) k Hfi Hfr) as (s' & buffer & r & He & Hk & Ho & _ & _ & Hr); [apply (tn_at _ _ (lo_turns _ _ Hok) t); by rewrite Hp|].
  all: destruct Hk as (Hs & Hfl & Ha & Hfb & Hj & Hd' & Hab' & Hsp & Hacc).
  all: set (c1 := exec1 step c (t, Step)).
  all: assert (H1 : shared c1 = with_buffers s' buffer (flushing_buf_ s) /\ pcs c1 t = match r with Some k' => SFlush k' | None => SCheck end)
    by (unfold c1, exec1, a_step; cbn [fst snd shared pcs]; fold s; rewrite Hab, Hp; cbn [Stop_step]; rewrite He; cbn [fst snd]; by rewrite fn_lookup_insert).
  all: destruct H1 as [H1 H2].
  - destruct r as [k'|]; [lia|]. destruct Hr as (Hb & -> & Hh & _). rewrite Hf in H1. change (exec step c (replicate (2 + 0) (t, Step))) with (exec1 step c1 (t, Step)).
    set (c2 := exec1 step c1 (t, Step)). assert (H3 : shared c2 = with_stopping (with_buffers s' [] []) false /\ pcs c2 t = Idle).
    { unfold c2, exec1, a_step. cbn [fst snd shared pcs]. rewrite H2, H1. cbn [aborted with_buffers]. rewrite Hab', Hab. cbn. by rewrite fn_lookup_insert. }
    destruct H3 as [H3 H4]. cbn zeta. rewrite H3, H4. cbn [aborted accepted written with_stopping with_buffers]. rewrite Hab', Hacc. split; [done|]. split; [done|]. split; [done|].
    rewrite Hh in Ho. cbn [todo] in Ho. rewrite app_nil_r in Ho. rewrite Ho, Hord. unfold waiting. by rewrite Hd.
  - destruct r as [k'|]; [destruct Hr as [_ Hr]|lia]. cbn zeta. rewrite Nat.add_succ_r. cbn [replicate exec foldl]. fold c1. fold (exec step c1 (replicate (2 + n) (t, Step))).
    destruct (IH c1 k') as (? & ? & Hac & Hw); [by apply log_step|by rewrite H1; cbn; rewrite Hab'|done|done|rewrite H1; cbn; lia|].
    rewrite H1 in Hac, Hw. cbn in Hac, Hw. rewrite Hacc in Hac, Hw. done.
Qed.

(** The bounds, by the number of messages ever accepted. *)
Lemma left_over_todo k h buffer : turn_ok k h -> front_ok h buffer -> (left_over k buffer <= 3 * length (todo h buffer) + 1)%nat.
Proof. destruct k, h as [[m [|]]|]; try done; [|intros _ [l ->]|destruct buffer]; cbn; lia. Qed.
Lemma rank_bound s g : log_ok s g -> (rank s (g 0%nat) <= 6 + 3 * length (accepted s))%nat.
Proof.
  intros Hok. pose proof (lo_data _ _ Hok) as [Hord Hfr _]. apply (f_equal length) in Hord. rewrite length_app, length_fmap in Hord. unfold waiting in Hord.
  pose proof (proj2 (lo_threads _ _ Hok 0%nat) eq_refl) as Hr. pose proof (lo_done _ _ Hok) as Hdone. pose proof (turn_alone s g 0%nat) as Hal.
  destruct (thread_done s) eqn:Hd; [rewrite (proj1 Hdone eq_refl); cbn; lia|]. rewrite length_app in Hord.
  assert (Hh : turn_at (g 0%nat) = None -> handing s = None) by (intros Hn; apply (turns_none s g 0%nat (lo_turns _ _ Hok)); [intros u Hu; by apply Hal; [|left|]|done]).
  pose proof (tn_at _ _ (lo_turns _ _ Hok) 0%nat) as Hat. destruct (g 0%nat) as [| | | | | | | | | | | | | | |k| |]; try done; cbn [rank]; try lia.
  all: try (rewrite Hh in Hord by done; cbn [todo] in Hord; lia).
  pose proof (left_over_todo k _ _ (Hat k eq_refl) Hfr). lia.
Qed.

Definition in_flight p : bool := match p with WSpin _ | WPut _ | WClear _ | WThrown => true | _ => false end.

(** C27: [Stop] returns and leaves nothing behind: from every reachable state in which a thread waits in [Stop] for
    the log thread and no call of [Write] is under way, the log thread ends after finitely many of
    its own steps, after that [Stop] returns after finitely many of its own, its checks hold, and
    every message that was ever accepted has been handed over. *)
Theorem async_stop_flushes sched t :
  let c := run sched in let s := shared c in
  pcs c t = SJoin -> aborted s = false -> (forall u, in_flight (pcs c u) = false) ->
  exists n k, (n <= 6 + 3 * length (accepted s))%nat /\ (k <= 3 + 3 * length (accepted s))%nat /\
    let c' := exec step c (replicate n (0%nat, Step) ++ replicate k (t, Step)) in
    pcs c' 0%nat = RDone /\ pcs c' t = Idle /\ aborted (shared c') = false /\ accepted (shared c') = accepted s /\ (written (shared c')).*2 = accepted s.
Proof.
  intros c s Hp Hab Hfly. pose proof (log_exec sched _ logger_start_ok) as Hok. fold c in Hok. change (shared c) with s in Hok.
  assert (Ht : t <> 0%nat) by (intros ->; pose proof (proj2 (lo_threads _ _ Hok 0%nat) eq_refl) as Hr; by rewrite Hp in Hr).
  pose proof (proj2 (proj2 (lo_state _ _ Hok)) t Hp) as Hst.
  assert (Hq : quiet_flag (pcs c)).
  { intros u Hu. specialize (Hfly u). destruct (runs (pcs c u)) eqn:Hr; [by apply (lo_threads _ _ Hok) in Hr|]. by destruct (pcs c u). }
  destruct (runner_finishes _ c Hok Hst Hab Hq eq_refl) as (Hd & (Ha1 & Hs1 & Hj1 & Hac1) & Hu1). set (n := rank (shared c) (pcs c 0%nat)) in *.
  set (c1 := exec step c (replicate n (0%nat, Step))) in *. assert (Hok1 : log_ok (shared c1) (pcs c1)) by (by apply log_exec).
  assert (Hdone : thread_done (shared c1) = true) by (by apply (lo_done _ _ Hok1)). assert (Hp1 : pcs c1 t = SJoin) by (by rewrite Hu1).
  assert (Hab1 : aborted (shared c1) = false) by (rewrite Ha1; exact Hab). change (accepted (shared c1) = accepted s) in Hac1.
  set (c2 := exec1 step c1 (t, Step)).
  assert (H2 : pcs c2 t = SFlush (Look "") /\ pcs c2 0%nat = RDone /\ active_buf_ (shared c2) = active_buf_ (shared c1) /\ aborted (shared c2) = false /\ accepted (shared c2) = accepted s).
  { unfold c2, exec1, a_step. cbn [fst snd shared pcs]. rewrite Hab1, Hp1. cbn [Stop_step]. rewrite fn_lookup_insert, fn_lookup_insert_ne by done. rewrite Hdone.
    by destruct (log_thread_ (shared c1)). }
  destruct H2 as (Hp2 & H02 & Hac2 & Hab2 & Hacc2). assert (Hok2 : log_ok (shared c2) (pcs c2)) by (by apply log_step).
  destruct (stopper_finishes t _ c2 _ Hok2 Hab2 Ht Hp2 eq_refl) as (? & ? & ? & ?). set (k := left_over (Look "") (active_buf_ (shared c2))) in *.
  exists n, (3 + k)%nat. assert (Hlen : (k <= 3 * length (accepted s))%nat).
  { pose proof (da_order _ (lo_data _ _ Hok2)) as Ho. apply (f_equal length) in Ho. rewrite length_app, Hacc2 in Ho. unfold waiting in Ho.
    assert (Hd2 : thread_done (shared c2) = true) by (by apply (lo_done _ _ Hok2)). rewrite Hd2 in Ho. pose proof (tn_at _ _ (lo_turns _ _ Hok2) t (Look "")) as Hk.
    rewrite Hp2 in Hk. specialize (Hk eq_refl). destruct (handing (shared c2)) as [[? [|]]|]; cbn in Hk, Ho; try done. change (active_buf_ (step (shared c1) (pcs c1 t) Step).1) with (active_buf_ (shared c2)) in Ho. unfold k. cbn [left_over]. lia. }
  split; [by apply rank_bound|]. split; [lia|]. rewrite exec_app. fold c1. change (replicate (3 + k) (t, Step)) with ((t, Step) :: replicate (2 + k) (t, Step)).
  cbn [exec foldl]. fold c2. fold (exec step c2 (replicate (2 + k) (t, Step))). split; [|split; [done|split; [done|split; congruence]]].
  assert (Hfar : forall j c0, pcs (exec step c0 (replicate j (t, Step))) 0%nat = pcs c0 0%nat); [|by rewrite Hfar].
  clear -Ht. induction j as [|j IH]; intros c0; [done|]. cbn [replicate exec foldl]. fold (exec step (exec1 step c0 (t, Step)) (replicate j (t, Step))). rewrite IH. unfold exec1. cbn [pcs fst]. by rewrite fn_lookup_insert_ne.
Qed.
End Proofs.

(** ** Examples, and what goes wrong *)
Definition info (text : string) : write_args := mkArgs false 5 (Some text).
Definition steps (t n : nat) : list (nat * aev) := replicate n (t, Step).
Definition writes_message (t : nat) (text : string) : list (nat * aev) := (t, Call (Write (info text))) :: steps t 5.

Lemma async_stop_flushes_witness :
  let sched := writes_message 1 "I [planning] a" ++ steps 0 4 ++ writes_message 2 "W [routing] b" ++ [(3%nat, Call Stop); (3%nat, Step)] in
  let c := exec (a_step "mainboard") logger_start sched in
  pcs c 3%nat = SJoin /\ aborted (shared c) = false /\ (forall u, in_flight (pcs c u) = false) /\
  exists n k, let c' := exec (a_step "mainboard") c (replicate n (0%nat, Step) ++ replicate k (3%nat, Step)) in (written (shared c')).*2 = accepted (shared c).
Proof.
  intros sched c. assert (Hp : pcs c 3%nat = SJoin) by (vm_compute; reflexivity). assert (Ha : aborted (shared c) = false) by (vm_compute; reflexivity).
  assert (Hf : forall u, in_flight (pcs c u) = false) by (intros [|[|[|[|u]]]]; vm_compute; reflexivity).
  split; [exact Hp|]. split; [exact Ha|]. split; [exact Hf|].
  destruct (async_stop_flushes "mainboard" sched 3 Hp Ha Hf) as (n & k & _ & _ & _ & _ & _ & _ & Hw). exists n, k. exact Hw.
Defined.

(** A message that does not start with a letter of [log_level_map]: [at] throws while the flag is held,
    and no one gets past it again. *)
Theorem unknown_level_blocks_logger :
  let c := exec (a_step "mainboard") logger_start ((1%nat, Call (Write (info "hello"))) :: steps 1 3) in
  pcs c 1%nat = WThrown /\ flag_ (shared c) = true /\
  forall n, let c' := exec (a_step "mainboard") c (steps 0 (2 + n)) in pcs c' 0%nat = RSpin /\ flag_ (shared c') = true.
Proof.
  split; [by vm_compute|]. split; [by vm_compute|]. intros n c'. set (c := exec _ _ (_ :: _)) in c'.
  assert (Hc : forall (c : conf) m, pcs c 0%nat = RSpin -> flag_ (shared c) = true -> aborted (shared c) = false ->
    pcs (exec (a_step "mainboard") c (steps 0 m)) 0%nat = RSpin /\ flag_ (shared (exec (a_step "mainboard") c (steps 0 m))) = true).
  { clear. intros c m. revert c. induction m as [|m IH]; intros c Hp Hf Ha; [done|].
    change (steps 0 (S m)) with ((0%nat, Step) :: steps 0 m). unfold exec in *. cbn [foldl].
    assert (H1 : a_step "mainboard" (shared c) (pcs c 0%nat) Step = (shared c, RSpin)) by (unfold a_step; rewrite Ha, Hp; cbn; by rewrite Hf).
    apply IH; unfold exec1; cbn [fst snd shared pcs]; rewrite H1; [by rewrite fn_lookup_insert|done|done]. }
  assert (Hn : c' = exec (a_step "mainboard") (exec (a_step "mainboard") c (steps 0 2)) (steps 0 n)) by (rewrite <- exec_app; done). rewrite Hn. apply Hc; by vm_compute.
Qed.

(** [module_name] is kept from one message to the next: a message without a module goes to the file of
    the module before it. *)
Theorem module_of_the_message_before :
  let c := exec (a_step "mainboard") logger_start (writes_message 1 "I [planning] a" ++ writes_message 1 "I b" ++ steps 0 10) in
  written (shared c) = [("planning", mkMsg 5 "I [planning] a" 0); ("planning", mkMsg 5 "I b" 0)]%string /\
  module_in "I b" = None.
Proof. by vm_compute. Qed.

(** Two calls of [Stop] that overlap are undefined: they join one thread and flush one buffer. *)
Theorem two_stops_undefined :
  aborted (shared (exec (a_step "mainboard") logger_start [(1%nat, Call Stop); (1%nat, Step); (2%nat, Call Stop); (2%nat, Step)])) = true.
Proof. by vm_compute. Qed.

(** A call of [Write] that has seen the logger running can put its message in after [Stop] has flushed:
    the check of [Stop] ends the process, or the message stays behind. *)
Theorem late_write_fails_check :
  let late := [(1%nat, Call (Write (info "I a"))); (1%nat, Step); (3%nat, Call Stop); (3%nat, Step)] ++ steps 0 7 ++ steps 3 2 in
  let c := exec (a_step "mainboard") logger_start (late ++ steps 1 4 ++ steps 3 1) in
  aborted (shared c) = true /\
  let c := exec (a_step "mainboard") logger_start (late ++ steps 3 1 ++ steps 1 4) in
  pcs c 3%nat = Idle /\ length (active_buf_ (shared c)) = 1%nat /\ written (shared c) = [].
Proof. by vm_compute. Qed.

(** ** File objects *)
Section Files.
Context (g : flags).
Implicit Types (f : LogFileObject) (w : world).

(** The messages in the files, in order, and the bytes of a file. *)
Definition texts f : list string := (closed f ≫= lines) ++ from_option lines [] (file_ f).
Definition size_of (l : log_file) : Z := header l + Z.of_nat (sum_list (String.length <$> lines l)).
Definition max_file : Z := MaxLogSize g * 2 ^ 20 + 2 ^ 20.

(** Files can be made and written; headers and messages have at most 1 MB; the limit is one that a
    length of 32 bits can reach. *)
Definition fair w : Prop := creatable w = true /\ disk_full w = false /\ 0 <= header_len w <= 2 ^ 20.
Definition short (x : world * file_call) : Prop := fair x.1 /\ match x.2 with FWrite _ _ text => Z.of_nat (String.length text) <= 2 ^ 20 | FFlush => True end.
Context (Hlimit : MaxLogSize g <= 4094).

Record file_ok f : Prop := {
  fi_name : base_filename_selected_ f = true /\ base_filename_ f <> ""%string;
  fi_none : file_ f = None -> rollover_attempt_ f = kRolloverAttemptFrequency - 1 /\ file_length_ f = 0 /\ bytes_since_flush_ f = 0;
  fi_some : forall l, file_ f = Some l -> size_of l = file_length_ f /\ 0 <= file_length_ f <= max_file;
  fi_closed : Forall (fun l => size_of l <= max_file) (closed f);
  fi_flush : 0 <= bytes_since_flush_ f < 1000000
}.

Lemma size_of_snoc h l text : size_of (mkLog h (l ++ [text])) = size_of (mkLog h l) + Z.of_nat (String.length text).
Proof. unfold size_of. cbn [header lines]. rewrite fmap_app, sum_list_with_app. cbn. lia. Qed.
Lemma MaxLogSize_pos : 0 < MaxLogSize g.
Proof. unfold MaxLogSize. destruct (Z.ltb_spec 0 (max_log_size g)); lia. Qed.

Lemma texts_close f : texts (close_file f) = texts f.
Proof. unfold texts, close_file. cbn. destruct (file_ f) as [l|]; cbn; [|by rewrite !app_nil_r]. rewrite bind_app. cbn. by rewrite !app_nil_r. Qed.

Lemma rollover_ok w f : file_ok f ->
  file_ok (rollover g w f) /\ texts (rollover g w f) = texts f /\ file_length_ (rollover g w f) < MaxLogSize g * 2 ^ 20 /\ next_flush_time_ (rollover g w f) = next_flush_time_ f.
Proof.
  intros Hok. pose proof Hok as [Hname Hnone Hsome Hclosed Hfl]. pose proof MaxLogSize_pos as HM. unfold rollover.
  destruct ((MaxLogSize g <=? Z.shiftr (file_length_ f) 20) || pid_changed w) eqn:Hb.
  - split; [|split; [apply (texts_close f)|split; [cbn; lia|done]]]. split; try done.
    cbn. apply Forall_app. split; [done|]. destruct (file_ f) as [l|]; [|by constructor]. constructor; [|by constructor]. pose proof (Hsome l eq_refl). lia.
  - apply orb_false_iff in Hb as [Hb _]. apply Z.leb_gt in Hb. rewrite Z.shiftr_div_pow2 in Hb by lia. split; [done|]. split; [done|]. split; [|done].
    pose proof (Z.mod_pos_bound (file_length_ f) (2 ^ 20) ltac:(lia)). pose proof (Z.div_mod (file_length_ f) (2 ^ 20) ltac:(lia)). nia.
Qed.

Lemma open_file_ok w f : fair w -> file_ok f -> file_length_ f < MaxLogSize g * 2 ^ 20 ->
  let r := open_file w f in
  r.1 = true /\ file_ok (with_lengths r.2 0 (file_length_ r.2)) /\ texts r.2 = texts f /\ is_Some (file_ r.2) /\
  file_length_ r.2 <= MaxLogSize g * 2 ^ 20 /\ 0 <= bytes_since_flush_ r.2 < 1000000 + 2 ^ 20 /\ next_flush_time_ r.2 = next_flush_time_ f.
Proof.
  intros (Hc & _ & Hh) Hok Hlen r. pose proof Hok as [Hname Hnone Hsome Hclosed Hfl]. pose proof MaxLogSize_pos as HM. unfold r, open_file.
  destruct (file_ f) as [l|] eqn:Hf.
  - cbn [fst snd]. split; [done|]. split; [|split; [done|]; split; [by exists l|split; [lia|split; [lia|done]]]].
    split; cbn; rewrite ?Hf; try done; lia.
  - destruct (Hnone eq_refl) as (Ha & Hl & Hb). rewrite Ha. change (u32 (kRolloverAttemptFrequency - 1 + 1)) with kRolloverAttemptFrequency. rewrite Z.eqb_refl. cbn [negb with_attempt base_filename_selected_].
    rewrite (proj1 Hname). unfold CreateLogfile. rewrite Hc. cbn. rewrite Hl, Hb, !Z.add_0_l, u32_small by word_lia. split; [done|]. split; [|split; [|split; [by eexists|split; [lia|split; [lia|done]]]]].
    + split; cbn; try done; try lia. intros l [= <-]. unfold max_file, size_of. cbn. lia.
    + unfold texts. cbn. by rewrite Hf.
Qed.

Lemma File_Write_ok w force text f : fair w -> Z.of_nat (String.length text) <= 2 ^ 20 -> file_ok f ->
  let r := File_Write g w force text (false, f) in r.1 = false /\ file_ok r.2 /\ texts r.2 = texts f ++ [text].
Proof.
  intros Hw Ht Hok r. unfold r, File_Write. pose proof (fi_name _ Hok) as [Hsel Hne]. destruct (String.eqb_spec (base_filename_ f) "") as [|_]; [done|]. rewrite andb_false_r.
  destruct (rollover_ok w f Hok) as (Hok1 & Ht1 & Hlen1 & _). set (f1 := rollover g w f) in *.
  destruct (open_file_ok w f1 Hw Hok1 Hlen1) as (Hb & Hok2 & Ht2 & [l Hl] & Hlen2 & Hfl2 & _). destruct (open_file w f1) as [b f2]. cbn [fst snd] in *. subst b. cbn [negb].
  rewrite (proj1 (proj2 Hw)), andb_false_r. set (n := Z.of_nat (String.length text)) in *.
  destruct Hok2 as [Hname2 _ Hsome2 Hclosed2 _]. cbn in Hname2, Hsome2, Hclosed2. pose proof (Hsome2 l Hl) as Hsz. pose proof MaxLogSize_pos.
  set (f3 := with_lengths _ _ _). assert (Hf3 : file_ f3 = Some (mkLog (header l) (lines l ++ [text]))) by (unfold f3; cbn; by rewrite Hl).
  assert (Hb3 : bytes_since_flush_ f3 = bytes_since_flush_ f2 + n) by (unfold f3; cbn; rewrite u32_small by word_lia; done).
  assert (Hn3 : file_length_ f3 = file_length_ f2 + n) by (unfold f3; cbn; rewrite u32_small by word_lia; done).
  assert (Hsome3 : forall l', file_ f3 = Some l' -> size_of l' = file_length_ f3 /\ 0 <= file_length_ f3 <= max_file).
  { intros l'. rewrite Hf3. intros [= <-]. rewrite size_of_snoc, Hn3. unfold max_file. fold n. destruct l. cbn [header lines]. lia. }
  assert (Htx : texts f3 = texts f ++ [text]).
  { unfold texts in *. rewrite Hf3. rewrite Hl in Ht2. rewrite <- Ht1, <- Ht2. change (closed f3) with (closed f2). cbn. by rewrite app_assoc. }
  split; [done|]. destruct (force || _ || _) eqn:Hflush.
  - unfold FlushUnlocked. rewrite Hf3. split; [|exact Htx]. split; try done; change (file_ f3 = None -> rollover_attempt_ f3 = kRolloverAttemptFrequency - 1 /\ file_length_ f3 = 0 /\ 0 = 0); congruence.
  - split; [|exact Htx]. split; try done; [change (file_ f3 = None -> rollover_attempt_ f3 = kRolloverAttemptFrequency - 1 /\ file_length_ f3 = 0 /\ bytes_since_flush_ f3 = 0); congruence|]. cbn [snd]. apply orb_false_iff in Hflush as [Hflush _]. apply orb_false_iff in Hflush as [_ Hflush]. apply Z.leb_gt in Hflush.
    split; [rewrite Hb3; lia|exact Hflush].
Qed.

Definition text_of (x : world * file_call) : list string := match x.2 with FWrite _ _ text => [text] | FFlush => [] end.

Lemma run_calls_ok calls : forall f, file_ok f -> Forall short calls ->
  let r := foldl (run_call g) (false, f) calls in r.1 = false /\ file_ok r.2 /\ texts r.2 = texts f ++ (calls ≫= text_of).
Proof.
  induction calls as [|[w [force t text|]] calls IH]; intros f Hok Hs; cbn [foldl]; [by rewrite app_nil_r|..]; apply Forall_cons in Hs as [[Hw Ht] Hs]; cbn [fst snd] in *.
  - destruct (File_Write_ok w force text f Hw Ht Hok) as (Hb & Hok' & Htx). change (run_call g (false, f) (w, FWrite force t text)) with (File_Write g w force text (false, f)).
    destruct (File_Write g w force text (false, f)) as [b f']. cbn [fst snd] in *. subst b. destruct (IH f' Hok' Hs) as (? & ? & ->). rewrite Htx, <- app_assoc. done.
  - assert (Hok' : file_ok (FlushUnlocked g (now w) f) /\ texts (FlushUnlocked g (now w) f) = texts f).
    { destruct Hok as [? Hnone Hsome ? ?]. unfold FlushUnlocked. destruct (file_ f) as [l|] eqn:Hf; (split; [split|unfold texts]); cbn; rewrite ?Hf; try done; lia. }
    destruct Hok' as [Hok' Ht']. destruct (IH _ Hok' Hs) as (? & ? & Htx). rewrite Ht' in Htx. done.
Qed.

(** C28: The file object of a module loses nothing and keeps its files small: over any sequence of messages and
    flushes, of changes of the process and readings of the clock, as long as files can be made, the disk
    is not full, headers and messages have at most 1 MB and the limit is at most 4094 MB, the messages in
    the files, one after the other, are exactly those written, in order, [file_length_] is the number of
    bytes of the open file, no file with its header is longer than the limit and 1 MB, and less than 10^6
    bytes are not flushed. *)
Theorem log_files_complete name calls :
  name <> ""%string -> Forall short calls ->
  let r := foldl (run_call g) (false, LogFileObject_new (Some name)) calls in
  texts r.2 = calls ≫= text_of /\ Forall (fun l => size_of l <= max_file) (closed r.2 ++ option_list (file_ r.2)) /\
  (forall l, file_ r.2 = Some l -> file_length_ r.2 = size_of l) /\ 0 <= bytes_since_flush_ r.2 < 1000000.
Proof.
  intros Hname Hs r. assert (Hok : file_ok (LogFileObject_new (Some name))).
  { split; try done; cbn. split; [done|]. by destruct (String.eqb_spec name ""). }
  destruct (run_calls_ok calls _ Hok Hs) as (_ & [_ _ Hsome Hclosed Hfl] & Ht). fold r in Hsome, Hclosed, Hfl, Ht. split; [done|]. split; [|split; [|done]].
  - apply Forall_app. split; [done|]. destruct (file_ r.2) as [l|]; [|constructor]. constructor; [|constructor]. pose proof (Hsome l eq_refl). lia.
  - intros l Hl. symmetry. apply (Hsome l Hl).
Qed.
End Files.

(** When the file cannot be made, the next 31 messages are lost without another attempt. *)
Theorem failed_file_drops_messages :
  let g := mkFlags 1800 30 false in let f := LogFileObject_new (Some "planning.log.INFO.") in
  let w ok := mkWorld 0 false ok 100 false in
  let r := foldl (run_call g) (false, f) ((w false, FWrite false 5 "lost") :: replicate 31 (w true, FWrite false 5 "lost") ++ [(w true, FWrite false 5 "kept")]) in
  texts r.2 = ["kept"%string].
Proof. by vm_compute. Qed.

(** A limit of 1 MB and 65 messages of 16 kB: the file is closed for its size before the last of them. *)
Definition long_text : string := Pos.iter (String "x") "" 16384.
Definition long_calls : list (world * file_call) := replicate 65 (mkWorld 40000000 false true 100 false, FWrite false 5 long_text).

Lemma log_files_complete_witness :
  let g := mkFlags 1 30 false in let r := foldl (run_call g) (false, LogFileObject_new (Some "planning.log"%string)) long_calls in
  "planning.log"%string <> ""%string /\ Forall short long_calls /\
  map (fun l => (size_of l, length (lines l))) (closed r.2) = [(100 + 64 * 16384, 64%nat)] /\ texts r.2 = long_calls ≫= text_of /\
  Forall (fun l => size_of l <= max_file g) (closed r.2 ++ option_list (file_ r.2)).
Proof.
  intros g r. assert (Hs : Forall short long_calls).
  { apply Forall_replicate. split; [by repeat split|]. apply Z.leb_le. vm_compute. reflexivity. }
  split; [discriminate|]. split; [exact Hs|]. split; [vm_compute; reflexivity|].
  destruct (log_files_complete g ltac:(cbn; lia) "planning.log" long_calls ltac:(discriminate) Hs) as (Ht & Hf & _). split; [exact Ht|exact Hf].
Defined.
