(* ===== verification/Files.v ===== *)
(** * Files: common/file.cc

    The file system is a finite map from places, lists of names from the root, to what is there.
    Calls of the system find a place by walking the names of a path ([resolve]) and may be refused:
    [permitted] says where the process may make, write and remove, [readable] what it may read.  There
    are no symbolic links, and nobody else changes the files meanwhile; the names of a directory are
    read when the loop over them starts, in any order ([HashOrder]).  [cwd] is the current directory,
    [cp] what the command [cp -r] does; the printers and parsers of protobuf are parameters.

    [CopyDir] and [DeleteFile] call themselves and take fuel; [None] is out of fuel. *)

From Stdlib Require Import ZArith Lia Ascii.
From stdpp Require Import base gmap strings list.
From S2P Require Import Prelude.

Inductive entry := Dir | File (content : string) | Special.
#[export] Instance entry_eq : EqDecision entry. Proof. solve_decision. Defined.
Abbreviation place := (list string).
Abbreviation files := (gmap place entry).

(** The names of a path, between the slashes. *)
Fixpoint split (s : string) : list string :=
  match s with
  | EmptyString => [""%string]
  | String c s => if Ascii.eqb c "/" then ""%string :: split s else match split s with x :: l => String c x :: l | [] => [] end
  end.
Definition child (d n : string) : string := d +:+ "/" +:+ n.

Section System.
Context `{HashOrder} (cwd : place) (permitted readable : place -> bool) (cp : files -> string -> string -> bool * files).
Implicit Types (fs : files) (d n : string) (p : place).

(** ** The calls of the system *)
Definition step fs p n : option place :=
  match fs !! p with
  | Some Dir => Some (if String.eqb n "" || String.eqb n "." then p else if String.eqb n ".." then removelast p else p ++ [n])
  | _ => None
  end.
Fixpoint walk fs p (l : list string) : option place := match l with [] => Some p | n :: l => p ← step fs p n; walk fs p l end.
Definition start d : place := match d with String "/" _ => [] | _ => cwd end.
Definition resolve fs d : option place := if String.eqb d "" then None else walk fs (start d) (split d).
Definition stat fs d : option entry := p ← resolve fs d; fs !! p.

(** [mkdir] ignores slashes at the end of the path. *)
Fixpoint strip (l : list string) : list string :=
  match l with [] => [] | x :: l => match strip l with [] => if String.eqb x "" then [] else [x] | l => x :: l end end.
Inductive made := Made | Exists | Failed.
Definition mkdir fs d : made * files :=
  if String.eqb d "" then (Failed, fs)
  else match walk fs (start d) (strip (split d)) with
       | Some p => match fs !! p with Some _ => (Exists, fs) | None => if permitted p then (Made, <[p := Dir]> fs) else (Failed, fs) end
       | None => (Failed, fs)
       end.

(** Directories are listed with their names and whether these are directories. *)
Definition child_of p (q : place) : option string := match last q with Some n => if decide (q = p ++ [n]) then Some n else None | None => None end.
Definition children fs p : list string := omap (child_of p) (map_to_list fs).*1.
Definition opendir fs d : option place := p ← resolve fs d; match fs !! p with Some Dir => if readable p then Some p else None | _ => None end.
Definition readdir fs p : list (string * entry) := (fun n => (n, default Dir (fs !! (p ++ [n])))) <$> rehash (["."; ".."]%string ++ children fs p).
Definition is_dot n : bool := String.eqb n "." || String.eqb n "..".

Definition unlink fs d : bool * files :=
  match resolve fs d with
  | Some p => match fs !! p with Some Dir | None => (false, fs) | Some _ => if permitted p then (true, delete p fs) else (false, fs) end
  | None => (false, fs)
  end.
Definition remove fs d : bool * files :=
  match resolve fs d with
  | Some p =>
      match fs !! p with
      | Some Dir => if bool_decide (p <> [] /\ children fs p = []) && permitted p then (true, delete p fs) else (false, fs)
      | _ => unlink fs d
      end
  | None => (false, fs)
  end.

Definition open_read fs d : option place := p ← resolve fs d; match fs !! p with Some Dir | Some (File _) => if readable p then Some p else None | _ => None end.
Definition open_write fs d : option (place * files) :=
  p ← resolve fs d; match fs !! p with Some Dir | Some Special => None | _ => if permitted p then Some (p, <[p := File ""]> fs) else None end.
Definition content fs p : string := match fs !! p with Some (File s) => s | _ => "" end.

(** ** file.cc *)
Definition GetContent fs d : option string := p ← open_read fs d; Some (content fs p).
Definition PathExists fs d : bool := bool_decide (is_Some (stat fs d)).
Definition DirectoryExists fs d : bool := bool_decide (stat fs d = Some Dir).

Inductive FileType := TYPE_FILE | TYPE_DIR.
Definition GetType fs d : option FileType := match stat fs d with Some Dir => Some TYPE_DIR | Some (File _) => Some TYPE_FILE | _ => None end.

(** The source is open while the target is emptied. *)
Definition CopyFile fs (from to : string) : bool * files :=
  match open_read fs from with
  | None => cp fs from to
  | Some p => match open_write fs to with None => (false, fs) | Some (q, fs) => (true, <[q := File (content fs p)]> fs) end
  end.

(** The paths that end before a slash, from the second character on. *)
Fixpoint prefixes_from (before s : string) : list string :=
  match s with EmptyString => [] | String c s => (if Ascii.eqb c "/" then [before] else []) ++ prefixes_from (before +:+ String c "") s end.
Definition slash_prefixes d : list string := match d with String c s => prefixes_from (String c "") s | EmptyString => [] end.
Fixpoint make_all fs (l : list string) : bool * files :=
  match l with [] => (true, fs) | d :: l => match mkdir fs d with (Failed, fs) => (false, fs) | (_, fs) => make_all fs l end end.
Definition EnsureDirectory fs d : bool * files := make_all fs (slash_prefixes d ++ [d]).
Definition CreateDir fs d : bool * files := match mkdir fs d with (Made, fs) => (true, fs) | (_, fs) => (false, fs) end.

(** The loop of [CopyDir]. *)
Fixpoint copy_entries (copy_dir : files -> string -> string -> option (bool * files)) (from to : string) (l : list (string * entry)) (ret : bool) fs : option (bool * files) :=
  match l with
  | [] => Some (ret, fs)
  | (n, e) :: l =>
      if is_dot n then copy_entries copy_dir from to l ret fs
      else
        '(ok, fs) ← match e with Dir => copy_dir fs (child from n) (child to n) | _ => Some (CopyFile fs (child from n) (child to n)) end;
        copy_entries copy_dir from to l (ret && ok) fs
  end.
Fixpoint CopyDir (fuel : nat) fs (from to : string) : option (bool * files) :=
  match fuel with
  | O => None
  | S fuel =>
      match opendir fs from with
      | None => Some (false, fs)
      | Some p => let '(ok, fs) := EnsureDirectory fs to in if ok then copy_entries (CopyDir fuel) from to (readdir fs p) true fs else Some (false, fs)
      end
  end.
Definition Copy (fuel : nat) fs (from to : string) : option (bool * files) := if DirectoryExists fs from then CopyDir fuel fs from to else Some (CopyFile fs from to).

Fixpoint unlink_all fs d (l : list (string * entry)) : bool * files :=
  match l with
  | [] => (true, fs)
  | (n, _) :: l => if is_dot n then unlink_all fs d l else match unlink fs (child d n) with (true, fs) => unlink_all fs d l | r => r end
  end.
Definition RemoveAllFiles fs d : bool * files := match opendir fs d with None => (false, fs) | Some p => unlink_all fs d (readdir fs p) end.

(** [same_type]: the type asked for. *)
Definition ListSubPaths fs d (same_type : entry -> bool) : list string :=
  match opendir fs d with None => [] | Some p => (filter (fun x => same_type x.2 && negb (is_dot x.1)) (readdir fs p)).*1 end.

(** The loop of [DeleteFile]. *)
Fixpoint delete_entries (delete_file : files -> string -> option (bool * files)) d (l : list (string * entry)) fs : option (bool * files) :=
  match l with
  | [] => Some (true, fs)
  | (n, _) :: l =>
      if is_dot n then delete_entries delete_file d l fs
      else match GetType fs (child d n) with
           | None => Some (false, fs)
           | Some _ => '(_, fs) ← delete_file fs (child d n); delete_entries delete_file d l (remove fs (child d n)).2
           end
  end.
Fixpoint DeleteFile (fuel : nat) fs d : option (bool * files) :=
  match fuel with
  | O => None
  | S fuel =>
      if negb (PathExists fs d) then Some (true, fs)
      else match GetType fs d with
           | None => Some (false, fs)
           | Some TYPE_FILE => Some (remove fs d)
           | Some TYPE_DIR =>
               match opendir fs d with
               | None => Some (false, fs)
               | Some p =>
                   match delete_entries (DeleteFile fuel) d (readdir fs p) fs with
                   | Some (true, fs) => Some (true, (remove fs d).2)
                   | r => r
                   end
               end
           end
  end.

(** *** Messages in files *)
Context {T : Type} (print_text : T -> string) (parse_text parse_binary : string -> option T) (serialize : T -> option string).

(** The second part of opening for writing: what is written. *)
Definition SetProtoToASCIIFile fs (m : T) d : bool * files := match open_write fs d with Some (p, fs) => (true, <[p := File (print_text m)]> fs) | None => (false, fs) end.
Definition SetProtoToBinaryFile fs (m : T) d : bool * files :=
  match open_write fs d with Some (p, fs) => match serialize m with Some s => (true, <[p := File s]> fs) | None => (false, fs) end | None => (false, fs) end.
Definition GetProtoFromASCIIFile fs d : option T := s ← GetContent fs d; parse_text s.
Definition GetProtoFromBinaryFile fs d : option T := s ← GetContent fs d; parse_binary s.

(** [equal] from the end; [None]: characters before the beginning of the name are read. *)
Fixpoint equal_chars (ext name : list ascii) : option bool :=
  match ext, name with
  | [], _ => Some true
  | _ :: _, [] => None
  | c :: ext, c' :: name => if Ascii.eqb c c' then equal_chars ext name else Some false
  end.
Definition ends_with_bin (name : string) : option bool := equal_chars (rev (String.list_ascii_of_string ".bin")) (rev (String.list_ascii_of_string name)).
Definition GetProtoFromFile fs d : option (option T) :=
  match ends_with_bin d with
  | None => None
  | Some bin =>
      let text := GetProtoFromASCIIFile fs d in let binary := GetProtoFromBinaryFile fs d in
      Some (if bin then match binary with Some m => Some m | None => text end else match text with Some m => Some m | None => binary end)
  end.
End System.

(** ** Paths *)
Section Paths.
Context (cwd : place).
Implicit Types (fs : files) (d n : string) (p q r : place).

Definition name_ok n : Prop := split n = [n] /\ n <> ""%string /\ n <> "."%string /\ n <> ".."%string.

Lemma split_nonempty d : split d <> [].
Proof. induction d as [|c d IH]; [done|]. cbn. destruct (Ascii.eqb c "/"); [done|]. by destruct (split d). Qed.

Lemma split_child d n : split (child d n) = split d ++ split n.
Proof.
  change (child d n) with (d +:+ String "/" n). induction d as [|c d IH]; [done|]. change (String c d +:+ String "/" n) with (String c (d +:+ String "/" n)). cbn [split]. rewrite IH.
  destruct (Ascii.eqb c "/"); [done|]. destruct (split d) as [|x l] eqn:E; [by destruct (split_nonempty d)|done].
Qed.
Lemma walk_app fs p l l' : walk fs p (l ++ l') = (q ← walk fs p l; walk fs q l').
Proof. revert p. induction l as [|n l IH]; intros p; [done|]. cbn. destruct (step fs p n) as [q|]; [apply IH|done]. Qed.

Lemma step_name fs p n : fs !! p = Some Dir -> name_ok n -> step fs p n = Some (p ++ [n]).
Proof.
  intros Hp (_ & H1 & H2 & H3). unfold step. rewrite Hp. destruct (String.eqb_spec n ""); [done|]. destruct (String.eqb_spec n "."); [done|]. by destruct (String.eqb_spec n "..").
Qed.

Lemma resolve_child fs d n p : resolve cwd fs d = Some p -> fs !! p = Some Dir -> name_ok n -> resolve cwd fs (child d n) = Some (p ++ [n]).
Proof.
  unfold resolve. destruct d as [|c d]; [done|]. intros Hd Hp Hn. change (String.eqb (child (String c d) n) "") with false. cbn [String.eqb] in Hd |- *.
  rewrite split_child, walk_app. change (start cwd (child (String c d) n)) with (start cwd (String c d)). rewrite Hd. cbn [mbind option_bind].
  rewrite (proj1 Hn). cbn [walk]. by rewrite step_name.
Qed.

(** A path that leads on past a slash has a directory there. *)
Lemma resolve_prefix fs x y p : x <> ""%string -> resolve cwd fs (child x y) = Some p -> exists q, resolve cwd fs x = Some q /\ fs !! q = Some Dir.
Proof.
  unfold resolve. destruct x as [|c x]; [done|]. intros _. change (String.eqb (child (String c x) y) "") with false. cbn [String.eqb].
  rewrite split_child, walk_app. change (start cwd (child (String c x) y)) with (start cwd (String c x)). destruct (walk fs _ (split (String c x))) as [q|]; [|done]. cbn [mbind option_bind].
  intros Hw. exists q. split; [done|]. pose proof (split_nonempty y). destruct (split y) as [|n l]; [done|]. cbn in Hw. unfold step in Hw. by destruct (fs !! q) as [[]|].
Qed.

Definition grows fs fs' : Prop := forall r, fs !! r = Some Dir -> fs' !! r = Some Dir.
Lemma walk_grows fs fs' l : grows fs fs' -> forall p q, walk fs p l = Some q -> walk fs' p l = Some q.
Proof.
  intros Hg. induction l as [|n l IH]; intros p q; [done|]. cbn. unfold step. destruct (fs !! p) as [[]|] eqn:E; try done. rewrite (Hg _ E). cbn. apply IH.
Qed.
Lemma resolve_grows fs fs' d p : grows fs fs' -> resolve cwd fs d = Some p -> resolve cwd fs' d = Some p.
Proof. intros Hg. unfold resolve. destruct (String.eqb d ""); [done|]. by apply walk_grows. Qed.

(** A path without [..] depends on the places above its own only. *)
Lemma walk_plain fs fs' l : ".."%string ∉ l -> forall p q, walk fs p l = Some q -> (forall r, r `prefix_of` q -> r <> q -> fs' !! r = fs !! r) -> fs' !! q = fs !! q -> walk fs' p l = Some q /\ p `prefix_of` q.
Proof.
  induction l as [|n l IH]; intros Hl p q; cbn.
  - intros [= ->]. done.
  - apply not_elem_of_cons in Hl as [Hn Hl]. intros Hw Hs Hq. unfold step in Hw. destruct (fs !! p) as [[]|] eqn:E; try done. cbn in Hw. lazymatch type of Hw with walk _ ?x _ = _ => set (p' := x) in * end.
    destruct (IH Hl _ _ Hw Hs Hq) as [Hw' Hpre]. assert (Hpp : p `prefix_of` p').
    { unfold p'. destruct (_ || _); [done|]. destruct (String.eqb_spec n ".."); [done|]. by apply prefix_app_r. }
    assert (Hpq : p `prefix_of` q) by (by etrans). split; [|done]. unfold step. assert (fs' !! p = fs !! p) as -> by (destruct (decide (p = q)) as [->|]; [done|by apply Hs]). by rewrite E.
Qed.
Lemma resolve_plain fs fs' d p : ".."%string ∉ split d -> resolve cwd fs d = Some p -> (forall r, r `prefix_of` p -> fs' !! r = fs !! r) -> resolve cwd fs' d = Some p.
Proof. intros Hd. unfold resolve. destruct (String.eqb d ""); [done|]. intros Hw Hs. apply (walk_plain fs fs' _ Hd _ _ Hw); [intros r Hr _; by apply Hs|by apply Hs]. Qed.

(** ** Making directories *)
Context (permitted : place -> bool).
Abbreviation mkdir := (mkdir cwd permitted).
Abbreviation make_all := (make_all cwd permitted).
Abbreviation EnsureDirectory := (EnsureDirectory cwd permitted).

Lemma strip_walk fs l : forall p q, walk fs p l = Some q -> walk fs p (strip l) = Some q.
Proof.
  induction l as [|x l IH]; intros p q; [done|]. cbn [walk strip]. destruct (step fs p x) as [p'|] eqn:E; [|done]. cbn. intros Hw%IH.
  destruct (strip l) as [|y l']; [|cbn [walk]; by rewrite E]. cbn in Hw. injection Hw as ->. destruct (String.eqb_spec x "") as [->|]; [|cbn; by rewrite E].
  unfold step in E. by destruct (fs !! p) as [[]|].
Qed.
Lemma strip_snoc l x : x <> ""%string -> strip (l ++ [x]) = l ++ [x].
Proof. intros Hx. induction l as [|y l IH]; cbn; [by destruct (String.eqb_spec x "")|]. rewrite IH. destruct (l ++ [x]) eqn:E; [by destruct l|done]. Qed.

Lemma mkdir_exists fs d p : resolve cwd fs d = Some p -> is_Some (fs !! p) -> mkdir fs d = (Exists, fs).
Proof. unfold resolve, Files.mkdir. destruct (String.eqb d ""); [done|]. intros Hw%strip_walk [e He]. by rewrite Hw, He. Qed.

Lemma mkdir_child fs d n p : resolve cwd fs d = Some p -> fs !! p = Some Dir -> name_ok n ->
  mkdir fs (child d n) = match fs !! (p ++ [n]) with Some _ => (Exists, fs) | None => if permitted (p ++ [n]) then (Made, <[p ++ [n] := Dir]> fs) else (Failed, fs) end.
Proof.
  intros Hd Hp Hn. pose proof (resolve_child fs d n p Hd Hp Hn) as Hc. unfold resolve, Files.mkdir in *. destruct (String.eqb (child d n) ""); [done|].
  apply strip_walk in Hc. by rewrite Hc.
Qed.

(** Below a file nothing can be made. *)
Lemma mkdir_below fs d n p e : resolve cwd fs d = Some p -> fs !! p = Some e -> e <> Dir -> name_ok n -> mkdir fs (child d n) = (Failed, fs).
Proof.
  intros Hd Hp He Hn. unfold resolve, Files.mkdir in *. destruct d as [|c d]; [done|]. change (String.eqb (child (String c d) n) "") with false. cbn [String.eqb] in Hd |- *.
  change (start cwd (child (String c d) n)) with (start cwd (String c d)). rewrite split_child, (proj1 Hn), strip_snoc, walk_app, Hd by apply Hn. cbn. unfold step. rewrite Hp. by destruct e.
Qed.

Lemma append_cons c (a b : string) : String c a +:+ b = String c (a +:+ b).
Proof. done. Qed.
Lemma append_nil (a : string) : a +:+ "" = a.
Proof. induction a as [|c a IH]; [done|]. by rewrite append_cons, IH. Qed.
Lemma append_assoc (a b c : string) : (a +:+ b) +:+ c = a +:+ b +:+ c.
Proof. induction a as [|x a IH]; [done|]. by rewrite !append_cons, IH. Qed.
Lemma prefixes_from_app before a s : prefixes_from before (a +:+ s) = prefixes_from before a ++ prefixes_from (before +:+ a) s.
Proof.
  revert before. induction a as [|c a IH]; intros before; [by rewrite append_nil|]. rewrite append_cons. cbn [prefixes_from]. by rewrite IH, append_assoc, <- app_assoc.
Qed.
Lemma prefixes_from_name before n : split n = [n] -> prefixes_from before n = [].
Proof.
  intros Hn. assert (Hno : forall x, length (split x) = 1%nat -> forall b, prefixes_from b x = []).
  { clear. induction x as [|c x IH]; intros Hx b; [done|]. cbn in Hx |- *. destruct (Ascii.eqb c "/"); [cbn in Hx; pose proof (split_nonempty x); by destruct (split x)|].
    cbn. apply IH. by destruct (split x). }
  apply Hno. by rewrite Hn.
Qed.
Lemma slash_prefixes_child d n : d <> ""%string -> split n = [n] -> slash_prefixes (child d n) = slash_prefixes d ++ [d].
Proof.
  intros Hd Hn. destruct d as [|c d]; [by destruct Hd|]. unfold child. rewrite append_cons. cbn [slash_prefixes]. rewrite prefixes_from_app. change ("/" +:+ n) with (String "/" n). cbn [prefixes_from].
  by rewrite (prefixes_from_name _ n Hn).
Qed.

Lemma slash_prefixes_elem d x : x ∈ slash_prefixes d -> x <> ""%string /\ exists y, d = child x y.
Proof.
  destruct d as [|c d]; cbn; [by intros ?%not_elem_of_nil|]. assert (Hg : forall s b, b <> ""%string -> x ∈ prefixes_from b s -> x <> ""%string /\ exists y, b +:+ s = child x y).
  { induction s as [|c' s IH]; intros b Hb; cbn; [by intros ?%not_elem_of_nil|]. intros [Hx|Hx]%elem_of_app.
    - destruct (Ascii.eqb_spec c' "/") as [->|]; [|by apply not_elem_of_nil in Hx]. apply list_elem_of_singleton in Hx as ->. split; [done|]. by exists s.
    - destruct (IH (b +:+ String c' "")) as (Hne & y & Hy); [by destruct b|done|]. split; [done|]. exists y. by rewrite <- Hy, append_assoc. }
  apply (Hg d (String c "")). done.
Qed.

Lemma make_all_app fs l l' : make_all fs (l ++ l') = let '(ok, fs) := make_all fs l in if ok then make_all fs l' else (false, fs).
Proof. revert fs. induction l as [|d l IH]; intros fs; [done|]. cbn. destruct (mkdir fs d) as [[] fs']; done. Qed.

Lemma make_all_exist fs l : (forall x, x ∈ l -> exists q, resolve cwd fs x = Some q /\ is_Some (fs !! q)) -> make_all fs l = (true, fs).
Proof. induction l as [|x l IH]; intros Hl; [done|]. cbn. destruct (Hl x) as (q & Hq & He); [by left|]. rewrite (mkdir_exists _ _ _ Hq He). apply IH. intros y Hy. apply Hl. by right. Qed.

Lemma EnsureDirectory_exists fs d p : resolve cwd fs d = Some p -> is_Some (fs !! p) -> EnsureDirectory fs d = (true, fs).
Proof.
  intros Hd He. unfold Files.EnsureDirectory. apply make_all_exist. intros x [Hx|Hx]%elem_of_app.
  - apply slash_prefixes_elem in Hx as (Hne & y & ->). destruct (resolve_prefix _ _ _ _ Hne Hd) as (q & ? & Hq). exists q. split; [done|]. by rewrite Hq.
  - apply list_elem_of_singleton in Hx as ->. by exists p.
Qed.

(** The path that leads on by the names [ns]. *)
Definition path d (ns : list string) : string := foldl child d ns.
Fixpoint tails d (ns : list string) : list string := match ns with [] => [] | n :: ns => child d n :: tails (child d n) ns end.

Lemma resolve_nonempty fs d p : resolve cwd fs d = Some p -> d <> ""%string.
Proof. by intros Hd ->. Qed.
Lemma EnsureDirectory_path fs d ns p : resolve cwd fs d = Some p -> is_Some (fs !! p) -> Forall name_ok ns -> EnsureDirectory fs (path d ns) = make_all fs (tails d ns).
Proof.
  intros Hd He Hns. assert (Hp : forall ns d, d <> ""%string -> Forall name_ok ns -> slash_prefixes (path d ns) ++ [path d ns] = (slash_prefixes d ++ [d]) ++ tails d ns).
  { clear. induction ns as [|n ns IH]; intros d Hd Hns; cbn; [by rewrite app_nil_r|]. apply Forall_cons in Hns as [Hn Hns]. rewrite IH by (done || by destruct d).
    rewrite slash_prefixes_child by (done || apply Hn). by rewrite <- !app_assoc. }
  unfold Files.EnsureDirectory. rewrite Hp by (done || by eapply resolve_nonempty). rewrite make_all_app. fold (EnsureDirectory fs d). by rewrite (EnsureDirectory_exists _ _ _ Hd He).
Qed.

(** What should happen: one directory after the other is made below [p]. *)
Fixpoint mkdir_p fs p (ns : list string) : bool * files :=
  match ns with
  | [] => (true, fs)
  | n :: ns =>
      match fs !! (p ++ [n]) with
      | Some Dir => mkdir_p fs (p ++ [n]) ns
      | Some _ => (bool_decide (ns = []), fs)
      | None => if permitted (p ++ [n]) then mkdir_p (<[p ++ [n] := Dir]> fs) (p ++ [n]) ns else (false, fs)
      end
  end.

Lemma make_tails ns : forall fs d p, resolve cwd fs d = Some p -> fs !! p = Some Dir -> Forall name_ok ns -> make_all fs (tails d ns) = mkdir_p fs p ns.
Proof.
  induction ns as [|n ns IH]; intros fs d p Hd Hp Hns; [done|]. apply Forall_cons in Hns as [Hn Hns]. cbn [Files.make_all tails mkdir_p]. rewrite (mkdir_child _ _ _ _ Hd Hp Hn).
  pose proof (resolve_child _ _ _ _ Hd Hp Hn) as Hc. destruct (fs !! (p ++ [n])) as [e|] eqn:E.
  - destruct (decide (e = Dir)) as [->|He]; [by apply IH|]. assert (Hf : make_all fs (tails (child d n) ns) = (bool_decide (ns = []), fs)); [|by rewrite Hf; destruct e].
    destruct ns as [|n' ns]; [done|]. apply Forall_cons in Hns as [Hn' _]. cbn [tails Files.make_all]. by rewrite (mkdir_below _ _ _ _ e Hc E He Hn').
  - destruct (permitted _); [|done]. apply IH; [|apply lookup_insert_eq|done]. eapply resolve_grows; [|exact Hc]. intros r Hr. rewrite lookup_insert_ne; [done|]. intros <-. congruence.
Qed.

End Paths.

(** ** Listing *)
Section Listing.
Context `{HashOrder} (cwd : place) (permitted readable : place -> bool).
Implicit Types (fs : files) (d n : string) (p q r : place).

Lemma children_elem fs p n : n ∈ children fs p <-> is_Some (fs !! (p ++ [n])).
Proof.
  unfold children. rewrite list_elem_of_omap. split.
  - intros (q & Hq & Hc). apply list_elem_of_fmap in Hq as ([q' e] & -> & Hin). apply elem_of_map_to_list in Hin. cbn in Hc. unfold child_of in Hc.
    destruct (last q') as [m|]; [|done]. case_decide as Hd; [|done]. injection Hc as ->. rewrite Hd in Hin. by rewrite Hin.
  - intros [e He]. exists (p ++ [n]). split; [|unfold child_of; rewrite last_snoc; by rewrite decide_True]. apply list_elem_of_fmap. exists (p ++ [n], e). split; [done|]. by apply elem_of_map_to_list.
Qed.

Lemma children_NoDup fs p : NoDup (children fs p).
Proof.
  unfold children. assert (Hnd : NoDup (map_to_list fs).*1) by apply NoDup_fst_map_to_list. induction ((map_to_list fs).*1) as [|q l IH]; [constructor|].
  apply NoDup_cons in Hnd as [Hq Hnd]. cbn. destruct (child_of p q) as [n|] eqn:E; [|by apply IH]. apply NoDup_cons. split; [|by apply IH].
  rewrite list_elem_of_omap. intros (q' & Hq' & E'). unfold child_of in E, E'. destruct (last q) as [m|]; [|done]. destruct (last q') as [m'|]; [|done]. repeat case_decide; try done. assert (q' = q) as -> by congruence. done.
Qed.

(** What is below [p] hangs together, is named and is made of files and directories. *)
Record tree fs p : Prop := {
  tr_root : fs !! p = Some Dir;
  tr_inner : forall s n, is_Some (fs !! (p ++ s ++ [n])) -> fs !! (p ++ s) = Some Dir /\ name_ok n;
  tr_plain : forall s, fs !! (p ++ s) <> Some Special
}.

Lemma tree_above fs p s t : tree fs p -> is_Some (fs !! (p ++ s ++ t)) -> t <> [] -> fs !! (p ++ s) = Some Dir.
Proof.
  intros Ht. induction t as [|n t IH] using rev_ind; intros He Hne; [done|]. rewrite (app_assoc s) in He. destruct (tr_inner _ _ Ht _ _ He) as [Hd _].
  destruct t as [|m t]; [by rewrite app_nil_r in Hd|]. apply IH; [by rewrite Hd|done].
Qed.

Lemma name_no_dot n : name_ok n -> is_dot n = false.
Proof. intros (_ & _ & H1 & H2). unfold is_dot. destruct (String.eqb_spec n "."); [done|]. by destruct (String.eqb_spec n ".."). Qed.

(** The entries of a listing, without the dots. *)
Record listing fs p (l : list (string * entry)) : Prop := {
  ls_entry : forall n e, (n, e) ∈ l -> is_dot n = false -> fs !! (p ++ [n]) = Some e /\ name_ok n;
  ls_nodup : NoDup l.*1
}.
Lemma readdir_listing fs p : tree fs p -> listing fs p (readdir fs p) /\ forall n, is_Some (fs !! (p ++ [n])) -> n ∈ (readdir fs p).*1.
Proof.
  intros Ht. assert (Hfst : (readdir fs p).*1 = rehash (["."; ".."]%string ++ children fs p)).
  { unfold readdir. rewrite <- list_fmap_compose. apply list_fmap_id. }
  assert (Hch : forall n, n ∈ children fs p -> name_ok n). { intros n Hn%children_elem. by apply (tr_inner _ _ Ht [] n). }
  split; [split|].
  - intros n e Hin Hdot. unfold readdir in Hin. apply list_elem_of_fmap in Hin as (n' & [= -> ->] & Hin). rewrite rehash_perm in Hin. apply elem_of_app in Hin as [Hin|Hin].
    + apply elem_of_cons in Hin as [->|Hin]; [done|]. by apply list_elem_of_singleton in Hin as ->.
    + split; [|by apply Hch]. apply children_elem in Hin as [e He]. by rewrite He.
  - rewrite Hfst, rehash_perm. apply NoDup_app. split; [apply (bool_decide_unpack _); by vm_compute|]. split; [|apply children_NoDup].
    intros n Hn Hin. apply Hch, name_no_dot in Hin. apply elem_of_cons in Hn as [->|Hn]; [done|]. by apply list_elem_of_singleton in Hn as ->.
  - intros n Hn. rewrite Hfst, rehash_perm. apply elem_of_app. right. by apply children_elem.
Qed.

Context (Hread : forall p, readable p = true).
Lemma opendir_tree fs d p : resolve cwd fs d = Some p -> tree fs p -> opendir cwd readable fs d = Some p.
Proof. intros Hd Ht. unfold opendir. rewrite Hd. cbn. by rewrite (tr_root _ _ Ht), Hread. Qed.

Lemma tree_child fs p n : tree fs p -> fs !! (p ++ [n]) = Some Dir -> tree fs (p ++ [n]).
Proof. intros Ht Hd. split; [done|intros s m; rewrite <- !(app_assoc p); apply (tr_inner _ _ Ht (n :: s))|intros s; rewrite <- app_assoc; apply (tr_plain _ _ Ht)]. Qed.

Lemma tree_same fs fs' p : tree fs p -> (forall s, fs' !! (p ++ s) = fs !! (p ++ s)) -> tree fs' p.
Proof.
  intros [Hr Hi Hp] Hs. split; [rewrite <- (app_nil_r p), Hs, app_nil_r; done| |].
  - intros s n. rewrite !Hs. apply Hi.
  - intros s. rewrite Hs. apply Hp.
Qed.
End Listing.

(** ** Copying *)
Section Copying.
Context `{HashOrder} (cwd : place) (permitted readable : place -> bool) (cp : files -> string -> string -> bool * files).
Context (Hread : forall p, readable p = true) (Hperm : forall p, permitted p = true).
Implicit Types (fs : files) (d n from to : string) (p q r s : place).
Abbreviation CopyDir := (CopyDir cwd permitted readable cp).

Definition apart p q : Prop := ~ p `prefix_of` q /\ ~ q `prefix_of` p.
Lemma apart_below p q s t : apart p q -> p ++ s <> q ++ t.
Proof. intros [H1 H2] He. assert (Hp : p `prefix_of` q ++ t) by (exists s; done). destruct (prefix_weak_total p q (q ++ t) Hp) as [|]; [by exists t|done|done]. Qed.
Lemma apart_child p q n : apart p q -> apart (p ++ [n]) (q ++ [n]).
Proof.
  intros Ha. split; intros [t Ht]; rewrite <- app_assoc in Ht; [by apply (apart_below p q ([n] ++ t) [n] Ha)|by apply (apart_below p q [n] ([n] ++ t) Ha)].
Qed.

(** [fs'] is [fs] with what is below [p] put over what is below [q]. *)
Definition over fs p q r : option entry := match fs !! (p ++ r) with Some e => Some e | None => fs !! (q ++ r) end.
Definition merged fs p q fs' : Prop := (forall r, fs' !! (q ++ r) = over fs p q r) /\ (forall r, ~ q `prefix_of` r -> fs' !! r = fs !! r).

Record copy_ok fs from to p q (fuel : nat) : Prop := {
  co_from : resolve cwd fs from = Some p;
  co_to : resolve cwd fs to = Some q;
  co_target : fs !! q = Some Dir;
  co_apart : apart p q;
  co_tree : tree fs p;
  co_depth : forall s, is_Some (fs !! (p ++ s)) -> (length s < fuel)%nat;
  co_compat : forall s e e', fs !! (p ++ s) = Some e -> fs !! (q ++ s) = Some e' -> (e = Dir <-> e' = Dir) /\ e' <> Special
}.

(** In the middle: the children [D] are done. *)
Definition partly fs p q (D : list string) fs' : Prop :=
  (forall n r, n ∈ D -> fs' !! (q ++ n :: r) = over fs p q (n :: r)) /\ (forall r, (forall n s, n ∈ D -> r <> q ++ n :: s) -> fs' !! r = fs !! r).

Section Middle.
Context fs from to p q (fuel : nat) (Hok : copy_ok fs from to p q fuel).

Lemma partly_source D fs' s : partly fs p q D fs' -> fs' !! (p ++ s) = fs !! (p ++ s).
Proof. intros [_ Hout]. apply Hout. intros n t _. apply apart_below, Hok. Qed.
Lemma partly_new D fs' n s : partly fs p q D fs' -> n ∉ D -> fs' !! (q ++ n :: s) = fs !! (q ++ n :: s).
Proof. intros [_ Hout] Hn. apply Hout. intros m t Hm He. apply app_inv_head in He. injection He as -> _. done. Qed.
Lemma partly_cases (D : list string) r : (exists n s, n ∈ D /\ r = q ++ n :: s) \/ (forall n s, n ∈ D -> r <> q ++ n :: s).
Proof.
  destruct (decide (q `prefix_of` r)) as [[[|n t] ->]|Hno].
  - right. intros n s _ He. rewrite app_nil_r in He. apply (f_equal length) in He. rewrite length_app in He. cbn in He. lia.
  - destruct (decide (n ∈ D)); [left; eauto|]. right. intros m s Hm He. apply app_inv_head in He. by injection He as -> _.
  - right. intros n s _ ->. apply Hno. by exists (n :: s).
Qed.
Lemma partly_grows D fs' : partly fs p q D fs' -> grows fs fs'.
Proof.
  intros [Hin Hout] r Hr. destruct (partly_cases D r) as [(n & s & Hn & ->)|Hno].
  - rewrite Hin by done. unfold over. destruct (fs !! (p ++ n :: s)) as [e|] eqn:E; [|done]. destruct (co_compat _ _ _ _ _ _ Hok _ _ _ E Hr) as [[_ Hd] _]. by rewrite Hd.
  - by rewrite Hout.
Qed.

(** A file is copied. *)
Lemma copy_file_child D fs' n x : partly fs p q D fs' -> n ∉ D -> fs !! (p ++ [n]) = Some (File x) -> name_ok n ->
  exists fs'', CopyFile cwd permitted readable cp fs' (child from n) (child to n) = (true, fs'') /\ partly fs p q (n :: D) fs''.
Proof.
  intros Hpart Hn Hx Hname. pose proof (partly_grows D fs' Hpart) as Hg.
  assert (Hs : fs' !! (p ++ [n]) = Some (File x)) by (by rewrite (partly_source D)).
  assert (Hfrom : resolve cwd fs' (child from n) = Some (p ++ [n])).
  { apply resolve_child; [eapply resolve_grows; [exact Hg|apply Hok]|apply Hg, (tr_root _ _ (co_tree _ _ _ _ _ _ Hok))|done]. }
  assert (Hto : resolve cwd fs' (child to n) = Some (q ++ [n])).
  { apply resolve_child; [eapply resolve_grows; [exact Hg|apply Hok]|apply Hg, Hok|done]. }
  assert (Hold : fs' !! (q ++ [n]) = fs !! (q ++ [n])) by (by apply (partly_new D)).
  assert (Hw : open_write cwd permitted fs' (child to n) = Some (q ++ [n], <[q ++ [n] := File ""]> fs')).
  { unfold open_write. rewrite Hto. cbn. rewrite Hold. destruct (fs !! (q ++ [n])) as [e|] eqn:E; [|by rewrite Hperm].
    destruct (co_compat _ _ _ _ _ _ Hok [n] _ _ Hx E) as [[_ Hd] Hsp]. destruct e; [by discriminate Hd|by rewrite Hperm|done]. }
  unfold CopyFile, open_read. rewrite Hfrom. cbn. rewrite Hs, Hread, Hw. eexists. split; [done|].
  assert (Hne : p ++ [n] <> q ++ [n]) by (apply apart_below, Hok). unfold content. rewrite lookup_insert_ne by done. rewrite Hs, insert_insert_eq.
  assert (Hbelow : forall s, s <> [] -> fs !! (p ++ n :: s) = None).
  { intros s Hne'. destruct (fs !! (p ++ n :: s)) eqn:E; [|done]. exfalso. assert (Hd : fs !! (p ++ [n]) = Some Dir); [|congruence].
    apply (tree_above fs p [n] s); [apply Hok|cbn; rewrite E; by eexists|done]. }
  destruct Hpart as [Hin Hout]. split.
  - intros m r Hm. destruct (decide (m = n)) as [->|Hmn].
    + destruct r as [|m r]; [rewrite lookup_insert_eq; unfold over; by rewrite Hx|]. rewrite lookup_insert_ne by (intros He; apply app_inv_head in He; done).
      rewrite (partly_new D) by done. unfold over. by rewrite Hbelow.
    + apply elem_of_cons in Hm as [->|Hm]; [done|]. rewrite lookup_insert_ne; [by apply Hin|]. intros He. apply app_inv_head in He. by injection He.
  - intros r Hr. rewrite lookup_insert_ne by (intros <-; apply (Hr n []); [by left|done]). apply Hout. intros m s Hm. apply Hr. by right.
Qed.

(** What a call of [CopyDir] does, once the target is made. *)
Definition copies (f : nat) : Prop := forall fs0 fs from to p q, opendir cwd readable fs0 from = Some p -> EnsureDirectory cwd permitted fs0 to = (true, fs) -> copy_ok fs from to p q f ->
  exists fs', CopyDir f fs0 from to = Some (true, fs') /\ merged fs p q fs'.

Lemma copy_ok_child f D fs' fs'' n : fuel = S f -> partly fs p q D fs' -> n ∉ D -> fs !! (p ++ [n]) = Some Dir -> name_ok n ->
  fs'' = (if fs !! (q ++ [n]) then fs' else <[q ++ [n] := Dir]> fs') -> copy_ok fs'' (child from n) (child to n) (p ++ [n]) (q ++ [n]) f.
Proof.
  intros Hf Hpart Hn Hd Hname Hfs. pose proof (partly_grows D fs' Hpart) as Hg.
  assert (Hq : fs'' !! (q ++ [n]) = Some Dir).
  { rewrite Hfs. destruct (fs !! (q ++ [n])) as [e|] eqn:E; [|apply lookup_insert_eq]. rewrite (partly_new D) by done. rewrite E. destruct (co_compat _ _ _ _ _ _ Hok [n] _ _ Hd E) as [[He _] _]. by rewrite He. }
  assert (Hs : forall s, fs'' !! (p ++ s) = fs !! (p ++ s)).
  { intros s. rewrite <- (partly_source D fs' s Hpart), Hfs. destruct (fs !! (q ++ [n])); [done|]. apply lookup_insert_ne. intros He. by apply (apart_below p q s [n] (co_apart _ _ _ _ _ _ Hok)). }
  assert (Ht : forall s, s <> [] -> fs'' !! ((q ++ [n]) ++ s) = fs !! (q ++ n :: s)).
  { intros s Hne. rewrite <- app_assoc. cbn. rewrite <- (partly_new D fs' n s Hpart Hn), Hfs. destruct (fs !! (q ++ [n])); [done|]. apply lookup_insert_ne. intros He. apply app_inv_head in He. congruence. }
  assert (Hg' : grows fs fs''). { intros r Hr. pose proof (Hg r Hr) as Hr'. rewrite Hfs. destruct (fs !! (q ++ [n])); [done|]. destruct (decide (r = q ++ [n])) as [->|]; [apply lookup_insert_eq|by rewrite lookup_insert_ne]. }
  assert (Hsrc : tree fs'' p) by (eapply tree_same; [apply Hok|done]).
  split; [| |done|apply apart_child, Hok| | |].
  - apply resolve_child; [eapply resolve_grows; [exact Hg'|apply Hok]|apply Hsrc|done].
  - apply resolve_child; [eapply resolve_grows; [exact Hg'|apply Hok]|apply Hg', Hok|done].
  - apply tree_child; [done|by rewrite Hs].
  - intros s He. rewrite <- app_assoc, Hs in He. pose proof (co_depth _ _ _ _ _ _ Hok _ He) as Hl. cbn in Hl. lia.
  - intros s e e' He He'. rewrite <- app_assoc, Hs in He. destruct s as [|m s].
    + rewrite app_nil_r, Hq in He'. cbn in He. rewrite Hd in He. by simplify_eq.
    + rewrite Ht in He' by done. by apply (co_compat _ _ _ _ _ _ Hok (n :: m :: s)).
Qed.

(** A directory is copied. *)
Lemma copy_dir_child f D fs' n : copies f -> fuel = S f -> partly fs p q D fs' -> n ∉ D -> fs !! (p ++ [n]) = Some Dir -> name_ok n ->
  exists fs'', CopyDir f fs' (child from n) (child to n) = Some (true, fs'') /\ partly fs p q (n :: D) fs''.
Proof.
  intros IH Hf Hpart Hn Hd Hname. pose proof (partly_grows D fs' Hpart) as Hg. set (fs2 := if fs !! (q ++ [n]) then fs' else <[q ++ [n] := Dir]> fs').
  pose proof (copy_ok_child f D fs' fs2 n Hf Hpart Hn Hd Hname eq_refl) as Hok2.
  assert (Ht' : tree fs' p) by (eapply tree_same; [apply Hok|intros s; by apply (partly_source D)]).
  assert (Hd' : fs' !! (p ++ [n]) = Some Dir) by (by rewrite (partly_source D)).
  assert (Hopen : opendir cwd readable fs' (child from n) = Some (p ++ [n])).
  { apply opendir_tree; [done| |by apply tree_child]. apply resolve_child; [eapply resolve_grows; [exact Hg|apply Hok]|apply Ht'|done]. }
  assert (Hto : resolve cwd fs' to = Some q) by (eapply resolve_grows; [exact Hg|apply Hok]). assert (Hqd : fs' !! q = Some Dir) by (apply Hg, Hok).
  assert (Hens : EnsureDirectory cwd permitted fs' (child to n) = (true, fs2)).
  { pose proof (EnsureDirectory_path cwd permitted fs' to [n] q Hto) as Hp. cbn [path foldl tails] in Hp. rewrite Hp by (by rewrite ?Hqd || by constructor).
    cbn [make_all]. rewrite (mkdir_child _ _ _ _ _ _ Hto Hqd Hname), (partly_new D) by done. unfold fs2. destruct (fs !! (q ++ [n])); [done|]. by rewrite Hperm. }
  destruct (IH _ _ _ _ _ _ Hopen Hens Hok2) as (fs'' & Hrun & Hin2 & Hout2). exists fs''. split; [done|].
  assert (Hs2 : forall r, r <> q ++ [n] -> fs2 !! r = fs' !! r) by (intros r Hr; unfold fs2; destruct (fs !! (q ++ [n])); [done|by apply lookup_insert_ne]).
  assert (Hfar : forall m r, m <> n -> ~ (q ++ [n]) `prefix_of` (q ++ m :: r)) by (intros m r Hm [t He]; rewrite <- app_assoc in He; apply app_inv_head in He; by injection He).
  pose proof Hpart as [Hin Hout]. split.
  - intros m r Hm. destruct (decide (m = n)) as [->|Hmn].
    + specialize (Hin2 r). rewrite <- app_assoc in Hin2. cbn in Hin2. rewrite Hin2. unfold over. rewrite <- !app_assoc. cbn.
      assert (Hp2 : fs2 !! (p ++ n :: r) = fs !! (p ++ n :: r)) by (rewrite Hs2 by (apply apart_below, Hok); by apply (partly_source D)). rewrite Hp2.
      destruct (fs !! (p ++ n :: r)) eqn:E; [done|]. destruct r as [|x r]; [congruence|]. rewrite Hs2 by (intros He; apply app_inv_head in He; done). by apply (partly_new D).
    + apply elem_of_cons in Hm as [->|Hm]; [done|]. rewrite Hout2 by (by apply Hfar). rewrite Hs2 by (intros He; apply app_inv_head in He; by injection He). by apply Hin.
  - intros r Hr. assert (Hnp : ~ (q ++ [n]) `prefix_of` r) by (intros [t ->]; apply (Hr n t); [by left|by rewrite <- app_assoc]).
    rewrite Hout2 by done. rewrite Hs2 by (intros ->; by apply Hnp). apply Hout. intros m s Hm. apply Hr. by right.
Qed.

Lemma copy_entries_ok f l : copies f -> fuel = S f -> forall D fs', listing fs p l -> (forall n, n ∈ D -> n ∉ l.*1) -> partly fs p q D fs' ->
  exists fs'', copy_entries cwd permitted readable cp (CopyDir f) from to l true fs' = Some (true, fs'') /\ exists D', partly fs p q D' fs'' /\ forall n, n ∈ D' <-> n ∈ D \/ (n ∈ l.*1 /\ is_dot n = false).
Proof.
  intros IH Hf. induction l as [|[n e] l IHl]; intros D fs' [He Hnd] HD Hpart; cbn [copy_entries].
  - exists fs'. split; [done|]. exists D. split; [done|]. intros n. rewrite elem_of_nil. tauto.
  - cbn in Hnd. apply NoDup_cons in Hnd as [Hn Hnd]. assert (Hl : listing fs p l) by (split; [intros m e' Hm; apply He; by right|done]).
    destruct (is_dot n) eqn:Hdot.
    { destruct (IHl D fs' Hl) as (fs'' & Hrun & D' & Hp' & HD'); [intros m Hm Hin; apply (HD m Hm); by right|done|]. exists fs''. split; [done|]. exists D'. split; [done|].
      intros m. rewrite HD'. cbn. rewrite elem_of_cons. split; [tauto|]. intros [?|[[->|?] ?]]; [by left|congruence|by right]. }
    destruct (He n e) as [Hentry Hname]; [by left|done|]. assert (HnD : n ∉ D) by (intros Hin; apply (HD n Hin); by left).
    assert (Hstep : exists fs'', match e with Dir => CopyDir f fs' (child from n) (child to n) | _ => Some (CopyFile cwd permitted readable cp fs' (child from n) (child to n)) end = Some (true, fs'') /\ partly fs p q (n :: D) fs'').
    { destruct e as [|x|]; [by apply (copy_dir_child f D)| |].
      - destruct (copy_file_child D fs' n x Hpart HnD Hentry Hname) as (fs'' & -> & ?). by exists fs''.
      - exfalso. by apply (tr_plain _ _ (co_tree _ _ _ _ _ _ Hok) [n]). }
    destruct Hstep as (fs2 & -> & Hp2). cbn [mbind option_bind andb].
    destruct (IHl (n :: D) fs2 Hl) as (fs'' & Hrun & D' & Hp' & HD').
    { intros m [->|Hm]%elem_of_cons; [done|]. intros Hin. apply (HD m Hm). by right. }
    { done. }
    exists fs''. split; [done|]. exists D'. split; [done|]. intros m. rewrite HD'. cbn. rewrite !elem_of_cons. split; [intros [[->|?]|[? ?]]; auto|]. intros [?|[[->|?] ?]]; auto.
Qed.
End Middle.

Lemma CopyDir_copies f : copies f.
Proof.
  induction f as [|f IH]; intros fs0 fs from to p q Hopen Hens Hok; pose proof (co_tree _ _ _ _ _ _ Hok) as Ht.
  - exfalso. pose proof (co_depth _ _ _ _ _ _ Hok []) as Hd. rewrite app_nil_r, (tr_root _ _ Ht) in Hd. cbn in Hd. pose proof (Hd ltac:(by eexists)). lia.
  - cbn [Files.CopyDir]. rewrite Hopen, Hens. destruct (readdir_listing fs p Ht) as [Hl Hall].
    destruct (copy_entries_ok fs from to p q (S f) Hok f (readdir fs p) IH eq_refl [] fs Hl) as (fs' & Hrun & D & [Hin Hout] & HD).
    { intros n Hn. by apply not_elem_of_nil in Hn. }
    { split; [intros n r Hn; by apply not_elem_of_nil in Hn|done]. }
    exists fs'. split; [exact Hrun|]. split.
    + intros [|n r].
      * rewrite !app_nil_r. unfold over. rewrite app_nil_r, (tr_root _ _ Ht). rewrite Hout; [apply Hok|]. intros n s _ He. rewrite <- (app_nil_r q) in He at 1. by apply app_inv_head in He.
      * destruct (decide (n ∈ D)) as [Hn|Hn]; [by apply Hin|]. rewrite Hout by (intros m s Hm He; apply app_inv_head in He; by injection He as -> _).
        unfold over. destruct (fs !! (p ++ n :: r)) as [e|] eqn:E; [|done]. exfalso. apply Hn, HD. right.
        assert (Hc : is_Some (fs !! (p ++ [n]))).
        { destruct r as [|m r]; [by rewrite E|]. rewrite (tree_above fs p [n] (m :: r) Ht); [by eexists|cbn; rewrite E; by eexists|done]. }
        split; [by apply Hall|]. apply name_no_dot. by apply (tr_inner _ _ Ht [] n).
    + intros r Hr. apply Hout. intros n s _ ->. apply Hr. by eexists.
Qed.

(** *** From one place to another *)
Lemma mkdir_p_makes ns : forall fs p, (forall k, default Dir (fs !! (p ++ take k ns)) = Dir) ->
  exists fs', mkdir_p permitted fs p ns = (true, fs') /\ (forall r, r <> p -> (exists k, r = p ++ take k ns) -> fs' !! r = Some Dir) /\ (forall r, (r = p \/ forall k, r <> p ++ take k ns) -> fs' !! r = fs !! r).
Proof.
  induction ns as [|n ns IH]; intros fs p Hd; cbn [mkdir_p].
  - exists fs. split; [done|]. split; [intros r Hr [k ->]; by rewrite take_nil, app_nil_r in Hr|done].
  - assert (Hn : default Dir (fs !! (p ++ [n])) = Dir) by apply (Hd 1%nat).
    set (fs1 := if fs !! (p ++ [n]) then fs else <[p ++ [n] := Dir]> fs).
    assert (H1 : fs1 !! (p ++ [n]) = Some Dir) by (unfold fs1; destruct (fs !! (p ++ [n])) as [e|] eqn:E; [cbn in Hn; by rewrite E, Hn|apply lookup_insert_eq]).
    assert (Ho : forall r, r <> p ++ [n] -> fs1 !! r = fs !! r) by (intros r Hr; unfold fs1; destruct (fs !! (p ++ [n])); [done|by apply lookup_insert_ne]).
    assert (Hrun : mkdir_p permitted fs p (n :: ns) = mkdir_p permitted fs1 (p ++ [n]) ns) by (unfold fs1; cbn; destruct (fs !! (p ++ [n])) as [e|]; [cbn in Hn; by rewrite Hn|by rewrite Hperm]).
    cbn [mkdir_p] in Hrun. rewrite Hrun. destruct (IH fs1 (p ++ [n])) as (fs' & Hm & Hin & Hout).
    { intros k. destruct (decide ((p ++ [n]) ++ take k ns = p ++ [n])) as [->|Hne]; [by rewrite H1|]. rewrite Ho by done. rewrite <- app_assoc. apply (Hd (S k)). }
    exists fs'. split; [done|]. split.
    + intros r Hr [k ->]. destruct k as [|k]; [by rewrite app_nil_r in Hr|]. cbn [take] in *. destruct (decide (take k ns = [])) as [E|E]; [rewrite E, Hout by (left; done); done|].
      apply Hin; [intros He; apply E; apply app_inv_head in He; by injection He|]. exists k. by rewrite <- app_assoc.
    + intros r Hr. assert (Hrn : r <> p ++ [n]).
      { destruct Hr as [->|Hr]; [|by apply (Hr 1%nat)]. intros He. rewrite <- (app_nil_r p) in He at 1. by apply app_inv_head in He. }
      rewrite Hout, Ho; [done|done|]. right. intros k Hk. rewrite <- app_assoc in Hk. destruct Hr as [->|Hr]; [|by apply (Hr (S k))].
      rewrite <- (app_nil_r p) in Hk at 1. by apply app_inv_head in Hk.
Qed.

(** C31: [CopyDir] copies a directory where everything is readable and permitted: a tree of directories and
    regular files, of any depth, given by any path, is copied to a place below an existing directory, of
    proper names (not empty, [.] or [..], no slash) and where no file is in the way, that is not inside it
    and does not contain it; the target has no file where the source has a directory, no directory
    where it has a file, and nothing that is neither.  It then reports success,
    every directory and file of the source is in the target with its content, missing directories on
    the way are made, what the target held besides is still there, and nothing else changes. *)
Theorem CopyDir_merges fs from p d b ns fuel :
  resolve cwd fs from = Some p -> tree fs p -> (forall s, is_Some (fs !! (p ++ s)) -> (length s < fuel)%nat) ->
  resolve cwd fs d = Some b -> fs !! b = Some Dir -> Forall name_ok ns -> (forall k, default Dir (fs !! (b ++ take k ns)) = Dir) ->
  let q := b ++ ns in
  apart p q -> (forall s e e', fs !! (p ++ s) = Some e -> fs !! (q ++ s) = Some e' -> (e = Dir <-> e' = Dir) /\ e' <> Special) ->
  exists fs', CopyDir fuel fs from (path d ns) = Some (true, fs') /\
    (forall s, fs' !! (q ++ s) = match fs !! (p ++ s) with Some e => Some e | None => fs !! (q ++ s) end) /\
    (forall r, ~ q `prefix_of` r -> fs' !! r = if decide (b `prefix_of` r /\ r `prefix_of` q) then Some Dir else fs !! r).
Proof.
  intros Hfrom Ht Hdepth Hd Hb Hns Hfree q Ha Hcompat. destruct (mkdir_p_makes ns fs b Hfree) as (fs1 & Hm & Hin & Hout).
  assert (Hens : EnsureDirectory cwd permitted fs (path d ns) = (true, fs1)) by (rewrite (EnsureDirectory_path cwd permitted fs d ns b) by (done || by rewrite Hb); rewrite <- Hm; by apply make_tails).
  assert (Hdirs : forall r, b `prefix_of` r -> r `prefix_of` q -> fs1 !! r = Some Dir).
  { intros r [t ->] Hr. unfold q in Hr. apply prefix_app_inv in Hr. destruct (decide (t = [])) as [->|Hne]; [rewrite app_nil_r, Hout by (by left); done|].
    apply Hin; [intros He; apply Hne; rewrite <- (app_nil_r b) in He at 2; by apply app_inv_head in He|]. exists (length t). destruct Hr as [u ->]. by rewrite take_app_length. }
  assert (Hsame : forall r, ~ (b `prefix_of` r /\ r `prefix_of` q) -> fs1 !! r = fs !! r).
  { intros r Hr. apply Hout. right. intros k ->. apply Hr. split; [by eexists|]. unfold q. apply prefix_app. exists (drop k ns). by rewrite take_drop. }
  assert (Hg : grows fs fs1). { intros r Hr. destruct (decide (b `prefix_of` r /\ r `prefix_of` q)) as [[]|]; [by apply Hdirs|by rewrite Hsame]. }
  assert (Hp1 : forall s, fs1 !! (p ++ s) = fs !! (p ++ s)) by (intros s; apply Hsame; intros [_ [t He]]; apply (apart_below p q (s ++ t) []); [done|rewrite app_nil_r, He; by rewrite app_assoc]).
  assert (Hq1 : forall s, s <> [] -> fs1 !! (q ++ s) = fs !! (q ++ s)).
  { intros s Hs. apply Hsame. intros [_ [t He]]. rewrite <- app_assoc in He. rewrite <- (app_nil_r q) in He at 1. apply app_inv_head in He. by destruct s. }
  assert (Hto : resolve cwd fs1 (path d ns) = Some q).
  { assert (Hr : forall ns d b, resolve cwd fs1 d = Some b -> Forall name_ok ns -> (forall r, b `prefix_of` r -> r `prefix_of` b ++ ns -> fs1 !! r = Some Dir) -> resolve cwd fs1 (path d ns) = Some (b ++ ns)).
    { clear. induction ns as [|n ns IH]; intros d b Hd Hns Hall; [by rewrite app_nil_r|]. apply Forall_cons in Hns as [Hn Hns]. cbn [path foldl]. replace (b ++ n :: ns) with ((b ++ [n]) ++ ns) in * by (by rewrite <- app_assoc).
      apply IH; [|done|]. { apply resolve_child; [done| |done]. apply Hall; [done|]. rewrite <- app_assoc. by eexists. } intros r [t ->] Hr. apply Hall; [|done]. rewrite <- app_assoc. by eexists. }
    apply Hr; [by eapply resolve_grows|done|exact Hdirs]. }
  assert (Ht1 : tree fs1 p) by (by eapply tree_same).
  destruct (CopyDir_copies fuel fs fs1 from (path d ns) p q) as (fs' & Hrun & Hin' & Hout'); [by apply opendir_tree|done| |].
  { split; [by eapply resolve_grows|done|apply Hdirs; [by eexists|done]|done|done|intros s; rewrite Hp1; apply Hdepth|].
    intros s e e' He He'. rewrite Hp1 in He. destruct (decide (s = [])) as [->|Hs]; [|rewrite Hq1 in He' by done; by eapply Hcompat].
    rewrite app_nil_r in *. rewrite (tr_root _ _ Ht) in He. rewrite Hdirs in He' by (done || by eexists). by simplify_eq. }
  exists fs'. split; [done|]. split.
  - intros s. rewrite Hin'. unfold over. rewrite Hp1. destruct (fs !! (p ++ s)) eqn:E; [done|]. apply Hq1. intros ->. rewrite app_nil_r, (tr_root _ _ Ht) in E. done.
  - intros r Hr. rewrite Hout' by done. case_decide as Hc; [destruct Hc; by apply Hdirs|by apply Hsame].
Qed.
End Copying.

(** ** Deleting *)
Section Deleting.
Context `{HashOrder} (cwd : place) (permitted readable : place -> bool).
Context (Hread : forall p, readable p = true) (Hperm : forall p, permitted p = true).
Implicit Types (fs : files) (d n : string) (p q r s : place).
Abbreviation DeleteFile := (DeleteFile cwd permitted readable).
Abbreviation remove := (remove cwd permitted).

(** What is at [p] and below is gone, and nothing else. *)
Definition gone fs p fs' : Prop := (forall s, fs' !! (p ++ s) = None) /\ (forall r, ~ p `prefix_of` r -> fs' !! r = fs !! r).
(** In the middle: the children [D] are gone. *)
Definition partly_gone fs p (D : list string) fs' : Prop :=
  (forall n s, n ∈ D -> fs' !! (p ++ n :: s) = None) /\ (forall r, (forall n s, n ∈ D -> r <> p ++ n :: s) -> fs' !! r = fs !! r).

Record delete_ok fs d p (fuel : nat) : Prop := {
  do_path : resolve cwd fs d = Some p;
  do_plain : ".."%string ∉ split d;
  do_not_root : p <> [];
  do_there : (exists x, fs !! p = Some (File x)) /\ (forall s, s <> [] -> fs !! (p ++ s) = None) \/ tree fs p;
  do_depth : forall s, is_Some (fs !! (p ++ s)) -> (length s < fuel)%nat
}.

Lemma partly_gone_path fs d p fuel D fs' : delete_ok fs d p fuel -> partly_gone fs p D fs' -> resolve cwd fs' d = Some p /\ fs' !! p = fs !! p.
Proof.
  intros Hok [_ Hout]. assert (Hup : forall r, r `prefix_of` p -> fs' !! r = fs !! r).
  { intros r [t Ht]. apply Hout. intros n s _ ->. apply (f_equal length) in Ht. rewrite !length_app in Ht. cbn in Ht. lia. }
  split; [|by apply Hup]. eapply resolve_plain; [apply Hok|apply Hok|exact Hup].
Qed.

Lemma remove_missing fs d p : resolve cwd fs d = Some p -> fs !! p = None -> remove fs d = (false, fs).
Proof. intros Hd Hp. unfold Files.remove, unlink. by rewrite Hd, Hp. Qed.
Lemma remove_file fs d p x : resolve cwd fs d = Some p -> fs !! p = Some (File x) -> remove fs d = (true, delete p fs).
Proof. intros Hd Hp. unfold Files.remove, unlink. by rewrite Hd, Hp, Hperm. Qed.
Lemma remove_dir fs d p : resolve cwd fs d = Some p -> fs !! p = Some Dir -> p <> [] -> (forall n, fs !! (p ++ [n]) = None) -> remove fs d = (true, delete p fs).
Proof.
  intros Hd Hp Hne Hno. unfold Files.remove. rewrite Hd, Hp, Hperm, andb_true_r, bool_decide_true; [done|]. split; [done|].
  destruct (children fs p) as [|n l] eqn:E; [done|]. assert (Hn : n ∈ children fs p) by (rewrite E; by left). apply children_elem in Hn as [e He]. by rewrite Hno in He.
Qed.

Definition deletes (f : nat) : Prop := forall fs d p, delete_ok fs d p f -> exists fs', DeleteFile f fs d = Some (true, fs') /\ gone fs p fs'.

Lemma delete_ok_child fs d p f D fs' n e : delete_ok fs d p (S f) -> tree fs p -> partly_gone fs p D fs' -> n ∉ D -> fs !! (p ++ [n]) = Some e -> name_ok n ->
  delete_ok fs' (child d n) (p ++ [n]) f.
Proof.
  intros Hok Ht Hpart Hn He Hname. destruct (partly_gone_path _ _ _ _ _ _ Hok Hpart) as [Hd Hp].
  assert (Hs : forall s, fs' !! (p ++ n :: s) = fs !! (p ++ n :: s)) by (intros s; apply Hpart; intros m t Hm Heq; apply app_inv_head in Heq; by injection Heq as -> _).
  assert (Hd' : fs' !! p = Some Dir) by (by rewrite Hp, (tr_root _ _ Ht)).
  split; [by apply resolve_child| |by destruct p| |].
  - rewrite split_child, (proj1 Hname). intros [Hin|Hin]%elem_of_app; [by apply (do_plain _ _ _ _ Hok)|]. apply list_elem_of_singleton in Hin. by apply Hname.
  - destruct e as [|x|]; [right| |exfalso; by apply (tr_plain _ _ Ht [n])].
    + apply (tree_same fs); [by apply tree_child|]. intros s. rewrite <- !app_assoc. apply Hs.
    + left. split; [exists x; by rewrite Hs|]. intros s Hne. rewrite <- app_assoc. cbn. rewrite Hs. destruct (fs !! (p ++ n :: s)) eqn:E; [|done]. exfalso.
      assert (Hdir : fs !! (p ++ [n]) = Some Dir); [|congruence]. apply (tree_above fs p [n] s Ht); [cbn; rewrite E; by eexists|done].
  - intros s Hin. rewrite <- app_assoc in Hin. cbn in Hin. rewrite Hs in Hin. pose proof (do_depth _ _ _ _ Hok _ Hin) as Hl. cbn in Hl. lia.
Qed.

Lemma delete_entries_ok fs d p f l : deletes f -> delete_ok fs d p (S f) -> tree fs p -> forall D fs', listing fs p l -> (forall n, n ∈ D -> n ∉ l.*1) -> partly_gone fs p D fs' ->
  exists fs'', delete_entries cwd permitted (DeleteFile f) d l fs' = Some (true, fs'') /\ exists D', partly_gone fs p D' fs'' /\ forall n, n ∈ D' <-> n ∈ D \/ (n ∈ l.*1 /\ is_dot n = false).
Proof.
  intros IH Hok Ht. induction l as [|[n e] l IHl]; intros D fs' [He Hnd] HD Hpart; cbn [delete_entries].
  - exists fs'. split; [done|]. exists D. split; [done|]. intros n. rewrite elem_of_nil. tauto.
  - cbn in Hnd. apply NoDup_cons in Hnd as [Hn Hnd]. assert (Hl : listing fs p l) by (split; [intros m e' Hm; apply He; by right|done]).
    destruct (is_dot n) eqn:Hdot.
    { destruct (IHl D fs' Hl) as (fs'' & Hrun & D' & Hp' & HD'); [intros m Hm Hin; apply (HD m Hm); by right|done|]. exists fs''. split; [done|]. exists D'. split; [done|].
      intros m. rewrite HD'. cbn. rewrite elem_of_cons. split; [tauto|]. intros [?|[[->|?] ?]]; [by left|congruence|by right]. }
    destruct (He n e) as [Hentry Hname]; [by left|done|]. assert (HnD : n ∉ D) by (intros Hin; apply (HD n Hin); by left).
    pose proof (delete_ok_child _ _ _ _ _ _ _ _ Hok Ht Hpart HnD Hentry Hname) as Hokc. destruct (IH _ _ _ Hokc) as (fs2 & Hrun2 & Hgone & Hkeep).
    assert (Htype : is_Some (GetType cwd fs' (child d n))).
    { unfold GetType, stat. rewrite (do_path _ _ _ _ Hokc). cbn. destruct (do_there _ _ _ _ Hokc) as [[[x Hx] _]|Hx]; [by rewrite Hx|by rewrite (tr_root _ _ Hx)]. }
    destruct (GetType cwd fs' (child d n)) as [ty|]; [|by destruct Htype]. rewrite Hrun2. cbn [mbind option_bind].
    assert (Hpart2 : partly_gone fs p (n :: D) fs2).
    { split.
      - intros m s Hm. destruct (decide (m = n)) as [->|Hmn]; [specialize (Hgone s); by rewrite <- app_assoc in Hgone|]. apply elem_of_cons in Hm as [->|Hm]; [done|].
        rewrite Hkeep; [by apply Hpart|]. intros [t Heq]. rewrite <- app_assoc in Heq. apply app_inv_head in Heq. by injection Heq.
      - intros r Hr. rewrite Hkeep; [apply Hpart; intros m s Hm; apply Hr; by right|]. intros [t ->]. apply (Hr n t); [by left|by rewrite <- app_assoc]. }
    destruct (partly_gone_path _ _ _ _ _ _ Hok Hpart2) as [Hd2 Hp2].
    assert (Hrm : remove fs2 (child d n) = (false, fs2)).
    { apply (remove_missing fs2 _ (p ++ [n])); [apply resolve_child; [done|by rewrite Hp2, (tr_root _ _ Ht)|done]|]. specialize (Hgone []). by rewrite app_nil_r in Hgone. }
    rewrite Hrm. cbn [snd]. destruct (IHl (n :: D) fs2 Hl) as (fs'' & Hrun & D' & Hp' & HD').
    { intros m [->|Hm]%elem_of_cons; [done|]. intros Hin. apply (HD m Hm). by right. }
    { done. }
    exists fs''. split; [done|]. exists D'. split; [done|]. intros m. rewrite HD'. cbn. rewrite !elem_of_cons. split; [intros [[->|?]|[? ?]]; auto|]. intros [?|[[->|?] ?]]; auto.
Qed.

Lemma DeleteFile_deletes f : deletes f.
Proof.
  induction f as [|f IH]; intros fs d p Hok.
  { exfalso. pose proof (do_depth _ _ _ _ Hok []) as Hd. rewrite app_nil_r in Hd. cbn in Hd. destruct (do_there _ _ _ _ Hok) as [[[x Hx] _]|Ht]; [rewrite Hx in Hd|rewrite (tr_root _ _ Ht) in Hd]; pose proof (Hd ltac:(by eexists)); lia. }
  cbn [Files.DeleteFile]. unfold PathExists, GetType, stat. rewrite (do_path _ _ _ _ Hok). cbn [mbind option_bind]. destruct (do_there _ _ _ _ Hok) as [[[x Hx] Hno]|Ht].
  - rewrite Hx. cbn. rewrite (remove_file _ _ p x) by (done || apply Hok). eexists. split; [done|]. split.
    + intros s. destruct s as [|n s]; [by rewrite app_nil_r, lookup_delete_eq|]. rewrite lookup_delete_ne; [by apply Hno|]. intros He. rewrite <- (app_nil_r p) in He at 1. by apply app_inv_head in He.
    + intros r Hr. apply lookup_delete_ne. intros ->. by apply Hr.
  - rewrite (tr_root _ _ Ht). cbn. rewrite (opendir_tree cwd readable Hread fs d p) by (done || apply Hok). destruct (readdir_listing fs p Ht) as [Hl Hall].
    destruct (delete_entries_ok fs d p f (readdir fs p) IH Hok Ht [] fs Hl) as (fs' & Hrun & D & Hpart & HD).
    { intros n Hn. by apply not_elem_of_nil in Hn. }
    { split; [intros n r Hn; by apply not_elem_of_nil in Hn|done]. }
    rewrite Hrun. destruct (partly_gone_path _ _ _ _ _ _ Hok Hpart) as [Hd Hp].
    assert (Hbelow : forall n s, fs' !! (p ++ n :: s) = None).
    { intros n s. destruct (decide (n ∈ D)) as [Hn|Hn]; [by apply Hpart|]. rewrite (proj2 Hpart) by (intros m t Hm He; apply app_inv_head in He; by injection He as -> _).
      destruct (fs !! (p ++ n :: s)) as [e|] eqn:E; [|done]. exfalso. apply Hn, HD. right.
      assert (Hc : is_Some (fs !! (p ++ [n]))).
      { destruct s as [|m s]; [by rewrite E|]. rewrite (tree_above fs p [n] (m :: s) Ht); [by eexists|cbn; rewrite E; by eexists|done]. }
      split; [by apply Hall|]. apply name_no_dot. by apply (tr_inner _ _ Ht [] n). }
    rewrite (remove_dir _ _ p Hd) by (rewrite ?Hp, ?(tr_root _ _ Ht); done || apply Hok || intros n; apply Hbelow). eexists. split; [done|]. cbn [snd]. split.
    + intros [|n s]; [by rewrite app_nil_r, lookup_delete_eq|]. rewrite lookup_delete_ne; [apply Hbelow|]. intros He. rewrite <- (app_nil_r p) in He at 1. by apply app_inv_head in He.
    + intros r Hr. rewrite lookup_delete_ne by (intros ->; by apply Hr). apply Hpart. intros n s _ ->. apply Hr. by eexists.
Qed.

(** C32: [DeleteFile] deletes where everything is readable and permitted: a file, or a tree of directories and
    regular files of any depth, that is not the root and is given by a path without
    [..], is removed whole, the calls end, success is reported, and nothing else changes; where there is
    nothing it reports success at once.  Where a call is refused the success it reports may be false
    ([DeleteFile_claims_success]). *)
Theorem DeleteFile_removes fs d p fuel :
  resolve cwd fs d = Some p -> ".."%string ∉ split d -> p <> [] ->
  fs !! p = None \/ (exists x, fs !! p = Some (File x)) /\ (forall s, s <> [] -> fs !! (p ++ s) = None) \/ tree fs p ->
  (0 < fuel)%nat -> (forall s, is_Some (fs !! (p ++ s)) -> (length s < fuel)%nat) ->
  exists fs', DeleteFile fuel fs d = Some (true, fs') /\ fs' !! p = None /\
    (is_Some (fs !! p) -> forall s, fs' !! (p ++ s) = None) /\ (forall r, ~ p `prefix_of` r -> fs' !! r = fs !! r).
Proof.
  intros Hd Hplain Hne [Hnone|Hthere] Hfuel Hdepth.
  - exists fs. destruct fuel as [|fuel]; [lia|]. cbn [Files.DeleteFile]. unfold PathExists, stat. rewrite Hd. cbn. rewrite Hnone. split; [done|]. split; [done|]. split; [by intros []|done].
  - destruct (DeleteFile_deletes fuel fs d p) as (fs' & Hrun & Hgone & Hkeep); [by split|]. exists fs'. split; [done|]. split; [|done]. specialize (Hgone []). by rewrite app_nil_r in Hgone.
Qed.
End Deleting.

(** ** Messages *)
Section Messages.
Context (cwd : place) (permitted readable : place -> bool) {T : Type} (print_text : T -> string) (parse_text parse_binary : string -> option T).

(** A message written as text is read back: if the parser understands what the printer prints, then after
    [SetProtoToASCIIFile] has reported success [GetProtoFromFile] on the same path returns the message, whatever
    was there before, for every name that does not end in [.bin] and is long enough to tell. *)
Theorem proto_file_round_trip fs fs' d (m : T) :
  parse_text (print_text m) = Some m -> ends_with_bin d = Some false -> (forall p, readable p = true) ->
  SetProtoToASCIIFile cwd permitted print_text fs m d = (true, fs') -> GetProtoFromFile cwd readable parse_text parse_binary fs' d = Some (Some m).
Proof.
  intros Hm Hd Hread. unfold SetProtoToASCIIFile. destruct (open_write cwd permitted fs d) as [[p fs1]|] eqn:Hw; [|done]. intros [= <-].
  unfold open_write in Hw. destruct (resolve cwd fs d) as [q|] eqn:Hq; [|done]. cbn in Hw.
  assert (Hnd : fs !! q <> Some Dir /\ (p, fs1) = (q, <[q := File ""]> fs)) by (destruct (fs !! q) as [[]|]; try done; destruct (permitted q); try done; by simplify_eq).
  destruct Hnd as [Hnd [= -> ->]]. rewrite insert_insert_eq. assert (Hr : resolve cwd (<[q := File (print_text m)]> fs) d = Some q).
  { eapply resolve_grows; [|exact Hq]. intros r Hr. rewrite lookup_insert_ne; [done|]. by intros <-. }
  unfold GetProtoFromFile. rewrite Hd. unfold GetProtoFromASCIIFile, GetContent, open_read. rewrite Hr. cbn [mbind option_bind]. rewrite lookup_insert_eq, Hread. cbn [mbind option_bind].
  unfold content. rewrite lookup_insert_eq, Hm. done.
Qed.
End Messages.

(** ** Examples, and what goes wrong *)
Definition demo_files : files := list_to_map [([], Dir); (["a"], Dir); (["a"; "x"], File "1"); (["a"; "d"], Dir); (["a"; "d"; "y"], File "2"); (["b"], File "z")]%string.
Definition everywhere (p : place) : bool := true.
Definition no_cp (fs : files) (from to : string) : bool * files := (false, fs).

#[local] Instance name_ok_dec n : Decision (name_ok n). Proof. unfold name_ok. apply _. Defined.
Lemma tree_check (fs : files) p : fs !! p = Some Dir ->
  map_Forall (fun q e => p `prefix_of` q -> q <> p -> fs !! (removelast q) = Some Dir /\ name_ok (default ""%string (last q)) /\ e <> Special) fs -> tree fs p.
Proof.
  intros Hp Hall. split; [done| |].
  - intros s n [e He]. destruct (Hall _ _ He) as (Hd & Hn & _); [by eexists| |].
    + intros Heq. apply (f_equal length) in Heq. rewrite !length_app in Heq. cbn in Heq. lia.
    + rewrite app_assoc, removelast_last in Hd. rewrite app_assoc, last_snoc in Hn. done.
  - intros s He. destruct (decide (s = [])) as [->|Hs]; [rewrite app_nil_r in He; congruence|]. destruct (Hall _ _ He) as (_ & _ & Hx); [by eexists| |done].
    intros Heq. rewrite <- (app_nil_r p) in Heq at 2. by apply app_inv_head in Heq.
Qed.

Lemma demo_tree : tree demo_files ["a"%string].
Proof. apply tree_check; [done|]. apply (bool_decide_unpack _). vm_compute. exact I. Qed.
Lemma demo_depth s : is_Some (demo_files !! (["a"%string] ++ s)) -> (length s < 3)%nat.
Proof.
  intros [e He]. assert (Hall : map_Forall (fun (q : place) (_ : entry) => (length q < 4)%nat) demo_files) by (apply (bool_decide_unpack _); vm_compute; exact I).
  pose proof (Hall _ _ He) as Hl. cbn in Hl. lia.
Qed.


Lemma CopyDir_merges_witness :
  exists fs', CopyDir (H := recent_first) [] everywhere everywhere no_cp 3 demo_files "/a" "//n/m" = Some (true, fs') /\
    fs' !! ["n"; "m"; "d"; "y"]%string = Some (File "2") /\ fs' !! ["n"%string] = Some Dir /\ fs' !! ["a"; "x"]%string = Some (File "1").
Proof.
  destruct (CopyDir_merges (H := recent_first) [] everywhere everywhere no_cp (fun _ => eq_refl) (fun _ => eq_refl) demo_files "/a" ["a"%string] "/" [] ["n"; "m"]%string 3) as (fs' & Hrun & Hin & Hout).
  - vm_compute. reflexivity.
  - exact demo_tree.
  - exact demo_depth.
  - vm_compute. reflexivity.
  - vm_compute. reflexivity.
  - apply (bool_decide_unpack _). vm_compute. exact I.
  - intros [|[|[|k]]]; vm_compute; reflexivity.
  - split; apply (bool_decide_unpack _); vm_compute; exact I.
  - intros s e e' _ He'. exfalso. assert (Hno : map_Forall (fun (q : place) (_ : entry) => ~ ["n"; "m"]%string `prefix_of` q) demo_files) by (apply (bool_decide_unpack _); vm_compute; exact I).
    apply (Hno _ _ He'). by eexists.
  - exists fs'. split; [exact Hrun|]. split; [exact (Hin ["d"; "y"]%string)|]. split; [rewrite Hout; [vm_compute; reflexivity|apply (bool_decide_unpack _); vm_compute; exact I]|].
    rewrite Hout; [vm_compute; reflexivity|apply (bool_decide_unpack _); vm_compute; exact I].
Defined.

Lemma DeleteFile_removes_witness :
  exists fs', DeleteFile (H := recent_first) [] everywhere everywhere 3 demo_files "/a" = Some (true, fs') /\ fs' !! ["a"; "d"; "y"]%string = None /\ fs' !! ["b"%string] = Some (File "z").
Proof.
  destruct (DeleteFile_removes (H := recent_first) [] everywhere everywhere (fun _ => eq_refl) (fun _ => eq_refl) demo_files "/a" ["a"%string] 3) as (fs' & Hrun & _ & Hgone & Hkeep).
  - vm_compute. reflexivity.
  - apply (bool_decide_unpack _). vm_compute. exact I.
  - discriminate.
  - right. right. exact demo_tree.
  - lia.
  - exact demo_depth.
  - exists fs'. split; [exact Hrun|]. split; [apply (Hgone ltac:(vm_compute; by eexists) ["d"; "y"]%string)|]. rewrite Hkeep; [vm_compute; reflexivity|apply (bool_decide_unpack _); vm_compute; exact I].
Defined.

Lemma proto_file_round_trip_witness :
  let r := SetProtoToASCIIFile [] everywhere (fun s : string => s) demo_files "planner" "/a/conf.pb.txt" in
  r.1 = true /\ GetProtoFromFile [] everywhere Some (fun _ => None) r.2 "/a/conf.pb.txt" = Some (Some "planner"%string).
Proof.
  intros r. assert (Hr : r = (true, r.2)) by (vm_compute; reflexivity). split; [vm_compute; reflexivity|].
  apply (proto_file_round_trip [] everywhere everywhere (fun s : string => s) Some (fun _ => None) demo_files r.2 "/a/conf.pb.txt" "planner"%string eq_refl); [vm_compute; reflexivity|done|exact Hr].
Defined.

(** A file in the place of the directory counts as the directory. *)
Theorem EnsureDirectory_accepts_file : Files.EnsureDirectory [] everywhere demo_files "/b" = (true, demo_files) /\ DirectoryExists [] demo_files "/b" = false.
Proof. by vm_compute. Qed.

(** One file that may not be removed: [DeleteFile] reports success and leaves it, with its directories. *)
Theorem DeleteFile_claims_success :
  let permitted p := negb (bool_decide (p = ["a"; "d"; "y"]%string)) in
  exists fs', DeleteFile (H := recent_first) [] permitted everywhere 3 demo_files "/a" = Some (true, fs') /\ fs' !! ["a"; "d"; "y"]%string = Some (File "2") /\ fs' !! ["a"; "x"]%string = None.
Proof. eexists. split; [vm_compute; reflexivity|]. by vm_compute. Qed.

(** A directory copied into itself is filled with itself until the system refuses. *)
Theorem CopyDir_into_itself :
  let permitted (p : place) := (length p <? 9)%nat in
  exists fs', CopyDir (H := recent_first) [] permitted everywhere no_cp 20 {[ [] := Dir; ["a"%string] := Dir ]} "/a" "/a/c" = Some (false, fs') /\ fs' !! ("a" :: replicate 7 "c")%string = Some Dir.
Proof. eexists. split; [vm_compute; reflexivity|]. by vm_compute. Qed.

(** A file copied onto itself is emptied. *)
Theorem CopyFile_onto_itself : exists fs', CopyFile [] everywhere everywhere no_cp demo_files "/b" "/b" = (true, fs') /\ fs' !! ["b"%string] = Some (File "").
Proof. eexists. split; [vm_compute; reflexivity|]. by vm_compute. Qed.

(** [RemoveAllFiles] stops at the first directory it meets: files after it stay. *)
Theorem RemoveAllFiles_stops_at_directory :
  let fs : files := list_to_map [([], Dir); (["a"], Dir); (["a"; "x"], Dir); (["a"; "d"], File "1")]%string in
  exists fs', RemoveAllFiles (H := recent_first) [] everywhere everywhere fs "/a" = (false, fs') /\ fs' !! ["a"; "d"]%string = Some (File "1").
Proof. eexists. split; [vm_compute; reflexivity|]. by vm_compute. Qed.

(** A name that is an end of [.bin], like [bin], is read past its beginning. *)
Theorem ends_with_bin_reads_before_name : ends_with_bin "bin" = None /\ ends_with_bin "" = None.
Proof. by vm_compute. Qed.
