(* ===== verification/Component.v ===== *)
(** * Components: component/component.h, component_base.h, timer_component.cc

    A component of up to four channels is called with a message of its first channel and the latest
    messages of the others.  In reality mode it reads through a [DataVisitor] (DataFlow.v) that a task of
    the scheduler polls; in simulation mode the callback of its first reader looks the others up in
    their blockers (Blocker.v).  The theorem is that both are called alike, as long as the task has its turn
    after every message.

    A [TimerComponent] is called by a timer (Timer.v) on the wheel of the process.

    The arities of the template are instances of one definition over the list of channels; [tys] are
    the message types.  Parameters: [channel_id], the hashes of the channel names, [reader_init], what
    [Init] of a reader on a channel returns in reality mode, and [create_task].  The user's [Init] is
    an argument, the user's [Proc] is recorded in [procs]. *)

From Stdlib Require Import ZArith Lia Ascii.
From stdpp Require Import base gmap sets numbers strings list.
From S2P Require Import Prelude TimingWheel Timer AtomicHashMap CacheBuffer DataFlow Blocker ClassLoader ModuleController.

Record ReaderOption := mkReaderOption { channel : string; qos_depth : Z; pending_queue_size : Z }.
Record ComponentConfig := mkConfig { cfg_name : string; config_file_path : string; flag_file_path : string; readers : list ReaderOption }.

(** [LoadConfigFiles]: the path of the configuration, and the flag file that is set, if any. *)
Definition absolute (cyber_path path : string) : string := if Ascii.eqb (front path) "/" then path else GetAbsolutePath (WorkRoot cyber_path) path.
Definition LoadConfigFiles (cyber_path config_file flag_file old : string) : string * option string :=
  (if String.eqb config_file "" then old else absolute cyber_path config_file, if String.eqb flag_file "" then None else Some (absolute cyber_path flag_file)).

Section Components.
Context {M SB : Type} `{!KeyedStore SB (list nat)} `{HashOrder} (null : M).
Context (cyber_path : string) (channel_id : string -> Z) (reader_init : string -> bool) (create_task : string -> bool).

(** The component with what it uses: the blockers and the data layer of the process, the tasks made
    and removed.  [node_readers]: the channels the node has readers on; [captured]: the blockers that
    the callback holds, false for a null pointer; [null_call]: one was used. *)
Record component := mkComponent {
  node_ : string;
  is_shutdown_ : bool;
  config_file_path_ : string;
  flagfile : option string;
  node_readers : list string;
  readers_ : list ReaderOption;
  captured : list bool;
  visitor : option DataVisitor;
  procs : list (list M);
  null_call : bool;
  blockers_ : gmap string (Blocker.Blocker (M := M));
  data_ : data_state M SB;
  tasks : list string;
  removed : list string
}.

Definition component_new (bm : gmap string (Blocker.Blocker (M := M))) (d : data_state M SB) : component :=
  mkComponent "" false "" None [] [] [] None [] false bm d [] [].
Definition with_node c n f g := mkComponent n (is_shutdown_ c) f g [] (readers_ c) (captured c) (visitor c) (procs c) (null_call c) (blockers_ c) (data_ c) (tasks c) (removed c).
Definition with_reader c ch bm := mkComponent (node_ c) (is_shutdown_ c) (config_file_path_ c) (flagfile c) (node_readers c ++ [ch]) (readers_ c) (captured c) (visitor c) (procs c) (null_call c) bm (data_ c) (tasks c) (removed c).
Definition with_blockers c bm := mkComponent (node_ c) (is_shutdown_ c) (config_file_path_ c) (flagfile c) (node_readers c) (readers_ c) (captured c) (visitor c) (procs c) (null_call c) bm (data_ c) (tasks c) (removed c).
Definition with_captured c l := mkComponent (node_ c) (is_shutdown_ c) (config_file_path_ c) (flagfile c) (node_readers c) (readers_ c) l (visitor c) (procs c) (null_call c) (blockers_ c) (data_ c) (tasks c) (removed c).
Definition with_readers c l := mkComponent (node_ c) (is_shutdown_ c) (config_file_path_ c) (flagfile c) (node_readers c) l (captured c) (visitor c) (procs c) (null_call c) (blockers_ c) (data_ c) (tasks c) (removed c).
Definition with_visitor c v d := mkComponent (node_ c) (is_shutdown_ c) (config_file_path_ c) (flagfile c) (node_readers c) (readers_ c) (captured c) v (procs c) (null_call c) (blockers_ c) d (tasks c) (removed c).
Definition with_procs c l n := mkComponent (node_ c) (is_shutdown_ c) (config_file_path_ c) (flagfile c) (node_readers c) (readers_ c) (captured c) (visitor c) l n (blockers_ c) (data_ c) (tasks c) (removed c).
Definition with_tasks c b bm t r := mkComponent (node_ c) b (config_file_path_ c) (flagfile c) (node_readers c) (readers_ c) (captured c) (visitor c) (procs c) (null_call c) bm (data_ c) t r.

Definition Process (c : component) (msgs : list M) : component := if is_shutdown_ c then c else with_procs c (procs c ++ [msgs]) (null_call c).

(** [Node::CreateReader] for a channel of type [ty]: one reader per channel; in simulation mode it subscribes
    to the blocker of the channel with [callback]; one that fails to is destroyed, which shuts it down. *)
Definition intra_reader (c : component) (ty : nat) (o : ReaderOption) (callback : nat) : IntraReader := Blocker.mkReader false ty (channel o) (node_ c) (qos_depth o) callback.
Definition CreateReader (reality : bool) (c : component) (ty : nat) (o : ReaderOption) (callback : nat) : bool * component :=
  if bool_decide (channel o ∈ node_readers c) || String.eqb (channel o) "" then (false, c)
  else if reality then (reader_init (channel o), if reader_init (channel o) then with_reader c (channel o) (blockers_ c) else c)
  else
    let '(ok, r, bm) := Reader_Init (intra_reader c ty o callback) (blockers_ c) in
    (ok, if ok then with_reader c (channel o) bm else with_blockers c (Reader_Shutdown r bm).2).

(** The readers of the other channels, in order, all of them. *)
Fixpoint create_others (reality : bool) (c : component) (l : list (nat * ReaderOption)) : list bool * component :=
  match l with
  | [] => ([], c)
  | (ty, o) :: l =>
      let '(ok, c) := CreateReader reality c ty o 0 in
      let '(oks, c) := create_others reality c l in (ok :: oks, c)
  end.

Definition others (tys : list nat) (cfg : ComponentConfig) : list (nat * ReaderOption) := tail (zip tys (readers cfg)).

(** The callback of the first reader in simulation mode (its number is 1). *)
Definition sim_func (l : list (nat * ReaderOption)) (c : component) (msg0 : M) : component :=
  if negb (forallb id (captured c)) then with_procs c (procs c) true
  else
    let latest x := b ← blockers_ c !! channel x.2; if IsPublishedEmpty b then None else GetLatestPublishedPtr b in
    match mapM latest l with Some msgs => Process c (msg0 :: msgs) | None => c end.

(** [Initialize] of a component with message types [tys]; [init_ok] is what [Init] returns. *)
Definition Initialize (tys : list nat) (reality init_ok : bool) (cfg : ComponentConfig) (c : component) : bool * component :=
  let files := LoadConfigFiles cyber_path (config_file_path cfg) (flag_file_path cfg) (config_file_path_ c) in
  let c := with_node c (cfg_name cfg) files.1 files.2 in
  if (length (readers cfg) <? length tys)%nat then (false, c)
  else if negb init_ok then (false, c)
  else
    match zip tys (readers cfg) with
    | [] => (true, c)
    | (ty0, o0) :: _ =>
        let '(oks, c) := create_others reality c (others tys cfg) in
        let c := if reality then c
                 else with_captured c ((fun x => bool_decide (is_Some (GetBlocker (blockers_ c) x.1 (channel x.2)))) <$> others tys cfg) in
        let '(ok0, c) := CreateReader reality c ty0 o0 1 in
        if negb (ok0 && forallb id oks) then (false, c)
        else
          let c := with_readers c (take (length tys) (readers cfg)) in
          if negb reality then (true, c)
          else
            let configs := (fun o => (channel_id (channel o), pending_queue_size o)) <$> readers_ c in
            let '(dv, d) := DataVisitor_new null (data_ c) configs in
            let c := with_visitor c (Some dv) d in
            (create_task (node_ c), with_tasks c (is_shutdown_ c) (blockers_ c) (tasks c ++ [node_ c]) (removed c))
    end.

(** The arities of the template. *)
Definition Initialize_0 := Initialize [].
Definition Initialize_1 t0 := Initialize [t0].
Definition Initialize_2 t0 t1 := Initialize [t0; t1].
Definition Initialize_3 t0 t1 t2 := Initialize [t0; t1; t2].
Definition Initialize_4 t0 t1 t2 t3 := Initialize [t0; t1; t2; t3].

(** [Shutdown], in simulation mode with its readers. *)
Definition shut_readers (tys : list nat) (c : component) : gmap string Blocker.Blocker :=
  foldl (fun bm x => (Manager_Unsubscribe bm x.1 (channel x.2) (node_ c)).2) (blockers_ c) (zip tys (readers_ c)).
Definition Shutdown (tys : list nat) (reality : bool) (c : component) : component :=
  if is_shutdown_ c then c
  else with_tasks c true (if reality then blockers_ c else shut_readers tys c) (tasks c) (removed c ++ [node_ c]).

(** A message of a channel in simulation mode: the blocker calls its subscribers. *)
Definition sim_publish (tys : list nat) (cfg : ComponentConfig) (c : component) (e : nat * string * M) : component :=
  let '(_, calls, bm) := Manager_Publish (blockers_ c) e.1.1 e.1.2 e.2 in
  foldl (fun c call => if decide (call.1 = 1%nat) then sim_func (others tys cfg) c call.2 else c) (with_blockers c bm) calls.

(** The task: it fetches and processes until nothing is left. *)
Fixpoint task_run (fuel : nat) (c : component) : component :=
  match fuel, visitor c with
  | S fuel, Some v =>
      match DV_TryFetch (data_ c) v with
      | (Some msgs, v) => task_run fuel (Process (with_visitor c (Some v) (data_ c)) msgs)
      | (None, v) => with_visitor c (Some v) (data_ c)
      end
  | _, _ => c
  end.

(** A message of a channel in reality mode, and the turn of the task it wakes. *)
Definition real_publish (fuel : nat) (c : component) (e : nat * string * M) : component :=
  task_run fuel (with_visitor c (visitor c) (Dispatch (data_ c) (channel_id e.1.2) e.2).2).
End Components.

(** ** TimerComponent *)
Record TimerComponentConfig := mkTimerConfig { t_name : option string; t_config_file_path : string; t_flag_file_path : string; t_interval : option Z }.

(** [t_procs] counts the calls of [Proc]. *)
Record TimerComponent := mkTimerComponent {
  t_node_ : string;
  t_is_shutdown_ : bool;
  t_config_file_path_ : string;
  t_flagfile : option string;
  interval_ : Z;
  timer_ : option Timer;
  t_procs : nat;
  t_removed : list string
}.
Definition TimerComponent_new : TimerComponent := mkTimerComponent "" false "" None 0 None 0 [].

(** [g] is the next timer id, [n] the address of the task. *)
Definition TimerComponent_Initialize (cyber_path : string) (reality init_ok : bool) (cfg : TimerComponentConfig) (g : Z) (n : nat) (c : TimerComponent) (w : TimingWheel) : bool * TimerComponent * TimingWheel :=
  match t_name cfg, t_interval cfg with
  | Some name, Some interval =>
      let files := LoadConfigFiles cyber_path (t_config_file_path cfg) (t_flag_file_path cfg) (t_config_file_path_ c) in
      let c := mkTimerComponent name (t_is_shutdown_ c) files.1 files.2 (interval_ c) (timer_ c) (t_procs c) (t_removed c) in
      if negb init_ok then (false, c, w)
      else
        let w := match timer_ c with Some old => Timer_destroy old w | None => w end in
        let '(tm, w) := Timer_Start reality (Timer_make g interval false).1 w n in
        (true, mkTimerComponent name (t_is_shutdown_ c) files.1 files.2 (interval_ c) (Some tm) (t_procs c) (t_removed c), w)
  | _, _ => (false, c, w)
  end.

Definition TimerComponent_Process (c : TimerComponent) : TimerComponent :=
  if t_is_shutdown_ c then c
  else mkTimerComponent (t_node_ c) (t_is_shutdown_ c) (t_config_file_path_ c) (t_flagfile c) (interval_ c) (timer_ c) (S (t_procs c)) (t_removed c).
Definition TimerComponent_Clear (c : TimerComponent) (w : TimingWheel) : TimerComponent * TimingWheel :=
  (mkTimerComponent (t_node_ c) (t_is_shutdown_ c) (t_config_file_path_ c) (t_flagfile c) (interval_ c) None (t_procs c) (t_removed c),
   match timer_ c with Some tm => Timer_destroy tm w | None => w end).
Definition GetInterval (c : TimerComponent) : Z := interval_ c.

(** [ComponentBase::Shutdown] with this [Clear]. *)
Definition TimerComponent_Shutdown (c : TimerComponent) (w : TimingWheel) : TimerComponent * TimingWheel :=
  if t_is_shutdown_ c then (c, w)
  else
    let '(c, w) := TimerComponent_Clear (mkTimerComponent (t_node_ c) true (t_config_file_path_ c) (t_flagfile c) (interval_ c) (timer_ c) (t_procs c) (t_removed c)) w in
    (mkTimerComponent (t_node_ c) true (t_config_file_path_ c) (t_flagfile c) (interval_ c) (timer_ c) (t_procs c) (t_removed c ++ [t_node_ c]), w).


(** ** Simulation and reality *)
Section Proofs.
Context {M SB : Type} `{!KeyedStore SB (list nat)} `{HashOrder} (null : M).
Context (cyber_path : string) (channel_id : string -> Z) (reader_init : string -> bool) (create_task : string -> bool).
Implicit Types (c : component (M := M) (SB := SB)) (l : list (nat * ReaderOption)) (x : nat * ReaderOption).
Abbreviation Blk := (Blocker.Blocker (M := M)).

Definition with_made c nr bm : component := mkComponent (node_ c) (is_shutdown_ c) (config_file_path_ c) (flagfile c) nr (readers_ c) (captured c) (visitor c) (procs c) (null_call c) bm (data_ c) (tasks c) (removed c).
Definition names l : list string := (fun x => channel x.2) <$> l.

(** The blocker that a first subscription makes. *)
Definition subscribed node x (cb : nat) : Blk := mkBlocker x.1 (mkBAttr (qos_depth x.2) (channel x.2)) [] [] {[node := cb]}.

Lemma CreateReader_sim c x cb :
  channel x.2 <> ""%string -> channel x.2 ∉ node_readers c -> blockers_ c !! channel x.2 = None ->
  CreateReader reader_init false c x.1 x.2 cb = (true, with_made c (node_readers c ++ [channel x.2]) (<[channel x.2 := subscribed (node_ c) x cb]> (blockers_ c))).
Proof.
  intros Hne Hnot Hnone. unfold CreateReader. rewrite bool_decide_false by done. destruct (String.eqb_spec (channel x.2) ""); [done|]. cbn [orb].
  unfold Reader_Init, intra_reader, Manager_Subscribe, GetOrCreateBlocker. cbn. rewrite Hnone. cbn. unfold Subscribe. cbn. rewrite lookup_empty. cbn.
  unfold put. rewrite insert_insert_eq. done.
Qed.

Lemma create_others_sim l : forall c, NoDup (names l) -> (forall x, x ∈ l -> channel x.2 <> ""%string /\ channel x.2 ∉ node_readers c /\ blockers_ c !! channel x.2 = None) ->
  exists bm, let r := create_others reader_init false c l in
  forallb id r.1 = true /\ r.2 = with_made c (node_readers c ++ names l) bm /\
  (forall x, x ∈ l -> bm !! channel x.2 = Some (subscribed (node_ c) x 0)) /\ (forall ch, ch ∉ names l -> bm !! ch = blockers_ c !! ch).
Proof.
  induction l as [|x l IH]; intros c Hnd Hl.
  - exists (blockers_ c). split; [done|]. split; [cbn; rewrite app_nil_r; by destruct c|]. split; [by intros x ?%not_elem_of_nil|done].
  - apply NoDup_cons in Hnd as [Hx Hnd]. destruct (Hl x) as (H1 & H2 & H3); [by left|]. pose proof (CreateReader_sim c x 0 H1 H2 H3) as Hc.
    set (c1 := with_made c _ _) in Hc. destruct (IH c1 Hnd) as (bm & Hoks & Hr & Hin & Hout).
    { intros y Hy. destruct (Hl y) as (? & ? & ?); [by right|]. assert (channel x.2 <> channel y.2) by (intros He; apply Hx; unfold names; rewrite He; by apply (list_elem_of_fmap_2 (fun x : nat * ReaderOption => channel x.2))).
      split; [done|]. unfold c1. cbn. split; [|by rewrite lookup_insert_ne]. rewrite not_elem_of_app, list_elem_of_singleton. split; [done|congruence]. }
    exists bm. cbn [create_others]. destruct x as [ty o]. cbn [fst snd] in *. rewrite Hc. destruct (create_others reader_init false c1 l) as [oks c2]. cbn [fst snd] in *.
    split; [by cbn|]. split; [rewrite Hr; unfold c1; cbn; by rewrite <- app_assoc|]. split.
    + intros y [->|Hy]%elem_of_cons; [|by apply Hin]. rewrite Hout by done. unfold c1. cbn. apply lookup_insert_eq.
    + intros ch [Hne Hch]%not_elem_of_cons. rewrite Hout by done. unfold c1. cbn. by rewrite lookup_insert_ne.
Qed.

(** A configuration whose channels are distinct, also by their ids, with a history for the other channels and
    sizes that fit. *)
Record good_config (tys : list nat) (cfg : ComponentConfig) ty0 o0 ty1 o1 l : Prop := {
  gc_zip : zip tys (readers cfg) = (ty0, o0) :: (ty1, o1) :: l;
  gc_enough : (length tys <= length (readers cfg))%nat;
  gc_named : forall x, x ∈ zip tys (readers cfg) -> channel x.2 <> ""%string;
  gc_ids : NoDup (channel_id <$> names (zip tys (readers cfg)));
  gc_depth : forall x, x ∈ (ty1, o1) :: l -> (0 < qos_depth x.2)%Z;
  gc_size : Forall (fun x => (0 <= pending_queue_size x.2 /\ pending_queue_size x.2 + 1 < two64)%Z) (zip tys (readers cfg))
}.

Abbreviation init := (Initialize null cyber_path channel_id reader_init create_task).

(** The messages by the ids of their channels. *)
Definition by_id (evs : list (nat * string * M)) : list (Z * M) := (fun e => (channel_id e.1.2, e.2)) <$> evs.
Definition ids l : list Z := channel_id <$> names l.

(** The blockers of the channels after the messages [evs]. *)
Definition blocker_ok node (bm : gmap string Blk) (cb : nat) (evs : list (Z * M)) x : Prop :=
  exists b, bm !! channel x.2 = Some b /\ Blocker.ty b = x.1 /\ capacity (attr_ b) = qos_depth x.2 /\ published_callbacks_ b = {[node := cb]} /\
    ((0 < qos_depth x.2)%Z -> head (published_msg_queue_ b) = last (chan_hist (channel_id (channel x.2)) evs)).

Record sim_ok c x0 l (evs : list (Z * M)) : Prop := {
  si_up : is_shutdown_ c = false;
  si_captured : forallb id (captured c) = true /\ null_call c = false;
  si_first : blocker_ok (node_ c) (blockers_ c) 1 evs x0;
  si_others : Forall (blocker_ok (node_ c) (blockers_ c) 0 evs) l;
  si_rest : forall ch b, blockers_ c !! ch = Some b -> ch ∉ names (x0 :: l) -> published_callbacks_ b = ∅;
  si_procs : procs c = fused_ref (channel_id (channel x0.2)) (ids l) [] evs
}.

Lemma subscribed_ok node bm cb x : bm !! channel x.2 = Some (subscribed node x cb) -> blocker_ok node bm cb [] x.
Proof. intros Hb. eexists. split; [exact Hb|]. by split. Qed.

Lemma in_names x l : x ∈ l -> channel x.2 ∈ names l.
Proof. apply (list_elem_of_fmap_2 (fun x : nat * ReaderOption => channel x.2)). Qed.

(** A new component of a process without blockers. *)
Lemma Initialize_sim tys cfg ty0 o0 ty1 o1 l d :
  good_config tys cfg ty0 o0 ty1 o1 l ->
  let r := init tys false true cfg (component_new ∅ d) in
  r.1 = true /\ node_ r.2 = cfg_name cfg /\ sim_ok r.2 (ty0, o0) ((ty1, o1) :: l) [].
Proof.
  intros [Hzip Hlen Hnamed Hids _ _]. unfold Initialize, others. rewrite Hzip in *. destruct (Nat.ltb_spec (length (readers cfg)) (length tys)); [lia|]. cbn [negb].
  set (c1 := with_node _ _ _ _). set (L := (ty1, o1) :: l) in *. apply NoDup_fmap_1 in Hids. apply NoDup_cons in Hids as [Hx0 Hnd]. change (channel o0 ∉ names L) in Hx0.
  destruct (create_others_sim L c1 Hnd) as (bm & Hoks & Hr & Hin & Hout).
  { intros x Hx. split; [apply Hnamed; by right|]. split; [apply not_elem_of_nil|apply lookup_empty]. }
  change (tail ((ty0, o0) :: L)) with L. destruct (create_others reader_init false c1 L) as [oks c2]. cbn [fst snd] in Hoks, Hr. subst c2.
  set (c2 := with_captured _ _). assert (Hnone : blockers_ c2 !! channel o0 = None) by (unfold c2; cbn; rewrite Hout by done; apply lookup_empty).
  pose proof (CreateReader_sim c2 (ty0, o0) 1 (Hnamed (ty0, o0) ltac:(by left)) Hx0 Hnone) as Hc0. cbn [fst snd] in Hc0. rewrite Hc0, Hoks. cbn [andb negb]. split; [done|]. split; [done|].
  assert (Hcap : forallb id (captured c2) = true).
  { apply Is_true_eq_true, forallb_True, Forall_fmap, Forall_forall. intros x Hx. cbn. apply bool_decide_pack. unfold GetBlocker. rewrite (Hin x Hx). cbn. rewrite decide_True by done. by eexists. }
  split; cbn; try done.
  - apply subscribed_ok. apply lookup_insert_eq.
  - apply Forall_forall. intros x Hx. apply subscribed_ok. cbn. rewrite lookup_insert_ne; [by apply Hin|]. intros He. apply Hx0. rewrite He. by apply in_names.
  - intros ch b Hb [Hne Hch]%not_elem_of_cons. rewrite lookup_insert_ne in Hb by done. rewrite Hout in Hb by done. change ((∅ : gmap string Blk) !! ch = Some b) in Hb. by rewrite lookup_empty in Hb.
Qed.

(** Messages of the configured channels have their types; no other channel has the id of one of them. *)
Definition good_event l (e : nat * string * M) : Prop := forall x, x ∈ l -> (e.1.2 = channel x.2 -> e.1.1 = x.1) /\ (channel_id e.1.2 = channel_id (channel x.2) -> e.1.2 = channel x.2).

Lemma Notify_one (b : Blk) node cb m : published_callbacks_ b = {[node := cb]} -> Notify b m = [(cb, m)].
Proof.
  intros Hb. unfold Notify. rewrite Hb. pose proof (rehash_perm _ (map_to_list ({[node := cb]} : gmap string nat))) as Hp. rewrite map_to_list_singleton in Hp.
  apply Permutation_singleton_r in Hp. rewrite map_to_list_singleton. by rewrite Hp.
Qed.

(** A publication on the channel of [x]: its one callback is called, and its newest message is this one. *)
Lemma publish_hit node bm cb evs x m : blocker_ok node bm cb evs x ->
  exists b, Manager_Publish bm x.1 (channel x.2) m = (true, [(cb, m)], <[channel x.2 := b]> bm) /\ blocker_ok node (<[channel x.2 := b]> bm) cb (evs ++ [(channel_id (channel x.2), m)]) x.
Proof.
  intros (b & Hb & Hty & Hcap & Hcb & Hhead). exists (Publish b m).2. unfold Manager_Publish, GetOrCreateBlocker. cbn. rewrite Hb, decide_True by done.
  assert (Hcb' : published_callbacks_ (Enqueue b m) = {[node := cb]}) by (unfold Enqueue; by destruct (_ =? 0)%Z).
  split; [unfold Publish; cbn; by rewrite (Notify_one _ _ _ m Hcb')|].
  exists (Publish b m).2. split; [apply lookup_insert_eq|]. cbn. split; [unfold Enqueue; by destruct (_ =? 0)%Z|]. split; [unfold Enqueue; by destruct (_ =? 0)%Z|]. split; [done|].
  intros Hq. rewrite chan_hist_snoc. cbn. rewrite decide_True, last_snoc by done. unfold Enqueue. rewrite Hcap. destruct (Z.eqb_spec (qos_depth x.2) 0); [lia|]. cbn.
  rewrite pop_all_excess_take by lia. destruct (Z.to_nat (qos_depth x.2)) eqn:E; [lia|]. done.
Qed.

Lemma blocker_ok_other node bm cb evs x ch b m : ch <> channel x.2 -> channel_id ch <> channel_id (channel x.2) ->
  blocker_ok node bm cb evs x -> blocker_ok node (<[ch := b]> bm) cb (evs ++ [(channel_id ch, m)]) x.
Proof.
  intros Hch Hid (b' & Hb & Hty & Hcap & Hcb & Hhead). exists b'. rewrite lookup_insert_ne by done. do 4 (split; [done|]).
  intros Hq. rewrite chan_hist_snoc. cbn. rewrite decide_False, app_nil_r by done. by apply Hhead.
Qed.

Lemma latest_all node bm evs l : (forall x, x ∈ l -> (0 < qos_depth x.2)%Z) -> Forall (blocker_ok node bm 0 evs) l ->
  mapM (fun x => b ← bm !! channel x.2; if IsPublishedEmpty b then None else GetLatestPublishedPtr b) l = mapM (fun id => last (chan_hist id evs)) (ids l).
Proof.
  intros Hq. induction 1 as [|x l (b & Hb & _ & _ & _ & Hhead) Hl IH]; [done|]. cbn [mapM ids names fmap list_fmap]. rewrite Hb. cbn [mbind option_bind].
  rewrite <- (Hhead (Hq x ltac:(by left))). change (mapM _ (channel_id <$> _)) with (mapM (fun id => last (chan_hist id evs)) (ids l)). rewrite <- IH by (intros y Hy; apply Hq; by right).
  unfold GetLatestPublishedPtr, IsPublishedEmpty. by destruct (published_msg_queue_ b).
Qed.

Lemma mapM_ext_in {A B} (f g : A -> option B) (k : list A) : (forall a, a ∈ k -> f a = g a) -> mapM f k = mapM g k.
Proof. induction k as [|a k IH]; intros Hf; [done|]. cbn. rewrite Hf by (by left). by rewrite IH by (intros a' Ha; apply Hf; by right). Qed.

(** A message of a channel the component does not read. *)
Lemma sim_step_outside tys cfg x0 l c ev t ch m :
  ch ∉ names (x0 :: l) -> (forall x, x ∈ x0 :: l -> ch <> channel x.2 -> channel_id ch <> channel_id (channel x.2)) ->
  sim_ok c x0 l ev -> sim_ok (sim_publish tys cfg c (t, ch, m)) x0 l (ev ++ [(channel_id ch, m)]).
Proof.
  intros Hout Hch [Hup [Hcap Hnull] Hfirst Hothers Hrest Hprocs]. unfold sim_publish. cbn [fst snd].
  assert (Hne : forall y, y ∈ x0 :: l -> ch <> channel y.2) by (intros y Hy ->; apply Hout; by apply in_names).
  assert (Href : fused_ref (channel_id (channel x0.2)) (ids l) [] (ev ++ [(channel_id ch, m)]) = fused_ref (channel_id (channel x0.2)) (ids l) [] ev).
  { rewrite fused_ref_snoc. cbn. rewrite decide_False, app_nil_r; [done|]. assert (Hx0 : x0 ∈ x0 :: l) by (by left). by apply Hch, Hne. }
  rewrite <- Hprocs in Href. assert (Hrest' : forall b, published_callbacks_ b = ∅ -> sim_ok (with_blockers c (<[ch := b]> (blockers_ c))) x0 l (ev ++ [(channel_id ch, m)])).
  { intros b Hb. split; cbn; [done|done| | | |by rewrite Href].
    - assert (Hx0 : x0 ∈ x0 :: l) by (by left). apply blocker_ok_other; [by apply Hne|by apply Hch, Hne|done].
    - apply Forall_forall. intros y Hy. assert (Hy' : y ∈ x0 :: l) by (by right). pose proof (Hne y Hy').
      apply blocker_ok_other; [done|by apply Hch|by apply (proj1 (Forall_forall _ _) Hothers)].
    - intros ch' b' Hb' Hin. destruct (decide (ch' = ch)) as [->|]; [rewrite lookup_insert_eq in Hb'; by simplify_eq|rewrite lookup_insert_ne in Hb' by done; by apply (Hrest ch')]. }
  assert (Hcalls : forall b, published_callbacks_ b = ∅ -> published_callbacks_ (Enqueue b m) = ∅ /\ Notify (Enqueue b m) m = []).
  { intros b Hb. assert (Hb' : published_callbacks_ (Enqueue b m) = ∅) by (unfold Enqueue; by destruct (_ =? 0)%Z). split; [done|]. unfold Notify. rewrite Hb', map_to_list_empty.
    pose proof (rehash_perm _ ([] : list (string * nat))) as Hp. apply Permutation_nil_r in Hp. by rewrite Hp. }
  unfold Manager_Publish, GetOrCreateBlocker. cbn [channel_name BlockerAttr_of]. destruct (blockers_ c !! ch) as [b|] eqn:Hb.
  * pose proof (Hrest _ _ Hb Hout) as Hb0. destruct (Hcalls b Hb0) as [Hb1 Hno]. destruct (decide (Blocker.ty b = t)).
    -- unfold Publish. cbn [fst snd]. rewrite Hno. cbn [foldl]. by apply Hrest'.
    -- cbn [foldl fst snd]. replace (with_blockers c (blockers_ c)) with (with_blockers c (<[ch := b]> (blockers_ c))) by (by rewrite insert_id). by apply Hrest'.
  * destruct (Hcalls (Blocker_new t (BlockerAttr_of ch)) eq_refl) as [Hb1 Hno]. unfold Publish, put. cbn [fst snd]. rewrite Hno, insert_insert_eq. cbn [foldl]. by apply Hrest'.
Qed.

Lemma sim_step tys cfg x0 l c evs e :
  others tys cfg = l -> NoDup (ids (x0 :: l)) -> (forall x, x ∈ l -> (0 < qos_depth x.2)%Z) -> good_event (x0 :: l) e ->
  sim_ok c x0 l (by_id evs) -> sim_ok (sim_publish tys cfg c e) x0 l (by_id (evs ++ [e])).
Proof.
  intros Ho Hnd Hq He [Hup [Hcap Hnull] Hfirst Hothers Hrest Hprocs]. destruct e as [[t ch] m]. unfold by_id in *. rewrite fmap_app. cbn [fmap list_fmap fst snd]. set (ev := (fun e : nat * string * M => _) <$> evs) in *.
  unfold sim_publish. cbn [fst snd]. assert (Hch : forall x, x ∈ x0 :: l -> ch <> channel x.2 -> channel_id ch <> channel_id (channel x.2)) by (intros x Hx Hne Heq; by apply Hne, (He x Hx)).
  assert (Hsame : forall x y, x ∈ x0 :: l -> y ∈ x0 :: l -> channel x.2 = channel y.2 -> x = y).
  { intros x y Hx Hy Hxy. apply list_elem_of_lookup in Hx as [i Hi], Hy as [j Hj]. assert (i = j); [|by simplify_eq].
    eapply (NoDup_lookup (ids (x0 :: l)) i j (channel_id (channel x.2)) Hnd); unfold ids, names; rewrite !list_lookup_fmap; [by rewrite Hi|by rewrite Hj; cbn; rewrite Hxy]. }
  destruct (decide (ch = channel x0.2)) as [->|Hne0].
  - destruct (He x0 ltac:(by left)) as [Hty _]. cbn in Hty. rewrite Hty by done.
    destruct (publish_hit _ _ _ _ _ m Hfirst) as (b & -> & Hfirst'). cbn [foldl fst snd]. rewrite decide_True by done.
    assert (Hothers' : Forall (blocker_ok (node_ c) (<[channel x0.2 := b]> (blockers_ c)) 0 (ev ++ [(channel_id (channel x0.2), m)])) l).
    { rewrite Forall_forall in Hothers |- *. intros x Hx. assert (channel x0.2 <> channel x.2).
      { intros Heq. apply NoDup_cons in Hnd as [Hn _]. apply Hn. change (channel_id (channel x0.2) ∈ ids l). rewrite Heq. unfold ids. by apply list_elem_of_fmap_2, in_names. }
      apply blocker_ok_other; [done|apply Hch; [by right|done]|by apply Hothers]. }
    assert (Hrest' : forall ch b', (<[channel x0.2 := b]> (blockers_ c)) !! ch = Some b' -> ch ∉ names (x0 :: l) -> published_callbacks_ b' = ∅).
    { intros ch b' Hb' Hin. rewrite lookup_insert_ne in Hb' by (intros <-; apply Hin; by left). by apply (Hrest ch). }
    unfold sim_func. cbn [captured with_blockers]. rewrite Hcap. cbn [negb blockers_ with_blockers]. rewrite Ho.
    assert (Hlast : mapM (fun x => b0 ← <[channel x0.2 := b]> (blockers_ c) !! channel x.2; if IsPublishedEmpty b0 then None else GetLatestPublishedPtr b0) l = mapM (fun id => last (chan_hist id ev)) (ids l)).
    { rewrite (latest_all _ _ _ _ Hq Hothers'). apply NoDup_cons in Hnd as [Hn _]. apply mapM_ext_in. intros id Hid. rewrite chan_hist_snoc. cbn. rewrite decide_False, app_nil_r; [done|]. intros <-. done. }
    rewrite Hlast. assert (Hsnoc : fused_ref (channel_id (channel x0.2)) (ids l) [] (ev ++ [(channel_id (channel x0.2), m)]) =
      procs c ++ match mapM (fun id => last (chan_hist id ev)) (ids l) with Some ms => [m :: ms] | None => [] end).
    { rewrite fused_ref_snoc. cbn [fst snd]. rewrite decide_True by done. by rewrite Hprocs. }
    destruct (mapM _ (ids l)) as [msgs|]; [|rewrite app_nil_r in Hsnoc; by split].
    unfold Process. cbn [is_shutdown_ with_blockers]. rewrite Hup. by split.
  - assert (Href : fused_ref (channel_id (channel x0.2)) (ids l) [] (ev ++ [(channel_id ch, m)]) = fused_ref (channel_id (channel x0.2)) (ids l) [] ev).
    { rewrite fused_ref_snoc. cbn. rewrite decide_False, app_nil_r; [done|]. apply Hch; [by left|done]. }
    assert (Hfar : forall b, blocker_ok (node_ c) (<[ch := b]> (blockers_ c)) 1 (ev ++ [(channel_id ch, m)]) x0) by (intros b; apply blocker_ok_other; [done|apply Hch; [by left|done]|done]).
    destruct (decide (ch ∈ names l)) as [Hin|Hnin].
    + apply list_elem_of_fmap in Hin as (x & -> & Hx). destruct (He x ltac:(by right)) as [Hty _]. cbn in Hty. rewrite Hty by done.
      destruct (publish_hit _ _ _ _ _ m (proj1 (Forall_forall _ _) Hothers x Hx)) as (b & -> & Hx'). cbn [foldl fst snd]. rewrite decide_False by done.
      split; cbn; [done|done|apply Hfar| | |by rewrite Href].
      * apply Forall_forall. intros y Hy. destruct (decide (channel x.2 = channel y.2)) as [Heq|Hne].
        -- assert (x = y) as <- by (apply Hsame; [by right|by right|done]). done.
        -- apply blocker_ok_other; [done|apply Hch; [by right|done]|by apply (proj1 (Forall_forall _ _) Hothers)].
      * intros ch b' Hb' Hin. rewrite lookup_insert_ne in Hb' by (intros <-; apply Hin; right; by apply in_names). by apply (Hrest ch).
    + apply (sim_step_outside tys cfg x0 l c ev t ch m); [by apply not_elem_of_cons|done|by split].
Qed.

Lemma sim_run tys cfg x0 l c evs :
  others tys cfg = l -> NoDup (ids (x0 :: l)) -> (forall x, x ∈ l -> (0 < qos_depth x.2)%Z) -> Forall (good_event (x0 :: l)) evs ->
  sim_ok c x0 l [] -> sim_ok (foldl (sim_publish tys cfg) c evs) x0 l (by_id evs).
Proof.
  intros Ho Hnd Hq He H0. induction evs as [|e evs IH] using rev_ind; [done|]. apply Forall_app in He as [Hes He]. apply Forall_cons in He as [He _].
  rewrite foldl_snoc. apply sim_step; [done..|]. by apply IH.
Qed.

(** *** Reality *)
Lemma create_others_real l : forall c, (forall ch, reader_init ch = true) -> NoDup (names l) -> (forall x, x ∈ l -> channel x.2 <> ""%string /\ channel x.2 ∉ node_readers c) ->
  let r := create_others reader_init true c l in forallb id r.1 = true /\ r.2 = with_made c (node_readers c ++ names l) (blockers_ c).
Proof.
  intros c Hri. revert c. induction l as [|[ty o] l IH]; intros c Hnd Hl; [cbn; rewrite app_nil_r; by destruct c|].
  apply NoDup_cons in Hnd as [Hx Hnd]. destruct (Hl (ty, o)) as [Hne Hnot]; [by left|]. cbn [create_others]. unfold CreateReader. cbn [fst snd] in *.
  rewrite bool_decide_false by done. destruct (String.eqb_spec (channel o) ""); [done|]. cbn [orb]. rewrite Hri. set (c1 := with_reader _ _ _).
  destruct (IH c1 Hnd) as [Hoks Hr].
  { intros y Hy. split; [apply Hl; by right|]. unfold c1. cbn. rewrite not_elem_of_app, list_elem_of_singleton. split; [apply Hl; by right|]. intros He. apply Hx. cbn. rewrite <- He. by apply in_names. }
  destruct (create_others _ _ c1 l) as [oks c2]. cbn [fst snd] in *. split; [done|]. rewrite Hr. unfold c1. cbn. by rewrite <- app_assoc.
Qed.

(** The component after the messages [evs] and the turns of its task. *)
Record real_ok c (k0 : Z) (cs : list Z) (evs : list (Z * M)) : Prop := {
  re_up : is_shutdown_ c = false;
  re_visitor : exists v, visitor c = Some v /\ fusion_ok (data_ c) v k0 cs evs /\
    dv_next_msg_index_ v = (if decide (fused_ref k0 cs [] evs = []) then 0 else Z.of_nat (length (fused_ref k0 cs [] evs)) + 1)%Z;
  re_procs : procs c = fused_ref k0 cs [] evs
}.

Lemma fusion_ok_index (d : data_state M SB) v k0 cs evs (i : Z) : fusion_ok d v k0 cs evs -> fusion_ok (d : data_state M SB) (mkDV (dv_buffers v) (dv_fusion v) (dv_notifier v) i) k0 cs evs.
Proof. intros []. by split. Qed.

(** One call of [TryFetch]: nothing when the newest tuple has been fetched, else the newest. *)
Lemma TryFetch_step (d : data_state M SB) v k0 cs evs : let ref := fused_ref k0 cs [] evs in let n := Z.of_nat (length ref) in
  fusion_ok (d : data_state M SB) v k0 cs evs ->
  ((ref = [] /\ dv_next_msg_index_ v = 0 \/ dv_next_msg_index_ v = n + 1)%Z -> DV_TryFetch d v = (None, v)) /\
  ((ref <> [] /\ (dv_next_msg_index_ v = 0 \/ dv_next_msg_index_ v = n))%Z -> exists m, last ref = Some m /\ DV_TryFetch d v = (Some m, mkDV (dv_buffers v) (dv_fusion v) (dv_notifier v) (n + 1))).
Proof.
  intros ref n Hok. destruct (fo_objs _ _ _ _ _ Hok) as (b0 & bs & f & B0 & BF & _ & Hf & _ & _ & _ & _ & _ & _ & _ & HF & _ & Hr). fold ref in Hr.
  unfold DV_TryFetch, Fusion. rewrite Hf, HF. cbn [mbind option_bind]. pose proof (Fetch_spec BF ref (dv_next_msg_index_ v) Hr) as Hfe. pose proof (rp_tail _ _ Hr) as Ht. pose proof (rp_bound _ _ Hr). fold n in Ht. split.
  - intros Hi. specialize (Hfe ltac:(lia)). rewrite decide_True in Hfe by (destruct Hi as [[]|]; [by left|right; lia]). by rewrite Hfe.
  - intros [Hne Hi]. assert (0 < length ref)%nat by (destruct ref; [done|cbn; lia]). specialize (Hfe ltac:(lia)). rewrite decide_False in Hfe by (intros [|]; [done|lia]).
    destruct Hfe as (m & -> & Hm). assert (Hp : fetch_pos BF (dv_next_msg_index_ v) = n) by (unfold fetch_pos; case_decide; [done|lia]).
    rewrite Hp in *. exists m. split; [|cbn; by rewrite u64_small by lia]. rewrite last_lookup, <- Hm. f_equal. lia.
Qed.

Lemma real_step c k0 cs evs e fuel : (1 < fuel)%nat -> (Z.of_nat (length evs) + 3 < two64)%Z ->
  real_ok c k0 cs (by_id evs) -> real_ok (real_publish channel_id fuel c e) k0 cs (by_id (evs ++ [e])).
Proof.
  intros Hfuel Hlen [Hup (v & Hv & Hok & Hi) Hprocs]. destruct fuel as [|[|fuel]]; [lia..|]. destruct e as [[t ch] m]. unfold real_publish. cbn [fst snd].
  assert (Hby : by_id (evs ++ [(t, ch, m)]) = by_id evs ++ [(channel_id ch, m)]) by (unfold by_id; by rewrite fmap_app). rewrite Hby.
  assert (Hok' : fusion_ok (Dispatch (data_ c) (channel_id ch) m).2 v k0 cs (by_id evs ++ [(channel_id ch, m)])).
  { assert (length (by_id evs) = length evs) by (unfold by_id; by rewrite length_fmap). destruct (decide (channel_id ch = k0)) as [<-|]; [apply fusion_first|apply fusion_other]; try done; lia. }
  set (d := (Dispatch _ _ _).2) in *. set (ref := fused_ref k0 cs [] (by_id evs)) in *.
  assert (Hsnoc : exists new, fused_ref k0 cs [] (by_id evs ++ [(channel_id ch, m)]) = ref ++ new /\ (length new <= 1)%nat).
  { rewrite fused_ref_snoc. eexists. split; [done|]. repeat case_match; cbn; lia. }
  destruct Hsnoc as (new & Hsnoc & Hnew). cbn [task_run visitor data_ with_visitor]. rewrite Hv.
  pose proof (TryFetch_step d v k0 cs _ Hok') as Ht. cbv zeta in Ht. rewrite Hsnoc in Ht. destruct Ht as [Hnone Hsome].
  destruct new as [|p [|]]; [| |cbn in Hnew; lia].
  - rewrite app_nil_r in *. rewrite Hnone by (rewrite Hi; case_decide; [by left|by right]).
    split; cbn; [done| |by rewrite Hsnoc]. exists v. split; [done|]. split; [done|]. by rewrite Hsnoc.
  - destruct Hsome as (m' & Hm' & Hd). { split; [by destruct ref|]. rewrite Hi, length_app. case_decide as Hr; [by left|right; cbn; lia]. }
    rewrite Hd. rewrite last_snoc in Hm'. injection Hm' as <-. unfold Process. cbn [is_shutdown_ with_visitor]. rewrite Hup.
    cbn [task_run visitor data_ with_procs with_visitor].
    set (v' := mkDV _ _ _ _). pose proof (fusion_ok_index _ _ _ _ _ (Z.of_nat (length (ref ++ [p])) + 1) Hok' : fusion_ok d v' _ _ _) as Hok''.
    destruct (TryFetch_step d v' k0 cs _ Hok'') as [Hnone' _]. rewrite Hnone' by (rewrite Hsnoc; by right).
    split; cbn; [done| |by rewrite Hsnoc, Hprocs]. exists v'. split; [done|]. split; [done|]. rewrite Hsnoc. unfold v'. cbn. rewrite decide_False; [done|]. by destruct ref.
Qed.

Lemma zip_options (tys : list nat) (rs : list ReaderOption) : (length tys <= length rs)%nat ->
  (fun o => (channel_id (channel o), pending_queue_size o)) <$> take (length tys) rs = (fun x : nat * ReaderOption => (channel_id (channel x.2), pending_queue_size x.2)) <$> zip tys rs.
Proof. revert rs. induction tys as [|t tys IH]; intros [|o rs] Hl; [done|done|cbn in Hl; lia|]. cbn in Hl |- *. by rewrite <- IH by lia. Qed.

Lemma Initialize_real tys cfg ty0 o0 ty1 o1 l bm :
  good_config tys cfg ty0 o0 ty1 o1 l -> (forall ch, reader_init ch = true) -> create_task (cfg_name cfg) = true ->
  let r := init tys true true cfg (component_new bm (data_init : data_state M SB)) in
  r.1 = true /\ tasks r.2 = [cfg_name cfg] /\ real_ok r.2 (channel_id (channel o0)) (ids ((ty1, o1) :: l)) [].
Proof.
  intros [Hzip Hlen Hnamed Hids _ Hsz] Hri Hct. unfold Initialize, others. destruct (Nat.ltb_spec (length (readers cfg)) (length tys)); [lia|]. cbn [negb].
  pose proof (zip_options tys (readers cfg) Hlen) as Hconf. rewrite Hzip in *. set (c1 := with_node _ _ _ _). set (L := (ty1, o1) :: l) in *.
  pose proof Hids as Hnd. apply NoDup_fmap_1 in Hnd. apply NoDup_cons in Hnd as [Hx0 Hnd]. change (channel o0 ∉ names L) in Hx0. change (NoDup (names L)) in Hnd.
  destruct (create_others_real L c1 Hri Hnd) as [Hoks Hr]. { intros x Hx. split; [apply Hnamed; by right|apply not_elem_of_nil]. }
  change (tail ((ty0, o0) :: L)) with L. destruct (create_others reader_init true c1 L) as [oks c2]. cbn [fst snd] in Hoks, Hr. subst c2.
  unfold CreateReader. cbn [node_readers with_made c1 with_node component_new]. rewrite bool_decide_false by done. pose proof (Hnamed (ty0, o0) ltac:(by left)) as Hne. cbn in Hne.
  destruct (String.eqb_spec (channel o0) ""); [done|]. cbn [orb]. rewrite Hri, Hoks. cbn [andb negb]. cbn [readers_ with_readers]. rewrite Hconf.
  assert (Hcfg : (fun x : nat * ReaderOption => (channel_id (channel x.2), pending_queue_size x.2)) <$> (ty0, o0) :: L =
    (channel_id (channel o0), pending_queue_size o0) :: (channel_id (channel o1), pending_queue_size o1) :: ((fun x : nat * ReaderOption => (channel_id (channel x.2), pending_queue_size x.2)) <$> l)) by done.
  rewrite Hcfg. set (configs := _ <$> l).
  assert (Hc1 : configs.*1 = ids l) by (unfold configs, ids, names; by rewrite <- !list_fmap_compose).
  pose proof (DataVisitor_new_ok (SB := SB) null (channel_id (channel o0)) (pending_queue_size o0) (channel_id (channel o1)) (pending_queue_size o1) configs) as Hv.
  set (full := (channel_id (channel o0), pending_queue_size o0) :: (channel_id (channel o1), pending_queue_size o1) :: configs) in *. cbv zeta in Hv.
  assert (Hok : fusion_ok (DataVisitor_new null (data_init : data_state M SB) full).2 (DataVisitor_new null (data_init : data_state M SB) full).1 (channel_id (channel o0)) (ids L) []).
  { change (ids L) with (channel_id (channel o1) :: ids l). rewrite <- Hc1. apply Hv.
    - unfold full. cbn [fmap list_fmap fst]. change (list_fmap _ _ fst configs) with configs.*1. rewrite Hc1. exact Hids.
    - change full with ((fun x : nat * ReaderOption => (channel_id (channel x.2), pending_queue_size x.2)) <$> (ty0, o0) :: L). apply Forall_fmap. exact Hsz. }
  assert (Hidx : dv_next_msg_index_ (DataVisitor_new null (data_init : data_state M SB) full).1 = 0%Z).
  { unfold DataVisitor_new. repeat case_match; done. }
  cbn [data_ with_readers with_reader with_made c1 with_node component_new] in *. destruct (DataVisitor_new null data_init full) as [dv d]. cbn [fst snd] in *.
  cbn [node_ with_visitor with_readers with_reader with_made c1 with_node component_new]. split; [done|]. split; [done|]. split; [done| |done]. by exists dv.
Qed.

(** C29: A component behaves in simulation mode as in reality mode: over any sequence of messages on its two
    to four channels and others, the [Proc] of the user is called with exactly the same messages in the
    same order, namely one call for every message of the first channel that arrives when all other
    channels have one, with their latest messages; in the one mode the callback of the first reader
    looks into the blockers, in the other a task polls a fusing visitor.  That is: the task has its
    turn after every single message, with enough of it to poll and to find nothing more; the
    configuration names a channel for every type, with names that are not empty and have ids of their
    own, a depth of at least 1 for every channel but the first, and pending queues shorter than
    2^64 - 1 ([good_config]); a message on one of these channels has its type, and other channels have
    other ids ([good_event]); readers initialise and the task is created; the process is fresh, without
    blockers or data buffers; and there are fewer than 2^64 - 3 messages. *)
Theorem simulation_as_reality tys cfg ty0 o0 ty1 o1 l (bm : gmap string Blk) (d : data_state M SB) evs fuel :
  good_config tys cfg ty0 o0 ty1 o1 l -> (forall ch, reader_init ch = true) -> create_task (cfg_name cfg) = true ->
  Forall (good_event ((ty0, o0) :: (ty1, o1) :: l)) evs -> (Z.of_nat (length evs) + 3 < two64)%Z -> (1 < fuel)%nat ->
  let sim := init tys false true cfg (component_new ∅ d) in
  let real := init tys true true cfg (component_new bm (data_init : data_state M SB)) in
  let wanted := fused_ref (channel_id (channel o0)) (ids ((ty1, o1) :: l)) [] (by_id evs) in
  sim.1 = true /\ real.1 = true /\
  procs (foldl (sim_publish tys cfg) sim.2 evs) = wanted /\ null_call (foldl (sim_publish tys cfg) sim.2 evs) = false /\
  procs (foldl (real_publish channel_id fuel) real.2 evs) = wanted.
Proof.
  intros Hg Hri Hct He Hlen Hfuel sim real wanted. pose proof Hg as [Hzip _ _ Hids Hq _]. rewrite Hzip in Hids.
  destruct (Initialize_sim _ _ _ _ _ _ _ d Hg) as (Hs & _ & Hsok). fold sim in Hs, Hsok.
  destruct (Initialize_real _ _ _ _ _ _ _ bm Hg Hri Hct) as (Hr & _ & Hrok). fold real in Hr, Hrok. split; [done|]. split; [done|].
  assert (Ho : others tys cfg = (ty1, o1) :: l) by (unfold others; by rewrite Hzip).
  destruct (sim_run _ _ _ _ _ _ Ho Hids Hq He Hsok) as [_ [_ Hnull] _ _ _ Hp]. split; [exact Hp|]. split; [exact Hnull|].
  assert (Hrun : real_ok (foldl (real_publish channel_id fuel) real.2 evs) (channel_id (channel o0)) (ids ((ty1, o1) :: l)) (by_id evs)); [|by apply re_procs].
  clear He Hp Hnull. induction evs as [|e evs IH] using rev_ind; [done|]. rewrite length_app in Hlen. cbn in Hlen. rewrite foldl_snoc. apply real_step; [done|lia|]. apply IH. lia.
Qed.
End Proofs.

(** ** Shutting down *)
Section Down.
Context {M SB : Type} `{!KeyedStore SB (list nat)} `{HashOrder} (null : M) (channel_id : string -> Z).
Implicit Types (c : component (M := M) (SB := SB)).

Lemma task_run_down fuel : forall c, is_shutdown_ c = true -> is_shutdown_ (task_run fuel c) = true /\ procs (task_run fuel c) = procs c.
Proof.
  induction fuel as [|fuel IH]; intros c Hc; [done|]. cbn [task_run]. destruct (visitor c) as [v|]; [|done]. destruct (DV_TryFetch _ v) as [[ms|] v']; [|done].
  unfold Process. cbn [is_shutdown_ with_visitor]. rewrite Hc. by destruct (IH (with_visitor c (Some v') (data_ c)) Hc).
Qed.

Lemma sim_func_down l c m : is_shutdown_ c = true -> is_shutdown_ (sim_func l c m) = true /\ procs (sim_func l c m) = procs c.
Proof. intros Hc. unfold sim_func, Process. rewrite Hc. by repeat case_match. Qed.

(** After [Shutdown] the [Proc] of the user is never called again, in either mode, and the second
    [Shutdown] does nothing. *)
Theorem shutdown_silences tys cfg reality fuel c evs :
  let down := Shutdown tys reality c in
  procs (foldl (sim_publish tys cfg) down evs) = procs c /\ procs (foldl (real_publish channel_id fuel) down evs) = procs c /\ Shutdown tys reality down = down.
Proof.
  intros down. assert (Hd : is_shutdown_ down = true /\ procs down = procs c) by (unfold down, Shutdown; by destruct (is_shutdown_ c) eqn:E).
  split; [|split].
  - destruct Hd as [Hd <-]. revert Hd. generalize down. induction evs as [|e evs IH]; intros c0 Hd; [done|]. cbn [foldl].
    assert (Hs : is_shutdown_ (sim_publish tys cfg c0 e) = true /\ procs (sim_publish tys cfg c0 e) = procs c0); [|destruct Hs as [Hs1 <-]; by apply IH].
    unfold sim_publish. destruct (Manager_Publish _ _ _ _) as [[ok calls] bm]. assert (H0 : is_shutdown_ (with_blockers c0 bm) = true /\ procs (with_blockers c0 bm) = procs c0) by done.
    revert H0. generalize (with_blockers c0 bm). induction calls as [|[i m] calls IHc]; intros c1 [H1 H2]; [done|]. cbn [foldl]. apply IHc. case_decide; [|done].
    cbn [snd]. destruct (sim_func_down (others tys cfg) c1 m H1) as [-> ->]. done.
  - destruct Hd as [Hd <-]. revert Hd. generalize down. induction evs as [|e evs IH]; intros c0 Hd; [done|]. cbn [foldl]. unfold real_publish at 2.
    set (c1 := with_visitor _ _ _). destruct (task_run_down fuel c1 Hd) as [H1 H2]. rewrite IH by done. exact H2.
  - unfold Shutdown at 1. by rewrite (proj1 Hd).
Qed.
End Down.

(** A timer component with an interval that fits puts one task on the wheel; [Shutdown] takes it away, and
    afterwards neither [Process] nor another [Shutdown] does anything. *)
Theorem timer_component_lifecycle cyber_path cfg name p g n w :
  t_name cfg = Some name -> t_interval cfg = Some p -> (1 <= p < TIMER_MAX_INTERVAL_MS)%Z ->
  let '(ok, c, w1) := TimerComponent_Initialize cyber_path true true cfg g n TimerComponent_new w in
  ok = true /\ w1 = AddTask (Timer.with_tasks w (<[n := mkTask p 0 p 0 0]> (TimingWheel.tasks w))) n (mkTask p 0 p 0 0) /\
  let '(c, w2) := TimerComponent_Shutdown c w1 in TimingWheel.tasks w2 !! n = None /\ TimerComponent_Process c = c /\ TimerComponent_Shutdown c w2 = (c, w2).
Proof.
  intros Hname Hp Hr. unfold TimerComponent_Initialize. rewrite Hname, Hp. cbn [negb timer_ TimerComponent_new].
  assert (Hm : (TIMER_MAX_INTERVAL_MS < two32)%Z) by done. assert (Hu : u32 p = p) by (apply u32_small; lia).
  pose proof (Timer_Start_wheel (Timer_make g p false).1 w n eq_refl eq_refl) as Hs. cbn in Hs. rewrite Hu in Hs. cbv zeta in Hs. specialize (Hs Hr). unfold Timer_make, Timer_of_option, GenerateTimerId in *. cbn in Hs |- *. rewrite ?Hu, Hs.
  set (w1 := AddTask _ n _). split; [done|]. split; [done|]. cbn. by rewrite lookup_delete_eq.
Qed.

(** ** Examples, and what goes wrong *)
Definition demo_id (ch : string) : Z := if String.eqb ch "a" then 10 else if String.eqb ch "b" then 20 else 30.
Definition demo_config (depth : Z) : ComponentConfig := mkConfig "planner" "conf/p.pb.txt" "" [mkReaderOption "a" 1 4; mkReaderOption "b" depth 4].
Definition demo_messages : list (nat * string * Z) := [(0%nat, "a", 7); (1%nat, "b", 1); (0%nat, "a", 8); (5%nat, "c", 2); (1%nat, "b", 3); (0%nat, "a", 9)]%string%Z.
Abbreviation demo_init := (Initialize (SB := AtomicHashMap (list nat)) (0 : Z)%Z "/apollo" demo_id (fun _ => true) (fun _ => true)).
Abbreviation demo_new := (component_new (M := Z) (SB := AtomicHashMap (list nat)) ∅ data_init).

Lemma simulation_as_reality_witness :
  let sim := demo_init [0; 1]%nat false true (demo_config 1) demo_new in
  let real := demo_init [0; 1]%nat true true (demo_config 1) demo_new in
  procs (foldl (sim_publish (H := recent_first) [0; 1]%nat (demo_config 1)) sim.2 demo_messages) = [[8; 1]; [9; 3]]%Z /\
  procs (foldl (real_publish demo_id 2) real.2 demo_messages) = [[8; 1]; [9; 3]]%Z.
Proof.
  assert (Hg : good_config demo_id [0; 1]%nat (demo_config 1) 0 (mkReaderOption "a" 1 4) 1 (mkReaderOption "b" 1 4) []).
  { split; [reflexivity|cbn; lia| | | |].
    - intros x [->|[->|Hx%not_elem_of_nil]%elem_of_cons]%elem_of_cons; done.
    - apply (bool_decide_unpack _). vm_compute. exact I.
    - intros x [->|Hx%not_elem_of_nil]%elem_of_cons; done.
    - repeat constructor; cbn; word_lia. }
  assert (He : Forall (good_event demo_id [(0%nat, mkReaderOption "a" 1 4); (1%nat, mkReaderOption "b" 1 4)]) demo_messages).
  { unfold demo_messages. repeat (apply Forall_cons; split; [intros x [->|[->|Hx%not_elem_of_nil]%elem_of_cons]%elem_of_cons; (split; [intros; done|intros Hid; done || (exfalso; vm_compute in Hid; discriminate)])|]). constructor. }
  destruct (simulation_as_reality (H := recent_first) (SB := AtomicHashMap (list nat)) 0%Z "/apollo" demo_id (fun _ => true) (fun _ => true) [0; 1]%nat (demo_config 1) _ _ _ _ [] ∅ data_init demo_messages 2 Hg
    (fun _ => eq_refl) eq_refl He ltac:(vm_compute; reflexivity) ltac:(lia)) as (_ & _ & Hs & _ & Hr).
  split; [exact Hs|exact Hr].
Defined.

(** A depth of 0, the default of the system: in simulation mode the blocker of the second channel keeps nothing and
    the component is never called. *)
Theorem depth_zero_never_called :
  let sim := demo_init [0; 1]%nat false true (demo_config 0) demo_new in
  let real := demo_init [0; 1]%nat true true (demo_config 0) demo_new in
  procs (foldl (sim_publish (H := recent_first) [0; 1]%nat (demo_config 0)) sim.2 demo_messages) = [] /\
  procs (foldl (real_publish demo_id 2) real.2 demo_messages) = [[8; 1]; [9; 3]]%Z.
Proof. by vm_compute. Qed.

(** The second channel is in use with another type: [Initialize] fails, after it has subscribed the callback, which
    holds a null pointer to the blocker and goes through it at the next message of the first channel. *)
Theorem failed_component_calls_null :
  let taken := component_new (M := Z) (SB := AtomicHashMap (list nat)) {["b"%string := Blocker_new 9 (mkBAttr 1 "b")]} data_init in
  let r := demo_init [0; 1]%nat false true (demo_config 1) taken in
  r.1 = false /\ null_call (sim_publish (H := recent_first) [0; 1]%nat (demo_config 1) r.2 (0%nat, "a"%string, 7%Z)) = true.
Proof. by vm_compute. Qed.

(** [interval_] is never set. *)
Theorem interval_always_zero cyber_path reality init_ok cfg g n w :
  GetInterval (TimerComponent_Initialize cyber_path reality init_ok cfg g n TimerComponent_new w).1.2 = 0%Z.
Proof. unfold TimerComponent_Initialize. by repeat case_match. Qed.
